(* ===== verification/_CoqProject ===== *)
-Q . S2P
Prelude.v
Layout.v
Slots.v
Wire.v
Device.v
Volume.v
BlockStore.v
Samples.v
Opening.v
Journal.v
Transaction.v
Recovery.v
Allocator.v
BPlusTree.v
Attribute.v
Stream.v
Directory.v
Query.v
WriterNode.v
WriterStream.v
WriterTrim.v
WriterTree.v
WriterIndex.v
WriterFile.v
WriterAtomic.v
Pattern.v
ProcessTable.v
Elf.v
Limits.v
Args.v
Devtree.v
Manifest.v
Pipe.v
PipeService.v
Fat.v
FatNames.v
FatVolume.v
FatService.v
FatTurns.v
FatChains.v
FatFile.v
FatWrite.v
FatDir.v
FatExamples.v
FatHandles.v
