(* ===== verification/Prelude.v ===== *)
(** * The libraries of Aegir OS

    Aegir is an operating system of user-level services on the seL4 kernel.
    Its logic is in libraries without I/O of their own, which the services wrap
    with message passing.  The largest is src/libs/freestanding/aegir-bfs:
    disks are in the Be File System's format, and everything that reads or
    writes one goes through it.  This development models that library whole,
    smaller ones beside it, and two services whose logic is their own, the pipe
    and the FAT file service, and proves what makes them correct.

    ** Parts of the program, and where they are modelled

    The BFS library is layered; each layer calls only those below it.

    - The format (include/aegir/bfs/layout.h): offsets, byte order, runs of
      blocks, links.  Layout.v.
    - The device: callbacks handed to [Volume::open].  Not part of the library,
      so a parameter: class [SectorDevice] and its documented laws in Device.v,
      with a concrete disk [Disk] that can lose power at any write.
    - The volume (src/volume.cc, include/aegir/bfs/volume.h).  The superblock,
      addressing, the block cache and block reads and writes that see the open
      transaction: Volume.v; what [open] accepts: Opening.v; inodes and byte
      streams: Stream.v; directories, indices and attributes: Directory.v.
    - The journal (src/journal.cc): Volume.v has its state and [peek]/[log],
      which the volume's reads and writes call; Journal.v the rest; the two
      groups of theorems about it are in Transaction.v and Recovery.v.
    - The allocator (src/allocator.cc): Allocator.v, against the interface
      [BlockStore] of BlockStore.v, which the volume implements.
    - B+tree nodes (src/bplustree.cc): BPlusTree.v.
    - Inode blocks and small attributes (src/inode.cc, src/attribute.cc):
      Attribute.v.
    - Queries (src/query.cc): Query.v.
    - The writer (src/writer.cc), the operations that change a volume: tree
      nodes built and split in WriterNode.v, streams measured and grown in
      WriterStream.v, freed and cut in WriterTrim.v, a directory's tree edited
      in WriterTree.v, the indices and their duplicate chains in WriterIndex.v,
      and the operations themselves, each in its transaction, in WriterFile.v:
      create, remove, rename, write, truncate, ownership, attributes and index
      edits.  WriterAtomic.v has the theorems about all of them.

    The other libraries stand alone; all are under src/libs/freestanding:

    - Patterns (aegir-pattern, src/pattern.cc): wildcards.  Pattern.v.
    - The process registry's table (aegir-process, src/process_table.cc, with
      the badges of aegir-ipc, include/aegir/ipc/badge.h): ProcessTable.v.
    - Program images (aegir-spawn, src/elf.cc): Elf.v.
    - Resource limits (aegir-limits, src/limits.cc): Limits.v.
    - Command lines (aegir-args, src/args.cc): Args.v.
    - Device trees (aegir-devtree, src/devtree.cc): Devtree.v.
    - The boot manifest (aegir-manifest, src/manifest.cc): Manifest.v, on the
      lines and keys of Limits.v, which the source repeats.

    Two services, under src/apps/freestanding, answer the volume protocol
    (aegir-volume, include/aegir/volume.h) with strings as aegir-namespace,
    include/aegir/nmspace.h, packs them: Wire.v.

    - Pipes (aegir-fs-pipe, src/main.cc): the memory of chunks, the pipes, the
      handles and every method in Pipe.v, on tables of rows taken and given back
      (Slots.v); PipeService.v has the abstract table of pipes it refines.
    - FAT volumes (aegir-fs-fat).  The format (src/fat.cc, src/fat.h), boot
      sector, slots, names, table entries and dates, is Fat.v, with the long
      names' theorem in FatNames.v.  The service (src/main.cc) over a
      [SectorDevice]: handles, window, table and chains in FatVolume.v,
      directories, files, every method, the dispatch of a call and the start in
      FatService.v.  Theorems: the table and its chains in FatChains.v, files as
      the bytes of their chains in FatFile.v and FatWrite.v, directories as
      lists of entries in FatDir.v, the table of handles as a state machine and
      what a volume that is not writable keeps in FatHandles.v, over the calls that
      end (FatTurns.v); FatExamples.v
      runs the service on small volumes.

    Prelude.v has what they share: machine integers, byte buffers, tactics, and
    the hint databases [width] and [buf], to which Layout.v adds [lay] and [put].
    Samples.v has the small volumes the examples run on.

    ** How the code is represented

    A function is a definition of the same name (with the class's prefix where
    two would collide, and [w_] for calls on the writer's own members).  State
    is passed explicitly: [Fs D] is a volume with its device, its journal and
    whether the journal is attached; [Writer D] adds the allocator and those
    buffers of [class Writer] whose contents one call leaves for the next,
    [parent_] among them, which all the levels of an insertion share.  A [bool]
    result with out-parameters is an [option]; [None] is [false].  The FAT
    service has a monad of its own: a computation takes the service's globals
    and gives an answer with the globals afterwards, or [None] when it has not
    ended within the turns its loops were given, so that a theorem that names an
    answer says that the loops end.  The turns over those a sound volume needs
    are a parameter ([Turns]): the theorems hold for every number of them, and so
    for every call that ends, and a call that ends with some ends the same with
    more (FatTurns.v).  A frame a caller passes, the clock's answers
    and what an answer's array held before are arguments.

    Integers are [Z].  Where a C++ type may wrap, the wrap is written ([u16],
    [u32], [u64]); where it may not, the theorems carry the bound.  A buffer is
    a list of bytes; reading past its end gives 0 and writing past it does
    nothing, which the theorems' hypotheses exclude and the examples of bugs
    say where the code does it.

    Loops are structural in a counter wherever the code's are.  Others have
    fuel, chosen as follows: [read_part_loop] and [write_part_loop] one turn per
    byte asked for, as every turn moves at least one; [dir_find] and the other
    walks the 16 nodes of the source's own limit; [count_leaves] the source's
    limit on leaves; [replay_walk] the log's length; the query parser one turn
    per character, which [parse_terminates] shows to be enough; [grow_to] twice
    the blocks wanted and two, since a turn that takes no block is followed by
    one that takes some or gives up; [insert_into] and [remove_into], whose
    recursion has no bound in the source, a parameter, of which 16 is enough for
    every tree that the reader can walk; the index walks the 32 levels and 4096
    nodes of the source's own limits; the pattern matcher the depth
    [depth_for], which [pattern_match_ends] shows to be enough; the items of a
    template one more than its characters, which [items_law] shows to be all;
    the walks of a device tree one turn per byte, which [devtree_inside] shows
    to be enough.  In the pipe service the walks along a chain of chunks have one
    turn per chunk of the memory, a copy two per chunk and an append one per
    byte, enough for every state [pipe_service_refines] reaches.  In the FAT
    service the walks along a chain have two turns more than the volume has
    clusters, and any number [more_turns] over that, enough for every chain inside
    the volume without a circle ([dir_lookup_spec]) and for
    freeing any chain ([chain_free_ends]); [read_into] two more than the clusters
    up to the end asked for and [write_bytes] one per byte and one more, enough by
    [file_write_read]; the walk of a path one per byte and one more; the search
    for an alias the million serials of six digits.

    ** What the theorems show

    - Blocks (BlockStore.v, Transaction.v): reads and writes refine a map from
      block numbers to images, through the cache, the journal and a device that
      may refuse anything; an abandoned transaction leaves no trace.
    - Crashes (Recovery.v): a commit on an empty log that leaves a log block free,
      cut short at any write and followed by any number of mounts cut short, is
      all or nothing.  The conditions are needed, and two cases without them are
      proved as examples: a log filled to the last block, and a commit whose
      checkpoint was refused.
    - Allocation (Allocator.v): a run handed out was free and is marked, no run
      is refused while one fits, freeing is exact, and the count agrees with the
      bitmap, with one bitmap block per group; with two, a block is handed out
      twice.
    - Nodes and attributes (BPlusTree.v, Attribute.v): the operations on packed
      bytes are the operations on the sorted list, or the list of attributes,
      the bytes stand for, and refuse exactly for lack of room.
    - Streams (Stream.v): a read gives the bytes the runs map to, a write
      changes those and no others, and what was written reads back.
    - Directories (Directory.v): lookup is that of the sorted list the tree holds,
      and so is listing where the keys of a leaf end within a block; a key that
      ends further into its node, as it may on volumes of 2048-byte blocks and
      4096-byte nodes, is refused ([node_key] of src/volume.cc compares with the
      block's size; [big_node_not_listed]).  An attribute is read wherever
      it is stored; an index walk gives every inode once, while its duplicates
      fit one node.
    - Queries (Query.v): the parser ends, accepts only well-formed queries and
      reads back what is printed; a match is the truth of the formula over the
      attributes' values, numbers compared as numbers and texts in order of their
      bytes, for the equations the evaluation takes at their meaning
      ([equation_plain]); what it does with some others is shown by lemmas beside
      it.
    - The writer: node splits keep every entry in order when both halves fit
      (WriterNode.v); the count of a stream's blocks is the length of its runs,
      and a run added while a direct slot is free extends the stream by exactly
      its blocks (WriterStream.v); a cut keeps exactly the first blocks and
      frees exactly the others (WriterTrim.v); insertion and removal of a name
      change exactly that name of the directory when its leaf need not split and
      no leaf is reached by a right link only; a split below the root loses names
      and a name in a chained leaf is not removed (WriterTree.v); any value is put into and taken out of a duplicate node in
      order, every other kept (WriterIndex.v).
    - The writer's operations (WriterAtomic.v): one that fails before its commit
      leaves no trace, and one that goes through the journal, with discard off, on
      a volume whose transaction is ready and with a log block to spare, is all or
      nothing across crashes.  Both are proved once for all operations, from lemmas that
      every call keeps what the transaction keeps ([TxnInvariant] and
      [DirectInvariant], hint database [keep]).
    - Patterns (Pattern.v): the matcher ends on every pattern and accepts the
      names of the language its pattern stands for, for patterns whose groups
      have no quoted or bracketed bar or parenthesis and no empty last
      alternative.
    - The process table (ProcessTable.v): any sequence of calls is answered as by
      a list of processes of 16 words each, and a user's break reaches only the
      user's own processes.
    - Images (Elf.v): what is accepted of an image not cut inside its header, and
      that what is then read is inside, for segments whose ends do not run around
      2^64; one whose end does is accepted ([wrapped_read_outside]).
    - Limits (Limits.v): amounts are exact, the most specific rule is found, and
      a configuration written out is read as written.
    - Command lines (Args.v): on a line of bare words, an item that may repeat
      takes all but those the items before and after it need.
    - Device trees (Devtree.v): the reader ends and stays inside the blob.
    - The manifest (Manifest.v): what is accepted is well formed and fits the
      array sized for it.

    - Pipes (PipeService.v): any sequence of calls by any callers is answered as
      the abstract table answers it, and chunks are given back.
    - The FAT format (Fat.v, FatNames.v): long names and dates read back as
      stored, and an accepted boot sector places its regions apart.
    - The FAT service: a cluster is taken exactly when one is free, and a chain
      freed whatever it runs into (FatChains.v); what is written below 4 GiB is
      read back, with no other byte of the file changed and the chain grown by clusters that
      were free (FatWrite.v); lookups and the walk for a place are those of the
      list of entries a directory's slots spell (FatDir.v); every call that
      ends is a step of the table of handles that keeps other badges' rows and never gives a
      serial twice, and a volume that is not writable is written by an open only
      (FatHandles.v, from lemmas that every step of a method keeps a relation,
      hint database [keeping]); and corners where the service does other than it
      says (FatExamples.v).

    Hypotheses are stated as records with a doc comment ([geometry_ok],
    [fs_ok], [stream_ok], [tree_at], [ready], [file_at] and so on); every theorem that has any is
    followed, at the end of its file, by an instance on a concrete volume.

    ** What is not modelled

    Of the growth of streams only the direct runs have theorems, and the trees
    behind the indices have theorems for their duplicate nodes only.  The
    contents of unused parts of the library's scratch buffers are not kept where
    a call fills what it uses.  Of the FAT service the methods that make, remove
    and rename entries are modelled and run, with theorems about handles and
    devices that are not written, not about the entries they leave.
    Endpoints, capabilities and the mapping of frames are left out of both
    services.  The rest of the repository is outside the chosen core: the other
    services (IPC over seL4 endpoints), the memory and spawning libraries that
    drive seL4 capabilities, the drivers, the hosted programs, and the vendored C
    library and network stack. *)
From stdpp Require Import base numbers list list_numbers.
From Stdlib Require Import ZArith Lia.

#[global] Open Scope Z_scope.

(** * Automation *)

(** [zlia] is [lia] with quotients and remainders turned into equations. *)
Ltac zlia := Z.div_mod_to_equations; lia.

(** Case analysis on the first Boolean comparison in sight. *)
Ltac zcase :=
  match goal with
  | |- context [Z.ltb ?a ?b] => destruct (Z.ltb_spec a b)
  | |- context [Z.leb ?a ?b] => destruct (Z.leb_spec a b)
  | |- context [Z.eqb ?a ?b] => destruct (Z.eqb_spec a b)
  | H : context [Z.ltb ?a ?b] |- _ => destruct (Z.ltb_spec a b)
  | H : context [Z.leb ?a ?b] |- _ => destruct (Z.leb_spec a b)
  | H : context [Z.eqb ?a ?b] |- _ => destruct (Z.eqb_spec a b)
  end.

(** Split conjunctions only, leaving records whole. *)
Ltac splits := repeat match goal with |- _ /\ _ => split end.

(** Turn a conjunction or disjunction of Boolean tests in the context into
    propositions. *)
Ltac breflect :=
  repeat match goal with
  | H : (_ || _)%bool = false |- _ => apply orb_false_iff in H; destruct H
  | H : (_ && _)%bool = true |- _ => apply andb_true_iff in H; destruct H
  | H : negb _ = true |- _ => apply negb_true_iff in H
  | H : negb _ = false |- _ => apply negb_false_iff in H
  | H : (_ <? _) = true |- _ => apply Z.ltb_lt in H
  | H : (_ <? _) = false |- _ => apply Z.ltb_ge in H
  | H : (_ <=? _) = true |- _ => apply Z.leb_le in H
  | H : (_ <=? _) = false |- _ => apply Z.leb_gt in H
  | H : (_ =? _) = true |- _ => apply Z.eqb_eq in H
  | H : (_ =? _) = false |- _ => apply Z.eqb_neq in H
  end.

Lemma triple_eq {A B C} (x : A * B * C) (y : A) : x.1.1 = y -> x = (y, x.1.2, x.2).
Proof. destruct x as [[x1 x2] x3]; simpl. now intros ->. Qed.

(** * Machine integers

    An unsigned C++ integer of width [w] is a [Z] in [[0, 2^w)]; the wrap is
    written where the source may leave the range. *)
Definition u8 (z : Z) : Z := z mod 2 ^ 8.
Definition u16 (z : Z) : Z := z mod 2 ^ 16.
Definition u32 (z : Z) : Z := z mod 2 ^ 32.
Definition u64 (z : Z) : Z := z mod 2 ^ 64.

(** The value of a [w]-bit pattern read as two's complement. *)
Definition signed (w z : Z) : Z := if z <? 2 ^ (w - 1) then z else z - 2 ^ w.

Lemma u8_range z : 0 <= u8 z < 256.
Proof. unfold u8; apply Z.mod_pos_bound; lia. Qed.
Lemma u16_range z : 0 <= u16 z < 65536.
Proof. unfold u16; apply Z.mod_pos_bound; lia. Qed.
Lemma u32_range z : 0 <= u32 z < 2 ^ 32.
Proof. unfold u32; apply Z.mod_pos_bound; lia. Qed.
Lemma u64_range z : 0 <= u64 z < 2 ^ 64.
Proof. unfold u64; apply Z.mod_pos_bound; lia. Qed.
Lemma u8_small z : 0 <= z < 256 -> u8 z = z.
Proof. intros; unfold u8; apply Z.mod_small; lia. Qed.
Lemma u16_small z : 0 <= z < 65536 -> u16 z = z.
Proof. intros; unfold u16; apply Z.mod_small; lia. Qed.
Lemma u32_small z : 0 <= z < 2 ^ 32 -> u32 z = z.
Proof. intros; unfold u32; apply Z.mod_small; lia. Qed.
Lemma u64_small z : 0 <= z < 2 ^ 64 -> u64 z = z.
Proof. intros; unfold u64; apply Z.mod_small; lia. Qed.

Create HintDb width.
Create Rewrite HintDb width.
#[export] Hint Resolve u8_range u16_range u32_range u64_range : width.
#[export] Hint Rewrite u8_small u16_small u32_small u64_small using lia : width.

(** Or-ing disjoint bit fields is adding them. *)
Lemma testbit_above a n i : 0 <= n <= i -> 0 <= a < 2 ^ n -> Z.testbit a i = false.
Proof.
  intros Hn Ha. rewrite <- (Z.mod_small a (2 ^ n)) by lia.
  apply Z.mod_pow2_bits_high; lia.
Qed.

Lemma lor_shiftl_add a b n :
  0 <= n -> 0 <= a < 2 ^ n -> Z.lor a (Z.shiftl b n) = a + b * 2 ^ n.
Proof.
  intros Hn Ha. rewrite <- Z.shiftl_mul_pow2 by lia.
  assert (Hd : Z.land a (Z.shiftl b n) = 0).
  { apply Z.bits_inj'; intros i Hi; rewrite Z.land_spec, Z.bits_0.
    destruct (Z.lt_ge_cases i n).
    - rewrite Z.shiftl_spec_low by lia; apply andb_false_r.
    - rewrite (testbit_above a n) by lia. reflexivity. }
  rewrite <- Z.lxor_lor by exact Hd. symmetry; now apply Z.add_nocarry_lxor.
Qed.

(** The low two bits cleared of a 32-bit number. *)
Lemma land_word x : 0 <= x < 2 ^ 32 -> Z.land x (2 ^ 32 - 4) = x / 4 * 4.
Proof.
  intros Hx. change (2 ^ 32 - 4) with (Z.shiftl (Z.ones 30) 2). change 4 with (2 ^ 2) at 1 2. rewrite <- Z.shiftr_div_pow2, <- Z.shiftl_mul_pow2 by lia.
  rewrite <- (Z.mod_small (Z.shiftr x 2) (2 ^ 30)) by (rewrite Z.shiftr_div_pow2 by lia; split; [apply Z.div_pos; lia|apply Z.div_lt_upper_bound; lia]).
  rewrite <- Z.land_ones by lia. apply Z.bits_inj'. intros i Hi. rewrite Z.land_spec.
  destruct (Z.lt_ge_cases i 2); [rewrite !Z.shiftl_spec_low by lia; apply andb_false_r|].
  rewrite !Z.shiftl_spec_high, Z.land_spec, Z.shiftr_spec by lia. f_equal. f_equal. lia.
Qed.

Lemma land_255 v : Z.land v 255 = v mod 256.
Proof. change 255 with (Z.ones 8). now rewrite Z.land_ones by lia. Qed.

(** * Byte buffers

    A [uint8_t] buffer is the list of its bytes, each a [Z] in [[0, 256)].  An
    offset is an unsigned integer, hence a non-negative [Z].  A read past the
    end of a buffer gives [0] and a write there changes nothing: the C++ leaves
    both undefined, and the theorems that depend on contents carry the
    hypotheses that keep the accesses inside. *)
Notation bytes := (list Z).

Definition zlen {A} (l : list A) : Z := Z.of_nat (length l).

Definition byte_at (b : bytes) (i : Z) : Z := nth (Z.to_nat i) b 0.

(** [b[i] = v] *)
Definition set_byte (b : bytes) (i v : Z) : bytes := <[Z.to_nat i := v]> b.

(** [n] bytes of [b] from [off], as a buffer of their own. *)
Definition slice (b : bytes) (off n : Z) : bytes :=
  let s := take (Z.to_nat n) (drop (Z.to_nat off) b) in
  s ++ replicate (Z.to_nat n - length s) 0.

(** [memcpy (b + at, src, |src|)], clipped to [b]. *)
Definition blit (b : bytes) (at_ : Z) (src : bytes) : bytes :=
  let k := Z.to_nat at_ in
  take k b ++ take (length b - k) src ++ drop (k + length src) b.

(** [memset (b + at, 0, n)] is [blit b at (zeros n)]. *)
Definition zeros (n : Z) : bytes := replicate (Z.to_nat n) 0.

Definition byte_ok (v : Z) : Prop := 0 <= v < 256.
Definition bytes_ok (b : bytes) : Prop := Forall byte_ok b.

Create Rewrite HintDb buf.

Lemma zlen_nonneg {A} (l : list A) : 0 <= zlen l.
Proof. unfold zlen; lia. Qed.
Lemma to_nat_zlen {A} (l : list A) : Z.to_nat (zlen l) = length l.
Proof. unfold zlen; lia. Qed.
Lemma zlen_app {A} (l k : list A) : zlen (l ++ k) = zlen l + zlen k.
Proof. unfold zlen; rewrite length_app; lia. Qed.
Lemma zlen_nil {A} : zlen (@nil A) = 0.
Proof. reflexivity. Qed.
Lemma zlen_cons {A} (x : A) l : zlen (x :: l) = 1 + zlen l.
Proof. unfold zlen; simpl; lia. Qed.
Lemma zlen_set b i v : zlen (set_byte b i v) = zlen b.
Proof. unfold zlen, set_byte; now rewrite length_insert. Qed.
Lemma zlen_zeros n : 0 <= n -> zlen (zeros n) = n.
Proof. unfold zlen, zeros; rewrite length_replicate; lia. Qed.
Lemma length_blit b a src : length (blit b a src) = length b.
Proof.
  unfold blit. rewrite !length_app, !length_take, length_drop. lia.
Qed.
Lemma zlen_blit b a src : zlen (blit b a src) = zlen b.
Proof. unfold zlen; now rewrite length_blit. Qed.
Lemma length_slice b off n : length (slice b off n) = Z.to_nat n.
Proof.
  unfold slice. rewrite length_app, length_replicate, length_take, length_drop. lia.
Qed.
Lemma zlen_slice b off n : 0 <= n -> zlen (slice b off n) = n.
Proof. unfold zlen; rewrite length_slice; lia. Qed.

#[export] Hint Rewrite @zlen_app @zlen_nil @zlen_cons zlen_set zlen_blit : buf.
#[export] Hint Rewrite zlen_zeros zlen_slice using lia : buf.

(** Reads through [nth] and stdpp's lookup agree. *)
Lemma byte_at_lookup b i : byte_at b i = default 0 (b !! Z.to_nat i).
Proof.
  unfold byte_at. revert b; induction (Z.to_nat i) as [|k IH]; intros [|x b]; simpl; auto.
Qed.

Lemma byte_at_out b i : zlen b <= i -> byte_at b i = 0.
Proof. intros; unfold byte_at, zlen in *; apply nth_overflow; lia. Qed.

Lemma byte_at_set b i v j :
  0 <= i -> 0 <= j ->
  byte_at (set_byte b i v) j = if (i =? j) && (i <? zlen b) then v else byte_at b j.
Proof.
  intros Hi Hj. rewrite !byte_at_lookup. unfold set_byte, zlen.
  destruct (Z.eqb_spec i j) as [->|Hne]; simpl.
  - destruct (Z.ltb_spec j (Z.of_nat (length b))) as [H|H]; simpl.
    + rewrite list_lookup_insert_eq by lia. reflexivity.
    + rewrite list_insert_ge by lia. reflexivity.
  - rewrite list_lookup_insert_ne by lia. reflexivity.
Qed.

Lemma byte_at_app b c i :
  0 <= i -> byte_at (b ++ c) i = if i <? zlen b then byte_at b i else byte_at c (i - zlen b).
Proof.
  intros Hi. unfold byte_at, zlen. zcase.
  - rewrite app_nth1 by lia. reflexivity.
  - rewrite app_nth2 by lia. f_equal. lia.
Qed.

Lemma byte_at_zeros n i : byte_at (zeros n) i = 0.
Proof.
  unfold byte_at, zeros. revert n. generalize (Z.to_nat i). intros k n.
  generalize (Z.to_nat n); clear n. intros n; revert k.
  induction n as [|n IH]; intros [|k]; simpl; auto.
Qed.

Lemma byte_at_take b n i :
  0 <= i < Z.of_nat n -> byte_at (take n b) i = byte_at b i.
Proof.
  intros. rewrite !byte_at_lookup. rewrite lookup_take_lt by lia. reflexivity.
Qed.

Lemma byte_at_drop b n i :
  0 <= i -> byte_at (drop n b) i = byte_at b (Z.of_nat n + i).
Proof.
  intros. rewrite !byte_at_lookup, lookup_drop. do 2 f_equal. lia.
Qed.

Lemma byte_at_slice b off n i :
  0 <= off -> 0 <= i < n -> byte_at (slice b off n) i = byte_at b (off + i).
Proof.
  intros Ho Hi. unfold slice. rewrite byte_at_app by lia.
  unfold zlen. rewrite length_take, length_drop.
  zcase.
  - rewrite byte_at_take, byte_at_drop by lia. f_equal. lia.
  - rewrite (byte_at_out b) by (unfold zlen; lia). unfold byte_at.
    rewrite nth_lookup. destruct (_ !! _) eqn:E; [|reflexivity].
    apply lookup_replicate in E as [-> _]. reflexivity.
Qed.

Lemma byte_at_blit b a src i :
  0 <= a -> 0 <= i ->
  byte_at (blit b a src) i =
    if (a <=? i) && (i <? a + zlen src) && (i <? zlen b)
    then byte_at src (i - a) else byte_at b i.
Proof.
  intros Ha Hi.
  destruct (Z.ltb_spec i (zlen b)) as [Hb|Hb].
  2:{ rewrite andb_false_r, !byte_at_out; rewrite ?zlen_blit; auto. }
  unfold blit, zlen in *. rewrite andb_true_r. rewrite byte_at_app by lia. unfold zlen. rewrite length_take.
  destruct (Z.leb_spec a i) as [H1|H1]; simpl.
  - rewrite (proj2 (Z.ltb_ge _ _)) by lia.
    rewrite byte_at_app by lia. unfold zlen. rewrite length_take.
    destruct (Z.ltb_spec i (a + Z.of_nat (length src))) as [H2|H2].
    + rewrite (proj2 (Z.ltb_lt _ _)) by lia. rewrite byte_at_take by lia. f_equal. lia.
    + rewrite (proj2 (Z.ltb_ge _ _)) by lia. rewrite byte_at_drop by lia. f_equal. lia.
  - rewrite (proj2 (Z.ltb_lt _ _)) by lia. apply byte_at_take. lia.
Qed.

(** Two buffers of one length with the same bytes are the same buffer. *)
Lemma bytes_ext (b c : bytes) :
  zlen b = zlen c -> (forall i, 0 <= i < zlen b -> byte_at b i = byte_at c i) -> b = c.
Proof.
  intros Hl H. unfold zlen in *. apply (nth_ext b c 0 0); [lia|].
  intros n Hn. specialize (H (Z.of_nat n)). unfold byte_at in H.
  rewrite Nat2Z.id in H. apply H. lia.
Qed.

Lemma slice_ext b c o o' n :
  0 <= o -> 0 <= o' -> (forall i, 0 <= i < n -> byte_at b (o + i) = byte_at c (o' + i)) ->
  slice b o n = slice c o' n.
Proof.
  intros Ho Ho' H. destruct (Z.lt_ge_cases n 0).
  - apply bytes_ext; unfold zlen; rewrite !length_slice; [reflexivity|]. lia.
  - apply bytes_ext; rewrite !zlen_slice by lia; [reflexivity|].
    intros i Hi. rewrite !byte_at_slice by lia. now apply H.
Qed.

Lemma slice_all b n : n = zlen b -> slice b 0 n = b.
Proof.
  intros ->. apply bytes_ext; rewrite zlen_slice; auto using zlen_nonneg.
  intros i Hi. rewrite byte_at_slice by lia. f_equal.
Qed.

Lemma slice_slice b o n o' n' :
  0 <= o -> 0 <= o' -> o' + n' <= n -> slice (slice b o n) o' n' = slice b (o + o') n'.
Proof.
  intros. apply slice_ext; [lia..|]. intros i Hi.
  rewrite byte_at_slice by lia. f_equal; lia.
Qed.

Lemma slice_blit_same b a src n :
  0 <= a -> n = zlen src -> a + n <= zlen b -> slice (blit b a src) a n = src.
Proof.
  intros Ha -> Hb. apply bytes_ext; rewrite zlen_slice; auto using zlen_nonneg.
  intros i Hi. rewrite byte_at_slice, byte_at_blit by lia.
  rewrite !(proj2 (Z.leb_le _ _)), !(proj2 (Z.ltb_lt _ _)) by lia. simpl. f_equal. lia.
Qed.

Lemma slice_blit_disj b a src o n :
  0 <= a -> 0 <= o -> o + n <= a \/ a + zlen src <= o ->
  slice (blit b a src) o n = slice b o n.
Proof.
  intros Ha Ho Hd. apply slice_ext; [lia..|]. intros i Hi.
  rewrite byte_at_blit by lia.
  destruct (Z.leb_spec a (o + i)); destruct (Z.ltb_spec (o + i) (a + zlen src)); simpl; auto; lia.
Qed.

Lemma slice_app_l b c o n : 0 <= o -> o + n <= zlen b -> slice (b ++ c) o n = slice b o n.
Proof.
  intros. apply slice_ext; [lia..|]. intros i Hi. rewrite byte_at_app by lia.
  now rewrite (proj2 (Z.ltb_lt _ _)) by lia.
Qed.

Lemma slice_app_r b c o n : zlen b <= o -> slice (b ++ c) o n = slice c (o - zlen b) n.
Proof.
  intros. pose proof (zlen_nonneg b). apply slice_ext; [lia..|]. intros i Hi.
  rewrite byte_at_app by lia.
  rewrite (proj2 (Z.ltb_ge _ _)) by lia. f_equal. lia.
Qed.

Lemma slice_split b o n m :
  0 <= o -> 0 <= n -> 0 <= m -> slice b o (n + m) = slice b o n ++ slice b (o + n) m.
Proof.
  intros. apply bytes_ext; autorewrite with buf; [lia|].
  intros i Hi. rewrite byte_at_app, zlen_slice, byte_at_slice by lia. zcase.
  - now rewrite byte_at_slice by lia.
  - rewrite byte_at_slice by lia. f_equal. lia.
Qed.

Lemma blit_all b src : zlen src = zlen b -> blit b 0 src = src.
Proof.
  intros H. rewrite <- (slice_all (blit b 0 src) (zlen src)) by (now rewrite zlen_blit).
  apply slice_blit_same; lia.
Qed.

(** Buffers of bytes stay buffers of bytes. *)
Lemma byte_at_ok b i : bytes_ok b -> byte_ok (byte_at b i).
Proof.
  intros H. unfold byte_at.
  destruct (nth_in_or_default (Z.to_nat i) b 0) as [Hi| ->].
  - unfold bytes_ok in H. rewrite Forall_forall in H. apply H, list_elem_of_In, Hi.
  - unfold byte_ok; lia.
Qed.

Lemma bytes_ok_ext b : (forall i, 0 <= i < zlen b -> byte_ok (byte_at b i)) -> bytes_ok b.
Proof.
  intros H. apply Forall_lookup. intros i x Hx.
  pose proof (lookup_lt_Some _ _ _ Hx). specialize (H (Z.of_nat i)).
  rewrite byte_at_lookup, Nat2Z.id, Hx in H. apply H. unfold zlen; lia.
Qed.

Lemma bytes_ok_zeros n : bytes_ok (zeros n).
Proof. apply Forall_replicate. unfold byte_ok; lia. Qed.
Lemma bytes_ok_app b c : bytes_ok b -> bytes_ok c -> bytes_ok (b ++ c).
Proof. apply Forall_app_2. Qed.
Lemma bytes_ok_blit b a src : 0 <= a -> bytes_ok b -> bytes_ok src -> bytes_ok (blit b a src).
Proof.
  intros Ha Hb Hs. unfold blit. apply Forall_app_2; [now apply Forall_take|].
  apply Forall_app_2; [now apply Forall_take | now apply Forall_drop].
Qed.
Lemma bytes_ok_slice b o n : bytes_ok b -> bytes_ok (slice b o n).
Proof.
  intros H. unfold slice. apply Forall_app_2; [|apply Forall_replicate; unfold byte_ok; lia].
  now apply Forall_take, Forall_drop.
Qed.
Lemma bytes_ok_set b i v : bytes_ok b -> byte_ok v -> bytes_ok (set_byte b i v).
Proof. intros. now apply Forall_insert. Qed.

(** Checked by evaluation on a concrete buffer. *)
Definition bytes_okb (b : bytes) : bool := forallb (fun x => (0 <=? x) && (x <? 256)) b.
Lemma bytes_okb_true b : bytes_okb b = true -> bytes_ok b.
Proof.
  unfold bytes_okb. rewrite forallb_forall. intros H. apply Forall_forall. intros x Hx.
  specialize (H x (proj1 (list_elem_of_In _ _) Hx)). breflect. unfold byte_ok. lia.
Qed.

Create HintDb buf.
#[export] Hint Resolve bytes_ok_zeros bytes_ok_app bytes_ok_blit bytes_ok_slice
  bytes_ok_set byte_at_ok zlen_nonneg : buf.

(** ** Little-endian numbers *)

Fixpoint le_num (l : bytes) : Z :=
  match l with [] => 0 | x :: t => x + 256 * le_num t end.

Fixpoint le_split (n : nat) (v : Z) : bytes :=
  match n with O => [] | S n => v mod 256 :: le_split n (v / 256) end.

Lemma length_le_split n v : length (le_split n v) = n.
Proof. revert v; induction n; intros; simpl; auto. Qed.
Lemma zlen_le_split n v : zlen (le_split n v) = Z.of_nat n.
Proof. unfold zlen; now rewrite length_le_split. Qed.
Lemma bytes_ok_le_split n v : bytes_ok (le_split n v).
Proof.
  revert v; induction n; intros v; simpl; constructor; auto.
  unfold byte_ok. apply Z.mod_pos_bound; lia. apply IHn.
Qed.

Lemma le_num_split n v : le_num (le_split n v) = v mod 256 ^ Z.of_nat n.
Proof.
  revert v; induction n as [|n IH]; intros v; simpl le_split; simpl le_num.
  - now rewrite Z.mod_1_r.
  - rewrite IH. rewrite Nat2Z.inj_succ, Z.pow_succ_r by lia.
    rewrite Z.rem_mul_r by lia. lia.
Qed.

Lemma le_num_range l : bytes_ok l -> 0 <= le_num l < 256 ^ zlen l.
Proof.
  induction 1 as [|x l Hx Hl IH]; [simpl; unfold zlen; simpl; lia|].
  simpl le_num. rewrite zlen_cons, Z.add_1_l, Z.pow_succ_r by apply zlen_nonneg.
  unfold byte_ok in Hx. lia.
Qed.

Lemma le_split_num l : bytes_ok l -> le_split (length l) (le_num l) = l.
Proof.
  induction 1 as [|x l Hx Hl IH]; [reflexivity|]. simpl. unfold byte_ok in Hx.
  f_equal.
  - rewrite Z.mul_comm, Z.mod_add by lia. apply Z.mod_small; lia.
  - rewrite Z.mul_comm, Z.div_add, Z.div_small, Z.add_0_l by lia. exact IH.
Qed.

#[export] Hint Rewrite zlen_le_split : buf.
#[export] Hint Resolve bytes_ok_le_split : buf.
