(* ===== verification/Layout.v ===== *)
(** The Be File System's on-disk structures (libs/freestanding/aegir-bfs,
    include/aegir/bfs/layout.h): the format's constants under the source's
    namespaces, the little-endian readers and writers, block runs, duplicate
    links, and the lemmas by which every other file reads back what it wrote. *)
From stdpp Require Import base numbers list list_numbers.
From Stdlib Require Import ZArith Lia.
From S2P Require Import Prelude.

Definition kMaxBlockSize : Z := 8192.
Definition kSuperblockBytes : Z := 512.
Definition kMagic1 : Z := 0x42465331.
Definition kMagic2 : Z := 0xdd121031.
Definition kMagic3 : Z := 0x15b6830e.
Definition kByteOrderLittleEndian : Z := 0x42494745.
Definition kClean : Z := 0x434c454e.
Definition kDirty : Z := 0x44495254.
Definition kInodeMagic1 : Z := 0x3bbe0ad9.
Definition kInodeInUse : Z := 0x00000001.
Definition kInodeAttrInode : Z := 0x00000004.
Definition kInodeDeleted : Z := 0x00000010.
Definition kModeTypeMask : Z := 0xf000.
Definition kModeDirectory : Z := 0x4000.
Definition kModeRegular : Z := 0x8000.
Definition kModeAttrDir : Z := 0x08000000.
Definition kModeAttr : Z := 0x10000000.
Definition kModeIndexDir : Z := 0x20000000.
Definition kModeStrIndex : Z := 0x01000000.
Definition kTreeMagic : Z := 0x69f6c2e8.
Definition kTreeStringType : Z := 0.
Definition kTreeInt32Type : Z := 1.
Definition kTreeUInt32Type : Z := 2.
Definition kTreeInt64Type : Z := 3.
Definition kTreeUInt64Type : Z := 4.
Definition kDuplicateNode : Z := 2.
Definition kDuplicateFragment : Z := 3.
Definition kNumDuplicateValues : Z := 125.
Definition kMaxName : Z := 255.
Definition kMaxKeyLength : Z := 256.
Definition kNullLink : Z := -1.
Definition kFreeLink : Z := -2.
Definition kFileNameName : Z := 0x13.
Definition kFileNameType : Z := 0x43535452.

(** The superblock's field offsets. *)
Module superblock.
Definition kMagic1 : Z := 32.
Definition kByteOrder : Z := 36.
Definition kBlockSize : Z := 40.
Definition kBlockShift : Z := 44.
Definition kNumBlocks : Z := 48.
Definition kUsedBlocks : Z := 56.
Definition kInodeSize : Z := 64.
Definition kMagic2 : Z := 68.
Definition kBlocksPerAg : Z := 72.
Definition kAgShift : Z := 76.
Definition kNumAgs : Z := 80.
Definition kFlags : Z := 84.
Definition kLog : Z := 88.
Definition kLogStart : Z := 96.
Definition kLogEnd : Z := 104.
Definition kMagic3 : Z := 112.
Definition kRootDir : Z := 116.
Definition kIndices : Z := 124.
End superblock.

(** Evaluate the superblock's field offsets. *)
Ltac super_fields :=
  cbv [superblock.kMagic1 superblock.kByteOrder superblock.kBlockSize superblock.kBlockShift
    superblock.kNumBlocks superblock.kUsedBlocks superblock.kInodeSize superblock.kMagic2
    superblock.kBlocksPerAg superblock.kAgShift superblock.kNumAgs superblock.kFlags
    superblock.kLog superblock.kLogStart superblock.kLogEnd superblock.kMagic3
    superblock.kRootDir superblock.kIndices] in *.

(** The inode's field offsets. *)
Module inode.
Definition kMagic1 : Z := 0.
Definition kInodeNum : Z := 4.
Definition kUid : Z := 12.
Definition kGid : Z := 16.
Definition kMode : Z := 20.
Definition kFlags : Z := 24.
Definition kCreateTime : Z := 28.
Definition kLastModified : Z := 36.
Definition kParent : Z := 44.
Definition kAttributes : Z := 52.
Definition kType : Z := 60.
Definition kInodeSize : Z := 64.
Definition kEtc : Z := 68.
Definition kData : Z := 72.
Definition kSmallData : Z := 232.
End inode.

(** The data stream's field offsets, relative to [inode.kData]. *)
Module data.
Definition kDirect : Z := 0.
Definition kDirectCount : Z := 12.
Definition kMaxDirectRange : Z := 96.
Definition kIndirect : Z := 104.
Definition kMaxIndirectRange : Z := 112.
Definition kDoubleIndirect : Z := 120.
Definition kMaxDoubleIndirectRange : Z := 128.
Definition kSize : Z := 136.
Definition kBytes : Z := 144.
End data.

(** The B+tree header's and node's field offsets. *)
Module tree_header.
Definition kMagic : Z := 0.
Definition kNodeSize : Z := 4.
Definition kMaxLevels : Z := 8.
Definition kDataType : Z := 12.
Definition kRootNode : Z := 16.
Definition kFreeNode : Z := 24.
Definition kMaximumSize : Z := 32.
Definition kBytes : Z := 40.
End tree_header.

Module node.
Definition kLeftLink : Z := 0.
Definition kRightLink : Z := 8.
Definition kOverflowLink : Z := 16.
Definition kKeyCount : Z := 24.
Definition kAllKeyLength : Z := 26.
Definition kFixed : Z := 28.
End node.

(** ** Readers and writers *)

Definition le16 (b : bytes) (at_ : Z) : Z :=
  Z.lor (byte_at b at_) (Z.shiftl (byte_at b (at_ + 1)) 8).

Definition le32 (b : bytes) (at_ : Z) : Z :=
  Z.lor (Z.lor (Z.lor (byte_at b at_) (Z.shiftl (byte_at b (at_ + 1)) 8))
               (Z.shiftl (byte_at b (at_ + 2)) 16))
        (Z.shiftl (byte_at b (at_ + 3)) 24).

Definition le64 (b : bytes) (at_ : Z) : Z :=
  fold_left (fun value i => Z.lor value (Z.shiftl (byte_at b (at_ + i)) (i * 8)))
            (seqZ 0 8) 0.

Definition le64_signed (b : bytes) (at_ : Z) : Z := signed 64 (le64 b at_).

Record Run := mkRun { allocation_group : Z; start : Z; run_length : Z }.

Definition le_run (b : bytes) (at_ : Z) : Run :=
  mkRun (le32 b at_) (le16 b (at_ + 4)) (le16 b (at_ + 6)).

Definition put_le16 (b : bytes) (at_ value : Z) : bytes :=
  set_byte (set_byte b at_ (Z.land value 0xff)) (at_ + 1) (Z.land (Z.shiftr value 8) 0xff).

Definition put_le32 (b : bytes) (at_ value : Z) : bytes :=
  fold_left (fun b i => set_byte b (at_ + i) (Z.land (Z.shiftr value (i * 8)) 0xff))
            (seqZ 0 4) b.

Definition put_le64 (b : bytes) (at_ value : Z) : bytes :=
  fold_left (fun b i => set_byte b (at_ + i) (Z.land (Z.shiftr value (i * 8)) 0xff))
            (seqZ 0 8) b.

Definition put_run (b : bytes) (at_ : Z) (run : Run) : bytes :=
  put_le16 (put_le16 (put_le32 b at_ (allocation_group run)) (at_ + 4) (start run))
           (at_ + 6) (run_length run).

Definition run_make (allocation_group start length : Z) : Run :=
  mkRun allocation_group start length.

Definition runs_contiguous (a b : Run) : bool :=
  (allocation_group a =? allocation_group b) && (start a + run_length a =? start b).

Definition run_is_zero (run : Run) : bool :=
  (allocation_group run =? 0) && (start run =? 0) && (run_length run =? 0).

(** The fields' own widths: a 32-bit group and 16-bit start and length. *)
Definition run_ok (r : Run) : Prop :=
  0 <= allocation_group r < 2 ^ 32 /\ 0 <= start r < 65536 /\ 0 <= run_length r < 65536.

(** ** Duplicate links

    The source's links are [int64_t]; here a link is its 64-bit pattern, which
    is what every one of these functions first casts it to. *)
Definition link_type (link : Z) : Z := Z.shiftr link 62.

Definition link_is_duplicate (link : Z) : bool :=
  negb (Z.land (link_type link) (Z.lor kDuplicateNode kDuplicateFragment) =? 0).

Definition link_offset (link : Z) : Z := Z.land link 0x3ffffffffffffc00.

Definition make_link (type offset : Z) : Z :=
  Z.lor (u64 (Z.shiftl type 62)) (Z.land offset 0x3ffffffffffffc00).

(** ** Sizes *)

Module run_array.
Definition kCount : Z := 0.
Definition kMaxRuns : Z := 4.
Definition kRuns : Z := 8.
Definition kFixed : Z := 8.
Definition max_runs (block_size : Z) : Z :=
  let fits := u32 (block_size - kFixed) / 8 in
  if fits <? 128 then fits else 127.
End run_array.

(** [(value + 7) & ~7u] on 32 bits. *)
Definition key_align (value : Z) : Z := Z.land (u32 (value + 7)) (2 ^ 32 - 8).

(** * Reading back what was written *)

Lemma slice_1 b k : 0 <= k -> slice b k 1 = [byte_at b k].
Proof.
  intros Hk. apply bytes_ext; rewrite ?zlen_slice by lia; [reflexivity|].
  intros i Hi. rewrite byte_at_slice by lia. replace i with 0 by lia.
  rewrite Z.add_0_r. reflexivity.
Qed.

Lemma le_num_snoc l x : le_num (l ++ [x]) = le_num l + x * 256 ^ zlen l.
Proof.
  induction l as [|y l IH]; simpl; [unfold zlen; simpl; lia|].
  rewrite IH, zlen_cons, Z.add_1_l, Z.pow_succ_r by apply zlen_nonneg. lia.
Qed.

(** The shape all three readers have: or-ing the bytes in, lowest first. *)
Lemma le_fold b a (n : nat) :
  bytes_ok b -> 0 <= a ->
  fold_left (fun v i => Z.lor v (Z.shiftl (byte_at b (a + i)) (i * 8)))
            (seqZ 0 (Z.of_nat n)) 0 = le_num (slice b a (Z.of_nat n)).
Proof.
  intros Hb Ha. induction n as [|n IH]; [reflexivity|].
  replace (Z.of_nat (S n)) with (Z.of_nat n + 1) by lia.
  rewrite seqZ_app, fold_left_app, IH by lia. simpl fold_left.
  rewrite !Z.add_0_l, slice_split, slice_1, le_num_snoc, zlen_slice by lia.
  rewrite lor_shiftl_add; [now rewrite (Z.mul_comm _ 8), (Z.pow_mul_r 2 8) by lia | lia |].
  replace (2 ^ (Z.of_nat n * 8)) with (256 ^ zlen (slice b a (Z.of_nat n))).
  - apply le_num_range. auto with buf.
  - rewrite zlen_slice, Z.mul_comm, Z.pow_mul_r by lia. reflexivity.
Qed.

(** Each reader is the number its bytes spell. *)
Lemma le16_num b a : bytes_ok b -> 0 <= a -> le16 b a = le_num (slice b a 2).
Proof.
  intros Hb Ha. etransitivity; [|exact (le_fold b a 2 Hb Ha)]. unfold le16.
  change (seqZ 0 (Z.of_nat 2)) with [0; 1]. cbn [fold_left].
  rewrite Z.lor_0_l, Z.shiftl_0_r, Z.add_0_r. reflexivity.
Qed.
Lemma le32_num b a : bytes_ok b -> 0 <= a -> le32 b a = le_num (slice b a 4).
Proof.
  intros Hb Ha. etransitivity; [|exact (le_fold b a 4 Hb Ha)]. unfold le32.
  change (seqZ 0 (Z.of_nat 4)) with [0; 1; 2; 3]. cbn [fold_left].
  rewrite Z.lor_0_l, Z.shiftl_0_r, Z.add_0_r. reflexivity.
Qed.
Lemma le64_num b a : bytes_ok b -> 0 <= a -> le64 b a = le_num (slice b a 8).
Proof. intros Hb Ha. exact (le_fold b a 8 Hb Ha). Qed.

Lemma le16_range b a : bytes_ok b -> 0 <= a -> 0 <= le16 b a < 65536.
Proof.
  intros. rewrite le16_num by auto. change 65536 with (256 ^ 2).
  rewrite <- (zlen_slice b a 2) at 3 by lia. apply le_num_range; auto with buf.
Qed.
Lemma le32_range b a : bytes_ok b -> 0 <= a -> 0 <= le32 b a < 2 ^ 32.
Proof.
  intros. rewrite le32_num by auto. change (2 ^ 32) with (256 ^ 4).
  rewrite <- (zlen_slice b a 4) at 3 by lia. apply le_num_range; auto with buf.
Qed.
Lemma le64_range b a : bytes_ok b -> 0 <= a -> 0 <= le64 b a < 2 ^ 64.
Proof.
  intros. rewrite le64_num by auto. change (2 ^ 64) with (256 ^ 8).
  rewrite <- (zlen_slice b a 8) at 3 by lia. apply le_num_range; auto with buf.
Qed.
Lemma le_run_ok b a : bytes_ok b -> 0 <= a -> run_ok (le_run b a).
Proof.
  intros Hb Ha. pose proof (le32_range b a Hb Ha).
  pose proof (le16_range b (a + 4) Hb). pose proof (le16_range b (a + 6) Hb).
  unfold run_ok; simpl. lia.
Qed.

(** A reader sees only its own bytes. *)
Lemma le16_ext b c a a' :
  (forall i, 0 <= i < 2 -> byte_at b (a + i) = byte_at c (a' + i)) -> le16 b a = le16 c a'.
Proof.
  intros H. unfold le16. pose proof (H 0) as H0. rewrite !Z.add_0_r in H0.
  now rewrite H0, (H 1) by lia.
Qed.
Lemma le32_ext b c a a' :
  (forall i, 0 <= i < 4 -> byte_at b (a + i) = byte_at c (a' + i)) -> le32 b a = le32 c a'.
Proof.
  intros H. unfold le32. pose proof (H 0) as H0. rewrite !Z.add_0_r in H0.
  now rewrite H0, (H 1), (H 2), (H 3) by lia.
Qed.
Lemma le64_ext b c a a' :
  (forall i, 0 <= i < 8 -> byte_at b (a + i) = byte_at c (a' + i)) -> le64 b a = le64 c a'.
Proof.
  intros H. unfold le64. change (seqZ 0 8) with [0; 1; 2; 3; 4; 5; 6; 7]. cbn [fold_left].
  now rewrite !H by lia.
Qed.
Lemma le_run_ext b c a a' :
  (forall i, 0 <= i < 8 -> byte_at b (a + i) = byte_at c (a' + i)) -> le_run b a = le_run c a'.
Proof.
  intros H. unfold le_run.
  f_equal; [apply le32_ext|apply le16_ext|apply le16_ext]; intros i Hi;
    rewrite <- ?Z.add_assoc; apply H; lia.
Qed.

(** Each writer is the copy of the number's bytes. *)
Lemma le_split_snoc n v : le_split (S n) v = le_split n v ++ [v / 256 ^ Z.of_nat n mod 256].
Proof.
  revert v; induction n as [|n IH]; intros v.
  - simpl. now rewrite Z.div_1_r.
  - change (le_split (S (S n)) v) with (v mod 256 :: le_split (S n) (v / 256)).
    rewrite IH. simpl. do 4 f_equal.
    rewrite Z.div_div, <- Z.pow_succ_r by lia. do 2 f_equal. lia.
Qed.

Lemma blit_snoc b a l x : 0 <= a -> blit b a (l ++ [x]) = set_byte (blit b a l) (a + zlen l) x.
Proof.
  intros Ha. pose proof (zlen_nonneg l).
  apply bytes_ext; autorewrite with buf; [reflexivity|].
  intros i Hi. rewrite byte_at_set, !byte_at_blit by lia. autorewrite with buf.
  rewrite (proj2 (Z.ltb_lt i (zlen b))) by lia. rewrite !andb_true_r.
  destruct (Z.eqb_spec (a + zlen l) i) as [<-|Hne]; simpl.
  - rewrite (proj2 (Z.leb_le _ _)), !(proj2 (Z.ltb_lt _ _)) by lia. simpl.
    rewrite byte_at_app by lia. rewrite (proj2 (Z.ltb_ge _ _)) by lia.
    now replace (a + zlen l - a - zlen l) with 0 by lia.
  - destruct (Z.leb_spec a i); simpl; [|reflexivity].
    destruct (Z.ltb_spec i (a + zlen l)).
    + rewrite (proj2 (Z.ltb_lt _ _)) by lia. rewrite byte_at_app by lia.
      now rewrite (proj2 (Z.ltb_lt _ _)) by lia.
    + now rewrite (proj2 (Z.ltb_ge _ _)) by lia.
Qed.

Lemma blit_nil b a : blit b a [] = b.
Proof.
  apply bytes_ext; [apply zlen_blit|]. intros i _. unfold blit.
  rewrite take_nil, app_nil_l, Nat.add_0_r, take_drop. reflexivity.
Qed.

Lemma put_fold b a v (n : nat) :
  0 <= a ->
  fold_left (fun b i => set_byte b (a + i) (Z.land (Z.shiftr v (i * 8)) 0xff))
            (seqZ 0 (Z.of_nat n)) b = blit b a (le_split n v).
Proof.
  intros Ha. induction n as [|n IH]; [symmetry; apply blit_nil|].
  replace (Z.of_nat (S n)) with (Z.of_nat n + 1) by lia.
  rewrite seqZ_app, fold_left_app, IH by lia. simpl fold_left.
  rewrite le_split_snoc, blit_snoc, zlen_le_split, land_255, !Z.add_0_l by lia.
  rewrite Z.shiftr_div_pow2, Z.mul_comm, Z.pow_mul_r by lia. reflexivity.
Qed.

Lemma put_le16_blit b a v : 0 <= a -> put_le16 b a v = blit b a (le_split 2 v).
Proof.
  intros. rewrite <- put_fold by auto. unfold put_le16.
  change (seqZ 0 (Z.of_nat 2)) with [0; 1]. cbn [fold_left].
  now rewrite Z.add_0_r, Z.shiftr_0_r.
Qed.
Lemma put_le32_blit b a v : 0 <= a -> put_le32 b a v = blit b a (le_split 4 v).
Proof. intros. now rewrite <- put_fold by auto. Qed.
Lemma put_le64_blit b a v : 0 <= a -> put_le64 b a v = blit b a (le_split 8 v).
Proof. intros. now rewrite <- put_fold by auto. Qed.

(** Reading outside a copied range, and inside it. *)
Section blit_reads.
Context (b : bytes) (a : Z) (src : bytes) (o : Z).

Lemma byte_blit_disj i :
  0 <= a -> 0 <= i -> i < a \/ a + zlen src <= i -> byte_at (blit b a src) i = byte_at b i.
Proof.
  intros Ha Hi Hd. rewrite byte_at_blit by lia.
  destruct (Z.leb_spec a i); destruct (Z.ltb_spec i (a + zlen src)); simpl; auto; lia.
Qed.

Lemma byte_blit_in i :
  0 <= a -> a + zlen src <= zlen b -> a <= i < a + zlen src ->
  byte_at (blit b a src) i = byte_at src (i - a).
Proof.
  intros Ha Hb Hi. rewrite byte_at_blit by lia.
  now rewrite (proj2 (Z.leb_le _ _)), !(proj2 (Z.ltb_lt _ _)) by lia.
Qed.

Lemma le16_blit_disj :
  0 <= a -> 0 <= o -> o + 2 <= a \/ a + zlen src <= o -> le16 (blit b a src) o = le16 b o.
Proof. intros. apply le16_ext. intros. apply byte_blit_disj; lia. Qed.
Lemma le32_blit_disj :
  0 <= a -> 0 <= o -> o + 4 <= a \/ a + zlen src <= o -> le32 (blit b a src) o = le32 b o.
Proof. intros. apply le32_ext. intros. apply byte_blit_disj; lia. Qed.
Lemma le64_blit_disj :
  0 <= a -> 0 <= o -> o + 8 <= a \/ a + zlen src <= o -> le64 (blit b a src) o = le64 b o.
Proof. intros. apply le64_ext. intros. apply byte_blit_disj; lia. Qed.
Lemma le_run_blit_disj :
  0 <= a -> 0 <= o -> o + 8 <= a \/ a + zlen src <= o -> le_run (blit b a src) o = le_run b o.
Proof. intros. apply le_run_ext. intros. apply byte_blit_disj; lia. Qed.

Lemma le16_blit_in :
  0 <= a -> a + zlen src <= zlen b -> a <= o -> o + 2 <= a + zlen src ->
  le16 (blit b a src) o = le16 src (o - a).
Proof. intros. apply le16_ext. intros. rewrite byte_blit_in by lia. f_equal; lia. Qed.
Lemma le32_blit_in :
  0 <= a -> a + zlen src <= zlen b -> a <= o -> o + 4 <= a + zlen src ->
  le32 (blit b a src) o = le32 src (o - a).
Proof. intros. apply le32_ext. intros. rewrite byte_blit_in by lia. f_equal; lia. Qed.
Lemma le64_blit_in :
  0 <= a -> a + zlen src <= zlen b -> a <= o -> o + 8 <= a + zlen src ->
  le64 (blit b a src) o = le64 src (o - a).
Proof. intros. apply le64_ext. intros. rewrite byte_blit_in by lia. f_equal; lia. Qed.
End blit_reads.

Lemma le_split_get16 v : le16 (le_split 2 v) 0 = u16 v.
Proof.
  rewrite le16_num by (auto with buf; lia). rewrite slice_all by reflexivity.
  apply le_num_split.
Qed.
Lemma le_split_get32 v : le32 (le_split 4 v) 0 = u32 v.
Proof.
  rewrite le32_num by (auto with buf; lia). rewrite slice_all by reflexivity.
  apply le_num_split.
Qed.
Lemma le_split_get64 v : le64 (le_split 8 v) 0 = u64 v.
Proof.
  rewrite le64_num by (auto with buf; lia). rewrite slice_all by reflexivity.
  apply le_num_split.
Qed.

Lemma le16_put b a v : 0 <= a -> a + 2 <= zlen b -> le16 (put_le16 b a v) a = u16 v.
Proof.
  intros. rewrite put_le16_blit by lia.
  rewrite le16_blit_in, Z.sub_diag by (rewrite ?zlen_le_split; lia). apply le_split_get16.
Qed.
Lemma le32_put b a v : 0 <= a -> a + 4 <= zlen b -> le32 (put_le32 b a v) a = u32 v.
Proof.
  intros. rewrite put_le32_blit by lia.
  rewrite le32_blit_in, Z.sub_diag by (rewrite ?zlen_le_split; lia). apply le_split_get32.
Qed.
Lemma le64_put b a v : 0 <= a -> a + 8 <= zlen b -> le64 (put_le64 b a v) a = u64 v.
Proof.
  intros. rewrite put_le64_blit by lia.
  rewrite le64_blit_in, Z.sub_diag by (rewrite ?zlen_le_split; lia). apply le_split_get64.
Qed.

(** [lay] rewrites readers through writers: the same field gives the value
    back, any other field is the one underneath. *)
Create Rewrite HintDb lay.
#[export] Hint Rewrite le16_put le32_put le64_put using (autorewrite with buf; lia) : lay.
Create Rewrite HintDb put.
#[export] Hint Rewrite put_le16_blit put_le32_blit put_le64_blit using lia : put.
#[export] Hint Rewrite byte_blit_disj le16_blit_disj le32_blit_disj le64_blit_disj le_run_blit_disj
  using (autorewrite with buf; lia) : lay.

Lemma zlen_put16 b a v : zlen (put_le16 b a v) = zlen b.
Proof. unfold put_le16; now rewrite !zlen_set. Qed.
Lemma zlen_put_fold b a v l :
  zlen (fold_left (fun b i => set_byte b (a + i) (Z.land (Z.shiftr v (i * 8)) 0xff)) l b) = zlen b.
Proof. revert b; induction l as [|x l IH]; intros b; simpl; [auto|]. now rewrite IH, zlen_set. Qed.
Lemma zlen_put32 b a v : zlen (put_le32 b a v) = zlen b.
Proof. apply zlen_put_fold. Qed.
Lemma zlen_put64 b a v : zlen (put_le64 b a v) = zlen b.
Proof. apply zlen_put_fold. Qed.
Lemma zlen_put_run b a r : zlen (put_run b a r) = zlen b.
Proof. unfold put_run. now rewrite !zlen_put16, zlen_put32. Qed.
#[export] Hint Rewrite zlen_put16 zlen_put32 zlen_put64 zlen_put_run : buf.

Lemma bytes_ok_put16 b a v : 0 <= a -> bytes_ok b -> bytes_ok (put_le16 b a v).
Proof. intros. rewrite put_le16_blit by lia. auto with buf. Qed.
Lemma bytes_ok_put32 b a v : 0 <= a -> bytes_ok b -> bytes_ok (put_le32 b a v).
Proof. intros. rewrite put_le32_blit by lia. auto with buf. Qed.
Lemma bytes_ok_put64 b a v : 0 <= a -> bytes_ok b -> bytes_ok (put_le64 b a v).
Proof. intros. rewrite put_le64_blit by lia. auto with buf. Qed.
Lemma bytes_ok_put_run b a r : 0 <= a -> bytes_ok b -> bytes_ok (put_run b a r).
Proof.
  intros. unfold put_run. apply bytes_ok_put16; [lia|]. apply bytes_ok_put16; [lia|].
  apply bytes_ok_put32; auto.
Qed.
#[export] Hint Resolve bytes_ok_put16 bytes_ok_put32 bytes_ok_put64 bytes_ok_put_run : buf.

(** A run as its eight bytes. *)
Definition run_bytes_of (r : Run) : bytes :=
  le_split 4 (allocation_group r) ++ le_split 2 (start r) ++ le_split 2 (run_length r).

Lemma zlen_run_bytes_of r : zlen (run_bytes_of r) = 8.
Proof. unfold run_bytes_of. autorewrite with buf. reflexivity. Qed.
#[export] Hint Rewrite zlen_run_bytes_of : buf.

Lemma blit_app b a l k : 0 <= a -> blit b a (l ++ k) = blit (blit b a l) (a + zlen l) k.
Proof.
  intros Ha. revert l. induction k as [|x k IH] using rev_ind; intros l.
  - now rewrite app_nil_r, blit_nil.
  - rewrite app_assoc, blit_snoc, IH, blit_snoc by (pose proof (zlen_nonneg l); lia).
    f_equal. autorewrite with buf. lia.
Qed.

Lemma put_run_blit b a r : 0 <= a -> put_run b a r = blit b a (run_bytes_of r).
Proof.
  intros. unfold put_run, run_bytes_of.
  rewrite put_le32_blit, !put_le16_blit, !blit_app by (autorewrite with buf; lia).
  autorewrite with buf.
  replace (a + Z.of_nat 4 + Z.of_nat 2) with (a + 6) by lia. reflexivity.
Qed.
#[export] Hint Rewrite put_run_blit using lia : put.

Lemma le_run_put_same b a r :
  0 <= a -> a + 8 <= zlen b -> run_ok r -> le_run (put_run b a r) a = r.
Proof.
  intros Ha Hb (Hg & Hs & Hl). unfold le_run, put_run.
  autorewrite with put.
  rewrite le32_blit_disj, le32_blit_disj, le32_blit_in, Z.sub_diag, le_split_get32,
    le16_blit_disj, le16_blit_in, Z.sub_diag, le_split_get16,
    le16_blit_in, Z.sub_diag, le_split_get16 by (autorewrite with buf; lia).
  destruct r; simpl in *. autorewrite with width. reflexivity.
Qed.

Lemma land_shiftl_mask x m n :
  0 <= n -> Z.land x (Z.shiftl m n) = Z.shiftl (Z.land (Z.shiftr x n) m) n.
Proof.
  intros Hn. apply Z.bits_inj'; intros i Hi. rewrite Z.land_spec.
  destruct (Z.lt_ge_cases i n).
  - rewrite !Z.shiftl_spec_low by lia. apply andb_false_r.
  - rewrite !Z.shiftl_spec, Z.land_spec, Z.shiftr_spec by lia. do 2 f_equal. lia.
Qed.

Lemma link_offset_div v : link_offset v = (v / 1024) mod 2 ^ 52 * 1024.
Proof.
  unfold link_offset. change 0x3ffffffffffffc00 with (Z.shiftl (Z.ones 52) 10).
  rewrite land_shiftl_mask, Z.land_ones, Z.shiftl_mul_pow2, Z.shiftr_div_pow2 by lia.
  reflexivity.
Qed.

Lemma make_link_sum t o :
  0 <= t < 4 -> 0 <= o < 2 ^ 62 -> o mod 1024 = 0 -> make_link t o = o + t * 2 ^ 62.
Proof.
  intros Ht Ho Hm. unfold make_link. fold (link_offset o). rewrite link_offset_div.
  rewrite u64_small by (rewrite Z.shiftl_mul_pow2; lia).
  rewrite Z.lor_comm, lor_shiftl_add; [|lia|]; rewrite Z.mod_small by zlia; zlia.
Qed.

Lemma link_is_duplicate_spec v :
  0 <= v < 2 ^ 64 -> link_is_duplicate v = (2 ^ 62 <=? v).
Proof.
  intros Hv. unfold link_is_duplicate, link_type.
  rewrite Z.shiftr_div_pow2 by lia.
  change (Z.lor kDuplicateNode kDuplicateFragment) with (Z.ones 2).
  rewrite Z.land_ones by lia. change (2 ^ 2) with 4.
  rewrite (Z.mod_small (v / 2 ^ 62)) by zlia.
  destruct (Z.leb_spec (2 ^ 62) v); destruct (Z.eqb_spec (v / 2 ^ 62) 0); simpl; auto; zlia.
Qed.

Lemma key_align_spec v : 0 <= v -> v + 7 < 2 ^ 32 -> key_align v = (v + 7) / 8 * 8.
Proof.
  intros H0 H. unfold key_align. rewrite u32_small by lia.
  change (2 ^ 32 - 8) with (Z.shiftl (Z.ones 29) 3).
  rewrite land_shiftl_mask, Z.land_ones, Z.shiftl_mul_pow2, Z.shiftr_div_pow2 by lia.
  change (2 ^ 3) with 8. rewrite Z.mod_small; [reflexivity|zlia].
Qed.

(** A run is [zero] exactly when it is the list terminator. *)
Lemma run_is_zero_true r : run_is_zero r = true <-> r = mkRun 0 0 0.
Proof.
  destruct r as [g s l]; unfold run_is_zero; simpl. rewrite !andb_true_iff, !Z.eqb_eq.
  split; [intros [[-> ->] ->]; reflexivity | intros [= -> -> ->]; auto].
Qed.

(** * Properties *)

(** a block run written into any buffer reads back as itself, and the
    writer touches only its own eight bytes. *)
Theorem put_run_roundtrip b a r :
  0 <= a -> a + 8 <= zlen b -> run_ok r ->
  le_run (put_run b a r) a = r /\ zlen (put_run b a r) = zlen b /\
  (forall i, 0 <= i -> i < a \/ a + 8 <= i -> byte_at (put_run b a r) i = byte_at b i).
Proof.
  intros Ha Hb Hr. split; [now apply le_run_put_same|]. split; [apply zlen_put_run|].
  intros i Hi Hd. rewrite put_run_blit by lia.
  apply byte_blit_disj; rewrite ?zlen_run_bytes_of; lia.
Qed.

Lemma put_run_roundtrip_witness :
  le_run (put_run (zeros 16) 4 (mkRun 70000 513 65535)) 4 = mkRun 70000 513 65535.
Proof. apply put_run_roundtrip; [lia | vm_compute; discriminate | unfold run_ok; simpl; lia]. Defined.

(** a duplicate link gives back its type and its node offset, and a tree
    value below 2^62 -- every block number -- is never taken for a link. *)
Theorem link_roundtrip t o v :
  0 <= t < 4 -> 0 <= o < 2 ^ 62 -> o mod 1024 = 0 -> 0 <= v < 2 ^ 62 ->
  link_type (make_link t o) = t /\ link_offset (make_link t o) = o /\
  link_is_duplicate (make_link t o) = negb (t =? 0) /\ link_is_duplicate v = false.
Proof.
  intros Ht Ho Hm Hv. rewrite make_link_sum by auto.
  unfold link_type. rewrite Z.shiftr_div_pow2, link_offset_div, !link_is_duplicate_spec by lia.
  repeat split.
  - rewrite Z.div_add, Z.div_small by lia. lia.
  - change (2 ^ 62) with (2 ^ 52 * 1024). rewrite Z.mul_assoc, Z.div_add by lia.
    rewrite Z.mod_add by lia. rewrite Z.mod_small; zlia.
  - destruct (Z.leb_spec (2 ^ 62) (o + t * 2 ^ 62)); destruct (Z.eqb_spec t 0); simpl; auto; lia.
  - apply Z.leb_gt. lia.
Qed.

Lemma link_roundtrip_witness :
  link_type (make_link kDuplicateNode 8192) = kDuplicateNode /\
  link_offset (make_link kDuplicateNode 8192) = 8192 /\
  link_is_duplicate (make_link kDuplicateNode 8192) = true /\ link_is_duplicate 77 = false.
Proof. apply (link_roundtrip kDuplicateNode 8192 77); unfold kDuplicateNode; try lia; reflexivity. Defined.
