(* ===== verification/Slots.v ===== *)
(** Tables of slots.

    Several services keep their rows in an array whose free slots are marked in
    the row itself.  Here such an array is read as a finite map: [entry] says
    which row a slot holds and under which key, and the lemmas say what filling,
    changing and freeing one slot does to the map. *)
From stdpp Require Import base numbers list gmap.
From Stdlib Require Import ZArith Lia.
From S2P Require Import Prelude.

Section Slots.
Context {A K V : Type} `{Countable K} (entry : A -> option (K * V)).

Definition entries (l : list A) : list (K * V) := omap entry l.
Definition table (l : list A) : gmap K V := list_to_map (entries l).
(** No key is in two slots. *)
Definition distinct (l : list A) : Prop := NoDup (entries l).*1.

Lemma entries_split l i x :
  l !! i = Some x ->
  entries l = entries (take i l) ++ omap entry [x] ++ entries (drop (S i) l).
Proof.
  intros Hx. rewrite <- (take_drop_middle l i x Hx) at 1. unfold entries.
  rewrite omap_app. f_equal. change (x :: drop (S i) l) with ([x] ++ drop (S i) l). apply omap_app.
Qed.

Lemma entries_insert l i y :
  (i < length l)%nat ->
  entries (<[i := y]> l) = entries (take i l) ++ omap entry [y] ++ entries (drop (S i) l).
Proof.
  intros Hi. rewrite (entries_split _ i y) by (now apply list_lookup_insert_eq).
  rewrite take_insert_ge by lia. rewrite drop_insert_lt by lia. reflexivity.
Qed.

(** The other slots' entries. *)
Definition others (l : list A) (i : nat) : list (K * V) := entries (take i l) ++ entries (drop (S i) l).

Lemma entries_live l i x kv :
  l !! i = Some x -> entry x = Some kv -> entries l ≡ₚ kv :: others l i.
Proof.
  intros Hx Hk. rewrite (entries_split l i x Hx). cbn. rewrite Hk. symmetry. apply Permutation_middle.
Qed.
Lemma entries_free l i x : l !! i = Some x -> entry x = None -> entries l = others l i.
Proof. intros Hx Hk. rewrite (entries_split l i x Hx). cbn. rewrite Hk. reflexivity. Qed.
Lemma others_insert l i y : others (<[i := y]> l) i = others l i.
Proof. unfold others. rewrite take_insert_ge, drop_insert_lt by lia. reflexivity. Qed.

Lemma keys_perm l l' : entries l ≡ₚ l' -> (entries l).*1 ≡ₚ l'.*1.
Proof. intros Hp. now apply Permutation_map. Qed.

Lemma table_perm l l' : distinct l -> entries l ≡ₚ l' -> table l = list_to_map l'.
Proof. intros Hd Hp. now apply list_to_map_proper. Qed.

Lemma table_lookup l k v : distinct l -> table l !! k = Some v <-> exists i x, l !! i = Some x /\ entry x = Some (k, v).
Proof.
  intros Hd. unfold table. rewrite <- elem_of_list_to_map by exact Hd.
  unfold entries. rewrite list_elem_of_omap. split.
  - intros (x & Hx & Hk). apply list_elem_of_lookup in Hx as [i Hx]. eauto.
  - intros (i & x & Hx & Hk). exists x. split; [|exact Hk]. eapply list_elem_of_lookup_2; eauto.
Qed.

Lemma table_lookup_1 l i x k v :
  distinct l -> l !! i = Some x -> entry x = Some (k, v) -> table l !! k = Some v.
Proof. intros Hd Hx Hk. apply table_lookup; eauto. Qed.

Lemma table_none l k :
  distinct l -> table l !! k = None <-> forall i x v, l !! i = Some x -> entry x <> Some (k, v).
Proof.
  intros Hd. split.
  - intros Hn i x v Hx Hk. assert (table l !! k = Some v) by (apply table_lookup; eauto). congruence.
  - intros Hn. destruct (table l !! k) as [v|] eqn:E; [|reflexivity].
    apply table_lookup in E as (i & x & Hx & Hk); [|exact Hd]. exfalso. eapply Hn; eauto.
Qed.

(** A key is in one slot. *)
Lemma distinct_slot l i j x y k v w :
  distinct l -> l !! i = Some x -> entry x = Some (k, v) -> l !! j = Some y -> entry y = Some (k, w) -> i = j.
Proof.
  intros Hd. revert i j. induction l as [|z l IH]; intros i j Hx Hk Hy Hw; [discriminate|].
  assert (Hin : forall i x v, l !! i = Some x -> entry x = Some (k, v) -> k ∈ (entries l).*1).
  { intros n x' v' Hx' Hk'. apply list_elem_of_fmap. exists (k, v'). split; [reflexivity|].
    apply list_elem_of_omap. exists x'. split; [eapply list_elem_of_lookup_2; eauto|exact Hk']. }
  unfold distinct, entries in *. cbn in Hd.
  destruct i as [|i], j as [|j]; cbn in Hx, Hy; [reflexivity| | |]; simplify_eq.
  - rewrite Hk in Hd. apply NoDup_cons in Hd as [Hd _]. exfalso. eapply Hd, Hin; eauto.
  - rewrite Hw in Hd. apply NoDup_cons in Hd as [Hd _]. exfalso. eapply Hd, Hin; eauto.
  - f_equal. apply (IH ltac:(destruct (entry z); [apply NoDup_cons in Hd as [_ Hd]|]; exact Hd) i j); auto.
Qed.

(** A slot in use gets other contents under the same key. *)
Lemma table_update l i x y k v w :
  distinct l -> l !! i = Some x -> entry x = Some (k, v) -> entry y = Some (k, w) ->
  distinct (<[i := y]> l) /\ table (<[i := y]> l) = <[k := w]> (table l).
Proof.
  intros Hd Hx Hk Hw. pose proof (lookup_lt_Some _ _ _ Hx) as Hi.
  pose proof (entries_live l i x (k, v) Hx Hk) as Hp.
  assert (Hy : <[i := y]> l !! i = Some y) by (now apply list_lookup_insert_eq).
  pose proof (entries_live _ i y (k, w) Hy Hw) as Hq. rewrite others_insert in Hq.
  assert (Hd' : distinct (<[i := y]> l)).
  { unfold distinct. rewrite (keys_perm _ _ Hq). unfold distinct in Hd. rewrite (keys_perm _ _ Hp) in Hd. exact Hd. }
  split; [exact Hd'|]. rewrite (table_perm _ _ Hd' Hq), (table_perm _ _ Hd Hp). cbn.
  now rewrite insert_insert_eq.
Qed.

(** A free slot is filled under a key that no slot has. *)
Lemma table_fill l i x y k w :
  distinct l -> l !! i = Some x -> entry x = None -> entry y = Some (k, w) -> table l !! k = None ->
  distinct (<[i := y]> l) /\ table (<[i := y]> l) = <[k := w]> (table l).
Proof.
  intros Hd Hx Hk Hw Hn. pose proof (lookup_lt_Some _ _ _ Hx) as Hi.
  pose proof (entries_free l i x Hx Hk) as Hp.
  assert (Hy : <[i := y]> l !! i = Some y) by (now apply list_lookup_insert_eq).
  pose proof (entries_live _ i y (k, w) Hy Hw) as Hq. rewrite others_insert, <- Hp in Hq.
  assert (Hd' : distinct (<[i := y]> l)).
  { unfold distinct. rewrite (keys_perm _ _ Hq). cbn. constructor; [|exact Hd].
    now apply not_elem_of_list_to_map. }
  split; [exact Hd'|]. now rewrite (table_perm _ _ Hd' Hq).
Qed.

(** A slot in use is freed. *)
Lemma table_drop l i x y k v :
  distinct l -> l !! i = Some x -> entry x = Some (k, v) -> entry y = None ->
  distinct (<[i := y]> l) /\ table (<[i := y]> l) = delete k (table l).
Proof.
  intros Hd Hx Hk Hw. pose proof (lookup_lt_Some _ _ _ Hx) as Hi.
  pose proof (entries_live l i x (k, v) Hx Hk) as Hp.
  assert (Hy : <[i := y]> l !! i = Some y) by (now apply list_lookup_insert_eq).
  pose proof (entries_free _ i y Hy Hw) as Hq. rewrite others_insert in Hq.
  pose proof Hd as Hd0. unfold distinct in Hd0. rewrite (keys_perm _ _ Hp) in Hd0. cbn in Hd0.
  apply NoDup_cons in Hd0 as [Hnk Hd0].
  split; [unfold distinct; now rewrite Hq|]. rewrite (table_perm _ _ Hd Hp). unfold table. rewrite Hq. cbn.
  rewrite delete_insert_id; [reflexivity|]. now apply not_elem_of_list_to_map.
Qed.

(** A free slot that stays free. *)
Lemma table_idle l i x y :
  distinct l -> l !! i = Some x -> entry x = None -> entry y = None ->
  distinct (<[i := y]> l) /\ table (<[i := y]> l) = table l.
Proof.
  intros Hd Hx Hk Hw. pose proof (lookup_lt_Some _ _ _ Hx) as Hi.
  assert (Hy : <[i := y]> l !! i = Some y) by (now apply list_lookup_insert_eq).
  assert (Hq : entries (<[i := y]> l) = entries l).
  { rewrite (entries_free _ i y Hy Hw), others_insert. symmetry. now apply (entries_free l i x). }
  unfold distinct, table. rewrite Hq. auto.
Qed.

(** A slot is free exactly while the map is smaller than the array. *)
Lemma entries_full l : (length (entries l) <= length l)%nat.
Proof. induction l as [|x l IH]; cbn; [lia|]. destruct (entry x); cbn; unfold entries in IH; lia. Qed.
Lemma entries_room l :
  (length (entries l) < length l)%nat <-> exists i x, l !! i = Some x /\ entry x = None.
Proof.
  induction l as [|x l IH]; cbn.
  - split; [lia|intros (i & x & Hx & _); rewrite lookup_nil in Hx; discriminate].
  - pose proof (entries_full l) as Hf. unfold entries in *. destruct (entry x) as [kv|] eqn:E; cbn.
    + rewrite <- Nat.succ_lt_mono, IH. split.
      * intros (i & y & Hy & Hk). exists (S i), y. auto.
      * intros ([|i] & y & Hy & Hk); cbn in Hy; [congruence|eauto].
    + split; [intros _; exists 0%nat, x; auto|lia].
Qed.
Lemma size_table l : distinct l -> size (table l) = length (entries l).
Proof.
  intros Hd. unfold table. rewrite <- length_map_to_list, map_to_list_to_map by exact Hd. reflexivity.
Qed.
Lemma table_room l :
  distinct l -> (size (table l) < length l)%nat <-> exists i x, l !! i = Some x /\ entry x = None.
Proof. intros Hd. rewrite size_table by exact Hd. apply entries_room. Qed.
End Slots.

(** The loop [for (i < capacity) if (p (rows[i])) return i]. *)
Fixpoint first_from {A} (p : A -> bool) (l : list A) (i : nat) : option nat :=
  match l with
  | [] => None
  | x :: l => if p x then Some i else first_from p l (S i)
  end.
Definition first_slot {A} (p : A -> bool) (l : list A) : option nat := first_from p l 0.

Lemma first_from_spec {A} (p : A -> bool) l : forall i,
  match first_from p l i with
  | Some j => (i <= j)%nat /\ exists x, l !! (j - i)%nat = Some x /\ p x = true
  | None => forall j x, l !! j = Some x -> p x = false
  end.
Proof.
  induction l as [|x l IH]; intros i; cbn [first_from]; [intros j y Hy; rewrite lookup_nil in Hy; discriminate|].
  destruct (p x) eqn:E.
  - split; [lia|]. exists x. rewrite Nat.sub_diag. auto.
  - specialize (IH (S i)). destruct (first_from p l (S i)) as [j|].
    + destruct IH as [Hj (y & Hy & Hp)]. split; [lia|]. exists y. split; [|exact Hp].
      replace (j - i)%nat with (S (j - S i)) by lia. exact Hy.
    + intros [|j] y Hy; cbn in Hy; [congruence|eauto].
Qed.

Lemma first_slot_spec {A} (p : A -> bool) l :
  match first_slot p l with
  | Some j => exists x, l !! j = Some x /\ p x = true
  | None => forall j x, l !! j = Some x -> p x = false
  end.
Proof.
  pose proof (first_from_spec p l 0) as H. unfold first_slot. destruct (first_from p l 0) as [j|]; [|exact H].
  destruct H as [_ H]. now rewrite Nat.sub_0_r in H.
Qed.
