(* ===== verification/Wire.v ===== *)
(** What travels in a message (libs/freestanding/aegir-namespace,
    include/aegir/nmspace.h, and libs/freestanding/aegir-volume,
    include/aegir/volume.h): words as bytes and bytes as words on a little-endian
    machine, the packed strings every port carries, and the methods and limits
    of the volume protocol. *)
From stdpp Require Import base numbers list list_numbers.
From Stdlib Require Import ZArith Lia.
From S2P Require Import Prelude Layout.

(** * Words and bytes *)

Definition words_of (b : bytes) (n : Z) : list Z := map (fun i => le_num (slice b (i * 8) 8)) (seqZ 0 n).
Definition bytes_of (words : list Z) : bytes := concat (map (le_split 8) words).
Definition word (words : list Z) (i : Z) : Z := nth (Z.to_nat i) words 0.

Definition word_ok (w : Z) : Prop := 0 <= w < 2 ^ 64.

Lemma word_num v : word_ok v -> le_num (le_split 8 v) = v.
Proof. intros Hv. rewrite le_num_split. change (256 ^ Z.of_nat 8) with (2 ^ 64). now apply Z.mod_small. Qed.

Lemma zlen_bytes_of words : zlen (bytes_of words) = 8 * zlen words.
Proof.
  induction words as [|w words IH]; [reflexivity|]. unfold bytes_of in *. cbn [map concat].
  rewrite zlen_app, IH, zlen_le_split, zlen_cons. lia.
Qed.
Lemma zlen_words_of b n : 0 <= n -> zlen (words_of b n) = n.
Proof. intros Hn. unfold words_of, zlen. rewrite length_map, length_seqZ. lia. Qed.
#[export] Hint Rewrite zlen_bytes_of : buf.
#[export] Hint Rewrite zlen_words_of using lia : buf.

Lemma bytes_ok_bytes_of words : bytes_ok (bytes_of words).
Proof.
  induction words as [|w words IH]; [constructor|]. unfold bytes_of in *. cbn [map concat]. auto with buf.
Qed.
#[export] Hint Resolve bytes_ok_bytes_of : buf.

Lemma word_ok_nth words i : Forall word_ok words -> word_ok (word words i).
Proof.
  intros Hw. unfold word. destruct (nth_in_or_default (Z.to_nat i) words 0) as [Hi| ->]; [|split; lia].
  rewrite Forall_forall in Hw. apply Hw. now apply list_elem_of_In.
Qed.

(** The bytes of the words that hold a buffer are the buffer, filled up. *)
Lemma seqZ_snoc n : 0 <= n -> seqZ 0 (n + 1) = seqZ 0 n ++ [n].
Proof. intros Hn. rewrite (seqZ_app 0 n 1) by lia. reflexivity. Qed.

Lemma bytes_of_words_of b n : bytes_ok b -> 0 <= n -> bytes_of (words_of b n) = slice b 0 (8 * n).
Proof.
  intros Hb Hn. revert n Hn. apply natlike_ind; [reflexivity|]. intros n Hn IH. unfold Z.succ.
  unfold words_of in *. rewrite seqZ_snoc by lia. rewrite map_app. unfold bytes_of in *. rewrite map_app, concat_app, IH.
  cbn [map concat]. rewrite app_nil_r.
  pose proof (le_split_num (slice b (n * 8) 8) ltac:(auto with buf)) as Hl. rewrite length_slice in Hl. change (Z.to_nat 8) with 8%nat in Hl. rewrite Hl.
  replace (8 * (n + 1)) with (8 * n + 8) by lia. rewrite slice_split by lia. f_equal. f_equal; lia.
Qed.

(** * Packed strings *)

Definition kNameMax : Z := 24.
Definition kTypeMax : Z := 16.
Definition kDeviceMax : Z := 8.
Definition kPathMax : Z := 944.
(** The words of a message (include/aegir/ipc/port.h). *)
Definition kMaxWords : Z := 119.

(** How many words a string of this length takes after its length word. *)
Definition string_words (length : Z) : Z := (length + 7) / 8.

(** [out] is the caller's array; the result is how many words were used. *)
Definition pack_string (out : list Z) (text : bytes) (max : Z) : Z * list Z :=
  let length := zlen text in
  if max <? length then (0, out)
  else
    let words := 1 + string_words length in
    let out := <[0%nat := length]> out in
    let out := words_of (blit (bytes_of out) 8 text) (zlen out) in
    let out :=
      if negb (length mod 8 =? 0)
      then <[Z.to_nat (words - 1) := Z.land (word out (words - 1)) (Z.ones (length mod 8 * 8))]> out
      else out in
    (words, out).

(** [in] has [words] words; the view is of the bytes that follow the length. *)
Definition unpack_string (words : list Z) (max : Z) : option bytes :=
  let n := word words 0 in
  if (max <? n) || (zlen words <? 1 + string_words n) then None
  else Some (slice (bytes_of words) 8 n).

(** * The volume protocol *)

Module volume.
Definition kMethodRead : Z := 1.
Definition kMethodList : Z := 2.
Definition kMethodOpen : Z := 3.
Definition kMethodWrite : Z := 4.
Definition kMethodClose : Z := 5.
Definition kMethodMkdir : Z := 6.
Definition kMethodRemove : Z := 7.
Definition kMethodReap : Z := 8.
Definition kMethodStat : Z := 9.
Definition kMethodRename : Z := 10.
Definition kMethodTruncate : Z := 11.
Definition kMethodReadHandle : Z := 23.
Definition kOpenCreate : Z := 1.
Definition kOpenTruncate : Z := 2.
Definition kOpenRead : Z := 4.
Definition kWriteMax : Z := 117 * 8.
Definition kReadMax : Z := 117 * 8.
Definition kKindFile : Z := 1.
Definition kKindDir : Z := 2.
Definition kReadHeaderWords : Z := 2.
Definition kStatTailWords : Z := 4.
Definition kMethodSpace : Z := 24.
Definition kMethodReadFrame : Z := 25.
Definition kMethodWriteFrame : Z := 26.
Definition kFrameBytes : Z := 2 ^ 12.
Definition kFrameBitsMin : Z := 12.
Definition kFrameBitsMax : Z := 21.
Definition kListTailWords : Z := 3.
Definition kSpaceTailWords : Z := 2.
Definition kEntryNameMax : Z := 119 * 8 - kListTailWords * 8.
End volume.

(** ** Strings read back *)

Lemma byte_at_bytes_of words i :
  0 <= i -> byte_at (bytes_of words) i = byte_at (le_split 8 (word words (i / 8))) (i mod 8).
Proof.
  revert i. induction words as [|w words IH]; intros i Hi.
  - unfold word. rewrite byte_at_out by (rewrite zlen_bytes_of; unfold zlen; cbn [length]; lia). destruct (Z.to_nat (i / 8)); cbn [nth];
      symmetry; change (le_split 8 0) with (zeros 8); apply byte_at_zeros.
  - unfold bytes_of. cbn [map concat]. rewrite byte_at_app by lia. rewrite zlen_le_split. change (Z.of_nat 8) with 8. zcase.
    + unfold word. rewrite Z.div_small, Z.mod_small by lia. reflexivity.
    + fold (bytes_of words). rewrite IH by lia.
      replace (i / 8) with ((i - 8) / 8 + 1) by zlia. replace (i mod 8) with ((i - 8) mod 8) by zlia.
      unfold word. replace (Z.to_nat ((i - 8) / 8 + 1)) with (S (Z.to_nat ((i - 8) / 8))) by (pose proof (Z.div_pos (i - 8) 8); lia).
      reflexivity.
Qed.

Lemma word_insert out i v j :
  0 <= i < zlen out -> 0 <= j -> word (<[Z.to_nat i := v]> out) j = if i =? j then v else word out j.
Proof.
  intros Hi Hj. unfold word, zlen in *. rewrite !nth_lookup. destruct (Z.eqb_spec i j) as [->|Hne].
  - rewrite list_lookup_insert_eq by lia. reflexivity.
  - rewrite list_lookup_insert_ne by lia. reflexivity.
Qed.

Lemma word_words_of b n i : 0 <= i < n -> word (words_of b n) i = le_num (slice b (i * 8) 8).
Proof.
  intros Hi. unfold word, words_of. rewrite nth_lookup, list_lookup_fmap, lookup_seqZ_lt by lia.
  cbn. do 3 f_equal; lia.
Qed.

Lemma byte_at_le_split8 w r : 0 <= r < 8 -> byte_at (le_split 8 w) r = w / 256 ^ r mod 256.
Proof.
  intros Hr. assert (Hd : forall n w r, 0 <= r < Z.of_nat n -> byte_at (le_split n w) r = w / 256 ^ r mod 256).
  { clear. intros n. induction n as [|n IH]; intros w r Hr; [lia|]. cbn [le_split].
    destruct (Z.eq_dec r 0) as [->|Hr0]; [unfold byte_at; cbn; now rewrite Z.div_1_r|].
    unfold byte_at. replace (Z.to_nat r) with (S (Z.to_nat (r - 1))) by lia. cbn [nth].
    fold (byte_at (le_split n (w / 256)) (r - 1)). rewrite IH by lia.
    rewrite Z.div_div by lia. do 2 f_equal. rewrite <- Z.pow_succ_r by lia. f_equal. lia. }
  apply Hd. lia.
Qed.

(** Masking a word keeps its low bytes. *)
Lemma byte_at_masked w m r :
  0 <= r < m -> m < 8 -> byte_at (le_split 8 (Z.land w (Z.ones (m * 8)))) r = byte_at (le_split 8 w) r.
Proof.
  intros Hr Hm. rewrite !byte_at_le_split8 by lia. rewrite Z.land_ones by lia.
  change 256 with (2 ^ 8). rewrite <- Z.pow_mul_r by lia.
  rewrite <- !Z.shiftr_div_pow2, <- !Z.land_ones by lia. apply Z.bits_inj'. intros i Hi.
  rewrite !Z.land_spec, !Z.shiftr_spec, Z.land_spec by lia.
  destruct (Z.lt_ge_cases i 8); [|rewrite !(Z.ones_spec_high 8) by lia; now rewrite !andb_false_r].
  rewrite (Z.ones_spec_low (m * 8)) by nia. now rewrite andb_true_r.
Qed.

Lemma string_words_bound n : 0 <= n -> n <= 8 * string_words n < n + 8.
Proof. intros Hn. unfold string_words. zlia. Qed.

(** What [pack_string] puts into an array with room for it, [unpack_string]
    reads back, whatever the words after it. *)
Lemma unpack_pack out text max rest :
  bytes_ok text -> zlen text <= max < 2 ^ 32 -> 1 + string_words (zlen text) <= zlen out ->
  (pack_string out text max).1 = 1 + string_words (zlen text) /\
  unpack_string ((pack_string out text max).2 ++ rest) max = Some text.
Proof.
  intros Hb Hm Hr. pose proof (zlen_nonneg text) as H0. pose proof (string_words_bound _ H0) as Hw.
  unfold pack_string. rewrite (proj2 (Z.ltb_ge _ _)) by lia. cbv zeta.
  set (out1 := <[0%nat := zlen text]> out).
  assert (Hz1 : zlen out1 = zlen out) by (unfold zlen, out1; now rewrite length_insert).
  set (out2 := words_of (blit (bytes_of out1) 8 text) (zlen out1)).
  assert (Hz2 : zlen out2 = zlen out) by (unfold out2; rewrite zlen_words_of; lia).
  set (out3 := if negb _ then _ else _).
  assert (Hz3 : zlen out3 = zlen out) by (unfold out3, zlen in *; destruct (negb _); rewrite ?length_insert; lia).
  assert (Hbo : bytes_ok (blit (bytes_of out1) 8 text)) by (apply bytes_ok_blit; auto with buf; lia).
  assert (H2 : forall i, 0 <= i < 8 * zlen out -> byte_at (bytes_of out2) i = byte_at (blit (bytes_of out1) 8 text) i).
  { intros i Hi. unfold out2. rewrite bytes_of_words_of by (auto; lia). rewrite byte_at_slice by lia. f_equal; lia. }
  assert (Hb3 : forall i, 0 <= i < 8 + zlen text -> byte_at (bytes_of out3) i = byte_at (blit (bytes_of out1) 8 text) i).
  { intros i Hi. rewrite <- H2 by lia. unfold out3. destruct (Z.eqb_spec (zlen text mod 8) 0) as [E|E]; [reflexivity|]. cbn [negb].
    rewrite !byte_at_bytes_of by lia.
    rewrite word_insert by zlia. destruct (Z.eqb_spec (1 + string_words (zlen text) - 1) (i / 8)) as [Ej|Ej]; [|reflexivity].
    rewrite Ej. apply byte_at_masked; [|zlia]. split; [zlia|]. unfold string_words in Ej. zlia. }
  split; [reflexivity|].
  assert (Hn : word (out3 ++ rest) 0 = zlen text).
  { assert (Hw0 : word (out3 ++ rest) 0 = word out3 0).
    { unfold word. rewrite app_nth1 by (unfold zlen in *; lia). reflexivity. }
    assert (Hw1 : word out3 0 = word out2 0).
    { unfold out3. destruct (Z.eqb_spec (zlen text mod 8) 0) as [E|E]; [reflexivity|]. cbn [negb].
      rewrite word_insert by lia. zcase; [|reflexivity]. unfold string_words in *. zlia. }
    rewrite Hw0, Hw1. unfold out2. rewrite word_words_of by lia. rewrite Z.mul_0_l.
    rewrite slice_blit_disj by lia. unfold out1.
    replace (slice (bytes_of (<[0%nat:=zlen text]> out)) 0 8) with (le_split 8 (zlen text)).
    - apply word_num. unfold word_ok. lia.
    - destruct out as [|w out]; [rewrite zlen_nil in Hr; lia|]. cbn [insert list_insert]. unfold bytes_of. cbn [map concat].
      rewrite slice_app_l by (rewrite ?zlen_le_split; lia). symmetry. now apply slice_all. }
  cbn [snd]. unfold unpack_string. rewrite Hn. rewrite (proj2 (Z.ltb_ge _ _)) by lia.
  rewrite zlen_app, (proj2 (Z.ltb_ge _ _)) by (pose proof (zlen_nonneg rest); lia). cbn. f_equal.
  apply bytes_ext; [rewrite zlen_slice; lia|]. intros i Hi. rewrite zlen_slice in Hi by lia.
  rewrite byte_at_slice by lia. unfold bytes_of. rewrite map_app, concat_app. fold (bytes_of out3).
  rewrite byte_at_app, zlen_bytes_of by lia. rewrite (proj2 (Z.ltb_lt _ _)) by lia.
  rewrite Hb3 by lia. rewrite byte_at_blit by lia. rewrite zlen_bytes_of.
  rewrite (proj2 (Z.leb_le _ _)), !(proj2 (Z.ltb_lt _ _)) by lia. cbn. f_equal; lia.
Qed.
