(* ===== verification/Device.v ===== *)
(** The sector transport a volume is opened over.

    [Volume::open] is handed callbacks ([ReadSectors], [WriteSectors],
    [DiscardSectors] of include/aegir/bfs/volume.h) and knows nothing else of
    the device, so the device is a parameter: an abstract state with the three
    callbacks, and laws that say what the callbacks' documentation promises.
    [sector] is the ghost view the laws are stated with.  [Disk] is a concrete,
    executable device with a power fuse, which satisfies them. *)
From stdpp Require Import base numbers list list_numbers.
From Stdlib Require Import ZArith Lia.
From S2P Require Import Prelude.

Definition kSectorBytes : Z := 512.

Class SectorDevice (D : Type) := {
  (** [None]: the device refused, and the caller's buffer is as it was. *)
  read_sectors : D -> Z -> Z -> option bytes;
  write_sectors : D -> Z -> bytes -> Z -> bool * D;
  discard_sectors : D -> Z -> Z -> bool * D;
  sector : D -> Z -> bytes;
}.

(** The [n] sectors from [s], end to end. *)
Definition sectors {D} `{SectorDevice D} (d : D) (s n : Z) : bytes :=
  concat (map (sector d) (seqZ s n)).

(** What the transport promises.  A write that is refused part-way may have
    reached some sectors and not others, but each sector is written whole. *)
Class SectorDeviceLaws (D : Type) `{SectorDevice D} := {
  sector_len (d : D) s : zlen (sector d s) = kSectorBytes;
  sector_ok (d : D) s : bytes_ok (sector d s);
  read_view (d : D) s n out :
    0 <= s -> 0 < n -> read_sectors d s n = Some out -> out = sectors d s n;
  write_frame (d d' : D) s buf n ok k :
    write_sectors d s buf n = (ok, d') -> 0 <= s -> 0 <= k -> k < s \/ s + n <= k ->
    sector d' k = sector d k;
  write_done (d d' : D) s buf n k :
    bytes_ok buf -> 0 <= s -> write_sectors d s buf n = (true, d') -> 0 <= k < n ->
    sector d' (s + k) = slice buf (k * kSectorBytes) kSectorBytes;
  write_torn (d d' : D) s buf n ok k :
    bytes_ok buf -> 0 <= s -> write_sectors d s buf n = (ok, d') -> 0 <= k < n ->
    sector d' (s + k) = sector d (s + k) \/
    sector d' (s + k) = slice buf (k * kSectorBytes) kSectorBytes;
  discard_frame (d d' : D) s n ok k :
    discard_sectors d s n = (ok, d') -> 0 <= k -> k < s \/ s + n <= k ->
    sector d' k = sector d k;
}.

(** A device that is switched on and works, over its first [cap] sectors. *)
Class PoweredDevice (D : Type) `{SectorDevice D} := {
  powered : D -> Z -> Prop;
  powered_read d cap s n :
    powered d cap -> 0 <= s -> 0 < n -> s + n <= cap ->
    exists out, read_sectors d s n = Some out;
  powered_write d cap s buf n :
    powered d cap -> 0 <= s -> 0 < n -> s + n <= cap ->
    exists d', write_sectors d s buf n = (true, d') /\ powered d' cap;
}.

(** The same sectors: what survives a reboot. *)
Definition same_sectors {D} `{SectorDevice D} (d d' : D) : Prop :=
  forall s, 0 <= s -> sector d' s = sector d s.

(** * A concrete device *)
Module Disk.

(** The sectors, and how many more writes succeed before the power goes
    ([None]: it never goes).  [trimmed] records the discards. *)
Record disk := mkDisk {
  contents : list bytes;
  fuse : option nat;
  trimmed : list (Z * Z);
}.

Definition in_range (d : disk) (s n : Z) : bool :=
  (0 <=? s) && (0 <? n) && (s + n <=? zlen (contents d)).

Definition sector_of (d : disk) (s : Z) : bytes :=
  slice (map u8 (nth (Z.to_nat s) (contents d) [])) 0 kSectorBytes.

Definition read (d : disk) (s n : Z) : option bytes :=
  if in_range d s n then Some (concat (map (sector_of d) (seqZ s n))) else None.

(** Sectors [s .. s + n) become the chunks of [buf]. *)
Fixpoint put_sectors (l : list bytes) (s : nat) (buf : bytes) (n : nat) : list bytes :=
  match n with
  | O => l
  | S n => put_sectors (<[s := slice buf 0 kSectorBytes]> l) (S s)
             (drop (Z.to_nat kSectorBytes) buf) n
  end.

Definition write (d : disk) (s : Z) (buf : bytes) (n : Z) : bool * disk :=
  if in_range d s n then
    match fuse d with
    | Some O => (false, d)
    | f => (true, mkDisk (put_sectors (contents d) (Z.to_nat s) buf (Z.to_nat n))
                         (option_map Nat.pred f) (trimmed d))
    end
  else (false, d).

Definition discard (d : disk) (s n : Z) : bool * disk :=
  (true, mkDisk (contents d) (fuse d) (trimmed d ++ [(s, n)])).

End Disk.

#[export] Instance disk_device : SectorDevice Disk.disk := {
  read_sectors := Disk.read;
  write_sectors := Disk.write;
  discard_sectors := Disk.discard;
  sector := Disk.sector_of;
}.

Section disk_facts.
Import Disk.

Lemma map_u8_id b : bytes_ok b -> map u8 b = b.
Proof.
  induction 1 as [|x b Hx Hb IH]; simpl; [reflexivity|].
  rewrite IH, u8_small by apply Hx. reflexivity.
Qed.

Lemma bytes_ok_map_u8 b : bytes_ok (map u8 b).
Proof. apply Forall_map, Forall_true. intros. apply u8_range. Qed.

Lemma put_sectors_length l s buf n : length (put_sectors l s buf n) = length l.
Proof.
  revert l s buf; induction n as [|n IH]; intros; simpl; [reflexivity|].
  now rewrite IH, length_insert.
Qed.

Lemma put_sectors_other l s buf n k :
  (k < s \/ s + n <= k)%nat -> nth k (put_sectors l s buf n) [] = nth k l [].
Proof.
  revert l s buf; induction n as [|n IH]; intros l s buf Hk; simpl; [reflexivity|].
  rewrite IH by lia. rewrite !nth_lookup, list_lookup_insert_ne by lia. reflexivity.
Qed.

Lemma put_sectors_same l s buf n k :
  (k < n)%nat -> (s + n <= length l)%nat ->
  nth (s + k) (put_sectors l s buf n) [] = slice buf (Z.of_nat k * kSectorBytes) kSectorBytes.
Proof.
  revert l s buf k; induction n as [|n IH]; intros l s buf k Hk Hl; [lia|]. simpl.
  destruct k as [|k].
  - rewrite Nat.add_0_r, put_sectors_other by lia.
    rewrite nth_lookup, list_lookup_insert_eq by lia. reflexivity.
  - replace (s + S k)%nat with (S s + k)%nat by lia.
    rewrite IH by (rewrite ?length_insert; lia). unfold kSectorBytes.
    apply slice_ext; [lia..|]. intros i Hi. rewrite byte_at_drop by lia. f_equal. lia.
Qed.

Lemma sector_of_write d d' s buf n :
  write d s buf n = (true, d') ->
  in_range d s n = true /\ contents d' = put_sectors (contents d) (Z.to_nat s) buf (Z.to_nat n).
Proof.
  unfold write. destruct (in_range d s n); [|discriminate].
  destruct (fuse d) as [[|m]|]; [discriminate|..]; intros [= <-]; simpl; auto.
Qed.

Lemma in_range_true d s n :
  in_range d s n = true <-> 0 <= s /\ 0 < n /\ s + n <= zlen (contents d).
Proof. unfold in_range. rewrite !andb_true_iff, !Z.leb_le, Z.ltb_lt. tauto. Qed.

Lemma write_false d d' s buf n : write d s buf n = (false, d') -> d' = d.
Proof.
  unfold write. destruct (in_range d s n); [|now intros [= <-]].
  destruct (fuse d) as [[|m]|]; intros [= <-]; auto.
Qed.

Lemma sector_write_same d d' s buf n k :
  bytes_ok buf -> write d s buf n = (true, d') -> 0 <= k < n ->
  sector_of d' (s + k) = slice buf (k * kSectorBytes) kSectorBytes.
Proof.
  intros Hb Hw Hk. apply sector_of_write in Hw as [Hr Hc].
  apply in_range_true in Hr. unfold sector_of. rewrite Hc.
  replace (Z.to_nat (s + k)) with (Z.to_nat s + Z.to_nat k)%nat by lia.
  rewrite put_sectors_same by (unfold zlen in *; lia). rewrite Z2Nat.id by lia.
  rewrite map_u8_id by auto with buf. apply slice_all.
  rewrite zlen_slice; unfold kSectorBytes; lia.
Qed.

Lemma sector_write_other d d' s buf n ok k :
  write d s buf n = (ok, d') -> 0 <= k -> k < s \/ s + n <= k -> sector_of d' k = sector_of d k.
Proof.
  intros Hw Hk Hd. destruct ok; [|now apply write_false in Hw as ->].
  apply sector_of_write in Hw as [Hr Hc]. apply in_range_true in Hr.
  unfold sector_of. now rewrite Hc, put_sectors_other by lia.
Qed.
End disk_facts.

#[export] Instance disk_laws : SectorDeviceLaws Disk.disk.
Proof.
  split.
  - intros. apply zlen_slice. unfold kSectorBytes; lia.
  - intros. apply bytes_ok_slice, bytes_ok_map_u8.
  - intros d s n out _ _. simpl. unfold Disk.read.
    destruct (Disk.in_range d s n); [now intros [= <-] | discriminate].
  - intros * Hw _ Hk Hd. exact (sector_write_other _ _ _ _ _ _ _ Hw Hk Hd).
  - intros * Hb _ Hw Hk. exact (sector_write_same _ _ _ _ _ _ Hb Hw Hk).
  - intros * Hb _ Hw Hk. destruct ok.
    + right. exact (sector_write_same _ _ _ _ _ _ Hb Hw Hk).
    + left. now apply write_false in Hw as ->.
  - intros * [= _ <-] _ _. reflexivity.
Qed.

#[export] Program Instance disk_powered : PoweredDevice Disk.disk := {
  powered d cap := Disk.fuse d = None /\ cap <= zlen (Disk.contents d);
}.
Next Obligation.
  intros d cap s n [Hf Hc] Hs Hn Hr. simpl. unfold Disk.read.
  rewrite (proj2 (in_range_true d s n)) by lia. eauto.
Qed.
Next Obligation.
  intros d cap s buf n [Hf Hc] Hs Hn Hr. simpl. unfold Disk.write.
  rewrite (proj2 (in_range_true d s n)) by lia. rewrite Hf. eexists; split; [reflexivity|].
  split; [reflexivity|]. simpl. unfold zlen in *. now rewrite put_sectors_length.
Qed.
