(* ===== verification/Volume.v ===== *)
(** The volume's block layer (libs/freestanding/aegir-bfs, src/volume.cc and
    include/aegir/bfs/volume.h): the superblock and its geometry, block
    addressing, whole-block reads and writes through the cache and the open
    transaction's buffer, and the superblock's own fields.  The journal's data
    live here too, because [Volume::read_block] reads through them; the
    journal's operations are in Journal.v. *)
From stdpp Require Import base numbers list list_numbers.
From Stdlib Require Import ZArith Lia.
From S2P Require Import Prelude.
From S2P Require Import Layout.
From S2P Require Import Device.

(** * State *)

Record CacheLine := mkLine { line_valid : bool; line_block : Z; line_data : bytes }.

Definition kCacheLines : Z := 8.

(** [class Volume]'s fields.  [read_] and [context_] are the device argument of
    the operations; [write_] and [discard_] are whether the callback is there.
    The scratch buffers ([block_], [array_], [array2_], [tree_]) are written
    before every use and are locals of the operations here. *)
Record Volume := mkVolume {
  write_ : bool;
  discard_ : bool;
  block_shift_ : Z;
  max_sectors_ : Z;
  ag_shift_ : Z;
  num_ags_ : Z;
  blocks_per_ag_ : Z;
  num_blocks_ : Z;
  used_blocks_ : Z;
  root_ : Run;
  indices_ : Run;
  log_ : Run;
  log_start_ : Z;
  log_end_ : Z;
  valid_ : bool;
  name_ : bytes;
  superblock_ : bytes;
  cache_ : list CacheLine;
}.

(** [class Journal]'s fields.  [entries_] is [blocks_[i]], [data_[i]] for
    [i < count_]; [volume_] is whether the pointer is set. *)
Record Journal := mkJournal {
  volume_ : bool;
  block_size_ : Z;
  active_ : bool;
  snapshot_valid_ : bool;
  committed_ : bool;
  snapshot_ : bytes;
  entries_ : list (Z * bytes);
}.

Definition fresh_cache : list CacheLine := replicate (Z.to_nat kCacheLines) (mkLine false 0 []).

(** A default-constructed volume and journal. *)
Definition new_volume : Volume :=
  mkVolume false false 0 0 0 0 0 0 0 (mkRun 0 0 0) (mkRun 0 0 0) (mkRun 0 0 0) 0 0 false
    (zeros 32) (zeros kSuperblockBytes) fresh_cache.
Definition new_journal : Journal := mkJournal false 0 false false false [] [].

(** Field updates. *)
Definition with_write (v : Volume) (w ok : bool) : Volume :=
  mkVolume w (discard_ v) (block_shift_ v) (max_sectors_ v) (ag_shift_ v) (num_ags_ v)
    (blocks_per_ag_ v) (num_blocks_ v) (used_blocks_ v) (root_ v) (indices_ v) (log_ v)
    (log_start_ v) (log_end_ v) ok (name_ v) (superblock_ v) (cache_ v).
Definition with_cache (v : Volume) (c : list CacheLine) : Volume :=
  mkVolume (write_ v) (discard_ v) (block_shift_ v) (max_sectors_ v) (ag_shift_ v) (num_ags_ v)
    (blocks_per_ag_ v) (num_blocks_ v) (used_blocks_ v) (root_ v) (indices_ v) (log_ v)
    (log_start_ v) (log_end_ v) (valid_ v) (name_ v) (superblock_ v) c.
Definition attach_discard (v : Volume) (discard : bool) : Volume :=
  mkVolume (write_ v) discard (block_shift_ v) (max_sectors_ v) (ag_shift_ v) (num_ags_ v)
    (blocks_per_ag_ v) (num_blocks_ v) (used_blocks_ v) (root_ v) (indices_ v) (log_ v)
    (log_start_ v) (log_end_ v) (valid_ v) (name_ v) (superblock_ v) (cache_ v).
(** The superblock image with the three fields kept beside it. *)
Definition with_super (v : Volume) (sb : bytes) (used ls le : Z) : Volume :=
  mkVolume (write_ v) (discard_ v) (block_shift_ v) (max_sectors_ v) (ag_shift_ v) (num_ags_ v)
    (blocks_per_ag_ v) (num_blocks_ v) used (root_ v) (indices_ v) (log_ v)
    ls le (valid_ v) (name_ v) sb (cache_ v).

(** * Pure accessors *)

Definition block_size (v : Volume) : Z := Z.shiftl 1 (block_shift_ v).
Definition clean (v : Volume) : bool := le32 (superblock_ v) superblock.kFlags =? kClean.
Definition log_length (v : Volume) : Z := run_length (log_ v).
Definition sectors_per_block (v : Volume) : Z := block_size v / kSectorBytes.

Definition to_block (v : Volume) (run : Run) : Z :=
  Z.lor (Z.shiftl (allocation_group run) (ag_shift_ v)) (start run).

Definition to_run (v : Volume) (block : Z) : Run :=
  mkRun (u32 (Z.shiftr block (ag_shift_ v)))
        (u16 (Z.land block (Z.shiftl 1 (ag_shift_ v) - 1)))
        1.

Definition validate_run (v : Volume) (run : Run) : bool :=
  if (run_length run =? 0) || (num_ags_ v <=? allocation_group run) then false
  else
    let span := Z.shiftl 1 (ag_shift_ v) in
    if span <? start run + run_length run then false
    else to_block v run + run_length run <=? num_blocks_ v.

Definition run_bytes (v : Volume) (run : Run) : Z := run_length run * block_size v.

Definition root_block (v : Volume) : Z := to_block v (root_ v).

(** * Opening *)

(** [1u << shift]; a shift past the width is undefined in C++ and matches no
    block size here. *)
Definition shl1_u32 (shift : Z) : Z := if shift <? 32 then Z.shiftl 1 shift else 0.

Definition open {D} `{SectorDevice D} (v : Volume) (d : D) (write : bool) : bool * Volume :=
  let refused := (false, with_write v write false) in
  match read_sectors d 1 1 with
  | None => refused
  | Some sb =>
    if negb (le32 sb superblock.kMagic1 =? kMagic1) ||
       negb (le32 sb superblock.kMagic2 =? kMagic2) ||
       negb (le32 sb superblock.kMagic3 =? kMagic3) ||
       negb (le32 sb superblock.kByteOrder =? kByteOrderLittleEndian)
    then refused
    else
      let block_size := le32 sb superblock.kBlockSize in
      let block_shift := le32 sb superblock.kBlockShift in
      let inode_size := le32 sb superblock.kInodeSize in
      let ag_shift := le32 sb superblock.kAgShift in
      let num_ags := le32 sb superblock.kNumAgs in
      let blocks_per_ag := le32 sb superblock.kBlocksPerAg in
      let num_blocks := le64 sb superblock.kNumBlocks in
      if (block_size =? 0) || (kMaxBlockSize <? block_size) ||
         negb (block_size =? inode_size) || negb (shl1_u32 block_shift =? block_size) ||
         (ag_shift <? 1) || (30 <? ag_shift) || (num_ags <? 1) || (blocks_per_ag <? 1) ||
         (num_blocks <? 10)
      then refused
      else
        let expected_groups :=
          Z.shiftr (u64 (num_blocks + Z.shiftl 1 ag_shift - 1)) ag_shift in
        if negb (num_ags =? expected_groups) then refused
        else
          (true,
           mkVolume write (discard_ v) block_shift (max_sectors_ v) ag_shift num_ags
             blocks_per_ag num_blocks (le64 sb superblock.kUsedBlocks)
             (le_run sb superblock.kRootDir) (le_run sb superblock.kIndices)
             (le_run sb superblock.kLog) (le64 sb superblock.kLogStart)
             (le64 sb superblock.kLogEnd) true (slice sb 0 32)
             (slice sb 0 kSuperblockBytes) (cache_ v))
  end.

(** * The superblock in memory *)

Definition set_log_start (v : Volume) (position : Z) : Volume :=
  with_super v (put_le64 (superblock_ v) superblock.kLogStart position)
    (used_blocks_ v) position (log_end_ v).

Definition set_log_end (v : Volume) (position : Z) : Volume :=
  with_super v (put_le64 (superblock_ v) superblock.kLogEnd position)
    (used_blocks_ v) (log_start_ v) position.

Definition set_used_blocks (v : Volume) (used : Z) : Volume :=
  with_super v (put_le64 (superblock_ v) superblock.kUsedBlocks used)
    used (log_start_ v) (log_end_ v).

Definition set_flags (v : Volume) (flags : Z) : Volume :=
  with_super v (put_le32 (superblock_ v) superblock.kFlags flags)
    (used_blocks_ v) (log_start_ v) (log_end_ v).

Definition save_superblock (v : Volume) : bytes := slice (superblock_ v) 0 kSuperblockBytes.

Definition restore_superblock (v : Volume) (saved : bytes) : Volume :=
  let sb := slice saved 0 kSuperblockBytes in
  with_super v sb (le64 sb superblock.kUsedBlocks) (le64 sb superblock.kLogStart)
    (le64 sb superblock.kLogEnd).

(** * The transaction's buffer, as the volume sees it *)

(** [Journal::peek]: the buffered image of [block]. *)
Fixpoint peek_entries (es : list (Z * bytes)) (bs block : Z) : option bytes :=
  match es with
  | [] => None
  | (b, data) :: es => if b =? block then Some (slice data 0 bs) else peek_entries es bs block
  end.
Definition peek (j : Journal) (block : Z) : option bytes :=
  peek_entries (entries_ j) (block_size_ j) block.

(** [Journal::log]: replace the block's image, or append one. *)
Definition kMaxJournalBlocks : Z := 32.

Fixpoint replace_entry (es : list (Z * bytes)) (block : Z) (data : bytes)
    : option (list (Z * bytes)) :=
  match es with
  | [] => None
  | (b, d) :: es =>
    if b =? block then Some ((b, data) :: es)
    else option_map (cons (b, d)) (replace_entry es block data)
  end.

Definition with_entries (j : Journal) (es : list (Z * bytes)) : Journal :=
  mkJournal (volume_ j) (block_size_ j) (active_ j) (snapshot_valid_ j) (committed_ j)
    (snapshot_ j) es.

Definition jlog (j : Journal) (block : Z) (data : bytes) : bool * Journal :=
  if negb (active_ j) then (false, j)
  else
    let image := slice data 0 (block_size_ j) in
    match replace_entry (entries_ j) block image with
    | Some es => (true, with_entries j es)
    | None =>
      if kMaxJournalBlocks <=? zlen (entries_ j) then (false, j)
      else (true, with_entries j (entries_ j ++ [(block, image)]))
    end.

(** * Block I/O *)

(** The device, the volume over it, the journal, and whether the volume's
    [journal_] pointer names it. *)
Record Fs (D : Type) := mkFs {
  dev : D;
  vol : Volume;
  jnl : Journal;
  attached : bool;
}.
Arguments mkFs {D} _ _ _ _.
Arguments dev {D} _.
Arguments vol {D} _.
Arguments jnl {D} _.
Arguments attached {D} _.

Section block_io.
Context {D : Type} `{SectorDevice D}.
Implicit Types fs : Fs D.

Definition with_dev fs (d : D) : Fs D := mkFs d (vol fs) (jnl fs) (attached fs).
Definition with_vol fs (v : Volume) : Fs D := mkFs (dev fs) v (jnl fs) (attached fs).
Definition with_jnl fs (j : Journal) : Fs D := mkFs (dev fs) (vol fs) j (attached fs).

(** [journal_ != nullptr && journal_->active()] *)
Definition in_transaction fs : bool := attached fs && active_ (jnl fs).

Definition read_block_now fs (block : Z) : option bytes :=
  let sectors := sectors_per_block (vol fs) in
  read_sectors (dev fs) (u64 (block * sectors)) sectors.

Definition invalidate (v : Volume) : Volume :=
  with_cache v (map (fun l => mkLine false (line_block l) (line_data l)) (cache_ v)).

Definition write_block_now fs (block : Z) (data : bytes) : bool * Fs D :=
  let fs := with_vol fs (invalidate (vol fs)) in
  if negb (write_ (vol fs)) then (false, fs)
  else
    let sectors := sectors_per_block (vol fs) in
    let '(ok, d) := write_sectors (dev fs) (u64 (block * sectors)) data sectors in
    (ok, with_dev fs d).

Definition read_block fs (block : Z) : option bytes * Fs D :=
  match (if attached fs then peek (jnl fs) block else None) with
  | Some data => (Some data, fs)
  | None =>
    let line := Z.to_nat (block mod kCacheLines) in
    let entry := nth line (cache_ (vol fs)) (mkLine false 0 []) in
    if line_valid entry && (line_block entry =? block)
    then (Some (slice (line_data entry) 0 (block_size (vol fs))), fs)
    else
      match read_block_now fs block with
      | None => (None, fs)
      | Some data =>
        (Some (slice data 0 (block_size (vol fs))),
         with_vol fs (with_cache (vol fs) (<[line := mkLine true block data]> (cache_ (vol fs)))))
      end
  end.

Definition write_block fs (block : Z) (data : bytes) : bool * Fs D :=
  let fs := with_vol fs (invalidate (vol fs)) in
  if in_transaction fs then
    let '(ok, j) := jlog (jnl fs) block data in (ok, with_jnl fs j)
  else write_block_now fs block data.

Definition write_superblock_now fs : bool * Fs D :=
  if negb (write_ (vol fs)) then (false, fs)
  else
    let '(ok, d) := write_sectors (dev fs) 1 (superblock_ (vol fs)) 1 in
    (ok, with_dev fs d).

Definition flush_superblock fs : bool * Fs D :=
  if in_transaction fs then (true, fs) else write_superblock_now fs.

Definition discard_run fs (run : Run) : bool * Fs D :=
  if negb (discard_ (vol fs)) || (run_length run =? 0) then (false, fs)
  else
    let sectors_per_block := sectors_per_block (vol fs) in
    let first := u64 (to_block (vol fs) run * sectors_per_block) in
    let '(ok, d) := discard_sectors (dev fs) first (run_length run * sectors_per_block) in
    (ok, with_dev fs d).

End block_io.

(** * Geometry *)

(** The shape of a volume the library supports: what [open] checks, with the
    format's own limits (1024-byte blocks and up, a group addressable by a
    run's 16-bit start). *)
Record geometry_ok (v : Volume) : Prop := {
  geo_block : 10 <= block_shift_ v <= 13;
  geo_ag : 1 <= ag_shift_ v <= 16;
  geo_blocks : 10 <= num_blocks_ v;
  geo_groups : num_ags_ v = (num_blocks_ v + 2 ^ ag_shift_ v - 1) / 2 ^ ag_shift_ v;
  geo_groups_u32 : num_ags_ v < 2 ^ 32;
}.

(** The geometry is all that addressing depends on. *)
Definition same_geometry (v w : Volume) : Prop :=
  block_shift_ v = block_shift_ w /\ ag_shift_ v = ag_shift_ w /\ num_ags_ v = num_ags_ w /\
  num_blocks_ v = num_blocks_ w /\ blocks_per_ag_ v = blocks_per_ag_ w /\ log_ v = log_ w /\
  write_ v = write_ w /\ valid_ v = valid_ w /\ discard_ v = discard_ w.

#[export] Instance same_geometry_equiv : Equivalence same_geometry.
Proof.
  unfold same_geometry; split.
  - intros v. tauto.
  - intros v w H. intuition congruence.
  - intros u v w H1 H2. intuition congruence.
Qed.

#[export] Instance geometry_ok_proper : Proper (same_geometry ==> iff) geometry_ok.
Proof.
  intros v w (H1 & H2 & H3 & H4 & _).
  split; intros []; split; rewrite ?H1, ?H2, ?H3, ?H4 in *; auto.
Qed.
#[export] Instance num_blocks_proper : Proper (same_geometry ==> eq) num_blocks_.
Proof. intros v w Hg. apply Hg. Qed.
#[export] Instance num_ags_proper : Proper (same_geometry ==> eq) num_ags_.
Proof. intros v w Hg. apply Hg. Qed.
#[export] Instance block_size_proper : Proper (same_geometry ==> eq) block_size.
Proof. intros v w (H1 & _). unfold block_size. now rewrite H1. Qed.
#[export] Instance to_block_proper : Proper (same_geometry ==> eq ==> eq) to_block.
Proof. intros v w (_ & H2 & _) r _ <-. unfold to_block. now rewrite H2. Qed.
#[export] Instance to_run_proper : Proper (same_geometry ==> eq ==> eq) to_run.
Proof. intros v w (_ & H2 & _) r _ <-. unfold to_run. now rewrite H2. Qed.
#[export] Instance validate_run_proper : Proper (same_geometry ==> eq ==> eq) validate_run.
Proof.
  intros v w Hg r _ <-. unfold validate_run. rewrite (to_block_proper _ _ Hg r r eq_refl).
  destruct Hg as (H1 & H2 & H3 & H4 & _). now rewrite H2, H3, H4.
Qed.

Section geometry.
Context (v : Volume) (Hgeo : geometry_ok v).

Lemma block_size_pow : block_size v = 2 ^ block_shift_ v.
Proof. unfold block_size. pose proof (geo_block v Hgeo). now rewrite Z.shiftl_1_l. Qed.

Lemma block_size_cases :
  block_size v = 1024 \/ block_size v = 2048 \/ block_size v = 4096 \/ block_size v = 8192.
Proof.
  rewrite block_size_pow. pose proof (geo_block v Hgeo).
  assert (block_shift_ v = 10 \/ block_shift_ v = 11 \/ block_shift_ v = 12 \/ block_shift_ v = 13)
    as [->|[->|[->| ->]]] by lia; vm_compute; tauto.
Qed.

Lemma block_sectors : block_size v = sectors_per_block v * 512 /\ 2 <= sectors_per_block v <= 16.
Proof.
  unfold sectors_per_block, kSectorBytes.
  destruct block_size_cases as [->|[->|[->| ->]]]; vm_compute; intuition congruence.
Qed.

Lemma span_pos : 2 <= 2 ^ ag_shift_ v <= 65536.
Proof.
  pose proof (geo_ag v Hgeo). split.
  - change 2 with (2 ^ 1) at 1. apply Z.pow_le_mono_r; lia.
  - change 65536 with (2 ^ 16). apply Z.pow_le_mono_r; lia.
Qed.

Lemma blocks_bound : num_blocks_ v <= num_ags_ v * 2 ^ ag_shift_ v.
Proof. rewrite (geo_groups v Hgeo). pose proof span_pos. zlia. Qed.

Lemma num_blocks_u48 : num_blocks_ v < 2 ^ 48.
Proof.
  pose proof blocks_bound. pose proof span_pos. pose proof (geo_groups_u32 v Hgeo).
  change (2 ^ 48) with (2 ^ 32 * 65536). nia.
Qed.

Lemma to_block_sum g s l :
  0 <= s < 2 ^ ag_shift_ v -> to_block v (mkRun g s l) = g * 2 ^ ag_shift_ v + s.
Proof.
  intros Hs. unfold to_block; simpl. pose proof (geo_ag v Hgeo).
  rewrite Z.lor_comm, lor_shiftl_add by lia. lia.
Qed.

Lemma to_run_parts b :
  0 <= b < num_blocks_ v ->
  to_run v b = mkRun (b / 2 ^ ag_shift_ v) (b mod 2 ^ ag_shift_ v) 1 /\
  b / 2 ^ ag_shift_ v < num_ags_ v.
Proof.
  intros Hb. pose proof (geo_ag v Hgeo). pose proof span_pos as Hs.
  pose proof blocks_bound as Hn. pose proof (geo_groups_u32 v Hgeo).
  assert (b / 2 ^ ag_shift_ v < num_ags_ v) by (apply Z.div_lt_upper_bound; lia).
  split; [|assumption]. unfold to_run.
  rewrite Z.shiftr_div_pow2 by lia.
  replace (Z.shiftl 1 (ag_shift_ v) - 1) with (Z.ones (ag_shift_ v))
    by (rewrite Z.ones_equiv, Z.shiftl_1_l; lia).
  rewrite Z.land_ones by lia.
  rewrite u32_small, u16_small; [reflexivity | |].
  - pose proof (Z.mod_pos_bound b (2 ^ ag_shift_ v)). lia.
  - split; [apply Z.div_pos; lia | lia].
Qed.

Lemma to_run_ok b : 0 <= b < num_blocks_ v -> run_ok (to_run v b).
Proof.
  intros Hb. destruct (to_run_parts b Hb) as [-> Hg]. pose proof (geo_groups_u32 v Hgeo).
  pose proof span_pos. pose proof (Z.mod_pos_bound b (2 ^ ag_shift_ v)).
  unfold run_ok; simpl. split; [split; [apply Z.div_pos|]|]; lia.
Qed.

Lemma to_block_to_run b : 0 <= b < num_blocks_ v -> to_block v (to_run v b) = b.
Proof.
  intros Hb. destruct (to_run_parts b Hb) as [-> _]. pose proof span_pos.
  rewrite to_block_sum by (apply Z.mod_pos_bound; lia). zlia.
Qed.

Lemma validate_to_run b : 0 <= b < num_blocks_ v -> validate_run v (to_run v b) = true.
Proof.
  intros Hb. unfold validate_run. rewrite (to_block_to_run b Hb).
  destruct (to_run_parts b Hb) as [-> Hg]. simpl. pose proof span_pos.
  pose proof (Z.mod_pos_bound b (2 ^ ag_shift_ v)). pose proof (geo_ag v Hgeo).
  rewrite Z.shiftl_1_l. rewrite !(proj2 (Z.leb_gt _ _)) by lia.
  rewrite (proj2 (Z.ltb_ge _ _)) by lia. apply Z.leb_le. lia.
Qed.

(** A run that validates names blocks of the volume, all in one group. *)
Lemma validate_run_true r :
  run_ok r -> validate_run v r = true ->
  0 < run_length r /\ 0 <= to_block v r /\ to_block v r + run_length r <= num_blocks_ v /\
  to_block v r = allocation_group r * 2 ^ ag_shift_ v + start r /\
  start r + run_length r <= 2 ^ ag_shift_ v.
Proof.
  intros (Hg & Hs & Hl). unfold validate_run. rewrite Z.shiftl_1_l.
  destruct (_ || _) eqn:E1; [discriminate|]. breflect.
  destruct (_ <? _) eqn:E2; [discriminate|]. breflect. intros Hv. breflect.
  destruct r as [g s l]; simpl in *. rewrite to_block_sum in * by lia.
  pose proof span_pos. nia.
Qed.
End geometry.

(** * What the blocks hold *)

Section views.
Context {D : Type} `{SectorDeviceLaws D}.
Implicit Types (fs : Fs D) (d : D) (v : Volume).

(** The block as the device holds it. *)
Definition disk_block v d (b : Z) : bytes :=
  sectors d (b * sectors_per_block v) (sectors_per_block v).

(** The block an operation sees: the transaction's image, else the disk's. *)
Definition view fs (b : Z) : bytes :=
  match (if attached fs then peek (jnl fs) b else None) with
  | Some data => data
  | None => disk_block (vol fs) (dev fs) b
  end.

Lemma sectors_snoc d s n :
  0 <= n -> sectors d s (n + 1) = sectors d s n ++ sector d (s + n).
Proof.
  intros Hn. unfold sectors. rewrite seqZ_app, map_app, concat_app by lia. simpl.
  now rewrite app_nil_r.
Qed.

Lemma zlen_sectors d s n : 0 <= n -> zlen (sectors d s n) = n * kSectorBytes.
Proof.
  intros Hn. pattern n. apply natlike_ind; [reflexivity| |assumption].
  intros k Hk IH. rewrite <- Z.add_1_r, sectors_snoc by lia.
  rewrite zlen_app, IH, sector_len. lia.
Qed.

Lemma sectors_bytes_ok d s n : 0 <= n -> bytes_ok (sectors d s n).
Proof.
  intros Hn. pattern n. apply natlike_ind; [constructor| |assumption].
  intros k Hk IH. rewrite <- Z.add_1_r, sectors_snoc by lia.
  apply bytes_ok_app; [assumption|apply sector_ok].
Qed.

Lemma sectors_ext d d' s n :
  (forall k, 0 <= k < n -> sector d' (s + k) = sector d (s + k)) -> sectors d' s n = sectors d s n.
Proof.
  intros Hk. unfold sectors. f_equal. apply map_ext_in. intros a Ha.
  apply list_elem_of_In, elem_of_seqZ in Ha.
  specialize (Hk (a - s)). rewrite Zplus_minus in Hk. apply Hk. lia.
Qed.

Lemma sectors_chunks d s n buf :
  0 <= n -> (forall k, 0 <= k < n -> sector d (s + k) = slice buf (k * kSectorBytes) kSectorBytes) ->
  sectors d s n = slice buf 0 (n * kSectorBytes).
Proof.
  intros Hn. pattern n. apply natlike_ind; [reflexivity| |assumption].
  intros k Hk IH Hs. rewrite <- Z.add_1_r, sectors_snoc by lia.
  rewrite IH, Hs by (intros; try apply Hs; lia). unfold kSectorBytes.
  replace ((k + 1) * 512) with (k * 512 + 512) by lia. rewrite slice_split by lia. reflexivity.
Qed.

(** Reading and writing one block of a volume with a sound geometry. *)
Section sound.
Context (v : Volume) (Hgeo : geometry_ok v).

Lemma sector_u64 b :
  0 <= b < num_blocks_ v -> u64 (b * sectors_per_block v) = b * sectors_per_block v.
Proof.
  intros Hb. apply u64_small. pose proof (block_sectors v Hgeo).
  pose proof (num_blocks_u48 v Hgeo). change (2 ^ 64) with (2 ^ 48 * 65536). nia.
Qed.

Lemma zlen_disk_block d b : zlen (disk_block v d b) = block_size v.
Proof.
  unfold disk_block. pose proof (block_sectors v Hgeo).
  rewrite zlen_sectors by lia. unfold kSectorBytes. lia.
Qed.

Lemma disk_block_bytes_ok d b : bytes_ok (disk_block v d b).
Proof. apply sectors_bytes_ok. pose proof (block_sectors v Hgeo). lia. Qed.

Lemma read_now_view fs b out :
  vol fs = v -> 0 <= b < num_blocks_ v -> read_block_now fs b = Some out ->
  out = disk_block v (dev fs) b.
Proof.
  intros Hv Hb. unfold read_block_now. rewrite Hv, sector_u64 by auto.
  pose proof (block_sectors v Hgeo). intros Hr. eapply read_view in Hr; [exact Hr|nia|lia].
Qed.

(** Blocks are disjoint ranges of sectors. *)
Lemma block_sector_disjoint b c k :
  b <> c -> 0 <= k < sectors_per_block v ->
  let s := b * sectors_per_block v in
  c * sectors_per_block v + k < s \/ s + sectors_per_block v <= c * sectors_per_block v + k.
Proof. pose proof (block_sectors v Hgeo). intros. nia. Qed.

Lemma disk_write_spec d d' b buf ok :
  bytes_ok buf -> 0 <= b ->
  write_sectors d (b * sectors_per_block v) buf (sectors_per_block v) = (ok, d') ->
  (forall c, 0 <= c -> c <> b -> disk_block v d' c = disk_block v d c) /\
  (b <> 0 -> sector d' 1 = sector d 1) /\
  (ok = true -> disk_block v d' b = slice buf 0 (block_size v)).
Proof.
  intros Hb Hp Hw. pose proof (block_sectors v Hgeo) as [Hbs Hs]. repeat split.
  - intros c Hc Hne. apply sectors_ext. intros k Hk.
    eapply write_frame; [exact Hw|nia|nia|]. apply block_sector_disjoint; auto.
  - intros Hb0. eapply write_frame; [exact Hw|nia|lia|]. left. nia.
  - intros ->. rewrite Hbs. apply sectors_chunks; [lia|].
    intros k Hk. eapply write_done; eauto. nia.
Qed.

Lemma superblock_write_spec d d' buf ok :
  bytes_ok buf -> write_sectors d 1 buf 1 = (ok, d') ->
  (forall b, 1 <= b -> disk_block v d' b = disk_block v d b) /\
  (sector d' 1 = sector d 1 \/ sector d' 1 = slice buf 0 kSectorBytes) /\
  (ok = true -> sector d' 1 = slice buf 0 kSectorBytes).
Proof.
  intros Hb Hw. pose proof (block_sectors v Hgeo) as [Hbs Hs]. repeat split.
  - intros b Hb1. apply sectors_ext. intros k Hk.
    eapply write_frame; [exact Hw|lia|nia|]. nia.
  - eapply (write_torn _ _ _ _ _ _ 0) in Hw; [exact Hw|auto|lia|lia].
  - intros ->. eapply (write_done _ _ _ _ _ 0) in Hw; [exact Hw|auto|lia|lia].
Qed.
End sound.
End views.
