(* ===== verification/BlockStore.v ===== *)
(** The contract between the volume's block layer and its clients.

    The allocator and the stream and tree code call [Volume] for whole blocks
    and a few superblock fields.  [BlockStore] is the operations they call and
    [BlockStoreLaws] what they rely on: a block reads back as the last image
    written, whether that image is on the disk, in the cache or in the open
    transaction.  [fs_block_store] and [fs_block_store_laws] discharge the
    contract for the real block layer of Volume.v, cache and journal included. *)
From stdpp Require Import base numbers list list_numbers.
From Stdlib Require Import ZArith Lia.
From S2P Require Import Prelude.
From S2P Require Import Layout.
From S2P Require Import Device.
From S2P Require Import Volume.

Class BlockStore (S : Type) := {
  bs_vol : S -> Volume;
  bs_read : S -> Z -> option bytes * S;
  bs_write : S -> Z -> bytes -> bool * S;
  bs_set_used : S -> Z -> S;
  bs_flush : S -> bool * S;
  bs_discard : S -> Run -> bool * S;
}.

(** Blocks a client may ask for: block 0 is the superblock's. *)
Definition client_block (v : Volume) (b : Z) : Prop := 1 <= b < num_blocks_ v.

#[export] Instance client_block_proper : Proper (same_geometry ==> eq ==> iff) client_block.
Proof. intros v w (_ & _ & _ & Hn & _) b _ <-. unfold client_block. now rewrite Hn. Qed.

Definition in_run (v : Volume) (r : Run) (b : Z) : Prop :=
  to_block v r <= b < to_block v r + run_length r.

(** [bs_ok live s]: the store is consistent, and the blocks in [live] hold
    known contents (a discarded block does not). *)
Class BlockStoreLaws (S : Type) `{BlockStore S} := {
  bs_ok : (Z -> Prop) -> S -> Prop;
  bs_view : S -> Z -> bytes;
  bs_geo live s : bs_ok live s -> geometry_ok (bs_vol s);
  bs_view_len live s b :
    bs_ok live s -> client_block (bs_vol s) b ->
    zlen (bs_view s b) = block_size (bs_vol s) /\ bytes_ok (bs_view s b);
  bs_read_law live s b r s' :
    bs_ok live s -> client_block (bs_vol s) b -> live b -> bs_read s b = (r, s') ->
    bs_ok live s' /\ same_geometry (bs_vol s) (bs_vol s') /\
    used_blocks_ (bs_vol s') = used_blocks_ (bs_vol s) /\
    (forall c, client_block (bs_vol s) c -> bs_view s' c = bs_view s c) /\
    (forall data, r = Some data -> data = bs_view s b);
  bs_write_law live s b data ok s' :
    bs_ok live s -> client_block (bs_vol s) b -> bytes_ok data ->
    block_size (bs_vol s) <= zlen data -> bs_write s b data = (ok, s') ->
    bs_ok live s' /\ same_geometry (bs_vol s) (bs_vol s') /\
    used_blocks_ (bs_vol s') = used_blocks_ (bs_vol s) /\
    (forall c, client_block (bs_vol s) c -> c <> b -> bs_view s' c = bs_view s c) /\
    (ok = true -> bs_view s' b = slice data 0 (block_size (bs_vol s)) /\
                  bs_ok (fun c => live c \/ c = b) s');
  bs_set_used_law live s u :
    bs_ok live s ->
    bs_ok live (bs_set_used s u) /\ same_geometry (bs_vol s) (bs_vol (bs_set_used s u)) /\
    used_blocks_ (bs_vol (bs_set_used s u)) = u /\
    (forall c, bs_view (bs_set_used s u) c = bs_view s c);
  bs_flush_law live s ok s' :
    bs_ok live s -> bs_flush s = (ok, s') ->
    bs_ok live s' /\ bs_vol s' = bs_vol s /\
    (forall c, client_block (bs_vol s) c -> bs_view s' c = bs_view s c);
  bs_discard_law live s r ok s' :
    bs_ok live s -> run_ok r -> validate_run (bs_vol s) r = true -> bs_discard s r = (ok, s') ->
    bs_ok (fun c => live c /\ ~ in_run (bs_vol s) r c) s' /\ bs_vol s' = bs_vol s /\
    (forall c, client_block (bs_vol s) c -> ~ in_run (bs_vol s) r c -> bs_view s' c = bs_view s c);
}.

(** A store that is not refusing: what a completeness claim needs. *)
Class ReliableStore (S : Type) `{BlockStore S} := {
  bs_up : S -> Prop;
  up_read s b :
    bs_up s -> client_block (bs_vol s) b -> exists data s', bs_read s b = (Some data, s') /\ bs_up s';
  up_write s b data :
    bs_up s -> client_block (bs_vol s) b -> exists s', bs_write s b data = (true, s') /\ bs_up s';
}.

(** * The volume is a block store *)

#[export] Instance fs_block_store {D} `{SectorDevice D} : BlockStore (Fs D) := {
  bs_vol := vol;
  bs_read := read_block;
  bs_write := write_block;
  bs_set_used fs used := with_vol fs (set_used_blocks (vol fs) used);
  bs_flush := flush_superblock;
  bs_discard := discard_run;
}.

(** ** The block layer's invariant *)

(** A valid cache line of a live block holds what the disk holds. *)
Definition cache_ok {D} `{SectorDevice D} (live : Z -> Prop) (fs : Fs D) : Prop :=
  zlen (cache_ (vol fs)) = kCacheLines /\
  forall l, l ∈ cache_ (vol fs) -> line_valid l = true -> live (line_block l) ->
    client_block (vol fs) (line_block l) ->
    line_data l = disk_block (vol fs) (dev fs) (line_block l).

(** The open transaction holds one whole image per block. *)
Definition entry_ok (v : Volume) (e : Z * bytes) : Prop :=
  client_block v e.1 /\ zlen e.2 = block_size v /\ bytes_ok e.2.

Record journal_ok (v : Volume) (j : Journal) : Prop := {
  jok_size : block_size_ j = block_size v;
  jok_entries : Forall (entry_ok v) (entries_ j);
  jok_nodup : NoDup (map fst (entries_ j));
  jok_count : zlen (entries_ j) <= kMaxJournalBlocks;
  jok_idle : active_ j = false -> entries_ j = [];
}.

Record fs_ok {D} `{SectorDevice D} (live : Z -> Prop) (fs : Fs D) : Prop := {
  fok_geo : geometry_ok (vol fs);
  fok_super : zlen (superblock_ (vol fs)) = kSuperblockBytes /\ bytes_ok (superblock_ (vol fs));
  fok_cache : cache_ok live fs;
  fok_journal : attached fs = true -> journal_ok (vol fs) (jnl fs);
}.

(** ** The transaction buffer *)

Lemma peek_entries_None es bs b : peek_entries es bs b = None <-> b ∉ map fst es.
Proof.
  induction es as [|[c d] es IH]; simpl; [split; [intros _; apply not_elem_of_nil|auto]|].
  rewrite not_elem_of_cons, <- IH.
  destruct (Z.eqb_spec c b) as [->|]; split; intros; try discriminate; intuition congruence.
Qed.

Lemma peek_entries_Some es bs b data :
  peek_entries es bs b = Some data -> exists d, (b, d) ∈ es /\ data = slice d 0 bs.
Proof.
  induction es as [|[c d] es IH]; simpl; [discriminate|].
  destruct (Z.eqb_spec c b) as [->|].
  - intros [= <-]. exists d. split; [left|reflexivity].
  - intros (d' & Hin & ->)%IH. exists d'. split; [now right|reflexivity].
Qed.

Lemma replace_entry_None es b img : replace_entry es b img = None <-> b ∉ map fst es.
Proof.
  induction es as [|[c d] es IH]; simpl; [split; [intros _; apply not_elem_of_nil|auto]|].
  rewrite not_elem_of_cons, <- IH.
  destruct (Z.eqb_spec c b) as [->|]; [split; intros; [discriminate|intuition congruence]|].
  destruct (replace_entry es b img); simpl; split; intros; try discriminate; intuition congruence.
Qed.

(** Replacing an image changes that block's image and nothing else. *)
Lemma replace_entry_spec es b img es' :
  replace_entry es b img = Some es' ->
  map fst es' = map fst es /\
  (forall P : Z * bytes -> Prop, Forall P es -> P (b, img) -> Forall P es') /\
  (forall bs c, peek_entries es' bs c =
     if c =? b then Some (slice img 0 bs) else peek_entries es bs c).
Proof.
  revert es'; induction es as [|[c d] es IH]; intros es'; simpl; [discriminate|].
  destruct (Z.eqb_spec c b) as [->|Hne].
  - intros [= <-]. simpl. repeat split.
    + intros P Hf Hp. inversion Hf; subst. now constructor.
    + intros bs c. rewrite (Z.eqb_sym b c). now destruct (Z.eqb_spec c b).
  - destruct (replace_entry es b img) as [es1|] eqn:E; simpl; [|discriminate].
    intros [= <-]. destruct (IH _ eq_refl) as (H1 & H2 & H3). simpl. rewrite H1. repeat split.
    + intros P Hf Hp. inversion Hf; subst. constructor; auto.
    + intros bs c'. rewrite H3. destruct (Z.eqb_spec c c') as [->|]; [|reflexivity].
      destruct (Z.eqb_spec c' b); [congruence|reflexivity].
Qed.

Lemma peek_entries_snoc es bs b img c :
  b ∉ map fst es ->
  peek_entries (es ++ [(b, img)]) bs c =
    if c =? b then Some (slice img 0 bs) else peek_entries es bs c.
Proof.
  induction es as [|[c' d] es IH]; simpl; intros Hb.
  - rewrite (Z.eqb_sym b c). now destruct (c =? b).
  - rewrite not_elem_of_cons in Hb. destruct Hb as [Hne Hb]. rewrite IH by auto.
    destruct (Z.eqb_spec c' c) as [->|]; [|reflexivity].
    destruct (Z.eqb_spec c b); [congruence|reflexivity].
Qed.

Lemma jlog_spec v j b data ok j' :
  journal_ok v j -> client_block v b -> bytes_ok data -> block_size v <= zlen data ->
  1 <= block_size v -> jlog j b data = (ok, j') ->
  journal_ok v j' /\ active_ j' = active_ j /\
  (ok = false -> j' = j) /\
  (ok = true -> forall c, peek j' c =
     if c =? b then Some (slice data 0 (block_size v)) else peek j c).
Proof.
  intros Hj Hb Hd Hl Hbs. pose proof Hj as [Hs He Hn Hc Hi]. unfold jlog.
  destruct (active_ j) eqn:Ha; simpl; [|intros [= <- <-]; splits; auto; discriminate].
  assert (Himg : entry_ok v (b, slice data 0 (block_size_ j))).
  { rewrite Hs. split; [|split]; simpl; auto with buf. apply zlen_slice; lia. }
  assert (Hss : slice (slice data 0 (block_size_ j)) 0 (block_size_ j)
                = slice data 0 (block_size v)).
  { rewrite Hs. rewrite slice_slice by lia. reflexivity. }
  destruct (replace_entry _ _ _) as [es|] eqn:E.
  - intros [= <- <-]. apply replace_entry_spec in E as (H1 & H2 & H3).
    splits; auto; try discriminate.
    + split; simpl; auto; [now rewrite H1| |congruence].
      unfold zlen. rewrite <- (length_map fst es), H1, length_map. exact Hc.
    + intros _ c. unfold peek; simpl. now rewrite H3, Hss.
  - apply replace_entry_None in E.
    destruct (Z.leb_spec kMaxJournalBlocks (zlen (entries_ j))).
    + intros [= <- <-]. splits; auto; discriminate.
    + intros [= <- <-]. splits; auto; try discriminate.
      * split; simpl; auto; [apply Forall_app_2; auto| | |congruence].
        -- rewrite map_app. apply NoDup_app. splits; auto; [|apply NoDup_singleton].
           intros x Hx ->%list_elem_of_singleton. auto.
        -- rewrite zlen_app. unfold zlen at 2; simpl. lia.
      * intros _ c. unfold peek; simpl. now rewrite peek_entries_snoc, Hss.
Qed.

Lemma peek_block v j b data :
  journal_ok v j -> 1 <= block_size v -> peek j b = Some data ->
  zlen data = block_size v /\ bytes_ok data.
Proof.
  intros [Hs He _ _ _] Hbs Hp. apply peek_entries_Some in Hp as (d & Hin & ->).
  rewrite Forall_forall in He. apply He in Hin as (_ & Hl & Hok); simpl in *.
  rewrite Hs. split; [apply zlen_slice; lia|auto with buf].
Qed.

(** ** The laws *)

Section fs_laws.
Context {D : Type} `{SectorDeviceLaws D}.
Implicit Types fs : Fs D.

Lemma view_len live fs b :
  fs_ok live fs -> zlen (view fs b) = block_size (vol fs) /\ bytes_ok (view fs b).
Proof.
  intros Hok. pose proof (fok_geo _ _ Hok) as Hg. unfold view.
  pose proof (block_sectors _ Hg). destruct (attached fs) eqn:Ha.
  - destruct (peek (jnl fs) b) as [data|] eqn:Hp.
    + eapply peek_block in Hp; [exact Hp|now apply (fok_journal _ _ Hok)|lia].
    + split; [now apply zlen_disk_block | now apply disk_block_bytes_ok].
  - split; [now apply zlen_disk_block | now apply disk_block_bytes_ok].
Qed.

(** A line filled from the disk keeps the cache coherent. *)
Lemma cache_fill live fs b data i :
  cache_ok live fs -> data = disk_block (vol fs) (dev fs) b ->
  cache_ok live (with_vol fs (with_cache (vol fs) (<[i := mkLine true b data]> (cache_ (vol fs))))).
Proof.
  intros [Hl Hc] Hd. split; simpl.
  - unfold zlen. rewrite length_insert. exact Hl.
  - intros l Hin. apply list_elem_of_lookup in Hin as [k Hk].
    apply list_lookup_insert_Some in Hk as [(-> & <- & _)|(_ & Hk)].
    + intros _ _ _. exact Hd.
    + intros. apply (Hc l); auto. apply list_elem_of_lookup; eauto.
Qed.

Lemma with_cache_geometry v c : same_geometry v (with_cache v c).
Proof. unfold same_geometry; simpl; tauto. Qed.

Lemma fs_read_law live fs b r fs' :
  fs_ok live fs -> client_block (vol fs) b -> live b -> read_block fs b = (r, fs') ->
  fs_ok live fs' /\ dev fs' = dev fs /\ jnl fs' = jnl fs /\ attached fs' = attached fs /\
  (exists c, vol fs' = with_cache (vol fs) c) /\
  (forall c, view fs' c = view fs c) /\
  (forall data, r = Some data -> data = view fs b).
Proof.
  intros Hok Hb Hlive. unfold read_block, client_block in *.
  pose proof (fok_geo _ _ Hok) as Hg.
  assert (Hsame : exists c, vol fs = with_cache (vol fs) c)
    by (exists (cache_ (vol fs)); now destruct (vol fs)).
  destruct (if attached fs then peek (jnl fs) b else None) as [img|] eqn:Hp.
  { intros [= <- <-]. splits; auto. intros data [= <-]. unfold view. now rewrite Hp. }
  destruct (line_valid _ && _) eqn:Hline.
  { intros [= <- <-]. breflect. splits; auto. intros data [= <-]. unfold view. rewrite Hp.
    set (l := nth _ _ _) in *. destruct (fok_cache _ _ Hok) as [Hl Hc].
    assert (Hin : l ∈ cache_ (vol fs)).
    { apply list_elem_of_In, nth_In. pose proof (Z.mod_pos_bound b kCacheLines).
      unfold zlen, kCacheLines in *. lia. }
    assert (Hlb : line_block l = b) by assumption.
    rewrite (Hc l Hin), Hlb; rewrite ?Hlb; auto.
    apply slice_all. symmetry. now apply zlen_disk_block. }
  destruct (read_block_now fs b) as [data|] eqn:Hr.
  2:{ intros [= <- <-]. splits; auto. discriminate. }
  intros [= <- <-]. eapply read_now_view in Hr; [|exact Hg|reflexivity|lia].
  splits; simpl; eauto.
  - split; simpl; try apply Hok.
    + now rewrite <- with_cache_geometry.
    + apply cache_fill; [apply Hok|exact Hr].
    + intros Ha. destruct (fok_journal _ _ Hok Ha) as []. split; auto.
  - intros out [= <-]. unfold view. rewrite Hp, Hr. apply slice_all.
    symmetry. now apply zlen_disk_block.
Qed.

Lemma invalidate_geometry v : same_geometry v (invalidate v).
Proof. apply with_cache_geometry. Qed.

(** An emptied cache is coherent with any device. *)
Lemma cache_invalidated live fs d :
  zlen (cache_ (vol fs)) = kCacheLines ->
  cache_ok live (mkFs d (invalidate (vol fs)) (jnl fs) (attached fs)).
Proof.
  intros Hl. split; simpl.
  - unfold zlen in *. now rewrite length_map.
  - intros l Hin. apply list_elem_of_In, in_map_iff in Hin as (l0 & <- & _). discriminate.
Qed.

Lemma fs_write_now_law live fs b data ok fs' :
  fs_ok live fs -> client_block (vol fs) b -> bytes_ok data -> block_size (vol fs) <= zlen data ->
  write_block_now fs b data = (ok, fs') ->
  (forall live', fs_ok live' fs') /\ vol fs' = invalidate (vol fs) /\ jnl fs' = jnl fs /\
  attached fs' = attached fs /\
  (forall c, 0 <= c -> c <> b ->
     disk_block (vol fs') (dev fs') c = disk_block (vol fs) (dev fs) c) /\
  sector (dev fs') 1 = sector (dev fs) 1 /\
  (ok = true -> disk_block (vol fs') (dev fs') b = slice data 0 (block_size (vol fs))).
Proof.
  intros Hok Hb Hd Hl. pose proof (fok_geo _ _ Hok) as Hg. unfold client_block in Hb.
  assert (Hfs : forall d live', fs_ok live' (mkFs d (invalidate (vol fs)) (jnl fs) (attached fs))).
  { intros d live'. split; simpl; try apply Hok.
    - now rewrite <- invalidate_geometry.
    - apply cache_invalidated, Hok.
    - intros Ha. destruct (fok_journal _ _ Hok Ha). split; auto. }
  unfold write_block_now. simpl. destruct (write_ (vol fs)) eqn:Hwr; simpl.
  2:{ intros [= <- <-]. splits; [exact (Hfs (dev fs)) | ..]; auto; discriminate. }
  unfold sectors_per_block at 1 2. change (block_size (invalidate (vol fs))) with (block_size (vol fs)).
  fold (sectors_per_block (vol fs)). rewrite sector_u64 by (auto; lia).
  destruct (write_sectors _ _ _ _) as [ok' d'] eqn:Hw. intros [= <- <-].
  eapply disk_write_spec in Hw as (H1' & H2' & H3'); eauto; [|lia].
  splits; [exact (Hfs d') | ..]; simpl; auto. apply H2'. lia.
Qed.

Lemma view_idle fs c :
  (attached fs = true -> journal_ok (vol fs) (jnl fs)) -> in_transaction fs = false ->
  view fs c = disk_block (vol fs) (dev fs) c.
Proof.
  intros Hj Ht. unfold view, in_transaction, peek in *. destruct (attached fs); [|reflexivity].
  rewrite (jok_idle _ _ (Hj eq_refl)) by exact Ht. reflexivity.
Qed.

Lemma fs_write_law live fs b data ok fs' :
  fs_ok live fs -> client_block (vol fs) b -> bytes_ok data -> block_size (vol fs) <= zlen data ->
  write_block fs b data = (ok, fs') ->
  (forall live', fs_ok live' fs') /\ vol fs' = invalidate (vol fs) /\
  attached fs' = attached fs /\ active_ (jnl fs') = active_ (jnl fs) /\
  (in_transaction fs = true -> dev fs' = dev fs) /\
  (forall c, client_block (vol fs) c -> c <> b -> view fs' c = view fs c) /\
  (ok = true -> view fs' b = slice data 0 (block_size (vol fs))).
Proof.
  intros Hok Hb Hd Hl. pose proof (fok_geo _ _ Hok) as Hg.
  pose proof (block_sectors _ Hg). unfold write_block.
  change (in_transaction (with_vol fs (invalidate (vol fs)))) with (in_transaction fs).
  destruct (in_transaction fs) eqn:Ht.
  - simpl. destruct (jlog (jnl fs) b data) as [ok' j'] eqn:Hj. intros [= <- <-].
    unfold in_transaction in Ht. apply andb_true_iff in Ht as [Ha Hact].
    eapply jlog_spec in Hj as (J1 & J2 & J3 & J4); eauto using fok_journal; [|lia].
    splits; auto.
    + intros live'. split; simpl; try apply Hok.
      * now rewrite <- invalidate_geometry.
      * apply (cache_invalidated live' fs), Hok.
      * intros _. destruct J1. split; auto.
    + intros c Hc Hne. unfold view; simpl. rewrite Ha. destruct ok'.
      * rewrite J4 by auto. now rewrite (proj2 (Z.eqb_neq c b)).
      * now rewrite J3.
    + intros Hk. unfold view; simpl. rewrite Ha, J4, Z.eqb_refl by auto. reflexivity.
  - intros Hw. set (fs0 := with_vol fs (invalidate (vol fs))) in *.
    assert (Hok0 : fs_ok live fs0).
    { split; simpl; try apply Hok; [now rewrite <- invalidate_geometry| |].
      - apply (cache_invalidated live fs), Hok.
      - intros Ha. destruct (fok_journal _ _ Hok Ha). split; auto. }
    eapply (fs_write_now_law live fs0) in Hw as (W1 & W2 & W3 & W4 & W5 & W6 & W7); auto.
    assert (Hidle : forall c, view fs' c = disk_block (vol fs') (dev fs') c).
    { intros c. apply view_idle; [apply (fok_journal _ _ (W1 live))|].
      unfold in_transaction. rewrite W3, W4. exact Ht. }
    assert (Hidle0 : forall c, view fs c = disk_block (vol fs) (dev fs) c).
    { intros c. apply view_idle; [apply (fok_journal _ _ Hok)|exact Ht]. }
    splits; auto.
    + rewrite W2. unfold fs0, invalidate; simpl. unfold with_cache; simpl. f_equal.
      rewrite map_map. reflexivity.
    + now rewrite W3.
    + congruence.
    + intros c Hc Hne. rewrite Hidle, Hidle0. apply W5; [unfold client_block in Hc; lia|auto].
    + intros Hk. rewrite Hidle. now apply W7.
Qed.

(** Changing superblock fields in memory moves no block. *)
Lemma fs_ok_super live fs sb used ls le :
  fs_ok live fs -> zlen sb = kSuperblockBytes -> bytes_ok sb ->
  fs_ok live (with_vol fs (with_super (vol fs) sb used ls le)).
Proof.
  intros Hok Hl Hb. destruct Hok as [Hg _ Hc Hj]. split; simpl; auto.
  - destruct Hg. split; auto.
  - intros Ha. destruct (Hj Ha). split; auto.
Qed.

Lemma fs_flush_law live fs ok fs' :
  fs_ok live fs -> flush_superblock fs = (ok, fs') ->
  fs_ok live fs' /\ vol fs' = vol fs /\
  (forall c, client_block (vol fs) c -> view fs' c = view fs c).
Proof.
  intros Hok. pose proof (fok_geo _ _ Hok) as Hg. unfold flush_superblock, write_superblock_now.
  destruct (in_transaction fs); [intros [= <- <-]; auto|].
  destruct (write_ (vol fs)); simpl; [|intros [= <- <-]; auto].
  destruct (write_sectors _ _ _ _) as [ok' d'] eqn:Hw. intros [= <- <-].
  eapply (superblock_write_spec (vol fs)) in Hw as (W1 & W2 & W3); [|auto|apply Hok].
  splits; auto.
  - destruct Hok as [Hg' Hs [Hcl Hc] Hj]. split; auto. split; simpl; auto.
    intros l Hin Hv Hlive Hcb. rewrite (Hc l) by auto. symmetry.
    apply W1. unfold client_block in Hcb; simpl in Hcb; lia.
  - intros c Hc. unfold view; simpl. destruct (if attached fs then _ else _); [reflexivity|].
    apply W1. unfold client_block in Hc. lia.
Qed.

Lemma fs_discard_law live fs r ok fs' :
  fs_ok live fs -> run_ok r -> validate_run (vol fs) r = true -> discard_run fs r = (ok, fs') ->
  fs_ok (fun c => live c /\ ~ in_run (vol fs) r c) fs' /\ vol fs' = vol fs /\
  (forall c, client_block (vol fs) c -> ~ in_run (vol fs) r c -> view fs' c = view fs c).
Proof.
  intros Hok Hr Hv. pose proof (fok_geo _ _ Hok) as Hg.
  pose proof (validate_run_true _ Hg r Hr Hv) as (Hpos & Hfirst & Hend & _ & _).
  pose proof (block_sectors _ Hg) as [Hbs Hspb].
  assert (Hweak : fs_ok (fun c => live c /\ ~ in_run (vol fs) r c) fs).
  { destruct Hok as [Hg' Hs [Hcl Hc] Hj]. split; auto. split; [exact Hcl|].
    intros l Hin Hva [Hl _]. now apply Hc. }
  unfold discard_run. destruct (_ || _); [intros [= <- <-]; auto|].
  rewrite sector_u64 by (auto; lia).
  destruct (discard_sectors _ _ _) as [ok' d'] eqn:Hd. intros [= <- <-].
  assert (Hframe : forall c, client_block (vol fs) c -> ~ in_run (vol fs) r c ->
            disk_block (vol fs) d' c = disk_block (vol fs) (dev fs) c).
  { intros c Hc Hn. apply sectors_ext. intros k Hk.
    unfold client_block, in_run in *. eapply discard_frame; [exact Hd|nia|nia]. }
  splits; auto.
  - destruct Hweak as [Hg' Hs [Hcl Hc] Hj]. split; auto. split; simpl; auto.
    intros l Hin Hva [Hlive Hn] Hcb. rewrite (Hc l) by auto. symmetry. now apply Hframe.
  - intros c Hc Hn. unfold view; simpl. destruct (if attached fs then _ else _); auto.
Qed.

#[export] Program Instance fs_block_store_laws : BlockStoreLaws (Fs D) := {
  bs_ok := fs_ok;
  bs_view := view;
}.
Next Obligation. intros live s Hok. apply Hok. Qed.
Next Obligation. intros live s b Hok _. now apply (view_len live). Qed.
Next Obligation.
  intros live s b r s' Hok Hb Hl Hr.
  eapply fs_read_law in Hr as (R1 & _ & _ & _ & (c & R2) & R3 & R4); eauto.
  splits; auto; simpl; rewrite R2; [apply with_cache_geometry|reflexivity].
Qed.
Next Obligation.
  intros live s b data ok s' Hok Hb Hd Hl Hw.
  eapply fs_write_law in Hw as (W1 & W2 & W3 & W4 & W5 & W6 & W7); eauto.
  splits; auto; simpl; rewrite W2; [apply invalidate_geometry|reflexivity].
Qed.
Next Obligation.
  intros live s u Hok. pose proof (fok_super _ _ Hok) as [Hl Hb]. splits.
  - apply fs_ok_super; auto with buf; [now rewrite zlen_put64|].
    apply bytes_ok_put64; [unfold superblock.kUsedBlocks; lia|auto].
  - unfold same_geometry; simpl; tauto.
  - reflexivity.
  - intros c. reflexivity.
Qed.
Next Obligation. intros. eapply fs_flush_law; eauto. Qed.
Next Obligation. intros. eapply fs_discard_law; eauto. Qed.
End fs_laws.

(** Outside a transaction, a writable volume on a working device is reliable. *)
#[export] Program Instance fs_reliable {D} `{SectorDeviceLaws D} `{!PoweredDevice D} :
    ReliableStore (Fs D) := {
  bs_up fs := geometry_ok (vol fs) /\ write_ (vol fs) = true /\ in_transaction fs = false /\
    exists cap, powered (dev fs) cap /\ num_blocks_ (vol fs) * sectors_per_block (vol fs) <= cap;
}.
Next Obligation.
  intros D H H0 H1 fs b (Hg & Hw & Ht & cap & Hp & Hc) Hb. simpl in *. unfold client_block in Hb.
  pose proof (block_sectors _ Hg) as [_ Hs]. unfold read_block, read_block_now.
  destruct (if attached fs then _ else _); [eauto 10|]. destruct (line_valid _ && _); [eauto 10|].
  rewrite (sector_u64 _ Hg b) by lia.
  destruct (powered_read (dev fs) cap (b * sectors_per_block (vol fs)) (sectors_per_block (vol fs)))
    as [data ->]; [auto|nia|lia|nia|].
  eexists _, _. split; [reflexivity|]. simpl. splits; eauto. destruct Hg; now split.
Qed.
Next Obligation.
  intros D H H0 H1 fs b data (Hg & Hw & Ht & cap & Hp & Hc) Hb. simpl in *. unfold client_block in Hb.
  pose proof (block_sectors _ Hg) as [_ Hs]. unfold write_block.
  change (in_transaction (with_vol fs (invalidate (vol fs)))) with (in_transaction fs).
  rewrite Ht. unfold write_block_now. simpl. rewrite Hw. simpl.
  change (sectors_per_block (invalidate (invalidate (vol fs)))) with (sectors_per_block (vol fs)).
  rewrite (sector_u64 _ Hg b) by lia.
  destruct (powered_write (dev fs) cap (b * sectors_per_block (vol fs)) data (sectors_per_block (vol fs)))
    as (d' & -> & Hp'); [auto|nia|lia|nia|].
  eexists. split; [reflexivity|]. simpl. splits; eauto. destruct Hg; now split.
Qed.
