(* ===== verification/Samples.v ===== *)
(** Small concrete volumes, on which the theorems' hypotheses are shown to hold
    and the definitions are run. *)
From stdpp Require Import base numbers list list_numbers.
From Stdlib Require Import ZArith Lia.
From S2P Require Import Prelude.
From S2P Require Import Layout.
From S2P Require Import Device.
From S2P Require Import Volume.

Module Sample.

(** A superblock: 1 KiB blocks, [blocks] of them in groups of [2 ^ shift], the
    log of [log_blocks] after the bitmap, both cursors at [cursor]. *)
Definition super (blocks shift per_ag log_blocks cursor : Z) : bytes :=
  let sb := zeros kSuperblockBytes in
  let sb := put_le32 sb superblock.kMagic1 kMagic1 in
  let sb := put_le32 sb superblock.kByteOrder kByteOrderLittleEndian in
  let sb := put_le32 sb superblock.kBlockSize 1024 in
  let sb := put_le32 sb superblock.kBlockShift 10 in
  let sb := put_le64 sb superblock.kNumBlocks blocks in
  let sb := put_le64 sb superblock.kUsedBlocks (1 + per_ag + log_blocks) in
  let sb := put_le32 sb superblock.kInodeSize 1024 in
  let sb := put_le32 sb superblock.kMagic2 kMagic2 in
  let sb := put_le32 sb superblock.kBlocksPerAg per_ag in
  let sb := put_le32 sb superblock.kAgShift shift in
  let sb := put_le32 sb superblock.kNumAgs ((blocks + 2 ^ shift - 1) / 2 ^ shift) in
  let sb := put_le32 sb superblock.kFlags kClean in
  let sb := put_run sb superblock.kLog (mkRun 0 (1 + per_ag) log_blocks) in
  let sb := put_le64 sb superblock.kLogStart cursor in
  let sb := put_le64 sb superblock.kLogEnd cursor in
  put_le32 sb superblock.kMagic3 kMagic3.

(** A disk that holds [sb] and zeros, and stops writing after [fuse] writes. *)
Definition disk (sb : bytes) (blocks : Z) (fuse : option nat) : Disk.disk :=
  Disk.mkDisk (<[1%nat := sb]> (replicate (Z.to_nat (blocks * 2)) (zeros 512))) fuse [].

(** Write one block of 1 KiB beforehand. *)
Definition put_block (d : Disk.disk) (b : Z) (image : bytes) : Disk.disk :=
  (Disk.write d (b * 2) image 2).2.

(** The same sectors with the power back. *)
Definition reboot (d : Disk.disk) : Disk.disk := Disk.mkDisk (Disk.contents d) None (Disk.trimmed d).

Lemma reboot_same d : same_sectors d (reboot d).
Proof. intros s Hs. reflexivity. Qed.

Lemma reboot_powered d cap : cap <= zlen (Disk.contents d) -> powered (reboot d) cap.
Proof. intros Hc. now split. Qed.

End Sample.
