(* ===== verification/Opening.v ===== *)
(** What [Volume::open] guarantees of the superblock it accepts, and what it
    does not (src/volume.cc, [Volume::open], [Volume::to_run]). *)
From stdpp Require Import base numbers list list_numbers.
From Stdlib Require Import ZArith Lia.
From S2P Require Import Prelude.
From S2P Require Import Layout.
From S2P Require Import Device.
From S2P Require Import Volume.
From S2P Require Import BlockStore.
From S2P Require Import Samples.

(** The geometry [open] checks, on the fields it reads. *)
Record open_ok (v : Volume) : Prop := {
  oo_valid : valid_ v = true;
  oo_block : 0 <= block_shift_ v <= 13;
  oo_ag : 1 <= ag_shift_ v <= 30;
  oo_groups : 1 <= num_ags_ v < 2 ^ 32;
  oo_bitmap : 1 <= blocks_per_ag_ v;
  oo_blocks : 10 <= num_blocks_ v;
  oo_cover : (num_ags_ v - 1) * 2 ^ ag_shift_ v < num_blocks_ v <= num_ags_ v * 2 ^ ag_shift_ v;
}.

(** [1u << shift] is a block size for shifts up to 13 only. *)
Lemma shl1_shift shift :
  0 <= shift -> 0 < shl1_u32 shift <= kMaxBlockSize -> shift <= 13.
Proof.
  unfold shl1_u32, kMaxBlockSize. intros Hs. zcase; [|lia]. rewrite Z.shiftl_1_l. intros [_ Hp].
  destruct (Z.le_gt_cases shift 13); [assumption|].
  pose proof (Z.pow_le_mono_r 2 14 shift). change (2 ^ 14) with 16384 in *. lia.
Qed.

(** The group count is compared at 64 bits, wrap included, and still bounds the
    block count: a count that wraps gives no groups. *)
Lemma groups_cover n shift g :
  0 <= n < 2 ^ 64 -> 1 <= shift <= 30 -> 1 <= g ->
  g = Z.shiftr (u64 (n + Z.shiftl 1 shift - 1)) shift ->
  (g - 1) * 2 ^ shift < n <= g * 2 ^ shift.
Proof.
  intros Hn Hs Hg. rewrite Z.shiftl_1_l, Z.shiftr_div_pow2 by lia.
  assert (Hp : 2 <= 2 ^ shift <= 2 ^ 30)
    by (split; [apply (Z.pow_le_mono_r 2 1)|apply Z.pow_le_mono_r]; lia).
  change (2 ^ 30) with 1073741824 in Hp. intros ->. unfold u64 in *.
  destruct (Z.lt_ge_cases (n + 2 ^ shift - 1) (2 ^ 64)) as [Hlt|Hge].
  - rewrite Z.mod_small in * by lia. zlia.
  - exfalso. replace (n + 2 ^ shift - 1) with (n + 2 ^ shift - 1 - 2 ^ 64 + 1 * 2 ^ 64) in Hg by lia.
    rewrite Z.mod_add, Z.mod_small, Z.div_small in Hg by lia. lia.
Qed.

Lemma open_checks {D} `{SectorDeviceLaws D} (v v' : Volume) (d : D) (write : bool) :
  open v d write = (true, v') -> open_ok v' /\ write_ v' = write.
Proof.
  unfold open. destruct (read_sectors d 1 1) as [sb|] eqn:Hr; [|discriminate].
  apply read_view in Hr; [|lia|lia].
  assert (Hok : bytes_ok sb) by (subst sb; apply sectors_bytes_ok; lia). clear Hr.
  destruct (_ || _ || _ || _); [discriminate|].
  destruct (_ || _) eqn:Hc; [discriminate|]. breflect.
  destruct (negb _) eqn:Hg; [discriminate|]. breflect. intros [= <-].
  pose proof (le32_range sb superblock.kNumAgs Hok). pose proof (le32_range sb superblock.kBlockShift Hok).
  pose proof (le64_range sb superblock.kNumBlocks Hok). pose proof (le32_range sb superblock.kBlockSize Hok).
  super_fields.
  split; [|reflexivity]. split; simpl; try lia.
  - split; [lia|]. apply shl1_shift; lia.
  - apply groups_cover; auto; lia.
Qed.

Lemma run_of_parts v b :
  1 <= ag_shift_ v -> 0 <= b -> b / 2 ^ ag_shift_ v < 2 ^ 32 ->
  to_run v b = mkRun (b / 2 ^ ag_shift_ v) (u16 (b mod 2 ^ ag_shift_ v)) 1.
Proof.
  intros Ha Hb Hg. unfold to_run. rewrite Z.shiftr_div_pow2 by lia.
  replace (Z.shiftl 1 (ag_shift_ v) - 1) with (Z.ones (ag_shift_ v))
    by (rewrite Z.ones_equiv, Z.shiftl_1_l; lia).
  rewrite Z.land_ones by lia. rewrite u32_small; [reflexivity|].
  split; [apply Z.div_pos; [lia|]; apply Z.pow_pos_nonneg; lia|lia].
Qed.

Lemma run_of_block_exact v b :
  open_ok v -> 0 <= b < num_blocks_ v -> b mod 2 ^ ag_shift_ v < 65536 ->
  to_block v (to_run v b) = b.
Proof.
  intros [_ _ Ha Hg _ _ Hc] Hb Hm. assert (Hp : 0 < 2 ^ ag_shift_ v) by (apply Z.pow_pos_nonneg; lia).
  pose proof (Z.mod_pos_bound b _ Hp).
  rewrite run_of_parts; [|lia|lia|apply Z.div_lt_upper_bound; nia].
  rewrite u16_small by lia. unfold to_block; simpl.
  rewrite Z.lor_comm, lor_shiftl_add by lia. zlia.
Qed.

(** A volume inside the format's own limits has the geometry the block layer
    works with. *)
Lemma open_geometry v :
  open_ok v -> 10 <= block_shift_ v -> ag_shift_ v <= 16 -> geometry_ok v.
Proof.
  intros [_ Hb Ha Hg _ Hn Hc] H10 H16. split; try lia.
  assert (Hp : 0 < 2 ^ ag_shift_ v) by (apply Z.pow_pos_nonneg; lia).
  apply Z.le_antisymm.
  - apply Z.div_le_lower_bound; lia.
  - apply Z.lt_succ_r, Z.div_lt_upper_bound; lia.
Qed.

(** Opening establishes the block layer's invariant. *)
Lemma open_fs_ok {D} `{SectorDeviceLaws D} (d : D) write v live :
  open new_volume d write = (true, v) -> 10 <= block_shift_ v -> ag_shift_ v <= 16 ->
  fs_ok live (mkFs d v new_journal false).
Proof.
  intros Ho H10 H16. pose proof Ho as Hs. apply open_checks in Ho as [Hok _].
  assert (Hsup : cache_ v = fresh_cache /\ zlen (superblock_ v) = kSuperblockBytes /\ bytes_ok (superblock_ v)).
  { revert Hs. unfold open. destruct (read_sectors d 1 1) as [sb|] eqn:Hr; [|discriminate].
    apply read_view in Hr; [|lia|lia]. destruct (_ || _ || _ || _); [discriminate|].
    destruct (_ || _); [discriminate|]. destruct (negb _); [discriminate|]. intros [= <-]. simpl.
    splits; auto; [apply zlen_slice; unfold kSuperblockBytes; lia|].
    apply bytes_ok_slice. subst sb. apply sectors_bytes_ok. lia. }
  destruct Hsup as (Hc & Hl & Hb). split; simpl; auto.
  - now apply open_geometry.
  - split; simpl; rewrite Hc; [reflexivity|]. intros l Hin Hv.
    unfold fresh_cache in Hin. apply elem_of_replicate in Hin as [-> _]. discriminate.
  - discriminate.
Qed.

(** C40: Opening a volume is sound.  Whatever the sector holds, as long as its
    block shift is one C++ defines (below 32; the model refuses the others), a
    superblock [open] accepts has a block size 2^shift with the shift from 0 to
    13, groups of at least two blocks that exactly cover the volume (the 64-bit
    wrap in the comparison included), and a bitmap; and a run [validate_run]
    accepts there stays inside the volume when its start fits its group.  The
    sizes below 1024 that specs/bfs.md leaves out are accepted too
    ([small_blocks_accepted]). *)
Theorem open_sound {D} `{SectorDeviceLaws D} (v v' : Volume) (d : D) (write : bool) :
  open v d write = (true, v') ->
  open_ok v' /\ write_ v' = write /\
  forall r, run_ok r -> validate_run v' r = true ->
    0 < run_length r /\ allocation_group r < num_ags_ v' /\
    to_block v' r + run_length r <= num_blocks_ v'.
Proof.
  intros Ho. apply open_checks in Ho as [Hok Hw]. splits; auto.
  intros r (Hg & Hs & Hl). unfold validate_run.
  destruct (_ || _) eqn:E1; [discriminate|]. breflect.
  destruct (_ <? _) eqn:E2; [discriminate|]. breflect. intros Hv. breflect. lia.
Qed.

Lemma open_sound_witness :
  let d := Sample.disk (Sample.super 16 4 1 8 0) 16 None in
  open_ok (open new_volume d true).2.
Proof.
  apply (open_sound new_volume _ (Sample.disk (Sample.super 16 4 1 8 0) 16 None) true).
  vm_compute. reflexivity.
Defined.

(** A block size of 256 bytes, half a sector, is accepted; specs/bfs.md allows
    1024 to 8192. *)
Lemma small_blocks_accepted :
  let sb := put_le32 (put_le32 (put_le32 (Sample.super 16 4 1 8 0) superblock.kBlockSize 256) superblock.kBlockShift 8)
    superblock.kInodeSize 256 in
  let '(ok, v) := open new_volume (Sample.disk sb 16 None) true in ok = true /\ block_size v = 256 /\ sectors_per_block v = 0.
Proof. vm_compute. auto. Qed.

(** Every block is the one its run names. *)
Definition runs_name_blocks (v : Volume) : Prop :=
  forall b, 0 <= b < num_blocks_ v -> to_block v (to_run v b) = b.

(** Block numbers survive the trip through a run exactly when a group's
    blocks fit a run's 16-bit start: on a volume [open] accepts, every block
    maps to a run and back if and only if [ag_shift] is at most 16 or the
    volume has at most 65536 blocks.  [open] accepts shifts up to 30. *)
Theorem to_run_exact {D} `{SectorDeviceLaws D} (v v' : Volume) (d : D) (write : bool) :
  open v d write = (true, v') ->
  runs_name_blocks v' <-> (ag_shift_ v' <= 16 \/ num_blocks_ v' <= 65536).
Proof.
  intros Ho. apply open_checks in Ho as [Hok _]. pose proof Hok as [_ _ Ha Hg _ _ Hc]. split.
  - intros Hall. destruct (Z.le_gt_cases (ag_shift_ v') 16) as [|H1]; [auto|].
    destruct (Z.le_gt_cases (num_blocks_ v') 65536) as [|H2]; [auto|]. exfalso.
    assert (Hp : 131072 <= 2 ^ ag_shift_ v') by (apply (Z.pow_le_mono_r 2 17); lia).
    specialize (Hall 65536 ltac:(lia)).
    rewrite run_of_parts in Hall; [|lia|lia|rewrite Z.div_small; lia].
    rewrite Z.div_small, Z.mod_small in Hall by lia.
    unfold to_block in Hall. cbn [allocation_group start] in Hall.
    rewrite Z.shiftl_0_l in Hall. discriminate.
  - intros Hcase b Hb. apply run_of_block_exact; auto.
    assert (Hp : 0 < 2 ^ ag_shift_ v') by (apply Z.pow_pos_nonneg; lia).
    pose proof (Z.mod_pos_bound b _ Hp). destruct Hcase as [Hsh|Hn].
    + pose proof (Z.pow_le_mono_r 2 (ag_shift_ v') 16). change (2 ^ 16) with 65536 in *. lia.
    + pose proof (Z.mod_le b (2 ^ ag_shift_ v')). lia.
Qed.

(** A superblock with groups of [2 ^ 17] blocks opens, and block 65536 of it is
    not the block its run names. *)
Lemma to_run_exact_witness :
  let d := Sample.disk (Sample.super 65537 17 1 8 0) 16 None in
  let v := (open new_volume d true).2 in
  (open new_volume d true).1 = true /\
  ~ runs_name_blocks v.
Proof.
  split; [vm_compute; reflexivity|].
  rewrite (to_run_exact new_volume _ (Sample.disk (Sample.super 65537 17 1 8 0) 16 None) true)
    by (vm_compute; reflexivity).
  vm_compute. intuition congruence.
Defined.
