(* ===== verification/Journal.v ===== *)
(** The journal (libs/freestanding/aegir-bfs, src/journal.cc): transactions
    over metadata blocks, the commit that logs them before any goes home, and
    the replay a mount runs.  [peek] and [log] are in Volume.v ([peek], [jlog]).

    [commit] is modelled with every write it makes, and the device may refuse
    any of them, so the theorems range over every point a machine can stop. *)
From stdpp Require Import base numbers list list_numbers.
From Stdlib Require Import ZArith Lia Permutation Sorted.
From S2P Require Import Prelude.
From S2P Require Import Layout.
From S2P Require Import Device.
From S2P Require Import Volume.
From S2P Require Import BlockStore.

(** * Field updates *)
Definition with_flags (j : Journal) (active snapshot committed : bool) : Journal :=
  mkJournal (volume_ j) (block_size_ j) active snapshot committed (snapshot_ j) (entries_ j).

(** * Pure parts *)

(** The order a run array wants: ascending allocation group, then start. *)
Definition run_before (v : Volume) (a b : Z) : bool :=
  let left := to_run v a in
  let right := to_run v b in
  if negb (allocation_group left =? allocation_group right)
  then allocation_group left <? allocation_group right
  else start left <? start right.

Definition free_blocks (v : Volume) : Z :=
  let length := log_length v in
  let used := u64 (log_end_ v + length - log_start_ v) mod length in
  length - used.

(** The insertion sort's inner loop, on the sorted prefix read right to left:
    larger elements shift right until [key]'s place is found. *)
Fixpoint shift_in (v : Volume) (prefix : list (Z * bytes)) (key : Z * bytes) : list (Z * bytes) :=
  match prefix with
  | [] => [key]
  | e :: prefix' =>
    if run_before v key.1 e.1 then e :: shift_in v prefix' key else key :: prefix
  end.

(** The entries in the order [order[0 .. runs)] names them. *)
Definition ordered (v : Volume) (es : list (Z * bytes)) : list (Z * bytes) :=
  rev (fold_left (shift_in v) es []).

Fixpoint put_runs (array : bytes) (i : Z) (rs : list Run) : bytes :=
  match rs with
  | [] => array
  | r :: rs => put_runs (put_run array (run_array.kRuns + i * 8) r) (i + 1) rs
  end.

(** The run array of one transaction: count, capacity, target runs. *)
Definition build_array (v : Volume) (bs : Z) (es : list (Z * bytes)) : bytes :=
  let array := zeros bs in
  let array := put_le32 array run_array.kCount (zlen es) in
  let array := put_le32 array run_array.kMaxRuns (run_array.max_runs bs) in
  put_runs array 0 (map (fun e => to_run v e.1) es).

(** [for (i < count) if (!validate_run(run i)) return false] *)
Definition validate_runs (v : Volume) (array : bytes) (count : Z) : bool :=
  forallb (fun i => validate_run v (le_run array (run_array.kRuns + i * 8))) (seqZ 0 count).

Section journal.
Context {D : Type} `{SectorDevice D}.
Implicit Types fs : Fs D.

(** [Journal::open] *)
Definition journal_open fs : bool * Fs D :=
  if negb (valid_ (vol fs)) || negb (write_ (vol fs)) then (false, fs)
  else
    let j := jnl fs in
    let j := mkJournal true (block_size (vol fs)) false (snapshot_valid_ j) (committed_ j)
               (snapshot_ j) [] in
    if (log_length (vol fs) <? 2) || (kMaxBlockSize <? block_size_ j) then (false, with_jnl fs j)
    else (true, mkFs (dev fs) (vol fs) j true).

Definition begin fs : Fs D :=
  let j := jnl fs in
  let snapshot := if volume_ j then save_superblock (vol fs) else snapshot_ j in
  with_jnl fs (mkJournal (volume_ j) (block_size_ j) true
                 (if volume_ j then true else snapshot_valid_ j) false snapshot []).

Definition abort fs : Fs D :=
  let j := jnl fs in
  let v := if snapshot_valid_ j && negb (committed_ j) && volume_ j
           then restore_superblock (vol fs) (snapshot_ j) else vol fs in
  mkFs (dev fs) v
    (mkJournal (volume_ j) (block_size_ j) false false false (snapshot_ j) []) (attached fs).

(** [count_ = 0; return false] *)
Definition refuse_commit fs : bool * Fs D := (false, with_jnl fs (with_entries (jnl fs) [])).

(** The log's data blocks, one per run, from [position]. *)
Fixpoint write_log fs (log_block length position : Z) (es : list (Z * bytes))
    : bool * Z * Fs D :=
  match es with
  | [] => (true, position, fs)
  | (_, data) :: es =>
    let '(ok, fs) := write_block_now fs (log_block + position) data in
    if ok then write_log fs log_block length ((position + 1) mod length) es
    else (false, position, fs)
  end.

(** The checkpoint: the images go to their homes. *)
Fixpoint write_home fs (es : list (Z * bytes)) : bool * Fs D :=
  match es with
  | [] => (true, fs)
  | (block, data) :: es =>
    let '(ok, fs) := write_block_now fs block data in
    if ok then write_home fs es else (false, fs)
  end.

(** The retire: the log is empty again and the volume clean. *)
Definition retire fs (position : Z) : Fs D :=
  with_vol fs (set_flags (set_log_start (vol fs) position) kClean).

Definition commit fs : bool * Fs D :=
  if negb (active_ (jnl fs)) then (true, fs)
  else
    let j := jnl fs in
    let fs := with_jnl fs (with_flags j false (snapshot_valid_ j) (committed_ j)) in
    let es := entries_ j in
    let runs := zlen es in
    if runs =? 0 then (true, with_jnl fs (with_flags (jnl fs) false false (committed_ j)))
    else
      let max_runs := run_array.max_runs (block_size_ j) in
      if (free_blocks (vol fs) <? runs + 1) || (u32 (max_runs - 1) <? runs) then refuse_commit fs
      else
        let sorted := ordered (vol fs) es in
        let array := build_array (vol fs) (block_size_ j) sorted in
        let length := log_length (vol fs) in
        let log_block := to_block (vol fs) (log_ (vol fs)) in
        let array_position := log_end_ (vol fs) in
        let '(ok, fs) := write_block_now fs (log_block + array_position) array in
        if negb ok then refuse_commit fs
        else
          let '(ok, position, fs) :=
            write_log fs log_block length ((array_position + 1) mod length) sorted in
          if negb ok then refuse_commit fs
          else
            let fs := with_vol fs (set_flags (set_log_end (vol fs) position) kDirty) in
            let '(ok, fs) := write_superblock_now fs in
            if negb ok then refuse_commit fs
            else
              let fs := with_jnl fs (with_flags (jnl fs) false (snapshot_valid_ (jnl fs)) true) in
              let '(ok, fs) := write_home fs es in
              if negb ok then refuse_commit fs
              else
                let fs := retire fs position in
                let fs := with_jnl fs (with_entries (with_flags (jnl fs) false false false) []) in
                write_superblock_now fs.

(** One logged block copied home per run of the array. *)
Fixpoint replay_copy fs (log_block length : Z) (array : bytes) (i : Z) (n : nat) (position : Z)
    : bool * Z * Fs D :=
  match n with
  | O => (true, position, fs)
  | S n =>
    let run := le_run array (run_array.kRuns + i * 8) in
    match read_block_now fs (log_block + position) with
    | None => (false, position, fs)
    | Some data =>
      let '(ok, fs) := write_block_now fs (to_block (vol fs) run) data in
      if ok then replay_copy fs log_block length array (i + 1) n ((position + 1) mod length)
      else (false, position, fs)
    end
  end.

(** The replay's walk; [fuel] is the source's own bound, the log's length. *)
Fixpoint replay_walk (fuel : nat) fs (log_block length max_runs start end_ : Z) : bool * Fs D :=
  match fuel with
  | O => (true, fs)
  | S fuel =>
    match read_block_now fs (log_block + start) with
    | None => (false, fs)
    | Some array =>
      let count := le32 array run_array.kCount in
      let stored_max := le32 array run_array.kMaxRuns in
      if negb (stored_max =? max_runs) || (count =? 0) || (u32 (max_runs - 1) <? count)
      then (false, fs)
      else if negb (validate_runs (vol fs) array count) then (false, fs)
      else
        let '(ok, position, fs) :=
          replay_copy fs log_block length array 0 (Z.to_nat count) ((start + 1) mod length) in
        if negb ok then (false, fs)
        else if position =? end_ then (true, fs)
        else replay_walk fuel fs log_block length max_runs position end_
    end
  end.

Definition replay fs : bool * Fs D :=
  if negb (volume_ (jnl fs)) then (false, fs)
  else
    let start := log_start_ (vol fs) in
    let end_ := log_end_ (vol fs) in
    if start =? end_ then (true, fs)
    else if negb (write_ (vol fs)) then (false, fs)
    else
      let length := log_length (vol fs) in
      let log_block := to_block (vol fs) (log_ (vol fs)) in
      let max_runs := run_array.max_runs (block_size_ (jnl fs)) in
      let '(ok, fs) := replay_walk (Z.to_nat length) fs log_block length max_runs start end_ in
      if negb ok then (false, fs) else write_superblock_now (retire fs end_).

(** A mount: the service opens the volume and the writer opens the journal and
    replays it (aegir-fs-bfs main, [Writer::open]). *)
Definition mount (d : D) : bool * Fs D :=
  let '(ok, v) := open new_volume d true in
  let fs := mkFs d v new_journal false in
  if negb ok then (false, fs)
  else
    let '(ok, fs) := journal_open fs in
    if negb ok then (false, fs) else replay fs.

End journal.

(** * The sort *)

Section ordering.
Context (v : Volume) (Hgeo : geometry_ok v).

Lemma run_before_lt a b :
  0 <= a < num_blocks_ v -> 0 <= b < num_blocks_ v -> run_before v a b = (a <? b).
Proof.
  intros Ha Hb. unfold run_before.
  destruct (to_run_parts v Hgeo a Ha) as [-> _], (to_run_parts v Hgeo b Hb) as [-> _]. simpl.
  pose proof (span_pos v Hgeo). generalize dependent (2 ^ ag_shift_ v). intros m Hm.
  pose proof (Z.div_mod a m). pose proof (Z.div_mod b m).
  pose proof (Z.mod_pos_bound a m). pose proof (Z.mod_pos_bound b m).
  destruct (Z.eqb_spec (a / m) (b / m)) as [E|E]; simpl;
    apply eq_true_iff_eq; rewrite !Z.ltb_lt; [rewrite E in *; lia|].
  split; intros; nia.
Qed.

Lemma shift_in_perm prefix key : Permutation (shift_in v prefix key) (key :: prefix).
Proof.
  induction prefix as [|e prefix IH]; simpl; [reflexivity|].
  destruct (run_before v key.1 e.1); [|reflexivity].
  rewrite IH. apply Permutation_swap.
Qed.

Lemma ordered_perm es : Permutation (ordered v es) es.
Proof.
  unfold ordered. rewrite <- Permutation_rev.
  assert (Hg : forall acc, Permutation (fold_left (shift_in v) es acc) (acc ++ es)).
  { induction es as [|e es IH]; intros acc; simpl; [now rewrite app_nil_r|].
    rewrite IH, shift_in_perm. apply Permutation_middle. }
  apply (Hg []).
Qed.

Definition descending : list (Z * bytes) -> Prop := StronglySorted (fun x y => y.1 <= x.1).

Lemma shift_in_sorted prefix key :
  Forall (fun e : Z * bytes => client_block v e.1) (key :: prefix) ->
  descending prefix -> descending (shift_in v prefix key).
Proof.
  intros Hf Hs. apply Forall_cons in Hf as [Hk Hf].
  induction Hs as [|e prefix Hs IH Hall]; simpl; [repeat constructor|].
  apply Forall_cons in Hf as [He Hf]. unfold client_block in Hk, He.
  rewrite run_before_lt by lia. destruct (Z.ltb_spec key.1 e.1).
  - constructor; [now apply IH|]. rewrite shift_in_perm. constructor; [lia|assumption].
  - constructor; [now constructor|]. constructor; [lia|].
    eapply Forall_impl; [exact Hall|]. simpl. lia.
Qed.

Lemma fold_shift_sorted es acc :
  Forall (fun e : Z * bytes => client_block v e.1) (acc ++ es) ->
  descending acc -> descending (fold_left (shift_in v) es acc).
Proof.
  revert acc; induction es as [|e es IH]; intros acc Hf Hs; simpl; [assumption|].
  apply IH; [now rewrite shift_in_perm, <- Permutation_middle in *|].
  apply shift_in_sorted; [|assumption].
  rewrite <- Permutation_middle in Hf. apply Forall_cons in Hf as [He Hf].
  apply Forall_app in Hf as [Hf _]. now constructor.
Qed.

Lemma StronglySorted_snoc {A} (R : A -> A -> Prop) l x :
  StronglySorted R l -> Forall (fun y => R y x) l -> StronglySorted R (l ++ [x]).
Proof.
  induction 1 as [|y l Hs IH Hall]; intros Hx; simpl; [repeat constructor|].
  apply Forall_cons in Hx as [Hy Hx]. constructor; [auto|]. apply Forall_app_2; auto.
Qed.

Lemma ordered_sorted es :
  Forall (fun e : Z * bytes => client_block v e.1) es ->
  StronglySorted (fun x y => x.1 <= y.1) (ordered v es).
Proof.
  intros Hf. unfold ordered.
  assert (Hd : descending (fold_left (shift_in v) es []))
    by (apply fold_shift_sorted; [assumption|constructor]).
  induction Hd as [|e l Hs IH Hall]; simpl; [constructor|].
  apply StronglySorted_snoc; [assumption|]. now apply Forall_rev.
Qed.
End ordering.

(** * The run array *)

Lemma zlen_put_runs array i rs : zlen (put_runs array i rs) = zlen array.
Proof. revert array i; induction rs as [|r rs IH]; intros; simpl; [auto|]. now rewrite IH, zlen_put_run. Qed.

Lemma bytes_ok_put_runs array i rs : 0 <= i -> bytes_ok array -> bytes_ok (put_runs array i rs).
Proof.
  revert array i; induction rs as [|r rs IH]; intros array i Hi Hb; simpl; [auto|].
  apply IH; [lia|]. apply bytes_ok_put_run; [unfold run_array.kRuns; lia|auto].
Qed.

(** Earlier bytes of the array are left alone. *)
Lemma put_runs_before array i rs k :
  0 <= i -> 0 <= k < run_array.kRuns + i * 8 -> byte_at (put_runs array i rs) k = byte_at array k.
Proof.
  unfold run_array.kRuns. revert array i; induction rs as [|r rs IH]; intros array i Hi Hk; simpl; [auto|].
  rewrite IH by lia. unfold run_array.kRuns. rewrite put_run_blit by lia.
  apply byte_blit_disj; rewrite ?zlen_run_bytes_of; lia.
Qed.

Lemma put_runs_get array i rs k r :
  0 <= i -> 8 + (i + zlen rs) * 8 <= zlen array -> Forall run_ok rs ->
  rs !! k = Some r -> le_run (put_runs array i rs) (run_array.kRuns + (i + Z.of_nat k) * 8) = r.
Proof.
  unfold run_array.kRuns.
  revert array i k; induction rs as [|r0 rs IH]; intros array i k Hi Hl Hf Hk; [discriminate|].
  apply Forall_cons in Hf as [Hr Hf]. rewrite zlen_cons in Hl. simpl. unfold run_array.kRuns.
  pose proof (zlen_nonneg rs). destruct k as [|k]; simpl in Hk.
  - injection Hk as ->. rewrite Z.add_0_r.
    transitivity (le_run (put_run array (8 + i * 8) r) (8 + i * 8));
      [apply le_run_ext | apply le_run_put_same; [lia|lia|assumption]].
    intros j Hj. apply put_runs_before; unfold run_array.kRuns; lia.
  - replace (i + Z.of_nat (S k)) with (i + 1 + Z.of_nat k) by lia.
    apply IH; auto; rewrite ?zlen_put_run; lia.
Qed.

Section array.
Context (v : Volume) (Hgeo : geometry_ok v).

Lemma max_runs_127 : run_array.max_runs (block_size v) = 127.
Proof.
  unfold run_array.max_runs, run_array.kFixed.
  destruct (block_size_cases v Hgeo) as [->|[->|[->| ->]]]; reflexivity.
Qed.

Lemma build_array_spec es :
  Forall (fun e : Z * bytes => client_block v e.1) es -> zlen es <= 126 ->
  let array := build_array v (block_size v) es in
  zlen array = block_size v /\ bytes_ok array /\
  le32 array run_array.kCount = zlen es /\ le32 array run_array.kMaxRuns = 127 /\
  forall k e, es !! k = Some e ->
    le_run array (run_array.kRuns + Z.of_nat k * 8) = to_run v e.1.
Proof.
  intros Hf Hn array. pose proof (block_sectors v Hgeo) as [Hbs Hs].
  pose proof (zlen_nonneg es).
  assert (Hfix : forall o, 0 <= o < 8 -> byte_at array o =
            byte_at (put_le32 (put_le32 (zeros (block_size v)) 0 (zlen es)) 4 127) o).
  { intros o Ho. unfold array, build_array. rewrite put_runs_before by (unfold run_array.kRuns; lia).
    now rewrite max_runs_127. }
  assert (Hlen : zlen array = block_size v).
  { unfold array, build_array. rewrite zlen_put_runs. autorewrite with buf. lia. }
  splits; auto.
  - unfold array, build_array. apply bytes_ok_put_runs; [lia|].
    repeat apply bytes_ok_put32; try (unfold run_array.kCount, run_array.kMaxRuns; lia).
    auto with buf.
  - erewrite le32_ext; [|intros; apply Hfix; unfold run_array.kCount; lia].
    unfold run_array.kCount. rewrite (put_le32_blit _ 4) by lia.
    rewrite le32_blit_disj, le32_put by (autorewrite with buf; lia). apply u32_small; lia.
  - erewrite le32_ext; [|intros; apply Hfix; unfold run_array.kMaxRuns; lia].
    unfold run_array.kMaxRuns. rewrite le32_put by (autorewrite with buf; lia). reflexivity.
  - intros k e Hk. unfold array, build_array.
    rewrite <- (Z.add_0_l (Z.of_nat k)). apply put_runs_get.
    + lia.
    + autorewrite with buf. unfold zlen at 1. rewrite length_map. fold (zlen es). lia.
    + apply Forall_map. eapply Forall_impl; [exact Hf|]. intros x Hx.
      apply to_run_ok; [assumption|]. unfold client_block in Hx. lia.
    + now rewrite list_lookup_fmap, Hk.
Qed.
End array.
