(* ===== verification/Transaction.v ===== *)
(** What a client of the block layer sees: sequences of block reads and writes
    against an abstract map from block numbers to images (the refinement), and
    transactions that are abandoned.  Both are over the whole block layer: the
    cache, the open transaction and the device, which may refuse anything. *)
From stdpp Require Import base numbers list list_numbers relations.
From Stdlib Require Import ZArith Lia.
From S2P Require Import Prelude.
From S2P Require Import Layout.
From S2P Require Import Device.
From S2P Require Import Volume.
From S2P Require Import BlockStore.
From S2P Require Import Samples.
From S2P Require Import Journal.

(** * The abstract block map *)

Inductive block_op := OpRead (b : Z) | OpWrite (b : Z) (data : bytes).

Definition op_block (op : block_op) : Z :=
  match op with OpRead b => b | OpWrite b _ => b end.

Definition op_ok (v : Volume) (op : block_op) : Prop :=
  client_block v (op_block op) /\
  match op with
  | OpRead _ => True
  | OpWrite _ data => bytes_ok data /\ zlen data = block_size v
  end.

#[export] Instance op_ok_proper : Proper (same_geometry ==> eq ==> iff) op_ok.
Proof. intros v w Hg op _ <-. unfold op_ok. rewrite Hg. destruct op; [|rewrite Hg]; reflexivity. Qed.

(** The specification: what the reads return, and the map afterwards. *)
Fixpoint spec_ops (m : Z -> bytes) (ops : list block_op) : list bytes * (Z -> bytes) :=
  match ops with
  | [] => ([], m)
  | OpRead b :: ops => let '(outs, m') := spec_ops m ops in (m b :: outs, m')
  | OpWrite b data :: ops => spec_ops (fun c => if c =? b then data else m c) ops
  end.

(** The implementation, stopping at the first operation that is refused. *)
Fixpoint run_ops {S} `{BlockStore S} (s : S) (ops : list block_op) : option (list bytes) * S :=
  match ops with
  | [] => (Some [], s)
  | OpRead b :: ops =>
    match bs_read s b with
    | (Some data, s) => let '(outs, s) := run_ops s ops in (option_map (cons data) outs, s)
    | (None, s) => (None, s)
    end
  | OpWrite b data :: ops =>
    let '(ok, s) := bs_write s b data in
    if ok then run_ops s ops else (None, s)
  end.

(** Only the map's values at client blocks matter. *)
Lemma spec_ops_ext v m m' ops :
  Forall (op_ok v) ops -> (forall c, client_block v c -> m c = m' c) ->
  (spec_ops m ops).1 = (spec_ops m' ops).1 /\
  (forall c, client_block v c -> (spec_ops m ops).2 c = (spec_ops m' ops).2 c).
Proof.
  intros Hf. revert m m'. induction Hf as [|op ops [Hb Hop] Hf IH]; intros m m' Hm; simpl; [auto|].
  destruct op as [b|b data]; simpl in *.
  - destruct (IH m m' Hm) as [I1 I2]. destruct (spec_ops m ops), (spec_ops m' ops); simpl in *.
    split; [f_equal; auto|auto].
  - apply IH. intros c Hc. destruct (c =? b); auto.
Qed.

Section client.
Context {S : Type} `{BlockStoreLaws S}.

Lemma store_refines (s : S) ops outs s' :
  bs_ok (fun _ => True) s -> Forall (op_ok (bs_vol s)) ops -> run_ops s ops = (Some outs, s') ->
  bs_ok (fun _ => True) s' /\ outs = (spec_ops (bs_view s) ops).1 /\
  forall c, client_block (bs_vol s) c -> bs_view s' c = (spec_ops (bs_view s) ops).2 c.
Proof.
  intros Hok Hf. revert s outs Hok Hf. induction ops as [|op ops IH]; intros s outs Hok Hf; simpl.
  { intros [= <- <-]. auto. }
  apply Forall_cons in Hf as [[Hb Hop] Hf].
  assert (Hgeo : forall s1, same_geometry (bs_vol s) (bs_vol s1) ->
    Forall (op_ok (bs_vol s1)) ops /\ (forall c, client_block (bs_vol s1) c <-> client_block (bs_vol s) c)).
  { intros s1 Hsg. split; [|intros c; now rewrite Hsg].
    eapply Forall_impl; [exact Hf|]. intros op'. now rewrite Hsg. }
  destruct op as [b|b data]; simpl in *.
  - destruct (bs_read s b) as [[data|] s1] eqn:Hr; [|discriminate].
    eapply bs_read_law in Hr as (R1 & R2 & _ & R4 & R5); eauto.
    destruct (Hgeo s1 R2) as [Hf1 Hc1]. destruct (run_ops s1 ops) as [[o1|] s2] eqn:E; [|discriminate].
    intros [= <- <-]. destruct (IH s1 o1 R1 Hf1 E) as (I1 & I2 & I3).
    destruct (spec_ops_ext (bs_vol s1) (bs_view s1) (bs_view s) ops Hf1) as [X1 X2].
    { intros c Hc. apply R4. now apply Hc1. }
    destruct (spec_ops (bs_view s) ops) as [o2 m2]; simpl in *.
    splits; auto; [f_equal; auto; congruence|].
    intros c Hc. rewrite I3, X2 by now apply Hc1. reflexivity.
  - destruct (bs_write s b data) as [ok s1] eqn:Hw. destruct ok; [|discriminate].
    destruct Hop as [Hd Hl]. eapply bs_write_law in Hw as (W1 & W2 & _ & W4 & W5); eauto; [|lia].
    destruct (Hgeo s1 W2) as [Hf1 Hc1]. intros E.
    destruct (IH s1 outs W1 Hf1 E) as (I1 & I2 & I3).
    destruct (spec_ops_ext (bs_vol s1) (bs_view s1)
                (fun c => if c =? b then data else bs_view s c) ops Hf1) as [X1 X2].
    { intros c Hc. apply Hc1 in Hc. destruct (Z.eqb_spec c b) as [->|Hne]; [|now apply W4].
      destruct (W5 eq_refl) as [-> _]. apply slice_all. lia. }
    splits; auto; [congruence|]. intros c Hc. rewrite I3, X2 by now apply Hc1. reflexivity.
Qed.
End client.

(** With the store up, nothing is refused. *)
Lemma reliable_ops {S} `{BlockStoreLaws S} `{!ReliableStore S} (s : S) ops :
  bs_ok (fun _ => True) s -> bs_up s -> Forall (op_ok (bs_vol s)) ops ->
  exists outs s', run_ops s ops = (Some outs, s').
Proof.
  revert s. induction ops as [|op ops IH]; intros s Hok Hup Hf; simpl; [eauto|].
  apply Forall_cons in Hf as [[Hb Hop] Hf].
  assert (Hgeo : forall s1, same_geometry (bs_vol s) (bs_vol s1) -> Forall (op_ok (bs_vol s1)) ops).
  { intros s1 Hsg. eapply Forall_impl; [exact Hf|]. intros op'. now rewrite Hsg. }
  destruct op as [b|b data]; simpl in *.
  - destruct (up_read s b Hup Hb) as (data & s1 & Hr & Hup1). rewrite Hr.
    eapply bs_read_law in Hr as (R1 & R2 & _); eauto.
    destruct (IH s1) as (outs & s' & ->); simpl; eauto.
  - destruct (up_write s b data Hup Hb) as (s1 & Hw & Hup1). rewrite Hw.
    eapply bs_write_law in Hw as (W1 & W2 & _); eauto; [apply Hop|destruct Hop; lia].
Qed.

(** C4: The block layer implements the map from block numbers to images: in
    any state its invariant allows, inside a transaction or outside one, a
    sequence of block reads and writes that is not refused returns what the map
    holds and leaves the map it should; and outside a transaction a working
    device refuses none of them. *)
Theorem block_layer_refines {D} `{SectorDeviceLaws D} `{!PoweredDevice D}
    (fs : Fs D) (ops : list block_op) :
  fs_ok (fun _ => True) fs -> Forall (op_ok (vol fs)) ops ->
  (forall outs fs', run_ops fs ops = (Some outs, fs') ->
     fs_ok (fun _ => True) fs' /\ outs = (spec_ops (view fs) ops).1 /\
     forall c, client_block (vol fs) c -> view fs' c = (spec_ops (view fs) ops).2 c) /\
  (forall cap, write_ (vol fs) = true -> in_transaction fs = false -> powered (dev fs) cap ->
     num_blocks_ (vol fs) * sectors_per_block (vol fs) <= cap ->
     exists outs fs', run_ops fs ops = (Some outs, fs')).
Proof.
  intros Hok Hf. split.
  - intros outs fs' Hr. exact (store_refines fs ops outs fs' Hok Hf Hr).
  - intros cap Hw Ht Hp Hc. apply reliable_ops; [exact Hok| |exact Hf].
    simpl. splits; eauto. apply Hok.
Qed.

(** * Abandoned transactions *)

Section abandoned.
Context {D : Type} `{SectorDevice D}.

(** What an operation may do between [begin] and its end. *)
Inductive txn_step : Fs D -> Fs D -> Prop :=
  | step_read fs b : txn_step fs (read_block fs b).2
  | step_write fs b data : txn_step fs (write_block fs b data).2
  | step_used fs used : txn_step fs (with_vol fs (set_used_blocks (vol fs) used))
  | step_flush fs : txn_step fs (flush_superblock fs).2.

(** The fields kept beside the superblock image agree with it. *)
Record super_in_step (v : Volume) : Prop := {
  sis_len : zlen (superblock_ v) = kSuperblockBytes;
  sis_used : used_blocks_ v = le64 (superblock_ v) superblock.kUsedBlocks;
  sis_start : log_start_ v = le64 (superblock_ v) superblock.kLogStart;
  sis_end : log_end_ v = le64 (superblock_ v) superblock.kLogEnd;
}.

(** The invariant of an open transaction begun at [fs0], the device being one
    of [devs]. *)
Record begun (devs : D -> Prop) (fs0 fs : Fs D) : Prop := {
  be_dev : devs (dev fs);
  be_attached : attached fs = true;
  be_active : active_ (jnl fs) = true;
  be_valid : snapshot_valid_ (jnl fs) = true;
  be_point : committed_ (jnl fs) = false;
  be_volume : volume_ (jnl fs) = true;
  be_snapshot : snapshot_ (jnl fs) = superblock_ (vol fs0);
  be_vol : exists sb used c,
    vol fs = with_super (with_cache (vol fs0) c) sb used (log_start_ (vol fs0)) (log_end_ (vol fs0));
}.

Lemma begun_write devs fs0 fs b data : begun devs fs0 fs -> begun devs fs0 (write_block fs b data).2.
Proof.
  intros [B1 B2 B3 B4 B5 B6 B7 (sb & used & c & B8)]. unfold write_block, in_transaction. simpl.
  rewrite B2, B3. simpl. unfold jlog. rewrite B3. simpl.
  destruct (replace_entry _ _ _); [|destruct (_ <=? _)]; simpl; split; simpl; auto;
    eexists sb, used, _; rewrite B8; reflexivity.
Qed.

Lemma begun_step devs fs0 fs fs' : begun devs fs0 fs -> txn_step fs fs' -> begun devs fs0 fs'.
Proof.
  intros HB Hs. destruct Hs as [fs b|fs b data|fs used|fs]; [|now apply begun_write|..];
    destruct HB as [B1 B2 B3 B4 B5 B6 B7 (sb & u & c & B8)].
  - assert (HB : begun devs fs0 fs) by (split; eauto 8).
    unfold read_block. destruct (if attached fs then _ else _); [exact HB|].
    destruct (line_valid _ && _); [exact HB|].
    destruct (read_block_now fs b); [|exact HB]. split; simpl; auto.
    eexists sb, u, _. rewrite B8. reflexivity.
  - split; simpl; auto. rewrite B8. eexists _, used, c. reflexivity.
  - unfold flush_superblock, in_transaction. rewrite B2, B3. simpl. split; eauto 8.
Qed.

Lemma begun_begin (devs : D -> Prop) fs0 :
  attached fs0 = true -> volume_ (jnl fs0) = true -> super_in_step (vol fs0) -> devs (dev fs0) ->
  begun devs fs0 (begin fs0).
Proof.
  intros Ha Hv [S1 _ _ _] Hd. unfold begin. rewrite Hv. split; simpl; auto.
  - now apply slice_all.
  - exists (superblock_ (vol fs0)), (used_blocks_ (vol fs0)), (cache_ (vol fs0)). now destruct (vol fs0).
Qed.

Lemma begun_abort devs fs0 fs :
  begun devs fs0 fs -> super_in_step (vol fs0) ->
  dev (abort fs) = dev fs /\ vol (abort fs) = with_cache (vol fs0) (cache_ (vol (abort fs))) /\
  active_ (jnl (abort fs)) = false /\ entries_ (jnl (abort fs)) = [] /\
  forall b, view (abort fs) b = disk_block (vol fs0) (dev fs) b.
Proof.
  intros [B1 B2 B3 B4 B5 B6 B7 (sb & used & c & B8)] [S1 S2 S3 S4].
  assert (Hvol : vol (abort fs) = with_cache (vol fs0) c).
  { unfold abort. simpl. rewrite B4, B5, B6, B7, B8. simpl. unfold restore_superblock.
    rewrite slice_all, <- S2, <- S3, <- S4 by auto. reflexivity. }
  splits; auto.
  - now rewrite Hvol.
  - intros b. unfold view. rewrite Hvol. simpl. now rewrite B2.
Qed.
End abandoned.

(** An abandoned transaction leaves no trace: after [begin], any sequence
    of block reads, block writes and changes to the used count, [abort] leaves
    the device untouched, every field of the volume but its cache as it was, and
    every block reading as the device holds it. *)
Theorem abort_restores {D} `{SectorDevice D} (fs0 fs : Fs D) :
  attached fs0 = true -> volume_ (jnl fs0) = true -> super_in_step (vol fs0) ->
  rtc txn_step (begin fs0) fs ->
  dev (abort fs) = dev fs0 /\ vol (abort fs) = with_cache (vol fs0) (cache_ (vol (abort fs))) /\
  active_ (jnl (abort fs)) = false /\
  forall b, view (abort fs) b = disk_block (vol fs0) (dev fs0) b.
Proof.
  intros Ha Hv Hs Hr.
  assert (HB : begun (eq (dev fs0)) fs0 fs).
  { pose proof (begun_begin (eq (dev fs0)) fs0 Ha Hv Hs eq_refl) as HB0. revert HB0.
    induction Hr as [|x y z Hstep Hr IH]; [auto|]. intros HB0. now apply IH, (begun_step _ fs0 x). }
  pose proof (be_dev _ _ _ HB) as Hd. destruct (begun_abort _ _ _ HB Hs) as (A1 & A2 & A3 & _ & A5). rewrite <- Hd in *. auto.
Qed.

(** ** On a concrete disk *)

(** A mounted volume of 16 blocks and its empty journal. *)
Definition sample_fs : Fs Disk.disk := (mount (Sample.disk (Sample.super 16 4 1 8 0) 16 None)).2.
Definition sample_ops : list block_op :=
  [OpWrite 12 (replicate 1024 5); OpRead 12; OpWrite 12 (replicate 1024 6); OpRead 13; OpRead 12].

(** A volume just mounted, cold cache and no transaction. *)
Lemma idle_fs_ok {D} `{SectorDevice D} (fs : Fs D) :
  geometry_ok (vol fs) -> zlen (superblock_ (vol fs)) = kSuperblockBytes -> bytes_okb (superblock_ (vol fs)) = true ->
  zlen (cache_ (vol fs)) = kCacheLines -> forallb (fun l => negb (line_valid l)) (cache_ (vol fs)) = true ->
  block_size_ (jnl fs) = block_size (vol fs) -> entries_ (jnl fs) = [] -> fs_ok (fun _ => True) fs.
Proof.
  intros Hg Hs Hb Hc Hall Hj He. split; auto.
  - split; [auto|]. now apply bytes_okb_true.
  - split; [auto|]. intros l Hin Hl. rewrite forallb_forall in Hall.
    apply list_elem_of_In, Hall in Hin. now rewrite Hl in Hin.
  - intros _. split; rewrite ?He; auto; try constructor. unfold kMaxJournalBlocks. rewrite zlen_nil. lia.
Qed.

Lemma sample_fs_ok : fs_ok (fun _ => True) sample_fs.
Proof. apply idle_fs_ok; [split; vm_compute; intuition congruence|vm_compute; reflexivity..]. Qed.

Lemma block_layer_refines_witness :
  exists outs fs', run_ops sample_fs sample_ops = (Some outs, fs') /\
    outs = [replicate 1024 5; zeros 1024; replicate 1024 6].
Proof.
  assert (Hf : Forall (op_ok (vol sample_fs)) sample_ops).
  { repeat constructor; simpl; try (vm_compute; intuition congruence);
      apply bytes_okb_true; vm_compute; reflexivity. }
  destruct (block_layer_refines sample_fs sample_ops sample_fs_ok Hf) as [Hspec Hrun].
  destruct (Hrun 32) as (outs & fs' & E); try (vm_compute; intuition congruence).
  exists outs, fs'. split; [exact E|]. destruct (Hspec outs fs' E) as (_ & -> & _).
  vm_compute. reflexivity.
Defined.

Lemma abort_restores_witness :
  let fs := (write_block (begin sample_fs) 12 (replicate 1024 5)).2 in
  view fs 12 = replicate 1024 5 /\ view (abort fs) 12 = zeros 1024.
Proof.
  split; [vm_compute; reflexivity|].
  destruct (abort_restores sample_fs (write_block (begin sample_fs) 12 (replicate 1024 5)).2)
    as (_ & _ & _ & Hv);
    [vm_compute; reflexivity|vm_compute; reflexivity|split; vm_compute; reflexivity|apply rtc_once, step_write|].
  rewrite Hv. vm_compute. reflexivity.
Defined.
