(* ===== verification/Recovery.v ===== *)
(** Crash safety of the journal (src/journal.cc): what each phase of a commit
    leaves on the device when it is cut short, and what a mount makes of it.

    The device is arbitrary: any write may be refused, and a refused write may
    have reached any of its sectors.  [commit_phase] classifies what a commit
    can leave behind; [mount_*] run the recovery from each case. *)
From stdpp Require Import base numbers list list_numbers.
From Stdlib Require Import ZArith Lia Permutation Sorted.
From S2P Require Import Prelude.
From S2P Require Import Layout.
From S2P Require Import Device.
From S2P Require Import Volume.
From S2P Require Import BlockStore.
From S2P Require Import Samples.
From S2P Require Import Journal.

(** Positions in the circular log: fewer than [len] steps apart, they differ. *)
Lemma mod_step_ne p i j len :
  0 <= i < j -> j - i < len -> (p + i) mod len <> (p + j) mod len.
Proof.
  intros Hi Hj E. pose proof (Z.div_mod (p + i) len). pose proof (Z.div_mod (p + j) len).
  set (q1 := (p + i) / len) in *. set (q2 := (p + j) / len) in *.
  assert (j - i = len * (q2 - q1)) by lia.
  destruct (Z.le_gt_cases (q2 - q1) 0); nia.
Qed.

Lemma mod_succ p i len : 0 < len -> ((p + 1) mod len + i) mod len = (p + (i + 1)) mod len.
Proof. intros. rewrite Z.add_mod_idemp_l by lia. f_equal. lia. Qed.

Lemma with_cache_same v : with_cache v (cache_ v) = v.
Proof. now destruct v. Qed.

Section phases.
Context {D : Type} `{SectorDeviceLaws D}.
Context (v : Volume) (Hgeo : geometry_ok v).
Implicit Types fs : Fs D.

(** [fs] is [v] up to its cache. *)
Definition at_vol fs : Prop := exists c, vol fs = with_cache v c.

Lemma write_now_dev fs b data ok fs' :
  at_vol fs -> 0 <= b < num_blocks_ v -> bytes_ok data -> write_block_now fs b data = (ok, fs') ->
  at_vol fs' /\ jnl fs' = jnl fs /\ attached fs' = attached fs /\
  (forall c, 0 <= c -> c <> b -> disk_block v (dev fs') c = disk_block v (dev fs) c) /\
  (b <> 0 -> sector (dev fs') 1 = sector (dev fs) 1) /\
  (ok = true -> disk_block v (dev fs') b = slice data 0 (block_size v)).
Proof.
  intros [c Hv] Hb Hd. unfold write_block_now. simpl. rewrite Hv. simpl.
  destruct (write_ v); simpl.
  2:{ intros [= <- <-]. splits; auto; [eexists; reflexivity|discriminate]. }
  change (sectors_per_block (invalidate (with_cache v c))) with (sectors_per_block v).
  rewrite (sector_u64 v Hgeo) by lia.
  destruct (write_sectors _ _ _ _) as [ok' d'] eqn:Hw. intros [= <- <-].
  eapply (disk_write_spec v Hgeo) in Hw as (H1' & H2' & H3'); [|auto|lia].
  splits; simpl; auto. eexists; reflexivity.
Qed.

(** The log is a range of client blocks. *)
Context (lb len : Z) (Hlog : 1 <= lb /\ 1 <= len /\ lb + len <= num_blocks_ v).

Definition log_pos (p i : Z) : Z := lb + (p + i) mod len.

Lemma log_pos_range p i : lb <= log_pos p i < lb + len.
Proof. unfold log_pos. pose proof (Z.mod_pos_bound (p + i) len). lia. Qed.

Lemma write_log_spec es fs p ok p' fs' :
  at_vol fs -> 0 <= p < len -> zlen es <= len -> Forall (entry_ok v) es ->
  write_log fs lb len p es = (ok, p', fs') ->
  at_vol fs' /\ jnl fs' = jnl fs /\ attached fs' = attached fs /\
  (forall c, 0 <= c -> (forall i, 0 <= i < zlen es -> c <> log_pos p i) ->
     disk_block v (dev fs') c = disk_block v (dev fs) c) /\
  sector (dev fs') 1 = sector (dev fs) 1 /\
  (ok = true -> p' = (p + zlen es) mod len /\
     forall k e, es !! k = Some e -> disk_block v (dev fs') (log_pos p (Z.of_nat k)) = e.2).
Proof.
  revert fs p. induction es as [|[b data] es IH]; intros fs p Hv Hp Hl Hf Hw; simpl in Hw.
  - injection Hw as <- <- <-. splits; auto. intros _. split; [|intros k e Hk; discriminate].
    rewrite zlen_nil, Z.add_0_r, Z.mod_small; auto.
  - rewrite zlen_cons in *. apply Forall_cons in Hf as [(Hb & Hlen & Hok) Hf]. simpl in *.
    pose proof (zlen_nonneg es) as Hnn.
    assert (Hp0 : log_pos p 0 = lb + p)
      by (unfold log_pos; rewrite Z.add_0_r, Z.mod_small; lia).
    assert (Hpi : forall i, log_pos ((p + 1) mod len) i = log_pos p (i + 1))
      by (intros i; unfold log_pos; now rewrite mod_succ by lia).
    destruct (write_block_now fs (lb + p) data) as [ok1 fs1] eqn:E1.
    eapply write_now_dev in E1 as (W1 & W2 & W3 & W4 & W5 & W6); auto; [|lia].
    destruct ok1.
    + eapply IH in Hw as (R1 & R2 & R3 & R4 & R5 & R6);
        [|auto|apply Z.mod_pos_bound; lia|lia|auto].
      splits; auto; try congruence.
      * intros c Hc Hne. rewrite R4, W4; auto.
        -- rewrite <- Hp0. apply Hne. lia.
        -- intros i Hi. rewrite Hpi. apply Hne. lia.
      * rewrite R5, W5; [reflexivity|lia].
      * intros Hok1. destruct (R6 Hok1) as [-> R7]. split.
        { rewrite mod_succ by lia. f_equal. lia. }
        intros [|k] e Hk; simpl in Hk.
        -- injection Hk as <-. change (Z.of_nat 0) with 0. rewrite Hp0, R4; [|lia|].
           { rewrite W6 by auto. simpl. apply slice_all. lia. }
           intros i Hi. rewrite Hpi, <- Hp0. unfold log_pos.
           pose proof (mod_step_ne p 0 (i + 1) len). lia.
        -- rewrite Nat2Z.inj_succ, <- Z.add_1_r, <- Hpi. now apply R7.
    + injection Hw as <- <- <-. splits; auto; [| |discriminate].
      * intros c Hc Hne. apply W4; [auto|]. rewrite <- Hp0. apply Hne. lia.
      * apply W5. lia.
Qed.

Lemma write_home_spec es fs ok fs' :
  at_vol fs -> Forall (entry_ok v) es -> NoDup (map fst es) -> write_home fs es = (ok, fs') ->
  at_vol fs' /\ jnl fs' = jnl fs /\ attached fs' = attached fs /\
  (forall c, 0 <= c -> c ∉ map fst es -> disk_block v (dev fs') c = disk_block v (dev fs) c) /\
  sector (dev fs') 1 = sector (dev fs) 1 /\
  (ok = true -> forall e, e ∈ es -> disk_block v (dev fs') e.1 = e.2).
Proof.
  revert fs. induction es as [|[b data] es IH]; intros fs Hv Hf Hn Hw; simpl in Hw.
  - injection Hw as <- <-. splits; auto. intros _ e He. now apply elem_of_nil in He.
  - apply Forall_cons in Hf as [(Hb & Hlen & Hok) Hf].
    simpl in *. unfold client_block in Hb.
    destruct (write_block_now fs b data) as [ok1 fs1] eqn:E1.
    eapply write_now_dev in E1 as (W1 & W2 & W3 & W4 & W5 & W6); auto; [|lia].
    apply NoDup_cons in Hn as [Hnb Hn]. destruct ok1.
    + eapply IH in Hw as (R1 & R2 & R3 & R4 & R5 & R6); auto.
      splits; auto; try congruence.
      * intros c Hc [Hne Hnin]%not_elem_of_cons. now rewrite R4, W4.
      * rewrite R5, W5; [reflexivity|lia].
      * intros Hok1 e [->|He]%elem_of_cons; [|now apply R6]. simpl.
        rewrite R4, W6 by (auto; lia). apply slice_all. lia.
    + injection Hw as <- <-. splits; auto; [| |discriminate].
      * intros c Hc [Hne Hnin]%not_elem_of_cons. now apply W4.
      * apply W5. lia.
Qed.
End phases.

(** * A transaction ready to commit *)

(** [sb] is a superblock [open] accepts, describing [v]'s geometry. *)
Record super_describes (sb : bytes) (v : Volume) : Prop := {
  sd_len : zlen sb = kSuperblockBytes;
  sd_ok : bytes_ok sb;
  sd_magic1 : le32 sb superblock.kMagic1 = kMagic1;
  sd_magic2 : le32 sb superblock.kMagic2 = kMagic2;
  sd_magic3 : le32 sb superblock.kMagic3 = kMagic3;
  sd_order : le32 sb superblock.kByteOrder = kByteOrderLittleEndian;
  sd_block : le32 sb superblock.kBlockSize = block_size v;
  sd_shift : le32 sb superblock.kBlockShift = block_shift_ v;
  sd_inode : le32 sb superblock.kInodeSize = block_size v;
  sd_ag : le32 sb superblock.kAgShift = ag_shift_ v;
  sd_groups : le32 sb superblock.kNumAgs = num_ags_ v;
  sd_bitmap : le32 sb superblock.kBlocksPerAg = blocks_per_ag_ v;
  sd_blocks : le64 sb superblock.kNumBlocks = num_blocks_ v;
  sd_log : le_run sb superblock.kLog = log_ v;
}.

(** The log cursors and the flags are not part of that description. *)
Lemma super_describes_blit sb v a src :
  super_describes sb v -> bytes_ok src ->
  (superblock.kFlags <= a /\ a + zlen src <= superblock.kLog) \/
  (superblock.kLogStart <= a /\ a + zlen src <= superblock.kMagic3) ->
  super_describes (blit sb a src) v.
Proof.
  intros [] Hs Ha. split; rewrite ?zlen_blit; super_fields; auto with buf;
    [apply bytes_ok_blit; auto; lia|..];
    (etransitivity;
     [first [apply le32_blit_disj | apply le64_blit_disj | apply le_run_blit_disj]; lia|assumption]).
Qed.

(** Nor is the count of used blocks. *)
Lemma super_describes_used sb v used : super_describes sb v -> super_describes (put_le64 sb superblock.kUsedBlocks used) v.
Proof.
  intros []. unfold superblock.kUsedBlocks. rewrite put_le64_blit by lia. pose proof (zlen_le_split 8 used) as Hl.
  assert (Hs : bytes_ok (le_split 8 used)) by auto with buf.
  split; rewrite ?zlen_blit; super_fields; auto with buf;
    [apply bytes_ok_blit; auto; lia|..];
    (etransitivity;
     [first [apply le32_blit_disj | apply le64_blit_disj | apply le_run_blit_disj]; lia|assumption]).
Qed.

(** The log run: whole, inside the volume, past block 0. *)
Record log_ok (v : Volume) : Prop := {
  lo_run : run_ok (log_ v);
  lo_valid : validate_run v (log_ v) = true;
  lo_first : 1 <= to_block v (log_ v);
  lo_len : 2 <= log_length v;
}.

(** An open transaction on a clean, mounted volume: the block layer is
    consistent, both superblocks describe the volume, the log is empty, and no
    buffered block is one of the log's own. *)
Record txn_ready {D} `{SectorDevice D} (fs : Fs D) : Prop := {
  tr_geo : geometry_ok (vol fs);
  tr_write : write_ (vol fs) = true;
  tr_bitmap : 1 <= blocks_per_ag_ (vol fs);
  tr_log : log_ok (vol fs);
  tr_attached : attached fs = true;
  tr_active : active_ (jnl fs) = true;
  tr_journal : journal_ok (vol fs) (jnl fs);
  tr_outside : Forall (fun e => ~ in_run (vol fs) (log_ (vol fs)) e.1) (entries_ (jnl fs));
  tr_cursor : log_start_ (vol fs) = log_end_ (vol fs) /\ 0 <= log_end_ (vol fs) < log_length (vol fs);
  tr_memory : super_describes (superblock_ (vol fs)) (vol fs) /\
    le64 (superblock_ (vol fs)) superblock.kLogStart = log_start_ (vol fs);
  tr_disk : super_describes (sector (dev fs) 1) (vol fs) /\
    le64 (sector (dev fs) 1) superblock.kLogStart = le64 (sector (dev fs) 1) superblock.kLogEnd;
}.

(** A block whose contents a transaction protects: not the superblock's, and
    not the log's. *)
Definition home_block (v : Volume) (b : Z) : Prop :=
  client_block v b /\ ~ in_run v (log_ v) b.

Lemma log_range v : geometry_ok v -> log_ok v ->
  1 <= to_block v (log_ v) /\ 1 <= log_length v /\
  to_block v (log_ v) + log_length v <= num_blocks_ v.
Proof.
  intros Hg [Hr Hv Hf Hl]. pose proof (validate_run_true v Hg _ Hr Hv) as (_ & _ & H & _).
  unfold log_length in *. lia.
Qed.

Section commit.
Context {D : Type} `{SectorDeviceLaws D}.
Context (fs0 : Fs D) (Hready : txn_ready fs0).

Local Notation v := (vol fs0).
Local Notation es := (entries_ (jnl fs0)).
Local Notation lb := (to_block v (log_ v)).
Local Notation len := (log_length v).
Local Notation p0 := (log_end_ v).
Local Notation sorted := (ordered v es).
Local Notation position := ((p0 + (zlen es + 1)) mod len).

(** The superblock the commit point writes, and the one the retire writes. *)
Definition super_dirty : bytes :=
  put_le32 (put_le64 (superblock_ v) superblock.kLogEnd position) superblock.kFlags kDirty.
Definition super_retired : bytes :=
  put_le32 (put_le64 super_dirty superblock.kLogStart position) superblock.kFlags kClean.

(** Nothing of the transaction is visible. *)
Definition phase_old (d : D) : Prop :=
  sector d 1 = sector (dev fs0) 1 /\
  forall b, home_block v b -> disk_block v d b = disk_block v (dev fs0) b.

(** The log's entry: the run array, then one image per run. *)
Definition log_written (d : D) : Prop :=
  disk_block v d (log_pos lb len p0 0) = build_array v (block_size v) sorted /\
  (forall k e, sorted !! k = Some e -> disk_block v d (log_pos lb len p0 (Z.of_nat k + 1)) = e.2).

(** The log holds the transaction; its blocks may be anything at home. *)
Definition phase_logged (d : D) : Prop :=
  sector d 1 = super_dirty /\
  (forall b, home_block v b -> b ∉ map fst es -> disk_block v d b = disk_block v (dev fs0) b) /\
  log_written d.

(** Everything is home and the log is retired. *)
Definition phase_done (d : D) : Prop :=
  sector d 1 = super_retired /\ forall b, home_block v b -> disk_block v d b = view fs0 b.

Lemma sorted_entries : Permutation sorted es /\ Forall (entry_ok v) sorted /\ zlen sorted = zlen es.
Proof.
  pose proof (ordered_perm v es) as Hp. split; [exact Hp|]. split.
  - rewrite Hp. apply (jok_entries _ _ (tr_journal _ Hready)).
  - unfold zlen. now rewrite (Permutation_length Hp).
Qed.

Lemma view_home b :
  view fs0 b = match peek (jnl fs0) b with Some x => x | None => disk_block v (dev fs0) b end.
Proof. unfold view. now rewrite (tr_attached _ Hready). Qed.

Lemma view_entry e : e ∈ es -> view fs0 e.1 = e.2.
Proof.
  intros He. rewrite view_home. destruct (tr_journal _ Hready) as [Hs Hf Hn _ _].
  unfold peek. rewrite Hs. clear Hs.
  pose proof (proj1 (Forall_forall _ _) Hf) as Hf'. clear Hf.
  revert Hn Hf'. induction He as [[b x] l|e' [b x] l He IH]; simpl; intros Hn Hf'.
  - rewrite Z.eqb_refl. apply slice_all. specialize (Hf' (b, x) (list_elem_of_here _ _)).
    destruct Hf' as (_ & Hl & _). simpl in Hl. symmetry. exact Hl.
  - apply NoDup_cons in Hn as [Hb Hn]. destruct (Z.eqb_spec b e'.1) as [->|].
    + exfalso. apply Hb. apply list_elem_of_In, in_map, list_elem_of_In, He.
    + apply IH; [assumption|]. intros y Hy. apply Hf'. now right.
Qed.

Lemma view_other b : b ∉ map fst es -> view fs0 b = disk_block v (dev fs0) b.
Proof.
  intros Hb. rewrite view_home. unfold peek.
  now rewrite (proj2 (peek_entries_None _ _ _) Hb).
Qed.

Lemma home_not_log b p i : home_block v b -> b <> log_pos lb len p i.
Proof.
  intros [_ Hn]. unfold in_run in Hn.
  pose proof (log_range v (tr_geo _ Hready) (tr_log _ Hready)) as Hlog.
  pose proof (log_pos_range v lb len Hlog p i). unfold log_length in *. lia.
Qed.

(** The log phase: array and data go to the log, homes and superblock stay. *)
Lemma log_phase fs fsB fsC ok1 ok2 p' :
  at_vol v fs -> dev fs = dev fs0 -> zlen es + 1 <= len -> zlen es <= 126 ->
  write_block_now fs (lb + p0) (build_array v (block_size v) sorted) = (ok1, fsB) ->
  phase_old (dev fsB) /\ at_vol v fsB /\
  (ok1 = true -> write_log fsB lb len ((p0 + 1) mod len) sorted = (ok2, p', fsC) ->
   phase_old (dev fsC) /\ at_vol v fsC /\
   (ok2 = true -> p' = position /\ log_written (dev fsC))).
Proof.
  intros Hv Hd Hfit Hcap Hw1. pose proof (tr_geo _ Hready) as Hgeo.
  pose proof (log_range v Hgeo (tr_log _ Hready)) as Hlog.
  pose proof (tr_cursor _ Hready) as [_ Hcur]. pose proof (zlen_nonneg es).
  destruct sorted_entries as (_ & Hse & Hsl).
  destruct (build_array_spec v Hgeo sorted) as (Ha1 & Ha2 & _); [|lia|].
  { eapply Forall_impl; [exact Hse|]. now intros e []. }
  assert (Hp0 : log_pos lb len p0 0 = lb + p0)
    by (unfold log_pos; rewrite Z.add_0_r, Z.mod_small; lia).
  eapply (write_now_dev v Hgeo) in Hw1 as (W1 & _ & _ & W4 & W5 & W6); auto; [|lia].
  assert (HoldB : phase_old (dev fsB)).
  { split; [rewrite W5, Hd by lia; reflexivity|]. intros b Hb. rewrite W4, Hd; auto.
    - destruct Hb as [Hb _]. unfold client_block in Hb. lia.
    - rewrite <- Hp0. now apply home_not_log. }
  splits; auto. intros Hok1 Hw2.
  eapply (write_log_spec v Hgeo lb len Hlog) in Hw2 as (R1 & _ & _ & R4 & R5 & R6);
    [|auto|apply Z.mod_pos_bound; lia|lia|auto].
  assert (Hpi : forall i, log_pos lb len ((p0 + 1) mod len) i = log_pos lb len p0 (i + 1))
    by (intros i; unfold log_pos; now rewrite mod_succ by lia).
  splits; auto.
  - destruct HoldB as [Ho1 Ho2]. split; [now rewrite R5|]. intros b Hb. rewrite R4; auto.
    + destruct Hb as [Hb _]. unfold client_block in Hb. lia.
    + intros i Hi. now apply home_not_log.
  - intros Hok2. destruct (R6 Hok2) as [-> R7]. split.
    + rewrite mod_succ, Hsl by lia. reflexivity.
    + split.
      * rewrite R4; [rewrite Hp0, W6, slice_all by auto; reflexivity|rewrite Hp0; lia|].
        intros i Hi. rewrite Hpi. unfold log_pos.
        pose proof (mod_step_ne p0 0 (i + 1) len). lia.
      * intros k e Hk. rewrite <- Hpi. now apply R7.
Qed.

(** The checkpoint leaves the log and the superblock alone. *)
Lemma home_phase fs ok fs' :
  at_vol (vol fs) fs -> same_geometry v (vol fs) -> phase_logged (dev fs) ->
  write_home fs es = (ok, fs') ->
  at_vol (vol fs) fs' /\ phase_logged (dev fs') /\
  (ok = true -> forall b, home_block v b -> disk_block v (dev fs') b = view fs0 b).
Proof.
  intros Hv Hsg (L1 & L2 & L3 & L4) Hw. pose proof (tr_geo _ Hready) as Hgeo.
  pose proof (log_range v Hgeo (tr_log _ Hready)) as Hlog.
  destruct (tr_journal _ Hready) as [_ Hf Hn _ _].
  assert (Hdb : forall d b, disk_block (vol fs) d b = disk_block v d b).
  { intros d b. unfold disk_block, sectors_per_block. now rewrite <- (block_size_proper _ _ Hsg). }
  assert (Hgeo' : geometry_ok (vol fs)) by now rewrite <- Hsg.
  eapply (write_home_spec (vol fs)) in Hw as (R1 & R2 & R3 & R4 & R5 & R6); auto.
  2:{ eapply Forall_impl; [exact Hf|]. intros e (E1 & E2 & E3). unfold entry_ok, client_block.
      rewrite <- (block_size_proper _ _ Hsg). destruct Hsg as (_ & _ & _ & <- & _). auto. }
  assert (Hlogpos : forall p i, disk_block v (dev fs') (log_pos lb len p i) =
                                disk_block v (dev fs) (log_pos lb len p i)).
  { intros p i. pose proof (log_pos_range v lb len Hlog p i).
    rewrite <- !Hdb. apply R4; [lia|]. intros Hin.
    apply list_elem_of_In, in_map_iff in Hin as (e & He & Hin).
    pose proof (tr_outside _ Hready) as Ho. rewrite Forall_forall in Ho.
    apply (Ho e); [now apply list_elem_of_In|]. unfold in_run. rewrite He.
    unfold log_length in *. lia. }
  splits; auto.
  - split; [now rewrite R5|]. split.
    + intros b Hb Hnin. rewrite <- L2, <- !Hdb by auto. apply R4; [|auto].
      destruct Hb as [Hb _]. unfold client_block in Hb. lia.
    + split; [now rewrite Hlogpos|]. intros k e Hk. rewrite Hlogpos. now apply L4.
  - intros Hok b Hb. destruct (decide (b ∈ map fst es)) as [Hin|Hnin].
    + apply list_elem_of_In, in_map_iff in Hin as (e & <- & Hin%list_elem_of_In).
      now rewrite <- Hdb, R6, view_entry by auto.
    + rewrite view_other, <- L2, <- !Hdb by auto. apply R4; [|auto].
      destruct Hb as [Hb _]. unfold client_block in Hb. lia.
Qed.

(** The superblock images a commit writes are whole sectors. *)
Lemma super_images :
  zlen super_dirty = kSectorBytes /\ bytes_ok super_dirty /\
  zlen super_retired = kSectorBytes /\ bytes_ok super_retired.
Proof.
  destruct (tr_memory _ Hready) as [[Hl Hb] _].
  unfold super_retired, super_dirty. autorewrite with buf.
  splits; auto; repeat first [apply bytes_ok_put32 | apply bytes_ok_put64]; auto;
    unfold superblock.kLogEnd, superblock.kLogStart, superblock.kFlags; lia.
Qed.

(** What one write of the superblock leaves. *)
Lemma super_phase fs ok fs' sb :
  write_ (vol fs) = true -> superblock_ (vol fs) = sb -> zlen sb = kSectorBytes -> bytes_ok sb ->
  write_superblock_now fs = (ok, fs') ->
  vol fs' = vol fs /\ jnl fs' = jnl fs /\ attached fs' = attached fs /\
  (forall b, 1 <= b -> disk_block v (dev fs') b = disk_block v (dev fs) b) /\
  (sector (dev fs') 1 = sector (dev fs) 1 \/ sector (dev fs') 1 = sb) /\
  (ok = true -> sector (dev fs') 1 = sb).
Proof.
  intros Hw Hs Hl Hb. unfold write_superblock_now. rewrite Hw, Hs. simpl.
  destruct (write_sectors _ _ _ _) as [ok' d'] eqn:E. intros [= <- <-].
  eapply (superblock_write_spec v (tr_geo _ Hready)) in E as (H1' & H2' & H3'); auto.
  rewrite slice_all in H2', H3' by auto. splits; simpl; auto.
Qed.

(** The checkpoint and the retire, from the commit point on. *)
Lemma finish_phase fs ok fs' :
  same_geometry v (vol fs) -> superblock_ (vol fs) = super_dirty -> phase_logged (dev fs) ->
  (let '(ok, fs) := write_home fs es in
   if negb ok then refuse_commit fs
   else write_superblock_now
          (with_jnl (retire fs position)
             (with_entries (with_flags (jnl (retire fs position)) false false false) []))) = (ok, fs') ->
  (phase_logged (dev fs') \/ phase_done (dev fs')) /\ (ok = true -> phase_done (dev fs')).
Proof.
  intros Hsg Hsb HL. destruct (write_home fs es) as [okh fsh] eqn:Eh.
  eapply home_phase in Eh as ([c Hvh] & HL' & Hdone); auto.
  2:{ exists (cache_ (vol fs)). symmetry. apply with_cache_same. }
  destruct okh; simpl; [|intros [= <- <-]; simpl; split; [auto|discriminate]].
  intros Hw. destruct super_images as (_ & _ & R1 & R2).
  eapply (super_phase _ _ _ super_retired) in Hw as (_ & _ & _ & W4 & W5 & W6); auto.
  2:{ simpl. rewrite Hvh. simpl. destruct Hsg as (_ & _ & _ & _ & _ & _ & <- & _). apply Hready. }
  2:{ simpl. rewrite Hvh. simpl. rewrite Hsb. reflexivity. }
  simpl in *.
  assert (Hhome : forall b, home_block v b -> disk_block v (dev fs') b = disk_block v (dev fsh) b).
  { intros b [Hb _]. apply W4. apply Hb. }
  assert (HD : sector (dev fs') 1 = super_retired -> phase_done (dev fs')).
  { intros E. split; [exact E|]. intros b Hb. rewrite Hhome by auto. now apply Hdone. }
  split; [|auto]. destruct W5 as [E|E]; [left|right; auto].
  destruct HL' as (L1 & L2 & L3 & L4). pose proof (log_range v (tr_geo _ Hready) (tr_log _ Hready)) as Hlog.
  assert (Hlp : forall i, 1 <= log_pos lb len p0 i).
  { intros i. pose proof (log_pos_range v lb len Hlog p0 i). lia. }
  split; [congruence|split; [|split]].
  - intros b Hb Hn. rewrite Hhome by auto. now apply L2.
  - rewrite W4 by apply Hlp. exact L3.
  - intros k e Hk. rewrite W4 by apply Hlp. now apply L4.
Qed.

(** Wherever a commit stops, the device is in one of three states. *)
Lemma commit_phase ok fs' :
  es <> [] -> commit fs0 = (ok, fs') ->
  (phase_old (dev fs') \/ phase_logged (dev fs') \/ phase_done (dev fs')) /\
  (ok = true -> phase_done (dev fs')).
Proof.
  intros Hne Hc. unfold commit in Hc. rewrite (tr_active _ Hready) in Hc. simpl in Hc.
  pose proof (tr_journal _ Hready) as Hj. rewrite (jok_size _ _ Hj) in Hc.
  rewrite (max_runs_127 _ (tr_geo _ Hready)) in Hc. change (u32 (127 - 1)) with 126 in Hc.
  assert (Hrefl : phase_old (dev fs0)) by (split; auto).
  pose proof (zlen_nonneg es) as Hnn.
  destruct (Z.eqb_spec (zlen es) 0) as [E0|_].
  { destruct es; [congruence|]. rewrite zlen_cons in E0. pose proof (zlen_nonneg l). lia. }
  assert (Hfree : free_blocks v = len).
  { unfold free_blocks. pose proof (tr_cursor _ Hready) as [-> _].
    pose proof (lo_run _ (tr_log _ Hready)) as (_ & _ & Hl). fold (log_length v) in Hl.
    replace (p0 + len - p0) with len by lia. rewrite u64_small by lia.
    pose proof (lo_len _ (tr_log _ Hready)). rewrite Z.mod_same by lia. lia. }
  rewrite Hfree in Hc. clear Hfree.
  destruct (_ || _) eqn:Hfit.
  { injection Hc as <- <-. simpl. split; [auto|discriminate]. }
  breflect. set (fsA := with_jnl fs0 _) in Hc.
  assert (HvA : at_vol v fsA) by (exists (cache_ v); symmetry; apply with_cache_same).
  destruct (write_block_now fsA _ _) as [ok1 fsB] eqn:E1.
  destruct (log_phase fsA fsB fsB ok1 true 0) as (OB & VB & _); auto; try lia.
  destruct ok1; simpl in Hc; [|injection Hc as <- <-; split; [auto|discriminate]].
  destruct (write_log _ _ _ _ _) as [[ok2 p'] fsC] eqn:E2.
  destruct (log_phase fsA fsB fsC true ok2 p') as (_ & _ & HC); auto; try lia.
  destruct (HC eq_refl E2) as (OC & [cC VC] & HLW). clear HC.
  destruct ok2; simpl in Hc; [|injection Hc as <- <-; split; [auto|discriminate]].
  destruct (HLW eq_refl) as [-> HW]. clear HLW.
  destruct (write_superblock_now _) as [ok3 fsD] eqn:E3.
  destruct super_images as (R1 & R2 & _).
  eapply (super_phase _ _ _ super_dirty) in E3 as (V1 & V2 & V3 & W4 & W5 & W6); auto.
  2:{ simpl. rewrite VC. apply Hready. }
  2:{ simpl. rewrite VC. reflexivity. }
  simpl in *. rewrite VC in V1. simpl in V1.
  pose proof (log_range v (tr_geo _ Hready) (tr_log _ Hready)) as Hlog.
  assert (Hlp : forall i, 1 <= log_pos lb len p0 i).
  { intros i. pose proof (log_pos_range v lb len Hlog p0 i). lia. }
  assert (HL : sector (dev fsD) 1 = super_dirty -> phase_logged (dev fsD)).
  { intros E. destruct HW as [HW1 HW2], OC as [O1 O2]. split; [auto|split; [|split]].
    - intros b Hb _. rewrite W4 by apply Hb. now apply O2.
    - rewrite W4 by apply Hlp. exact HW1.
    - intros k e Hk. rewrite W4 by apply Hlp. now apply HW2. }
  destruct ok3; simpl in Hc.
  2:{ injection Hc as <- <-. simpl. split; [|discriminate].
      destruct W5 as [E|E]; [left|auto]. destruct OC as [O1 O2]. split; [congruence|].
      intros b Hb. rewrite W4 by apply Hb. now apply O2. }
  eapply finish_phase in Hc as [Hp Hd]; [tauto|..]; simpl; rewrite ?V1; auto.
  unfold same_geometry; simpl; tauto.
Qed.
End commit.

(** * Mounting *)

(** The volume [open] makes of a superblock that describes [v]. *)
Definition opened (v : Volume) (sb : bytes) : Volume :=
  mkVolume true false (block_shift_ v) 0 (ag_shift_ v) (num_ags_ v) (blocks_per_ag_ v)
    (num_blocks_ v) (le64 sb superblock.kUsedBlocks) (le_run sb superblock.kRootDir)
    (le_run sb superblock.kIndices) (log_ v) (le64 sb superblock.kLogStart)
    (le64 sb superblock.kLogEnd) true (slice sb 0 32) sb fresh_cache.

Lemma opened_geometry v sb : geometry_ok v -> geometry_ok (opened v sb).
Proof. intros []. now split. Qed.

Lemma superblock_checks v sb :
  geometry_ok v -> 1 <= blocks_per_ag_ v -> super_describes sb v ->
  (shl1_u32 (block_shift_ v) = block_size v) /\
  Z.shiftr (u64 (num_blocks_ v + Z.shiftl 1 (ag_shift_ v) - 1)) (ag_shift_ v) = num_ags_ v /\
  1 <= num_ags_ v.
Proof.
  intros Hg Hb Hsd. pose proof (geo_block v Hg). pose proof (geo_ag v Hg).
  pose proof (span_pos v Hg). pose proof (num_blocks_u48 v Hg). pose proof (geo_blocks v Hg).
  splits.
  - unfold shl1_u32. rewrite (proj2 (Z.ltb_lt _ _)) by lia. reflexivity.
  - rewrite Z.shiftl_1_l, u64_small by lia. rewrite Z.shiftr_div_pow2 by lia.
    symmetry. apply (geo_groups v Hg).
  - rewrite (geo_groups v Hg). apply Z.div_le_lower_bound; lia.
Qed.

Section mounting.
Context {D : Type} `{SectorDeviceLaws D} `{!PoweredDevice D}.
Context (v : Volume) (Hgeo : geometry_ok v) (Hbitmap : 1 <= blocks_per_ag_ v) (Hlogok : log_ok v).
Context (cap : Z) (Hcap : num_blocks_ v * sectors_per_block v <= cap).
Implicit Types (d : D) (fs : Fs D).

Lemma open_described d out :
  read_sectors d 1 1 = Some out -> super_describes (sector d 1) v ->
  open new_volume d true = (true, opened v (sector d 1)).
Proof.
  intros Hr Hsd. pose proof (geo_blocks v Hgeo). pose proof (block_sectors v Hgeo).
  unfold open. rewrite Hr. apply read_view in Hr; [|lia|lia]. subst out.
  assert (Hs1 : sectors d 1 1 = sector d 1) by (unfold sectors; simpl; apply app_nil_r).
  rewrite Hs1. clear Hs1. pose proof (superblock_checks v _ Hgeo Hbitmap Hsd) as (C1 & C2 & C3).
  destruct Hsd. rewrite sd_magic4, sd_magic5, sd_magic6, sd_order0, sd_block0, sd_shift0,
    sd_inode0, sd_ag0, sd_groups0, sd_bitmap0, sd_blocks0, sd_log0, C1, C2.
  rewrite !Z.eqb_refl. simpl. pose proof (geo_ag v Hgeo).
  destruct (block_size_cases v Hgeo) as [E|[E|[E|E]]]; rewrite E; simpl;
    (destruct (_ || _) eqn:Ho; [exfalso; repeat (apply orb_true_iff in Ho as [Ho|Ho]);
      apply Z.ltb_lt in Ho; lia|]); unfold opened; rewrite (slice_all _ kSuperblockBytes) by auto;
    reflexivity.
Qed.

(** On a working device a block reads and writes. *)
Lemma powered_read_now fs b :
  at_vol v fs -> powered (dev fs) cap -> 0 <= b < num_blocks_ v ->
  read_block_now fs b = Some (disk_block v (dev fs) b).
Proof.
  intros [c Hv] Hp Hb. pose proof (block_sectors v Hgeo) as [_ Hs].
  unfold read_block_now. rewrite Hv.
  change (sectors_per_block (with_cache v c)) with (sectors_per_block v).
  rewrite (sector_u64 v Hgeo b Hb).
  destruct (powered_read (dev fs) cap (b * sectors_per_block v) (sectors_per_block v))
    as [out Hr]; [auto|nia|lia|nia|].
  rewrite Hr. apply read_view in Hr; [|nia|lia]. now subst.
Qed.

Lemma powered_write_now fs b data :
  at_vol v fs -> write_ v = true -> powered (dev fs) cap -> 0 <= b < num_blocks_ v ->
  exists fs', write_block_now fs b data = (true, fs') /\ powered (dev fs') cap.
Proof.
  intros [c Hv] Hwr Hp Hb. pose proof (block_sectors v Hgeo) as [_ Hs].
  unfold write_block_now. simpl. rewrite Hv. simpl. rewrite Hwr. simpl.
  change (sectors_per_block (invalidate (with_cache v c))) with (sectors_per_block v).
  rewrite (sector_u64 v Hgeo b Hb).
  destruct (powered_write (dev fs) cap (b * sectors_per_block v) data (sectors_per_block v))
    as (d' & Hw & Hp'); [auto|nia|lia|nia|].
  rewrite Hw. eexists. split; [reflexivity|exact Hp'].
Qed.

Local Notation lb := (to_block v (log_ v)).
Local Notation len := (log_length v).

(** An entry that belongs outside the log. *)
Definition home_entry (e : Z * bytes) : Prop := entry_ok v e /\ ~ in_run v (log_ v) e.1.

Lemma home_entry_ne e p i : home_entry e -> log_pos lb len p i <> e.1.
Proof.
  intros [_ Hn] E. apply Hn. unfold in_run. rewrite <- E.
  pose proof (log_pos_range v lb len (log_range v Hgeo Hlogok) p i). unfold log_length in *. lia.
Qed.

Lemma read_now_any fs b data :
  at_vol v fs -> 0 <= b < num_blocks_ v -> read_block_now fs b = Some data ->
  data = disk_block v (dev fs) b.
Proof.
  intros [c Hv] Hb Hr.
  apply (read_now_view (with_cache v c)) in Hr; [exact Hr|destruct Hgeo; now split|exact Hv|exact Hb].
Qed.

(** The array's runs from [i] on name the homes of [es]. *)
Definition targets (array : bytes) (i : Z) (es : list (Z * bytes)) : Prop :=
  forall k e, es !! k = Some e ->
    le_run array (run_array.kRuns + (i + Z.of_nat k) * 8) = to_run v e.1.

(** The log from position [p] on holds the images of [es]. *)
Definition logged (d : D) (p : Z) (es : list (Z * bytes)) : Prop :=
  forall k e, es !! k = Some e -> disk_block v d (log_pos lb len p (Z.of_nat k)) = e.2.

Lemma targets_cons array i e es :
  targets array i (e :: es) ->
  le_run array (run_array.kRuns + i * 8) = to_run v e.1 /\ targets array (i + 1) es.
Proof.
  intros Ht. split.
  - specialize (Ht O e eq_refl). now rewrite Z.add_0_r in Ht.
  - intros k x Hk. replace (i + 1 + Z.of_nat k) with (i + Z.of_nat (S k)) by lia. now apply Ht.
Qed.

Lemma logged_cons d p e es :
  0 <= p < len -> logged d p (e :: es) ->
  disk_block v d (lb + p) = e.2 /\ logged d ((p + 1) mod len) es.
Proof.
  intros Hp Hl. split.
  - specialize (Hl O e eq_refl). unfold log_pos in Hl. now rewrite Z.add_0_r, Z.mod_small in Hl.
  - intros k x Hk. rewrite <- (Hl (S k) x Hk). unfold log_pos. rewrite mod_succ by lia.
    do 3 f_equal. lia.
Qed.

(** Whatever the device does, the copy touches the entries' homes only. *)
Lemma replay_copy_spec es fs array i p ok p' fs' :
  at_vol v fs -> 0 <= p < len -> Forall home_entry es -> NoDup (map fst es) ->
  targets array i es -> logged (dev fs) p es ->
  replay_copy fs lb len array i (length es) p = (ok, p', fs') ->
  at_vol v fs' /\ sector (dev fs') 1 = sector (dev fs) 1 /\
  (forall c, 0 <= c -> c ∉ map fst es -> disk_block v (dev fs') c = disk_block v (dev fs) c) /\
  (ok = true -> p' = (p + zlen es) mod len /\
     forall e, e ∈ es -> disk_block v (dev fs') e.1 = e.2).
Proof.
  pose proof (log_range v Hgeo Hlogok) as Hlog.
  revert fs i p. induction es as [|[b data] es IH]; intros fs i p Hv Hp Hf Hn Ht Hl; simpl.
  - intros [= <- <- <-]. splits; auto. intros _. split.
    { rewrite zlen_nil, Z.add_0_r, Z.mod_small; lia. }
    intros e He. now apply elem_of_nil in He.
  - pose proof Hf as [Hhe _]%Forall_cons.
    apply Forall_cons in Hf as [[(Hb & Hlen & Hok) Hout] Hf]. simpl in Hb, Hlen, Hok, Hout.
    unfold client_block in Hb. apply NoDup_cons in Hn as [Hnb Hn].
    apply targets_cons in Ht as [Hr0 Ht]. apply logged_cons in Hl as [Hd0 Hl]; [|auto].
    simpl in Hr0, Hd0. rewrite Hr0.
    destruct (read_block_now fs (lb + p)) as [x|] eqn:Hr.
    2:{ intros [= <- <- <-]. splits; auto. discriminate. }
    apply read_now_any in Hr; [|auto|lia]. rewrite Hd0 in Hr. subst x.
    replace (to_block (vol fs) (to_run v b)) with b.
    2:{ destruct Hv as [c ->]. symmetry. apply (to_block_to_run v Hgeo). lia. }
    destruct (write_block_now fs b data) as [ok1 fs1] eqn:E1.
    eapply (write_now_dev v Hgeo) in E1 as (W1 & _ & _ & W4 & W5 & W6); auto; [|lia].
    destruct ok1.
    + intros HR. eapply IH in HR as (R1 & R2 & R3 & R4); auto; [|apply Z.mod_pos_bound; lia|].
      2:{ intros k e Hk. rewrite W4; [now apply Hl| |].
          - pose proof (log_pos_range v lb len Hlog ((p + 1) mod len) (Z.of_nat k)). lia.
          - now apply (home_entry_ne (b, data)). }
      splits; auto.
      * rewrite R2, W5; [reflexivity|lia].
      * intros c Hc [Hcb Hcn]%not_elem_of_cons. now rewrite R3, W4.
      * intros ->. destruct R4 as [-> R5]; [auto|]. rewrite mod_succ, zlen_cons by lia.
        split; [f_equal; lia|]. intros e [->|He]%elem_of_cons; [|auto]. simpl.
        rewrite R3, W6 by (auto; lia). apply slice_all. auto.
    + intros [= <- <- <-]. splits; auto; [|intros c Hc [Hcb Hcn]%not_elem_of_cons; now apply W4|discriminate].
      apply W5. lia.
Qed.

(** On a working device it completes. *)
Lemma replay_copy_powered es fs array i p :
  at_vol v fs -> write_ v = true -> powered (dev fs) cap -> 0 <= p < len ->
  Forall home_entry es -> targets array i es ->
  exists p' fs', replay_copy fs lb len array i (length es) p = (true, p', fs') /\
    powered (dev fs') cap.
Proof.
  pose proof (log_range v Hgeo Hlogok) as Hlog.
  revert fs i p. induction es as [|[b data] es IH]; intros fs i p Hv Hw Hp Hpos Hf Ht; simpl; [eauto|].
  apply Forall_cons in Hf as [[(Hb & _) _] Hf]. simpl in Hb. unfold client_block in Hb.
  apply targets_cons in Ht as [Hr0 Ht]. simpl in Hr0.
  rewrite powered_read_now, Hr0 by (auto; lia).
  replace (to_block (vol fs) (to_run v b)) with b.
  2:{ destruct Hv as [c ->]. symmetry. apply (to_block_to_run v Hgeo). lia. }
  destruct (powered_write_now fs b (disk_block v (dev fs) (lb + p))) as (fs1 & E1 & Hp1); auto; [lia|].
  rewrite E1. eapply (write_now_dev v Hgeo) in E1 as (W1 & _); auto; [|lia|now apply disk_block_bytes_ok].
  apply IH; auto. apply Z.mod_pos_bound. lia.
Qed.
End mounting.

Section recover.
Context {D : Type} `{SectorDeviceLaws D} `{!PoweredDevice D}.
Context (fs0 : Fs D) (Hready : txn_ready fs0).
Context (cap : Z) (Hcap : num_blocks_ (vol fs0) * sectors_per_block (vol fs0) <= cap).

Local Notation v := (vol fs0).
Local Notation es := (entries_ (jnl fs0)).
Local Notation lb := (to_block v (log_ v)).
Local Notation len := (log_length v).
Local Notation p0 := (log_end_ v).
Local Notation sorted := (ordered v es).
Local Notation position := ((p0 + (zlen es + 1)) mod len).

Lemma position_u64 : u64 position = position.
Proof.
  pose proof (lo_run _ (tr_log _ Hready)) as (_ & _ & Hl). fold (log_length v) in Hl.
  pose proof (lo_len _ (tr_log _ Hready)).
  pose proof (Z.mod_pos_bound (p0 + (zlen es + 1)) len). apply u64_small. lia.
Qed.

(** The superblocks a commit writes describe the volume, and their cursors. *)
Lemma super_dirty_fields :
  super_describes (super_dirty fs0) v /\
  le64 (super_dirty fs0) superblock.kLogStart = p0 /\
  le64 (super_dirty fs0) superblock.kLogEnd = position.
Proof.
  destruct (tr_memory _ Hready) as [Hsd Hst]. pose proof (sd_len _ _ Hsd) as Hl.
  pose proof (tr_cursor _ Hready) as [Hc _]. pose proof position_u64.
  unfold super_dirty, kSuperblockBytes in *. super_fields. splits.
  - autorewrite with put. repeat apply super_describes_blit; auto with buf; super_fields;
      rewrite zlen_le_split; lia.
  - autorewrite with put. rewrite !le64_blit_disj by (rewrite ?zlen_le_split; lia). congruence.
  - rewrite (put_le32_blit _ 84) by lia.
    rewrite le64_blit_disj by (rewrite ?zlen_le_split; lia). rewrite le64_put by lia. auto.
Qed.

Lemma super_retired_fields :
  super_describes (super_retired fs0) v /\
  le64 (super_retired fs0) superblock.kLogStart = position /\
  le64 (super_retired fs0) superblock.kLogEnd = position.
Proof.
  destruct super_dirty_fields as (Hsd & _ & He). pose proof (sd_len _ _ Hsd) as Hl.
  pose proof position_u64. unfold super_retired, kSuperblockBytes in *. super_fields. splits.
  - autorewrite with put. repeat apply super_describes_blit; auto with buf; super_fields;
      rewrite zlen_le_split; lia.
  - rewrite (put_le32_blit _ 84) by lia.
    rewrite le64_blit_disj by (rewrite ?zlen_le_split; lia). rewrite le64_put by lia. auto.
  - autorewrite with put. rewrite !le64_blit_disj by (rewrite ?zlen_le_split; lia). exact He.
Qed.

#[local] Opaque super_dirty.

(** A mount of a described volume: the superblock cannot be read, or the
    journal opens and replays. *)
Definition opened_fs (d : D) : Fs D :=
  mkFs d (opened v (sector d 1)) (mkJournal true (block_size v) false false false [] []) true.

Lemma mount_read (d : D) out :
  read_sectors d 1 1 = Some out -> super_describes (sector d 1) v -> mount d = replay (opened_fs d).
Proof.
  intros Hr Hsd. unfold mount.
  rewrite (open_described v (tr_geo _ Hready) (tr_bitmap _ Hready) d out Hr Hsd). simpl.
  unfold journal_open. simpl. change (block_size (opened v (sector d 1))) with (block_size v).
  change (log_length (opened v (sector d 1))) with len.
  pose proof (lo_len _ (tr_log _ Hready)). rewrite (proj2 (Z.ltb_ge _ _)) by lia.
  destruct (block_size_cases v (tr_geo _ Hready)) as [E|[E|[E|E]]]; unfold opened_fs; rewrite E; reflexivity.
Qed.

Lemma mount_opened (d : D) :
  powered d cap -> super_describes (sector d 1) v -> mount d = replay (opened_fs d).
Proof.
  intros Hp Hsd. pose proof (geo_blocks v (tr_geo _ Hready)).
  pose proof (block_sectors v (tr_geo _ Hready)).
  destruct (powered_read d cap 1 1) as [out Hr]; [auto|lia|lia|nia|]. apply (mount_read d out); auto.
Qed.

Lemma mount_clean (d : D) :
  powered d cap -> super_describes (sector d 1) v ->
  le64 (sector d 1) superblock.kLogStart = le64 (sector d 1) superblock.kLogEnd ->
  exists fs2, mount d = (true, fs2) /\ dev fs2 = d /\ vol fs2 = opened v (sector d 1).
Proof.
  intros Hp Hsd Hc. rewrite mount_opened by auto. unfold replay. simpl. rewrite Hc, Z.eqb_refl.
  eexists; split; [reflexivity|auto].
Qed.

Lemma sorted_home : Forall (home_entry v) sorted /\ NoDup (map fst sorted).
Proof.
  destruct (tr_journal _ Hready) as [_ Hf Hn _ _]. pose proof (tr_outside _ Hready) as Ho.
  pose proof (ordered_perm v es) as Hp. split.
  - rewrite Hp. apply Forall_forall. intros e He. rewrite Forall_forall in Hf, Ho. split; auto.
  - assert (Hpm : Permutation (map fst sorted) (map fst es)) by now apply Permutation_map.
    now rewrite Hpm.
Qed.

Lemma sorted_member b : b ∈ map fst sorted <-> b ∈ map fst es.
Proof.
  assert (Hpm : Permutation (map fst sorted) (map fst es))
    by apply Permutation_map, ordered_perm.
  now rewrite Hpm.
Qed.

Lemma validate_sorted w :
  same_geometry v w -> zlen es <= 126 ->
  validate_runs w (build_array v (block_size v) sorted) (zlen es) = true.
Proof.
  intros Hsg Hcap'. unfold validate_runs. apply forallb_forall. intros i Hi.
  apply list_elem_of_In, elem_of_seqZ in Hi. destruct (sorted_entries fs0 Hready) as (_ & Hse & Hsl).
  assert (Hcl : Forall (fun e : Z * bytes => client_block v e.1) sorted)
    by (eapply Forall_impl; [exact Hse|now intros e []]).
  destruct (build_array_spec v (tr_geo _ Hready) sorted Hcl) as (_ & _ & _ & _ & Hr); [lia|].
  destruct (lookup_lt_is_Some_2 sorted (Z.to_nat i)) as [e He]; [unfold zlen in *; lia|].
  rewrite <- (Z2Nat.id i) by lia. rewrite (Hr _ _ He).
  pose proof (Forall_lookup_1 _ _ _ _ Hcl He) as Hb. simpl in Hb. unfold client_block in Hb.
  rewrite <- Hsg. apply (validate_to_run v (tr_geo _ Hready)). lia.
Qed.

(** The volume a mount opens over a logged transaction. *)
Local Notation w := (opened v (super_dirty fs0)).

(** A device that differs at the entries' homes only still has them logged. *)
Lemma logged_kept (d d' : D) :
  phase_logged fs0 d -> sector d' 1 = sector d 1 ->
  (forall c, 1 <= c -> c ∉ map fst es -> disk_block v d' c = disk_block v d c) ->
  phase_logged fs0 d'.
Proof.
  intros (L1 & L2 & L3 & L4) Hs Hd.
  pose proof (log_range v (tr_geo _ Hready) (tr_log _ Hready)) as Hlog.
  assert (Hlp : forall i, disk_block v d' (log_pos lb len p0 i) = disk_block v d (log_pos lb len p0 i)).
  { intros i. pose proof (log_pos_range v lb len Hlog p0 i). apply Hd; [lia|]. intros Hin.
    apply list_elem_of_In, in_map_iff in Hin as (e & He & Hin).
    pose proof (tr_outside _ Hready) as Ho. rewrite Forall_forall in Ho.
    apply (Ho e); [now apply list_elem_of_In|]. unfold in_run. rewrite He.
    unfold log_length in *. lia. }
  split; [congruence|split; [|split]].
  - intros b Hb Hn. rewrite Hd by (auto; apply Hb). now apply L2.
  - now rewrite Hlp.
  - intros k e Hk. rewrite Hlp. now apply L4.
Qed.

(** With every image home, the homes are the transaction's view. *)
Lemma home_view (d d' : D) :
  phase_logged fs0 d ->
  (forall c, 0 <= c -> c ∉ map fst es -> disk_block v d' c = disk_block v d c) ->
  (forall e, e ∈ es -> disk_block v d' e.1 = e.2) ->
  forall b, home_block v b -> disk_block v d' b = view fs0 b.
Proof.
  intros (_ & L2 & _) Hd He b Hb. assert (1 <= b) by apply Hb.
  destruct (decide (b ∈ map fst es)) as [Hin|Hnin].
  - apply list_elem_of_In, in_map_iff in Hin as (e & <- & Hin%list_elem_of_In).
    now rewrite He, view_entry by auto.
  - rewrite view_other, Hd by (auto; lia). now apply L2.
Qed.

Lemma replay_walk_logged (fs : Fs D) fuel :
  at_vol w fs -> zlen es <= 126 -> es <> [] -> log_written fs0 (dev fs) ->
  exists ok fs', replay_walk (S fuel) fs lb len 127 p0 position = (ok, fs') /\
    at_vol w fs' /\ sector (dev fs') 1 = sector (dev fs) 1 /\
    (forall c, 0 <= c -> c ∉ map fst es -> disk_block v (dev fs') c = disk_block v (dev fs) c) /\
    (ok = true -> forall e, e ∈ es -> disk_block v (dev fs') e.1 = e.2) /\
    (powered (dev fs) cap -> ok = true /\ powered (dev fs') cap).
Proof.
  intros Hv Hcap' Hne [HW1 HW2]. pose proof (tr_geo _ Hready) as Hgeo.
  assert (Hgw : geometry_ok w) by now apply opened_geometry.
  assert (Hlw : log_ok w) by (destruct (tr_log _ Hready); now split).
  pose proof (log_range v Hgeo (tr_log _ Hready)) as Hlog. pose proof (tr_cursor _ Hready) as [_ Hc].
  destruct (sorted_entries fs0 Hready) as (Hperm & Hse & Hsl).
  destruct (build_array_spec v Hgeo sorted) as (_ & _ & Hcount & Hmax & Hruns);
    [eapply Forall_impl; [exact Hse|now intros e []]|lia|].
  assert (Hp0 : log_pos lb len p0 0 = lb + p0)
    by (unfold log_pos; rewrite Z.add_0_r, Z.mod_small; lia).
  simpl. destruct (read_block_now fs (lb + p0)) as [x|] eqn:Hr.
  2:{ exists false, fs. splits; auto; [discriminate|]. intros Hp.
      rewrite (powered_read_now w Hgw cap Hcap) in Hr by (auto; simpl; lia). discriminate. }
  apply (read_now_any w Hgw) in Hr; [|auto|simpl; lia].
  change (x = disk_block v (dev fs) (lb + p0)) in Hr. rewrite <- Hp0, HW1 in Hr. subst x.
  rewrite Hcount, Hmax, Hsl. change (u32 (127 - 1)) with 126.
  destruct (Z.eqb_spec (zlen es) 0) as [E0|_].
  { destruct es as [|x l]; [congruence|]. rewrite zlen_cons in E0. pose proof (zlen_nonneg l). lia. }
  rewrite (proj2 (Z.ltb_ge _ _)) by lia. simpl.
  replace (validate_runs (vol fs) _ _) with true.
  2:{ destruct Hv as [c ->]. symmetry. rewrite <- (validate_sorted v) by (auto; reflexivity).
      reflexivity. }
  simpl. destruct sorted_home as [Hh Hn].
  assert (Ht : targets w (build_array v (block_size v) sorted) 0 sorted)
    by (intros k e Hk; rewrite Z.add_0_l; now apply Hruns).
  assert (Hl : logged w (dev fs) ((p0 + 1) mod len) sorted).
  { intros k e Hk. rewrite <- (HW2 k e Hk). unfold log_pos.
    rewrite <- (mod_succ p0 _ len) by lia. reflexivity. }
  assert (Hpos : 0 <= (p0 + 1) mod len < len) by (apply Z.mod_pos_bound; lia).
  rewrite <- Hsl. replace (Z.to_nat (zlen sorted)) with (length sorted) by (unfold zlen; lia).
  destruct (replay_copy fs lb len _ 0 (length sorted) _) as [[ok p'] fs'] eqn:E.
  assert (Hpow : powered (dev fs) cap -> ok = true /\ powered (dev fs') cap).
  { intros Hp. destruct (replay_copy_powered w Hgw Hlw cap Hcap sorted fs
      (build_array v (block_size v) sorted) 0 ((p0 + 1) mod len)) as (p2 & fs2 & E2 & Hp2); auto.
    assert (Hsame : (ok, p', fs') = (true, p2, fs2)) by (rewrite <- E, <- E2; reflexivity).
    injection Hsame as -> -> ->. auto. }
  eapply (replay_copy_spec w Hgw Hlw sorted) in E as (R1 & R2 & R3 & R4); auto.
  assert (R3' : forall c, 0 <= c -> c ∉ map fst es -> disk_block v (dev fs') c = disk_block v (dev fs) c).
  { intros c Hc0 Hcn. apply R3; [auto|]. now rewrite sorted_member. }
  destruct ok; simpl; [|exists false, fs'; splits; auto; discriminate].
  destruct R4 as [-> R5]; [auto|]. change (log_length w) with len.
  rewrite mod_succ, Hsl, Z.eqb_refl by lia.
  exists true, fs'. splits; auto. intros _ e He. apply R5. now rewrite Hperm.
Qed.

(** Mounting a logged transaction: it stays logged or is applied, and on a
    working device it is applied. *)
Lemma mount_logged (d : D) :
  es <> [] -> zlen es + 1 < len -> zlen es <= 126 -> phase_logged fs0 d ->
  exists ok fs2, mount d = (ok, fs2) /\ (phase_logged fs0 (dev fs2) \/ phase_done fs0 (dev fs2)) /\
    (powered d cap -> ok = true /\ phase_done fs0 (dev fs2) /\
       log_start_ (vol fs2) = log_end_ (vol fs2)).
Proof.
  intros Hne Hroom Hcap' HL. pose proof HL as (L1 & L2 & L3). pose proof (tr_geo _ Hready) as Hgeo.
  pose proof (tr_cursor _ Hready) as [_ Hc]. pose proof (zlen_nonneg es) as Hnn.
  destruct super_dirty_fields as (Hsd & Hst & Hen).
  destruct (read_sectors d 1 1) as [out|] eqn:Hrd.
  2:{ unfold mount, open. rewrite Hrd. simpl. eexists _, _. split; [reflexivity|]. simpl.
      split; [auto|]. intros Hp. pose proof (block_sectors v Hgeo). pose proof (geo_blocks v Hgeo).
      destruct (powered_read d cap 1 1) as [out Hr]; [auto|lia|lia|nia|congruence]. }
  rewrite (mount_read d out) by (auto; now rewrite L1). unfold opened_fs. rewrite L1.
  unfold replay. simpl. rewrite Hst, Hen.
  destruct (Z.eqb_spec p0 position) as [E|_].
  { exfalso. pose proof (mod_step_ne p0 0 (zlen es + 1) len) as Hmod.
    rewrite Z.add_0_r, (Z.mod_small p0) in Hmod by lia. apply Hmod; lia. }
  rewrite (max_runs_127 v Hgeo).
  change (to_block w (log_ v)) with lb. change (log_length w) with len.
  replace (Z.to_nat len) with (S (Z.to_nat (len - 1))) by lia.
  set (fs := mkFs d _ _ _).
  destruct (replay_walk_logged fs (Z.to_nat (len - 1)))
    as (ok & fs' & E & [c Hv] & R3 & R4 & R5 & R6); auto; [now exists fresh_cache|].
  rewrite E. clear E.
  assert (HL' : phase_logged fs0 (dev fs')) by (apply (logged_kept d); auto; intros; apply R4; auto; lia).
  destruct ok; simpl.
  2:{ eexists _, _. split; [reflexivity|]. split; [auto|]. intros Hp. now destruct (R6 Hp). }
  destruct (write_superblock_now _) as [ok' fs2] eqn:Hw. exists ok', fs2. split; [reflexivity|].
  assert (Hsup : superblock_ (vol (retire fs' position)) = super_retired fs0)
    by (simpl; rewrite Hv; reflexivity).
  assert (Hwr : write_ (vol (retire fs' position)) = true) by (simpl; rewrite Hv; reflexivity).
  pose proof (super_images fs0 Hready) as (_ & _ & I1 & I2).
  pose proof Hw as Hw'.
  eapply (super_phase fs0 Hready _ _ _ (super_retired fs0)) in Hw as (V1 & _ & _ & W4 & W5 & W6); auto.
  simpl in W4, W5.
  assert (HD : sector (dev fs2) 1 = super_retired fs0 -> phase_done fs0 (dev fs2)).
  { intros Es. split; [exact Es|]. intros b Hb. rewrite W4 by apply Hb. apply (home_view d); auto. }
  split.
  - destruct W5 as [Es|Es]; [left|right; auto]. apply (logged_kept (dev fs')); auto.
  - intros Hp. destruct (R6 Hp) as [_ Hp2].
    pose proof (block_sectors v Hgeo). pose proof (geo_blocks v Hgeo).
    destruct (powered_write (dev fs') cap 1 (super_retired fs0) 1) as (d' & Hpw & _); auto; [lia|lia|nia|].
    unfold write_superblock_now in Hw'. rewrite Hwr, Hsup in Hw'. simpl in Hw'. rewrite Hpw in Hw'.
    injection Hw' as <- <-. splits; auto. simpl. now rewrite Hv.
Qed.
End recover.

Section same_sectors.
Context {D : Type} `{SectorDeviceLaws D}.

(** The phases are about sectors alone, so they survive a reboot. *)
Lemma disk_block_same (v : Volume) (d d' : D) b :
  geometry_ok v -> same_sectors d d' -> 0 <= b -> disk_block v d' b = disk_block v d b.
Proof.
  intros Hg Hs Hb. apply sectors_ext. intros k Hk. apply Hs.
  pose proof (block_sectors v Hg). nia.
Qed.

Lemma phases_same (fs0 : Fs D) (d d' : D) :
  txn_ready fs0 -> same_sectors d d' ->
  (phase_old fs0 d -> phase_old fs0 d') /\ (phase_logged fs0 d -> phase_logged fs0 d') /\
  (phase_done fs0 d -> phase_done fs0 d').
Proof.
  intros Hr Hs. pose proof (tr_geo _ Hr) as Hg.
  pose proof (log_range (vol fs0) Hg (tr_log _ Hr)) as Hlog.
  assert (Hpos : forall b, home_block (vol fs0) b -> 0 <= b) by (intros b [[Hb _] _]; lia).
  assert (Hlp : forall p i, 0 <= log_pos (to_block (vol fs0) (log_ (vol fs0))) (log_length (vol fs0)) p i)
    by (intros p i; pose proof (log_pos_range (vol fs0) _ _ Hlog p i); lia).
  assert (Hd : forall b, 0 <= b -> disk_block (vol fs0) d' b = disk_block (vol fs0) d b)
    by (intros b; now apply disk_block_same).
  splits.
  - intros [H1' H2']. split; [now rewrite Hs by lia|]. intros b Hb. rewrite Hd; auto.
  - intros (H1' & H2' & H3' & H4'). split; [now rewrite Hs by lia|]. split; [|split].
    + intros b Hb Hn. rewrite Hd; auto.
    + rewrite Hd; auto.
    + intros k e Hk. rewrite Hd; auto.
  - intros [H1' H2']. split; [now rewrite Hs by lia|]. intros b Hb. rewrite Hd; auto.
Qed.
End same_sectors.

(** * Crash safety *)

(** Mounts that were themselves cut short: from the sectors [d] left, machines
    come up, mount, and stop again, and [d'] is what the last one finds. *)
Inductive crashes {D} `{SectorDevice D} (d : D) : D -> Prop :=
  | crash_reboot d' : same_sectors d d' -> crashes d d'
  | crash_mount d1 d' : crashes d d1 -> same_sectors (dev (mount d1).2) d' -> crashes d d'.

Section chain.
Context {D : Type} `{SectorDeviceLaws D} `{!PoweredDevice D}.
Context (fs0 : Fs D) (Hready : txn_ready fs0).
Context (Hroom : zlen (entries_ (jnl fs0)) + 1 < log_length (vol fs0)).

(** A mount over an empty log writes nothing. *)
Lemma mount_idle (d : D) :
  phase_old fs0 d \/ phase_done fs0 d ->
  dev (mount d).2 = d /\
  (forall cap, powered d cap -> num_blocks_ (vol fs0) * sectors_per_block (vol fs0) <= cap ->
     (mount d).1 = true /\ log_start_ (vol (mount d).2) = log_end_ (vol (mount d).2)).
Proof.
  intros Hcase.
  assert (Hdesc : super_describes (sector d 1) (vol fs0) /\
    le64 (sector d 1) superblock.kLogStart = le64 (sector d 1) superblock.kLogEnd).
  { destruct Hcase as [[-> _]|[-> _]]; [apply (tr_disk _ Hready)|].
    destruct (super_retired_fields fs0 Hready) as (R1 & -> & ->). auto. }
  destruct Hdesc as [Hsd Hcl]. split.
  - destruct (read_sectors d 1 1) as [out|] eqn:Hr.
    + rewrite (mount_read fs0 Hready d out Hr Hsd). unfold replay. simpl.
      now rewrite Hcl, Z.eqb_refl.
    + unfold mount, open. now rewrite Hr.
  - intros cap Hp Hcap. destruct (mount_clean fs0 Hready cap Hcap d Hp Hsd Hcl) as (fs2 & E & _ & Hv).
    rewrite E. simpl. now rewrite Hv.
Qed.

(** The states a commit leaves are closed under interrupted mounts. *)
Lemma mount_phase (d : D) :
  entries_ (jnl fs0) <> [] -> phase_logged fs0 d ->
  (phase_logged fs0 (dev (mount d).2) \/ phase_done fs0 (dev (mount d).2)) /\
  (forall cap, powered d cap -> num_blocks_ (vol fs0) * sectors_per_block (vol fs0) <= cap ->
     (mount d).1 = true /\ phase_done fs0 (dev (mount d).2) /\
     log_start_ (vol (mount d).2) = log_end_ (vol (mount d).2)).
Proof.
  intros Hne HL. pose proof (jok_count _ _ (tr_journal _ Hready)) as H32.
  unfold kMaxJournalBlocks in H32.
  assert (Hm := fun cap Hcap => mount_logged fs0 Hready cap Hcap d Hne Hroom ltac:(lia) HL).
  split.
  - destruct (Hm _ (Z.le_refl _)) as (ok & fs2 & -> & Hp & _). exact Hp.
  - intros cap Hp Hcap. destruct (Hm cap Hcap) as (ok & fs2 & -> & _ & Hd). now apply Hd.
Qed.

Definition settled (new : Prop) (d : D) : Prop :=
  phase_done fs0 d \/ (phase_logged fs0 d /\ entries_ (jnl fs0) <> []) \/ (phase_old fs0 d /\ ~ new).

Lemma settled_same (new : Prop) (d d' : D) : same_sectors d d' -> settled new d -> settled new d'.
Proof.
  intros Hs. destruct (phases_same fs0 d d' Hready Hs) as (S1 & S2 & S3). unfold settled. tauto.
Qed.

Lemma settled_mount (new : Prop) (d : D) : settled new d -> settled new (dev (mount d).2).
Proof.
  intros [Hd|[[Hl Hne]|[Ho Hn]]].
  - destruct (mount_idle d) as [-> _]; [auto|]. now left.
  - destruct (mount_phase d Hne Hl) as [[Hl'|Hd'] _]; unfold settled; auto.
  - destruct (mount_idle d) as [-> _]; [auto|]. unfold settled; auto.
Qed.

Lemma settled_crashes (new : Prop) (d d' : D) : settled new d -> crashes d d' -> settled new d'.
Proof.
  intros Hs. induction 1 as [d' Hsame|d1 d' _ IH Hsame].
  - now apply (settled_same new d).
  - apply (settled_same new (dev (mount d1).2)); [auto|]. now apply settled_mount.
Qed.

Lemma commit_settled ok fs1 :
  commit fs0 = (ok, fs1) -> settled (ok = true /\ entries_ (jnl fs0) <> []) (dev fs1).
Proof.
  intros Hc. unfold settled. destruct (decide (entries_ (jnl fs0) = [])) as [Hes|Hne].
  - unfold commit in Hc. rewrite (tr_active _ Hready), Hes in Hc. injection Hc as _ <-. simpl.
    right; right. split; [now split|tauto].
  - destruct (commit_phase fs0 Hready ok fs1 Hne Hc) as [Hph Hdone].
    destruct ok; [auto|]. intuition congruence.
Qed.
End chain.

(** C1: A commit is atomic across crashes, for a transaction opened on a clean
    volume ([txn_ready]: the log empty, the superblock on the device in step with
    the one in memory, the buffered blocks outside the log) that leaves the log a
    free block.  Whatever writes the device refuses or tears while the
    transaction commits, and however many mounts after it are cut short in turn,
    a mount on a working device succeeds, leaves the log empty, and leaves the
    superblock and every block outside the log either as they were before the
    transaction ([phase_old]) or all with the transaction's images
    ([phase_done]); the latter always when the commit reported success.  Both
    conditions are needed: see [full_log_not_replayed] for a transaction that
    fills the log, and [failed_checkpoint_lost] for one that commits while the
    checkpoint of an earlier one is still owed. *)
Theorem commit_crash_atomic {D} `{SectorDeviceLaws D} `{!PoweredDevice D}
    (fs0 fs1 : Fs D) (ok : bool) (d : D) (cap : Z) :
  txn_ready fs0 -> zlen (entries_ (jnl fs0)) + 1 < log_length (vol fs0) ->
  commit fs0 = (ok, fs1) -> crashes (dev fs1) d ->
  powered d cap -> num_blocks_ (vol fs0) * sectors_per_block (vol fs0) <= cap ->
  exists fs2, mount d = (true, fs2) /\ log_start_ (vol fs2) = log_end_ (vol fs2) /\
    (phase_old fs0 (dev fs2) \/ phase_done fs0 (dev fs2)) /\
    (ok = true -> entries_ (jnl fs0) <> [] -> phase_done fs0 (dev fs2)).
Proof.
  intros Hr Hroom Hc Hs Hp Hcap. apply commit_settled in Hc; [|auto].
  eapply settled_crashes in Hs; eauto. exists (mount d).2.
  rewrite (surjective_pairing (mount d)) at 1. destruct Hs as [Hd|[[Hl Hne]|[Ho Hn]]].
  - destruct (mount_idle fs0 Hr d) as [Hdv Hm]; [auto|]. destruct (Hm cap Hp Hcap) as [-> Hcl].
    rewrite Hdv. auto.
  - destruct (mount_phase fs0 Hr Hroom d Hne Hl) as [_ Hm].
    destruct (Hm cap Hp Hcap) as (-> & Hd & Hcl). auto.
  - destruct (mount_idle fs0 Hr d) as [Hdv Hm]; [auto|]. destruct (Hm cap Hp Hcap) as [-> Hcl].
    rewrite Hdv. splits; auto. intros Hok Hne. tauto.
Qed.

(** ** On a concrete disk *)
Module Crash.

(** A volume of 16 blocks with a log of [log_blocks], mounted, with a
    transaction of two blocks open; the power goes after [writes] more. *)
Definition fs (log_blocks : Z) (writes : nat) : Fs Disk.disk :=
  let d := Sample.disk (Sample.super 16 4 1 log_blocks 0) 16 (Some writes) in
  let fs := begin (mount d).2 in
  let fs := (write_block fs 13 (replicate 1024 7)).2 in
  (write_block fs 12 (replicate 1024 9)).2.

Definition after (log_blocks : Z) (writes : nat) : Disk.disk :=
  Sample.reboot (dev (commit (fs log_blocks writes)).2).

Lemma super_ready : super_describes (Sample.super 16 4 1 8 0) (vol (fs 8 5)).
Proof.
  split; try (vm_compute; reflexivity). apply bytes_okb_true. vm_compute. reflexivity.
Qed.

Lemma ready : txn_ready (fs 8 5).
Proof.
  assert (Hsup : superblock_ (vol (fs 8 5)) = Sample.super 16 4 1 8 0) by (vm_compute; reflexivity).
  assert (Hdev : sector (dev (fs 8 5)) 1 = Sample.super 16 4 1 8 0) by (vm_compute; reflexivity).
  assert (Hes : entries_ (jnl (fs 8 5)) = [(13, replicate 1024 7); (12, replicate 1024 9)])
    by (vm_compute; reflexivity).
  split; rewrite ?Hsup, ?Hdev; try (vm_compute; reflexivity); try apply super_ready.
  - split; vm_compute; intuition congruence.
  - vm_compute. congruence.
  - split; vm_compute; intuition congruence.
  - split; rewrite ?Hes; try (vm_compute; reflexivity).
    + repeat constructor; simpl; try (vm_compute; intuition congruence);
        apply bytes_okb_true; vm_compute; reflexivity.
    + simpl. apply NoDup_cons. split; [|apply NoDup_singleton]. rewrite list_elem_of_singleton. lia.
    + vm_compute. congruence.
    + intros Ha. vm_compute in Ha. discriminate Ha.
  - rewrite Hes. repeat constructor; unfold in_run; vm_compute; intuition congruence.
  - vm_compute. intuition congruence.
  - split; [apply super_ready|vm_compute; reflexivity].
  - split; [apply super_ready|vm_compute; reflexivity].
Qed.
End Crash.

(** The power goes after five writes: the run array, two images, the
    superblock and one of the two homes.  The mount completes the transaction. *)
Lemma commit_crash_atomic_witness :
  (commit (Crash.fs 8 5)).1 = false /\
  exists fs2, mount (Crash.after 8 5) = (true, fs2) /\ log_start_ (vol fs2) = log_end_ (vol fs2) /\
    (phase_old (Crash.fs 8 5) (dev fs2) \/ phase_done (Crash.fs 8 5) (dev fs2)) /\
    ((commit (Crash.fs 8 5)).1 = true -> entries_ (jnl (Crash.fs 8 5)) <> [] ->
     phase_done (Crash.fs 8 5) (dev fs2)).
Proof.
  split; [vm_compute; reflexivity|].
  apply (commit_crash_atomic (Crash.fs 8 5) (commit (Crash.fs 8 5)).2 (commit (Crash.fs 8 5)).1
           (Crash.after 8 5) 32).
  - apply Crash.ready.
  - vm_compute. reflexivity.
  - apply surjective_pairing.
  - apply crash_reboot, Sample.reboot_same.
  - apply Sample.reboot_powered. vm_compute. congruence.
  - vm_compute. congruence.
Defined.

(** A transaction that exactly fills the log is not recoverable: with one
    run array and two images in a log of three blocks, [log_end] comes round to
    [log_start], so after a crash part-way through the checkpoint the mount
    takes the log for empty and keeps one block new and the other old. *)
Theorem full_log_not_replayed :
  let v := vol (Crash.fs 3 5) in
  let '(ok, fs2) := mount (Crash.after 3 5) in
  zlen (entries_ (jnl (Crash.fs 3 5))) + 1 = log_length v /\ ok = true /\
  disk_block v (dev fs2) 13 = replicate 1024 7 /\ disk_block v (dev fs2) 12 = zeros 1024.
Proof. vm_compute. splits; reflexivity. Qed.

(** A commit that fails after its commit point is undone by the next one:
    the checkpoint is refused part-way, the device then works again, and a
    second transaction that commits successfully retires the log past the first
    one's entry; the mount after that finds an empty log, with block 13 of the
    first transaction written and block 12 not. *)
Theorem failed_checkpoint_lost :
  let '(ok1, fs1) := commit (Crash.fs 8 5) in
  let fs1 := abort (with_dev fs1 (Sample.reboot (dev fs1))) in
  let '(ok2, fs2) := commit (write_block (begin fs1) 14 (replicate 1024 1)).2 in
  let '(ok3, fs3) := mount (dev fs2) in
  ok1 = false /\ ok2 = true /\ ok3 = true /\ log_start_ (vol fs3) = log_end_ (vol fs3) /\
  disk_block (vol fs3) (dev fs3) 13 = replicate 1024 7 /\
  disk_block (vol fs3) (dev fs3) 12 = zeros 1024.
Proof. vm_compute. splits; reflexivity. Qed.
