(* ===== verification/Allocator.v ===== *)
(** The block allocator (libs/freestanding/aegir-bfs, src/allocator.cc and
    include/aegir/bfs/allocator.h): bits of the bitmap blocks, first-fit
    allocation, frees, and the discards they queue.

    The allocator is a client of the block layer, so it is written against
    [BlockStore]; its theorems hold of every store that keeps
    [BlockStoreLaws], the real one included. *)
From stdpp Require Import base numbers list list_numbers.
From Stdlib Require Import ZArith Lia.
From S2P Require Import Prelude.
From S2P Require Import Layout.
From S2P Require Import Device.
From S2P Require Import Volume.
From S2P Require Import BlockStore.
From S2P Require Import Samples.
From S2P Require Import Opening.
From S2P Require Import Journal.

(** [class Allocator]'s fields.  [bitmap_] is the 8 KiB scratch buffer, of which
    a block read fills the first [block_size] bytes. *)
Record Allocator := mkAllocator {
  al_volume : bool;
  al_block_size : Z;
  al_blocks_per_ag : Z;
  al_ag_shift : Z;
  bitmap_ : bytes;
  pending_discard_ : Run;
  discard_pending_ : bool;
}.

Definition new_allocator : Allocator :=
  mkAllocator false 0 1 0 (zeros kMaxBlockSize) (mkRun 0 0 0) false.

Definition with_bitmap (a : Allocator) (b : bytes) : Allocator :=
  mkAllocator (al_volume a) (al_block_size a) (al_blocks_per_ag a) (al_ag_shift a) b
    (pending_discard_ a) (discard_pending_ a).
Definition with_pending (a : Allocator) (r : Run) (p : bool) : Allocator :=
  mkAllocator (al_volume a) (al_block_size a) (al_blocks_per_ag a) (al_ag_shift a) (bitmap_ a) r p.

Definition kMaxRun : Z := 65535.

Definition allocator_open (a : Allocator) (v : Volume) : bool * Allocator :=
  if negb (valid_ v) || negb (write_ v) then (false, a)
  else (true, mkAllocator true (block_size v) (blocks_per_ag_ v) (ag_shift_ v) (bitmap_ a)
                (pending_discard_ a) (discard_pending_ a)).

Definition bits_per_block (a : Allocator) : Z := u32 (al_block_size a * 8).

Definition group_bits (a : Allocator) (v : Volume) (group : Z) : Z :=
  let first := Z.shiftl group (al_ag_shift a) in
  let span := Z.shiftl 1 (al_ag_shift a) in
  let total := num_blocks_ v in
  if total <=? first then 0 else if span <? total - first then span else total - first.

Definition bitmap_block (a : Allocator) (group index : Z) : Z :=
  1 + group * al_blocks_per_ag a + index.

(** The byte of a little-endian 32-bit chunk that holds [bit]. *)
Definition bit_byte (bit : Z) : Z := bit / 32 * 4 + bit mod 32 / 8.

Definition bit_set (bitmap : bytes) (bit : Z) : bool :=
  negb (Z.land (Z.shiftr (byte_at bitmap (bit_byte bit)) (bit mod 8)) 1 =? 0).

Definition set_bit (bitmap : bytes) (bit : Z) : bytes :=
  set_byte bitmap (bit_byte bit)
    (u8 (Z.lor (byte_at bitmap (bit_byte bit)) (Z.shiftl 1 (bit mod 8)))).

Definition clear_bit (bitmap : bytes) (bit : Z) : bytes :=
  set_byte bitmap (bit_byte bit)
    (Z.land (byte_at bitmap (bit_byte bit)) (u8 (Z.lnot (Z.shiftl 1 (bit mod 8))))).

(** [while (length < max_blocks && ... ) ++length]; [fuel] is [max_blocks]. *)
Fixpoint extend (fuel : nat) (bitmap : bytes) (bits per_block index local max_blocks length : Z) : Z :=
  match fuel with
  | O => length
  | S fuel =>
    if (length <? max_blocks) && (u32 (local + length) <? bits) &&
       (u32 (local + length) / per_block =? index) && negb (bit_set bitmap (u32 (local + length)))
    then extend fuel bitmap bits per_block index local max_blocks (length + 1)
    else length
  end.

(** [for (k < length) set_bit(bitmap_, local + k)] *)
Fixpoint set_bits (bitmap : bytes) (local : Z) (n : nat) : bytes :=
  match n with
  | O => bitmap
  | S n => set_bits (set_bit bitmap (u32 local)) (local + 1) n
  end.

(** The scan of one bitmap block, [fuel] bits from [bit] on: the first place
    where a long enough run starts. *)
Fixpoint scan (fuel : nat) (bitmap : bytes) (bits per_block index max_blocks min_blocks bit : Z)
    : option (Z * Z) :=
  match fuel with
  | O => None
  | S fuel =>
    let local := u32 (u32 (index * per_block) + bit) in
    if bits <=? local then None
    else if bit_set bitmap bit
    then scan fuel bitmap bits per_block index max_blocks min_blocks (bit + 1)
    else
      let length := extend (Z.to_nat max_blocks) bitmap bits per_block index local max_blocks 1 in
      if length <? min_blocks
      then scan fuel bitmap bits per_block index max_blocks min_blocks (bit + 1)
      else Some (local, length)
  end.

(** How a stretch of the search ends: nothing here, an error, or a run. *)
Inductive search := Next | Refused | Taken (r : Run).

Section allocator.
Context {S : Type} `{BlockStore S}.

(** [at >= num_blocks() || !read_block(at, bitmap_)] *)
Definition load_bitmap (a : Allocator) (s : S) (at_ : Z) : bool * Allocator * S :=
  if num_blocks_ (bs_vol s) <=? at_ then (false, a, s)
  else
    match bs_read s at_ with
    | (Some data, s) => (true, with_bitmap a (blit (bitmap_ a) 0 data), s)
    | (None, s) => (false, a, s)
    end.

(** The bitmap blocks of one group, from [index] on. *)
Fixpoint search_group (fuel : nat) (a : Allocator) (s : S)
    (group bits max_blocks min_blocks index : Z) : search * Allocator * S :=
  match fuel with
  | O => (Next, a, s)
  | Datatypes.S fuel =>
    let at_ := bitmap_block a group index in
    let '(ok, a, s) := load_bitmap a s at_ in
    if negb ok then (Refused, a, s)
    else
      let per_block := bits_per_block a in
      match scan (Z.to_nat per_block) (bitmap_ a) bits per_block index max_blocks min_blocks 0 with
      | None => search_group fuel a s group bits max_blocks min_blocks (index + 1)
      | Some (local, length) =>
        let a := with_bitmap a (set_bits (bitmap_ a) local (Z.to_nat length)) in
        let '(ok, s) := bs_write s at_ (bitmap_ a) in
        if negb ok then (Refused, a, s)
        else
          let run := run_make group (u16 local) (u16 length) in
          let s := bs_set_used s (u64 (used_blocks_ (bs_vol s) + length)) in
          let '(_, s) := bs_flush s in
          (Taken run, a, s)
      end
  end.

(** The groups, from [group] on. *)
Fixpoint search_groups (fuel : nat) (a : Allocator) (s : S) (max_blocks min_blocks group : Z)
    : search * Allocator * S :=
  match fuel with
  | O => (Next, a, s)
  | Datatypes.S fuel =>
    let bits := group_bits a (bs_vol s) group in
    if bits =? 0 then (Next, a, s)
    else
      match search_group (Z.to_nat (al_blocks_per_ag a)) a s group bits max_blocks min_blocks 0 with
      | (Next, a, s) => search_groups fuel a s max_blocks min_blocks (group + 1)
      | found => found
      end
  end.

Definition allocate (a : Allocator) (s : S) (max_blocks min_blocks : Z)
    : option Run * Allocator * S :=
  if negb (al_volume a) || (max_blocks =? 0) || (min_blocks =? 0) then (None, a, s)
  else
    let max_blocks := if kMaxRun <? max_blocks then kMaxRun else max_blocks in
    let min_blocks := if max_blocks <? min_blocks then max_blocks else min_blocks in
    match search_groups (Z.to_nat (num_ags_ (bs_vol s))) a s max_blocks min_blocks 0 with
    | (Taken run, a, s) => (Some run, a, s)
    | (_, a, s) => (None, a, s)
    end.

Definition flush_discards (a : Allocator) (s : S) : Allocator * S :=
  let s := if discard_pending_ a && al_volume a then (bs_discard s (pending_discard_ a)).2 else s in
  (with_pending a (pending_discard_ a) false, s).

Definition drop_discards (a : Allocator) : Allocator := with_pending a (pending_discard_ a) false.

Definition queue_discard (a : Allocator) (s : S) (run : Run) : Allocator * S :=
  if negb (al_volume a) || negb (discard_ (bs_vol s)) || (run_length run =? 0) then (a, s)
  else
    let p := pending_discard_ a in
    let near := discard_pending_ a && (allocation_group p =? allocation_group run) &&
                (run_length p + run_length run <=? kMaxRun) in
    if near && (start run =? start p + run_length p)
    then (with_pending a (mkRun (allocation_group p) (start p) (u16 (run_length p + run_length run))) true, s)
    else if near && (start p =? start run + run_length run)
    then (with_pending a (mkRun (allocation_group p) (start run) (u16 (run_length p + run_length run))) true, s)
    else
      let '(a, s) := flush_discards a s in
      (with_pending a run true, s).

(** One bit of a free: read the bitmap block, clear, write back. *)
Fixpoint free_bits (n : nat) (a : Allocator) (s : S) (run : Run) (k : Z) : bool * Allocator * S :=
  match n with
  | O => (true, a, s)
  | Datatypes.S n =>
    let per_block := bits_per_block a in
    let local := start run + k in
    let at_ := bitmap_block a (allocation_group run) (local / per_block) in
    let '(ok, a, s) := load_bitmap a s at_ in
    if negb ok then (false, a, s)
    else
      let a := with_bitmap a (clear_bit (bitmap_ a) (local mod per_block)) in
      let '(ok, s) := bs_write s at_ (bitmap_ a) in
      if negb ok then (false, a, s) else free_bits n a s run (k + 1)
  end.

Definition free (a : Allocator) (s : S) (run : Run) : bool * Allocator * S :=
  if negb (al_volume a) || (run_length run =? 0) then (false, a, s)
  else
    let '(ok, a, s) := free_bits (Z.to_nat (run_length run)) a s run 0 in
    if negb ok then (false, a, s)
    else
      let used := used_blocks_ (bs_vol s) in
      let s := bs_set_used s (if run_length run <=? used then used - run_length run else 0) in
      let '(_, s) := bs_flush s in
      let '(a, s) := queue_discard a s run in
      (true, a, s).

End allocator.

(** * Bits *)

Lemma bit_byte_div bit : 0 <= bit -> bit_byte bit = bit / 8.
Proof. intros. unfold bit_byte. zlia. Qed.

Lemma bit_set_testbit bm bit :
  bit_set bm bit = Z.testbit (byte_at bm (bit_byte bit)) (bit mod 8).
Proof.
  unfold bit_set. change 1 with (Z.ones 1). rewrite Z.land_ones, Z.shiftr_div_pow2 by zlia.
  change (2 ^ 1) with 2. rewrite Z.testbit_eqb by zlia.
  destruct (_ =? 0) eqn:E1, (_ =? 1) eqn:E2; auto; breflect; zlia.
Qed.

Lemma same_bit i j : 0 <= i -> 0 <= j -> i <> j -> bit_byte i = bit_byte j -> i mod 8 <> j mod 8.
Proof. intros Hi Hj Hne. rewrite !bit_byte_div by lia. zlia. Qed.

Lemma bit_byte_in (bm : bytes) i : 0 <= i < 8 * zlen bm -> 0 <= bit_byte i < zlen bm.
Proof. intros. rewrite bit_byte_div by lia. zlia. Qed.

Lemma testbit_u8 x k : 0 <= k < 8 -> Z.testbit (u8 x) k = Z.testbit x k.
Proof. intros. unfold u8. apply Z.mod_pow2_bits_low. lia. Qed.

Lemma testbit_one k j : 0 <= k -> 0 <= j -> Z.testbit (Z.shiftl 1 k) j = (k =? j).
Proof. intros. rewrite Z.shiftl_1_l, Z.pow2_bits_eqb by lia. reflexivity. Qed.

Lemma bit_set_set bm i j :
  0 <= i < 8 * zlen bm -> 0 <= j -> bit_set (set_bit bm i) j = (i =? j) || bit_set bm j.
Proof.
  intros Hi Hj. rewrite !bit_set_testbit. pose proof (bit_byte_in bm i Hi).
  assert (0 <= bit_byte j) by (rewrite bit_byte_div by lia; zlia).
  assert (Hm : 0 <= i mod 8 < 8) by zlia. assert (Hm' : 0 <= j mod 8 < 8) by zlia.
  unfold set_bit. rewrite byte_at_set by lia. rewrite (proj2 (Z.ltb_lt _ _)), andb_true_r by lia.
  destruct (Z.eqb_spec i j) as [->|Hne].
  - rewrite Z.eqb_refl, testbit_u8, Z.lor_spec, testbit_one, Z.eqb_refl by lia. apply orb_true_r.
  - destruct (Z.eqb_spec (bit_byte i) (bit_byte j)) as [E|E]; [|reflexivity].
    rewrite testbit_u8, Z.lor_spec, testbit_one, E by lia.
    rewrite (proj2 (Z.eqb_neq _ _)) by now apply same_bit. apply orb_false_r.
Qed.

Lemma bit_set_clear bm i j :
  0 <= i < 8 * zlen bm -> 0 <= j -> bit_set (clear_bit bm i) j = negb (i =? j) && bit_set bm j.
Proof.
  intros Hi Hj. rewrite !bit_set_testbit. pose proof (bit_byte_in bm i Hi).
  assert (0 <= bit_byte j) by (rewrite bit_byte_div by lia; zlia).
  assert (Hm : 0 <= i mod 8 < 8) by zlia. assert (Hm' : 0 <= j mod 8 < 8) by zlia.
  unfold clear_bit. rewrite byte_at_set by lia. rewrite (proj2 (Z.ltb_lt _ _)), andb_true_r by lia.
  destruct (Z.eqb_spec i j) as [->|Hne]; simpl.
  - rewrite Z.eqb_refl, Z.land_spec, testbit_u8, Z.lnot_spec, testbit_one, Z.eqb_refl by lia.
    apply andb_false_r.
  - destruct (Z.eqb_spec (bit_byte i) (bit_byte j)) as [E|E]; [|reflexivity].
    rewrite Z.land_spec, testbit_u8, Z.lnot_spec, testbit_one, E by lia.
    rewrite (proj2 (Z.eqb_neq _ _)) by now apply same_bit. apply andb_true_r.
Qed.

Lemma zlen_set_bit bm i : zlen (set_bit bm i) = zlen bm.
Proof. apply zlen_set. Qed.
Lemma zlen_clear_bit bm i : zlen (clear_bit bm i) = zlen bm.
Proof. apply zlen_set. Qed.
Lemma bytes_ok_set_bit bm i : bytes_ok bm -> bytes_ok (set_bit bm i).
Proof. intros. apply bytes_ok_set; [auto|]. apply u8_range. Qed.
Lemma bytes_ok_clear_bit bm i : bytes_ok bm -> bytes_ok (clear_bit bm i).
Proof.
  intros Hb. apply bytes_ok_set; [auto|]. pose proof (byte_at_ok bm (bit_byte i) Hb) as Hr.
  unfold byte_ok in *. set (x := byte_at _ _) in *. set (m := u8 _).
  replace (Z.land x m) with (u8 (Z.land x m)); [apply u8_range|].
  unfold u8 at 1. rewrite <- Z.land_ones, <- Z.land_assoc, (Z.land_comm m), Z.land_assoc, Z.land_ones by lia.
  now rewrite Z.mod_small by lia.
Qed.

Lemma bytes_ok_set_bits bm l n : bytes_ok bm -> bytes_ok (set_bits bm l n).
Proof. revert bm l; induction n; intros; simpl; auto using bytes_ok_set_bit. Qed.
Lemma zlen_set_bits bm l n : zlen (set_bits bm l n) = zlen bm.
Proof. revert bm l; induction n as [|n IH]; intros; simpl; [auto|]. now rewrite IH, zlen_set_bit. Qed.

Lemma bit_set_bits bm l n j :
  0 <= l -> l + Z.of_nat n <= 8 * zlen bm -> l + Z.of_nat n <= 2 ^ 32 -> 0 <= j ->
  bit_set (set_bits bm l n) j = ((l <=? j) && (j <? l + Z.of_nat n)) || bit_set bm j.
Proof.
  revert bm l; induction n as [|n IH]; intros bm l Hl Hb Hw Hj; cbn [set_bits].
  - change (Z.of_nat 0) with 0. destruct (Z.leb_spec l j), (Z.ltb_spec j (l + 0)); auto; lia.
  - rewrite IH by (rewrite ?zlen_set_bit; lia). rewrite u32_small, bit_set_set by lia.
    destruct (Z.leb_spec (l + 1) j), (Z.ltb_spec j (l + 1 + Z.of_nat n)), (Z.eqb_spec l j),
      (Z.leb_spec l j), (Z.ltb_spec j (l + Z.of_nat (S n))); simpl; auto; lia.
Qed.

(** The bits of a block are its own bytes'. *)
Lemma bit_set_ext bm bm' n j :
  (forall i, 0 <= i < n -> byte_at bm i = byte_at bm' i) -> 0 <= j < 8 * n ->
  bit_set bm j = bit_set bm' j.
Proof.
  intros Hb Hj. rewrite !bit_set_testbit, Hb; [reflexivity|].
  rewrite bit_byte_div by lia. zlia.
Qed.

(** * The search of one bitmap block *)

(** [n] free blocks from [b], below [bits]. *)
Definition run_at (bm : bytes) (bits b n : Z) : Prop :=
  forall k, 0 <= k < n -> b + k < bits /\ bit_set bm (b + k) = false.

Section block.
Context (bm : bytes) (bits per_block max_blocks min_blocks : Z).
Context (Hbits : bits <= per_block) (Hper : 0 < per_block <= 2 ^ 20).
Context (Hmin : 1 <= min_blocks <= max_blocks) (Hmax : max_blocks <= kMaxRun).

Lemma extend_spec fuel local length :
  0 <= local < bits -> 1 <= length <= max_blocks -> max_blocks - length <= Z.of_nat fuel ->
  run_at bm bits local length ->
  let L := extend fuel bm bits per_block 0 local max_blocks length in
  length <= L <= max_blocks /\ run_at bm bits local L /\
  (L = max_blocks \/ ~ run_at bm bits local (L + 1)).
Proof.
  unfold kMaxRun in Hmax. change (2 ^ 20) with 1048576 in Hper.
  revert length; induction fuel as [|fuel IH]; intros length Hl Hn Hf Hr; simpl.
  { split; [lia|]. split; [auto|]. left. lia. }
  rewrite u32_small by lia. destruct (_ && _) eqn:E.
  - breflect. destruct (IH (length + 1)) as (I1 & I2 & I3); try lia.
    + intros k Hk. destruct (Z.eq_dec k length) as [->|]; [auto|apply Hr; lia].
    + split; [lia|]. auto.
  - split; [lia|]. split; [auto|]. destruct (Z.eq_dec length max_blocks) as [|Hne]; [auto|right].
    intros Hr'. destruct (Hr' length ltac:(lia)) as [H1 H2]. rewrite H2 in E.
    rewrite !(proj2 (Z.ltb_lt _ _)), Z.div_small in E by lia. discriminate.
Qed.

(** First fit: the scan finds the lowest place a run of [min_blocks] fits. *)
Lemma scan_spec fuel bit :
  0 <= bit <= bits -> bits <= bit + Z.of_nat fuel ->
  match scan fuel bm bits per_block 0 max_blocks min_blocks bit with
  | Some (l, L) =>
    bit <= l /\ min_blocks <= L <= max_blocks /\ run_at bm bits l L /\
    (forall b, bit <= b < l -> ~ run_at bm bits b min_blocks)
  | None => forall b, bit <= b -> ~ run_at bm bits b min_blocks
  end.
Proof.
  unfold kMaxRun in Hmax. change (2 ^ 20) with 1048576 in Hper.
  revert bit; induction fuel as [|fuel IH]; intros bit Hb Hf; cbn [scan].
  { intros b Hbb Hr. destruct (Hr 0 ltac:(lia)). lia. }
  change (u32 (0 * per_block)) with 0. rewrite Z.add_0_l.
  destruct (Z.lt_ge_cases bit bits) as [Hlt|Hge].
  2:{ rewrite u32_small, (proj2 (Z.leb_le _ _)) by lia.
      intros b Hbb Hr. destruct (Hr 0 ltac:(lia)). lia. }
  assert (Hnext : ~ run_at bm bits bit min_blocks ->
    match scan fuel bm bits per_block 0 max_blocks min_blocks (bit + 1) with
    | Some (l, L) =>
      bit <= l /\ min_blocks <= L <= max_blocks /\ run_at bm bits l L /\
      (forall b, bit <= b < l -> ~ run_at bm bits b min_blocks)
    | None => forall b, bit <= b -> ~ run_at bm bits b min_blocks
    end).
  { intros Hno. specialize (IH (bit + 1) ltac:(lia) ltac:(lia)).
    destruct (scan fuel bm bits per_block 0 max_blocks min_blocks (bit + 1)) as [[l L]|].
    - destruct IH as (I1 & I2 & I3 & I4). splits; auto; [lia..|].
      intros b Hbl. destruct (Z.eq_dec b bit) as [->|]; [auto|apply I4; lia].
    - intros b Hbl. destruct (Z.eq_dec b bit) as [->|]; [auto|apply IH; lia]. }
  rewrite u32_small, (proj2 (Z.leb_gt _ _)) by lia.
  destruct (bit_set bm bit) eqn:Hset.
  { apply Hnext. intros Hr. destruct (Hr 0 ltac:(lia)) as [_ Hr0].
    rewrite Z.add_0_r in Hr0. congruence. }
  destruct (extend_spec (Z.to_nat max_blocks) bit 1) as (E1 & E2 & E3); try lia.
  { intros k Hk. replace k with 0 by lia. rewrite Z.add_0_r. auto. }
  set (L := extend _ _ _ _ _ _ _ _) in *. destruct (Z.ltb_spec L min_blocks) as [HL|HL].
  - apply Hnext. intros Hr. destruct E3 as [->|E3]; [lia|]. apply E3.
    intros k Hk. apply Hr. lia.
  - splits; auto; lia.
Qed.
End block.

(** * Allocation *)

(** The blocks of a group. *)
Definition group_size (v : Volume) (g : Z) : Z :=
  Z.min (2 ^ ag_shift_ v) (num_blocks_ v - g * 2 ^ ag_shift_ v).

(** An allocator bound to a volume whose groups have one bitmap block each. *)
Record alloc_ready (a : Allocator) (v : Volume) : Prop := {
  ar_volume : al_volume a = true;
  ar_size : al_block_size a = block_size v;
  ar_one : al_blocks_per_ag a = 1;
  ar_shift : al_ag_shift a = ag_shift_ v;
  ar_buf : zlen (bitmap_ a) = kMaxBlockSize;
  ar_bytes : bytes_ok (bitmap_ a);
  ar_fits : 2 ^ ag_shift_ v <= 8 * block_size v;
  ar_room : num_ags_ v < num_blocks_ v;
}.

Lemma alloc_ready_bitmap a v bm :
  alloc_ready a v -> zlen bm = kMaxBlockSize -> bytes_ok bm -> alloc_ready (with_bitmap a bm) v.
Proof. intros [] Hl Hb. now split. Qed.

Lemma alloc_ready_geometry a v w : same_geometry v w -> alloc_ready a v -> alloc_ready a w.
Proof.
  intros Hsg []. pose proof (block_size_proper _ _ Hsg) as Hb.
  destruct Hsg as (_ & H2 & H3 & H4 & _). split; congruence.
Qed.

Lemma group_size_bits a v g :
  geometry_ok v -> alloc_ready a v -> 0 <= g < num_ags_ v ->
  group_bits a v g = group_size v g /\ 0 < group_size v g <= 8 * block_size v.
Proof.
  intros Hg Ha Hr. pose proof (span_pos v Hg) as Hs. pose proof (geo_ag v Hg).
  assert (Hc : g * 2 ^ ag_shift_ v < num_blocks_ v).
  { pose proof (geo_groups v Hg). pose proof (geo_blocks v Hg).
    replace (num_blocks_ v + 2 ^ ag_shift_ v - 1) with (num_blocks_ v - 1 + 1 * 2 ^ ag_shift_ v) in * by lia.
    rewrite Z.div_add in * by lia.
    pose proof (Z.mul_div_le (num_blocks_ v - 1) (2 ^ ag_shift_ v)). nia. }
  pose proof (ar_fits _ _ Ha). unfold group_bits, group_size.
  rewrite (ar_shift _ _ Ha), Z.shiftl_1_l, Z.shiftl_mul_pow2 by lia.
  rewrite (proj2 (Z.leb_gt _ _)) by lia. split; [zcase; lia|lia].
Qed.

Section allocation.
Context {S : Type} `{BlockStoreLaws S}.

(** Is block [b] marked in use? *)
Definition used_block (s : S) (b : Z) : bool :=
  let v := bs_vol s in
  bit_set (bs_view s (1 + b / 2 ^ ag_shift_ v)) (b mod 2 ^ ag_shift_ v).

(** [s'] is [s] as far as any client can tell. *)
Record kept (s s' : S) : Prop := {
  kp_geo : same_geometry (bs_vol s) (bs_vol s');
  kp_used : used_blocks_ (bs_vol s') = used_blocks_ (bs_vol s);
  kp_view : forall c, client_block (bs_vol s) c -> bs_view s' c = bs_view s c;
}.

Lemma kept_refl s : kept s s.
Proof. split; auto; reflexivity. Qed.
Lemma kept_trans s1 s2 s3 : kept s1 s2 -> kept s2 s3 -> kept s1 s3.
Proof.
  intros [G1 U1 V1] [G2 U2 V2]. split; [etransitivity; eauto|congruence|].
  intros c Hc. rewrite V2, V1; auto. now rewrite <- G1.
Qed.

Context (live : Z -> Prop).

(** The bitmap blocks hold known contents. *)
Definition bitmap_live (v : Volume) : Prop := forall g, 0 <= g < num_ags_ v -> live (1 + g).

Lemma bitmap_block_client a v g :
  alloc_ready a v -> 0 <= g < num_ags_ v -> client_block v (1 + g).
Proof. intros Ha Hg. pose proof (ar_room _ _ Ha). unfold client_block. lia. Qed.

Lemma load_bitmap_spec a s g ok a' s' :
  bs_ok live s -> bitmap_live (bs_vol s) -> alloc_ready a (bs_vol s) -> 0 <= g < num_ags_ (bs_vol s) ->
  load_bitmap a s (1 + g) = (ok, a', s') ->
  bs_ok live s' /\ kept s s' /\ alloc_ready a' (bs_vol s') /\
  (exists bm, a' = with_bitmap a bm) /\
  (ok = true -> forall i, 0 <= i < block_size (bs_vol s) ->
     byte_at (bitmap_ a') i = byte_at (bs_view s (1 + g)) i).
Proof.
  intros Hok Hlive Ha Hg. pose proof (bitmap_block_client a _ g Ha Hg) as Hc. unfold load_bitmap.
  rewrite (proj2 (Z.leb_gt _ _)) by apply Hc.
  destruct (bs_view_len live s (1 + g) Hok Hc) as [Hlen Hb].
  pose proof (block_size_cases _ (bs_geo live s Hok)) as Hbs.
  assert (Hself : exists bm, a = with_bitmap a bm) by (exists (bitmap_ a); now destruct a).
  destruct (bs_read s (1 + g)) as [[data|] s1] eqn:Hr;
    eapply bs_read_law in Hr as (R1 & R2 & R3 & R4 & R5); eauto.
  - intros [= <- <- <-]. specialize (R5 data eq_refl). subst data.
    splits; auto; [now split| |eauto|].
    + apply (alloc_ready_geometry _ _ _ R2), alloc_ready_bitmap; [auto|..].
      * rewrite zlen_blit. apply Ha.
      * apply bytes_ok_blit; [lia|apply Ha|auto].
    + intros _ i Hi. simpl. rewrite byte_at_blit, Hlen, (ar_buf _ _ Ha) by lia.
      rewrite (proj2 (Z.leb_le _ _)), !(proj2 (Z.ltb_lt _ _)) by (unfold kMaxBlockSize; lia).
      simpl. f_equal. lia.
  - intros [= <- <- <-]. splits; auto; [now split| |discriminate].
    now apply (alloc_ready_geometry _ _ _ R2).
Qed.

(** The effect of taking [L] blocks from [l] in group [g]. *)
Record taken (s s' : S) (g l L : Z) : Prop := {
  tk_geo : same_geometry (bs_vol s) (bs_vol s');
  tk_free : run_at (bs_view s (1 + g)) (group_size (bs_vol s) g) l L;
  tk_view : forall c, client_block (bs_vol s) c -> c <> 1 + g -> bs_view s' c = bs_view s c;
  tk_bits : forall j, 0 <= j < 8 * block_size (bs_vol s) ->
    bit_set (bs_view s' (1 + g)) j =
      ((l <=? j) && (j <? l + L)) || bit_set (bs_view s (1 + g)) j;
  tk_used : used_blocks_ (bs_vol s') = u64 (used_blocks_ (bs_vol s) + L);
}.

(** No run of [n] free blocks in group [g], or below [l] in it. *)
Definition none_free (s : S) (g n : Z) : Prop :=
  forall b, 0 <= b -> ~ run_at (bs_view s (1 + g)) (group_size (bs_vol s) g) b n.
Definition none_below (s : S) (g n l : Z) : Prop :=
  forall b, 0 <= b < l -> ~ run_at (bs_view s (1 + g)) (group_size (bs_vol s) g) b n.

Lemma run_at_ext bm bm' n bits b k :
  (forall i, 0 <= i < n -> byte_at bm i = byte_at bm' i) -> bits <= 8 * n -> 0 <= b ->
  run_at bm bits b k -> run_at bm' bits b k.
Proof.
  intros He Hn Hb Hr i Hi. destruct (Hr i Hi) as [H1' H2']. split; [auto|].
  rewrite <- H2'. symmetry. apply (bit_set_ext _ _ n); [auto|lia].
Qed.

(** Writing the marked bitmap block back, and the bookkeeping. *)
Lemma take_spec a s at_ g L ok s' :
  bs_ok live s -> alloc_ready a (bs_vol s) -> 0 <= g < num_ags_ (bs_vol s) -> at_ = 1 + g ->
  bs_write s at_ (bitmap_ a) = (ok, s') ->
  bs_ok live s' /\ same_geometry (bs_vol s) (bs_vol s') /\
  (ok = true ->
     let s2 := (bs_flush (bs_set_used s' (u64 (used_blocks_ (bs_vol s') + L)))).2 in
     bs_ok live s2 /\ same_geometry (bs_vol s) (bs_vol s2) /\
     used_blocks_ (bs_vol s2) = u64 (used_blocks_ (bs_vol s) + L) /\
     (forall c, client_block (bs_vol s) c -> c <> 1 + g -> bs_view s2 c = bs_view s c) /\
     bs_view s2 (1 + g) = slice (bitmap_ a) 0 (block_size (bs_vol s))).
Proof.
  intros Hok Ha Hg -> Hw. pose proof (bitmap_block_client a _ g Ha Hg) as Hc.
  pose proof (block_size_cases _ (bs_geo live s Hok)) as Hbs.
  eapply bs_write_law in Hw as (W1 & W2 & W3 & W4 & W5); eauto; [|apply Ha|].
  2:{ rewrite (ar_buf _ _ Ha). unfold kMaxBlockSize. lia. }
  splits; auto. intros ->. destruct (W5 eq_refl) as [W6 _].
  destruct (bs_set_used_law live s' (u64 (used_blocks_ (bs_vol s') + L)) W1) as (U1 & U2 & U3 & U4).
  destruct (bs_flush _) as [okf s2] eqn:Hf.
  eapply bs_flush_law in Hf as (F1 & F2 & F3); eauto. simpl. rewrite F2.
  assert (Hcc : forall c, client_block (bs_vol s) c ->
    client_block (bs_vol (bs_set_used s' (u64 (used_blocks_ (bs_vol s') + L)))) c).
  { intros c Hcc. now rewrite <- U2, <- W2. }
  splits; auto.
  - now rewrite W2.
  - now rewrite U3, W3.
  - intros c Hcl Hne. rewrite F3, U4 by auto. now apply W4.
  - rewrite F3, U4 by auto. exact W6.
Qed.
Context (max_blocks min_blocks : Z).
Context (Hmin : 1 <= min_blocks <= max_blocks) (Hmax : max_blocks <= kMaxRun).

Lemma bits_per_block_eq a v : geometry_ok v -> alloc_ready a v -> bits_per_block a = 8 * block_size v.
Proof.
  intros Hg Ha. unfold bits_per_block. rewrite (ar_size _ _ Ha).
  pose proof (block_size_cases v Hg). rewrite u32_small by lia. lia.
Qed.

(** One group's search. *)
Lemma search_group_spec a s g r a' s' :
  bs_ok live s -> bitmap_live (bs_vol s) -> alloc_ready a (bs_vol s) -> 0 <= g < num_ags_ (bs_vol s) ->
  search_group 1 a s g (group_size (bs_vol s) g) max_blocks min_blocks 0 = (r, a', s') ->
  bs_ok live s' /\ alloc_ready a' (bs_vol s') /\
  match r with
  | Taken run => exists l L, run = mkRun g l L /\ 0 <= l /\ min_blocks <= L <= max_blocks /\
      taken s s' g l L /\ none_below s g min_blocks l
  | Next => kept s s' /\ none_free s g min_blocks
  | Refused => same_geometry (bs_vol s) (bs_vol s')
  end.
Proof.
  intros Hok Hlive Ha Hg. pose proof (bs_geo live s Hok) as Hgeo. cbn [search_group].
  unfold bitmap_block. rewrite (ar_one _ _ Ha), Z.mul_1_r, Z.add_0_r.
  destruct (load_bitmap a s (1 + g)) as [[ok a1] s1] eqn:Hload.
  apply load_bitmap_spec in Hload as (L1 & L2 & L3 & _ & L4); auto.
  destruct ok; simpl; [|intros [= <- <- <-]; splits; auto; apply L2].
  specialize (L4 eq_refl). pose proof (bs_geo live s1 L1) as Hgeo1.
  assert (Hbs : block_size (bs_vol s1) = block_size (bs_vol s)) by (symmetry; apply block_size_proper, L2).
  destruct (group_size_bits a _ g Hgeo Ha Hg) as [_ Hgs].
  rewrite (bits_per_block_eq a1 _ Hgeo1 L3), Hbs. pose proof (block_size_cases _ Hgeo) as Hcases.
  assert (Hpb : 0 < 8 * block_size (bs_vol s) <= 2 ^ 20) by (change (2 ^ 20) with 1048576; lia).
  pose proof (scan_spec (bitmap_ a1) (group_size (bs_vol s) g) (8 * block_size (bs_vol s))
    max_blocks min_blocks (proj2 Hgs) Hpb Hmin Hmax (Z.to_nat (8 * block_size (bs_vol s))) 0) as Hscan.
  specialize (Hscan ltac:(lia) ltac:(lia)).
  destruct (scan _ _ _ _ _ _ _ _) as [[l L]|].
  2:{ intros [= <- <- <-]. splits; auto. intros b Hb Hr. apply (Hscan b Hb).
      apply (run_at_ext (bs_view s (1 + g)) _ (block_size (bs_vol s))); auto; [|lia].
      intros i Hi. symmetry. now apply L4. }
  destruct Hscan as (S1 & S2 & S3 & S4).
  assert (HlL : l + L <= group_size (bs_vol s) g) by (destruct (S3 (L - 1) ltac:(lia)); lia).
  unfold kMaxRun in Hmax. set (bm := set_bits _ _ _).
  assert (Hbm : alloc_ready (with_bitmap a1 bm) (bs_vol s1)).
  { apply alloc_ready_bitmap; [auto|unfold bm; rewrite zlen_set_bits|apply bytes_ok_set_bits]; apply L3. }
  destruct (bs_write s1 (1 + g) bm) as [ok2 s2] eqn:Hw.
  assert (Hg1 : 0 <= g < num_ags_ (bs_vol s1)) by (destruct (kp_geo _ _ L2) as (_ & _ & <- & _); auto).
  eapply (take_spec (with_bitmap a1 bm) s1 _ g L) in Hw as (T1 & T2 & T3); eauto.
  destruct ok2; simpl.
  2:{ intros [= <- <- <-]. splits; auto; [now apply (alloc_ready_geometry _ _ _ T2)|].
      etransitivity; [apply L2|exact T2]. }
  destruct (T3 eq_refl) as (T4 & T5 & T6 & T7 & T8). clear T3.
  destruct (bs_flush _) as [okf s3] eqn:Hf. simpl in *. intros [= <- <- <-].
  splits; auto; [now apply (alloc_ready_geometry _ _ _ T5)|].
  exists l, L. rewrite !u16_small by lia. splits; auto; try lia.
  - split.
    + etransitivity; [apply L2|exact T5].
    + apply (run_at_ext (bitmap_ a1) _ (block_size (bs_vol s))); auto; lia.
    + intros c Hc Hne. rewrite T7; [|now rewrite <- (kp_geo _ _ L2)|auto]. now apply L2.
    + intros j Hj. rewrite T8, Hbs.
      rewrite (bit_set_ext _ bm (block_size (bs_vol s))); [|intros; apply byte_at_slice; lia|auto].
      unfold bm. rewrite bit_set_bits; try lia.
      * rewrite Z2Nat.id by lia. f_equal. now apply (bit_set_ext _ _ (block_size (bs_vol s))).
      * rewrite (ar_buf _ _ L3). unfold kMaxBlockSize. lia.
    + rewrite T6. now rewrite (kp_used _ _ L2).
  - intros b Hb Hr. apply (S4 b); [lia|].
    apply (run_at_ext (bs_view s (1 + g)) _ (block_size (bs_vol s))); auto; try lia.
    intros i Hi. symmetry. now apply L4.
Qed.

Lemma kept_run_at s s' g b n :
  kept s s' -> client_block (bs_vol s) (1 + g) ->
  run_at (bs_view s (1 + g)) (group_size (bs_vol s) g) b n <->
  run_at (bs_view s' (1 + g)) (group_size (bs_vol s') g) b n.
Proof.
  intros [Hg _ Hv] Hc. rewrite Hv by auto.
  replace (group_size (bs_vol s') g) with (group_size (bs_vol s) g); [reflexivity|].
  unfold group_size. destruct Hg as (_ & -> & _ & -> & _). reflexivity.
Qed.

Lemma kept_taken s s1 s2 g l L :
  kept s s1 -> client_block (bs_vol s) (1 + g) -> taken s1 s2 g l L -> taken s s2 g l L.
Proof.
  intros Hk Hc [T1 T2 T3 T4 T5]. pose proof Hk as [K1 K2 K3].
  assert (Hbs : block_size (bs_vol s1) = block_size (bs_vol s)) by (symmetry; apply block_size_proper, K1).
  split.
  - etransitivity; eauto.
  - now apply (kept_run_at s s1 g).
  - intros c Hcc Hne. rewrite T3, K3; auto. now rewrite <- K1.
  - intros j Hj. rewrite <- (K3 (1 + g)) by auto. apply T4. now rewrite Hbs.
  - now rewrite T5, K2.
Qed.

(** The groups' search: first fit across the volume, or nothing fits. *)
Lemma search_groups_spec fuel a s g r a' s' :
  bs_ok live s -> bitmap_live (bs_vol s) -> alloc_ready a (bs_vol s) ->
  0 <= g -> g + Z.of_nat fuel = num_ags_ (bs_vol s) ->
  search_groups fuel a s max_blocks min_blocks g = (r, a', s') ->
  bs_ok live s' /\ alloc_ready a' (bs_vol s') /\
  match r with
  | Taken run => exists h l L, run = mkRun h l L /\ g <= h < num_ags_ (bs_vol s) /\ 0 <= l /\
      min_blocks <= L <= max_blocks /\ taken s s' h l L /\ none_below s h min_blocks l /\
      (forall i, g <= i < h -> none_free s i min_blocks)
  | Next => kept s s' /\ forall i, g <= i < num_ags_ (bs_vol s) -> none_free s i min_blocks
  | Refused => same_geometry (bs_vol s) (bs_vol s')
  end.
Proof.
  revert a s g. induction fuel as [|fuel IH]; intros a s g Hok Hlive Ha Hg Hf.
  { intros [= <- <- <-]. splits; auto using kept_refl. intros i Hi. lia. }
  cbn [search_groups].
  destruct (group_size_bits a _ g (bs_geo live s Hok) Ha ltac:(lia)) as [-> Hgs].
  rewrite (proj2 (Z.eqb_neq _ _)) by lia. rewrite (ar_one _ _ Ha). change (Z.to_nat 1) with 1%nat.
  destruct (search_group 1 a s g _ _ _ _) as [[r1 a1] s1] eqn:E1.
  apply search_group_spec in E1 as (G1 & G2 & G3); auto; [|lia].
  destruct r1 as [| |run].
  2:{ intros [= <- <- <-]. auto. }
  2:{ intros [= <- <- <-]. splits; auto. destruct G3 as (l & L & -> & G4 & G5 & G6 & G7).
      exists g, l, L. splits; auto; try lia. }
  destruct G3 as [Hk Hnone]. intros E.
  assert (Hna : num_ags_ (bs_vol s1) = num_ags_ (bs_vol s))
    by (destruct (kp_geo _ _ Hk) as (_ & _ & -> & _); reflexivity).
  assert (Hcl : forall i, 0 <= i < num_ags_ (bs_vol s) -> client_block (bs_vol s) (1 + i))
    by (intros i Hi; now apply (bitmap_block_client a)).
  apply IH in E as (E1 & E2 & E3); auto; [|intros i Hi; apply Hlive; lia|lia|lia].
  assert (Hnf : forall i, 0 <= i < num_ags_ (bs_vol s) -> none_free s1 i min_blocks -> none_free s i min_blocks).
  { intros i Hi Hn b Hb Hr. apply (Hn b Hb). apply (kept_run_at s s1 i); auto. }
  splits; auto. destruct r as [| |run].
  - destruct E3 as [Hk' Hn]. split; [now apply (kept_trans s s1)|]. intros i Hi.
    destruct (Z.eq_dec i g) as [->|]; [auto|]. apply Hnf; [lia|]. apply Hn. lia.
  - etransitivity; [apply Hk|exact E3].
  - destruct E3 as (h & l & L & -> & Hh & Hl & HL & HT & Hb & Hn).
    exists h, l, L. splits; auto; try lia.
    + apply (kept_taken s s1); auto. apply Hcl. lia.
    + intros b Hbb Hr. apply (Hb b Hbb). apply (kept_run_at s s1 h); auto. apply Hcl. lia.
    + intros i Hi. destruct (Z.eq_dec i g) as [->|]; [auto|]. apply Hnf; [lia|]. apply Hn. lia.
Qed.

(** A store that is up does not refuse the search. *)
Lemma search_groups_up `{!ReliableStore S} fuel a s g :
  bs_ok live s -> bitmap_live (bs_vol s) -> alloc_ready a (bs_vol s) -> bs_up s ->
  0 <= g -> g + Z.of_nat fuel = num_ags_ (bs_vol s) ->
  (search_groups fuel a s max_blocks min_blocks g).1.1 <> Refused.
Proof.
  revert a s g. induction fuel as [|fuel IH]; intros a s g Hok Hlive Ha Hup Hg Hf; [discriminate|].
  cbn [search_groups].
  destruct (group_size_bits a _ g (bs_geo live s Hok) Ha ltac:(lia)) as [-> Hgs].
  rewrite (proj2 (Z.eqb_neq _ _)) by lia. rewrite (ar_one _ _ Ha). change (Z.to_nat 1) with 1%nat.
  destruct (search_group 1 a s g _ _ _ _) as [[r1 a1] s1] eqn:E1.
  pose proof E1 as E2. apply search_group_spec in E1 as (G1 & G2 & G3); auto; [|lia].
  pose proof (bitmap_block_client a _ g Ha ltac:(lia)) as Hc.
  cbn [search_group] in E2. unfold bitmap_block, load_bitmap in E2.
  rewrite (ar_one _ _ Ha), Z.mul_1_r, Z.add_0_r, (proj2 (Z.leb_gt _ _)) in E2 by apply Hc.
  destruct (up_read s (1 + g) Hup Hc) as (data & s2 & Hr & Hup2). rewrite Hr in E2. simpl in E2.
  eapply bs_read_law in Hr as (_ & R2 & _); eauto; [|apply Hlive; lia].
  destruct (scan _ _ _ _ _ _ _ _) as [[l L]|].
  - destruct (up_write s2 (1 + g) (set_bits (blit (bitmap_ a) 0 data) l (Z.to_nat L)) Hup2)
      as (s3 & Hw & _); [now rewrite <- R2|].
    rewrite Hw in E2. simpl in E2. destruct (bs_flush _). injection E2 as <- _ _. discriminate.
  - injection E2 as <- <- <-. destruct (kp_geo _ _ (proj1 G3)) as (_ & _ & Hna & _).
    apply IH; auto; [intros i Hi; apply Hlive; lia|lia|lia].
Qed.
End allocation.

(** ** Block by block *)

Section by_block.
Context {S : Type} `{BlockStoreLaws S}.
Context (live : Z -> Prop) (a : Allocator) (s : S).
Context (Hok : bs_ok live s) (Hlive : bitmap_live live (bs_vol s)) (Ha : alloc_ready a (bs_vol s)).
Local Notation v := (bs_vol s).
Local Notation P := (2 ^ ag_shift_ v).

(** A free run of a group, as blocks of the volume. *)
Lemma free_run_blocks g l L :
  0 <= g < num_ags_ v -> 0 <= l -> 0 < L <= kMaxRun -> run_at (bs_view s (1 + g)) (group_size v g) l L ->
  let r := mkRun g l L in
  run_ok r /\ validate_run v r = true /\ to_block v r = g * P + l /\ l + L <= P.
Proof.
  unfold kMaxRun. intros Hg Hl HL Hr. pose proof (bs_geo live s Hok) as Hgeo.
  pose proof (span_pos v Hgeo). pose proof (geo_groups_u32 v Hgeo).
  assert (Hfit : l + L <= P /\ g * P + l + L <= num_blocks_ v).
  { destruct (Hr (L - 1) ltac:(lia)) as [Hlt _]. unfold group_size in Hlt. lia. }
  simpl. splits; try lia.
  - unfold run_ok; simpl. lia.
  - unfold validate_run; simpl. rewrite to_block_sum by (auto; lia).
    rewrite (proj2 (Z.eqb_neq L 0)), (proj2 (Z.leb_gt _ _)) by lia. simpl.
    pose proof (geo_ag v Hgeo). rewrite Z.shiftl_1_l, (proj2 (Z.ltb_ge _ _)) by lia. apply Z.leb_le. lia.
  - apply to_block_sum; auto; lia.
Qed.

Lemma block_group b : 0 <= b < num_blocks_ v -> 0 <= b / P < num_ags_ v /\ 0 <= b mod P < P.
Proof.
  intros Hb. pose proof (bs_geo live s Hok) as Hgeo. pose proof (span_pos v Hgeo).
  destruct (to_run_parts v Hgeo b Hb) as [_ Hlt]. split; [|apply Z.mod_pos_bound; lia].
  split; [apply Z.div_pos; lia|auto].
Qed.

Lemma free_run_used g l L b :
  0 <= g < num_ags_ v -> 0 <= l -> run_at (bs_view s (1 + g)) (group_size v g) l L ->
  g * P + l <= b < g * P + l + L -> l + L <= P -> used_block s b = false.
Proof.
  intros Hg Hl Hr Hb Hfit. unfold used_block. pose proof (span_pos v (bs_geo live s Hok)).
  assert (E : b / P = g /\ b mod P = b - g * P).
  { replace b with (b - g * P + g * P) by lia. rewrite Z.div_add, Z.mod_add by lia.
    rewrite Z.div_small, Z.mod_small by lia. lia. }
  destruct E as [-> ->]. destruct (Hr (b - g * P - l)) as [_ Hf]; [lia|].
  rewrite <- Hf. f_equal. lia.
Qed.

(** Taking a run marks its blocks and no other. *)
Lemma taken_used s' g l L b :
  0 <= g < num_ags_ v -> 0 <= l -> 0 < L <= kMaxRun -> taken s s' g l L -> 0 <= b < num_blocks_ v ->
  used_block s' b = ((g * P + l <=? b) && (b <? g * P + l + L)) || used_block s b.
Proof.
  intros Hg Hl HL HT Hb. pose proof (span_pos v (bs_geo live s Hok)).
  destruct (free_run_blocks g l L Hg Hl HL (tk_free _ _ _ _ _ HT)) as (_ & _ & _ & Hfit).
  pose proof (tk_geo _ _ _ _ _ HT) as (_ & Hsh & _). unfold used_block. rewrite <- Hsh.
  destruct (block_group b Hb) as [Hh Hj]. assert (Hdm : b = P * (b / P) + b mod P) by (apply Z.div_mod; lia).
  pose proof (ar_fits _ _ Ha) as Hfits. set (h := b / P) in *. set (j := b mod P) in *.
  destruct (Z.eq_dec h g) as [->|Hne].
  - rewrite (tk_bits _ _ _ _ _ HT) by lia. f_equal. f_equal; zcase; zcase; auto; lia.
  - rewrite (tk_view _ _ _ _ _ HT); [|now apply (bitmap_block_client a)|lia].
    replace ((g * P + l <=? b) && (b <? g * P + l + L)) with false; [reflexivity|].
    symmetry. apply andb_false_iff. rewrite Z.leb_gt, Z.ltb_ge. nia.
Qed.
End by_block.

(** The clamps [allocate] applies to its arguments. *)
Definition clamp_max (max_blocks : Z) : Z := Z.min max_blocks kMaxRun.
Definition clamp_min (max_blocks min_blocks : Z) : Z := Z.min min_blocks (clamp_max max_blocks).

Section allocate.
Context {S : Type} `{BlockStoreLaws S}.
Context (live : Z -> Prop) (a : Allocator) (s : S) (max_blocks min_blocks : Z).
Context (Hok : bs_ok live s) (Hlive : bitmap_live live (bs_vol s)) (Ha : alloc_ready a (bs_vol s)).
Context (Hmax : 1 <= max_blocks) (Hmin : 1 <= min_blocks).

Lemma allocate_search :
  allocate a s max_blocks min_blocks =
  match search_groups (Z.to_nat (num_ags_ (bs_vol s))) a s (clamp_max max_blocks)
          (clamp_min max_blocks min_blocks) 0 with
  | (Taken run, a, s) => (Some run, a, s)
  | (_, a, s) => (None, a, s)
  end.
Proof.
  unfold allocate. rewrite (ar_volume _ _ Ha), !(proj2 (Z.eqb_neq _ 0)) by lia. cbn [orb negb].
  replace (if kMaxRun <? max_blocks then kMaxRun else max_blocks) with (clamp_max max_blocks)
    by (unfold clamp_max; zcase; lia).
  replace (if clamp_max max_blocks <? min_blocks then clamp_max max_blocks else min_blocks)
    with (clamp_min max_blocks min_blocks) by (unfold clamp_min; zcase; lia).
  reflexivity.
Qed.

Lemma clamps :
  1 <= clamp_min max_blocks min_blocks <= clamp_max max_blocks /\ clamp_max max_blocks <= kMaxRun.
Proof. unfold clamp_min, clamp_max, kMaxRun. lia. Qed.

Lemma allocate_taken run a' s' :
  allocate a s max_blocks min_blocks = (Some run, a', s') ->
  bs_ok live s' /\ alloc_ready a' (bs_vol s') /\
  exists g l L, run = mkRun g l L /\ 0 <= g < num_ags_ (bs_vol s) /\ 0 <= l /\
    clamp_min max_blocks min_blocks <= L <= clamp_max max_blocks /\ taken s s' g l L.
Proof.
  rewrite allocate_search. destruct clamps as [C1 C2].
  destruct (search_groups _ _ _ _ _ _) as [[r a1] s1] eqn:E. pose proof (geo_groups_u32 _ (bs_geo live s Hok)).
  pose proof (ar_room _ _ Ha).
  apply (search_groups_spec live _ _ C1 C2) in E as (E1 & E2 & E3); auto; [|lia|].
  2:{ rewrite Z2Nat.id; [lia|]. pose proof (geo_groups _ (bs_geo live s Hok)).
      pose proof (span_pos _ (bs_geo live s Hok)). pose proof (geo_blocks _ (bs_geo live s Hok)).
      rewrite H3. apply Z.div_pos; lia. }
  destruct r; try discriminate. intros [= <- <- <-].
  destruct E3 as (g & l & L & -> & Hg & Hl & HL & HT & _). splits; auto.
  exists g, l, L. splits; auto; lia.
Qed.
End allocate.

(** ** Counting *)

(** How many of the first [n] blocks satisfy [f]. *)
Fixpoint count_blocks (f : Z -> bool) (n : nat) : Z :=
  match n with
  | O => 0
  | S n => count_blocks f n + (if f (Z.of_nat n) then 1 else 0)
  end.

Lemma count_blocks_range f g lo L (n : nat) :
  0 <= lo -> 0 <= L ->
  (forall b, 0 <= b < Z.of_nat n -> g b = ((lo <=? b) && (b <? lo + L)) || f b) ->
  (forall b, lo <= b < lo + L -> f b = false) ->
  count_blocks g n = count_blocks f n + Z.max 0 (Z.min (Z.of_nat n) (lo + L) - lo).
Proof.
  intros Hlo HL. induction n as [|n IH]; intros Hg Hf; [cbn [count_blocks]; lia|].
  cbn [count_blocks]. rewrite IH by (auto; intros; apply Hg; lia). rewrite (Hg (Z.of_nat n)) by lia.
  destruct (Z.leb_spec lo (Z.of_nat n)), (Z.ltb_spec (Z.of_nat n) (lo + L)); simpl;
    rewrite ?Hf by lia; destruct (f (Z.of_nat n)); lia.
Qed.

(** The superblock's count is the number of blocks marked in use. *)
Definition count_ok {S} `{BlockStoreLaws S} (s : S) : Prop :=
  used_blocks_ (bs_vol s) = count_blocks (used_block s) (Z.to_nat (num_blocks_ (bs_vol s))).

Lemma count_blocks_bound f n : 0 <= count_blocks f n <= Z.of_nat n.
Proof. induction n as [|n IH]; cbn [count_blocks]; [lia|]. destruct (f _); lia. Qed.

(** * The allocator's contract *)

(** C9: What [allocate] hands out is sound, on a volume whose groups have one
    bitmap block each.  The run validates, is at most 65535 blocks and between
    the (clamped) bounds asked for; none of its blocks was in use; afterwards its
    blocks are in use and every other block's mark is as it was; the contents of
    the blocks that are not bitmap blocks are untouched. *)
Theorem allocate_sound {S} `{BlockStoreLaws S} (live : Z -> Prop) (a a' : Allocator) (s s' : S)
    (max_blocks min_blocks : Z) (run : Run) :
  bs_ok live s -> bitmap_live live (bs_vol s) -> alloc_ready a (bs_vol s) ->
  1 <= max_blocks -> 1 <= min_blocks ->
  allocate a s max_blocks min_blocks = (Some run, a', s') ->
  bs_ok live s' /\ alloc_ready a' (bs_vol s') /\ run_ok run /\ validate_run (bs_vol s) run = true /\
  clamp_min max_blocks min_blocks <= run_length run <= clamp_max max_blocks /\
  (forall b, in_run (bs_vol s) run b -> used_block s b = false) /\
  (forall b, 0 <= b < num_blocks_ (bs_vol s) ->
     used_block s' b = true <-> in_run (bs_vol s) run b \/ used_block s b = true) /\
  (forall c, num_ags_ (bs_vol s) < c < num_blocks_ (bs_vol s) -> bs_view s' c = bs_view s c).
Proof.
  intros Hok Hlive Ha Hmax Hmin E.
  destruct (allocate_taken live a s max_blocks min_blocks Hok Hlive Ha Hmax Hmin run a' s' E)
    as (E1 & E2 & g & l & L & -> & Hg & Hl & HL & HT).
  destruct (clamps max_blocks min_blocks Hmax Hmin) as [C1 C2].
  assert (HL' : 0 < L <= kMaxRun) by lia.
  destruct (free_run_blocks live s Hok g l L Hg Hl HL' (tk_free _ _ _ _ _ HT)) as (R1 & R2 & R3 & R4).
  unfold in_run. rewrite R3. cbn [run_length]. splits; auto; try lia.
  - intros b Hb. eapply (free_run_used live s Hok g l L); eauto using tk_free.
  - intros b Hb. rewrite (taken_used live a s Hok Ha s' g l L b) by auto.
    rewrite orb_true_iff, andb_true_iff, Z.leb_le, Z.ltb_lt. tauto.
  - intros c Hc. apply (tk_view _ _ _ _ _ HT); [unfold client_block; lia|lia].
Qed.

(** The superblock's [used_blocks] stays the number of blocks marked in use
    across an allocation. *)
Theorem allocate_count {S} `{BlockStoreLaws S} (live : Z -> Prop) (a a' : Allocator) (s s' : S)
    (max_blocks min_blocks : Z) (run : Run) :
  bs_ok live s -> bitmap_live live (bs_vol s) -> alloc_ready a (bs_vol s) ->
  1 <= max_blocks -> 1 <= min_blocks -> count_ok s ->
  allocate a s max_blocks min_blocks = (Some run, a', s') -> count_ok s'.
Proof.
  intros Hok Hlive Ha Hmax Hmin Hc E.
  destruct (allocate_taken live a s max_blocks min_blocks Hok Hlive Ha Hmax Hmin run a' s' E)
    as (E1 & E2 & g & l & L & -> & Hg & Hl & HL & HT).
  destruct (clamps max_blocks min_blocks Hmax Hmin) as [C1 C2].
  assert (HL' : 0 < L <= kMaxRun) by lia. pose proof (bs_geo live s Hok) as Hgeo.
  destruct (free_run_blocks live s Hok g l L Hg Hl HL' (tk_free _ _ _ _ _ HT)) as (R1 & R2 & R3 & R4).
  destruct (validate_run_true _ Hgeo _ R1 R2) as (_ & V2 & V3 & _). rewrite R3 in V2, V3. cbn [run_length] in V3.
  pose proof (num_blocks_u48 _ Hgeo). pose proof (geo_blocks _ Hgeo). unfold count_ok in *.
  rewrite (tk_used _ _ _ _ _ HT), Hc.
  replace (num_blocks_ (bs_vol s')) with (num_blocks_ (bs_vol s))
    by (destruct (tk_geo _ _ _ _ _ HT) as (_ & _ & _ & -> & _); reflexivity).
  rewrite (count_blocks_range (used_block s) (used_block s') (g * 2 ^ ag_shift_ (bs_vol s) + l) L).
  - pose proof (count_blocks_bound (used_block s) (Z.to_nat (num_blocks_ (bs_vol s)))).
    unfold kMaxRun in HL'. rewrite u64_small by lia. lia.
  - lia.
  - lia.
  - intros b Hb. apply (taken_used live a s Hok Ha); auto. lia.
  - intros b Hb. eapply (free_run_used live s Hok g l L); eauto using tk_free.
Qed.

(** [allocate] refuses only when it must: when the store answers every read
    and write, a refusal means that every run of the (clamped) minimum length
    that validates has a block in use. *)
Theorem allocate_complete {S} `{BlockStoreLaws S} `{!ReliableStore S} (live : Z -> Prop)
    (a a' : Allocator) (s s' : S) (max_blocks min_blocks : Z) (r : Run) :
  bs_ok live s -> bitmap_live live (bs_vol s) -> alloc_ready a (bs_vol s) -> bs_up s ->
  1 <= max_blocks -> 1 <= min_blocks -> allocate a s max_blocks min_blocks = (None, a', s') ->
  run_ok r -> validate_run (bs_vol s) r = true -> run_length r = clamp_min max_blocks min_blocks ->
  exists b, in_run (bs_vol s) r b /\ used_block s b = true.
Proof.
  intros Hok Hlive Ha Hup Hmax Hmin E Hr Hv Hlen.
  pose proof (bs_geo live s Hok) as Hgeo. pose proof (span_pos _ Hgeo) as Hsp.
  assert (Hna : 0 <= num_ags_ (bs_vol s)).
  { rewrite (geo_groups _ Hgeo). pose proof (geo_blocks _ Hgeo). apply Z.div_pos; lia. }
  rewrite (allocate_search a s max_blocks min_blocks Ha Hmax Hmin) in E.
  destruct (clamps max_blocks min_blocks Hmax Hmin) as [C1 C2].
  pose proof (search_groups_up live _ _ C1 C2 (Z.to_nat (num_ags_ (bs_vol s))) a s 0) as Hnr.
  destruct (search_groups _ _ _ _ _ _) as [[q a1] s1] eqn:Es.
  apply (search_groups_spec live _ _ C1 C2) in Es as (_ & _ & E3); auto; [|lia..].
  destruct q; [|exfalso; apply Hnr; auto; lia|discriminate]. destruct E3 as [_ Hnone].
  destruct (validate_run_true _ Hgeo r Hr Hv) as (V1 & V2 & V3 & V4 & V5).
  assert (Hgr : 0 <= allocation_group r < num_ags_ (bs_vol s)).
  { unfold validate_run in Hv. destruct (_ || _) eqn:Eo in Hv; [discriminate|]. breflect.
    destruct Hr. lia. }
  destruct (decide (Exists (fun b => used_block s b = true) (seqZ (to_block (bs_vol s) r) (run_length r))))
    as [Hex|Hnex].
  - apply Exists_exists in Hex as (b & Hin & Hu). apply elem_of_seqZ in Hin. exists b. unfold in_run. auto.
  - exfalso. assert (Hst : 0 <= start r < 65536) by apply Hr.
    refine (Hnone (allocation_group r) Hgr (start r) (proj1 Hst) _).
    intros k Hk. split; [unfold group_size; lia|]. apply not_true_iff_false. intros Hu. apply Hnex.
    apply Exists_exists. exists (to_block (bs_vol s) r + k).
    split; [apply elem_of_seqZ; lia|]. unfold used_block. rewrite V4.
    replace (allocation_group r * 2 ^ ag_shift_ (bs_vol s) + start r + k)
      with (start r + k + allocation_group r * 2 ^ ag_shift_ (bs_vol s)) by lia.
    rewrite Z.div_add, Z.mod_add, Z.div_small, Z.mod_small by lia. exact Hu.
Qed.

(** * Frees *)

Section free.
Context {S : Type} `{BlockStoreLaws S}.

(** The blocks of [r] are data blocks: past the superblock and the bitmaps. *)
Definition data_run (v : Volume) (r : Run) : Prop :=
  run_ok r /\ validate_run v r = true /\ num_ags_ v < to_block v r.

(** The run held back for a discard, when there is one, is a run of data. *)
Definition queue_ok (a : Allocator) (v : Volume) : Prop :=
  discard_pending_ a = true -> data_run v (pending_discard_ a).

#[export] Instance data_run_proper : Proper (same_geometry ==> eq ==> iff) data_run.
Proof.
  intros v w Hg r _ <-. unfold data_run. now rewrite Hg.
Qed.

Definition pending_block (a : Allocator) (v : Volume) (b : Z) : Prop :=
  discard_pending_ a = true /\ in_run v (pending_discard_ a) b.

(** Two touching runs of one group are one run. *)
Lemma merge_runs v p r :
  geometry_ok v -> data_run v p -> data_run v r -> allocation_group p = allocation_group r ->
  start r = start p + run_length p -> run_length p + run_length r <= kMaxRun ->
  let m := mkRun (allocation_group p) (start p) (u16 (run_length p + run_length r)) in
  data_run v m /\ forall b, in_run v m b <-> in_run v p b \/ in_run v r b.
Proof.
  intros Hg (P1 & P2 & P3) (R1 & R2 & R3) Hag Hst Hlen m. unfold kMaxRun in Hlen.
  destruct (validate_run_true v Hg p P1 P2) as (p1 & p2 & p3 & p4 & p5).
  destruct (validate_run_true v Hg r R1 R2) as (r1 & r2 & r3 & r4 & r5).
  destruct P1 as (Hgp & Hsp & Hlp), R1 as (Hgr & Hsr & Hlr). pose proof (span_pos v Hg).
  assert (Hm : to_block v m = to_block v p) by reflexivity.
  assert (Hml : run_length m = run_length p + run_length r) by (apply u16_small; lia).
  rewrite Hag in p4. split.
  - split; [|split].
    + unfold run_ok. rewrite Hml. simpl. lia.
    + unfold validate_run. rewrite Hm, Hml. simpl. pose proof (geo_ag v Hg). rewrite Z.shiftl_1_l.
      unfold validate_run in P2. destruct (_ || _) eqn:E in P2; [discriminate|]. breflect.
      rewrite (proj2 (Z.eqb_neq _ 0)), (proj2 (Z.leb_gt _ _)), (proj2 (Z.ltb_ge _ _)) by lia.
      apply Z.leb_le. lia.
    + now rewrite Hm.
  - intros b. unfold in_run. rewrite Hm, Hml. lia.
Qed.

(** Discarding data leaves the bitmaps alone. *)
Lemma discard_data live s p :
  bs_ok live s -> data_run (bs_vol s) p ->
  let s' := (bs_discard s p).2 in
  (exists live', bs_ok live' s' /\ (forall c, live c -> c <= num_ags_ (bs_vol s) -> live' c)) /\
  bs_vol s' = bs_vol s /\
  (forall c, client_block (bs_vol s) c -> c <= num_ags_ (bs_vol s) -> bs_view s' c = bs_view s c).
Proof.
  intros Hok (Q1 & Q2 & Q3). destruct (bs_discard s p) as [okd s1] eqn:Hdis. simpl.
  eapply bs_discard_law in Hdis as (D1 & D2 & D3); eauto.
  assert (Hout : forall c, c <= num_ags_ (bs_vol s) -> ~ in_run (bs_vol s) p c)
    by (unfold in_run; intros; lia).
  splits; auto. eexists. split; [exact D1|]. intros c Hc Hn. split; auto.
Qed.

Lemma queue_discard_spec live a s r a' s' :
  bs_ok live s -> al_volume a = true -> queue_ok a (bs_vol s) -> data_run (bs_vol s) r ->
  queue_discard a s r = (a', s') ->
  (exists live', bs_ok live' s' /\ (forall c, live c -> c <= num_ags_ (bs_vol s) -> live' c)) /\
  bs_vol s' = bs_vol s /\ queue_ok a' (bs_vol s) /\
  (exists p q, a' = with_pending a p q) /\
  (forall c, client_block (bs_vol s) c -> c <= num_ags_ (bs_vol s) -> bs_view s' c = bs_view s c) /\
  (discard_ (bs_vol s) = true ->
     (s' = s /\ forall b, pending_block a' (bs_vol s) b <-> pending_block a (bs_vol s) b \/ in_run (bs_vol s) r b) \/
     (s' = (bs_discard s (pending_discard_ a)).2 /\ discard_pending_ a = true /\
        forall b, pending_block a' (bs_vol s) b <-> in_run (bs_vol s) r b)).
Proof.
  intros Hok Hvol Hq Hr. pose proof (bs_geo live s Hok) as Hg. unfold queue_discard. rewrite Hvol.
  assert (Hrl : run_length r =? 0 = false).
  { destruct Hr as (R1 & R2 & _). destruct (validate_run_true _ Hg r R1 R2). apply Z.eqb_neq. lia. }
  rewrite Hrl, orb_false_r. cbn [negb orb].
  assert (Hsame : exists live', bs_ok live' s /\ (forall c, live c -> c <= num_ags_ (bs_vol s) -> live' c)) by eauto.
  assert (Hself : exists p q, a = with_pending a p q) by (exists (pending_discard_ a), (discard_pending_ a); now destruct a).
  destruct (discard_ (bs_vol s)) eqn:Hd; cbn [negb].
  2:{ intros [= <- <-]. splits; auto. discriminate. }
  set (p := pending_discard_ a) in *. unfold queue_ok, pending_block in *. fold p in Hq.
  destruct (discard_pending_ a && (allocation_group p =? allocation_group r) &&
            (run_length p + run_length r <=? kMaxRun)) eqn:Hnear; cbn [andb].
  - breflect. specialize (Hq H1).
    destruct (Z.eqb_spec (start r) (start p + run_length p)) as [E|E].
    { destruct (merge_runs _ p r Hg Hq Hr) as [M1 M2]; auto.
      intros [= <- <-]. splits; eauto. intros _. left. split; [auto|]. intros b. simpl. rewrite M2. intuition. }
    destruct (Z.eqb_spec (start p) (start r + run_length r)) as [E'|E'].
    { destruct (merge_runs _ r p Hg Hr Hq) as [M1 M2]; auto; [lia|].
      rewrite (Z.add_comm (run_length p)), H3.
      intros [= <- <-]. splits; eauto. intros _. left. split; [auto|]. intros b. simpl. rewrite M2. intuition. }
    unfold flush_discards. rewrite H1, Hvol. fold p. cbn [andb]. intros [= <- <-].
    destruct (discard_data live s p Hok Hq) as (D1 & D2 & D3).
    splits; eauto. intros _. right. splits; auto. intros b. simpl. tauto.
  - unfold flush_discards. rewrite Hvol, andb_true_r. fold p.
    destruct (discard_pending_ a) eqn:Hp.
    + intros [= <- <-]. specialize (Hq eq_refl).
      destruct (discard_data live s p Hok Hq) as (D1 & D2 & D3).
      splits; eauto. intros _. right. splits; auto. intros b. simpl. tauto.
    + intros [= <- <-]. simpl. splits; eauto. intros _. left. split; [auto|]. intros b. intuition congruence.
Qed.

(** Clearing a run's bits one at a time. *)
Lemma free_bits_spec live n a s r k a' s' :
  bs_ok live s -> bitmap_live live (bs_vol s) -> alloc_ready a (bs_vol s) -> data_run (bs_vol s) r ->
  0 <= k -> k + Z.of_nat n <= run_length r -> free_bits n a s r k = (true, a', s') ->
  bs_ok live s' /\ alloc_ready a' (bs_vol s') /\ (exists bm, a' = with_bitmap a bm) /\
  same_geometry (bs_vol s) (bs_vol s') /\ used_blocks_ (bs_vol s') = used_blocks_ (bs_vol s) /\
  (forall c, client_block (bs_vol s) c -> c <> 1 + allocation_group r -> bs_view s' c = bs_view s c) /\
  (forall j, 0 <= j < 8 * block_size (bs_vol s) ->
     bit_set (bs_view s' (1 + allocation_group r)) j =
       negb ((start r + k <=? j) && (j <? start r + k + Z.of_nat n)) &&
       bit_set (bs_view s (1 + allocation_group r)) j).
Proof.
  revert a s k. induction n as [|n IH]; intros a s k Hok Hlive Ha Hr Hk Hn; cbn [free_bits].
  { intros [= <- <-]. splits; auto; [exists (bitmap_ a); now destruct a|reflexivity|].
    intros j Hj. destruct (Z.leb_spec (start r + k) j), (Z.ltb_spec j (start r + k + Z.of_nat 0)); auto; lia. }
  pose proof (bs_geo live s Hok) as Hgeo. pose proof (span_pos _ Hgeo) as Hsp.
  pose proof (block_size_cases _ Hgeo) as Hcases. pose proof Hr as (R1 & R2 & R3).
  destruct (validate_run_true _ Hgeo r R1 R2) as (V1 & V2 & V3 & V4 & V5).
  assert (Hg : 0 <= allocation_group r < num_ags_ (bs_vol s)).
  { unfold validate_run in R2. destruct (_ || _) eqn:E in R2; [discriminate|]. breflect. destruct R1. lia. }
  destruct R1 as (_ & Hst & _). pose proof (ar_fits _ _ Ha) as Hfits.
  rewrite (bits_per_block_eq a _ Hgeo Ha), Z.div_small, Z.mod_small by lia.
  unfold bitmap_block. rewrite (ar_one _ _ Ha), Z.mul_1_r, Z.add_0_r.
  destruct (load_bitmap _ _ _) as [[ok1 a1] s1] eqn:El.
  apply (load_bitmap_spec live) in El as (L1 & L2 & L3 & [bm1 ->] & L4); auto.
  destruct ok1; cbn [negb]; [|discriminate]. specialize (L4 eq_refl). pose proof L2 as [K1 K2 K3].
  set (bm := clear_bit _ _).
  assert (Hbm : alloc_ready (with_bitmap a bm) (bs_vol s1)).
  { apply (alloc_ready_geometry _ _ _ K1), alloc_ready_bitmap; auto; unfold bm.
    - rewrite zlen_clear_bit. apply (ar_buf _ _ L3).
    - apply bytes_ok_clear_bit, (ar_bytes _ _ L3). }
  change (with_bitmap (with_bitmap a bm1) bm) with (with_bitmap a bm).
  assert (Hbs : block_size (bs_vol s1) = block_size (bs_vol s)) by now rewrite <- K1.
  pose proof (bitmap_block_client a _ _ Ha Hg) as Hc.
  destruct (bs_write s1 _ _) as [ok2 s2] eqn:Hw.
  eapply bs_write_law in Hw as (W1 & W2 & W3 & W4 & W5); eauto; [|now rewrite <- K1|apply Hbm|].
  2:{ rewrite (ar_buf _ _ Hbm), Hbs. unfold kMaxBlockSize. lia. }
  destruct ok2; cbn [negb]; [|discriminate]. destruct (W5 eq_refl) as [W6 _]. clear W5.
  assert (Hg2 : same_geometry (bs_vol s) (bs_vol s2)) by (now rewrite K1).
  intros E. apply IH in E as (I1 & I2 & [bm2 I3] & I4 & I5 & I6 & I7); auto; try lia.
  2:{ intros g Hgg. apply Hlive. now rewrite Hg2. }
  2:{ now apply (alloc_ready_geometry _ _ _ W2). }
  2:{ now rewrite <- Hg2. }
  splits; auto; try congruence.
  - exists bm2. now rewrite I3.
  - now rewrite Hg2.
  - intros c Hcc Hne. rewrite I6, W4, K3; auto; [now rewrite <- K1|now rewrite <- Hg2].
  - intros j Hj. rewrite I7 by now rewrite <- Hg2. rewrite W6, Hbs.
    rewrite (bit_set_ext _ bm (block_size (bs_vol s))); [|intros; apply byte_at_slice; lia|auto].
    unfold bm. rewrite bit_set_clear; [|rewrite (ar_buf _ _ L3); unfold kMaxBlockSize; lia|lia].
    rewrite (bit_set_ext (bitmap_ _) (bs_view s (1 + allocation_group r)) (block_size (bs_vol s))) by auto.
    destruct (bit_set _ j); rewrite ?andb_false_r; [|reflexivity]. rewrite !andb_true_r.
    destruct (Z.leb_spec (start r + (k + 1)) j), (Z.ltb_spec j (start r + (k + 1) + Z.of_nat n)),
      (Z.eqb_spec (start r + k) j), (Z.leb_spec (start r + k) j),
      (Z.ltb_spec j (start r + k + Z.of_nat (Datatypes.S n))); simpl; auto; lia.
Qed.
End free.

(** [free] returns exactly the run's blocks. *)
Lemma free_law {S} `{BlockStoreLaws S} (live : Z -> Prop) (a a' : Allocator) (s s' : S) (r : Run) :
  bs_ok live s -> bitmap_live live (bs_vol s) -> alloc_ready a (bs_vol s) -> queue_ok a (bs_vol s) ->
  data_run (bs_vol s) r -> free a s r = (true, a', s') ->
  same_geometry (bs_vol s) (bs_vol s') /\
  (exists live', bs_ok live' s' /\ bitmap_live live' (bs_vol s')) /\
  alloc_ready a' (bs_vol s') /\ queue_ok a' (bs_vol s') /\
  used_blocks_ (bs_vol s') = Z.max 0 (used_blocks_ (bs_vol s) - run_length r) /\
  (forall b, 0 <= b < num_blocks_ (bs_vol s) ->
     used_block s' b = true <-> used_block s b = true /\ ~ in_run (bs_vol s) r b).
Proof.
  intros Hok Hlive Ha Hq Hr. pose proof (bs_geo live s Hok) as Hgeo. pose proof Hr as (R1 & R2 & R3).
  destruct (validate_run_true _ Hgeo r R1 R2) as (V1 & V2 & V3 & V4 & V5).
  unfold free. rewrite (ar_volume _ _ Ha), (proj2 (Z.eqb_neq _ 0)) by lia. cbn [negb orb].
  destruct (free_bits _ a s r 0) as [[ok a1] s1] eqn:Ef. destruct ok; cbn [negb]; [|discriminate].
  apply (free_bits_spec live) in Ef as (F1 & F2 & [bm ->] & F4 & F5 & F6 & F7); auto; try lia.
  set (u := if run_length r <=? _ then _ else 0).
  assert (Hu : u = Z.max 0 (used_blocks_ (bs_vol s) - run_length r)) by (unfold u; rewrite F5; zcase; lia).
  destruct (bs_set_used_law live s1 u F1) as (U1 & U2 & U3 & U4).
  destruct (bs_flush _) as [okf s2] eqn:Hf. eapply bs_flush_law in Hf as (B1 & B2 & B3); eauto.
  destruct (queue_discard _ _ _) as [a2 s3] eqn:Hqd. intros [= <- <-].
  assert (Hg2 : same_geometry (bs_vol s) (bs_vol s2)) by (rewrite B2, F4; exact U2).
  eapply (queue_discard_spec live) in Hqd as ((live' & Q1 & Q1') & Q2 & Q3 & (p & q & Q4) & Q5 & _); auto.
  2:{ apply (ar_volume _ _ F2). }
  2:{ intros Hp. rewrite <- Hg2. now apply Hq. }
  2:{ now rewrite <- Hg2. }
  rewrite Q2. splits.
  - exact Hg2.
  - exists live'. split; [auto|]. intros g Hg. rewrite <- Hg2 in Hg. apply Q1'; [now apply Hlive|].
    rewrite <- Hg2. lia.
  - subst a2. apply (alloc_ready_geometry _ _ _ U2) in F2. rewrite B2. destruct F2. now split.
  - exact Q3.
  - rewrite B2, U3. exact Hu.
  - intros b Hb. pose proof (block_group live s Hok b Hb) as [Hh Hj]. pose proof (span_pos _ Hgeo) as Hsp.
    assert (Hdm : b = 2 ^ ag_shift_ (bs_vol s) * (b / 2 ^ ag_shift_ (bs_vol s)) + b mod 2 ^ ag_shift_ (bs_vol s))
      by (apply Z.div_mod; lia).
    pose proof (bitmap_block_client a _ _ Ha Hh) as Hc.
    assert (Hv3 : bs_view s3 (1 + b / 2 ^ ag_shift_ (bs_vol s)) = bs_view s1 (1 + b / 2 ^ ag_shift_ (bs_vol s))).
    { rewrite Q5; [|now rewrite <- Hg2|rewrite <- Hg2; lia].
      rewrite B3, U4; [reflexivity|]. now rewrite <- U2, <- F4. }
    unfold used_block. replace (ag_shift_ (bs_vol s3)) with (ag_shift_ (bs_vol s))
      by (rewrite Q2; destruct Hg2 as (_ & -> & _); reflexivity).
    rewrite Hv3. unfold in_run. rewrite V4. pose proof (ar_fits _ _ Ha).
    destruct (Z.eq_dec (b / 2 ^ ag_shift_ (bs_vol s)) (allocation_group r)) as [E|E].
    + rewrite E in *. rewrite F7 by lia. rewrite andb_true_iff, negb_true_iff, andb_false_iff, Z.leb_gt, Z.ltb_ge.
      rewrite Z2Nat.id by lia. intuition lia.
    + rewrite F6 by (auto; lia). destruct R1 as (Hrg & Hst & _). intuition. nia.
Qed.

(** [free] returns exactly the run's blocks.  On success the run's blocks
    are no longer in use, every other mark is as it was, the used count drops by
    the run's length (never below zero), the bitmaps stay readable, and the run
    held back for a discard is still one of data blocks. *)
Theorem free_sound {S} `{BlockStoreLaws S} (live : Z -> Prop) (a a' : Allocator) (s s' : S) (r : Run) :
  bs_ok live s -> bitmap_live live (bs_vol s) -> alloc_ready a (bs_vol s) -> queue_ok a (bs_vol s) ->
  data_run (bs_vol s) r -> free a s r = (true, a', s') ->
  (exists live', bs_ok live' s' /\ bitmap_live live' (bs_vol s')) /\
  alloc_ready a' (bs_vol s') /\ queue_ok a' (bs_vol s') /\
  used_blocks_ (bs_vol s') = Z.max 0 (used_blocks_ (bs_vol s) - run_length r) /\
  (forall b, 0 <= b < num_blocks_ (bs_vol s) ->
     used_block s' b = true <-> used_block s b = true /\ ~ in_run (bs_vol s) r b).
Proof.
  intros Hok Hlive Ha Hq Hr E. exact (proj2 (free_law live a a' s s' r Hok Hlive Ha Hq Hr E)).
Qed.

(** The discards cover exactly what was freed: with a discard transport,
    queueing a freed run either joins it to the run held back (the blocks held
    back are then those of both), or first discards the run held back and holds
    the new one. *)
Theorem queue_discard_covers {S} `{BlockStoreLaws S} (live : Z -> Prop) (a a' : Allocator) (s s' : S) (r : Run) :
  bs_ok live s -> al_volume a = true -> queue_ok a (bs_vol s) -> data_run (bs_vol s) r ->
  discard_ (bs_vol s) = true -> queue_discard a s r = (a', s') ->
  queue_ok a' (bs_vol s) /\
  ((s' = s /\ forall b, pending_block a' (bs_vol s) b <-> pending_block a (bs_vol s) b \/ in_run (bs_vol s) r b) \/
   (s' = (bs_discard s (pending_discard_ a)).2 /\ discard_pending_ a = true /\
      forall b, pending_block a' (bs_vol s) b <-> in_run (bs_vol s) r b)).
Proof.
  intros Hok Hv Hq Hr Hd E.
  destruct (queue_discard_spec live a s r a' s' Hok Hv Hq Hr E) as (_ & _ & Q & _ & _ & C). auto.
Qed.

(** * On concrete volumes *)
Module Bitmaps.

(** 16 blocks: the superblock, one bitmap block and a log of 8 are in use. *)
Definition small_disk : Disk.disk :=
  Sample.put_block (Sample.disk (Sample.super 16 4 1 8 0) 16 None) 1 ([255; 3] ++ zeros 1022).
Definition small : Fs Disk.disk := mkFs small_disk (open new_volume small_disk true).2 new_journal false.
Definition small_al : Allocator := (allocator_open new_allocator (vol small)).2.

(** The same volume with a discard transport. *)
Definition trim : Fs Disk.disk := with_vol small (attach_discard (vol small) true).

Lemma small_ok : fs_ok (fun _ => True) small.
Proof.
  apply (open_fs_ok small_disk true); [vm_compute; reflexivity|vm_compute; congruence..].
Qed.

Lemma trim_ok : fs_ok (fun _ => True) trim.
Proof.
  destruct small_ok as [Hg Hs Hc Hj].
  split; [destruct Hg; now split|exact Hs|exact Hc|discriminate].
Qed.

Lemma small_ready : alloc_ready small_al (vol small).
Proof.
  split; try (vm_compute; reflexivity).
  - apply bytes_okb_true. vm_compute. reflexivity.
  - vm_compute. congruence.
Qed.

Lemma trim_ready : alloc_ready small_al (vol trim).
Proof. destruct small_ready. now split. Qed.

Lemma all_live v : bitmap_live (fun _ => True) v.
Proof. intros g Hg. exact I. Qed.

Lemma small_up : bs_up small.
Proof.
  refine (conj (fok_geo _ _ small_ok) (conj _ (conj _ _))); try (vm_compute; reflexivity).
  exists 32. split; vm_compute; intuition congruence.
Qed.

Lemma trim_queue : queue_ok small_al (vol trim).
Proof. intros Hp. vm_compute in Hp. discriminate Hp. Qed.

Lemma data_10_4 : data_run (vol trim) (mkRun 0 10 4).
Proof. split; [|split]; vm_compute; intuition congruence. Qed.
End Bitmaps.

Lemma allocate_sound_witness :
  exists a' s', allocate Bitmaps.small_al Bitmaps.small 4 2 = (Some (mkRun 0 10 4), a', s') /\
    used_block s' 10 = true /\ used_block s' 14 = false.
Proof.
  set (x := allocate Bitmaps.small_al Bitmaps.small 4 2).
  assert (E : x = (Some (mkRun 0 10 4), x.1.2, x.2)) by (apply triple_eq; vm_compute; reflexivity).
  exists x.1.2, x.2. split; [exact E|].
  destruct (allocate_sound (fun _ => True) Bitmaps.small_al x.1.2 Bitmaps.small x.2 4 2 (mkRun 0 10 4))
    as (_ & _ & _ & _ & _ & _ & Hu & _);
    [exact Bitmaps.small_ok|apply Bitmaps.all_live|exact Bitmaps.small_ready|lia|lia|exact E|].
  split.
  - apply Hu; [vm_compute; intuition congruence|]. left. vm_compute. intuition congruence.
  - apply not_true_iff_false. rewrite Hu by (vm_compute; intuition congruence).
    vm_compute. intuition congruence.
Defined.

Lemma allocate_count_witness :
  count_ok Bitmaps.small /\ count_ok (allocate Bitmaps.small_al Bitmaps.small 4 2).2.
Proof.
  assert (Hc : count_ok Bitmaps.small) by (vm_compute; reflexivity). split; [exact Hc|].
  apply (allocate_count (fun _ => True) Bitmaps.small_al
           (allocate Bitmaps.small_al Bitmaps.small 4 2).1.2 Bitmaps.small _ 4 2 (mkRun 0 10 4));
    [exact Bitmaps.small_ok|apply Bitmaps.all_live|exact Bitmaps.small_ready|lia|lia|exact Hc|].
  apply triple_eq. vm_compute. reflexivity.
Defined.

(** Seven free blocks are not there: blocks 9 to 15 are not all free. *)
Lemma allocate_complete_witness :
  exists b, in_run (vol Bitmaps.small) (mkRun 0 9 7) b /\ used_block Bitmaps.small b = true.
Proof.
  set (x := allocate Bitmaps.small_al Bitmaps.small 7 7).
  assert (E : x = (None, x.1.2, x.2)) by (apply triple_eq; vm_compute; reflexivity).
  assert (Hr : run_ok (mkRun 0 9 7)) by (vm_compute; intuition congruence).
  assert (Hv : validate_run (vol Bitmaps.small) (mkRun 0 9 7) = true) by (vm_compute; reflexivity).
  assert (H7 : 1 <= 7) by lia.
  exact (allocate_complete (fun _ => True) Bitmaps.small_al x.1.2 Bitmaps.small x.2 7 7 (mkRun 0 9 7)
    Bitmaps.small_ok (Bitmaps.all_live _) Bitmaps.small_ready Bitmaps.small_up H7 H7 E Hr Hv eq_refl).
Defined.

Lemma free_sound_witness :
  exists a' s', free Bitmaps.small_al Bitmaps.trim (mkRun 0 10 4) = (true, a', s') /\
    used_blocks_ (vol s') = 6 /\ pending_discard_ a' = mkRun 0 10 4.
Proof.
  assert (E := triple_eq (free Bitmaps.small_al Bitmaps.trim (mkRun 0 10 4)) true).
  assert (P : pending_discard_ (free Bitmaps.small_al Bitmaps.trim (mkRun 0 10 4)).1.2 = mkRun 0 10 4)
    by (vm_compute; reflexivity).
  assert (Ht : (free Bitmaps.small_al Bitmaps.trim (mkRun 0 10 4)).1.1 = true) by (vm_compute; reflexivity).
  assert (H6 : Z.max 0 (used_blocks_ (vol Bitmaps.trim) - 4) = 6) by (vm_compute; reflexivity).
  specialize (E Ht). destruct (free Bitmaps.small_al Bitmaps.trim (mkRun 0 10 4)) as [[ok a'] s'] eqn:Ef.
  simpl in P, Ht. subst ok. exists a', s'. split; [reflexivity|]. split; [|exact P].
  destruct (free_sound (fun _ => True) Bitmaps.small_al a' Bitmaps.trim s' (mkRun 0 10 4))
    as (_ & _ & _ & Hu & _);
    [exact Bitmaps.trim_ok|apply Bitmaps.all_live|exact Bitmaps.trim_ready|exact Bitmaps.trim_queue|
     exact Bitmaps.data_10_4|exact Ef|].
  rewrite <- H6. exact Hu.
Defined.

Lemma queue_discard_covers_witness :
  let a := with_pending Bitmaps.small_al (mkRun 0 12 2) true in
  pending_block (queue_discard a Bitmaps.trim (mkRun 0 10 2)).1 (vol Bitmaps.trim) 10.
Proof.
  set (a := with_pending _ _ _). set (x := queue_discard a Bitmaps.trim (mkRun 0 10 2)).
  destruct (queue_discard_covers (fun _ => True) a x.1 Bitmaps.trim x.2 (mkRun 0 10 2)) as [_ [[_ Hp]|(_ & _ & Hp)]];
    [exact Bitmaps.trim_ok|reflexivity| | |reflexivity|apply surjective_pairing| |].
  - intros _. split; [|split]; vm_compute; intuition congruence.
  - split; [|split]; vm_compute; intuition congruence.
  - apply Hp. right. vm_compute. intuition congruence.
  - apply Hp. vm_compute. intuition congruence.
Defined.

(** Where a group has more than one bitmap block, [allocate] hands the same
    block out twice.  The search marks a run at its group-relative offset in the
    buffer of one bitmap block, so past the first block the marks fall outside
    what is written back: on a volume of 1 KiB blocks with two bitmap blocks to
    the group and the first of them full, the first allocation of four blocks
    gets blocks 8192 to 8195 and the second gets block 8192 again. *)
Theorem allocate_twice :
  let d := Sample.put_block (Sample.disk (Sample.super 9000 14 2 8 0) 9000 None) 1 (replicate 1024 255) in
  let fs := mkFs d (open new_volume d true).2 new_journal false in
  let a := (allocator_open new_allocator (vol fs)).2 in
  let '(r1, a1, fs1) := allocate a fs 4 1 in
  let '(r2, a2, fs2) := allocate a1 fs1 4 1 in
  (open new_volume d true).1 = true /\
  r1 = Some (mkRun 0 8192 4) /\ r2 = Some (mkRun 0 8192 1).
Proof. vm_compute. splits; reflexivity. Qed.

(** A freed run can be discarded before its transaction commits: with a
    discard transport and a transaction open, freeing two runs that do not touch
    tells the device to discard the first at once, so abandoning the transaction
    leaves a file whose blocks the device has dropped. *)
Theorem discard_before_commit :
  let fs := begin (mkFs (dev Bitmaps.trim) (vol Bitmaps.trim)
                     (mkJournal true 1024 false false false [] []) true) in
  let '(ok1, a1, fs1) := free Bitmaps.small_al fs (mkRun 0 10 2) in
  let '(ok2, a2, fs2) := free a1 fs1 (mkRun 0 14 1) in
  ok1 = true /\ ok2 = true /\ in_transaction fs2 = true /\
  Disk.trimmed (dev fs1) = [] /\ Disk.trimmed (dev fs2) = [(20, 4)].
Proof. vm_compute. splits; reflexivity. Qed.
