(* ===== verification/BPlusTree.v ===== *)
(** B+tree nodes (libs/freestanding/aegir-bfs, src/bplustree.cc and
    include/aegir/bfs/bplustree.h): the tree header, the key orders, one node's
    entries read and searched, and the rebuilt node an insertion, a removal or a
    change of value makes.  A node is the bytes of one block; [node_rep] says
    which sorted list of entries it holds, and the theorems say what each
    operation does to that list. *)
From stdpp Require Import base numbers list list_numbers sets.
#[local] Set Warnings "-clear-no-such-hyp".
From Stdlib Require Import ZArith Lia Sorted.
From S2P Require Import Prelude.
From S2P Require Import Layout.

(** * The tree header *)

Record TreeHeader := mkTreeHeader {
  th_node_size : Z;
  th_max_levels : Z;
  th_data_type : Z;
  th_root : Z;
  th_free_node : Z;
  th_maximum : Z;
}.

Definition tree_header_parse (b : bytes) : option TreeHeader :=
  if negb (le32 b tree_header.kMagic =? kTreeMagic) then None
  else
    let node_size := le32 b tree_header.kNodeSize in
    if (node_size =? 0) || (kMaxBlockSize <? node_size) then None
    else Some (mkTreeHeader node_size (le32 b tree_header.kMaxLevels) (le32 b tree_header.kDataType)
                 (le64 b tree_header.kRootNode) (le64 b tree_header.kFreeNode)
                 (le64 b tree_header.kMaximumSize)).

Definition tree_header_build (b : bytes) (h : TreeHeader) : bytes :=
  let b := put_le32 b tree_header.kMagic kTreeMagic in
  let b := put_le32 b tree_header.kNodeSize (th_node_size h) in
  let b := put_le32 b tree_header.kMaxLevels (th_max_levels h) in
  let b := put_le32 b tree_header.kDataType (th_data_type h) in
  let b := put_le64 b tree_header.kRootNode (th_root h) in
  let b := put_le64 b tree_header.kFreeNode (th_free_node h) in
  put_le64 b tree_header.kMaximumSize (th_maximum h).

(** * Key orders *)

(** The loop over the common prefix: the first difference decides. *)
Fixpoint compare_common (a b : bytes) : option Z :=
  match a, b with
  | x :: a, y :: b => if negb (x =? y) then Some (if x <? y then -1 else 1) else compare_common a b
  | _, _ => None
  end.

Definition key_compare (a b : bytes) : Z :=
  match compare_common a b with
  | Some order => order
  | None => if zlen a =? zlen b then 0 else if zlen a <? zlen b then -1 else 1
  end.

(** [x < y ? -1 : (x > y ? 1 : 0)] *)
Definition three_way (x y : Z) : Z := if x <? y then -1 else if y <? x then 1 else 0.

Definition key_compare_typed (data_type : Z) (a b : bytes) : Z :=
  if (data_type =? kTreeInt32Type) && (zlen a =? 4) && (zlen b =? 4)
  then three_way (signed 32 (le32 a 0)) (signed 32 (le32 b 0))
  else if (data_type =? kTreeUInt32Type) && (zlen a =? 4) && (zlen b =? 4)
  then three_way (le32 a 0) (le32 b 0)
  else if (data_type =? kTreeInt64Type) && (zlen a =? 8) && (zlen b =? 8)
  then three_way (le64_signed a 0) (le64_signed b 0)
  else if (data_type =? kTreeUInt64Type) && (zlen a =? 8) && (zlen b =? 8)
  then three_way (le64 a 0) (le64 b 0)
  else key_compare a b.

(** * Reading a node *)

Definition key_lengths_at (node : bytes) : Z :=
  key_align (node.kFixed + le16 node node.kAllKeyLength).

(** The offset and length of the [index]th key: the stored lengths are
    cumulative. *)
Definition key_at (node : bytes) (count index : Z) : option (Z * Z) :=
  if count <=? index then None
  else
    let lengths := key_lengths_at node in
    let end_ := le16 node (lengths + index * 2) in
    let start := if index =? 0 then 0 else le16 node (lengths + (index - 1) * 2) in
    Some (node.kFixed + start, u16 (end_ - start)).

(** Copy a key to [dst] at [at_], which advances past it. *)
Definition copy_key (dst : bytes) (at_ : Z) (node : bytes) (count index : Z) : bytes * Z :=
  match key_at node count index with
  | Some (key, length) => (blit dst at_ (slice node key length), at_ + length)
  | None => (dst, at_)
  end.

Record NodeInfo := mkNodeInfo {
  ni_count : Z;
  ni_all_key_length : Z;
  ni_overflow : Z;
  ni_used : Z;
}.

Definition node_info (node : bytes) (node_size : Z) : option NodeInfo :=
  if node_size <? node.kFixed then None
  else
    let count := le16 node node.kKeyCount in
    let used := key_lengths_at node + count * (2 + 8) in
    if used <=? node_size
    then Some (mkNodeInfo count (le16 node node.kAllKeyLength) (le64_signed node node.kOverflowLink) used)
    else None.

(** [key_compare_typed] of the [index]th key against [name]. *)
Definition order_at (node : bytes) (count data_type : Z) (name : bytes) (index : Z) : option Z :=
  match key_at node count index with
  | Some (key, length) => Some (key_compare_typed data_type (slice node key length) name)
  | None => None
  end.

(** The first index whose key equals [name], of [n] from [i]. *)
Fixpoint find_key (n : nat) (node : bytes) (count data_type : Z) (name : bytes) (i : Z) : option Z :=
  match n with
  | O => None
  | S n =>
    match order_at node count data_type name i with
    | None => None
    | Some order => if order =? 0 then Some i else find_key n node count data_type name (i + 1)
    end
  end.

Definition value_at (node : bytes) (count index : Z) : Z :=
  le64 node (key_lengths_at node + count * 2 + index * 8).

Definition node_find (node : bytes) (node_size data_type : Z) (name : bytes) : option Z :=
  match node_info node node_size with
  | None => None
  | Some info =>
    match find_key (Z.to_nat (ni_count info)) node (ni_count info) data_type name 0 with
    | Some i => Some (value_at node (ni_count info) i)
    | None => None
    end
  end.

Definition node_entry (node : bytes) (node_size index : Z) : option (bytes * Z) :=
  match node_info node node_size with
  | None => None
  | Some info =>
    if ni_count info <=? index then None
    else
      match key_at node (ni_count info) index with
      | None => None
      | Some (key, length) =>
        if kMaxName <? length then None
        else Some (slice node key length, value_at node (ni_count info) index)
      end
  end.

(** * Rebuilding a node *)

(** The first index whose key is not less than [name], and whether it equals. *)
Fixpoint insert_point (n : nat) (node : bytes) (count data_type : Z) (name : bytes) (i : Z)
    : option (Z * bool) :=
  match n with
  | O => Some (i, false)
  | S n =>
    match order_at node count data_type name i with
    | None => None
    | Some order =>
      if 0 <=? order then Some (i, order =? 0)
      else insert_point n node count data_type name (i + 1)
    end
  end.

(** A zeroed node with [node]'s links and a new count and key length. *)
Definition new_header (node_size : Z) (node : bytes) (count all : Z) : bytes :=
  let work := zeros node_size in
  let work := put_le64 work node.kLeftLink (le64 node node.kLeftLink) in
  let work := put_le64 work node.kRightLink (le64 node node.kRightLink) in
  let work := put_le64 work node.kOverflowLink (le64 node node.kOverflowLink) in
  let work := put_le16 work node.kKeyCount (u16 count) in
  put_le16 work node.kAllKeyLength (u16 all).

(** The keys of indices [i .. i + n), copied in order; [skip] is left out. *)
Fixpoint copy_keys (n : nat) (work : bytes) (at_ : Z) (node : bytes) (count skip i : Z) : bytes * Z :=
  match n with
  | O => (work, at_)
  | S n =>
    if i =? skip then copy_keys n work at_ node count skip (i + 1)
    else
      let '(work, at_) := copy_key work at_ node count i in
      copy_keys n work at_ node count skip (i + 1)
  end.

(** The lengths and values of the node an insertion makes. *)
Fixpoint fill_insert (n : nat) (work : bytes) (lengths values : Z) (node : bytes)
    (count at_index length value : Z) (i inserted cumulative : Z) : option bytes :=
  match n with
  | O => Some work
  | S n =>
    if i =? at_index then
      let cumulative := u16 (cumulative + length) in
      let work := put_le16 work (lengths + i * 2) cumulative in
      let work := put_le64 work (values + i * 8) value in
      fill_insert n work lengths values node count at_index length value (i + 1) (inserted + 1) cumulative
    else
      let old := u16 (i - inserted) in
      match key_at node count old with
      | None => None
      | Some (_, key_length) =>
        let cumulative := u16 (cumulative + key_length) in
        let work := put_le16 work (lengths + i * 2) cumulative in
        let work := put_le64 work (values + i * 8) (value_at node count old) in
        fill_insert n work lengths values node count at_index length value (i + 1) inserted cumulative
      end
  end.

(** The rebuilt node and whether the name was there; [None] is [false]. *)
Definition node_insert (node_size data_type : Z) (node name : bytes) (value : Z)
    : option (bytes * bool) :=
  let length := zlen name in
  if (length =? 0) || (kMaxKeyLength <? length) then None
  else
    match node_info node node_size with
    | None => None
    | Some info =>
      let count := ni_count info in
      match insert_point (Z.to_nat count) node count data_type name 0 with
      | None => None
      | Some (i, true) =>
        let values := key_lengths_at node + count * 2 in
        Some (put_le64 (slice node 0 node_size) (values + i * 8) value, true)
      | Some (at_index, false) =>
        let new_all := ni_all_key_length info + length in
        let new_used := key_align (node.kFixed + new_all) + (count + 1) * (2 + 8) in
        if node_size <? new_used then None
        else
          let work := new_header node_size node (count + 1) new_all in
          let '(work, at_) := copy_keys (Z.to_nat at_index) work node.kFixed node count (-1) 0 in
          let work := blit work at_ name in
          let '(work, _) :=
            copy_keys (Z.to_nat (count - at_index)) work (at_ + length) node count (-1) at_index in
          let lengths := key_align (node.kFixed + new_all) in
          let values := lengths + (count + 1) * 2 in
          match fill_insert (Z.to_nat (count + 1)) work lengths values node count at_index length value 0 0 0 with
          | None => None
          | Some work => Some (work, false)
          end
      end
    end.

(** The lengths and values of the node a removal makes. *)
Fixpoint fill_remove (n : nat) (work : bytes) (lengths values : Z) (node : bytes)
    (count found : Z) (i out cumulative : Z) : option bytes :=
  match n with
  | O => Some work
  | S n =>
    if i =? found then fill_remove n work lengths values node count found (i + 1) out cumulative
    else
      match key_at node count i with
      | None => None
      | Some (_, key_length) =>
        let cumulative := u16 (cumulative + key_length) in
        let work := put_le16 work (lengths + out * 2) cumulative in
        let work := put_le64 work (values + out * 8) (value_at node count i) in
        fill_remove n work lengths values node count found (i + 1) (out + 1) cumulative
      end
  end.

Definition node_remove (node_size data_type : Z) (node name : bytes) : option (bytes * bool) :=
  match node_info node node_size with
  | None => None
  | Some info =>
    let count := ni_count info in
    match find_key (Z.to_nat count) node count data_type name 0 with
    | None => Some (slice node 0 node_size, false)
    | Some found =>
      match key_at node count found with
      | None => None
      | Some (_, remove_length) =>
        let new_all := u32 (ni_all_key_length info - remove_length) in
        let work := new_header node_size node (count - 1) new_all in
        let '(work, _) := copy_keys (Z.to_nat count) work node.kFixed node count found 0 in
        let lengths := key_align (u32 (node.kFixed + new_all)) in
        let values := lengths + (count - 1) * 2 in
        match fill_remove (Z.to_nat count) work lengths values node count found 0 0 0 with
        | None => None
        | Some work => Some (work, true)
        end
      end
    end
  end.

Definition node_set_value (node_size : Z) (node : bytes) (index value : Z) : option bytes :=
  match node_info node node_size with
  | None => None
  | Some info =>
    if ni_count info <=? index then None
    else
      let values := key_lengths_at node + ni_count info * 2 in
      Some (put_le64 (slice node 0 node_size) (values + index * 8) value)
  end.

(** * Duplicate nodes *)

Definition duplicate_capacity (node_size : Z) : Z :=
  let base := node.kOverflowLink + 8 in
  if node_size <=? base then 0
  else
    let fits := (node_size - base) / 8 in
    if fits <? kNumDuplicateValues then fits else kNumDuplicateValues.

Definition duplicate_count (node : bytes) (node_size : Z) : Z :=
  let capacity := duplicate_capacity node_size in
  let counted := u32 (le64_signed node node.kOverflowLink) in
  if counted <? capacity then counted else capacity.

Definition duplicate_value (node : bytes) (node_size index : Z) : option Z :=
  if duplicate_count node node_size <=? index then None
  else Some (le64 node (node.kOverflowLink + 8 + index * 8)).

Fixpoint put_values (node : bytes) (at_ : Z) (values : list Z) : bytes :=
  match values with
  | [] => node
  | v :: values => put_values (put_le64 node at_ v) (at_ + 8) values
  end.

Definition duplicate_build (node_size left right : Z) (values : list Z) : bytes :=
  let node := zeros node_size in
  let node := put_le64 node node.kLeftLink left in
  let node := put_le64 node node.kRightLink right in
  let node := put_le64 node node.kOverflowLink (zlen values) in
  put_values node (node.kOverflowLink + 8) values.

(** * The orders are orders *)

Lemma key_compare_cons x a y b :
  key_compare (x :: a) (y :: b) = if x =? y then key_compare a b else if x <? y then -1 else 1.
Proof.
  unfold key_compare. cbn [compare_common]. destruct (x =? y); cbn [negb]; [|reflexivity].
  destruct (compare_common a b); [reflexivity|]. rewrite !zlen_cons.
  replace (1 + zlen a =? 1 + zlen b) with (zlen a =? zlen b)
    by (apply eq_true_iff_eq; rewrite !Z.eqb_eq; lia).
  replace (1 + zlen a <? 1 + zlen b) with (zlen a <? zlen b)
    by (apply eq_true_iff_eq; rewrite !Z.ltb_lt; lia).
  reflexivity.
Qed.

Lemma key_compare_nil a : key_compare [] a = if zlen a =? 0 then 0 else -1.
Proof.
  unfold key_compare. cbn [compare_common]. rewrite zlen_nil, (Z.eqb_sym 0). pose proof (zlen_nonneg a).
  destruct (Z.eqb_spec (zlen a) 0); [reflexivity|]. now rewrite (proj2 (Z.ltb_lt _ _)) by lia.
Qed.

Lemma zlen_0 {A} (l : list A) : zlen l = 0 -> l = [].
Proof. destruct l; [auto|]. rewrite zlen_cons. pose proof (zlen_nonneg l). lia. Qed.

Lemma key_compare_antisym a b : key_compare b a = - key_compare a b.
Proof.
  revert b; induction a as [|x a IH]; intros [|y b]; [reflexivity|..].
  - unfold key_compare; cbn [compare_common]. rewrite zlen_nil, zlen_cons. pose proof (zlen_nonneg b).
    destruct (Z.eqb_spec (1 + zlen b) 0), (Z.eqb_spec 0 (1 + zlen b)), (Z.ltb_spec (1 + zlen b) 0),
      (Z.ltb_spec 0 (1 + zlen b)); auto; lia.
  - unfold key_compare; cbn [compare_common]. rewrite zlen_nil, zlen_cons. pose proof (zlen_nonneg a).
    destruct (Z.eqb_spec (1 + zlen a) 0), (Z.eqb_spec 0 (1 + zlen a)), (Z.ltb_spec (1 + zlen a) 0),
      (Z.ltb_spec 0 (1 + zlen a)); auto; lia.
  - rewrite !key_compare_cons, (Z.eqb_sym y x), IH.
    destruct (Z.eqb_spec x y); [reflexivity|].
    destruct (Z.ltb_spec x y), (Z.ltb_spec y x); auto; lia.
Qed.

Lemma key_compare_eq a b : key_compare a b = 0 <-> a = b.
Proof.
  split.
  - revert b; induction a as [|x a IH]; intros [|y b]; [reflexivity|..].
    + rewrite key_compare_nil, zlen_cons. pose proof (zlen_nonneg b). zcase; [lia|discriminate].
    + rewrite key_compare_antisym, key_compare_nil, zlen_cons. pose proof (zlen_nonneg a). zcase; [lia|discriminate].
    + rewrite key_compare_cons. destruct (Z.eqb_spec x y) as [->|]; [intros E; f_equal; auto|].
      destruct (x <? y); discriminate.
  - intros <-. induction a as [|x a IH]; [reflexivity|]. now rewrite key_compare_cons, Z.eqb_refl.
Qed.

Lemma key_compare_nil_r a : key_compare a [] < 0 <-> False.
Proof. rewrite key_compare_antisym, key_compare_nil. zcase; lia. Qed.

Lemma key_compare_trans a b c : key_compare a b < 0 -> key_compare b c < 0 -> key_compare a c < 0.
Proof.
  revert b c; induction a as [|x a IH]; intros b [|z c]; try (rewrite !key_compare_nil_r; tauto).
  - intros _ _. rewrite key_compare_nil, zlen_cons. pose proof (zlen_nonneg c). zcase; lia.
  - destruct b as [|y b]; [rewrite key_compare_nil_r; tauto|]. rewrite !key_compare_cons.
    destruct (Z.eqb_spec x y), (Z.eqb_spec y z), (Z.eqb_spec x z), (Z.ltb_spec x y), (Z.ltb_spec y z),
      (Z.ltb_spec x z); try lia. apply IH.
Qed.

(** A key of a tree's type: the numeric types have their own width. *)
Definition key_ok (data_type : Z) (k : bytes) : Prop :=
  bytes_ok k /\ 1 <= zlen k <= kMaxKeyLength /\
  (data_type = kTreeInt32Type \/ data_type = kTreeUInt32Type -> zlen k = 4) /\
  (data_type = kTreeInt64Type \/ data_type = kTreeUInt64Type -> zlen k = 8).

Lemma le_num_inj a b : bytes_ok a -> bytes_ok b -> zlen a = zlen b -> le_num a = le_num b -> a = b.
Proof.
  intros Ha Hb Hl E. rewrite <- (le_split_num a Ha), <- (le_split_num b Hb), E.
  unfold zlen in Hl. f_equal. lia.
Qed.

Lemma le32_inj a b : bytes_ok a -> bytes_ok b -> zlen a = 4 -> zlen b = 4 -> le32 a 0 = le32 b 0 -> a = b.
Proof.
  intros Ha Hb La Lb. rewrite !le32_num, !slice_all by (auto; lia). apply le_num_inj; auto. lia.
Qed.

Lemma le64_inj a b : bytes_ok a -> bytes_ok b -> zlen a = 8 -> zlen b = 8 -> le64 a 0 = le64 b 0 -> a = b.
Proof.
  intros Ha Hb La Lb. rewrite !le64_num, !slice_all by (auto; lia). apply le_num_inj; auto. lia.
Qed.

Lemma signed_inj w x y : 0 <= x < 2 ^ w -> 0 <= y < 2 ^ w -> signed w x = signed w y -> x = y.
Proof. unfold signed. intros Hx Hy. zcase; zcase; lia. Qed.

(** On keys of one type the order is a number's or a string's. *)
Lemma typed_cases data_type a b c :
  key_ok data_type a -> key_ok data_type b -> key_ok data_type c ->
  (forall x y, x ∈ [a; b; c] -> y ∈ [a; b; c] ->
     key_compare_typed data_type x y = key_compare x y) \/
  exists f : bytes -> Z, (forall x y, x ∈ [a; b; c] -> y ∈ [a; b; c] ->
     key_compare_typed data_type x y = three_way (f x) (f y) /\ (f x = f y -> x = y)).
Proof.
  intros Ka Kb Kc. assert (Hall : forall x, x ∈ [a; b; c] -> key_ok data_type x)
    by (intros x Hx; rewrite !elem_of_cons in Hx; destruct Hx as [->|[->|[->|Hx]]]; auto; now apply elem_of_nil in Hx).
  unfold key_compare_typed.
  destruct (Z.eqb_spec data_type kTreeInt32Type) as [->|N1].
  { right. exists (fun k => signed 32 (le32 k 0)). intros x y Hx Hy.
    destruct (Hall x Hx) as (X1 & _ & X2 & _), (Hall y Hy) as (Y1 & _ & Y2 & _).
    rewrite X2, Y2 by auto. split; [reflexivity|]. intros E. apply signed_inj in E; try now apply le32_range.
    apply le32_inj; auto. }
  destruct (Z.eqb_spec data_type kTreeUInt32Type) as [->|N2].
  { right. exists (fun k => le32 k 0). intros x y Hx Hy.
    destruct (Hall x Hx) as (X1 & _ & X2 & _), (Hall y Hy) as (Y1 & _ & Y2 & _).
    rewrite X2, Y2 by auto. split; [reflexivity|]. intros E. apply le32_inj; auto. }
  destruct (Z.eqb_spec data_type kTreeInt64Type) as [->|N3].
  { right. exists (fun k => le64_signed k 0). intros x y Hx Hy.
    destruct (Hall x Hx) as (X1 & _ & _ & X2), (Hall y Hy) as (Y1 & _ & _ & Y2).
    rewrite X2, Y2 by auto. split; [reflexivity|]. intros E. apply signed_inj in E; try now apply le64_range.
    apply le64_inj; auto. }
  destruct (Z.eqb_spec data_type kTreeUInt64Type) as [->|N4].
  { right. exists (fun k => le64 k 0). intros x y Hx Hy.
    destruct (Hall x Hx) as (X1 & _ & _ & X2), (Hall y Hy) as (Y1 & _ & _ & Y2).
    rewrite X2, Y2 by auto. split; [reflexivity|]. intros E. apply le64_inj; auto. }
  left. auto.
Qed.

Section order.
Context (data_type : Z).
Local Notation cmp := (key_compare_typed data_type).

Lemma typed_eq a b : key_ok data_type a -> key_ok data_type b -> cmp a b = 0 <-> a = b.
Proof.
  intros Ka Kb. destruct (typed_cases data_type a b b Ka Kb Kb) as [Hc|[f Hf]].
  - rewrite Hc by set_solver. apply key_compare_eq.
  - destruct (Hf a b) as [-> Hi]; [set_solver..|]. unfold three_way. split.
    + zcase; [discriminate|]. zcase; [discriminate|]. intros _. apply Hi. lia.
    + intros ->. now rewrite Z.ltb_irrefl.
Qed.

Lemma typed_antisym a b : key_ok data_type a -> key_ok data_type b -> cmp b a = - cmp a b.
Proof.
  intros Ka Kb. destruct (typed_cases data_type a b b Ka Kb Kb) as [Hc|[f Hf]].
  - rewrite !Hc by set_solver. apply key_compare_antisym.
  - destruct (Hf a b) as [-> _]; [set_solver..|]. destruct (Hf b a) as [-> _]; [set_solver..|].
    unfold three_way. destruct (Z.ltb_spec (f a) (f b)), (Z.ltb_spec (f b) (f a)); auto; lia.
Qed.

Lemma typed_trans a b c :
  key_ok data_type a -> key_ok data_type b -> key_ok data_type c -> cmp a b < 0 -> cmp b c < 0 -> cmp a c < 0.
Proof.
  intros Ka Kb Kc. destruct (typed_cases data_type a b c Ka Kb Kc) as [Hc|[f Hf]].
  - rewrite !Hc by set_solver. apply key_compare_trans.
  - destruct (Hf a b) as [-> _]; [set_solver..|]. destruct (Hf b c) as [-> _]; [set_solver..|].
    destruct (Hf a c) as [-> _]; [set_solver..|].
    unfold three_way. repeat zcase; lia.
Qed.
End order.

(** * What a node holds *)

Notation entry := (bytes * Z)%type (only parsing).

(** The keys of a list of entries, end to end, and the place of the lengths. *)
Definition keys (es : list entry) : bytes := concat (map fst es).
Definition lengths_of (es : list entry) : Z := key_align (node.kFixed + zlen (keys es)).

(** [node] is a node of [size] bytes that holds the entries [es], in order. *)
Record node_rep (node : bytes) (size : Z) (es : list entry) : Prop := {
  nr_len : zlen node = size;
  nr_bytes : bytes_ok node;
  nr_size : node.kFixed <= size <= kMaxBlockSize;
  nr_count : le16 node node.kKeyCount = zlen es;
  nr_all : le16 node node.kAllKeyLength = zlen (keys es);
  nr_used : lengths_of es + zlen es * 10 <= size;
  nr_keys : slice node node.kFixed (zlen (keys es)) = keys es;
  nr_lens : forall i, (i < length es)%nat ->
    le16 node (lengths_of es + Z.of_nat i * 2) = zlen (keys (take (S i) es));
  nr_vals : forall i e, es !! i = Some e ->
    le64 node (lengths_of es + zlen es * 2 + Z.of_nat i * 8) = e.2;
}.

Lemma keys_app es es' : keys (es ++ es') = keys es ++ keys es'.
Proof. unfold keys. now rewrite map_app, concat_app. Qed.
Lemma keys_cons e es : keys (e :: es) = e.1 ++ keys es.
Proof. reflexivity. Qed.

Lemma keys_split es i e : es !! i = Some e -> keys es = keys (take i es) ++ e.1 ++ keys (drop (S i) es).
Proof.
  intros Hi. rewrite <- (take_drop_middle es i e Hi) at 1. now rewrite keys_app, keys_cons.
Qed.

Lemma keys_take_S es i e : es !! i = Some e -> keys (take (S i) es) = keys (take i es) ++ e.1.
Proof.
  intros Hi. rewrite (take_S_r es i e Hi), keys_app. unfold keys at 2. simpl. now rewrite app_nil_r.
Qed.

Lemma key_align_bounds x : 0 <= x <= 100000 -> x <= key_align x <= x + 7 /\ 0 <= key_align x.
Proof. intros Hx. rewrite key_align_spec by lia. zlia. Qed.

Section rep.
Context (node : bytes) (size : Z) (es : list entry) (Hrep : node_rep node size es).
Local Notation n := (zlen es).

Lemma rep_keys_bound : 0 <= zlen (keys es) /\ node.kFixed + zlen (keys es) <= lengths_of es /\ lengths_of es <= size.
Proof.
  destruct Hrep. pose proof (zlen_nonneg (keys es)). pose proof (zlen_nonneg es).
  pose proof (le16_range node node.kAllKeyLength nr_bytes0). unfold node.kAllKeyLength, node.kFixed in *.
  unfold lengths_of, node.kFixed in *. pose proof (key_align_bounds (28 + zlen (keys es))). lia.
Qed.

Lemma rep_lengths : key_lengths_at node = lengths_of es.
Proof. unfold key_lengths_at, lengths_of. now rewrite (nr_all _ _ _ Hrep). Qed.

Lemma rep_prefix i : zlen (keys (take i es)) <= zlen (keys es).
Proof.
  rewrite <- (take_drop i es) at 2. rewrite keys_app, zlen_app. pose proof (zlen_nonneg (keys (drop i es))). lia.
Qed.

(** The [i]th key, where [key_at] says it is. *)
Lemma rep_key_at i e :
  es !! i = Some e ->
  exists off, key_at node n (Z.of_nat i) = Some (off, zlen e.1) /\ slice node off (zlen e.1) = e.1.
Proof.
  intros Hi. pose proof (lookup_lt_Some _ _ _ Hi) as Hlt. destruct rep_keys_bound as (B1 & B2 & B3).
  pose proof (nr_size _ _ _ Hrep) as [_ Hsz]. unfold kMaxBlockSize in Hsz.
  exists (node.kFixed + zlen (keys (take i es))). unfold key_at.
  rewrite (proj2 (Z.leb_gt _ _)) by (unfold zlen; lia). rewrite rep_lengths, (nr_lens _ _ _ Hrep) by lia.
  assert (Hstart : (if Z.of_nat i =? 0 then 0 else le16 node (lengths_of es + (Z.of_nat i - 1) * 2))
                   = zlen (keys (take i es))).
  { destruct i as [|i]; [reflexivity|]. rewrite (proj2 (Z.eqb_neq _ 0)) by lia.
    replace (Z.of_nat (S i) - 1) with (Z.of_nat i) by lia. apply (nr_lens _ _ _ Hrep). lia. }
  rewrite Hstart, (keys_take_S es i e Hi), zlen_app.
  pose proof (rep_prefix (S i)) as Hp. rewrite (keys_take_S es i e Hi), zlen_app in Hp.
  pose proof (zlen_nonneg e.1). pose proof (zlen_nonneg (keys (take i es))). split.
  - rewrite u16_small by (unfold node.kFixed in *; lia). do 2 f_equal. lia.
  - rewrite <- (slice_slice node node.kFixed (zlen (keys es))) by (unfold node.kFixed; lia).
    rewrite (nr_keys _ _ _ Hrep), (keys_split es i e Hi).
    rewrite slice_app_r, Z.sub_diag, slice_app_l by lia. now apply slice_all.
Qed.

Lemma rep_value_at i e : es !! i = Some e -> value_at node n (Z.of_nat i) = e.2.
Proof. intros Hi. unfold value_at. rewrite rep_lengths. now apply (nr_vals _ _ _ Hrep). Qed.

Lemma rep_info :
  node_info node size = Some (mkNodeInfo n (zlen (keys es)) (le64_signed node node.kOverflowLink) (lengths_of es + n * 10)).
Proof.
  unfold node_info. destruct Hrep. rewrite (proj2 (Z.ltb_ge _ _)) by lia.
  rewrite nr_count0, nr_all0, rep_lengths. change (2 + 8) with 10. now rewrite (proj2 (Z.leb_le _ _)) by lia.
Qed.

Lemma rep_order_at data_type name i e :
  es !! i = Some e -> order_at node n data_type name (Z.of_nat i) = Some (key_compare_typed data_type e.1 name).
Proof. intros Hi. unfold order_at. destruct (rep_key_at i e Hi) as (off & -> & ->). reflexivity. Qed.
End rep.

(** * Assembling a node *)

(** The interleaved writes of lengths and values, for a list of key lengths
    with their values. *)
Fixpoint put_entries (work : bytes) (lengths values i cumulative : Z) (ls : list (Z * Z)) : bytes :=
  match ls with
  | [] => work
  | (length, value) :: ls =>
    let cumulative := u16 (cumulative + length) in
    put_entries (put_le64 (put_le16 work (lengths + i * 2) cumulative) (values + i * 8) value)
      lengths values (i + 1) cumulative ls
  end.

Definition total (ls : list (Z * Z)) : Z := fold_right (fun l t => l.1 + t) 0 ls.

Lemma zlen_put_entries ls work lengths values i c :
  zlen (put_entries work lengths values i c ls) = zlen work.
Proof.
  revert work i c; induction ls as [|[l v] ls IH]; intros; simpl; [auto|].
  now rewrite IH, zlen_put64, zlen_put16.
Qed.

Lemma bytes_ok_put_entries ls work lengths values i c :
  0 <= lengths -> 0 <= values -> 0 <= i -> bytes_ok work ->
  bytes_ok (put_entries work lengths values i c ls).
Proof.
  intros Hl Hv. revert work i c; induction ls as [|[l v] ls IH]; intros work i c Hi Hb; simpl; [auto|].
  apply IH; [lia|]. apply bytes_ok_put64; [lia|]. apply bytes_ok_put16; [lia|auto].
Qed.

(** Bytes outside the two arrays' ranges are left alone. *)
Lemma put_entries_frame ls work lengths values i c k :
  0 <= lengths -> 0 <= values -> 0 <= i -> 0 <= k ->
  k < lengths + i * 2 \/ lengths + (i + zlen ls) * 2 <= k ->
  k < values + i * 8 \/ values + (i + zlen ls) * 8 <= k ->
  byte_at (put_entries work lengths values i c ls) k = byte_at work k.
Proof.
  intros Hl Hv. revert work i c; induction ls as [|[l v] ls IH]; intros work i c Hi Hk H1 H2; simpl; [auto|].
  rewrite zlen_cons in H1, H2. pose proof (zlen_nonneg ls). rewrite IH by lia.
  rewrite put_le64_blit, put_le16_blit by lia.
  rewrite !byte_blit_disj by (rewrite ?zlen_le_split; lia). reflexivity.
Qed.

Lemma put_entries_get ls work lengths values i c (j : nat) l v N :
  0 <= lengths -> 0 <= i -> 0 <= c -> values = lengths + N * 2 -> i + zlen ls <= N ->
  values + N * 8 <= zlen work -> Forall (fun x => 0 <= x.1 /\ 0 <= x.2 < 2 ^ 64) ls -> c + total ls < 65536 ->
  ls !! j = Some (l, v) ->
  let out := put_entries work lengths values i c ls in
  le16 out (lengths + (i + Z.of_nat j) * 2) = c + total (take (S j) ls) /\
  le64 out (values + (i + Z.of_nat j) * 8) = v.
Proof.
  intros Hl Hi Hc Hv HN Hlen Hf Ht. revert work i c j Hi Hc HN Hlen Ht.
  induction ls as [|[l0 v0] ls IH]; intros work i c j Hi Hc HN Hlen Ht Hj; [discriminate|].
  apply Forall_cons in Hf as [[Hl0 Hv0] Hf]. rewrite zlen_cons in HN. simpl in Hl0, Hv0, Ht. simpl.
  pose proof (zlen_nonneg ls) as Hnn.
  assert (Htot : 0 <= total ls).
  { clear -Hf. induction Hf as [|x ls [Hx _] Hf IHf]; simpl; lia. }
  rewrite u16_small by lia. destruct j as [|j]; simpl in Hj.
  - injection Hj as -> ->. rewrite Z.add_0_r. set (w := put_le64 _ _ _).
    assert (Hfr : forall k, 0 <= k -> lengths + i * 2 <= k < lengths + (i + 1) * 2 \/
                    values + i * 8 <= k < values + (i + 1) * 8 ->
              byte_at (put_entries w lengths values (i + 1) (c + l) ls) k = byte_at w k).
    { intros k Hk Hcase. apply put_entries_frame; lia. }
    split.
    + erewrite le16_ext; [|intros; apply Hfr; lia]. unfold w.
      rewrite (put_le64_blit _ (values + i * 8)) by lia.
      rewrite le16_blit_disj by (rewrite ?zlen_le_split; lia).
      rewrite le16_put by lia. rewrite u16_small by lia. simpl. lia.
    + erewrite le64_ext; [|intros; apply Hfr; lia]. unfold w.
      rewrite le64_put by (rewrite ?zlen_put16; lia). apply u64_small. lia.
  - specialize (IH Hf (put_le64 (put_le16 work (lengths + i * 2) (c + l0)) (values + i * 8) v0)
                  (i + 1) (c + l0) j).
    replace (i + Z.of_nat (S j)) with (i + 1 + Z.of_nat j) by lia.
    rewrite zlen_put64, zlen_put16 in IH.
    destruct IH as [I1 I2]; auto; try lia.
Qed.

(** Key lengths and values of a list of entries. *)
Definition lens (es : list entry) : list (Z * Z) := map (fun e => (zlen e.1, e.2)) es.

Lemma total_lens es : total (lens es) = zlen (keys es).
Proof. induction es as [|e es IH]; simpl; [reflexivity|]. rewrite keys_cons, zlen_app, <- IH. reflexivity. Qed.
Lemma zlen_lens es : zlen (lens es) = zlen es.
Proof. unfold zlen, lens. now rewrite length_map. Qed.

Definition value_ok (e : entry) : Prop := 0 <= e.2 < 2 ^ 64.

(** The node an insertion or a removal assembles. *)
Definition assemble (size : Z) (node : bytes) (es : list entry) : bytes :=
  let work := new_header size node (zlen es) (zlen (keys es)) in
  let work := blit work node.kFixed (keys es) in
  put_entries work (lengths_of es) (lengths_of es + zlen es * 2) 0 0 (lens es).

Lemma new_header_facts size node count all :
  node.kFixed <= size -> bytes_ok node -> 0 <= count < 65536 -> 0 <= all < 65536 ->
  let h := new_header size node count all in
  zlen h = size /\ bytes_ok h /\ le16 h node.kKeyCount = count /\ le16 h node.kAllKeyLength = all /\
  le64 h node.kLeftLink = le64 node node.kLeftLink /\
  le64 h node.kRightLink = le64 node node.kRightLink /\
  le64 h node.kOverflowLink = le64 node node.kOverflowLink.
Proof.
  unfold new_header, node.kFixed, node.kKeyCount, node.kAllKeyLength, node.kLeftLink, node.kRightLink,
    node.kOverflowLink. intros Hs Hb Hc Ha. rewrite !u16_small by lia.
  pose proof (le64_range node 0 Hb ltac:(lia)). pose proof (le64_range node 8 Hb ltac:(lia)).
  pose proof (le64_range node 16 Hb ltac:(lia)).
  assert (Hz : zlen (zeros size) = size) by (apply zlen_zeros; lia).
  splits.
  - autorewrite with buf. lia.
  - do 2 (apply bytes_ok_put16; [lia|]). do 3 (apply bytes_ok_put64; [lia|]). auto with buf.
  - rewrite (put_le16_blit _ 26) by lia. rewrite le16_blit_disj by (rewrite ?zlen_le_split; lia).
    rewrite le16_put by (autorewrite with buf; lia). apply u16_small. lia.
  - rewrite le16_put by (autorewrite with buf; lia). apply u16_small. lia.
  - autorewrite with put. rewrite !le64_blit_disj by (rewrite ?zlen_le_split; lia).
    rewrite <- put_le64_blit, le64_put by lia. apply u64_small. lia.
  - rewrite (put_le16_blit _ 26), (put_le16_blit _ 24), (put_le64_blit _ 16) by lia.
    rewrite !le64_blit_disj by (rewrite ?zlen_le_split; lia).
    rewrite le64_put by (autorewrite with buf; lia). apply u64_small. lia.
  - rewrite (put_le16_blit _ 26), (put_le16_blit _ 24) by lia.
    rewrite !le64_blit_disj by (rewrite ?zlen_le_split; lia).
    rewrite le64_put by (autorewrite with buf; lia). apply u64_small. lia.
Qed.

Lemma assemble_rep size node es :
  node.kFixed <= size <= kMaxBlockSize -> bytes_ok node -> bytes_ok (keys es) -> Forall value_ok es ->
  zlen (keys es) < 65536 -> lengths_of es + zlen es * 10 <= size ->
  node_rep (assemble size node es) size es /\
  le64 (assemble size node es) node.kLeftLink = le64 node node.kLeftLink /\
  le64 (assemble size node es) node.kRightLink = le64 node node.kRightLink /\
  le64 (assemble size node es) node.kOverflowLink = le64 node node.kOverflowLink.
Proof.
  intros Hs Hb Hk Hv Hk16 Hfit. unfold kMaxBlockSize in Hs.
  pose proof (zlen_nonneg es) as Hn. pose proof (zlen_nonneg (keys es)) as Hkn.
  assert (HL : node.kFixed + zlen (keys es) <= lengths_of es).
  { unfold lengths_of, node.kFixed in *. pose proof (key_align_bounds (28 + zlen (keys es))). lia. }
  destruct (new_header_facts size node (zlen es) (zlen (keys es))) as (F1 & F2 & F3 & F4 & F5 & F6 & F7);
    [lia|auto|unfold node.kFixed in *; lia..|].
  set (h := new_header _ _ _ _) in *. set (w := blit h node.kFixed (keys es)).
  assert (Hw : zlen w = size) by (unfold w; now rewrite zlen_blit).
  assert (Hfr : forall k, 0 <= k < lengths_of es -> byte_at (assemble size node es) k = byte_at w k).
  { intros k Hkk. unfold assemble. fold h. fold w. apply put_entries_frame; rewrite ?zlen_lens; lia. }
  assert (Hhead : forall k, 0 <= k < node.kFixed -> byte_at (assemble size node es) k = byte_at h k).
  { intros k Hkk. rewrite Hfr by lia. unfold w. apply byte_blit_disj; lia. }
  assert (Hget : forall i e, es !! i = Some e ->
    le16 (assemble size node es) (lengths_of es + Z.of_nat i * 2) = zlen (keys (take (S i) es)) /\
    le64 (assemble size node es) (lengths_of es + zlen es * 2 + Z.of_nat i * 8) = e.2).
  { intros i e Hi. unfold assemble. fold h. fold w.
    destruct (put_entries_get (lens es) w (lengths_of es) (lengths_of es + zlen es * 2) 0 0 i (zlen e.1) e.2 (zlen es))
      as [G1 G2]; rewrite ?zlen_lens, ?total_lens; try (unfold node.kFixed in *; lia).
    - apply Forall_map. eapply Forall_impl; [exact Hv|]. intros x Hx. split; [apply zlen_nonneg|exact Hx].
    - unfold lens. now rewrite list_lookup_fmap, Hi.
    - rewrite Z.add_0_l in G1, G2. rewrite G1, G2. split; [|reflexivity].
      unfold lens. rewrite <- fmap_take. fold (lens (take (S i) es)). rewrite total_lens. lia. }
  unfold node.kFixed, node.kKeyCount, node.kAllKeyLength, node.kLeftLink, node.kRightLink, node.kOverflowLink in *.
  split; [split|splits].
  - unfold assemble. rewrite zlen_put_entries. exact Hw.
  - unfold assemble. apply bytes_ok_put_entries; [lia..|]. apply bytes_ok_blit; auto; unfold node.kFixed; lia.
  - unfold node.kFixed, kMaxBlockSize. lia.
  - erewrite le16_ext; [exact F3|]. intros i Hi. apply Hhead. unfold node.kKeyCount; lia.
  - erewrite le16_ext; [exact F4|]. intros i Hi. apply Hhead. unfold node.kAllKeyLength; lia.
  - exact Hfit.
  - transitivity (slice w 28 (zlen (keys es))).
    + apply slice_ext; [unfold node.kFixed; lia|lia|]. intros i Hi. apply Hfr. unfold node.kFixed. lia.
    + apply slice_blit_same; lia.
  - intros i Hi. destruct (lookup_lt_is_Some_2 es i Hi) as [e He]. now apply (Hget i e).
  - intros i e Hi. now apply Hget.
  - erewrite le64_ext; [exact F5|]. intros i Hi. apply Hhead. lia.
  - erewrite le64_ext; [exact F6|]. intros i Hi. apply Hhead. lia.
  - erewrite le64_ext; [exact F7|]. intros i Hi. apply Hhead. lia.
Qed.

(** * The loops, as lists *)

(** The list without its [k]th element; with [k] negative, the list. *)
Fixpoint remove_at {A} (k : Z) (l : list A) : list A :=
  match l with
  | [] => []
  | x :: l => if k =? 0 then l else x :: remove_at (k - 1) l
  end.

Fixpoint insert_at {A} (k : Z) (x : A) (l : list A) : list A :=
  if k =? 0 then x :: l
  else match l with [] => [] | y :: l => y :: insert_at (k - 1) x l end.

Lemma remove_at_neg {A} k (l : list A) : k < 0 -> remove_at k l = l.
Proof.
  revert k; induction l as [|x l IH]; intros k Hk; simpl; [reflexivity|].
  rewrite (proj2 (Z.eqb_neq _ _)) by lia. f_equal. apply IH. lia.
Qed.

Lemma insert_at_split {A} (a : nat) (x : A) l :
  (a <= length l)%nat -> insert_at (Z.of_nat a) x l = take a l ++ x :: drop a l.
Proof.
  revert l; induction a as [|a IH]; intros l Ha; [now destruct l|].
  destruct l as [|y l]; simpl in Ha; [lia|]. cbn [insert_at take drop app].
  rewrite (proj2 (Z.eqb_neq _ _)) by lia. f_equal.
  replace (Z.of_nat (S a) - 1) with (Z.of_nat a) by lia. apply IH. lia.
Qed.

Lemma remove_at_split {A} (a : nat) (l : list A) :
  (a < length l)%nat -> remove_at (Z.of_nat a) l = take a l ++ drop (S a) l.
Proof.
  revert l; induction a as [|a IH]; intros l Ha; destruct l as [|y l]; simpl in Ha; try lia; [reflexivity|].
  cbn [remove_at take drop app]. rewrite (proj2 (Z.eqb_neq _ _)) by lia. f_equal.
  replace (Z.of_nat (S a) - 1) with (Z.of_nat a) by lia. apply IH. lia.
Qed.

Lemma snoc_split {A} (l pre : list A) e post :
  l = pre ++ e :: post -> l = (pre ++ [e]) ++ post /\ zlen (pre ++ [e]) = zlen pre + 1.
Proof. intros ->. split; [now rewrite <- app_assoc|]. rewrite zlen_app. reflexivity. Qed.

Section loops.
Context (node : bytes) (size : Z) (es : list entry) (Hrep : node_rep node size es).
Local Notation n := (zlen es).

Lemma rep_at pre e post :
  es = pre ++ e :: post ->
  exists off, key_at node n (zlen pre) = Some (off, zlen e.1) /\ slice node off (zlen e.1) = e.1 /\
    value_at node n (zlen pre) = e.2.
Proof.
  intros Hes. assert (Hl : es !! length pre = Some e)
    by (rewrite Hes, lookup_app_r, Nat.sub_diag by lia; reflexivity).
  destruct (rep_key_at node size es Hrep _ _ Hl) as (off & Hk & Hs). exists off. splits; auto.
  apply (rep_value_at node size es Hrep _ _ Hl).
Qed.

Lemma copy_keys_list mid pre post work at_ skip :
  es = pre ++ mid ++ post -> 0 <= at_ ->
  copy_keys (length mid) work at_ node n skip (zlen pre) =
  (let ks := keys (remove_at (skip - zlen pre) mid) in (blit work at_ ks, at_ + zlen ks)).
Proof.
  revert pre work at_. induction mid as [|e mid IH]; intros pre work at_ Hes Hat.
  { simpl. rewrite blit_nil. f_equal. unfold keys; simpl. rewrite zlen_nil. lia. }
  cbn [length copy_keys remove_at].
  destruct (snoc_split es pre e (mid ++ post) Hes) as [Hes' Hz].
  replace (skip - zlen pre =? 0) with (zlen pre =? skip)
    by (apply eq_true_iff_eq; rewrite !Z.eqb_eq; lia).
  destruct (Z.eqb_spec (zlen pre) skip) as [E|E].
  - rewrite <- Hz, (IH (pre ++ [e])), Hz, remove_at_neg by (auto; lia). reflexivity.
  - unfold copy_key. destruct (rep_at pre e (mid ++ post) Hes) as (off & -> & -> & _). rewrite <- Hz, (IH (pre ++ [e])), Hz; [|auto|pose proof (zlen_nonneg e.1); lia].
    replace (skip - (zlen pre + 1)) with (skip - zlen pre - 1) by lia.
    cbn zeta. rewrite keys_cons, blit_app, zlen_app by lia. f_equal. lia.
Qed.

Lemma fill_tail suf pre work lengths values at_index length value i c :
  es = pre ++ suf -> at_index < i -> i = zlen pre + 1 -> i + zlen suf <= 65536 ->
  fill_insert (Datatypes.length suf) work lengths values node n at_index length value i 1 c =
  Some (put_entries work lengths values i c (lens suf)).
Proof.
  revert pre work i c. induction suf as [|e suf IH]; intros pre work i c Hes Ha Hi Hb; [reflexivity|].
  cbn [Datatypes.length fill_insert lens map put_entries]. rewrite zlen_cons in Hb.
  pose proof (zlen_nonneg pre). pose proof (zlen_nonneg suf).
  rewrite (proj2 (Z.eqb_neq _ _)) by lia. rewrite u16_small by lia. replace (i - 1) with (zlen pre) by lia.
  destruct (rep_at pre e suf Hes) as (off & -> & _ & ->). destruct (snoc_split es pre e suf Hes) as [Hes' Hz].
  rewrite (IH (pre ++ [e])); [reflexivity|auto|lia|lia|lia].
Qed.

Lemma fill_insert_list suf pre work lengths values at_index name value c :
  es = pre ++ suf -> zlen pre <= at_index <= zlen pre + zlen suf -> zlen pre + 1 + zlen suf <= 65536 ->
  fill_insert (S (length suf)) work lengths values node n at_index (zlen name) value (zlen pre) 0 c =
  Some (put_entries work lengths values (zlen pre) c (lens (insert_at (at_index - zlen pre) (name, value) suf))).
Proof.
  revert pre work c. induction suf as [|e suf IH]; intros pre work c Hes Ha Hb.
  - rewrite zlen_nil in Ha. assert (Hz : at_index - zlen pre = 0) by lia.
    replace at_index with (zlen pre) in * by lia. cbn [length fill_insert]. rewrite Z.eqb_refl.
    rewrite Z.sub_diag. reflexivity.
  - rewrite zlen_cons in Ha, Hb. cbn [length]. remember (S (length suf)) as m. cbn [fill_insert]. subst m.
    pose proof (zlen_nonneg pre). pose proof (zlen_nonneg suf).
    destruct (Z.eqb_spec (zlen pre) at_index) as [E|E].
    + subst at_index. rewrite Z.sub_diag. cbn [insert_at]. rewrite Z.eqb_refl. cbn [lens map put_entries fst snd].
      apply (fill_tail (e :: suf) pre); auto; rewrite ?zlen_cons; lia.
    + cbn [insert_at]. rewrite (proj2 (Z.eqb_neq (at_index - zlen pre) 0)) by lia.
      rewrite Z.sub_0_r, u16_small by lia.
      destruct (rep_at pre e suf Hes) as (off & -> & _ & ->). destruct (snoc_split es pre e suf Hes) as [Hes' Hz].
      cbn [lens map put_entries fst snd].
      replace (at_index - zlen pre - 1) with (at_index - zlen (pre ++ [e])) by lia.
      rewrite <- Hz. apply IH; [auto|lia|lia].
Qed.

Lemma fill_remove_list suf pre work lengths values found out c :
  es = pre ++ suf ->
  fill_remove (length suf) work lengths values node n found (zlen pre) out c =
  Some (put_entries work lengths values out c (lens (remove_at (found - zlen pre) suf))).
Proof.
  revert pre work out c. induction suf as [|e suf IH]; intros pre work out c Hes; [reflexivity|].
  cbn [length fill_remove remove_at].
  destruct (snoc_split es pre e suf Hes) as [Hes' Hz].
  replace (found - zlen pre =? 0) with (zlen pre =? found)
    by (apply eq_true_iff_eq; rewrite !Z.eqb_eq; lia).
  destruct (Z.eqb_spec (zlen pre) found) as [E|E].
  - rewrite <- Hz, (IH (pre ++ [e])), Hz, remove_at_neg by (auto; lia). reflexivity.
  - destruct (rep_at pre e suf Hes) as (off & -> & _ & ->). rewrite <- Hz, (IH (pre ++ [e])), Hz by auto.
    cbn [lens map put_entries fst snd]. replace (found - (zlen pre + 1)) with (found - zlen pre - 1) by lia.
    reflexivity.
Qed.
End loops.

(** * The node as a sorted map *)

Definition sorted (data_type : Z) (es : list entry) : Prop :=
  StronglySorted (fun x y => key_compare_typed data_type x.1 y.1 < 0) es.

(** [node] holds the sorted entries [es], each a key of the tree's type. *)
Record tree_ok (data_type : Z) (node : bytes) (size : Z) (es : list entry) : Prop := {
  to_rep : node_rep node size es;
  to_sorted : sorted data_type es;
  to_entries : Forall (fun e : entry => key_ok data_type e.1 /\ value_ok e) es;
}.

(** The value under a key. *)
Fixpoint assoc (name : bytes) (es : list entry) : option Z :=
  match es with
  | [] => None
  | e :: es => if decide (e.1 = name) then Some e.2 else assoc name es
  end.

Lemma assoc_app name es es' :
  assoc name (es ++ es') = match assoc name es with Some v => Some v | None => assoc name es' end.
Proof. induction es as [|e es IH]; simpl; [reflexivity|]. now destruct (decide (e.1 = name)). Qed.

Lemma assoc_None name es : assoc name es = None <-> name ∉ map fst es.
Proof.
  induction es as [|e es IH]; simpl; [split; [intros _; apply not_elem_of_nil|auto]|].
  rewrite not_elem_of_cons, <- IH. destruct (decide (e.1 = name)) as [->|]; split; intros; try discriminate;
    intuition congruence.
Qed.

Section search.
Context (data_type : Z) (node : bytes) (size : Z) (es : list entry) (name : bytes).
Context (Hrep : node_rep node size es).
Local Notation n := (zlen es).
Local Notation cmp := (key_compare_typed data_type).

Lemma find_key_list suf pre :
  es = pre ++ suf ->
  match find_key (length suf) node n data_type name (zlen pre) with
  | Some i => exists mid e post, suf = mid ++ e :: post /\ i = zlen (pre ++ mid) /\ cmp e.1 name = 0 /\
      Forall (fun x => cmp x.1 name <> 0) mid
  | None => Forall (fun x => cmp x.1 name <> 0) suf
  end.
Proof.
  revert pre. induction suf as [|e suf IH]; intros pre Hes; simpl; [constructor|].
  unfold order_at. destruct (rep_at node size es Hrep pre e suf Hes) as (off & -> & -> & _).
  destruct (snoc_split es pre e suf Hes) as [Hes' Hz].
  destruct (Z.eqb_spec (cmp e.1 name) 0) as [E|E].
  - exists [], e, suf. rewrite app_nil_r. auto.
  - rewrite <- Hz. specialize (IH (pre ++ [e]) Hes'). destruct (find_key _ _ _ _ _ _) as [i|].
    + destruct IH as (mid & e' & post & -> & -> & E' & Hm). exists (e :: mid), e', post.
      rewrite <- app_assoc. splits; auto.
    + now constructor.
Qed.

Lemma insert_point_list suf pre :
  es = pre ++ suf ->
  exists i b mid post, insert_point (length suf) node n data_type name (zlen pre) = Some (i, b) /\
    suf = mid ++ post /\ i = zlen (pre ++ mid) /\ Forall (fun x => cmp x.1 name < 0) mid /\
    (if b then exists e post', post = e :: post' /\ cmp e.1 name = 0
     else match post with [] => True | e :: _ => 0 < cmp e.1 name end).
Proof.
  revert pre. induction suf as [|e suf IH]; intros pre Hes; simpl.
  { exists (zlen pre), false, [], []. rewrite (app_nil_r pre). splits; auto. }
  unfold order_at. destruct (rep_at node size es Hrep pre e suf Hes) as (off & -> & -> & _).
  destruct (snoc_split es pre e suf Hes) as [Hes' Hz].
  destruct (Z.leb_spec 0 (cmp e.1 name)) as [Hge|Hlt].
  - exists (zlen pre), (cmp e.1 name =? 0), [], (e :: suf). rewrite app_nil_r. splits; auto.
    destruct (Z.eqb_spec (cmp e.1 name) 0); [eauto|lia].
  - rewrite <- Hz. destruct (IH (pre ++ [e]) Hes') as (i & b & mid & post & E & -> & -> & Hm & Hb).
    exists (zlen ((pre ++ [e]) ++ mid)), b, (e :: mid), post. rewrite <- app_assoc in *. splits; auto.
Qed.
End search.

(** The last byte of a node's own size. *)
Lemma slice_self node size es : node_rep node size es -> slice node 0 size = node.
Proof. intros Hr. apply slice_all. symmetry. apply (nr_len _ _ _ Hr). Qed.

(** Replacing one value leaves the rest of the node. *)
Lemma put_value_rep node size pre e post v :
  node_rep node size (pre ++ e :: post) -> 0 <= v < 2 ^ 64 ->
  let es := pre ++ e :: post in
  let work := put_le64 node (lengths_of es + zlen es * 2 + zlen pre * 8) v in
  node_rep work size (pre ++ (e.1, v) :: post) /\
  (forall k, 0 <= k < lengths_of es -> byte_at work k = byte_at node k).
Proof.
  intros Hr Hv es work. destruct (rep_keys_bound node size es Hr) as (B1 & B2 & B3).
  pose proof Hr as []. unfold node.kFixed in *. pose proof (zlen_nonneg pre). pose proof (zlen_nonneg post).
  assert (Hn : zlen es = zlen pre + 1 + zlen post) by (unfold es; rewrite zlen_app, zlen_cons; lia).
  fold es in nr_used0, nr_keys0, nr_lens0, nr_vals0, nr_count0, nr_all0.
  assert (Hfr : forall k, 0 <= k < lengths_of es + zlen es * 2 -> byte_at work k = byte_at node k).
  { intros k Hk. unfold work. rewrite put_le64_blit by lia. apply byte_blit_disj; rewrite ?zlen_le_split; lia. }
  assert (Hkeys : keys (pre ++ (e.1, v) :: post) = keys es) by (unfold es; rewrite !keys_app, !keys_cons; reflexivity).
  assert (Hlens : lengths_of (pre ++ (e.1, v) :: post) = lengths_of es) by (unfold lengths_of; now rewrite Hkeys).
  assert (Hcount : zlen (pre ++ (e.1, v) :: post) = zlen es) by (unfold es; now rewrite !zlen_app, !zlen_cons).
  split; [|intros; apply Hfr; lia]. split; rewrite ?Hlens, ?Hkeys, ?Hcount; auto.
  - unfold work. now rewrite zlen_put64.
  - unfold work. apply bytes_ok_put64; [lia|auto].
  - rewrite <- nr_count0. apply le16_ext. intros i Hi. apply Hfr. unfold node.kKeyCount. lia.
  - rewrite <- nr_all0. apply le16_ext. intros i Hi. apply Hfr. unfold node.kAllKeyLength. lia.
  - rewrite <- nr_keys0 at 2. apply slice_ext; [unfold node.kFixed; lia..|].
    intros i Hi. apply Hfr. unfold node.kFixed. lia.
  - intros i Hi. assert (Hi' : (i < length es)%nat) by (unfold zlen in Hcount; lia).
    transitivity (le16 node (lengths_of es + Z.of_nat i * 2)).
    + apply le16_ext. intros j Hj. apply Hfr. unfold zlen in *. lia.
    + rewrite (nr_lens0 i Hi'). unfold keys, es. rewrite <- !firstn_map, !map_app. reflexivity.
  - intros i x Hi. destruct (Nat.eq_dec i (length pre)) as [->|Hne].
    + rewrite lookup_app_r, Nat.sub_diag in Hi by lia. injection Hi as <-. unfold work.
      fold (zlen pre). rewrite le64_put by lia. apply u64_small. exact Hv.
    + assert (Hx : es !! i = Some x).
      { unfold es. apply lookup_app_Some in Hi as [Hi|[Hge Hi]]; apply lookup_app_Some; [auto|right].
        split; [auto|]. destruct (i - length pre)%nat as [|m] eqn:Em; [lia|exact Hi]. }
      rewrite <- (nr_vals0 i x Hx). apply le64_ext. intros j Hj. unfold work.
      rewrite put_le64_blit by lia. apply byte_blit_disj; rewrite ?zlen_le_split; unfold zlen in *; lia.
Qed.

(** ** Sorted lists *)

Section sorted_lists.
Context (data_type : Z).
Local Notation cmp := (key_compare_typed data_type).
Local Notation lt := (fun x y : entry => cmp x.1 y.1 < 0).
Local Notation ok := (fun e : entry => key_ok data_type e.1 /\ value_ok e).

Lemma sorted_app_inv es es' : sorted data_type (es ++ es') -> sorted data_type es /\ sorted data_type es'.
Proof.
  unfold sorted. induction es as [|e es IH]; simpl; [split; [constructor|auto]|].
  intros Hs. apply StronglySorted_inv in Hs as [Hs Hf]. destruct (IH Hs) as [H1 H2]. split; [|auto].
  constructor; [auto|]. now apply Forall_app in Hf as [Hf _].
Qed.

Lemma sorted_app es es' :
  sorted data_type es -> sorted data_type es' ->
  (forall x y, x ∈ es -> y ∈ es' -> lt x y) -> sorted data_type (es ++ es').
Proof.
  unfold sorted. intros Hs Hs' Hc. induction Hs as [|e es Hs IH Hf]; simpl; [auto|].
  constructor.
  - apply IH. intros x y Hx Hy. apply Hc; [now right|auto].
  - apply Forall_app_2; [auto|]. apply Forall_forall. intros y Hy. apply Hc; [left|auto].
Qed.

Lemma sorted_cross es es' x y : sorted data_type (es ++ es') -> x ∈ es -> y ∈ es' -> lt x y.
Proof.
  unfold sorted. induction es as [|e es IH]; simpl; intros Hs Hx Hy; [now apply elem_of_nil in Hx|].
  apply StronglySorted_inv in Hs as [Hs Hf]. apply elem_of_cons in Hx as [->|Hx]; [|auto].
  rewrite Forall_forall in Hf. apply Hf, elem_of_app. auto.
Qed.

(** A new entry between the smaller and the greater ones. *)
Lemma sorted_insert pre post name v :
  sorted data_type (pre ++ post) -> Forall ok (pre ++ post) -> key_ok data_type name ->
  Forall (fun x : entry => cmp x.1 name < 0) pre ->
  (match post with [] => True | e :: _ => 0 < cmp e.1 name end) ->
  sorted data_type (pre ++ (name, v) :: post) /\ name ∉ map fst (pre ++ post).
Proof.
  intros Hs Hok Hn Hlt Hgt. apply Forall_app in Hok as [Ho1 Ho2].
  assert (Hpost : forall y, y ∈ post -> cmp name y.1 < 0).
  { destruct post as [|e post]; [intros y Hy; now apply elem_of_nil in Hy|].
    apply Forall_cons in Ho2 as [[Hke _] Ho2]. rewrite Forall_forall in Ho2.
    assert (Hne : cmp name e.1 < 0) by (rewrite typed_antisym by auto; lia).
    intros y [->|Hy]%elem_of_cons; [auto|]. apply (typed_trans data_type name e.1 y.1); auto; [apply Ho2; auto|].
    destruct (sorted_app_inv _ _ Hs) as [_ Hs2]. apply StronglySorted_inv in Hs2 as [_ Hf].
    rewrite Forall_forall in Hf. now apply Hf. }
  rewrite Forall_forall in Ho1, Ho2, Hlt. destruct (sorted_app_inv _ _ Hs) as [Hs1 Hs2]. split.
  - apply sorted_app; [auto| |].
    + constructor; [auto|]. apply Forall_forall. exact Hpost.
    + intros x y Hx [->|Hy]%elem_of_cons; [now apply Hlt|]. now apply (sorted_cross pre post).
  - intros Hin. apply list_elem_of_In, in_map_iff in Hin as (x & Hx & Hin%list_elem_of_In).
    apply elem_of_app in Hin as [Hin|Hin].
    + specialize (Hlt x Hin). rewrite (proj2 (typed_eq data_type x.1 name (proj1 (Ho1 x Hin)) Hn) Hx) in Hlt. lia.
    + specialize (Hpost x Hin). rewrite (proj2 (typed_eq data_type name x.1 Hn (proj1 (Ho2 x Hin))) (eq_sym Hx)) in Hpost. lia.
Qed.

(** Keys are not repeated. *)
Lemma sorted_unique pre e post :
  sorted data_type (pre ++ e :: post) -> Forall ok (pre ++ e :: post) ->
  e.1 ∉ map fst pre /\ e.1 ∉ map fst post.
Proof.
  intros Hs Hok. apply Forall_app in Hok as [Ho1 Ho2]. apply Forall_cons in Ho2 as [[Hke _] Ho2].
  rewrite Forall_forall in Ho1, Ho2. split; intros Hin;
    apply list_elem_of_In, in_map_iff in Hin as (x & Hx & Hin%list_elem_of_In).
  - assert (Hl : lt x e) by (apply (sorted_cross pre (e :: post)); auto; left).
    simpl in Hl. rewrite (proj2 (typed_eq data_type x.1 e.1 (proj1 (Ho1 x Hin)) Hke) Hx) in Hl. lia.
  - destruct (sorted_app_inv _ _ Hs) as [_ Hs2]. apply StronglySorted_inv in Hs2 as [_ Hf].
    rewrite Forall_forall in Hf. specialize (Hf x Hin). simpl in Hf.
    rewrite (proj2 (typed_eq data_type e.1 x.1 Hke (proj1 (Ho2 x Hin))) (eq_sym Hx)) in Hf. lia.
Qed.

Lemma sorted_replace pre e post v :
  sorted data_type (pre ++ e :: post) -> sorted data_type (pre ++ (e.1, v) :: post).
Proof.
  intros Hs. destruct (sorted_app_inv _ _ Hs) as [Hs1 Hs2]. apply StronglySorted_inv in Hs2 as [Hs2 Hf].
  apply sorted_app; [auto|now constructor|]. intros x y Hx [->|Hy]%elem_of_cons; simpl.
  - apply (sorted_cross pre (e :: post) x e); auto. left.
  - apply (sorted_cross pre (e :: post) x y); auto. now right.
Qed.

Lemma sorted_remove pre e post : sorted data_type (pre ++ e :: post) -> sorted data_type (pre ++ post).
Proof.
  intros Hs. destruct (sorted_app_inv _ _ Hs) as [Hs1 Hs2]. apply StronglySorted_inv in Hs2 as [Hs2 Hf].
  apply sorted_app; [auto..|]. intros x y Hx Hy. apply (sorted_cross pre (e :: post) x y); auto. now right.
Qed.
End sorted_lists.

(** Bytes of the keys. *)
Lemma keys_bytes data_type es :
  Forall (fun e : entry => key_ok data_type e.1 /\ value_ok e) es -> bytes_ok (keys es) /\ Forall value_ok es.
Proof.
  induction 1 as [|e es [(Hb & _) Hv] Hf [IH1 IH2]]; [split; constructor|]. rewrite keys_cons.
  split; [now apply bytes_ok_app|now constructor].
Qed.

(** The header fields a rebuilt node keeps. *)
Definition same_links (node work : bytes) : Prop :=
  le64 work node.kLeftLink = le64 node node.kLeftLink /\
  le64 work node.kRightLink = le64 node node.kRightLink /\
  le64 work node.kOverflowLink = le64 node node.kOverflowLink.

(** * The node operations *)

(** Looking a name up in a node gives the value stored under it, and
    nothing exactly when the name is not there. *)
Theorem node_find_spec (data_type : Z) (node : bytes) (size : Z) (es : list entry) (name : bytes) :
  tree_ok data_type node size es -> key_ok data_type name ->
  node_find node size data_type name = assoc name es.
Proof.
  intros [Hr Hs Ho] Hn. unfold node_find. rewrite (rep_info node size es Hr). cbn [ni_count].
  pose proof (find_key_list data_type node size es name Hr es [] eq_refl) as Hf.
  rewrite to_nat_zlen. rewrite zlen_nil in Hf.
  destruct (find_key _ _ _ _ _ _) as [i|].
  - destruct Hf as (mid & e & post & Hes & -> & E & Hm). rewrite app_nil_l.
    destruct (rep_at node size es Hr mid e post Hes) as (_ & _ & _ & ->).
    rewrite Hes in Hs, Ho |- *. destruct (sorted_unique data_type mid e post Hs Ho) as [U1 _].
    apply Forall_app in Ho as [Ho1 Ho2]. apply Forall_cons in Ho2 as [[Hke _] _].
    apply (typed_eq data_type e.1 name Hke Hn) in E. subst name.
    rewrite assoc_app, (proj2 (assoc_None _ _) U1). simpl. now rewrite decide_True.
  - symmetry. apply assoc_None. intros Hin. apply list_elem_of_In, in_map_iff in Hin as (x & Hx & Hin%list_elem_of_In).
    rewrite Forall_forall in Hf, Ho. apply (Hf x Hin). apply typed_eq; auto. apply Ho, Hin.
Qed.

Lemma node_entry_law (data_type : Z) (node : bytes) (size : Z) (es : list entry) (i : nat) :
  tree_ok data_type node size es ->
  node_entry node size (Z.of_nat i) =
    match es !! i with
    | Some e => if kMaxName <? zlen e.1 then None else Some e
    | None => None
    end.
Proof.
  intros [Hr _ _]. unfold node_entry. rewrite (rep_info node size es Hr). cbn [ni_count].
  destruct (es !! i) as [e|] eqn:Hi.
  - pose proof (lookup_lt_Some _ _ _ Hi). rewrite (proj2 (Z.leb_gt _ _)) by (unfold zlen; lia).
    destruct (rep_key_at node size es Hr i e Hi) as (off & -> & ->).
    rewrite (rep_value_at node size es Hr i e Hi). destruct (kMaxName <? zlen e.1); [reflexivity|]. now destruct e.
  - apply lookup_ge_None in Hi. now rewrite (proj2 (Z.leb_le _ _)) by (unfold zlen; lia).
Qed.

(** Entries are read back in key order: the [i]th entry of a node is its
    [i]th key and value (for names up to 255 bytes), and past the last there is
    none. *)
Theorem node_entry_spec (data_type : Z) (node : bytes) (size : Z) (es : list entry) (i : nat) :
  tree_ok data_type node size es ->
  node_entry node size (Z.of_nat i) =
    match es !! i with
    | Some e => if kMaxName <? zlen e.1 then None else Some e
    | None => None
    end.
Proof. apply node_entry_law. Qed.

Section rebuild.
Context (data_type : Z) (node : bytes) (size : Z) (es : list entry).
Context (Hok : tree_ok data_type node size es).
Local Notation ok := (fun e : entry => key_ok data_type e.1 /\ value_ok e).

Lemma rep_small : zlen es <= kMaxBlockSize /\ zlen (keys es) <= kMaxBlockSize.
Proof.
  destruct Hok as [Hr _ _]. destruct (rep_keys_bound node size es Hr) as (B1 & B2 & B3).
  destruct Hr. unfold node.kFixed in *. pose proof (zlen_nonneg es). lia.
Qed.

Lemma insert_work pre post name v :
  es = pre ++ post ->
  let es' := pre ++ (name, v) :: post in
  forall h work at1 work2 at2,
  h = new_header size node (zlen es') (zlen (keys es')) ->
  copy_keys (length pre) h node.kFixed node (zlen es) (-1) 0 = (work, at1) ->
  copy_keys (length post) (blit work at1 name) (at1 + zlen name) node (zlen es) (-1) (zlen pre) = (work2, at2) ->
  work2 = blit h node.kFixed (keys es').
Proof.
  intros Hes es' h work at1 work2 at2 -> E1 E2. destruct Hok as [Hr _ _].
  change 0 with (zlen (@nil entry)) in E1.
  rewrite (copy_keys_list node size es Hr pre [] post) in E1 by (auto; unfold node.kFixed; lia).
  rewrite zlen_nil, remove_at_neg in E1 by lia. cbn zeta in E1. injection E1 as <- <-.
  pose proof (zlen_nonneg (keys pre)). pose proof (zlen_nonneg name). pose proof (zlen_nonneg pre).
  rewrite (copy_keys_list node size es Hr post pre []) in E2
    by (rewrite ?app_nil_r; auto; unfold node.kFixed; lia).
  rewrite remove_at_neg in E2 by lia. cbn zeta in E2. injection E2 as <- _.
  unfold es'. rewrite keys_app, keys_cons, !blit_app by (unfold node.kFixed; lia). reflexivity.
Qed.

Lemma insert_fresh pre post name v :
  es = pre ++ post -> Forall (fun x : entry => key_compare_typed data_type x.1 name < 0) pre ->
  (match post with [] => True | e :: _ => 0 < key_compare_typed data_type e.1 name end) ->
  key_ok data_type name -> 0 <= v < 2 ^ 64 ->
  lengths_of (pre ++ (name, v) :: post) + (zlen es + 1) * 10 <= size ->
  let es' := pre ++ (name, v) :: post in
  let work := assemble size node es' in
  tree_ok data_type work size es' /\ same_links node work /\
  (forall k, assoc k es' = if decide (k = name) then Some v else assoc k es) /\ name ∉ map fst es.
Proof.
  intros Hes Hlt Hgt Hn Hv Hfit es' work. pose proof rep_small as [S1 S2]. pose proof Hok as [Hr Hs Ho].
  rewrite Hes in Hs, Ho, S2. unfold kMaxBlockSize in S2.
  destruct (sorted_insert data_type pre post name v Hs Ho Hn Hlt Hgt) as [Hs' Hfresh].
  assert (Ho' : Forall ok es').
  { apply Forall_app in Ho as [Ho1 Ho2]. apply Forall_app_2; [auto|]. constructor; [now split|auto]. }
  destruct (keys_bytes data_type es' Ho') as [Hkb Hvb].
  assert (Hk16 : zlen (keys es') < 65536).
  { unfold es'. rewrite keys_app, keys_cons, !zlen_app in *. destruct Hn as (_ & Hn & _).
    unfold kMaxKeyLength in Hn. cbn [fst]. lia. }
  assert (Hz : zlen es' = zlen es + 1).
  { unfold es'. rewrite Hes, !zlen_app, zlen_cons. lia. }
  destruct (assemble_rep size node es') as (A1 & A2 & A3 & A4); auto; [apply Hr|apply Hr|rewrite Hz; exact Hfit|].
  splits; auto.
  - now split.
  - now split.
  - intros k. unfold es'. rewrite Hes, !assoc_app. simpl.
    assert (Hpre : assoc name pre = None).
    { apply assoc_None. intros Hin. apply Hfresh. rewrite map_app. apply elem_of_app. auto. }
    destruct (decide (name = k)) as [<-|Hne]; [rewrite decide_True, Hpre by auto; reflexivity|].
    rewrite decide_False by auto. reflexivity.
  - now rewrite Hes.
Qed.
End rebuild.

(** The value of a name that is there already, replaced. *)
Lemma insert_replaces (data_type : Z) (node : bytes) (size : Z) (es pre : list entry) (e : entry) (post' : list entry) (name : bytes) (value : Z)
    (work := put_le64 node (lengths_of es + zlen es * 2 + zlen pre * 8) value) :
  tree_ok data_type node size es -> key_ok data_type name -> 0 <= value < 2 ^ 64 ->
  es = pre ++ e :: post' -> key_compare_typed data_type e.1 name = 0 ->
  exists es', tree_ok data_type work size es' /\ same_links node work /\
    (forall k, assoc k es' = if decide (k = name) then Some value else assoc k es) /\
    true = bool_decide (name ∈ map fst es) /\ zlen es' = zlen es + 0.
Proof.
  intros Hok Hn Hv Hes Hcmp. pose proof Hok as [Hr Hs Ho].
  destruct (put_value_rep node size pre e post' value) as [P1 P2]; [now rewrite <- Hes|auto|].
  rewrite <- Hes in P1, P2. exists (pre ++ (e.1, value) :: post').
  rewrite Hes in Hs, Ho. pose proof (sorted_unique data_type pre e post' Hs Ho) as [U1 U2].
  assert (Hke : key_ok data_type e.1).
  { apply Forall_app in Ho as [_ Ho2]. now apply Forall_cons in Ho2 as [[Hke _] _]. }
  apply (typed_eq data_type e.1 name Hke Hn) in Hcmp.
  destruct (rep_keys_bound node size es Hr) as (B1 & B2 & B3). unfold node.kFixed in B2.
  splits.
  - split; [exact P1|now apply sorted_replace|].
    apply Forall_app in Ho as [Ho1 Ho2]. apply Forall_cons in Ho2 as [He Ho2].
    apply Forall_app_2; [auto|]. constructor; [now split|auto].
  - unfold same_links, node.kLeftLink, node.kRightLink, node.kOverflowLink.
    splits; apply le64_ext; intros j Hj; apply P2; lia.
  - intros k. rewrite Hes, !assoc_app. simpl. subst name.
    destruct (decide (k = e.1)) as [->|Hne].
    + now rewrite (proj2 (assoc_None _ _) U1), decide_True.
    + rewrite !decide_False by auto. reflexivity.
  - symmetry. apply bool_decide_eq_true. rewrite Hes, map_app, <- Hcmp. apply elem_of_app. right. simpl. left.
  - rewrite Hes, !zlen_app, !zlen_cons. lia.
Qed.

Lemma node_insert_law (data_type : Z) (node : bytes) (size : Z) (es : list entry)
    (name : bytes) (value : Z) :
  tree_ok data_type node size es -> key_ok data_type name -> 0 <= value < 2 ^ 64 ->
  match node_insert size data_type node name value with
  | Some (work, existed) =>
    exists es', tree_ok data_type work size es' /\ same_links node work /\
      (forall k, assoc k es' = if decide (k = name) then Some value else assoc k es) /\
      existed = bool_decide (name ∈ map fst es) /\
      zlen es' = zlen es + (if existed then 0 else 1)
  | None => name ∉ map fst es /\
      size < key_align (node.kFixed + (zlen (keys es) + zlen name)) + (zlen es + 1) * 10
  end.
Proof.
  intros Hok Hn Hv. pose proof Hok as [Hr Hs Ho]. pose proof Hn as (_ & Hlen & _).
  unfold node_insert. rewrite (proj2 (Z.eqb_neq _ _)), (proj2 (Z.ltb_ge _ _)) by lia. cbn [orb].
  rewrite (rep_info node size es Hr). cbn [ni_count ni_all_key_length].
  destruct (insert_point_list data_type node size es name Hr es [] eq_refl)
    as (i & b & pre & post & E & Hes & -> & Hlt & Hb).
  rewrite app_nil_l in *. rewrite to_nat_zlen. rewrite zlen_nil in E. rewrite E.
  rewrite (rep_lengths node size es Hr). destruct b.
  - destruct Hb as (e & post' & -> & Hcmp). rewrite (slice_self node size es Hr).
    now apply (insert_replaces data_type node size es pre e post').
  - change (2 + 8) with 10.
    assert (Hlo : key_align (node.kFixed + (zlen (keys es) + zlen name)) = lengths_of (pre ++ (name, value) :: post)).
    { unfold lengths_of. rewrite Hes, !keys_app, keys_cons, !zlen_app. f_equal. cbn [fst]. lia. }
    assert (Hall : zlen (keys es) + zlen name = zlen (keys (pre ++ (name, value) :: post))).
    { rewrite Hes, !keys_app, keys_cons, !zlen_app. cbn [fst]. lia. }
    assert (Hcnt : zlen es + 1 = zlen (pre ++ (name, value) :: post)).
    { rewrite Hes, !zlen_app, zlen_cons. lia. }
    destruct (Z.ltb_spec size (key_align (node.kFixed + (zlen (keys es) + zlen name)) + (zlen es + 1) * 10)) as [Hbig|Hfit].
    { split; [|exact Hbig]. rewrite Hes in Hs, Ho |- *. now apply (sorted_insert data_type pre post name value). }
    rewrite Hlo in Hfit.
    destruct (insert_fresh data_type node size es Hok pre post name value Hes Hlt Hb Hn Hv Hfit) as (F1 & F2 & F3 & F4).
    rewrite to_nat_zlen. destruct (copy_keys (length pre) _ _ _ _ _ _) as [work at1] eqn:E1.
    replace (Z.to_nat (zlen es - zlen pre)) with (length post) by (rewrite Hes; unfold zlen; rewrite length_app; lia).
    destruct (copy_keys (length post) _ _ _ _ _ _) as [work2 at2] eqn:E2.
    rewrite Hcnt, Hall in E1.
    pose proof (insert_work data_type node size es Hok pre post name value Hes _ work at1 work2 at2 eq_refl E1 E2).
    subst work2.
    replace (Z.to_nat (zlen es + 1)) with (S (length es)) by (unfold zlen; lia).
    pose proof (rep_small data_type node size es Hok) as [Sm _]. unfold kMaxBlockSize in Sm.
    change 0 with (zlen (@nil entry)) at 1.
    rewrite (fill_insert_list node size es Hr es []); [|reflexivity|rewrite Hes, zlen_app, zlen_nil; pose proof (zlen_nonneg pre); pose proof (zlen_nonneg post); lia|rewrite zlen_nil; lia].
    exists (pre ++ (name, value) :: post). rewrite Hlo, Hcnt.
    assert (Hins : insert_at (zlen pre - zlen (@nil entry)) (name, value) es = pre ++ (name, value) :: post).
    { rewrite zlen_nil, Z.sub_0_r. unfold zlen. rewrite insert_at_split by (rewrite Hes, length_app; lia).
      rewrite Hes, take_app_length, drop_app_length. reflexivity. }
    rewrite Hins. splits; auto. symmetry. now apply bool_decide_eq_false.
Qed.

(** C10: Inserting into a node.  For a name of the tree's type: a name already
    there has its value replaced; a new one is put in its place, and refused
    exactly when the node would outgrow its size.  The result is again a sorted
    node, with the same links, that maps the name to the value and every other
    name as before. *)
Theorem node_insert_spec (data_type : Z) (node : bytes) (size : Z) (es : list entry)
    (name : bytes) (value : Z) :
  tree_ok data_type node size es -> key_ok data_type name -> 0 <= value < 2 ^ 64 ->
  match node_insert size data_type node name value with
  | Some (work, existed) =>
    exists es', tree_ok data_type work size es' /\ same_links node work /\
      (forall k, assoc k es' = if decide (k = name) then Some value else assoc k es) /\
      existed = bool_decide (name ∈ map fst es) /\
      zlen es' = zlen es + (if existed then 0 else 1)
  | None => name ∉ map fst es /\
      size < key_align (node.kFixed + (zlen (keys es) + zlen name)) + (zlen es + 1) * 10
  end.
Proof. apply node_insert_law. Qed.

Section removal.
Context (data_type : Z) (node : bytes) (size : Z) (pre post : list entry) (e : entry).
Local Notation es := (pre ++ e :: post).
Context (Hok : tree_ok data_type node size es).
Local Notation es' := (pre ++ post).

(** What is left fits, since it is smaller. *)
Lemma removed_fits :
  zlen (keys es) = zlen (keys es') + zlen e.1 /\ zlen es = zlen es' + 1 /\
  zlen (keys es') < 65536 /\ lengths_of es' + zlen es' * 10 <= size.
Proof.
  pose proof (rep_small data_type node size es Hok) as [S1 S2]. unfold kMaxBlockSize in *.
  assert (Hk : zlen (keys es) = zlen (keys es') + zlen e.1)
    by (rewrite !keys_app, keys_cons, !zlen_app; lia).
  assert (Hz : zlen es = zlen es' + 1) by (rewrite !zlen_app, zlen_cons; lia).
  pose proof (zlen_nonneg (keys es')). pose proof (zlen_nonneg e.1). pose proof (zlen_nonneg es').
  splits; auto; [lia|]. pose proof (nr_used _ _ _ (to_rep _ _ _ _ Hok)) as Hu.
  unfold lengths_of, node.kFixed in *. rewrite Hk, key_align_spec in Hu by lia. rewrite key_align_spec by lia.
  zlia.
Qed.

Lemma remove_work :
  new_header size node (zlen es - 1) (zlen (keys es')) = new_header size node (zlen es') (zlen (keys es')) /\
  (copy_keys (length es) (new_header size node (zlen es') (zlen (keys es'))) node.kFixed node (zlen es) (zlen pre) 0).1
    = blit (new_header size node (zlen es') (zlen (keys es'))) node.kFixed (keys es') /\
  remove_at (zlen pre) es = es'.
Proof.
  destruct removed_fits as (_ & Hz & _ & _).
  assert (Hrem : remove_at (zlen pre) es = es').
  { unfold zlen. rewrite remove_at_split by (rewrite length_app; simpl; lia).
    rewrite take_app_length. f_equal.
    replace (S (length pre)) with (length pre + 1)%nat by lia. now rewrite drop_app_add. }
  splits; auto; [f_equal; lia|].
  change 0 with (zlen (@nil entry)).
  rewrite (copy_keys_list node size es (to_rep _ _ _ _ Hok) es [] []) by
    (rewrite ?app_nil_r; auto; unfold node.kFixed; lia).
  rewrite zlen_nil, Z.sub_0_r, Hrem. reflexivity.
Qed.

Lemma removed_tree :
  let work := assemble size node es' in
  tree_ok data_type work size es' /\ same_links node work /\
  (forall k, assoc k es' = if decide (k = e.1) then None else assoc k es).
Proof.
  destruct removed_fits as (_ & _ & Hk & Hfit). pose proof Hok as [Hr Hs Ho].
  destruct (sorted_unique data_type pre e post Hs Ho) as [U1 U2].
  assert (Ho' : Forall (fun e : entry => key_ok data_type e.1 /\ value_ok e) es').
  { apply Forall_app in Ho as [Ho1 Ho2]. apply Forall_cons in Ho2 as [_ Ho2]. now apply Forall_app_2. }
  destruct (keys_bytes data_type _ Ho') as [Hkb Hvb].
  destruct (assemble_rep size node es') as (A1 & A2 & A3 & A4); auto; [apply Hr..|].
  intros work. splits; [split; auto; now apply (sorted_remove data_type pre e)|now split|].
  intros k. rewrite !assoc_app. simpl. destruct (decide (k = e.1)) as [->|Hne].
  - now rewrite (proj2 (assoc_None _ _) U1), (proj2 (assoc_None _ _) U2).
  - now rewrite (decide_False _ _ (not_eq_sym Hne)).
Qed.
End removal.

Lemma node_remove_law (data_type : Z) (node : bytes) (size : Z) (es : list entry) (name : bytes) :
  tree_ok data_type node size es -> key_ok data_type name ->
  exists work es', node_remove size data_type node name = Some (work, bool_decide (name ∈ map fst es)) /\
    tree_ok data_type work size es' /\ same_links node work /\
    (forall k, assoc k es' = if decide (k = name) then None else assoc k es) /\
    (name ∉ map fst es -> work = node /\ es' = es).
Proof.
  intros Hok Hn. pose proof Hok as [Hr Hs Ho]. unfold node_remove.
  rewrite (rep_info node size es Hr). cbn [ni_count ni_all_key_length]. rewrite to_nat_zlen.
  pose proof (find_key_list data_type node size es name Hr es [] eq_refl) as Hf. rewrite zlen_nil in Hf.
  destruct (find_key _ _ _ _ _ _) as [i|].
  - destruct Hf as (pre & e & post & Hes & -> & E & _). rewrite app_nil_l.
    destruct (rep_at node size es Hr pre e post Hes) as (off & -> & _). subst es.
    assert (Hke : key_ok data_type e.1).
    { apply Forall_app in Ho as [_ Ho2]. now apply Forall_cons in Ho2 as [[Hke _] _]. }
    apply (typed_eq data_type e.1 name Hke Hn) in E. subst name.
    destruct (removed_fits data_type node size pre post e Hok) as (R1 & R2 & R3 & R4).
    destruct (remove_work data_type node size pre post e Hok) as (W1 & W2 & W3).
    destruct (removed_tree data_type node size pre post e Hok) as (T1 & T2 & T3).
    pose proof (zlen_nonneg (keys (pre ++ post))).
    rewrite R1, Z.add_simpl_r, u32_small by lia. rewrite (u32_small (node.kFixed + _)) by (unfold node.kFixed; lia).
    rewrite W1. destruct (copy_keys _ _ _ _ _ _ _) as [work at1]. simpl in W2. subst work.
    match goal with |- context [fill_remove _ ?w ?l ?v _ _ _ _ _ _] =>
      pose proof (fill_remove_list node size _ Hr (pre ++ e :: post) [] w l v (zlen pre) 0 0 eq_refl) as Hfill end.
    rewrite zlen_nil, Z.sub_0_r, W3 in Hfill. rewrite Hfill. eexists _, (pre ++ post).
    assert (Hin : e.1 ∈ map fst (pre ++ e :: post)) by (rewrite map_app; apply elem_of_app; right; simpl; left).
    split; [rewrite bool_decide_eq_true_2 by exact Hin; reflexivity|].
    replace (put_entries _ _ _ 0 0 _) with (assemble size node (pre ++ post)).
    2:{ unfold assemble, lengths_of, node.kFixed. do 2 f_equal. lia. }
    splits; auto. contradiction.
  - assert (Hnin : name ∉ map fst es).
    { intros Hin. apply list_elem_of_In, in_map_iff in Hin as (x & Hx & Hin%list_elem_of_In).
      rewrite Forall_forall in Hf, Ho. apply (Hf x Hin). apply typed_eq; auto. apply Ho, Hin. }
    rewrite (slice_self node size es Hr). exists node, es.
    splits; auto; [now rewrite bool_decide_eq_false_2|now split|].
    intros k. destruct (decide (k = name)) as [->|]; [|reflexivity]. now apply assoc_None.
Qed.

(** Removing from a node always succeeds on a well-formed one: a name that
    is there goes, with every other name as before, the order and the links
    kept; a name that is not there leaves the node byte for byte as it was. *)
Theorem node_remove_spec (data_type : Z) (node : bytes) (size : Z) (es : list entry) (name : bytes) :
  tree_ok data_type node size es -> key_ok data_type name ->
  exists work es', node_remove size data_type node name = Some (work, bool_decide (name ∈ map fst es)) /\
    tree_ok data_type work size es' /\ same_links node work /\
    (forall k, assoc k es' = if decide (k = name) then None else assoc k es) /\
    (name ∉ map fst es -> work = node /\ es' = es).
Proof. apply node_remove_law. Qed.

(** Replacing the value at an index changes that entry's value and nothing
    else, and is refused exactly past the last entry. *)
Theorem node_set_value_spec (data_type : Z) (node : bytes) (size : Z) (es : list entry)
    (i : nat) (value : Z) :
  tree_ok data_type node size es -> 0 <= value < 2 ^ 64 ->
  match node_set_value size node (Z.of_nat i) value with
  | Some work => exists e, es !! i = Some e /\ tree_ok data_type work size (<[i := (e.1, value)]> es)
  | None => (length es <= i)%nat
  end.
Proof.
  intros [Hr Hs Ho] Hv. unfold node_set_value. rewrite (rep_info node size es Hr). cbn [ni_count].
  destruct (Z.leb_spec (zlen es) (Z.of_nat i)) as [Hge|Hlt]; [unfold zlen in Hge; lia|].
  destruct (lookup_lt_is_Some_2 es i) as [e He]; [unfold zlen in Hlt; lia|].
  exists e. split; [auto|]. rewrite (slice_self node size es Hr), (rep_lengths node size es Hr).
  pose proof (take_drop_middle es i e He) as Hsplit.
  pose proof (lookup_lt_Some _ _ _ He) as Hil.
  assert (Hpre : zlen (take i es) = Z.of_nat i) by (unfold zlen; rewrite length_take; lia).
  destruct (put_value_rep node size (take i es) e (drop (S i) es) value) as [P1 _];
    [now rewrite Hsplit|auto|].
  rewrite Hsplit, Hpre in P1. rewrite insert_take_drop by lia.
  rewrite <- Hsplit in Hs, Ho. split; [exact P1|now apply sorted_replace|].
  apply Forall_app in Ho as [Ho1 Ho2]. apply Forall_cons in Ho2 as [[He1 _] Ho2].
  apply Forall_app_2; [auto|]. constructor; [now split|auto].
Qed.

(** * The orders, the header and duplicate nodes *)

(** The typed key order is a total order on the keys of a tree: comparing
    equal is being the same key, swapping the keys swaps the sign, and the order
    is transitive; for each of the numeric types and for strings. *)
Theorem key_order_total (data_type : Z) (a b c : bytes) :
  key_ok data_type a -> key_ok data_type b -> key_ok data_type c ->
  (key_compare_typed data_type a b = 0 <-> a = b) /\
  key_compare_typed data_type b a = - key_compare_typed data_type a b /\
  (key_compare_typed data_type a b < 0 -> key_compare_typed data_type b c < 0 ->
   key_compare_typed data_type a c < 0).
Proof.
  intros Ka Kb Kc. splits; [now apply typed_eq|now apply typed_antisym|now apply typed_trans].
Qed.

(** Keys whose length is not their type's break the order: in a tree of
    32-bit integers, a one-byte key and two four-byte keys compare in a circle. *)
Theorem key_order_circle :
  let a := [0; 1; 0; 0] in let b := [2; 0; 0; 0] in let c := [1] in
  key_compare_typed kTreeInt32Type c b < 0 /\ key_compare_typed kTreeInt32Type b a < 0 /\
  key_compare_typed kTreeInt32Type a c < 0.
Proof. vm_compute. splits; reflexivity. Qed.

Lemma blit_get32 b a v : 0 <= a -> a + 4 <= zlen b -> le32 (blit b a (le_split 4 v)) a = u32 v.
Proof. intros. rewrite <- put_le32_blit by lia. now apply le32_put. Qed.
Lemma blit_get64 b a v : 0 <= a -> a + 8 <= zlen b -> le64 (blit b a (le_split 8 v)) a = u64 v.
Proof. intros. rewrite <- put_le64_blit by lia. now apply le64_put. Qed.

Definition header_ok (h : TreeHeader) : Prop :=
  1 <= th_node_size h <= kMaxBlockSize /\ 0 <= th_max_levels h < 2 ^ 32 /\
  0 <= th_data_type h < 2 ^ 32 /\ 0 <= th_root h < 2 ^ 64 /\ 0 <= th_free_node h < 2 ^ 64 /\
  0 <= th_maximum h < 2 ^ 64.

(** A tree header reads back as it was written, whatever the buffer held,
    and only the header's bytes change. *)
Theorem tree_header_roundtrip (b : bytes) (h : TreeHeader) :
  tree_header.kBytes <= zlen b -> header_ok h ->
  tree_header_parse (tree_header_build b h) = Some h /\
  forall k, tree_header.kBytes <= k -> byte_at (tree_header_build b h) k = byte_at b k.
Proof.
  unfold header_ok, kMaxBlockSize. intros Hl (H1 & H2 & H3 & H4 & H5 & H6). destruct h as [ns ml dt r f m]. cbn in *.
  unfold tree_header_parse, tree_header_build, tree_header.kBytes, tree_header.kMagic, tree_header.kNodeSize,
    tree_header.kMaxLevels, tree_header.kDataType, tree_header.kRootNode, tree_header.kFreeNode,
    tree_header.kMaximumSize in *. cbn [th_node_size th_max_levels th_data_type th_root th_free_node th_maximum].
  split.
  - set (b7 := put_le64 _ 32 m).
    assert (E0 : le32 b7 0 = kTreeMagic /\ le32 b7 4 = ns /\ le32 b7 8 = ml /\ le32 b7 12 = dt /\
                 le64 b7 16 = r /\ le64 b7 24 = f /\ le64 b7 32 = m).
    { unfold b7. autorewrite with put.
      splits; repeat first [rewrite le32_blit_disj by (rewrite ?zlen_le_split; lia)
                           |rewrite le64_blit_disj by (rewrite ?zlen_le_split; lia)];
        first [rewrite blit_get32 by (autorewrite with buf; lia) | rewrite blit_get64 by (autorewrite with buf; lia)];
        first [apply u32_small | apply u64_small]; unfold kTreeMagic; lia. }
    destruct E0 as (-> & -> & -> & -> & -> & -> & ->). rewrite Z.eqb_refl. cbn [negb].
    rewrite (proj2 (Z.eqb_neq _ _)), (proj2 (Z.ltb_ge _ _)) by (unfold kMaxBlockSize; lia). reflexivity.
  - intros k Hk. autorewrite with put. rewrite !byte_blit_disj by (rewrite ?zlen_le_split; lia). reflexivity.
Qed.

Lemma put_values_frame values node at_ k :
  0 <= at_ -> 0 <= k -> k < at_ \/ at_ + zlen values * 8 <= k ->
  byte_at (put_values node at_ values) k = byte_at node k.
Proof.
  revert node at_; induction values as [|v values IH]; intros node at_ Ha Hk Hd; simpl; [auto|].
  rewrite zlen_cons in Hd. pose proof (zlen_nonneg values). rewrite IH by lia.
  rewrite put_le64_blit by lia. apply byte_blit_disj; rewrite ?zlen_le_split; lia.
Qed.

Lemma put_values_get values node at_ (i : nat) v :
  0 <= at_ -> at_ + zlen values * 8 <= zlen node -> Forall (fun x => 0 <= x < 2 ^ 64) values ->
  values !! i = Some v -> le64 (put_values node at_ values) (at_ + Z.of_nat i * 8) = v.
Proof.
  revert node at_ i; induction values as [|v0 values IH]; intros node at_ i Ha Hl Hf Hi; [discriminate|].
  apply Forall_cons in Hf as [Hv Hf]. rewrite zlen_cons in Hl. pose proof (zlen_nonneg values).
  cbn [put_values]. destruct i as [|i]; simpl in Hi.
  - injection Hi as ->. rewrite Z.add_0_r. transitivity (le64 (put_le64 node at_ v) at_).
    + apply le64_ext. intros j Hj. apply put_values_frame; lia.
    + rewrite le64_put by lia. now apply u64_small.
  - replace (at_ + Z.of_nat (S i) * 8) with (at_ + 8 + Z.of_nat i * 8) by lia.
    apply IH; auto; rewrite ?zlen_put64; lia.
Qed.

Lemma zlen_put_values values node at_ : zlen (put_values node at_ values) = zlen node.
Proof. revert node at_; induction values as [|v values IH]; intros; simpl; [auto|]. now rewrite IH, zlen_put64. Qed.

(** A duplicate node gives back the values it was built with, in order,
    and no more; what it can hold is bounded by its size and by 125. *)
Theorem duplicate_roundtrip (size left right : Z) (values : list Z) (i : nat) :
  node.kFixed <= size <= kMaxBlockSize -> 0 <= left < 2 ^ 64 -> 0 <= right < 2 ^ 64 ->
  zlen values <= duplicate_capacity size -> Forall (fun x => 0 <= x < 2 ^ 64) values ->
  let node := duplicate_build size left right values in
  zlen node = size /\ duplicate_count node size = zlen values /\
  duplicate_value node size (Z.of_nat i) = values !! i /\
  le64 node node.kLeftLink = left /\ le64 node node.kRightLink = right.
Proof.
  intros Hs Hle Hri Hcap Hf nd. unfold node.kFixed, kMaxBlockSize in Hs.
  pose proof (zlen_nonneg values) as Hnn.
  assert (Hroom : 24 + zlen values * 8 <= size /\ zlen values <= 125).
  { unfold duplicate_capacity, node.kOverflowLink, kNumDuplicateValues in Hcap.
    destruct (_ <=? _) eqn:E1 in Hcap; breflect; [lia|]. destruct (_ <? _) eqn:E2 in Hcap; breflect; zlia. }
  unfold nd, duplicate_build, node.kOverflowLink, node.kLeftLink, node.kRightLink. change (16 + 8) with 24.
  set (h := put_le64 (put_le64 (put_le64 (zeros size) 0 left) 8 right) 16 (zlen values)).
  assert (Hh : zlen h = size) by (unfold h; autorewrite with buf; lia).
  assert (Hfr : forall k, 0 <= k < 24 -> byte_at (put_values h 24 values) k = byte_at h k)
    by (intros; apply put_values_frame; lia).
  assert (H0 : le64 h 0 = left /\ le64 h 8 = right /\ le64 h 16 = zlen values).
  { unfold h. splits.
    - rewrite (put_le64_blit _ 16), (put_le64_blit _ 8) by lia.
      rewrite !le64_blit_disj by (rewrite ?zlen_le_split; lia).
      rewrite le64_put by (autorewrite with buf; lia). apply u64_small; lia.
    - rewrite (put_le64_blit _ 16) by lia. rewrite le64_blit_disj by (rewrite ?zlen_le_split; lia).
      rewrite le64_put by (autorewrite with buf; lia). apply u64_small; lia.
    - rewrite le64_put by (autorewrite with buf; lia). apply u64_small; lia. }
  destruct H0 as (H0 & H8 & H16).
  assert (Hcnt : duplicate_count (put_values h 24 values) size = zlen values).
  { unfold duplicate_count, node.kOverflowLink, le64_signed.
    replace (le64 (put_values h 24 values) 16) with (zlen values)
      by (rewrite <- H16; symmetry; apply le64_ext; intros; apply Hfr; lia).
    unfold signed. change (2 ^ (64 - 1)) with 9223372036854775808. rewrite (proj2 (Z.ltb_lt (zlen values) _)) by lia.
    rewrite u32_small by lia. zcase; lia. }
  splits; auto.
  - now rewrite zlen_put_values.
  - unfold duplicate_value. rewrite Hcnt. unfold node.kOverflowLink. change (16 + 8) with 24.
    destruct (values !! i) as [v|] eqn:Hi.
    + pose proof (lookup_lt_Some _ _ _ Hi). rewrite (proj2 (Z.leb_gt _ _)) by (unfold zlen; lia).
      f_equal. apply put_values_get; auto; lia.
    + apply lookup_ge_None in Hi. now rewrite (proj2 (Z.leb_le _ _)) by (unfold zlen; lia).
  - rewrite <- H0. apply le64_ext. intros; apply Hfr; lia.
  - rewrite <- H8. apply le64_ext. intros; apply Hfr; lia.
Qed.

(** A node's key offsets are not checked against its size.  [node_info]
    accepts a 1 KiB node whose second key is said to start 5000 bytes in, and
    the lookup then depends on the byte there, past the end of the node. *)
Theorem find_reads_outside :
  let node := put_le64 (put_le16 (put_le16 (put_le16 (zeros 1024) node.kKeyCount 2) 32 5000) 34 5001) 44 7 in
  zlen node = 1024 /\ is_Some (node_info node 1024) /\
  node_find (node ++ zeros 4004 ++ [97]) 1024 kTreeStringType [97] = Some 7 /\
  node_find (node ++ zeros 4004 ++ [98]) 1024 kTreeStringType [97] = None.
Proof. vm_compute. splits; try reflexivity. eauto. Qed.

(** * On a concrete node *)
Module SampleNode.

Definition es : list entry := [([97], 1); ([98; 99], 2); ([100], 3)].
Definition node : bytes := assemble 1024 (zeros 1024) es.

Lemma ok : tree_ok kTreeStringType node 1024 es.
Proof.
  assert (He : Forall (fun e : entry => key_ok kTreeStringType e.1 /\ value_ok e) es).
  { repeat constructor; try (vm_compute; intuition congruence). }
  split; [|repeat constructor|exact He].
  destruct (keys_bytes _ _ He) as [Hk Hv].
  apply (assemble_rep 1024 (zeros 1024) es); auto with buf; vm_compute; intuition congruence.
Qed.

Lemma key_bb : key_ok kTreeStringType [98; 98].
Proof. repeat constructor; vm_compute; intuition congruence. Qed.
Lemma key_d : key_ok kTreeStringType [100].
Proof. repeat constructor; vm_compute; intuition congruence. Qed.
End SampleNode.

Lemma node_find_spec_witness :
  node_find SampleNode.node 1024 kTreeStringType [100] = Some 3.
Proof. exact (node_find_spec _ _ _ _ [100] SampleNode.ok SampleNode.key_d). Defined.

Lemma node_entry_spec_witness : node_entry SampleNode.node 1024 1 = Some ([98; 99], 2).
Proof. exact (node_entry_spec _ _ _ _ 1 SampleNode.ok). Defined.

Lemma node_insert_spec_witness :
  exists work es', node_insert 1024 kTreeStringType SampleNode.node [98; 98] 9 = Some (work, false) /\
    tree_ok kTreeStringType work 1024 es' /\ assoc [98; 98] es' = Some 9 /\ assoc [100] es' = Some 3.
Proof.
  assert (Hv : 0 <= 9 < 2 ^ 64) by lia.
  pose proof (node_insert_spec _ _ _ _ _ 9 SampleNode.ok SampleNode.key_bb Hv) as H.
  assert (E : exists work, node_insert 1024 kTreeStringType SampleNode.node [98; 98] 9 = Some (work, false))
    by (eexists; vm_compute; reflexivity).
  destruct E as [work E]. rewrite E in H. destruct H as (es' & T & _ & Ha & _).
  exists work, es'. splits; auto; rewrite Ha; reflexivity.
Defined.

Lemma node_remove_spec_witness :
  exists work es', node_remove 1024 kTreeStringType SampleNode.node [100] = Some (work, true) /\
    tree_ok kTreeStringType work 1024 es' /\ assoc [100] es' = None /\ assoc [97] es' = Some 1.
Proof.
  destruct (node_remove_spec _ _ _ _ _ SampleNode.ok SampleNode.key_d) as (work & es' & E & T & _ & Ha & _).
  exists work, es'. splits; auto; rewrite Ha; reflexivity.
Defined.

Lemma node_set_value_spec_witness :
  exists work, node_set_value 1024 SampleNode.node 1 9 = Some work /\
    exists e, SampleNode.es !! 1%nat = Some e /\
      tree_ok kTreeStringType work 1024 (<[1%nat := (e.1, 9)]> SampleNode.es).
Proof.
  assert (Hv : 0 <= 9 < 2 ^ 64) by lia.
  pose proof (node_set_value_spec _ _ _ _ 1 9 SampleNode.ok Hv) as H.
  assert (E : exists work, node_set_value 1024 SampleNode.node (Z.of_nat 1) 9 = Some work)
    by (eexists; vm_compute; reflexivity).
  destruct E as [work E]. rewrite E in H. exists work. split; [exact E|exact H].
Defined.

Lemma key_order_total_witness :
  key_compare_typed kTreeStringType [98; 98] [100] = - key_compare_typed kTreeStringType [100] [98; 98].
Proof.
  apply (key_order_total kTreeStringType [100] [98; 98] [100]);
    [exact SampleNode.key_d|exact SampleNode.key_bb|exact SampleNode.key_d].
Defined.

Lemma tree_header_roundtrip_witness :
  let h := mkTreeHeader 1024 1 0 1024 (2 ^ 64 - 1) 2048 in
  tree_header_parse (tree_header_build (zeros 1024) h) = Some h.
Proof.
  apply (tree_header_roundtrip (zeros 1024)); vm_compute; intuition congruence.
Defined.

Lemma duplicate_roundtrip_witness :
  duplicate_value (duplicate_build 1024 7 8 [10; 20]) 1024 1 = Some 20.
Proof.
  assert (Hc : zlen [10; 20] <= duplicate_capacity 1024) by (vm_compute; congruence).
  destruct (duplicate_roundtrip 1024 7 8 [10; 20] 1) as (_ & _ & Hv & _);
    [unfold node.kFixed, kMaxBlockSize; lia|lia|lia|exact Hc|repeat constructor; lia|].
  exact Hv.
Defined.
