(* ===== verification/Attribute.v ===== *)
(** The inode block (libs/freestanding/aegir-bfs, src/inode.cc and
    src/attribute.cc): building and patching an inode's fixed fields, and the
    small_data section after them, a packed sequence of attributes that ends at
    a terminator.  [small_rep] says which entries a block's section holds; the
    theorems say what the walks, the replacement and the removal do to them, and
    that no byte of the fixed part changes. *)
From stdpp Require Import base numbers list list_numbers.
From Stdlib Require Import ZArith Lia.
From S2P Require Import Prelude.
From S2P Require Import Layout.

(** * Inode fields *)

Definition write_small_name (block : bytes) (block_size : Z) (name : bytes) : bytes :=
  let at_ := inode.kSmallData in
  let name_length := zlen name in
  if (name_length =? 0) || (kMaxName <? name_length) || (block_size <? at_ + 13 + name_length) then block
  else
    let block := put_le32 block at_ kFileNameType in
    let block := put_le16 block (at_ + 4) 1 in
    let block := put_le16 block (at_ + 6) (u16 name_length) in
    let block := set_byte block (at_ + 8) kFileNameName in
    let block := set_byte block (at_ + 9) 0 in
    let block := set_byte block (at_ + 10) 0 in
    let block := set_byte block (at_ + 11) 0 in
    let block := blit block (at_ + 12) name in
    set_byte block (at_ + 12 + name_length) 0.

Definition inode_build (block_size : Z) (run parent : Run) (mode uid gid time : Z) (name : bytes) : bytes :=
  let block := zeros block_size in
  let block := put_le32 block inode.kMagic1 kInodeMagic1 in
  let block := put_run block inode.kInodeNum run in
  let block := put_le32 block inode.kUid uid in
  let block := put_le32 block inode.kGid gid in
  let block := put_le32 block inode.kMode mode in
  let block := put_le32 block inode.kFlags kInodeInUse in
  let block := put_le64 block inode.kCreateTime (u64 time) in
  let block := put_le64 block inode.kLastModified (u64 time) in
  let block := put_run block inode.kParent parent in
  let block := put_run block inode.kAttributes (mkRun 0 0 0) in
  let block := put_le32 block inode.kType 0 in
  let block := put_le32 block inode.kInodeSize block_size in
  let block := put_le32 block inode.kEtc 0 in
  let block := put_le64 block (inode.kData + data.kSize) 0 in
  let block := put_le64 block (inode.kData + data.kBytes) (u64 time) in
  write_small_name block block_size name.

Definition inode_set_owner (block : bytes) (uid gid : Z) : bytes :=
  put_le32 (put_le32 block inode.kUid uid) inode.kGid gid.

Definition inode_set_mode (block : bytes) (mode : Z) : bytes := put_le32 block inode.kMode mode.

Definition inode_get_stream (block : bytes) : bytes := slice block inode.kData data.kBytes.

Definition inode_set_stream (block stream : bytes) (size mtime : Z) : bytes :=
  let block := blit block inode.kData (slice stream 0 data.kBytes) in
  let block := put_le64 block (inode.kData + data.kSize) (u64 size) in
  let block := put_le64 block inode.kLastModified (u64 mtime) in
  put_le64 block (inode.kData + data.kBytes) (u64 mtime).

Definition inode_mark_deleted (block : bytes) : bytes :=
  put_le32 (put_le32 block inode.kMagic1 0) inode.kFlags kInodeDeleted.

Definition inode_mode (block : bytes) : Z := le32 block inode.kMode.
Definition inode_size (block : bytes) : Z := le64_signed block (inode.kData + data.kSize).
Definition inode_mtime (block : bytes) : Z := le64_signed block inode.kLastModified.
Definition inode_type (block : bytes) : Z := le32 block inode.kType.
Definition inode_set_type (block : bytes) (type : Z) : bytes := put_le32 block inode.kType type.
Definition inode_flags (block : bytes) : Z := le32 block inode.kFlags.
Definition mode_is_attr_dir (mode : Z) : bool := negb (Z.land mode kModeAttrDir =? 0).
Definition mode_is_attr (mode : Z) : bool := negb (Z.land mode kModeAttr =? 0).
Definition mode_is_directory (mode : Z) : bool := Z.land mode kModeTypeMask =? kModeDirectory.

(** * The small_data section *)

Record SmallAttribute := mkSmall { sa_type : Z; sa_name : bytes; sa_data : bytes }.

Definition small_entry_size (name_length data_length : Z) : Z := u32 (12 + name_length + data_length).

Definition kFixedPart : Z := 8.

Definition in_bounds (inode_size at_ : Z) : bool := at_ + kFixedPart <=? inode_size.

Definition entry_size (block : bytes) (inode_size at_ : Z) : Z :=
  let size := small_entry_size (le16 block (at_ + 4)) (le16 block (at_ + 6)) in
  if at_ + size <=? inode_size then size else 0.

(** Length first, then byte by byte. *)
Fixpoint same_bytes (a b : bytes) : bool :=
  match a, b with
  | x :: a, y :: b => if negb (x =? y) then false else same_bytes a b
  | _, _ => true
  end.
Definition name_matches (a b : bytes) : bool :=
  if negb (zlen a =? zlen b) then false else same_bytes a b.

Definition is_file_name (block : bytes) (at_ : Z) : bool :=
  (le16 block (at_ + 4) =? 1) && (byte_at block (at_ + 8) =? kFileNameName).

(** The name of the entry at [at_]. *)
Definition name_at (block : bytes) (at_ : Z) : bytes := slice block (at_ + 8) (le16 block (at_ + 4)).

(** The match's offset (0 when absent) and the section's end; [fuel] bounds the
    walk by the inode's size, since an entry is at least 12 bytes. *)
Fixpoint locate (fuel : nat) (block : bytes) (inode_size : Z) (name : bytes) (at_ found : Z)
    : option (Z * Z) :=
  match fuel with
  | O => None
  | S fuel =>
    if in_bounds inode_size at_ && negb (le16 block (at_ + 4) =? 0) then
      let size := entry_size block inode_size at_ in
      if size =? 0 then None
      else
        let found := if negb (is_file_name block at_) && name_matches (name_at block at_) name
                     then at_ else found in
        locate fuel block inode_size name (at_ + size) found
    else Some (found, at_)
  end.

(** The next attribute from [at_], and the cursor after it. *)
Fixpoint small_next (fuel : nat) (block : bytes) (inode_size at_ : Z) : option (SmallAttribute * Z) :=
  match fuel with
  | O => None
  | S fuel =>
    if in_bounds inode_size at_ && negb (le16 block (at_ + 4) =? 0) then
      let size := entry_size block inode_size at_ in
      if size =? 0 then None
      else if negb (is_file_name block at_) then
        let name_length := le16 block (at_ + 4) in
        Some (mkSmall (le32 block at_) (name_at block at_)
                (slice block (at_ + 8 + name_length + 3) (le16 block (at_ + 6))), at_ + size)
      else small_next fuel block inode_size (at_ + size)
    else None
  end.

Fixpoint small_find_from (fuel : nat) (block : bytes) (inode_size : Z) (name : bytes) (cursor : Z)
    : option SmallAttribute :=
  match fuel with
  | O => None
  | S fuel =>
    match small_next (Z.to_nat inode_size) block inode_size cursor with
    | None => None
    | Some (entry, cursor) =>
      if name_matches (sa_name entry) name then Some entry
      else small_find_from fuel block inode_size name cursor
    end
  end.

Definition small_find (block : bytes) (inode_size : Z) (name : bytes) : option SmallAttribute :=
  small_find_from (Z.to_nat inode_size) block inode_size name inode.kSmallData.

(** The bytes of a new entry, written at [at_] field by field. *)
Definition put_entry (block : bytes) (at_ type : Z) (name data : bytes) : bytes :=
  let name_length := zlen name in
  let block := put_le32 block at_ type in
  let block := put_le16 block (at_ + 4) (u16 name_length) in
  let block := put_le16 block (at_ + 6) (u16 (zlen data)) in
  let block := blit block (at_ + 8) name in
  let block := set_byte block (at_ + 8 + name_length) 0 in
  let block := set_byte block (at_ + 9 + name_length) 0 in
  let block := set_byte block (at_ + 10 + name_length) 0 in
  let block := blit block (at_ + 11 + name_length) data in
  set_byte block (at_ + 11 + name_length + zlen data) 0.

(** [for (i < n) block[to + i] = block[from + i]], a copy downwards. *)
Definition move_down (block : bytes) (to from n : Z) : bytes := blit block to (slice block from n).

(** [zero(block, from, to)] *)
Definition zero_range (block : bytes) (from to : Z) : bytes := blit block from (zeros (to - from)).

(** [None]: refused, the block as it was. *)
Definition small_set (block : bytes) (inode_size type : Z) (name data : bytes) : option bytes :=
  let name_length := zlen name in
  if (name_length =? 0) || (kMaxName <? name_length) then None
  else
    match locate (Z.to_nat inode_size) block inode_size name inode.kSmallData 0 with
    | None => None
    | Some (found_at, end_) =>
      let needed := small_entry_size name_length (zlen data) in
      let old_size := if negb (found_at =? 0) then entry_size block inode_size found_at else 0 in
      if inode_size - end_ + old_size <? needed then None
      else
        let '(block, end_) :=
          if negb (found_at =? 0)
          then (move_down block found_at (found_at + old_size) (end_ - (found_at + old_size)), end_ - old_size)
          else (block, end_) in
        let block := put_entry block end_ type name data in
        Some (zero_range block (end_ + needed) inode_size)
    end.

Definition small_remove (block : bytes) (inode_size : Z) (name : bytes) : option bytes :=
  match locate (Z.to_nat inode_size) block inode_size name inode.kSmallData 0 with
  | None => None
  | Some (found_at, end_) =>
    if found_at =? 0 then None
    else
      let size := entry_size block inode_size found_at in
      let block := move_down block found_at (found_at + size) (end_ - (found_at + size)) in
      Some (zero_range block (end_ - size) inode_size)
  end.

(** [while (data_length != 0 && data[data_length - 1] == 0) --data_length] *)
Fixpoint trim_zeros (n : nat) (data : bytes) : Z :=
  match n with
  | O => 0
  | S n => if byte_at data (Z.of_nat n) =? 0 then trim_zeros n data else Z.of_nat (S n)
  end.

Fixpoint small_file_name (fuel : nat) (block : bytes) (inode_size capacity at_ : Z) : option bytes :=
  match fuel with
  | O => None
  | S fuel =>
    if in_bounds inode_size at_ && negb (le16 block (at_ + 4) =? 0) then
      let size := entry_size block inode_size at_ in
      if size =? 0 then None
      else if is_file_name block at_ then
        let data := slice block (at_ + 8 + le16 block (at_ + 4) + 3) (le16 block (at_ + 6)) in
        let data_length := trim_zeros (length data) data in
        if capacity <? data_length then None else Some (slice data 0 data_length)
      else small_file_name fuel block inode_size capacity (at_ + size)
    else None
  end.

(** * What a section holds *)

(** The bytes of one entry: a name, its sizes adding up, anything in the pads. *)
Definition raw_ok (r : bytes) : Prop :=
  bytes_ok r /\ le16 r 4 <> 0 /\ zlen r = 12 + le16 r 4 + le16 r 6.

Definition raw_name (r : bytes) : bytes := slice r 8 (le16 r 4).
Definition raw_attr (r : bytes) : SmallAttribute :=
  mkSmall (le32 r 0) (raw_name r) (slice r (11 + le16 r 4) (le16 r 6)).
Definition raw_reserved (r : bytes) : bool := (le16 r 4 =? 1) && (byte_at r 8 =? kFileNameName).

(** Where the entries end. *)
Definition section_end (rs : list bytes) : Z := inode.kSmallData + zlen (concat rs).

(** [block]'s section is the entries [rs], then a terminator. *)
Record small_rep (block : bytes) (size : Z) (rs : list bytes) : Prop := {
  sr_len : zlen block = size;
  sr_bytes : bytes_ok block;
  sr_size : inode.kSmallData <= size <= kMaxBlockSize;
  sr_raw : Forall raw_ok rs;
  sr_fits : section_end rs <= size;
  sr_section : slice block inode.kSmallData (zlen (concat rs)) = concat rs;
  sr_end : section_end rs + kFixedPart <= size -> le16 block (section_end rs + 4) = 0;
}.

Lemma raw_sizes r : raw_ok r -> 0 < le16 r 4 < 65536 /\ 0 <= le16 r 6 < 65536 /\ 12 < zlen r.
Proof.
  intros (Hb & Hn & Hl). pose proof (le16_range r 4 Hb ltac:(lia)). pose proof (le16_range r 6 Hb ltac:(lia)). lia.
Qed.

Lemma same_bytes_eq a b : zlen a = zlen b -> same_bytes a b = true <-> a = b.
Proof.
  revert b; induction a as [|x a IH]; intros [|y b] Hl; rewrite ?zlen_cons, ?zlen_nil in Hl; cbn [same_bytes].
  - tauto.
  - pose proof (zlen_nonneg b). lia.
  - pose proof (zlen_nonneg a). lia.
  - destruct (Z.eqb_spec x y) as [->|Hne]; simpl; [|split; [discriminate|congruence]].
    rewrite IH by lia. split; [now intros ->|now intros [= ->]].
Qed.

Lemma name_matches_eq a b : name_matches a b = true <-> a = b.
Proof.
  unfold name_matches. destruct (Z.eqb_spec (zlen a) (zlen b)) as [E|E]; simpl.
  - now apply same_bytes_eq.
  - split; [discriminate|congruence].
Qed.

Section rep.
Context (block : bytes) (size : Z) (rs : list bytes) (Hrep : small_rep block size rs).

(** The byte [k] of an entry, in the block. *)
Lemma rep_byte pre r post k :
  rs = pre ++ r :: post -> 0 <= k < zlen r -> byte_at block (section_end pre + k) = byte_at r k.
Proof.
  intros Hrs Hk. pose proof (sr_section _ _ _ Hrep) as Hs. unfold section_end.
  assert (Hc : concat rs = concat pre ++ r ++ concat post) by (rewrite Hrs, concat_app; reflexivity).
  pose proof (zlen_nonneg (concat pre)). pose proof (zlen_nonneg (concat post)).
  assert (Hz : zlen (concat rs) = zlen (concat pre) + zlen r + zlen (concat post)) by (rewrite Hc, !zlen_app; lia).
  rewrite <- Z.add_assoc, <- (byte_at_slice block inode.kSmallData (zlen (concat rs)))
    by (unfold inode.kSmallData; lia).
  rewrite Hs, Hc. rewrite byte_at_app, (proj2 (Z.ltb_ge _ _)) by lia.
  rewrite Z.add_simpl_l, byte_at_app, (proj2 (Z.ltb_lt _ _)) by lia. reflexivity.
Qed.

(** The walk's view of an entry. *)
Lemma rep_entry pre r post :
  rs = pre ++ r :: post ->
  let at_ := section_end pre in
  in_bounds size at_ = true /\ le16 block (at_ + 4) = le16 r 4 /\ entry_size block size at_ = zlen r /\
  is_file_name block at_ = raw_reserved r /\ name_at block at_ = raw_name r /\
  mkSmall (le32 block at_) (name_at block at_)
    (slice block (at_ + 8 + le16 block (at_ + 4) + 3) (le16 block (at_ + 6))) = raw_attr r /\
  at_ + zlen r = section_end (pre ++ [r]) /\ at_ + zlen r <= size.
Proof.
  intros Hrs at_. pose proof (sr_raw _ _ _ Hrep) as Hf. rewrite Hrs in Hf.
  apply Forall_app in Hf as [_ Hf]. apply Forall_cons in Hf as [Hr _].
  pose proof (raw_sizes r Hr) as (S1 & S2 & S3). pose proof Hr as (_ & _ & Hl).
  assert (Hby : forall k, 0 <= k < zlen r -> byte_at block (at_ + k) = byte_at r k)
    by (intros; now apply (rep_byte pre r post)).
  assert (Hat : 0 <= at_) by (unfold at_, section_end, inode.kSmallData; pose proof (zlen_nonneg (concat pre)); lia).
  assert (Hend : at_ + zlen r <= size).
  { pose proof (sr_fits _ _ _ Hrep) as Hfit. unfold section_end in *. unfold at_, section_end.
    rewrite Hrs, concat_app, zlen_app in Hfit. simpl in Hfit. rewrite zlen_app in Hfit.
    pose proof (zlen_nonneg (concat post)). lia. }
  assert (H4 : le16 block (at_ + 4) = le16 r 4).
  { apply le16_ext. intros i Hi. rewrite <- (Hby (4 + i)) by lia. f_equal. lia. }
  assert (H6 : le16 block (at_ + 6) = le16 r 6).
  { apply le16_ext. intros i Hi. rewrite <- (Hby (6 + i)) by lia. f_equal. lia. }
  assert (Hnm : name_at block at_ = raw_name r).
  { unfold name_at, raw_name. rewrite H4. apply slice_ext; [lia..|]. intros i Hi.
    rewrite <- (Hby (8 + i)) by lia. f_equal. lia. }
  splits; auto.
  - unfold in_bounds, kFixedPart. apply Z.leb_le. lia.
  - unfold entry_size, small_entry_size. rewrite H4, H6, u32_small, <- Hl by lia. now rewrite (proj2 (Z.leb_le _ _)).
  - unfold is_file_name, raw_reserved. rewrite H4, <- (Hby 8) by lia. reflexivity.
  - unfold raw_attr. rewrite Hnm, H4, H6. f_equal.
    + replace at_ with (at_ + 0) at 1 by lia. apply le32_ext. intros i Hi. rewrite <- (Hby (0 + i)) by lia. f_equal. lia.
    + apply slice_ext; [lia..|]. intros i Hi. rewrite <- (Hby (11 + le16 r 4 + i)) by lia. f_equal. lia.
  - unfold at_, section_end. rewrite concat_app, zlen_app. simpl. rewrite app_nil_r. lia.
Qed.

(** At the end the walk stops. *)
Lemma rep_stop : in_bounds size (section_end rs) && negb (le16 block (section_end rs + 4) =? 0) = false.
Proof.
  unfold in_bounds. destruct (Z.leb_spec (section_end rs + kFixedPart) size) as [Hle|]; [|reflexivity].
  now rewrite (sr_end _ _ _ Hrep Hle).
Qed.
End rep.

(** * The walks *)

(** The attribute [name] of a section: the reserved entry is skipped. *)
Definition is_attr (name r : bytes) : bool := negb (raw_reserved r) && name_matches (raw_name r) name.

Fixpoint attr_of (name : bytes) (rs : list bytes) : option SmallAttribute :=
  match rs with
  | [] => None
  | r :: rs => if is_attr name r then Some (raw_attr r) else attr_of name rs
  end.

Lemma attr_of_app name rs rs' :
  attr_of name (rs ++ rs') = match attr_of name rs with Some x => Some x | None => attr_of name rs' end.
Proof. induction rs as [|r rs IH]; simpl; [reflexivity|]. now destruct (is_attr name r). Qed.

Lemma attr_of_None name rs : attr_of name rs = None <-> Forall (fun r => is_attr name r = false) rs.
Proof.
  induction rs as [|r rs IH]; simpl; [split; [constructor|auto]|].
  rewrite Forall_cons, <- IH. destruct (is_attr name r); intuition congruence.
Qed.

Section walks.
Context (block : bytes) (size : Z) (rs : list bytes) (Hrep : small_rep block size rs).
Context (name : bytes).

Lemma entries_bound suf pre : rs = pre ++ suf -> (length suf < Z.to_nat size)%nat.
Proof.
  intros Hrs. pose proof (sr_fits _ _ _ Hrep) as Hf. pose proof (sr_raw _ _ _ Hrep) as Hr.
  rewrite Hrs in Hf, Hr. apply Forall_app in Hr as [_ Hr]. unfold section_end, inode.kSmallData in Hf.
  rewrite concat_app, zlen_app in Hf. pose proof (zlen_nonneg (concat pre)).
  assert (Hs : Z.of_nat (length suf) <= zlen (concat suf)).
  { clear -Hr. induction Hr as [|r suf Hr Hf IH]; simpl; [unfold zlen; simpl; lia|].
    rewrite zlen_app. pose proof (raw_sizes r Hr). lia. }
  lia.
Qed.

(** [locate] finds the last match and the end. *)
Lemma locate_list suf pre fuel found :
  rs = pre ++ suf -> (length suf < fuel)%nat ->
  exists found', locate fuel block size name (section_end pre) found = Some (found', section_end rs) /\
    ((found' = found /\ Forall (fun r => is_attr name r = false) suf) \/
     (exists mid r post, suf = mid ++ r :: post /\ is_attr name r = true /\
        Forall (fun r => is_attr name r = false) post /\ found' = section_end (pre ++ mid))).
Proof.
  revert pre fuel found. induction suf as [|r suf IH]; intros pre fuel found Hrs Hfuel;
    (destruct fuel as [|fuel]; [simpl in Hfuel; lia|]).
  - cbn [locate]. rewrite app_nil_r in Hrs. rewrite <- Hrs, (rep_stop block size rs Hrep).
    exists found. auto.
  - cbn [locate]. destruct (rep_entry block size rs Hrep pre r suf Hrs)
      as (E1 & E2 & E3 & E4 & E5 & _ & E7 & _).
    pose proof (sr_raw _ _ _ Hrep) as Hf. rewrite Hrs in Hf. apply Forall_app in Hf as [_ Hf].
    apply Forall_cons in Hf as [Hr _]. pose proof (raw_sizes r Hr) as (S1 & _ & S3).
    rewrite E1, E2, E3, E4, E5, E7, !(proj2 (Z.eqb_neq _ 0)) by lia. cbn [negb andb].
    fold (is_attr name r). simpl in Hfuel.
    assert (Hrs' : rs = (pre ++ [r]) ++ suf) by (rewrite Hrs, <- app_assoc; reflexivity).
    destruct (IH (pre ++ [r]) fuel (if is_attr name r then section_end pre else found) Hrs' ltac:(lia))
      as (found' & E & Hcase).
    exists found'. split; [exact E|]. destruct Hcase as [[-> Hn]|(mid & r' & post & -> & Hm & Hn & ->)].
    + destruct (is_attr name r) eqn:Em; [|left; auto].
      right. exists [], r, suf. rewrite app_nil_r. auto.
    + right. exists (r :: mid), r', post. rewrite <- app_assoc. auto.
Qed.

(** [small_next] skips reserved entries. *)
Lemma small_next_list suf pre fuel :
  rs = pre ++ suf -> (length suf < fuel)%nat ->
  (Forall (fun r => raw_reserved r = true) suf /\ small_next fuel block size (section_end pre) = None) \/
  (exists mid r post, suf = mid ++ r :: post /\ Forall (fun r => raw_reserved r = true) mid /\
     raw_reserved r = false /\
     small_next fuel block size (section_end pre) = Some (raw_attr r, section_end (pre ++ mid ++ [r]))).
Proof.
  revert pre fuel. induction suf as [|r suf IH]; intros pre fuel Hrs Hfuel;
    (destruct fuel as [|fuel]; [simpl in Hfuel; lia|]).
  - left. split; [constructor|]. cbn [small_next]. rewrite app_nil_r in Hrs.
    now rewrite <- Hrs, (rep_stop block size rs Hrep).
  - cbn [small_next]. destruct (rep_entry block size rs Hrep pre r suf Hrs)
      as (E1 & E2 & E3 & E4 & _ & E6 & E7 & _).
    pose proof (sr_raw _ _ _ Hrep) as Hf. rewrite Hrs in Hf. apply Forall_app in Hf as [_ Hf].
    apply Forall_cons in Hf as [Hr _]. pose proof (raw_sizes r Hr) as (S1 & _ & S3).
    rewrite E6. rewrite E1, E3, E4, E7. rewrite E2 at 1. rewrite !(proj2 (Z.eqb_neq _ 0)) by lia.
    cbn [negb andb]. simpl in Hfuel. destruct (raw_reserved r) eqn:Er; cbn [negb].
    + assert (Hrs' : rs = (pre ++ [r]) ++ suf) by (rewrite Hrs, <- app_assoc; reflexivity).
      destruct (IH (pre ++ [r]) fuel Hrs' ltac:(lia)) as [[Hall E]|(mid & r' & post & -> & Hm & Hr' & E)].
      * left. auto.
      * right. exists (r :: mid), r', post. rewrite E, <- app_assoc. auto.
    + right. exists [], r, suf. auto.
Qed.

Lemma reserved_not_attr r : raw_reserved r = true -> is_attr name r = false.
Proof. unfold is_attr. now intros ->. Qed.

Lemma small_find_list n suf pre fuel :
  (length suf <= n)%nat -> rs = pre ++ suf -> (length suf < fuel)%nat ->
  small_find_from fuel block size name (section_end pre) = attr_of name suf.
Proof.
  revert suf pre fuel. induction n as [|n IH]; intros suf pre fuel Hn Hrs Hfuel;
    (destruct fuel as [|fuel]; [lia|]); cbn [small_find_from];
    pose proof (entries_bound suf pre Hrs) as Hb;
    destruct (small_next_list suf pre (Z.to_nat size) Hrs Hb) as [[Hall ->]|(mid & r & post & -> & Hm & Hr & ->)].
  - destruct suf; [reflexivity|simpl in Hn; lia].
  - rewrite length_app in Hn. simpl in Hn. lia.
  - symmetry. apply attr_of_None. eapply Forall_impl; [exact Hall|]. apply reserved_not_attr.
  - rewrite attr_of_app, (proj2 (attr_of_None name mid))
      by (eapply Forall_impl; [exact Hm|]; apply reserved_not_attr).
    simpl. unfold is_attr. rewrite Hr. cbn [negb andb sa_name raw_attr].
    destruct (name_matches (raw_name r) name); [reflexivity|].
    rewrite length_app in Hn, Hfuel. simpl in Hn, Hfuel. apply IH; [lia| |lia].
    rewrite Hrs, <- !app_assoc. reflexivity.
Qed.
End walks.

Lemma small_find_rep (block : bytes) (size : Z) (rs : list bytes) (name : bytes) :
  small_rep block size rs -> small_find block size name = attr_of name rs.
Proof.
  intros Hrep. unfold small_find.
  apply (small_find_list block size rs Hrep name (length rs) rs []); auto.
  now apply (entries_bound block size rs Hrep rs []).
Qed.

(** The lookup of an attribute in an inode's small_data section gives the
    first entry of that name other than the reserved file name, and nothing
    exactly when the section has none; the walk ends on every well-formed block. *)
Theorem small_find_spec (block : bytes) (size : Z) (rs : list bytes) (name : bytes) :
  small_rep block size rs -> small_find block size name = attr_of name rs.
Proof. apply small_find_rep. Qed.

(** * Writing the section *)

Lemma set_byte_blit b i v : 0 <= i -> set_byte b i v = blit b i [v].
Proof.
  intros Hi. pose proof (blit_snoc b i [] v Hi) as E. rewrite blit_nil, zlen_nil, Z.add_0_r in E. auto.
Qed.

(** The bytes [put_entry] writes. *)
Definition new_raw (type : Z) (name data : bytes) : bytes :=
  le_split 4 type ++ le_split 2 (zlen name) ++ le_split 2 (zlen data) ++ name ++ [0; 0; 0] ++ data ++ [0].

Lemma zlen_new_raw type name data : zlen (new_raw type name data) = 12 + zlen name + zlen data.
Proof. unfold new_raw. rewrite !zlen_app, !zlen_le_split. unfold zlen; simpl. lia. Qed.

Lemma put_entry_blit block at_ type name data :
  0 <= at_ -> zlen name < 65536 -> zlen data < 65536 ->
  put_entry block at_ type name data = blit block at_ (new_raw type name data).
Proof.
  intros Ha Hn Hd. pose proof (zlen_nonneg name). pose proof (zlen_nonneg data).
  unfold put_entry, new_raw. rewrite !u16_small by lia.
  rewrite !set_byte_blit, put_le32_blit, !put_le16_blit by lia.
  change [0; 0; 0] with ([0] ++ [0] ++ [0]).
  rewrite !blit_app by (rewrite ?zlen_le_split; unfold zlen; simpl; lia). rewrite !zlen_le_split.
  change (zlen [0]) with 1. change (Z.of_nat 4) with 4. change (Z.of_nat 2) with 2.
  change (zlen ([0] ++ [0] ++ [0])) with 3.
  replace (at_ + 4 + 2) with (at_ + 6) by lia. replace (at_ + 6 + 2) with (at_ + 8) by lia.
  repeat (f_equal; try lia).
Qed.

Lemma new_raw_ok type name data :
  bytes_ok name -> bytes_ok data -> 1 <= zlen name -> zlen name < 65536 -> zlen data < 65536 ->
  0 <= type < 2 ^ 32 ->
  raw_ok (new_raw type name data) /\ raw_attr (new_raw type name data) = mkSmall type name data /\
  raw_name (new_raw type name data) = name.
Proof.
  intros Hn Hd Hl1 Hl2 Hl3 Ht. pose proof (zlen_nonneg data).
  set (r := new_raw type name data). pose proof (zlen_new_raw type name data) as Hz. fold r in Hz.
  assert (Hb : bytes_ok r).
  { unfold r, new_raw. repeat apply bytes_ok_app; auto with buf; repeat constructor; unfold byte_ok; lia. }
  assert (H0 : le32 r 0 = type).
  { unfold r, new_raw. rewrite le32_num by (auto with buf; lia). rewrite slice_app_l by (rewrite ?zlen_le_split; lia).
    rewrite slice_all by (now rewrite zlen_le_split). rewrite le_num_split. apply Z.mod_small. lia. }
  assert (H4 : le16 r 4 = zlen name).
  { rewrite le16_num by (auto; lia). unfold r, new_raw. rewrite slice_app_r by (rewrite ?zlen_le_split; lia).
    rewrite zlen_le_split, slice_app_l by (rewrite ?zlen_le_split; lia).
    rewrite slice_all by (now rewrite zlen_le_split). rewrite le_num_split. apply Z.mod_small. lia. }
  assert (H6 : le16 r 6 = zlen data).
  { rewrite le16_num by (auto; lia). unfold r, new_raw. rewrite slice_app_r by (rewrite ?zlen_le_split; lia).
    rewrite zlen_le_split. rewrite slice_app_r by (rewrite ?zlen_le_split; lia). rewrite zlen_le_split.
    rewrite slice_app_l by (rewrite ?zlen_le_split; lia).
    rewrite slice_all by (now rewrite zlen_le_split). rewrite le_num_split. apply Z.mod_small. lia. }
  assert (Hnm : raw_name r = name).
  { unfold raw_name. rewrite H4. unfold r, new_raw. rewrite !slice_app_r by (rewrite ?zlen_le_split; lia).
    rewrite !zlen_le_split. rewrite slice_app_l by lia. now apply slice_all. }
  splits; auto.
  - split; [auto|]. rewrite H4, H6. lia.
  - unfold raw_attr. rewrite Hnm, H0, H4, H6. f_equal.
    set (front := le_split 4 type ++ le_split 2 (zlen name) ++ le_split 2 (zlen data) ++ name ++ [0; 0; 0]).
    assert (Hr : r = front ++ data ++ [0]) by (unfold r, new_raw, front; now rewrite <- !app_assoc).
    assert (Hf : zlen front = 11 + zlen name).
    { unfold front. rewrite !zlen_app, !zlen_le_split. change (zlen [0; 0; 0]) with 3. lia. }
    rewrite Hr, slice_app_r, Hf, Z.sub_diag, slice_app_l by lia. now apply slice_all.
Qed.

Lemma le16_zero b a : (forall i, 0 <= i < 2 -> byte_at b (a + i) = 0) -> le16 b a = 0.
Proof.
  intros Hz. unfold le16. rewrite (Hz 1) by lia. rewrite <- (Z.add_0_r a) at 1. now rewrite (Hz 0) by lia.
Qed.

(** A block whose section is [rs] and which is then zeroed to its end. *)
Lemma finish_rep block size rs :
  zlen block = size -> bytes_ok block -> inode.kSmallData <= size <= kMaxBlockSize -> Forall raw_ok rs ->
  section_end rs <= size -> slice block inode.kSmallData (zlen (concat rs)) = concat rs ->
  small_rep (zero_range block (section_end rs) size) size rs /\
  (forall k, 0 <= k < inode.kSmallData -> byte_at (zero_range block (section_end rs) size) k = byte_at block k).
Proof.
  intros Hl Hb Hs Hr Hf Hsec. pose proof (zlen_nonneg (concat rs)) as Hc.
  assert (He : 0 <= section_end rs) by (unfold section_end, inode.kSmallData; lia).
  unfold zero_range. split.
  - split; auto.
    + now rewrite zlen_blit.
    + apply bytes_ok_blit; auto with buf.
    + rewrite slice_blit_disj; [auto|lia|unfold inode.kSmallData; lia|]. left. unfold section_end. lia.
    + intros Hfit. unfold kFixedPart in Hfit. apply le16_zero. intros i Hi.
      rewrite byte_at_blit, zlen_zeros by lia.
      rewrite (proj2 (Z.leb_le _ _)), !(proj2 (Z.ltb_lt _ _)) by lia. apply byte_at_zeros.
  - intros k Hk. apply byte_blit_disj; unfold section_end, inode.kSmallData in *; lia.
Qed.

Section edits.
Context (block : bytes) (size : Z) (pre post : list bytes) (r : bytes).
Context (Hrep : small_rep block size (pre ++ r :: post)).

(** Closing the gap an entry leaves. *)
Lemma close_gap :
  let b := move_down block (section_end pre) (section_end pre + zlen r)
             (section_end (pre ++ r :: post) - (section_end pre + zlen r)) in
  zlen b = size /\ bytes_ok b /\ slice b inode.kSmallData (zlen (concat (pre ++ post))) = concat (pre ++ post) /\
  (forall k, 0 <= k < inode.kSmallData -> byte_at b k = byte_at block k) /\
  section_end (pre ++ r :: post) = section_end (pre ++ post) + zlen r /\ Forall raw_ok (pre ++ post).
Proof.
  pose proof Hrep as [Hl Hb Hs Hr Hf Hsec _]. unfold section_end in *. unfold inode.kSmallData in *.
  rewrite !concat_app in *. cbn [concat] in *. rewrite !zlen_app in *.
  pose proof (zlen_nonneg (concat pre)) as P1. pose proof (zlen_nonneg (concat post)) as P2. pose proof (zlen_nonneg r).
  replace (232 + (zlen (concat pre) + (zlen r + zlen (concat post))) - (232 + zlen (concat pre) + zlen r))
    with (zlen (concat post)) by lia.
  set (q := 232 + zlen (concat pre)).
  assert (Hpre : slice block 232 (zlen (concat pre)) = concat pre).
  { rewrite <- (slice_slice block 232 (zlen (concat pre) + (zlen r + zlen (concat post))) 0) by lia.
    rewrite Hsec, slice_app_l by lia. now apply slice_all. }
  assert (Hpost : slice block (q + zlen r) (zlen (concat post)) = concat post).
  { replace (q + zlen r) with (232 + (zlen (concat pre) + zlen r)) by (unfold q; lia).
    rewrite <- (slice_slice block 232 (zlen (concat pre) + (zlen r + zlen (concat post)))) by lia.
    rewrite Hsec, !slice_app_r by lia.
    replace (zlen (concat pre) + zlen r - zlen (concat pre) - zlen r) with 0 by lia. now apply slice_all. }
  unfold move_down. rewrite Hpost. splits.
  - now rewrite zlen_blit.
  - apply bytes_ok_blit; [unfold q; lia|auto|]. rewrite <- Hpost. auto with buf.
  - rewrite slice_split by lia. fold q. f_equal.
    + rewrite slice_blit_disj by (unfold q; lia). exact Hpre.
    + apply slice_blit_same; unfold q; lia.
  - intros k Hk. apply byte_blit_disj; unfold q; lia.
  - lia.
  - apply Forall_app in Hr as [Hr1 Hr2]. apply Forall_cons in Hr2 as [_ Hr2]. now apply Forall_app_2.
Qed.
End edits.

(** Appending an entry to a section. *)
Lemma append_rep block size rs r :
  zlen block = size -> bytes_ok block -> inode.kSmallData <= size <= kMaxBlockSize -> Forall raw_ok rs ->
  slice block inode.kSmallData (zlen (concat rs)) = concat rs -> raw_ok r -> section_end rs + zlen r <= size ->
  let b := zero_range (blit block (section_end rs) r) (section_end rs + zlen r) size in
  small_rep b size (rs ++ [r]) /\ (forall k, 0 <= k < inode.kSmallData -> byte_at b k = byte_at block k).
Proof.
  intros Hl Hb Hs Hr Hsec Hro Hfit. pose proof (zlen_nonneg (concat rs)). pose proof (zlen_nonneg r).
  assert (He : section_end (rs ++ [r]) = section_end rs + zlen r).
  { unfold section_end. rewrite concat_app, zlen_app. simpl. rewrite app_nil_r. lia. }
  assert (Hc : concat (rs ++ [r]) = concat rs ++ r) by (rewrite concat_app; simpl; now rewrite app_nil_r).
  destruct (finish_rep (blit block (section_end rs) r) size (rs ++ [r])) as [F1 F2].
  - now rewrite zlen_blit.
  - apply bytes_ok_blit; [unfold section_end, inode.kSmallData; lia|auto|apply Hro].
  - auto.
  - apply Forall_app_2; [auto|]. now constructor.
  - lia.
  - rewrite Hc, zlen_app. unfold section_end, inode.kSmallData in *. rewrite slice_split by lia. f_equal.
    + rewrite slice_blit_disj by lia. exact Hsec.
    + apply slice_blit_same; lia.
  - rewrite He in F1, F2. split; [exact F1|]. intros k Hk. rewrite F2 by auto.
    apply byte_blit_disj; unfold section_end, inode.kSmallData in *; lia.
Qed.

(** * Setting and removing *)

(** No two attributes of a section share a name. *)
Definition names_unique (rs : list bytes) : Prop :=
  forall name pre r post, rs = pre ++ r :: post -> is_attr name r = true ->
    Forall (fun x => is_attr name x = false) (pre ++ post).

(** The section without the attribute [name]. *)
Definition without (name : bytes) (rs : list bytes) : list bytes :=
  filter (fun r => is_attr name r = false) rs.

Lemma without_none name rs : Forall (fun r => is_attr name r = false) rs -> without name rs = rs.
Proof.
  induction 1 as [|r rs Hr Hf IH]; [reflexivity|]. unfold without in *.
  now rewrite filter_cons_True, IH.
Qed.

Lemma without_one name pre r post :
  Forall (fun x => is_attr name x = false) (pre ++ post) -> is_attr name r = true ->
  without name (pre ++ r :: post) = pre ++ post.
Proof.
  intros Hf Hr. apply Forall_app in Hf as [Hf1 Hf2]. unfold without. rewrite filter_app.
  rewrite filter_cons_False by congruence. f_equal; now apply without_none.
Qed.

Lemma is_attr_other name other r : is_attr name r = true -> other <> name -> is_attr other r = false.
Proof.
  unfold is_attr. rewrite andb_true_iff, name_matches_eq. intros [Hr Hn] Hne. rewrite Hr. cbn [andb].
  apply not_true_iff_false. rewrite name_matches_eq. congruence.
Qed.

Lemma without_other name other rs : other <> name -> attr_of other (without name rs) = attr_of other rs.
Proof.
  intros Hne. induction rs as [|r rs IH]; [reflexivity|]. unfold without in *. cbn [attr_of].
  destruct (is_attr name r) eqn:E.
  - rewrite filter_cons_False by congruence. now rewrite (is_attr_other name other r E Hne).
  - rewrite filter_cons_True by auto. cbn [attr_of]. now rewrite IH.
Qed.

Lemma without_attr name rs : attr_of name (without name rs) = None.
Proof.
  apply attr_of_None. unfold without. apply Forall_forall. intros r Hr.
  now apply list_elem_of_filter in Hr as [Hr _].
Qed.

(** Uniqueness, entry by entry. *)
Lemma names_unique_cons r rs :
  names_unique (r :: rs) <->
  names_unique rs /\ (raw_reserved r = false -> Forall (fun x => is_attr (raw_name r) x = false) rs).
Proof.
  split.
  - intros Hu. split.
    + intros name pre x post -> Hx. specialize (Hu name (r :: pre) x post eq_refl Hx).
      now apply Forall_cons in Hu as [_ Hu].
    + intros Hr. apply (Hu (raw_name r) [] r rs eq_refl). unfold is_attr. rewrite Hr.
      now apply name_matches_eq.
  - intros [Hu Hr] name pre x post E Hx. destruct pre as [|y pre]; injection E as <- ->.
    + assert (Hn : raw_reserved r = false /\ raw_name r = name).
      { unfold is_attr in Hx. rewrite andb_true_iff, negb_true_iff, name_matches_eq in Hx. exact Hx. }
      destruct Hn as [Hn <-]. now apply Hr.
    + simpl. constructor; [|now apply (Hu name pre x post)].
      apply not_true_iff_false. intros Hy.
      unfold is_attr in Hy. rewrite andb_true_iff, negb_true_iff, name_matches_eq in Hy. destruct Hy as [Hy <-].
      specialize (Hr Hy). apply Forall_app in Hr as [_ Hr]. apply Forall_cons in Hr as [Hr _]. congruence.
Qed.

Lemma names_unique_without name rs : names_unique rs -> names_unique (without name rs).
Proof.
  induction rs as [|r rs IH]; [auto|]. rewrite names_unique_cons. intros [Hu Hr]. unfold without in *.
  destruct (decide (is_attr name r = false)).
  - rewrite filter_cons_True by auto. rewrite names_unique_cons. split; [auto|]. intros Hn.
    apply Forall_forall. intros x Hx. apply list_elem_of_filter in Hx as [_ Hx].
    specialize (Hr Hn). rewrite Forall_forall in Hr. now apply Hr.
  - rewrite filter_cons_False by auto. auto.
Qed.

Lemma names_unique_snoc rs r :
  names_unique rs -> Forall (fun x => is_attr (raw_name r) x = false) rs -> names_unique (rs ++ [r]).
Proof.
  induction rs as [|x rs IH]; intros Hu Hf.
  - apply names_unique_cons. split; [|constructor]. intros n pre y post E. now destruct pre.
  - apply Forall_cons in Hf as [Hx Hf]. apply names_unique_cons in Hu as [Hu Hr].
    cbn [app]. apply names_unique_cons. split; [auto|]. intros Hnr. apply Forall_app_2; [auto|].
    constructor; [|constructor]. apply not_true_iff_false. intros Hy.
    unfold is_attr in Hy. rewrite andb_true_iff, negb_true_iff, name_matches_eq in Hy. destruct Hy as [_ Hy].
    unfold is_attr in Hx. rewrite Hnr, Hy in Hx. cbn [negb andb] in Hx.
    now rewrite (proj2 (name_matches_eq _ _) eq_refl) in Hx.
Qed.

(** What [locate] reports on a section with unique names. *)
Lemma locate_unique block size rs name :
  small_rep block size rs -> names_unique rs ->
  exists found, locate (Z.to_nat size) block size name inode.kSmallData 0 = Some (found, section_end rs) /\
    ((found = 0 /\ without name rs = rs /\ attr_of name rs = None) \/
     (exists pre r post, rs = pre ++ r :: post /\ is_attr name r = true /\ found = section_end pre /\
        without name rs = pre ++ post /\ entry_size block size found = zlen r /\ 0 < found)).
Proof.
  intros Hrep Hu. destruct (locate_list block size rs Hrep name rs [] (Z.to_nat size) 0 eq_refl
    (entries_bound block size rs Hrep rs [] eq_refl)) as (found & E & Hcase).
  exists found. split; [exact E|]. destruct Hcase as [[-> Hn]|(mid & r & post & -> & Hm & _ & ->)].
  - left. splits; auto; [now apply without_none|now apply attr_of_None].
  - right. exists mid, r, post. splits; auto.
    + apply without_one; [now apply (Hu name mid r post)|auto].
    + destruct (rep_entry block size _ Hrep mid r post eq_refl) as (_ & _ & E3 & _). exact E3.
    + unfold section_end, inode.kSmallData. pose proof (zlen_nonneg (concat ([] ++ mid))). lia.
Qed.

(** The section once the old value of [name] is taken out. *)
Lemma close_found block size rs name found :
  small_rep block size rs ->
  ((found = 0 /\ without name rs = rs /\ attr_of name rs = None) \/
   (exists pre r post, rs = pre ++ r :: post /\ is_attr name r = true /\ found = section_end pre /\
      without name rs = pre ++ post /\ entry_size block size found = zlen r /\ 0 < found)) ->
  let old := if negb (found =? 0) then entry_size block size found else 0 in
  exists b, (if negb (found =? 0) then
      (move_down block found (found + old) (section_end rs - (found + old)), section_end rs - old)
      else (block, section_end rs)) = (b, section_end (without name rs)) /\
    zlen b = size /\ bytes_ok b /\
    slice b inode.kSmallData (zlen (concat (without name rs))) = concat (without name rs) /\
    Forall raw_ok (without name rs) /\ (forall k, 0 <= k < inode.kSmallData -> byte_at b k = byte_at block k) /\
    section_end rs - old = section_end (without name rs).
Proof.
  intros Hrep Hcase old.
  destruct Hcase as [(-> & -> & _)|(pre & r & post & -> & _ & -> & -> & Hes & Hpos)]; unfold old.
  - exists block. destruct Hrep. splits; auto. cbn [negb Z.eqb]. lia.
  - rewrite (proj2 (Z.eqb_neq _ 0)) by lia. cbn [negb]. rewrite Hes.
    destruct (close_gap block size pre post r Hrep) as (G1 & G2 & G3 & G4 & G5 & G6).
    eexists. splits; [|exact G1|exact G2|exact G3|exact G6|exact G4|lia]. f_equal. lia.
Qed.

(** C34: Setting an attribute.  On a well-formed section, for a name of 1 to 255
    bytes other than the reserved one, the attribute is refused exactly when the
    section without its old value has no room for the new; otherwise the section
    then holds the attribute with the type and data given, every other attribute
    as before, names still unique, and the inode's fixed part untouched. *)
Theorem small_set_spec (block : bytes) (size : Z) (rs : list bytes) (type : Z) (name data : bytes) :
  small_rep block size rs -> names_unique rs ->
  bytes_ok name -> 1 <= zlen name <= kMaxName -> name <> [kFileNameName] ->
  bytes_ok data -> zlen data < 2 ^ 31 -> 0 <= type < 2 ^ 32 ->
  match small_set block size type name data with
  | Some block' => exists rs', small_rep block' size rs' /\ names_unique rs' /\
      attr_of name rs' = Some (mkSmall type name data) /\
      (forall other, other <> name -> attr_of other rs' = attr_of other rs) /\
      section_end rs' = section_end (without name rs) + 12 + zlen name + zlen data /\ section_end rs' <= size /\
      (forall k, 0 <= k < inode.kSmallData -> byte_at block' k = byte_at block k)
  | None => size < section_end (without name rs) + 12 + zlen name + zlen data
  end.
Proof.
  intros Hrep Hu Hnb Hnl Hnr Hdb Hdl Ht. unfold kMaxName in Hnl. unfold small_set.
  pose proof (zlen_nonneg data). pose proof (sr_size _ _ _ Hrep) as [_ Hs]. unfold kMaxBlockSize in Hs.
  rewrite (proj2 (Z.eqb_neq _ _)), (proj2 (Z.ltb_ge _ _)) by (unfold kMaxName; lia). cbn [orb].
  destruct (locate_unique block size rs name Hrep Hu) as (found & -> & Hcase).
  unfold small_entry_size. rewrite u32_small by lia.
  set (old := if negb (found =? 0) then entry_size block size found else 0).
  pose proof (close_found block size rs name found Hrep Hcase) as Hkeep. cbn zeta in Hkeep. fold old in Hkeep.
  destruct Hkeep as (b & K0 & K1 & K2 & K3 & K4 & K5 & K6).
  destruct (Z.ltb_spec (size - section_end rs + old) (12 + zlen name + zlen data)) as [Hbig|Hfit]; [lia|].
  rewrite K0. clear K0.
  assert (Hend : 0 <= section_end (without name rs)).
  { unfold section_end, inode.kSmallData. pose proof (zlen_nonneg (concat (without name rs))). lia. }
  rewrite put_entry_blit by lia. destruct (new_raw_ok type name data) as (N1 & N2 & N3); auto; try lia.
  rewrite <- Z.add_assoc in Hfit |- *. 
  replace (section_end (without name rs) + (12 + (zlen name + zlen data)))
    with (section_end (without name rs) + zlen (new_raw type name data)) by (rewrite zlen_new_raw; lia).
  destruct (append_rep b size (without name rs) (new_raw type name data)) as [A1 A2]; auto;
    [apply (sr_size _ _ _ Hrep)|rewrite zlen_new_raw; lia|].
  assert (Hown : is_attr name (new_raw type name data) = true).
  { unfold is_attr. rewrite N3, (proj2 (name_matches_eq _ _) eq_refl), andb_true_r. apply negb_true_iff.
    unfold raw_reserved. apply not_true_iff_false. rewrite andb_true_iff, !Z.eqb_eq. intros [L1 B1].
    apply Hnr. rewrite <- N3. unfold raw_name. rewrite L1, slice_1, B1 by lia. reflexivity. }
  exists (without name rs ++ [new_raw type name data]). splits; auto.
  - apply names_unique_snoc; [now apply names_unique_without|]. rewrite N3. now apply attr_of_None, without_attr.
  - rewrite attr_of_app, without_attr. cbn [attr_of]. now rewrite Hown, N2.
  - intros other Hne. rewrite attr_of_app, without_other by auto. cbn [attr_of].
    rewrite (is_attr_other name other _ Hown Hne). now destruct (attr_of other rs).
  - unfold section_end. rewrite concat_app, zlen_app. cbn [concat]. rewrite app_nil_r, zlen_new_raw. lia.
  - pose proof (sr_fits _ _ _ A1). lia.
  - intros k Hk. rewrite A2, K5 by auto. reflexivity.
Qed.

(** Removing an attribute succeeds exactly when it is there, takes it out,
    and leaves every other attribute and the inode's fixed part as they were. *)
Theorem small_remove_spec (block : bytes) (size : Z) (rs : list bytes) (name : bytes) :
  small_rep block size rs -> names_unique rs ->
  match small_remove block size name with
  | Some block' => is_Some (attr_of name rs) /\ exists rs', small_rep block' size rs' /\ names_unique rs' /\
      attr_of name rs' = None /\ (forall other, other <> name -> attr_of other rs' = attr_of other rs) /\
      (forall k, 0 <= k < inode.kSmallData -> byte_at block' k = byte_at block k)
  | None => attr_of name rs = None
  end.
Proof.
  intros Hrep Hu. unfold small_remove. destruct (locate_unique block size rs name Hrep Hu) as (found & -> & Hcase).
  destruct Hcase as [(-> & _ & Hn)|(pre & r & post & Hrs & Hr & -> & Hw & -> & Hpos)]; [exact Hn|].
  rewrite (proj2 (Z.eqb_neq _ 0)) by lia. subst rs. pose proof Hrep as [_ _ Hs _ Hf _ _].
  destruct (close_gap block size pre post r Hrep) as (G1 & G2 & G3 & G4 & G5 & G6).
  replace (section_end (pre ++ r :: post) - zlen r) with (section_end (pre ++ post)) by lia.
  pose proof (zlen_nonneg r).
  destruct (finish_rep _ size (pre ++ post) G1 G2 Hs G6 ltac:(lia) G3) as [F1 F2].
  split.
  - rewrite attr_of_app. destruct (attr_of name pre); [eauto|]. cbn [attr_of]. rewrite Hr. eauto.
  - exists (pre ++ post). rewrite <- Hw in F1, F2 |- *. splits; auto.
    + now apply names_unique_without.
    + apply without_attr.
    + intros other Hne. now apply without_other.
    + intros k Hk. rewrite F2 by auto. now apply G4.
Qed.

(** * Inodes *)

Lemma write_small_name_blit block size name :
  1 <= zlen name <= kMaxName -> inode.kSmallData + 13 + zlen name <= size ->
  write_small_name block size name = blit block inode.kSmallData (new_raw kFileNameType [kFileNameName] name).
Proof.
  unfold kMaxName, inode.kSmallData. intros Hn Hs. unfold write_small_name, inode.kSmallData, kMaxName.
  rewrite (proj2 (Z.eqb_neq _ _)), !(proj2 (Z.ltb_ge _ _)) by lia. cbn [orb]. rewrite u16_small by lia.
  rewrite !set_byte_blit, put_le32_blit, !put_le16_blit by lia. unfold new_raw.
  change [0; 0; 0] with ([0] ++ [0] ++ [0]). change (zlen [kFileNameName]) with 1.
  rewrite !blit_app by (rewrite ?zlen_le_split; unfold zlen; simpl; lia). rewrite !zlen_le_split.
  change (zlen [0]) with 1. change (zlen ([0] ++ [0] ++ [0])) with 3. change (zlen [kFileNameName]) with 1.
  reflexivity.
Qed.

(** Read a field past the writes that do not touch it. *)
Ltac skip_puts :=
  repeat first [rewrite le32_blit_disj by (rewrite ?zlen_le_split, ?zlen_run_bytes_of, ?zlen_new_raw; lia)
               |rewrite le64_blit_disj by (rewrite ?zlen_le_split, ?zlen_run_bytes_of, ?zlen_new_raw; lia)
               |rewrite le_run_blit_disj by (rewrite ?zlen_le_split, ?zlen_run_bytes_of, ?zlen_new_raw; lia)
               |rewrite slice_blit_disj by (rewrite ?zlen_le_split, ?zlen_run_bytes_of, ?zlen_new_raw; lia)].

Lemma blit_get_run b a r : 0 <= a -> a + 8 <= zlen b -> run_ok r -> le_run (blit b a (run_bytes_of r)) a = r.
Proof. intros. rewrite <- put_run_blit by lia. now apply le_run_put_same. Qed.
Lemma blit_put32 b a v : 0 <= a -> a + 4 <= zlen b -> le32 (blit b a (le_split 4 v)) a = u32 v.
Proof. intros. rewrite <- put_le32_blit by lia. now apply le32_put. Qed.
Lemma blit_put64 b a v : 0 <= a -> a + 8 <= zlen b -> le64 (blit b a (le_split 8 v)) a = u64 v.
Proof. intros. rewrite <- put_le64_blit by lia. now apply le64_put. Qed.

Ltac inode_fields :=
  unfold inode.kMagic1, inode.kInodeNum, inode.kUid, inode.kGid, inode.kMode, inode.kFlags, inode.kCreateTime,
    inode.kLastModified, inode.kParent, inode.kAttributes, inode.kType, inode.kInodeSize, inode.kEtc, inode.kData,
    inode.kSmallData, data.kSize, data.kBytes in *.

(** The section of an inode that has only its own name. *)
Lemma reserved_section name :
  bytes_ok name -> 1 <= zlen name <= kMaxName ->
  let r := new_raw kFileNameType [kFileNameName] name in
  raw_ok r /\ raw_reserved r = true /\ raw_attr r = mkSmall kFileNameType [kFileNameName] name.
Proof.
  intros Hb Hl r. unfold kMaxName in Hl.
  assert (Hk : bytes_ok [kFileNameName]) by (repeat constructor; unfold kFileNameName; lia).
  assert (Hone : zlen [kFileNameName] = 1) by reflexivity.
  assert (Ht : 0 <= kFileNameType < 2 ^ 32) by (unfold kFileNameType; lia).
  destruct (new_raw_ok kFileNameType [kFileNameName] name Hk Hb ltac:(lia) ltac:(lia) ltac:(lia) Ht) as (N1 & N2 & N3).
  splits; auto.
Qed.

(** The walk to the reserved entry, when it is the first. *)
Lemma file_name_first block size name rs capacity :
  small_rep block size (new_raw kFileNameType [kFileNameName] name :: rs) ->
  bytes_ok name -> 1 <= zlen name <= kMaxName -> byte_at name (zlen name - 1) <> 0 -> zlen name <= capacity ->
  small_file_name (Z.to_nat size) block size capacity inode.kSmallData = Some name.
Proof.
  intros Hrep Hb Hl Hz Hc. destruct (reserved_section name Hb Hl) as (R1 & R2 & R3).
  set (r := new_raw _ _ _) in *.
  destruct (rep_entry block size _ Hrep [] r rs eq_refl) as (E1 & E2 & E3 & E4 & _ & E6 & _).
  change (section_end []) with inode.kSmallData in *.
  assert (Hf : exists n, Z.to_nat size = S n).
  { pose proof (sr_size _ _ _ Hrep) as [Hs _]. unfold inode.kSmallData in Hs. exists (Z.to_nat (size - 1)). lia. }
  destruct Hf as [n ->]. cbn [small_file_name].
  pose proof (raw_sizes r R1) as (S1 & _ & S3). rewrite R3 in E6.
  rewrite E1, E3, E4, R2. rewrite E2 at 1. rewrite !(proj2 (Z.eqb_neq _ 0)) by lia. cbn [negb andb].
  injection E6 as _ _ ->.
  assert (Ht : trim_zeros (length name) name = zlen name).
  { destruct (length name) as [|m] eqn:Em; [unfold zlen in Hl; lia|]. cbn [trim_zeros].
    assert (Hzl : zlen name = Z.of_nat (S m)) by (unfold zlen; now rewrite Em).
    replace (Z.of_nat m) with (zlen name - 1) by lia. rewrite (proj2 (Z.eqb_neq _ 0)) by auto. lia. }
  rewrite Ht, (proj2 (Z.ltb_ge _ _)) by lia. now rewrite slice_all.
Qed.

(** The block before its name is written. *)
Lemma inode_build_blit size run parent mode uid gid time name :
  inode.kSmallData + 13 + zlen name <= size -> 1 <= zlen name <= kMaxName ->
  exists b0, inode_build size run parent mode uid gid time name =
      blit b0 inode.kSmallData (new_raw kFileNameType [kFileNameName] name) /\
    zlen b0 = size /\ bytes_ok b0 /\ (forall k, inode.kSmallData <= k -> byte_at b0 k = 0).
Proof.
  intros Hs Hnl. unfold inode_build. rewrite write_small_name_blit by lia. eexists. split; [reflexivity|]. splits.
  - inode_fields. autorewrite with buf. lia.
  - repeat first [apply bytes_ok_put32; [inode_fields; lia|]|apply bytes_ok_put64; [inode_fields; lia|]
                 |apply bytes_ok_put_run; [inode_fields; lia|]]. auto with buf.
  - intros k Hk. inode_fields. autorewrite with put.
    rewrite !byte_blit_disj by (rewrite ?zlen_le_split, ?zlen_run_bytes_of; lia). apply byte_at_zeros.
Qed.

(** Its section is the reserved entry alone. *)
Lemma inode_build_rep size run parent mode uid gid time name :
  inode.kSmallData + 13 + zlen name <= size <= kMaxBlockSize -> bytes_ok name -> 1 <= zlen name <= kMaxName ->
  small_rep (inode_build size run parent mode uid gid time name) size [new_raw kFileNameType [kFileNameName] name].
Proof.
  intros Hs Hnb Hnl. pose proof (zlen_nonneg name) as Hnn. unfold kMaxBlockSize in Hs.
  destruct (inode_build_blit size run parent mode uid gid time name ltac:(lia) Hnl) as (b0 & Hblk & Hz0 & Hb0 & Hzero).
  set (block := inode_build _ _ _ _ _ _ _ _) in *.
  destruct (reserved_section name Hnb Hnl) as (R1 & R2 & R3).
  assert (Hfin : block = zero_range block (section_end [new_raw kFileNameType [kFileNameName] name]) size).
  { unfold zero_range, section_end. cbn [concat]. rewrite app_nil_r, zlen_new_raw. change (zlen [kFileNameName]) with 1.
    inode_fields. apply bytes_ext; rewrite ?zlen_blit; [reflexivity|]. intros k Hk.
    rewrite Hblk in Hk |- *. rewrite zlen_blit in Hk.
    rewrite (byte_at_blit (blit _ _ _)), zlen_blit, zlen_zeros by lia.
    destruct (Z.leb_spec (232 + (12 + 1 + zlen name)) k); [|reflexivity].
    rewrite !(proj2 (Z.ltb_lt _ _)) by lia. cbn [andb]. rewrite byte_at_zeros.
    rewrite byte_blit_disj by (rewrite ?zlen_new_raw; change (zlen [kFileNameName]) with 1; lia).
    apply Hzero. lia. }
  rewrite Hfin. apply finish_rep.
  - rewrite Hblk. now rewrite zlen_blit.
  - rewrite Hblk. apply bytes_ok_blit; [inode_fields; lia|auto|apply R1].
  - inode_fields. unfold kMaxBlockSize. lia.
  - now constructor.
  - unfold section_end. cbn [concat]. rewrite app_nil_r, zlen_new_raw. change (zlen [kFileNameName]) with 1. inode_fields. lia.
  - cbn [concat]. rewrite app_nil_r, Hblk. apply slice_blit_same; [inode_fields; lia|reflexivity|].
    rewrite zlen_new_raw. change (zlen [kFileNameName]) with 1. inode_fields. lia.
Qed.

Lemma inode_build_fields size run parent mode uid gid time name :
  inode.kSmallData + 13 + zlen name <= size -> 1 <= zlen name <= kMaxName ->
  run_ok run -> run_ok parent -> 0 <= mode < 2 ^ 32 -> 0 <= uid < 2 ^ 32 -> 0 <= gid < 2 ^ 32 -> 0 <= time < 2 ^ 63 ->
  let block := inode_build size run parent mode uid gid time name in
  le32 block 0 = kInodeMagic1 /\ le_run block 4 = run /\ le_run block 44 = parent /\
  le_run block 52 = mkRun 0 0 0 /\ le32 block 12 = uid /\ le32 block 16 = gid /\ le32 block 20 = mode /\
  le32 block 24 = kInodeInUse /\ le64 block 36 = time /\ le64 block 208 = 0.
Proof.
  intros Hs Hnl Hr Hp Hm Hu Hg Ht block. assert (Hone : zlen [kFileNameName] = 1) by reflexivity.
  unfold block, inode_build. rewrite write_small_name_blit by lia. inode_fields. rewrite !(u64_small time) by lia.
  autorewrite with put. change (72 + 136) with 208. change (72 + 144) with 216.
  splits; skip_puts;
    first [rewrite blit_put32 by (autorewrite with buf; lia); apply u32_small
          |rewrite blit_put64 by (autorewrite with buf; lia); apply u64_small
          |apply blit_get_run; autorewrite with buf]; unfold kInodeMagic1, kInodeInUse, run_ok; simpl; auto; lia.
Qed.

(** A fresh inode reads back as it was built: its magic, its own run and its
    parent's, the owner, mode and in-use flag, both times, an empty stream of
    size 0 and no attribute; its small_data section holds exactly the reserved
    entry, from which its name is read back. *)
Theorem inode_build_spec (size : Z) (run parent : Run) (mode uid gid time : Z) (name : bytes) (capacity : Z) :
  inode.kSmallData + 13 + zlen name <= size <= kMaxBlockSize ->
  run_ok run -> run_ok parent -> 0 <= mode < 2 ^ 32 -> 0 <= uid < 2 ^ 32 -> 0 <= gid < 2 ^ 32 ->
  0 <= time < 2 ^ 63 -> bytes_ok name -> 1 <= zlen name <= kMaxName ->
  byte_at name (zlen name - 1) <> 0 -> zlen name <= capacity ->
  let block := inode_build size run parent mode uid gid time name in
  zlen block = size /\ le32 block inode.kMagic1 = kInodeMagic1 /\ le_run block inode.kInodeNum = run /\
  le_run block inode.kParent = parent /\ le_run block inode.kAttributes = mkRun 0 0 0 /\
  le32 block inode.kUid = uid /\ le32 block inode.kGid = gid /\ inode_mode block = mode /\
  inode_flags block = kInodeInUse /\ inode_mtime block = time /\ inode_size block = 0 /\
  small_rep block size [new_raw kFileNameType [kFileNameName] name] /\
  (forall other, small_find block size other = None) /\
  small_file_name (Z.to_nat size) block size capacity inode.kSmallData = Some name.
Proof.
  intros Hs Hr Hp Hm Hu Hg Ht Hnb Hnl Hlast Hcap. pose proof (zlen_nonneg name) as Hnn.
  pose proof (inode_build_rep size run parent mode uid gid time name Hs Hnb Hnl) as Hrep.
  destruct (inode_build_fields size run parent mode uid gid time name ltac:(lia) Hnl Hr Hp Hm Hu Hg Ht)
    as (F0 & F4 & F44 & F52 & F12 & F16 & F20 & F24 & F36 & F208).
  set (block := inode_build _ _ _ _ _ _ _ _) in *. destruct (reserved_section name Hnb Hnl) as (R1 & R2 & R3).
  unfold inode_mode, inode_flags, inode_mtime, inode_size, le64_signed. inode_fields. change (72 + 136) with 208.
  rewrite F0, F4, F44, F52, F12, F16, F20, F24, F36, F208. splits; auto.
  - apply (sr_len _ _ _ Hrep).
  - unfold signed. change (2 ^ (64 - 1)) with (2 ^ 63). now rewrite (proj2 (Z.ltb_lt _ _)) by lia.
  - intros other. rewrite (small_find_rep block size _ other Hrep). cbn [attr_of]. unfold is_attr. now rewrite R2.
  - apply (file_name_first block size name []); auto.
Qed.

(** A stream stored in an inode reads back as it was, its first 136 bytes the
    caller's and then the size; the size and the modification time are the ones
    given, and the identity, owner, mode and parent are untouched. *)
Theorem inode_stream_roundtrip (block stream : bytes) (size mtime : Z) :
  bytes_ok block -> bytes_ok stream -> inode.kSmallData <= zlen block -> zlen stream = data.kBytes ->
  0 <= size < 2 ^ 63 -> 0 <= mtime < 2 ^ 63 ->
  let block' := inode_set_stream block stream size mtime in
  zlen block' = zlen block /\ inode_size block' = size /\ inode_mtime block' = mtime /\
  slice (inode_get_stream block') 0 data.kSize = slice stream 0 data.kSize /\
  (forall k, 0 <= k < inode.kLastModified \/ inode.kParent <= k < inode.kData -> byte_at block' k = byte_at block k).
Proof.
  intros Hb Hsb Hl Hsl Hs Hm block'. unfold block', inode_set_stream, inode_size, inode_mtime, inode_get_stream, le64_signed.
  inode_fields. change (72 + 136) with 208. change (72 + 144) with 216.
  rewrite (u64_small size), (u64_small mtime), slice_all by lia. autorewrite with put. splits.
  - now rewrite !zlen_blit.
  - skip_puts. rewrite blit_put64 by (rewrite ?zlen_blit; lia). rewrite u64_small by lia.
    unfold signed. now rewrite (proj2 (Z.ltb_lt _ _)) by lia.
  - skip_puts. rewrite blit_put64 by (rewrite ?zlen_blit; lia). rewrite u64_small by lia.
    unfold signed. now rewrite (proj2 (Z.ltb_lt _ _)) by lia.
  - rewrite slice_slice by lia. skip_puts. apply bytes_ext.
    + rewrite !zlen_slice by lia. reflexivity.
    + intros k Hk. rewrite zlen_slice in Hk by lia. rewrite !byte_at_slice by lia.
      rewrite byte_at_blit, Hsl by lia. rewrite (proj2 (Z.leb_le _ _)), !(proj2 (Z.ltb_lt _ _)) by lia.
      cbn [andb]. f_equal. lia.
  - intros k Hk. rewrite !byte_blit_disj by (rewrite ?zlen_le_split; lia). reflexivity.
Qed.

(** * Examples *)

Module SampleInode.
Definition name : bytes := [97; 46; 116].
Definition block : bytes := inode_build 512 (mkRun 0 20 1) (mkRun 0 10 1) 33188 7 8 1000 name.
Definition entry : bytes := new_raw kFileNameType [kFileNameName] name.
Definition mime : bytes := [77; 73; 77; 69].
(** The same inode with one attribute. *)
Definition entry2 : bytes := new_raw 77 mime [1; 2; 3].
Definition block2 : bytes := zero_range (blit block (section_end [entry]) entry2) (section_end [entry; entry2]) 512.

Lemma block_rep : small_rep block 512 [entry].
Proof. apply inode_build_rep; [vm_compute; split; discriminate|now apply bytes_okb_true|vm_compute; split; discriminate]. Qed.

Lemma entry2_ok : raw_ok entry2.
Proof. split; [now apply bytes_okb_true|split; [vm_compute; discriminate|reflexivity]]. Qed.

Lemma block2_rep : small_rep block2 512 [entry; entry2].
Proof.
  destruct block_rep as [Hl Hb Hs Hr Hf Hsec _].
  exact (proj1 (append_rep block 512 [entry] entry2 Hl Hb Hs Hr Hsec entry2_ok ltac:(vm_compute; discriminate))).
Qed.

Lemma names2 : names_unique [entry; entry2].
Proof.
  apply names_unique_cons. split; [|vm_compute; discriminate].
  apply names_unique_cons. split; [|constructor]. intros n pre y post E. now destruct pre.
Qed.
End SampleInode.

Lemma small_find_spec_witness :
  small_rep SampleInode.block2 512 [SampleInode.entry; SampleInode.entry2] /\
  small_find SampleInode.block2 512 SampleInode.mime = Some (mkSmall 77 SampleInode.mime [1; 2; 3]).
Proof.
  split; [exact SampleInode.block2_rep|].
  etransitivity; [exact (small_find_spec _ _ _ SampleInode.mime SampleInode.block2_rep)|]. vm_compute. reflexivity.
Defined.

Lemma small_set_spec_witness :
  exists block', small_set SampleInode.block2 512 78 SampleInode.mime [9] = Some block' /\
    exists rs', small_rep block' 512 rs' /\ attr_of SampleInode.mime rs' = Some (mkSmall 78 SampleInode.mime [9]).
Proof.
  assert (Hl : 1 <= zlen SampleInode.mime <= kMaxName) by (vm_compute; split; discriminate).
  assert (Hr : SampleInode.mime <> [kFileNameName]) by discriminate.
  assert (Hd : zlen [9] < 2 ^ 31) by reflexivity. assert (Ht : 0 <= 78 < 2 ^ 32) by lia.
  pose proof (small_set_spec _ _ _ 78 SampleInode.mime [9] SampleInode.block2_rep SampleInode.names2
    (bytes_okb_true SampleInode.mime eq_refl) Hl Hr (bytes_okb_true [9] eq_refl) Hd Ht) as H.
  destruct (small_set SampleInode.block2 512 78 SampleInode.mime [9]) as [block'|] eqn:E.
  - destruct H as (rs' & H1 & _ & H2 & _). exists block'. split; [reflexivity|]. exists rs'. now split.
  - exfalso. revert E. vm_compute. discriminate.
Defined.

Lemma small_remove_spec_witness :
  exists block', small_remove SampleInode.block2 512 SampleInode.mime = Some block' /\
    exists rs', small_rep block' 512 rs' /\ attr_of SampleInode.mime rs' = None.
Proof.
  pose proof (small_remove_spec SampleInode.block2 512 [SampleInode.entry; SampleInode.entry2] SampleInode.mime
    SampleInode.block2_rep SampleInode.names2) as H.
  destruct (small_remove SampleInode.block2 512 SampleInode.mime) as [block'|] eqn:E.
  - destruct H as (_ & rs' & H1 & _ & H2 & _). exists block'. split; [reflexivity|]. exists rs'. now split.
  - exfalso. revert E. vm_compute. discriminate.
Defined.

Lemma inode_build_spec_witness :
  small_file_name (Z.to_nat 512) SampleInode.block 512 255 inode.kSmallData = Some SampleInode.name.
Proof.
  pose proof (inode_build_spec 512 (mkRun 0 20 1) (mkRun 0 10 1) 33188 7 8 1000 SampleInode.name 255) as H.
  cbn zeta in H. fold SampleInode.block in H.
  destruct H as (_ & _ & _ & _ & _ & _ & _ & _ & _ & _ & _ & _ & _ & N); [..|exact N];
    first [lia|vm_compute; split; discriminate|vm_compute; discriminate
          |repeat split; vm_compute; discriminate|now apply bytes_okb_true].
Defined.

Lemma inode_stream_roundtrip_witness :
  inode_size (inode_set_stream SampleInode.block (zeros data.kBytes) 4096 2000) = 4096.
Proof.
  pose proof (inode_stream_roundtrip SampleInode.block (zeros data.kBytes) 4096 2000) as H.
  cbn zeta in H. destruct H as (_ & S & _); [..|exact S].
  - exact (sr_bytes _ _ _ SampleInode.block_rep).
  - auto with buf.
  - rewrite (sr_len _ _ _ SampleInode.block_rep). vm_compute. discriminate.
  - reflexivity.
  - lia.
  - lia.
Defined.

(** The reserved name is accepted as an attribute's: setting it on a fresh
    inode succeeds and uses room in the section, and the attribute just set can
    neither be found nor removed. *)
Theorem reserved_name_accepted :
  exists block, small_set SampleInode.block 512 77 [kFileNameName] [88; 89] = Some block /\
    locate 512 block 512 [kFileNameName] inode.kSmallData 0 =
      Some (0, section_end [SampleInode.entry] + small_entry_size 1 2) /\
    small_find block 512 [kFileNameName] = None /\ small_remove block 512 [kFileNameName] = None.
Proof. eexists. split; [vm_compute; reflexivity|]. split; [|split]; vm_compute; reflexivity. Qed.
