(* ===== verification/Stream.v ===== *)
(** Data streams (libs/freestanding/aegir-bfs, src/volume.cc): inodes as a
    caller sees them, and reads and writes of byte ranges through a stream's
    direct, indirect and double-indirect runs.  The volume is a flat array of
    bytes ([view_byte]) and a stream is a map into it ([stream_at]); the
    theorems say that a read returns the mapped bytes, with zeros for holes, and
    that a write changes exactly the mapped bytes, so that it reads back. *)
From stdpp Require Import base numbers list list_numbers.
From Stdlib Require Import ZArith Lia.
From S2P Require Import Prelude.
From S2P Require Import Layout.
From S2P Require Import Device.
From S2P Require Import Volume.
From S2P Require Import BlockStore.
From S2P Require Import Samples.
From S2P Require Import Transaction.
From S2P Require Import Attribute.

(** * Inodes *)

(** [struct Inode]; [in_name] is [name[0 .. name_length)]. *)
Record Inode := mkInode {
  in_mode : Z;
  in_uid : Z;
  in_gid : Z;
  in_type : Z;
  in_size : Z;
  in_mtime : Z;
  in_run : Run;
  in_parent : Run;
  in_attributes : Run;
  in_name : bytes;
  in_data : bytes;
}.

(** The fields [read_inode] takes from the block. *)
Definition inode_of (b : bytes) : Inode :=
  let name := small_file_name (Z.to_nat (le32 b inode.kInodeSize)) b (le32 b inode.kInodeSize)
                kMaxName inode.kSmallData in
  mkInode (le32 b inode.kMode) (le32 b inode.kUid) (le32 b inode.kGid) (le32 b inode.kType)
    (le64_signed b (inode.kData + data.kSize)) (le64_signed b inode.kLastModified)
    (le_run b inode.kInodeNum) (le_run b inode.kParent) (le_run b inode.kAttributes)
    (match name with Some n => n | None => [] end) (slice b inode.kData data.kBytes).

(** How a walk over runs ends: [return ok], or the next position. *)
Inductive flow := Stop (ok : bool) | Go (pos cursor left_ : Z).

Section streams.
Context {D : Type} `{SectorDevice D}.
Implicit Types fs : Fs D.

Definition read_inode fs (block : Z) : option Inode * Fs D :=
  if negb (valid_ (vol fs)) || (num_blocks_ (vol fs) <=? block) then (None, fs)
  else
    match read_block fs block with
    | (None, fs) => (None, fs)
    | (Some b, fs) =>
      if negb (le32 b inode.kMagic1 =? kInodeMagic1) ||
         (Z.land (le32 b inode.kFlags) kInodeInUse =? 0) ||
         negb (le32 b inode.kInodeSize =? block_size (vol fs))
      then (None, fs)
      else (Some (inode_of b), fs)
    end.

(** The scan of blocks [at_ ..]; [fuel] is how many are left. *)
Fixpoint next_inode_from (fuel : nat) fs (at_ : Z) : option Inode * Z * Fs D :=
  match fuel with
  | O => (None, num_blocks_ (vol fs), fs)
  | S fuel =>
    match read_inode fs at_ with
    | (Some inode, fs) =>
      if to_block (vol fs) (in_run inode) =? at_ then (Some inode, at_ + 1, fs)
      else next_inode_from fuel fs (at_ + 1)
    | (None, fs) => next_inode_from fuel fs (at_ + 1)
    end
  end.

Definition next_inode fs (block : Z) : option Inode * Z * Fs D :=
  next_inode_from (Z.to_nat (num_blocks_ (vol fs) - block)) fs block.

(** * Reading *)

Definition max_batch (v : Volume) : Z :=
  if sectors_per_block v <=? max_sectors_ v then max_sectors_ v / sectors_per_block v else 1.

(** [while (left_ > 0)]; every turn takes at least a byte, so as many turns are
    enough. *)
Fixpoint read_part_loop (fuel : nat) fs (byte left_ : Z) : option bytes * Fs D :=
  if left_ =? 0 then (Some [], fs)
  else
    match fuel with
    | O => (None, fs)
    | S fuel =>
      let bs := block_size (vol fs) in
      let within := u32 (byte mod bs) in
      let chunk := if left_ <? bs - within then left_ else bs - within in
      let max_blocks := max_batch (vol fs) in
      if (within =? 0) && (chunk =? bs) && (1 <? max_blocks) && negb (in_transaction fs) then
        let blocks := left_ / bs in
        let blocks := if max_blocks <? blocks then max_blocks else blocks in
        match read_sectors (dev fs) (byte / kSectorBytes) (u32 (blocks * sectors_per_block (vol fs))) with
        | None => (None, fs)
        | Some data =>
          let n := u32 (blocks * bs) in
          let '(rest, fs) := read_part_loop fuel fs (u64 (byte + n)) (left_ - n) in
          (option_map (app (slice data 0 n)) rest, fs)
        end
      else
        match read_block fs (byte / bs) with
        | (None, fs) => (None, fs)
        | (Some data, fs) =>
          let '(rest, fs) := read_part_loop fuel fs (u64 (byte + chunk)) (left_ - chunk) in
          (option_map (app (slice data within chunk)) rest, fs)
        end
    end.

Definition read_part fs (run : Run) (skip length : Z) : option bytes * Fs D :=
  read_part_loop (Z.to_nat length) fs
    (u64 (to_block (vol fs) run * block_size (vol fs) + skip)) length.

(** The lambda [handle]: the part of [[offset, offset + length)] that [run]
    covers, read into the buffer. *)
Definition read_handle fs (offset length : Z) (run : Run) (run_start : Z) (out : bytes)
    : option bytes * Fs D :=
  let span := run_bytes (vol fs) run in
  let req_end := u64 (offset + length) in
  let run_end := u64 (run_start + span) in
  let lo := if run_start <? offset then offset else run_start in
  let hi := if req_end <? run_end then req_end else run_end in
  if hi <=? lo then (Some out, fs)
  else
    match read_part fs run (lo - run_start) (u32 (hi - lo)) with
    | (None, fs) => (None, fs)
    | (Some part, fs) => (Some (blit out (lo - offset) part), fs)
    end.

(** [n] runs of an array from [at_]; the zero run ends the array. *)
Fixpoint read_runs (n : nat) fs (offset length : Z) (array : bytes) (at_ pos : Z) (out : bytes)
    : option (Z * bytes) * Fs D :=
  match n with
  | O => (Some (pos, out), fs)
  | S n =>
    let run := le_run array at_ in
    if run_is_zero run then (Some (pos, out), fs)
    else
      match read_handle fs offset length run pos out with
      | (None, fs) => (None, fs)
      | (Some out, fs) =>
        read_runs n fs offset length array (at_ + 8) (u64 (pos + run_bytes (vol fs) run)) out
      end
  end.

(** The array blocks [block ..], [n] of them. *)
Fixpoint read_arrays (n : nat) fs (offset length block pos : Z) (out : bytes)
    : option (Z * bytes) * Fs D :=
  match n with
  | O => (Some (pos, out), fs)
  | S n =>
    match read_block fs block with
    | (None, fs) => (None, fs)
    | (Some array, fs) =>
      match read_runs (Z.to_nat (block_size (vol fs) / 8)) fs offset length array 0 pos out with
      | (None, fs) => (None, fs)
      | (Some (pos, out), fs) => read_arrays n fs offset length (block + 1) pos out
      end
    end
  end.

(** One array of the double-indirect level: each run names array blocks. *)
Fixpoint read_array_runs (n : nat) fs (offset length : Z) (array : bytes) (at_ pos : Z) (out : bytes)
    : option (Z * bytes) * Fs D :=
  match n with
  | O => (Some (pos, out), fs)
  | S n =>
    let run := le_run array at_ in
    if run_is_zero run then (Some (pos, out), fs)
    else
      match read_arrays (Z.to_nat (run_length run)) fs offset length (to_block (vol fs) run) pos out with
      | (None, fs) => (None, fs)
      | (Some (pos, out), fs) => read_array_runs n fs offset length array (at_ + 8) pos out
      end
  end.

Fixpoint read_double (n : nat) fs (offset length block pos : Z) (out : bytes)
    : option (Z * bytes) * Fs D :=
  match n with
  | O => (Some (pos, out), fs)
  | S n =>
    match read_block fs block with
    | (None, fs) => (None, fs)
    | (Some array, fs) =>
      match read_array_runs (Z.to_nat (block_size (vol fs) / 8)) fs offset length array 0 pos out with
      | (None, fs) => (None, fs)
      | (Some (pos, out), fs) => read_double n fs offset length (block + 1) pos out
      end
    end
  end.

(** [None] is [false]; [stream] is the inode's [data]. *)
Definition read_stream fs (stream : bytes) (offset length : Z) : option bytes * Fs D :=
  if length =? 0 then (Some [], fs)
  else
    match read_runs (Z.to_nat data.kDirectCount) fs offset length stream data.kDirect 0 (zeros length) with
    | (None, fs) => (None, fs)
    | (Some (pos, out), fs) =>
      let indirect := le_run stream data.kIndirect in
      match (if run_is_zero indirect then (Some (pos, out), fs)
             else read_arrays (Z.to_nat (run_length indirect)) fs offset length
                    (to_block (vol fs) indirect) pos out) with
      | (None, fs) => (None, fs)
      | (Some (pos, out), fs) =>
        let double_indirect := le_run stream data.kDoubleIndirect in
        match (if run_is_zero double_indirect then (Some (pos, out), fs)
               else read_double (Z.to_nat (run_length double_indirect)) fs offset length
                      (to_block (vol fs) double_indirect) pos out) with
        | (None, fs) => (None, fs)
        | (Some (_, out), fs) => (Some out, fs)
        end
      end
    end.

(** * Writing *)

(** [direct ? write_block_now(block, data) : write_block(block, data)] *)
Definition put_data fs (direct : bool) (block : Z) (data : bytes) : bool * Fs D :=
  if direct then write_block_now fs block data else write_block fs block data.

Fixpoint write_part_loop (fuel : nat) fs (byte : Z) (src : bytes) (left_ : Z) (direct : bool)
    : bool * Fs D :=
  if left_ =? 0 then (true, fs)
  else
    match fuel with
    | O => (false, fs)
    | S fuel =>
      let bs := block_size (vol fs) in
      let block := byte / bs in
      let within := u32 (byte mod bs) in
      let chunk := if left_ <? bs - within then left_ else bs - within in
      let '(ok, fs) :=
        if (within =? 0) && (chunk =? bs) then put_data fs direct block (slice src 0 bs)
        else
          match read_block fs block with
          | (None, fs) => (false, fs)
          | (Some data, fs) => put_data fs direct block (blit data within (slice src 0 chunk))
          end in
      if negb ok then (false, fs)
      else write_part_loop fuel fs (u64 (byte + chunk)) (drop (Z.to_nat chunk) src) (left_ - chunk) direct
    end.

Definition write_part fs (run : Run) (skip : Z) (src : bytes) (length : Z) (direct : bool) : bool * Fs D :=
  write_part_loop (Z.to_nat length) fs
    (u64 (to_block (vol fs) run * block_size (vol fs) + skip)) src length direct.

(** The lambda [handle]: the part of [[cursor, cursor + left_)] that [run]
    covers; the answer, and the cursor and what is left. *)
Definition write_handle fs (offset : Z) (src : bytes) (direct : bool) (run : Run) (run_start cursor left_ : Z)
    : bool * Z * Z * Fs D :=
  let span := run_bytes (vol fs) run in
  let req_end := u64 (cursor + left_) in
  let run_end := u64 (run_start + span) in
  let lo := if run_start <? cursor then cursor else run_start in
  let hi := if req_end <? run_end then req_end else run_end in
  if hi <=? lo then (true, cursor, left_, fs)
  else
    let n := u32 (hi - lo) in
    let '(ok, fs) := write_part fs run (lo - run_start) (drop (Z.to_nat (lo - offset)) src) n direct in
    if ok then (true, hi, u32 (left_ - n), fs) else (false, cursor, left_, fs).

Section write.
Context (offset : Z) (src : bytes) (direct : bool).

Fixpoint write_runs (n : nat) fs (array : bytes) (at_ pos cursor left_ : Z) : flow * Fs D :=
  match n with
  | O => (Go pos cursor left_, fs)
  | S n =>
    let run := le_run array at_ in
    if run_is_zero run then (Stop (left_ =? 0), fs)
    else
      match write_handle fs offset src direct run pos cursor left_ with
      | (false, _, _, fs) => (Stop false, fs)
      | (true, cursor, left_, fs) =>
        write_runs n fs array (at_ + 8) (u64 (pos + run_bytes (vol fs) run)) cursor left_
      end
  end.

Fixpoint write_arrays (n : nat) fs (block pos cursor left_ : Z) : flow * Fs D :=
  match n with
  | O => (Go pos cursor left_, fs)
  | S n =>
    match read_block fs block with
    | (None, fs) => (Stop false, fs)
    | (Some array, fs) =>
      match write_runs (Z.to_nat (block_size (vol fs) / 8)) fs array 0 pos cursor left_ with
      | (Stop ok, fs) => (Stop ok, fs)
      | (Go pos cursor left_, fs) => write_arrays n fs (block + 1) pos cursor left_
      end
    end
  end.

Fixpoint write_array_runs (n : nat) fs (array : bytes) (at_ pos cursor left_ : Z) : flow * Fs D :=
  match n with
  | O => (Go pos cursor left_, fs)
  | S n =>
    let run := le_run array at_ in
    if run_is_zero run then (Stop (left_ =? 0), fs)
    else
      match write_arrays (Z.to_nat (run_length run)) fs (to_block (vol fs) run) pos cursor left_ with
      | (Stop ok, fs) => (Stop ok, fs)
      | (Go pos cursor left_, fs) => write_array_runs n fs array (at_ + 8) pos cursor left_
      end
  end.

Fixpoint write_double (n : nat) fs (block pos cursor left_ : Z) : flow * Fs D :=
  match n with
  | O => (Go pos cursor left_, fs)
  | S n =>
    match read_block fs block with
    | (None, fs) => (Stop false, fs)
    | (Some array, fs) =>
      match write_array_runs (Z.to_nat (block_size (vol fs) / 8)) fs array 0 pos cursor left_ with
      | (Stop ok, fs) => (Stop ok, fs)
      | (Go pos cursor left_, fs) => write_double n fs (block + 1) pos cursor left_
      end
    end
  end.
End write.

(** [in] is the [length] bytes of [src]. *)
Definition write_stream_impl fs (stream : bytes) (offset : Z) (src : bytes) (length : Z) (direct : bool)
    : bool * Fs D :=
  if length =? 0 then (true, fs)
  else
    match write_runs offset src direct (Z.to_nat data.kDirectCount) fs stream data.kDirect 0 offset length with
    | (Stop ok, fs) => (ok, fs)
    | (Go pos cursor left_, fs) =>
      let indirect := le_run stream data.kIndirect in
      match (if run_is_zero indirect then (Go pos cursor left_, fs)
             else write_arrays offset src direct (Z.to_nat (run_length indirect)) fs
                    (to_block (vol fs) indirect) pos cursor left_) with
      | (Stop ok, fs) => (ok, fs)
      | (Go pos cursor left_, fs) =>
        let double_indirect := le_run stream data.kDoubleIndirect in
        match (if run_is_zero double_indirect then (Go pos cursor left_, fs)
               else write_double offset src direct (Z.to_nat (run_length double_indirect)) fs
                      (to_block (vol fs) double_indirect) pos cursor left_) with
        | (Stop ok, fs) => (ok, fs)
        | (Go _ _ left_, fs) => (left_ =? 0, fs)
        end
      end
    end.

Definition write_stream_raw fs (stream : bytes) (offset : Z) (src : bytes) (length : Z) : bool * Fs D :=
  write_stream_impl fs stream offset src length false.

Definition write_stream_direct fs (stream : bytes) (offset : Z) (src : bytes) (length : Z) : bool * Fs D :=
  write_stream_impl fs stream offset src length true.

End streams.

(** * The volume as a flat array of bytes *)

Section flat.
Context {D : Type} `{SectorDeviceLaws D}.
Implicit Types fs : Fs D.

Definition view_byte fs (a : Z) : Z :=
  byte_at (view fs (a / block_size (vol fs))) (a mod block_size (vol fs)).

(** What a read may change. *)
Definition only_cache fs fs' : Prop :=
  dev fs' = dev fs /\ jnl fs' = jnl fs /\ attached fs' = attached fs /\
  exists c, vol fs' = with_cache (vol fs) c.

(** The device answers every read of the volume. *)
Definition reads_ok fs : Prop :=
  forall s n, 0 <= s -> 0 < n -> s + n <= num_blocks_ (vol fs) * sectors_per_block (vol fs) ->
    is_Some (read_sectors (dev fs) s n).

(** The bytes [[a, a + n)] lie in blocks that may be read. *)
Definition readable (live : Z -> Prop) (v : Volume) (a n : Z) : Prop :=
  forall x, a <= x < a + n -> client_block v (x / block_size v) /\ live (x / block_size v).

Lemma only_cache_refl fs : only_cache fs fs.
Proof. unfold only_cache. splits; auto. exists (cache_ (vol fs)). now destruct (vol fs). Qed.

Lemma only_cache_trans fs fs1 fs2 : only_cache fs fs1 -> only_cache fs1 fs2 -> only_cache fs fs2.
Proof.
  intros (A1 & A2 & A3 & c & A4) (B1 & B2 & B3 & c' & B4). unfold only_cache.
  splits; try congruence. exists c'. rewrite B4, A4. reflexivity.
Qed.

Lemma only_cache_same fs fs' :
  only_cache fs fs' ->
  block_size (vol fs') = block_size (vol fs) /\ (forall b, view fs' b = view fs b) /\
  (forall a, view_byte fs' a = view_byte fs a) /\ same_geometry (vol fs) (vol fs') /\
  in_transaction fs' = in_transaction fs /\ (reads_ok fs -> reads_ok fs') /\
  (forall b, client_block (vol fs') b <-> client_block (vol fs) b) /\
  (forall r, to_block (vol fs') r = to_block (vol fs) r) /\
  max_batch (vol fs') = max_batch (vol fs) /\ sectors_per_block (vol fs') = sectors_per_block (vol fs).
Proof.
  intros (A1 & A2 & A3 & c & A4).
  assert (Hv : forall b, view fs' b = view fs b).
  { intros b. unfold view. rewrite A1, A2, A3, A4. reflexivity. }
  assert (Hs : block_size (vol fs') = block_size (vol fs)) by (rewrite A4; reflexivity).
  splits; auto.
  - intros a. unfold view_byte. now rewrite Hs, Hv.
  - rewrite A4. apply with_cache_geometry.
  - unfold in_transaction. now rewrite A2, A3.
  - unfold reads_ok. rewrite A1, A4. auto.
  - intros b. rewrite A4. reflexivity.
  - intros r. rewrite A4. reflexivity.
  - rewrite A4. reflexivity.
  - rewrite A4. reflexivity.
Qed.

Lemma read_block_law live fs b r fs' :
  fs_ok live fs -> client_block (vol fs) b -> live b -> read_block fs b = (r, fs') ->
  fs_ok live fs' /\ only_cache fs fs' /\ (forall data, r = Some data -> data = view fs b) /\
  (reads_ok fs -> is_Some r).
Proof.
  intros Hok Hb Hl E. pose proof (fs_read_law live fs b r fs' Hok Hb Hl E) as (R1 & R2 & R3 & R4 & R5 & R6 & R7).
  splits; auto; [unfold only_cache; auto|]. intros Hro. revert E. unfold read_block.
  destruct (if attached fs then _ else _); [intros [= <- <-]; eauto|].
  destruct (line_valid _ && _); [intros [= <- <-]; eauto|]. unfold read_block_now.
  pose proof (fok_geo _ _ Hok) as Hg. pose proof (block_sectors _ Hg) as [_ Hs]. unfold client_block in Hb.
  rewrite (sector_u64 _ Hg b) by lia.
  destruct (Hro (b * sectors_per_block (vol fs)) (sectors_per_block (vol fs))) as [data ->]; [nia|lia|nia|].
  intros [= <- <-]. eauto.
Qed.

(** Sectors read in one request are the blocks they make up. *)
Lemma sectors_byte v d b n i :
  geometry_ok v -> 0 <= n -> 0 <= i < n * block_size v ->
  byte_at (sectors d (b * sectors_per_block v) (n * sectors_per_block v)) i =
  byte_at (disk_block v d (b + i / block_size v)) (i mod block_size v).
Proof.
  intros Hg Hn. pose proof (block_sectors v Hg) as [Hbs Hs]. revert i. pattern n.
  apply natlike_ind; [intros; lia| |exact Hn]. intros k Hk IH i Hi. rewrite Z.mul_succ_l in Hi.
  assert (E : sectors d (b * sectors_per_block v) (Z.succ k * sectors_per_block v) =
    sectors d (b * sectors_per_block v) (k * sectors_per_block v) ++ disk_block v d (b + k)).
  { unfold sectors, disk_block. replace (Z.succ k * sectors_per_block v)
      with (k * sectors_per_block v + sectors_per_block v) by lia.
    rewrite seqZ_app, map_app, concat_app by nia. unfold sectors.
    now replace (b * sectors_per_block v + k * sectors_per_block v) with ((b + k) * sectors_per_block v) by lia. }
  rewrite E, byte_at_app, zlen_sectors by nia. unfold kSectorBytes.
  replace (k * sectors_per_block v * 512) with (k * block_size v) by lia.
  destruct (Z.ltb_spec i (k * block_size v)) as [Hlt|Hge]; [apply IH; lia|].
  assert (Hd : i / block_size v = k) by (symmetry; apply (Z.div_unique_pos _ _ _ (i - k * block_size v)); lia).
  rewrite Hd. f_equal. pose proof (Z.div_mod i (block_size v)). lia.
Qed.

Lemma readable_u64 live v a n :
  geometry_ok v -> 0 <= a -> 0 < n -> readable live v a n -> a + n < 2 ^ 63.
Proof.
  intros Hg Ha Hn Hr. destruct (Hr (a + n - 1) ltac:(lia)) as [[_ Hb] _].
  pose proof (num_blocks_u48 v Hg). pose proof (block_sectors v Hg) as [Hbs Hs].
  pose proof (Z.mod_pos_bound (a + n - 1) (block_size v)). pose proof (Z.div_mod (a + n - 1) (block_size v)).
  change (2 ^ 48) with 281474976710656 in *. change (2 ^ 63) with 9223372036854775808. nia.
Qed.

Lemma readable_sub live v a n a' n' :
  readable live v a n -> a <= a' -> a' + n' <= a + n -> readable live v a' n'.
Proof. intros Hr H1 H2 x Hx. apply Hr. lia. Qed.

(** A byte of the block that holds [a]. *)
Lemma flat_byte bs a k : 0 < bs -> 0 <= a mod bs + k < bs -> (a + k) / bs = a / bs /\ (a + k) mod bs = a mod bs + k.
Proof.
  intros Hb Hk. pose proof (Z.div_mod a bs ltac:(lia)).
  split; [symmetry; apply (Z.div_unique_pos _ _ _ (a mod bs + k))|symmetry; apply (Z.mod_unique_pos _ _ (a / bs))]; lia.
Qed.

(** The chunk sizes of the two loops. *)
Lemma chunk_bounds bs byte left_ :
  0 < bs -> 0 < left_ ->
  let within := byte mod bs in
  let chunk := if left_ <? bs - within then left_ else bs - within in
  0 <= within < bs /\ 0 < chunk <= left_ /\ within + chunk <= bs.
Proof.
  intros Hb Hl within chunk. pose proof (Z.mod_pos_bound byte bs Hb). unfold chunk, within in *.
  destruct (Z.ltb_spec left_ (bs - byte mod bs)); lia.
Qed.

Lemma block_size_bounds v : geometry_ok v -> 1024 <= block_size v <= 8192.
Proof. intros Hg. destruct (block_size_cases v Hg) as [->|[->|[->| ->]]]; lia. Qed.

(** The batched read: whole blocks straight from the device. *)
Lemma batch_read live fs byte n data :
  fs_ok live fs -> in_transaction fs = false -> 0 <= byte -> 0 < n ->
  byte mod block_size (vol fs) = 0 -> readable live (vol fs) byte (n * block_size (vol fs)) ->
  read_sectors (dev fs) (byte / kSectorBytes) (n * sectors_per_block (vol fs)) = Some data ->
  zlen data = n * block_size (vol fs) /\
  forall i, 0 <= i < n * block_size (vol fs) -> byte_at data i = view_byte fs (byte + i).
Proof.
  intros Hok Ht Hb Hn Hm Hr E. pose proof (fok_geo _ _ Hok) as Hg. pose proof (block_size_bounds _ Hg) as Hbs'.
  pose proof (block_sectors _ Hg) as [Hbs Hs]. pose proof (Z.div_mod byte (block_size (vol fs)) ltac:(lia)) as Hdm.
  set (b := byte / block_size (vol fs)) in *.
  assert (Hsec : byte / kSectorBytes = b * sectors_per_block (vol fs)).
  { unfold kSectorBytes. symmetry. apply (Z.div_unique_pos _ _ _ 0); lia. }
  assert (Hb0 : 0 <= b) by (apply Z.div_pos; lia).
  rewrite Hsec in E. apply read_view in E; [|nia|nia]. subst data. split.
  - rewrite zlen_sectors by nia. unfold kSectorBytes. lia.
  - intros i Hi. rewrite sectors_byte by (auto; lia). unfold view_byte.
    rewrite (view_idle fs) by (auto; apply (fok_journal _ _ Hok)).
    replace byte with (b * block_size (vol fs)) by lia.
    rewrite Z.add_comm, (Z.add_comm _ i), Z.div_add, Z.mod_add by lia. f_equal.
Qed.

Lemma batch_range live fs byte n :
  fs_ok live fs -> 0 <= byte -> 0 < n -> byte mod block_size (vol fs) = 0 ->
  readable live (vol fs) byte (n * block_size (vol fs)) ->
  0 <= byte / kSectorBytes /\
  byte / kSectorBytes + n * sectors_per_block (vol fs) <= num_blocks_ (vol fs) * sectors_per_block (vol fs).
Proof.
  intros Hok Hb Hn Hm Hr. pose proof (fok_geo _ _ Hok) as Hg. pose proof (block_sectors _ Hg) as [Hbs Hs].
  destruct (Hr (byte + n * block_size (vol fs) - 1) ltac:(nia)) as [[_ Hl] _].
  split; [apply Z.div_pos; unfold kSectorBytes; lia|].
  pose proof (Z.div_mod byte (block_size (vol fs)) ltac:(lia)) as Hdm.
  set (b := byte / block_size (vol fs)) in *.
  assert (E1 : byte / kSectorBytes = b * sectors_per_block (vol fs))
    by (unfold kSectorBytes; symmetry; apply (Z.div_unique_pos _ _ _ 0); lia).
  assert (E2 : (byte + n * block_size (vol fs) - 1) / block_size (vol fs) = b + n - 1)
    by (symmetry; apply (Z.div_unique_pos _ _ _ (block_size (vol fs) - 1)); lia).
  rewrite E2 in Hl. rewrite E1. nia.
Qed.

(** What a read of [[byte, byte + n)] gives. *)
Definition part_read live fs (byte n : Z) (r : option bytes) fs' : Prop :=
  fs_ok live fs' /\ only_cache fs fs' /\
  (forall out, r = Some out -> zlen out = n /\ forall i, 0 <= i < n -> byte_at out i = view_byte fs (byte + i)) /\
  (reads_ok fs -> is_Some r).

(** A read is a first piece and the rest. *)
Lemma part_read_app live fs fs1 fs' byte n m first rest :
  0 < n -> only_cache fs fs1 -> zlen first = n ->
  (forall i, 0 <= i < n -> byte_at first i = view_byte fs (byte + i)) ->
  part_read live fs1 (byte + n) m rest fs' ->
  part_read live fs byte (n + m) (option_map (app first) rest) fs'.
Proof.
  intros Hn Hoc Hzf Hfirst (I1 & I2 & I3 & I4).
  destruct (only_cache_same _ _ Hoc) as (_ & _ & S3 & _ & _ & S6 & _).
  unfold part_read. splits; auto; [eauto using only_cache_trans| |].
  - destruct rest as [rest|]; [|discriminate]. intros out [= <-]. destruct (I3 rest eq_refl) as [L1 L2].
    split; [rewrite zlen_app; lia|]. intros i Hi. rewrite byte_at_app, Hzf by lia.
    destruct (Z.ltb_spec i n); [now apply Hfirst|]. rewrite L2, S3 by lia. f_equal. lia.
  - intros Hro. destruct (I4 (S6 Hro)) as [rest' ->]. eauto.
Qed.

Lemma part_read_refused live fs fs' byte n :
  fs_ok live fs' -> only_cache fs fs' -> ~ reads_ok fs -> part_read live fs byte n None fs'.
Proof. intros. unfold part_read. splits; auto; [discriminate|tauto]. Qed.

Lemma read_part_loop_spec live fuel : forall fs byte left_ r fs',
  fs_ok live fs -> 0 <= byte -> 0 <= left_ < 2 ^ 32 -> left_ <= Z.of_nat fuel ->
  readable live (vol fs) byte left_ -> read_part_loop fuel fs byte left_ = (r, fs') ->
  part_read live fs byte left_ r fs'.
Proof.
  induction fuel as [|fuel IH]; intros fs byte left_ r fs' Hok Hb Hl Hf Hr; cbn [read_part_loop];
    destruct (Z.eqb_spec left_ 0) as [->|Hne].
  1,3: intros [= <- <-]; unfold part_read; splits; auto using only_cache_refl; intros out [= <-];
       split; [reflexivity|intros; lia].
  { lia. }
  pose proof (fok_geo _ _ Hok) as Hg. pose proof (block_size_bounds _ Hg) as Hbs.
  destruct (chunk_bounds (block_size (vol fs)) byte left_ ltac:(lia) ltac:(lia)) as (Hw & Hc & Hwc).
  pose proof (readable_u64 live _ byte left_ Hg Hb ltac:(lia) Hr) as Hu.
  rewrite (u32_small (byte mod _)) by lia. set (within := byte mod block_size (vol fs)) in *.
  set (chunk := if left_ <? block_size (vol fs) - within then left_ else block_size (vol fs) - within) in *.
  assert (Hstep : forall n first fs1, only_cache fs fs1 -> fs_ok live fs1 -> 0 < n <= left_ -> zlen first = n ->
    (forall i, 0 <= i < n -> byte_at first i = view_byte fs (byte + i)) ->
    (let '(rest, fs0) := read_part_loop fuel fs1 (u64 (byte + n)) (left_ - n) in
     (option_map (app first) rest, fs0)) = (r, fs') -> part_read live fs byte left_ r fs').
  { intros n first fs1 Hoc Hok1 Hn Hzf Hfirst. rewrite u64_small by lia.
    destruct (only_cache_same _ _ Hoc) as (S1 & _ & _ & _ & _ & _ & S7 & _).
    destruct (read_part_loop fuel fs1 (byte + n) (left_ - n)) as [rest fs2] eqn:E. intros [= <- <-].
    replace left_ with (n + (left_ - n)) by lia. apply (part_read_app live fs fs1); auto; [lia|].
    apply IH; auto; try lia. intros x Hx. rewrite S1, S7. apply Hr. lia. }
  destruct (_ && negb (in_transaction fs)) eqn:Hbatch.
  - breflect. set (blocks := if max_batch (vol fs) <? _ then _ else _).
    assert (Hbl : 0 < blocks /\ blocks * block_size (vol fs) <= left_).
    { pose proof (Z.mul_div_le left_ (block_size (vol fs)) ltac:(lia)).
      assert (1 <= left_ / block_size (vol fs)) by (apply Z.div_le_lower_bound; lia).
      unfold blocks. destruct (Z.ltb_spec (max_batch (vol fs)) (left_ / block_size (vol fs))); nia. }
    pose proof (block_sectors _ Hg) as [Hbs2 Hspb].
    assert (Hsub : readable live (vol fs) byte (blocks * block_size (vol fs)))
      by (eapply readable_sub; [exact Hr|lia|lia]).
    rewrite (u32_small (blocks * sectors_per_block (vol fs))), (u32_small (blocks * block_size (vol fs))) by nia.
    destruct (read_sectors _ _ _) as [data|] eqn:E.
    + destruct (batch_read live fs byte blocks data Hok) as [B1 B2]; auto; try lia.
      apply Hstep; auto using only_cache_refl; rewrite ?slice_all by lia; auto. lia.
    + intros [= <- <-]. apply part_read_refused; auto using only_cache_refl. intros Hro.
      destruct (batch_range live fs byte blocks) as [Q1 Q2]; auto; try lia.
      destruct (Hro (byte / kSectorBytes) (blocks * sectors_per_block (vol fs))) as [? Ex]; [auto|nia|auto|congruence].
  - destruct (Hr byte ltac:(lia)) as [Hcb Hlv].
    destruct (read_block fs (byte / block_size (vol fs))) as [[data|] fs1] eqn:E;
      destruct (read_block_law live fs _ _ _ Hok Hcb Hlv E) as (R1 & R2 & R3 & R4).
    + specialize (R3 data eq_refl). subst data. apply Hstep; auto; [rewrite zlen_slice; lia|].
      intros i Hi. rewrite byte_at_slice by lia. unfold view_byte.
      destruct (flat_byte (block_size (vol fs)) byte i ltac:(lia)) as [-> ->]; [fold within; lia|reflexivity].
    + intros [= <- <-]. apply part_read_refused; auto. intros Hro. destruct (R4 Hro). discriminate.
Qed.

(** * Streams as maps into the volume *)

(** The runs of an array up to its zero run, and whether it has one. *)
Fixpoint array_runs (n : nat) (array : bytes) (at_ : Z) : list Run * bool :=
  match n with
  | O => ([], false)
  | S n =>
    let run := le_run array at_ in
    if run_is_zero run then ([], true)
    else let '(rs, stop) := array_runs n array (at_ + 8) in (run :: rs, stop)
  end.

Definition run_blocks (v : Volume) (r : Run) : list Z := seqZ (to_block v r) (run_length r).

Section addresses.
Context (v : Volume).

(** The address of the stream's byte [p]. *)
Fixpoint stream_at (rs : list Run) (p : Z) : option Z :=
  match rs with
  | [] => None
  | r :: rs =>
    if p <? run_bytes v r then Some (to_block v r * block_size v + p)
    else stream_at rs (p - run_bytes v r)
  end.
Fixpoint runs_total (rs : list Run) : Z :=
  match rs with [] => 0 | r :: rs => run_bytes v r + runs_total rs end.

Lemma runs_total_app rs rs' : runs_total (rs ++ rs') = runs_total rs + runs_total rs'.
Proof. induction rs as [|r rs IH]; simpl; lia. Qed.

Lemma stream_at_app rs rs' p :
  stream_at (rs ++ rs') p =
  match stream_at rs p with Some a => Some a | None => stream_at rs' (p - runs_total rs) end.
Proof.
  revert p. induction rs as [|r rs IH]; intros p; simpl; [f_equal; lia|].
  destruct (p <? run_bytes v r); [reflexivity|]. rewrite IH. destruct (stream_at rs _); [reflexivity|]. f_equal. lia.
Qed.

Lemma stream_at_None rs p :
  Forall (fun r => 0 <= run_bytes v r) rs -> 0 <= p -> stream_at rs p = None <-> runs_total rs <= p.
Proof.
  intros Hf. revert p. induction Hf as [|r rs Hr Hf IH]; intros p Hp; simpl; [intuition lia|].
  assert (0 <= runs_total rs) by (clear -Hf; induction Hf; simpl; lia).
  destruct (Z.ltb_spec p (run_bytes v r)); [split; [discriminate|lia]|]. rewrite IH; lia.
Qed.
Lemma stream_at_snoc rs r :
  Forall (fun r => 0 <= run_bytes v r) rs -> forall p, 0 <= p ->
  stream_at (rs ++ [r]) p =
    if p <? runs_total rs then stream_at rs p
    else if p <? runs_total rs + run_bytes v r then Some (to_block v r * block_size v + (p - runs_total rs))
    else None.
Proof.
  intros Hnn p Hp. rewrite stream_at_app. cbn [stream_at].
  destruct (stream_at rs p) as [a|] eqn:E.
  - destruct (Z.ltb_spec p (runs_total rs)) as [|Hge]; [reflexivity|].
    apply (stream_at_None rs p Hnn Hp) in Hge. congruence.
  - apply (stream_at_None rs p Hnn Hp) in E. rewrite (proj2 (Z.ltb_ge p _)) by lia.
    destruct (Z.ltb_spec (p - runs_total rs) (run_bytes v r)), (Z.ltb_spec p (runs_total rs + run_bytes v r));
      try lia; reflexivity.
Qed.
End addresses.

Section maps.
Context (m : Z -> bytes) (v : Volume).

Definition block_runs (b : Z) : list Run * bool := array_runs (Z.to_nat (block_size v / 8)) (m b) 0.

(** The runs the array blocks [bs] hold, one level down and two. *)
Definition level1 (bs : list Z) : list Run := flat_map (fun b => (block_runs b).1) bs.
Definition level2 (bs : list Z) : list Run :=
  flat_map (fun b => flat_map (fun r => level1 (run_blocks v r)) (block_runs b).1) bs.

Definition named_blocks (r : Run) : list Z := if run_is_zero r then [] else run_blocks v r.

(** A stream's data runs, in stream order, and the blocks its arrays are in. *)
Definition stream_runs (stream : bytes) : list Run :=
  (array_runs (Z.to_nat data.kDirectCount) stream data.kDirect).1 ++
  level1 (named_blocks (le_run stream data.kIndirect)) ++
  level2 (named_blocks (le_run stream data.kDoubleIndirect)).
Definition stream_arrays (stream : bytes) : list Z :=
  named_blocks (le_run stream data.kIndirect) ++
  named_blocks (le_run stream data.kDoubleIndirect) ++
  flat_map (fun b => flat_map (run_blocks v) (block_runs b).1) (named_blocks (le_run stream data.kDoubleIndirect)).

End maps.

(** A run whose blocks may be read. *)
Definition run_good (live : Z -> Prop) (v : Volume) (r : Run) : Prop :=
  run_ok r /\ Forall (fun b => client_block v b /\ live b) (run_blocks v r).

Record stream_ok (live : Z -> Prop) (m : Z -> bytes) (v : Volume) (stream : bytes) : Prop := {
  so_bytes : bytes_ok stream;
  so_arrays : Forall (fun b => client_block v b /\ live b) (stream_arrays m v stream);
  so_runs : Forall (run_good live v) (stream_runs m v stream);
  so_total : runs_total v (stream_runs m v stream) < 2 ^ 63;
}.

Lemma run_bytes_nonneg v r : geometry_ok v -> run_ok r -> 0 <= run_bytes v r.
Proof. intros Hg (_ & _ & Hl). pose proof (block_size_bounds v Hg). unfold run_bytes. nia. Qed.

Lemma run_good_readable live v r skip n :
  geometry_ok v -> run_good live v r -> 0 <= to_block v r -> 0 <= skip -> skip + n <= run_bytes v r ->
  readable live v (to_block v r * block_size v + skip) n.
Proof.
  intros Hg [Hr Hf] Hb Hs Hn x Hx. pose proof (block_size_bounds v Hg). unfold run_bytes in Hn.
  rewrite Forall_forall in Hf. apply Hf, elem_of_seqZ.
  split; [apply Z.div_le_lower_bound; lia|apply Z.div_lt_upper_bound; lia].
Qed.

Lemma to_block_nonneg v r : run_ok r -> 0 <= to_block v r.
Proof.
  intros (Hg & Hs & _). unfold to_block. apply Z.lor_nonneg. split; [|lia]. apply Z.shiftl_nonneg. lia.
Qed.

(** ** The read walks the map *)

Section reading.
Context (live : Z -> Prop) (fs0 : Fs D) (offset length : Z).
Context (Hoff : 0 <= offset) (Hlen : 0 <= length < 2 ^ 32) (Hend : offset + length < 2 ^ 63).
Notation v := (vol fs0).
Context (Hgeo : geometry_ok v).

(** Having walked the runs [rs]: the buffer holds what they map. *)
Record read_inv (rs : list Run) (pos : Z) (out : bytes) (fs : Fs D) : Prop := {
  ri_ok : fs_ok live fs;
  ri_cache : only_cache fs0 fs;
  ri_pos : pos = runs_total v rs;
  ri_len : zlen out = length;
  ri_out : forall i, 0 <= i < length -> byte_at out i =
    match stream_at v rs (offset + i) with Some a => view_byte fs0 a | None => 0 end;
}.

Definition read_to (rs : list Run) (res : option (Z * bytes) * Fs D) : Prop :=
  match res with
  | (Some (pos, out), fs) => read_inv rs pos out fs
  | (None, fs) => fs_ok live fs /\ only_cache fs0 fs /\ ~ reads_ok fs0
  end.

(** Runs that can be walked. *)
Definition walkable (rs : list Run) : Prop := Forall (run_good live v) rs /\ runs_total v rs < 2 ^ 63.

Lemma walkable_app rs rs' : walkable (rs ++ rs') -> walkable rs.
Proof.
  intros [Hf Ht]. apply Forall_app in Hf as [H1 H2]. split; [exact H1|]. rewrite runs_total_app in Ht.
  assert (0 <= runs_total v rs'); [|lia]. clear -H2 Hgeo. induction H2 as [|r rs [Hr _] Hf IH]; simpl; [lia|].
  pose proof (run_bytes_nonneg _ r Hgeo Hr). lia.
Qed.

Lemma good_nonneg rs : Forall (run_good live v) rs -> Forall (fun r => 0 <= run_bytes v r) rs.
Proof. intros Hf. eapply Forall_impl; [exact Hf|]. intros r [Hr _]. now apply run_bytes_nonneg. Qed.

Lemma read_handle_spec rs r pos out fs :
  read_inv rs pos out fs -> walkable (rs ++ [r]) ->
  match read_handle fs offset length r pos out with
  | (Some out', fs') => read_inv (rs ++ [r]) (pos + run_bytes v r) out' fs' /\ pos + run_bytes v r < 2 ^ 63
  | (None, fs') => fs_ok live fs' /\ only_cache fs0 fs' /\ ~ reads_ok fs0
  end.
Proof.
  intros [Iok Ic Ip Il Io] [Hf Ht]. pose proof (good_nonneg _ Hf) as Hnn.
  apply Forall_app in Hf as [Hf Hr]. apply Forall_app in Hnn as [Hnn _]. rewrite Forall_singleton in Hr.
  rewrite runs_total_app in Ht. simpl in Ht. rewrite Z.add_0_r, <- Ip in Ht.
  pose proof (run_bytes_nonneg _ r Hgeo (proj1 Hr)) as Hrb. pose proof (to_block_nonneg v r (proj1 Hr)) as Htb.
  assert (Hpos : 0 <= pos) by (rewrite Ip; clear -Hnn; induction Hnn; simpl; lia).
  destruct (only_cache_same _ _ Ic) as (S1 & _ & S3 & S4 & _ & S6 & S7 & S8 & _).
  unfold read_handle. replace (run_bytes (vol fs) r) with (run_bytes v r) by (unfold run_bytes; now rewrite S1).
  rewrite !u64_small by lia.
  set (lo := if pos <? offset then offset else pos).
  set (hi := if offset + length <? pos + run_bytes v r then offset + length else pos + run_bytes v r).
  assert (Hlo : lo = Z.max offset pos) by (unfold lo; destruct (Z.ltb_spec pos offset); lia).
  assert (Hhi : hi = Z.min (offset + length) (pos + run_bytes v r))
    by (unfold hi; destruct (Z.ltb_spec (offset + length) (pos + run_bytes v r)); lia).
  assert (Hat : forall p, 0 <= p -> _) by exact (stream_at_snoc v rs r Hnn). rewrite <- Ip in Hat.
  destruct (Z.leb_spec hi lo) as [Hno|Hyes].
  - split; [|lia]. split; auto; [rewrite runs_total_app; simpl; lia|].
    intros i Hi. rewrite Io, Hat by lia. destruct (Z.ltb_spec (offset + i) pos) as [|Hge]; [reflexivity|].
    rewrite (proj2 (stream_at_None v rs (offset + i) Hnn ltac:(lia))) by lia.
    now rewrite (proj2 (Z.ltb_ge _ _)) by lia.
  - assert (Hread : readable live v (to_block v r * block_size v + (lo - pos)) (hi - lo))
      by (apply run_good_readable; auto; lia).
    pose proof (block_size_bounds v Hgeo) as Hbs.
    assert (Ha : 0 <= to_block v r * block_size v + (lo - pos)) by (clearbody lo hi; nia).
    pose proof (readable_u64 live v _ (hi - lo) Hgeo Ha ltac:(lia) Hread) as Hu.
    unfold read_part. rewrite S8, S1, !(u32_small (hi - lo)), u64_small by lia.
    destruct (read_part_loop _ fs _ _) as [part fs'] eqn:E.
    assert (Hrd : part_read live fs (to_block v r * block_size v + (lo - pos)) (hi - lo) part fs').
    { apply (read_part_loop_spec live (Z.to_nat (hi - lo)) fs); auto; try lia.
      intros x Hx. rewrite S1, S7. now apply Hread. }
    destruct Hrd as (P1 & P2 & P3 & P4). destruct part as [part|].
    + destruct (P3 part eq_refl) as [L1 L2]. split; [|lia]. split; auto.
      * eauto using only_cache_trans.
      * rewrite runs_total_app. simpl. lia.
      * now rewrite zlen_blit.
      * intros i Hi. rewrite byte_at_blit, Il, L1, Hat by lia.
        destruct (Z.leb_spec (lo - offset) i), (Z.ltb_spec i (lo - offset + (hi - lo))); cbn [andb].
        -- rewrite (proj2 (Z.ltb_lt i length)), (proj2 (Z.ltb_ge (offset + i) pos)), L2, S3 by lia.
           rewrite (proj2 (Z.ltb_lt (offset + i) _)) by lia. f_equal. lia.
        -- rewrite Io by lia. rewrite (proj2 (stream_at_None v rs (offset + i) Hnn ltac:(lia))) by lia.
           now rewrite !(proj2 (Z.ltb_ge _ _)) by lia.
        -- rewrite Io by lia. now rewrite (proj2 (Z.ltb_lt (offset + i) pos)) by lia.
        -- lia.
    + splits; auto; [eauto using only_cache_trans|]. intros Hro. destruct (P4 (S6 Hro)). discriminate.
Qed.

Lemma read_runs_spec n : forall rs array at_ pos out fs,
  read_inv rs pos out fs -> walkable (rs ++ (array_runs n array at_).1) ->
  read_to (rs ++ (array_runs n array at_).1) (read_runs n fs offset length array at_ pos out).
Proof.
  induction n as [|n IH]; intros rs array at_ pos out fs Hi Hw; cbn [read_runs array_runs] in *.
  { simpl in *. now rewrite app_nil_r in *. }
  destruct (run_is_zero (le_run array at_)); [simpl in *; now rewrite app_nil_r in *|].
  specialize (IH (rs ++ [le_run array at_]) array (at_ + 8)).
  destruct (array_runs n array (at_ + 8)) as [rs' stop] eqn:Ea. simpl fst in *.
  rewrite cons_middle, app_assoc in Hw |- *.
  pose proof (read_handle_spec rs (le_run array at_) pos out fs Hi (walkable_app _ _ Hw)) as Hh.
  destruct (read_handle fs offset length (le_run array at_) pos out) as [[out'|] fs']; [|exact Hh].
  destruct Hh as [Hh Hu]. pose proof (ri_cache _ _ _ _ Hh) as Hc.
  destruct (only_cache_same _ _ Hc) as (S1 & _).
  replace (run_bytes (vol fs') (le_run array at_)) with (run_bytes v (le_run array at_))
    by (unfold run_bytes; now rewrite S1).
  rewrite u64_small; [now apply IH|]. split; [|lia].
  rewrite (ri_pos _ _ _ _ Hh). apply walkable_app in Hw as [Hw _]. apply good_nonneg in Hw.
  clear -Hw. induction Hw; simpl; lia.
Qed.

(** An array block reads as the view holds it. *)
Lemma read_array_block fs b r fs' rs pos out :
  read_inv rs pos out fs -> client_block v b -> live b -> read_block fs b = (r, fs') ->
  match r with
  | Some array => array = view fs0 b /\ read_inv rs pos out fs' /\ block_size (vol fs') = block_size v
  | None => fs_ok live fs' /\ only_cache fs0 fs' /\ ~ reads_ok fs0
  end.
Proof.
  intros [Iok Ic Ip Il Io] Hb Hl E. destruct (only_cache_same _ _ Ic) as (_ & S2 & _ & _ & _ & S6 & S7 & _).
  destruct (read_block_law live fs b r fs' Iok (proj2 (S7 b) Hb) Hl E) as (R1 & R2 & R3 & R4).
  pose proof (only_cache_trans _ _ _ Ic R2) as Hoc. destruct r as [array|].
  - splits; [rewrite (R3 array eq_refl); apply S2|now split|apply (only_cache_same _ _ Hoc)].
  - splits; auto. intros Hro. destruct (R4 (S6 Hro)). discriminate.
Qed.

Lemma read_arrays_spec n : forall rs block pos out fs,
  read_inv rs pos out fs -> Forall (fun b => client_block v b /\ live b) (seqZ block (Z.of_nat n)) ->
  walkable (rs ++ level1 (view fs0) v (seqZ block (Z.of_nat n))) ->
  read_to (rs ++ level1 (view fs0) v (seqZ block (Z.of_nat n))) (read_arrays n fs offset length block pos out).
Proof.
  induction n as [|n IH]; intros rs block pos out fs Hi Hb Hw; cbn [read_arrays].
  { simpl in *. now rewrite app_nil_r in *. }
  replace (seqZ block (Z.of_nat (S n))) with (block :: seqZ (Z.succ block) (Z.of_nat n)) in *
    by (rewrite (seqZ_cons block (Z.of_nat (S n))) by lia; do 2 f_equal; lia).
  unfold level1 in *. cbn [flat_map] in *. fold (level1 (view fs0) v (seqZ (Z.succ block) (Z.of_nat n))) in *.
  rewrite app_assoc in Hw |- *. apply Forall_cons in Hb as [[Hc Hl] Hb].
  destruct (read_block fs block) as [r fs1] eqn:E.
  pose proof (read_array_block fs block r fs1 rs pos out Hi Hc Hl E) as Hr.
  destruct r as [array|]; [|exact Hr]. destruct Hr as (-> & Hi1 & ->).
  pose proof (read_runs_spec _ rs (view fs0 block) 0 pos out fs1 Hi1 (walkable_app _ _ Hw)) as Hrr.
  fold (block_runs (view fs0) v block) in Hrr.
  destruct (read_runs _ fs1 offset length (view fs0 block) 0 pos out) as [[[pos' out']|] fs2]; [|exact Hrr].
  apply IH; auto.
Qed.

Lemma read_array_runs_spec n : forall rs array at_ pos out fs,
  read_inv rs pos out fs -> bytes_ok array -> 0 <= at_ ->
  Forall (fun b => client_block v b /\ live b) (flat_map (run_blocks v) (array_runs n array at_).1) ->
  walkable (rs ++ flat_map (fun r => level1 (view fs0) v (run_blocks v r)) (array_runs n array at_).1) ->
  read_to (rs ++ flat_map (fun r => level1 (view fs0) v (run_blocks v r)) (array_runs n array at_).1)
    (read_array_runs n fs offset length array at_ pos out).
Proof.
  induction n as [|n IH]; intros rs array at_ pos out fs Hi Hby Ha Hb Hw; cbn [read_array_runs array_runs] in *.
  { simpl in *. now rewrite app_nil_r in *. }
  destruct (run_is_zero (le_run array at_)); [simpl in *; now rewrite app_nil_r in *|].
  specialize (IH (rs ++ level1 (view fs0) v (run_blocks v (le_run array at_))) array (at_ + 8)).
  destruct (array_runs n array (at_ + 8)) as [rs' stop] eqn:Ea. simpl fst in *. cbn [flat_map] in *.
  rewrite app_assoc in Hw |- *. apply Forall_app in Hb as [Hb1 Hb2].
  pose proof (le_run_ok array at_ Hby Ha) as (_ & _ & Hl).
  destruct (only_cache_same _ _ (ri_cache _ _ _ _ Hi)) as (_ & _ & _ & _ & _ & _ & _ & S8 & _). rewrite S8.
  pose proof (read_arrays_spec (Z.to_nat (run_length (le_run array at_))) rs (to_block v (le_run array at_)) pos out fs Hi)
    as Hra. rewrite Z2Nat.id in Hra by lia. fold (run_blocks v (le_run array at_)) in Hra.
  specialize (Hra Hb1 (walkable_app _ _ Hw)).
  destruct (read_arrays _ fs _ _ _ pos out) as [[[pos' out']|] fs']; [|exact Hra].
  apply IH; auto. lia.
Qed.

Lemma read_double_spec n : forall rs block pos out fs,
  read_inv rs pos out fs -> Forall (fun b => client_block v b /\ live b) (seqZ block (Z.of_nat n)) ->
  Forall (fun b => client_block v b /\ live b)
    (flat_map (fun b => flat_map (run_blocks v) (block_runs (view fs0) v b).1) (seqZ block (Z.of_nat n))) ->
  walkable (rs ++ level2 (view fs0) v (seqZ block (Z.of_nat n))) ->
  read_to (rs ++ level2 (view fs0) v (seqZ block (Z.of_nat n))) (read_double n fs offset length block pos out).
Proof.
  induction n as [|n IH]; intros rs block pos out fs Hi Hb Hb2 Hw; cbn [read_double].
  { simpl in *. now rewrite app_nil_r in *. }
  replace (seqZ block (Z.of_nat (S n))) with (block :: seqZ (Z.succ block) (Z.of_nat n)) in *
    by (rewrite (seqZ_cons block (Z.of_nat (S n))) by lia; do 2 f_equal; lia).
  unfold level2 in *. cbn [flat_map] in *. fold (level2 (view fs0) v (seqZ (Z.succ block) (Z.of_nat n))) in *.
  rewrite app_assoc in Hw |- *. apply Forall_cons in Hb as [[Hc Hl] Hb]. apply Forall_app in Hb2 as [Hb2 Hb3].
  destruct (read_block fs block) as [r fs1] eqn:E.
  pose proof (read_array_block fs block r fs1 rs pos out Hi Hc Hl E) as Hr.
  destruct r as [array|]; [|exact Hr]. destruct Hr as (-> & Hi1 & ->).
  assert (Hby : bytes_ok (view fs0 block)).
  { destruct (only_cache_same _ _ (ri_cache _ _ _ _ Hi)) as (_ & S2 & _). rewrite <- S2.
    apply (view_len live fs block (ri_ok _ _ _ _ Hi)). }
  pose proof (read_array_runs_spec (Z.to_nat (block_size v / 8)) rs (view fs0 block) 0 pos out fs1 Hi1 Hby ltac:(lia)
    Hb2 (walkable_app _ _ Hw)) as Hrr.
  destruct (read_array_runs _ fs1 offset length (view fs0 block) 0 pos out) as [[[pos' out']|] fs2]; [|exact Hrr].
  apply IH; auto.
Qed.
End reading.

(** What a read of [[offset, offset + length)] of a stream gives. *)
Definition stream_read live fs (stream : bytes) (offset length : Z) (r : option bytes) fs' : Prop :=
  fs_ok live fs' /\ only_cache fs fs' /\
  (forall out, r = Some out -> zlen out = length /\ forall i, 0 <= i < length -> byte_at out i =
     match stream_at (vol fs) (stream_runs (view fs) (vol fs) stream) (offset + i) with
     | Some a => view_byte fs a
     | None => 0
     end) /\
  (reads_ok fs -> is_Some r).

Lemma named_arrays v r n :
  run_ok r -> n = Z.to_nat (run_length r) -> run_is_zero r = false ->
  named_blocks v r = seqZ (to_block v r) (Z.of_nat n).
Proof. intros (_ & _ & Hl) -> Hz. unfold named_blocks, run_blocks. rewrite Hz, Z2Nat.id by lia. reflexivity. Qed.

Lemma read_stream_law live fs stream offset length r fs' :
  fs_ok live fs -> stream_ok live (view fs) (vol fs) stream ->
  0 <= offset -> 0 <= length < 2 ^ 32 -> offset + length < 2 ^ 63 ->
  read_stream fs stream offset length = (r, fs') -> stream_read live fs stream offset length r fs'.
Proof.
  intros Hok [Sb Sa Sr St] Ho Hl He. pose proof (fok_geo _ _ Hok) as Hgeo. unfold read_stream.
  destruct (Z.eqb_spec length 0) as [->|Hne].
  { intros [= <- <-]. unfold stream_read. splits; eauto using only_cache_refl.
    intros out [= <-]. split; [reflexivity|lia]. }
  set (rs := stream_runs (view fs) (vol fs) stream) in *. unfold stream_runs in rs.
  assert (Hw : walkable live fs rs) by (now split). unfold rs in Hw. rewrite app_assoc in Hw.
  assert (H0i : read_inv live fs offset length [] 0 (zeros length) fs).
  { split; auto using only_cache_refl; [apply zlen_zeros; lia|]. intros i Hi. apply byte_at_zeros. }
  unfold stream_arrays in Sa. apply Forall_app in Sa as [Sa1 Sa2]. apply Forall_app in Sa2 as [Sa2 Sa3].
  assert (Hend : forall res, read_to live fs offset length rs res ->
    match res with (None, fs1) => (None, fs1) | (Some (_, out), fs1) => (Some out, fs1) end = (r, fs') ->
    stream_read live fs stream offset length r fs').
  { intros [[[pos out]|] fs1] Hres [= <- <-]; unfold stream_read.
    - destruct Hres as [R1 R2 _ R4 R5]. splits; eauto. intros ? [= <-]. auto.
    - destruct Hres as (R1 & R2 & R3). splits; auto; [discriminate|tauto]. }
  pose proof (read_runs_spec live fs offset length Ho Hl He Hgeo _ [] stream data.kDirect 0 _ fs H0i
    (walkable_app live fs Hgeo _ _ (walkable_app live fs Hgeo _ _ Hw))) as H1. rewrite app_nil_l in H1.
  set (rs1 := (array_runs (Z.to_nat data.kDirectCount) stream data.kDirect).1) in *.
  destruct (read_runs _ fs offset length stream data.kDirect 0 (zeros length)) as [[[pos out]|] fs1];
    [|intros E; apply (Hend (None, fs1)); [exact H1|exact E]].
  set (ind := le_run stream data.kIndirect) in *. set (dbl := le_run stream data.kDoubleIndirect) in *.
  assert (Hri : run_ok ind) by (apply le_run_ok; [exact Sb|unfold data.kIndirect; lia]).
  assert (Hrd : run_ok dbl) by (apply le_run_ok; [exact Sb|unfold data.kDoubleIndirect; lia]).
  assert (H2 : read_to live fs offset length (rs1 ++ level1 (view fs) (vol fs) (named_blocks (vol fs) ind))
    (if run_is_zero ind then (Some (pos, out), fs1)
     else read_arrays (Z.to_nat (run_length ind)) fs1 offset length (to_block (vol fs1) ind) pos out)).
  { destruct (run_is_zero ind) eqn:Ez.
    - unfold named_blocks. rewrite Ez. simpl. rewrite app_nil_r. exact H1.
    - rewrite (named_arrays _ ind _ Hri eq_refl Ez) in Sa1, Hw |- *.
      destruct (only_cache_same _ _ (ri_cache _ _ _ _ _ _ _ _ H1)) as (_ & _ & _ & _ & _ & _ & _ & S8 & _).
      rewrite S8. apply read_arrays_spec; auto. exact (walkable_app live fs Hgeo _ _ Hw). }
  destruct (if run_is_zero ind then _ else _) as [[[pos2 out2]|] fs2];
    [|intros E; apply (Hend (None, fs2)); [exact H2|exact E]].
  apply Hend. unfold rs. rewrite app_assoc. destruct (run_is_zero dbl) eqn:Ez.
  - unfold named_blocks at 2. rewrite Ez. simpl. rewrite app_nil_r. exact H2.
  - rewrite (named_arrays _ dbl _ Hrd eq_refl Ez) in Sa2, Sa3, Hw |- *.
    destruct (only_cache_same _ _ (ri_cache _ _ _ _ _ _ _ _ H2)) as (_ & _ & _ & _ & _ & _ & _ & S8 & _).
    rewrite S8. apply read_double_spec; auto.
Qed.
End flat.

(** ** The write changes the map's bytes *)

Section written.
Context {D : Type} `{SectorDeviceLaws D} `{!PoweredDevice D}.
Implicit Types fs : Fs D.

(** What a write leaves alone: everything but contents and cache, and, when it
    goes straight to the disk, the open transaction. *)
Definition same_shape (direct : bool) fs fs' : Prop :=
  attached fs' = attached fs /\ (exists c, vol fs' = with_cache (vol fs) c) /\
  (direct = true -> jnl fs' = jnl fs).

(** The open transaction holds no image of block [b]. *)
Definition unlogged fs (b : Z) : Prop := attached fs = true -> peek (jnl fs) b = None.

Lemma same_shape_refl direct fs : same_shape direct fs fs.
Proof. unfold same_shape. splits; auto. exists (cache_ (vol fs)). now destruct (vol fs). Qed.

Lemma same_shape_trans direct fs fs1 fs2 :
  same_shape direct fs fs1 -> same_shape direct fs1 fs2 -> same_shape direct fs fs2.
Proof.
  intros (A1 & (c & A2) & A3) (B1 & (c' & B2) & B3). unfold same_shape. splits; [congruence| |intuition congruence].
  exists c'. rewrite B2, A2. reflexivity.
Qed.

Lemma only_cache_shape direct fs fs' : only_cache fs fs' -> same_shape direct fs fs'.
Proof. intros (A1 & A2 & A3 & A4). unfold same_shape. splits; auto. Qed.

Lemma same_shape_facts direct fs fs' :
  same_shape direct fs fs' ->
  block_size (vol fs') = block_size (vol fs) /\ (forall b, client_block (vol fs') b <-> client_block (vol fs) b) /\
  (forall r, to_block (vol fs') r = to_block (vol fs) r) /\
  (forall b, direct = true -> unlogged fs b -> unlogged fs' b) /\
  (forall r, run_bytes (vol fs') r = run_bytes (vol fs) r).
Proof.
  intros (A1 & (c & A2) & A3). rewrite A2. splits; auto. intros b Hd. unfold unlogged.
  now rewrite A1, (A3 Hd).
Qed.

Lemma up_write_now fs b data :
  bs_up fs -> client_block (vol fs) b -> exists fs', write_block_now fs b data = (true, fs') /\ bs_up fs'.
Proof.
  intros (Hg & Hw & Ht & cap & Hp & Hc) Hb. simpl in *. unfold client_block in Hb.
  pose proof (block_sectors _ Hg) as [_ Hs]. unfold write_block_now. simpl. rewrite Hw. simpl.
  change (sectors_per_block (invalidate (vol fs))) with (sectors_per_block (vol fs)).
  rewrite (sector_u64 _ Hg b) by lia.
  destruct (powered_write (dev fs) cap (b * sectors_per_block (vol fs)) data (sectors_per_block (vol fs)))
    as (d' & -> & Hp'); [auto|nia|lia|nia|].
  eexists. split; [reflexivity|]. simpl. splits; eauto. destruct Hg; now split.
Qed.

Lemma put_data_law live fs direct b data ok fs' :
  fs_ok live fs -> client_block (vol fs) b -> bytes_ok data -> zlen data = block_size (vol fs) ->
  (direct = true -> unlogged fs b) -> put_data fs direct b data = (ok, fs') ->
  fs_ok live fs' /\ same_shape direct fs fs' /\
  (forall c, client_block (vol fs) c -> c <> b -> view fs' c = view fs c) /\
  (ok = true -> view fs' b = data) /\ (bs_up fs -> ok = true /\ bs_up fs').
Proof.
  intros Hok Hb Hd Hl Hu. destruct direct; simpl.
  - intros E. assert (Hup : bs_up fs -> ok = true /\ bs_up fs').
    { intros Hup. destruct (up_write_now fs b data Hup Hb) as (fs2 & E2 & Hup2). rewrite E in E2.
      injection E2 as -> <-. auto. }
    apply (fs_write_now_law live) in E as (W1 & W2 & W3 & W4 & W5 & W6 & W7); auto; [|lia].
    splits; auto.
    + unfold same_shape. splits; auto. rewrite W2. eexists. reflexivity.
    + intros c [Hc _] Hne. unfold view. rewrite W3, W4. destruct (if attached fs then _ else _); [reflexivity|].
      apply W5; lia.
    + intros Ht. unfold view. rewrite W3, W4.
      replace (if attached fs then peek (jnl fs) b else None) with (@None bytes)
        by (destruct (attached fs) eqn:Ea; [now rewrite (Hu eq_refl Ea)|reflexivity]).
      rewrite W7 by auto. now apply slice_all.
  - intros E. assert (Hup : bs_up fs -> ok = true /\ bs_up fs').
    { intros Hup. destruct (up_write fs b data Hup Hb) as (fs2 & E2 & Hup2). simpl in E2. rewrite E in E2.
      injection E2 as -> <-. auto. }
    apply (fs_write_law live) in E as (W1 & W2 & W3 & W4 & W5 & W6 & W7); auto; [|lia].
    splits; auto.
    + unfold same_shape. splits; auto; [|discriminate]. rewrite W2. eexists. reflexivity.
    + intros Ht. rewrite W7 by auto. now apply slice_all.
Qed.

(** What a write of [n] bytes of [src] at [byte] does. *)
Definition part_written live fs direct (byte n : Z) (src : bytes) (ok : bool) fs' : Prop :=
  fs_ok live fs' /\ same_shape direct fs fs' /\
  (forall b, client_block (vol fs) b -> (forall x, byte <= x < byte + n -> x / block_size (vol fs) <> b) ->
     view fs' b = view fs b) /\
  (ok = true -> forall a, client_block (vol fs) (a / block_size (vol fs)) ->
     view_byte fs' a = if (byte <=? a) && (a <? byte + n) then byte_at src (a - byte) else view_byte fs a) /\
  (bs_up fs -> ok = true /\ bs_up fs').

(** One block of a write, whole or patched. *)
Definition put_chunk fs direct (byte : Z) (src : bytes) (within chunk : Z) : bool * Fs D :=
  let bs := block_size (vol fs) in
  if (within =? 0) && (chunk =? bs) then put_data fs direct (byte / bs) (slice src 0 bs)
  else
    match read_block fs (byte / bs) with
    | (None, fs) => (false, fs)
    | (Some data, fs) => put_data fs direct (byte / bs) (blit data within (slice src 0 chunk))
    end.

Lemma put_chunk_spec live fs direct byte src chunk ok fs' :
  fs_ok live fs -> bytes_ok src -> 0 <= byte -> 0 < chunk ->
  byte mod block_size (vol fs) + chunk <= block_size (vol fs) -> chunk <= zlen src ->
  client_block (vol fs) (byte / block_size (vol fs)) -> live (byte / block_size (vol fs)) ->
  (direct = true -> unlogged fs (byte / block_size (vol fs))) ->
  put_chunk fs direct byte src (byte mod block_size (vol fs)) chunk = (ok, fs') ->
  part_written live fs direct byte chunk src ok fs'.
Proof.
  intros Hok Hsb Hb Hc Hfit Hsrc Hcb Hlv Hu. pose proof (fok_geo _ _ Hok) as Hg.
  pose proof (block_size_bounds _ Hg) as Hbs. pose proof (Z.mod_pos_bound byte (block_size (vol fs)) ltac:(lia)) as Hm.
  set (bs := block_size (vol fs)) in *. set (b := byte / bs) in *. set (within := byte mod bs) in *.
  assert (Hput : forall fs1 img, fs_ok live fs1 -> only_cache fs fs1 -> bytes_ok img -> zlen img = bs ->
    (forall k, 0 <= k < bs -> byte_at img k =
       if (within <=? k) && (k <? within + chunk) then byte_at src (k - within) else byte_at (view fs b) k) ->
    (bs_up fs -> bs_up fs1) ->
    put_data fs1 direct b img = (ok, fs') -> part_written live fs direct byte chunk src ok fs').
  { intros fs1 img Hok1 Hoc Hib Hil Himg Hup1 E. pose proof (only_cache_shape direct _ _ Hoc) as Hsh.
    destruct (same_shape_facts _ _ _ Hsh) as (S1 & S2 & _ & S4 & _).
    destruct (only_cache_same _ _ Hoc) as (_ & V2 & _).
    destruct (put_data_law live fs1 direct b img ok fs') as (P1 & P2 & P3 & P4 & P5); auto;
      [now apply S2|now rewrite S1|].
    destruct (same_shape_facts _ _ _ P2) as (T1 & _). rewrite S1 in T1. fold bs in T1.
    assert (Hother : forall c, client_block (vol fs) c -> c <> b -> view fs' c = view fs c)
      by (intros c Hcc Hne; rewrite P3 by (auto; now apply S2); apply V2).
    unfold part_written. splits; auto.
    - eauto using same_shape_trans.
    - intros c Hcc Hx. apply Hother; auto. intros ->. apply (Hx byte); [lia|reflexivity].
    - intros Hok' a Ha. unfold view_byte. rewrite T1. fold bs.
      destruct (Z.eq_dec (a / bs) b) as [Eb|Nb].
      + rewrite Eb, P4 by auto. rewrite Himg by (apply Z.mod_pos_bound; lia).
        pose proof (Z.div_mod a bs ltac:(lia)). pose proof (Z.div_mod byte bs ltac:(lia)) as Hdm. fold b within in Hdm.
        rewrite Eb in *.
        destruct (Z.leb_spec within (a mod bs)), (Z.leb_spec byte a); cbn [andb]; try lia.
        destruct (Z.ltb_spec (a mod bs) (within + chunk)), (Z.ltb_spec a (byte + chunk)); try lia. f_equal. lia.
      + rewrite Hother by auto. destruct (Z.leb_spec byte a), (Z.ltb_spec a (byte + chunk)); cbn [andb]; try reflexivity.
        exfalso. apply Nb. destruct (flat_byte bs byte (a - byte) ltac:(lia)) as [Q _]; [fold within; lia|].
        replace (byte + (a - byte)) with a in Q by lia. exact Q. }
  unfold put_chunk. fold bs. fold b. destruct ((within =? 0) && (chunk =? bs)) eqn:Ew.
  - breflect. apply Hput; auto using only_cache_refl with buf; [now rewrite zlen_slice by lia|].
    intros k Hk. rewrite byte_at_slice by lia. destruct (Z.leb_spec within k), (Z.ltb_spec k (within + chunk)); try lia.
    cbn [andb]. f_equal. lia.
  - destruct (read_block fs b) as [[data|] fs1] eqn:E;
      destruct (read_block_law live fs b _ _ Hok Hcb Hlv E) as (R1 & R2 & R3 & R4).
    + specialize (R3 data eq_refl). subst data. destruct (view_len live fs b Hok) as [Vl Vb].
      assert (Hup1 : bs_up fs -> bs_up fs1).
      { intros Hup. destruct (up_read fs b Hup Hcb) as (data2 & fs2 & E2 & Hup2). simpl in E2. rewrite E in E2.
        now injection E2 as _ <-. }
      apply Hput; auto with buf; [apply bytes_ok_blit; auto with buf; lia|rewrite zlen_blit; exact Vl|].
      intros k Hk. rewrite byte_at_blit, zlen_slice, Vl by lia. fold bs. rewrite (proj2 (Z.ltb_lt k bs)), andb_true_r by lia.
      destruct (Z.leb_spec within k), (Z.ltb_spec k (within + chunk)); cbn [andb]; try reflexivity.
      rewrite byte_at_slice by lia. f_equal.
    + intros [= <- <-]. unfold part_written. splits; auto using only_cache_shape; [|discriminate|].
      * intros c _ _. apply (only_cache_same _ _ R2).
      * intros Hup. destruct (up_read fs b Hup Hcb) as (data2 & fs2 & E2 & _). simpl in E2. congruence.
Qed.

(** A write is a first piece and the rest. *)
Lemma part_written_app live fs fs1 fs' direct byte n m src ok :
  0 < n -> 0 <= m ->
  part_written live fs direct byte n src true fs1 ->
  part_written live fs1 direct (byte + n) m (drop (Z.to_nat n) src) ok fs' ->
  part_written live fs direct byte (n + m) src ok fs'.
Proof.
  intros Hn Hm (A1 & A2 & A3 & A4 & A5) (B1 & B2 & B3 & B4 & B5).
  destruct (same_shape_facts _ _ _ A2) as (S1 & S2 & _). unfold part_written. splits; eauto using same_shape_trans.
  - intros b Hb Hx. rewrite B3, A3; auto; [intros; apply Hx; lia|now apply S2|]. intros x. rewrite S1. intros. apply Hx. lia.
  - intros Hok a Ha. rewrite B4 by (auto; rewrite ?S1; now apply S2).
    rewrite (A4 eq_refl) by auto.
    destruct (Z.leb_spec (byte + n) a), (Z.ltb_spec a (byte + n + m)), (Z.leb_spec byte a), (Z.ltb_spec a (byte + n)),
      (Z.ltb_spec a (byte + (n + m))); cbn [andb]; try lia; try reflexivity.
    rewrite byte_at_drop by lia. f_equal. lia.
  - intros Hup. destruct (A5 Hup) as [_ Hup1]. now apply B5.
Qed.

Lemma write_part_loop_spec live fuel : forall fs byte src left_ direct ok fs',
  fs_ok live fs -> bytes_ok src -> 0 <= byte -> 0 <= left_ -> left_ <= Z.of_nat fuel -> left_ <= zlen src ->
  readable live (vol fs) byte left_ ->
  (direct = true -> forall x, byte <= x < byte + left_ -> unlogged fs (x / block_size (vol fs))) ->
  write_part_loop fuel fs byte src left_ direct = (ok, fs') ->
  part_written live fs direct byte left_ src ok fs'.
Proof.
  induction fuel as [|fuel IH]; intros fs byte src left_ direct ok fs' Hok Hsb Hb Hl Hf Hs Hr Hu;
    cbn [write_part_loop]; destruct (Z.eqb_spec left_ 0) as [->|Hne].
  1,3: intros [= <- <-]; unfold part_written; splits; auto using same_shape_refl; intros _ a _;
       destruct (Z.leb_spec byte a), (Z.ltb_spec a (byte + 0)); cbn [andb]; try lia; reflexivity.
  { lia. }
  pose proof (fok_geo _ _ Hok) as Hg. pose proof (block_size_bounds _ Hg) as Hbs.
  destruct (chunk_bounds (block_size (vol fs)) byte left_ ltac:(lia) ltac:(lia)) as (Hw & Hc & Hwc).
  pose proof (readable_u64 live _ byte left_ Hg Hb ltac:(lia) Hr) as Hu64.
  rewrite (u32_small (byte mod _)) by lia. rewrite u64_small by lia.
  set (chunk := if left_ <? _ then left_ else _) in *.
  change (if _ && _ then put_data fs direct _ _ else _)
    with (put_chunk fs direct byte src (byte mod block_size (vol fs)) chunk).
  destruct (put_chunk _ _ _ _ _ _) as [ok1 fs1] eqn:E. destruct (Hr byte ltac:(lia)) as [Hcb Hlv].
  apply (put_chunk_spec live) in E; auto; try lia; [|intros Hd; apply Hu; auto; lia].
  destruct ok1; cbn [negb].
  - pose proof E as (A1 & A2 & _). destruct (same_shape_facts _ _ _ A2) as (S1 & S2 & _ & S4 & _).
    intros E2. replace left_ with (chunk + (left_ - chunk)) by lia.
    apply (part_written_app live fs fs1); auto; try lia. apply IH; auto; try lia.
    + now apply Forall_drop.
    + unfold zlen in *. rewrite length_drop. lia.
    + intros x Hx. rewrite S1, S2. apply Hr. lia.
    + intros Hd x Hx. rewrite S1. apply S4; auto. apply Hu; auto. lia.
  - intros [= <- <-]. destruct E as (A1 & A2 & A3 & A4 & A5). unfold part_written. splits; auto.
    + intros b Hbc Hx. apply A3; auto. intros x Hx'. apply Hx. lia.
    + discriminate.
Qed.

(** The runs a write reaches: unlike a read, it ends at the first zero run, of
    whatever array. *)
Section walks.
Context (m : Z -> bytes) (v : Volume).

Fixpoint walk {A} (f : A -> list Run * bool) (l : list A) : list Run * bool :=
  match l with
  | [] => ([], false)
  | x :: l =>
    let '(rs, stop) := f x in
    if stop then (rs, true) else let '(rs', stop) := walk f l in (rs ++ rs', stop)
  end.

Definition walk1 (bs : list Z) : list Run * bool := walk (block_runs m v) bs.
(** The array runs [ars] of one double-indirect block, then its zero run. *)
Definition walk_runs (ars : list Run * bool) : list Run * bool :=
  let '(rs, stop) := walk (fun r => walk1 (run_blocks v r)) ars.1 in (rs, stop || ars.2).
Definition walk2 (bs : list Z) : list Run * bool := walk (fun b => walk_runs (block_runs m v b)) bs.

Definition stream_walk (stream : bytes) : list Run * bool :=
  let '(rs1, stop) := array_runs (Z.to_nat data.kDirectCount) stream data.kDirect in
  if stop then (rs1, true)
  else
    let '(rs2, stop) := walk1 (named_blocks v (le_run stream data.kIndirect)) in
    if stop then (rs1 ++ rs2, true)
    else
      let '(rs3, stop) := walk2 (named_blocks v (le_run stream data.kDoubleIndirect)) in
      (rs1 ++ rs2 ++ rs3, stop).

Definition written_runs (stream : bytes) : list Run := (stream_walk stream).1.

Lemma walk_prefix {A} (f : A -> list Run * bool) (g : A -> list Run) l :
  (forall x, exists rest, g x = (f x).1 ++ rest /\ ((f x).2 = false -> rest = [])) ->
  exists rest, flat_map g l = (walk f l).1 ++ rest /\ ((walk f l).2 = false -> rest = []).
Proof.
  intros Hf. induction l as [|x l (rest & IH & IHs)]; [exists []; auto|]. cbn [flat_map walk].
  destruct (Hf x) as (r & -> & Hr). destruct (f x) as [rs stop]; simpl in *. destruct stop; simpl.
  - rewrite <- app_assoc. eexists. split; [reflexivity|discriminate].
  - rewrite (Hr eq_refl), app_nil_r, IH. destruct (walk f l) as [rs' stop']; simpl in *.
    exists rest. now rewrite app_assoc.
Qed.

Lemma walk1_prefix bs : exists rest, level1 m v bs = (walk1 bs).1 ++ rest /\ ((walk1 bs).2 = false -> rest = []).
Proof. apply walk_prefix. intros b. exists []. now rewrite app_nil_r. Qed.

Lemma walk2_prefix bs : exists rest, level2 m v bs = (walk2 bs).1 ++ rest /\ ((walk2 bs).2 = false -> rest = []).
Proof.
  apply walk_prefix. intros b. unfold walk_runs.
  destruct (walk_prefix (fun r => walk1 (run_blocks v r)) (fun r => level1 m v (run_blocks v r)) (block_runs m v b).1)
    as (rest & -> & Hs); [intros r; apply walk1_prefix|].
  destruct (walk _ (block_runs m v b).1) as [rs stop]; simpl in *. exists rest. split; [reflexivity|].
  intros E. apply orb_false_iff in E as [E _]. auto.
Qed.

(** A write reaches a prefix of what a read does. *)
Lemma written_prefix stream : exists rest, stream_runs m v stream = written_runs stream ++ rest.
Proof.
  unfold stream_runs, written_runs, stream_walk.
  destruct (array_runs _ stream _) as [rs1 s1]; simpl. destruct s1; [eexists; reflexivity|].
  destruct (walk1_prefix (named_blocks v (le_run stream data.kIndirect))) as (rest1 & -> & E1).
  destruct (walk1 _) as [rs2 s2]; simpl in *. destruct s2; [exists (rest1 ++ level2 m v (named_blocks v (le_run stream data.kDoubleIndirect))); now rewrite !app_assoc|].
  rewrite (E1 eq_refl), app_nil_r.
  destruct (walk2_prefix (named_blocks v (le_run stream data.kDoubleIndirect))) as (rest2 & -> & _).
  destruct (walk2 _) as [rs3 s3]; simpl. exists rest2. now rewrite !app_assoc.
Qed.
End walks.

(** The blocks of the stream's data. *)
Definition data_blocks (v : Volume) (rs : list Run) : list Z := flat_map (run_blocks v) rs.

Lemma stream_at_block v rs p a :
  geometry_ok v -> Forall run_ok rs -> 0 <= p -> stream_at v rs p = Some a ->
  0 <= a /\ a / block_size v ∈ data_blocks v rs.
Proof.
  intros Hg Hf. revert p. induction Hf as [|r rs Hr Hf IH]; intros p Hp; cbn [stream_at]; [discriminate|].
  pose proof (block_size_bounds v Hg). pose proof (to_block_nonneg v r Hr).
  unfold data_blocks in *. cbn [flat_map]. rewrite elem_of_app. destruct (Z.ltb_spec p (run_bytes v r)) as [Hlt|Hge].
  - intros [= <-]. unfold run_bytes in Hlt. split; [nia|]. left. apply elem_of_seqZ.
    split; [apply Z.div_le_lower_bound; lia|apply Z.div_lt_upper_bound; lia].
  - intros E. destruct (IH (p - run_bytes v r)) as [I1 I2]; auto. lia.
Qed.

Section writing.
Context (live : Z -> Prop) (fs0 : Fs D) (offset : Z) (src : bytes) (direct : bool) (all : list Run).
Notation v := (vol fs0).
Notation length := (zlen src).
Context (Hoff : 0 <= offset) (Hlen : length < 2 ^ 32) (Hend : offset + length < 2 ^ 63).
Context (Hgeo : geometry_ok v) (Hsrc : bytes_ok src).
Context (Hall : Forall (run_good live v) all) (Htotal : runs_total v all < 2 ^ 63).
Context (Hdistinct : NoDup (data_blocks v all)).
Context (Hunlogged : direct = true -> Forall (unlogged fs0) (data_blocks v all)).

(** Having walked the runs [rs]: the part of the range they map is written. *)
Record write_inv (rs : list Run) (pos cursor left_ : Z) (fs : Fs D) : Prop := {
  wi_ok : fs_ok live fs;
  wi_shape : same_shape direct fs0 fs;
  wi_pos : pos = runs_total v rs;
  wi_cursor : cursor = Z.max offset (Z.min pos (offset + length));
  wi_left : left_ = offset + length - cursor;
  wi_blocks : forall b, client_block v b -> b ∉ data_blocks v all -> view fs b = view fs0 b;
  wi_wrote : forall p a, offset <= p < offset + length -> stream_at v rs p = Some a ->
    view_byte fs a = byte_at src (p - offset);
  wi_kept : forall a, client_block v (a / block_size v) ->
    (forall p, offset <= p < offset + length -> stream_at v rs p <> Some a) -> view_byte fs a = view_byte fs0 a;
  wi_up : bs_up fs0 -> bs_up fs;
}.

(** What is left of a write the store refused. *)
Definition refused (fs : Fs D) : Prop :=
  fs_ok live fs /\ same_shape direct fs0 fs /\
  (forall b, client_block v b -> b ∉ data_blocks v all -> view fs b = view fs0 b) /\ ~ bs_up fs0.

Definition write_to (rs : list Run) (stop : bool) (res : flow * Fs D) : Prop :=
  match res with
  | (Go pos cursor left_, fs) => stop = false /\ write_inv rs pos cursor left_ fs
  | (Stop ok, fs) =>
    (stop = true /\ exists pos cursor left_, write_inv rs pos cursor left_ fs /\ ok = (left_ =? 0)) \/
    (ok = false /\ refused fs)
  end.

Lemma all_run rs r rest :
  all = rs ++ r :: rest ->
  run_good live v r /\ 0 <= run_bytes v r /\ Forall (fun r => 0 <= run_bytes v r) rs /\ Forall run_ok rs /\
  0 <= runs_total v rs /\ runs_total v rs + run_bytes v r < 2 ^ 63 /\
  (forall b, b ∈ run_blocks v r -> b ∈ data_blocks v all /\ b ∉ data_blocks v rs).
Proof.
  intros E. rewrite E in Hall, Htotal, Hdistinct. apply Forall_app in Hall as [H1 H2]. apply Forall_cons in H2 as [Hr H3].
  pose proof (good_nonneg live fs0 Hgeo rs H1) as Hn1. pose proof (good_nonneg live fs0 Hgeo rest H3) as Hn2.
  assert (Htn : forall l, Forall (fun r => 0 <= run_bytes v r) l -> 0 <= runs_total v l)
    by (intros l Hl; clear -Hl; induction Hl; simpl; lia).
  rewrite runs_total_app in Htotal. simpl in Htotal. pose proof (Htn rs Hn1). pose proof (Htn rest Hn2).
  splits; auto; [apply run_bytes_nonneg; [exact Hgeo|apply Hr]|eapply Forall_impl; [exact H1|]; now intros ? []|lia|].
  intros b Hb. unfold data_blocks in *. rewrite flat_map_app in Hdistinct. cbn [flat_map] in Hdistinct.
  apply NoDup_app in Hdistinct as (_ & Hd & _). split.
  - rewrite E, flat_map_app. cbn [flat_map]. rewrite !elem_of_app. auto.
  - intros Hin. apply (Hd b Hin). rewrite elem_of_app. auto.
Qed.

(** A run the range does not reach is passed. *)
Lemma write_inv_skip rs r rest pos cursor left_ fs :
  all = rs ++ r :: rest -> write_inv rs pos cursor left_ fs ->
  Z.min (offset + length) (pos + run_bytes v r) <= Z.max cursor pos ->
  write_inv (rs ++ [r]) (pos + run_bytes v r) cursor left_ fs.
Proof.
  intros Ha [Iok Ish Ip Ic Il Ib Iw Ik Iu] Hno.
  destruct (all_run rs r rest Ha) as (_ & Hrb & Hnn & _ & Htn & _). rewrite <- Ip in Htn.
  assert (Hat : forall p, 0 <= p -> _) by exact (stream_at_snoc v rs r Hnn). rewrite <- Ip in Hat. pose proof (zlen_nonneg src) as Hln.
  split; auto; try lia.
  - rewrite runs_total_app. simpl. lia.
  - intros p a Hp. rewrite Hat by lia. destruct (Z.ltb_spec p pos); [now apply Iw|].
    destruct (Z.ltb_spec p (pos + run_bytes v r)); [lia|discriminate].
  - intros a Hc Hx. apply Ik; auto. intros p Hp E. apply (Hx p Hp). rewrite Hat by lia.
    destruct (Z.ltb_spec p pos); [exact E|]. rewrite (proj2 (stream_at_None v rs p Hnn ltac:(lia))) in E by lia. discriminate.
Qed.

(** The bytes from [lo] to [hi] of the stream are in the run. *)
Lemma run_holds r pos lo hi x :
  run_good live v r -> pos <= lo -> hi <= pos + run_bytes v r ->
  to_block v r * block_size v + (lo - pos) <= x < to_block v r * block_size v + (lo - pos) + (hi - lo) ->
  x / block_size v ∈ run_blocks v r.
Proof.
  intros Hr Hlo Hhi Hx. pose proof (block_size_bounds v Hgeo) as Hbs. pose proof (to_block_nonneg v r (proj1 Hr)) as Htb.
  apply elem_of_seqZ. unfold run_bytes in Hhi. split; [apply Z.div_le_lower_bound; nia|apply Z.div_lt_upper_bound; nia].
Qed.

(** A block of the runs' data is one clients may use. *)
Lemma data_client rs b : Forall (run_good live v) rs -> b ∈ data_blocks v rs -> client_block v b.
Proof.
  intros Hg Hb. unfold data_blocks in Hb. apply list_elem_of_In, in_flat_map in Hb as (r' & Hr' & Hb).
  rewrite Forall_forall in Hg. destruct (Hg r' (proj2 (list_elem_of_In _ _) Hr')) as [_ Hf].
  rewrite Forall_forall in Hf. apply Hf. now apply list_elem_of_In.
Qed.

(** The part of the range in a run, written. *)
Lemma write_inv_step rs r rest pos cursor left_ fs lo hi ok fs' :
  all = rs ++ r :: rest -> write_inv rs pos cursor left_ fs ->
  lo = Z.max cursor pos -> hi = Z.min (offset + length) (pos + run_bytes v r) -> lo < hi ->
  part_written live fs direct (to_block v r * block_size v + (lo - pos)) (hi - lo) (drop (Z.to_nat (lo - offset)) src) ok fs' ->
  if ok then write_inv (rs ++ [r]) (pos + run_bytes v r) hi (left_ - (hi - lo)) fs' else refused fs'.
Proof.
  intros Ha [Iok Ish Ip Ic Il Ib Iw Ik Iu] Hlo Hhi Hyes (P1 & P2 & P3 & P4 & P5).
  destruct (all_run rs r rest Ha) as (Hr & Hrb & Hnn & Hro & Htn & Htt & Hdis). rewrite <- Ip in Htn, Htt.
  destruct (same_shape_facts _ _ _ Ish) as (S1 & S2 & S3 & S4 & S5). rewrite S1 in P3, P4.
  assert (Hat : forall p, 0 <= p -> _) by exact (stream_at_snoc v rs r Hnn). rewrite <- Ip in Hat. pose proof (zlen_nonneg src) as Hln.
  assert (Hinr : forall x, _) by exact (fun x => run_holds r pos lo hi x Hr ltac:(lia) ltac:(lia)).
  assert (Hblocks : forall b, client_block v b -> b ∉ data_blocks v all -> view fs' b = view fs0 b).
  { intros b Hb Hn. rewrite P3; [now apply Ib|now apply S2|]. intros x Hx <-. apply Hn, Hdis. auto. }
  destruct ok.
  2:{ split; auto. splits; eauto using same_shape_trans. intros Hup. destruct (P5 (Iu Hup)). discriminate. }
  specialize (P4 eq_refl). split; auto; try lia; eauto using same_shape_trans.
  - rewrite runs_total_app. simpl. lia.
  - intros p a Hp. rewrite Hat by lia. destruct (Z.ltb_spec p pos) as [Hlt|Hge].
    + intros Ea. destruct (stream_at_block v rs p a Hgeo Hro ltac:(lia) Ea) as [Ha0 Hab].
      rewrite Ha in Hall. apply Forall_app in Hall as [Hg _]. rewrite P4 by (apply S2; now apply (data_client rs)).
      destruct ((_ <=? a) && (a <? _)) eqn:Er; [|now apply Iw]. breflect. exfalso.
      destruct (Hdis (a / block_size v)) as [_ Hn]; [apply Hinr; lia|auto].
    + destruct (Z.ltb_spec p (pos + run_bytes v r)); [|discriminate]. intros [= <-].
      rewrite P4 by (apply S2, (proj1 (Forall_forall _ _) (proj2 Hr)), Hinr; lia).
      rewrite (proj2 (Z.leb_le _ _)), (proj2 (Z.ltb_lt _ _)) by lia. cbn [andb]. rewrite byte_at_drop by lia. f_equal. lia.
  - intros a Hc Hx. rewrite P4 by now apply S2. destruct ((_ <=? a) && (a <? _)) eqn:Er.
    + breflect. exfalso. apply (Hx (a - to_block v r * block_size v + pos)); [lia|]. rewrite Hat by lia.
      rewrite (proj2 (Z.ltb_ge _ pos)), (proj2 (Z.ltb_lt _ (pos + _))) by lia. f_equal. lia.
    + apply Ik; auto. intros p Hp Ea. apply (Hx p Hp). rewrite Hat by lia.
      destruct (Z.ltb_spec p pos); [exact Ea|]. rewrite (proj2 (stream_at_None v rs p Hnn ltac:(lia))) in Ea by lia. discriminate.
  - intros Hup. now apply P5, Iu.
Qed.

Lemma write_handle_spec rs r rest pos cursor left_ fs :
  all = rs ++ r :: rest -> write_inv rs pos cursor left_ fs ->
  match write_handle fs offset src direct r pos cursor left_ with
  | (true, cursor', left', fs') => write_inv (rs ++ [r]) (pos + run_bytes v r) cursor' left' fs' /\ 0 <= pos + run_bytes v r < 2 ^ 63
  | (false, _, _, fs') => refused fs'
  end.
Proof.
  intros Ha Hi. pose proof Hi as [Iok Ish Ip Ic Il _ _ _ _].
  destruct (all_run rs r rest Ha) as (Hr & Hrb & Hnn & Hro & Htn & Htt & Hdis). rewrite <- Ip in Htn, Htt.
  destruct (same_shape_facts _ _ _ Ish) as (S1 & S2 & S3 & S4 & S5).
  pose proof (to_block_nonneg v r (proj1 Hr)) as Htb. pose proof (block_size_bounds v Hgeo) as Hbs. pose proof (zlen_nonneg src) as Hln.
  unfold write_handle. rewrite S5, !u64_small by lia.
  set (lo := if pos <? cursor then cursor else pos).
  set (hi := if cursor + left_ <? pos + run_bytes v r then cursor + left_ else pos + run_bytes v r).
  assert (Hlo : lo = Z.max cursor pos) by (unfold lo; destruct (Z.ltb_spec pos cursor); lia).
  assert (Hhi : hi = Z.min (offset + length) (pos + run_bytes v r))
    by (unfold hi; destruct (Z.ltb_spec (cursor + left_) (pos + run_bytes v r)); lia).
  clearbody lo hi. destruct (Z.leb_spec hi lo) as [Hno|Hyes]; [split; [apply (write_inv_skip rs r rest); auto; lia|lia]|].
  assert (Hread : readable live v (to_block v r * block_size v + (lo - pos)) (hi - lo))
    by (apply run_good_readable; auto; lia).
  assert (Haddr : 0 <= to_block v r * block_size v + (lo - pos)) by nia.
  pose proof (readable_u64 live v _ (hi - lo) Hgeo Haddr ltac:(lia) Hread) as Hu.
  unfold write_part. rewrite S3, S1, !(u32_small (hi - lo)), u64_small by lia.
  destruct (write_part_loop _ fs _ _ _ _) as [ok fs'] eqn:E.
  assert (Hpw : part_written live fs direct (to_block v r * block_size v + (lo - pos)) (hi - lo)
    (drop (Z.to_nat (lo - offset)) src) ok fs').
  { apply (write_part_loop_spec live (Z.to_nat (hi - lo))); auto; try lia.
    - now apply Forall_drop.
    - unfold zlen in *. rewrite length_drop. lia.
    - intros x Hx. rewrite S1, S2. now apply Hread.
    - intros Hd x Hx. rewrite S1. apply S4; auto. specialize (Hunlogged Hd). rewrite Forall_forall in Hunlogged.
      apply Hunlogged, Hdis. apply (run_holds r pos lo hi x Hr); lia. }
  pose proof (write_inv_step rs r rest pos cursor left_ fs lo hi ok fs' Ha Hi Hlo Hhi Hyes Hpw) as Hres.
  destruct ok; [|exact Hres]. rewrite (u32_small (left_ - (hi - lo))) by lia. split; [exact Hres|lia].
Qed.

Lemma write_runs_spec n : forall rs array at_ rest pos cursor left_ fs,
  all = rs ++ (array_runs n array at_).1 ++ rest -> write_inv rs pos cursor left_ fs ->
  write_to (rs ++ (array_runs n array at_).1) (array_runs n array at_).2
    (write_runs offset src direct n fs array at_ pos cursor left_).
Proof.
  induction n as [|n IH]; intros rs array at_ rest pos cursor left_ fs Ha Hi; cbn [write_runs array_runs] in *.
  { simpl. now rewrite app_nil_r. }
  destruct (run_is_zero (le_run array at_)); [simpl; rewrite app_nil_r; left; eauto 10|].
  specialize (IH (rs ++ [le_run array at_]) array (at_ + 8) rest).
  destruct (array_runs n array (at_ + 8)) as [rs' stop]. simpl fst in *. simpl snd in *.
  rewrite <- (app_assoc rs) in IH. simpl in Ha, IH |- *.
  pose proof (write_handle_spec rs (le_run array at_) (rs' ++ rest) pos cursor left_ fs Ha Hi) as Hh.
  destruct (write_handle fs offset src direct (le_run array at_) pos cursor left_) as [[[[|] cursor'] left'] fs'].
  - destruct Hh as [Hh Hu]. destruct (same_shape_facts _ _ _ (wi_shape _ _ _ _ _ Hh)) as (_ & _ & _ & _ & S5).
    rewrite S5, u64_small by lia. rewrite cons_middle, app_assoc. now apply IH.
  - right. auto.
Qed.

(** The arrays are not part of the data. *)
Context (arrays : list Z).
Context (Harrays : Forall (fun b => client_block v b /\ live b) arrays).
Context (Happart : forall b, b ∈ arrays -> b ∉ data_blocks v all).

Lemma write_array_block fs b r fs' rs pos cursor left_ :
  write_inv rs pos cursor left_ fs -> b ∈ arrays -> read_block fs b = (r, fs') ->
  match r with
  | Some array => array = view fs0 b /\ write_inv rs pos cursor left_ fs' /\ block_size (vol fs') = block_size v
  | None => refused fs'
  end.
Proof.
  intros [Iok Ish Ip Ic Il Ib Iw Ik Iu] Hb E. rewrite Forall_forall in Harrays. destruct (Harrays b Hb) as [Hc Hl].
  destruct (same_shape_facts _ _ _ Ish) as (S1 & S2 & _).
  destruct (read_block_law live fs b r fs' Iok (proj2 (S2 b) Hc) Hl E) as (R1 & R2 & R3 & R4).
  destruct (only_cache_same _ _ R2) as (V1 & V2 & V3 & _).
  pose proof (same_shape_trans _ _ _ _ Ish (only_cache_shape direct _ _ R2)) as Hsh.
  destruct r as [array|].
  - splits; [rewrite (R3 array eq_refl); apply Ib; auto| |congruence].
    split; auto; [intros; rewrite V2; auto|intros; rewrite V3; eauto|intros; rewrite V3; auto|].
    intros Hup. destruct (up_read fs b (Iu Hup) (proj2 (S2 b) Hc)) as (d2 & fs2 & E2 & Hup2). simpl in E2.
    rewrite E in E2. now injection E2 as _ <-.
  - split; auto. splits; auto; [intros; rewrite V2; auto|].
    intros Hup. destruct (up_read fs b (Iu Hup) (proj2 (S2 b) Hc)) as (d2 & fs2 & E2 & _). simpl in E2. congruence.
Qed.

Lemma write_arrays_spec n : forall rs block rest pos cursor left_ fs,
  (forall b, b ∈ seqZ block (Z.of_nat n) -> b ∈ arrays) ->
  all = rs ++ (walk1 (view fs0) v (seqZ block (Z.of_nat n))).1 ++ rest -> write_inv rs pos cursor left_ fs ->
  write_to (rs ++ (walk1 (view fs0) v (seqZ block (Z.of_nat n))).1) (walk1 (view fs0) v (seqZ block (Z.of_nat n))).2
    (write_arrays offset src direct n fs block pos cursor left_).
Proof.
  induction n as [|n IH]; intros rs block rest pos cursor left_ fs Hin Ha Hi; cbn [write_arrays].
  { simpl. now rewrite app_nil_r. }
  replace (seqZ block (Z.of_nat (S n))) with (block :: seqZ (Z.succ block) (Z.of_nat n)) in *
    by (rewrite (seqZ_cons block (Z.of_nat (S n))) by lia; do 2 f_equal; lia).
  unfold walk1 in *. cbn [walk] in *. specialize (IH (rs ++ (block_runs (view fs0) v block).1) (Z.succ block) rest).
  destruct (read_block fs block) as [r fs1] eqn:E.
  pose proof (write_array_block fs block r fs1 rs pos cursor left_ Hi (Hin block ltac:(now left)) E) as Hr.
  destruct r as [array|]; [|right; auto]. destruct Hr as (-> & Hi1 & ->).
  destruct (block_runs (view fs0) v block) as [rs1 stop] eqn:Eb. simpl fst in *.
  assert (Hx : exists rest1, all = rs ++ rs1 ++ rest1).
  { destruct stop; [eauto|]. destruct (walk _ _) as [rs2 s2]. simpl in Ha. rewrite <- app_assoc in Ha. eauto. }
  destruct Hx as [rest1 Hx]. unfold block_runs in Eb.
  pose proof (write_runs_spec (Z.to_nat (block_size v / 8)) rs (view fs0 block) 0 rest1 pos cursor left_ fs1) as Hw.
  rewrite Eb in Hw. specialize (Hw Hx Hi1). simpl fst in Hw. simpl snd in Hw.
  destruct (write_runs _ _ _ _ fs1 (view fs0 block) 0 pos cursor left_) as [[ok|pos' cursor' left'] fs2].
  - destruct Hw as [[-> Hw]|Hw]; [left; auto|right; auto].
  - destruct Hw as [-> Hw]. destruct (walk _ (seqZ (Z.succ block) (Z.of_nat n))) as [rs2 s2] eqn:Ew. simpl fst in *. simpl snd in *.
    rewrite app_assoc. apply IH; auto; [intros b Hb; apply Hin; now right|].
    rewrite Ha. now rewrite !app_assoc.
Qed.

Lemma write_array_runs_spec n : forall rs array at_ rest pos cursor left_ fs,
  bytes_ok array -> 0 <= at_ ->
  (forall b, b ∈ flat_map (run_blocks v) (array_runs n array at_).1 -> b ∈ arrays) ->
  all = rs ++ (walk_runs (view fs0) v (array_runs n array at_)).1 ++ rest -> write_inv rs pos cursor left_ fs ->
  write_to (rs ++ (walk_runs (view fs0) v (array_runs n array at_)).1) (walk_runs (view fs0) v (array_runs n array at_)).2
    (write_array_runs offset src direct n fs array at_ pos cursor left_).
Proof.
  induction n as [|n IH]; intros rs array at_ rest pos cursor left_ fs Hby Hat Hin Ha Hi; cbn [write_array_runs array_runs] in *.
  { simpl. now rewrite app_nil_r. }
  destruct (run_is_zero (le_run array at_)); [simpl; rewrite app_nil_r; left; eauto 10|].
  pose proof (le_run_ok array at_ Hby Hat) as (_ & _ & Hl). set (run := le_run array at_) in *.
  specialize (IH (rs ++ (walk1 (view fs0) v (run_blocks v run)).1) array (at_ + 8) rest).
  destruct (array_runs n array (at_ + 8)) as [ars stop]. unfold walk_runs in *. simpl fst in *. simpl snd in *. cbn [walk] in *.
  destruct (same_shape_facts _ _ _ (wi_shape _ _ _ _ _ Hi)) as (_ & _ & S3 & _). rewrite S3.
  pose proof (write_arrays_spec (Z.to_nat (run_length run)) rs (to_block v run)) as Hw.
  rewrite Z2Nat.id in Hw by lia. fold (run_blocks v run) in Hw.
  destruct (walk1 (view fs0) v (run_blocks v run)) as [rs1 s1]. simpl fst in *. simpl snd in *.
  assert (Hx : exists rest1, all = rs ++ rs1 ++ rest1).
  { destruct s1; [eauto|]. destruct (walk _ ars) as [rs2 s2]. simpl in Ha. rewrite <- app_assoc in Ha. eauto. }
  destruct Hx as [rest1 Hx].
  specialize (Hw rest1 pos cursor left_ fs ltac:(intros b Hb; apply Hin; cbn [flat_map]; rewrite elem_of_app; auto) Hx Hi).
  destruct (write_arrays _ _ _ _ fs _ pos cursor left_) as [[ok|pos' cursor' left'] fs2].
  - destruct Hw as [[-> Hw]|Hw]; [left; auto|right; auto].
  - destruct Hw as [-> Hw]. destruct (walk _ ars) as [rs2 s2] eqn:Ew. simpl fst in *. simpl snd in *.
    rewrite app_assoc. apply IH; auto; [lia|intros b Hb; apply Hin; cbn [flat_map]; rewrite elem_of_app; auto|].
    rewrite Ha. now rewrite !app_assoc.
Qed.

Lemma write_double_spec n : forall rs block rest pos cursor left_ fs,
  (forall b, b ∈ seqZ block (Z.of_nat n) -> b ∈ arrays) ->
  (forall b, b ∈ flat_map (fun b => flat_map (run_blocks v) (block_runs (view fs0) v b).1) (seqZ block (Z.of_nat n)) -> b ∈ arrays) ->
  (forall b, bytes_ok (view fs0 b)) ->
  all = rs ++ (walk2 (view fs0) v (seqZ block (Z.of_nat n))).1 ++ rest -> write_inv rs pos cursor left_ fs ->
  write_to (rs ++ (walk2 (view fs0) v (seqZ block (Z.of_nat n))).1) (walk2 (view fs0) v (seqZ block (Z.of_nat n))).2
    (write_double offset src direct n fs block pos cursor left_).
Proof.
  induction n as [|n IH]; intros rs block rest pos cursor left_ fs Hin Hin2 Hby Ha Hi; cbn [write_double].
  { simpl. now rewrite app_nil_r. }
  replace (seqZ block (Z.of_nat (S n))) with (block :: seqZ (Z.succ block) (Z.of_nat n)) in *
    by (rewrite (seqZ_cons block (Z.of_nat (S n))) by lia; do 2 f_equal; lia).
  unfold walk2 in *. cbn [walk] in *.
  specialize (IH (rs ++ (walk_runs (view fs0) v (block_runs (view fs0) v block)).1) (Z.succ block) rest).
  destruct (read_block fs block) as [r fs1] eqn:E.
  pose proof (write_array_block fs block r fs1 rs pos cursor left_ Hi (Hin block ltac:(now left)) E) as Hr.
  destruct r as [array|]; [|right; auto]. destruct Hr as (-> & Hi1 & ->).
  pose proof (write_array_runs_spec (Z.to_nat (block_size v / 8)) rs (view fs0 block) 0) as Hw.
  fold (block_runs (view fs0) v block) in Hw.
  destruct (walk_runs (view fs0) v (block_runs (view fs0) v block)) as [rs1 stop]. simpl fst in *. simpl snd in *.
  assert (Hx : exists rest1, all = rs ++ rs1 ++ rest1).
  { destruct stop; [eauto|]. destruct (walk _ _) as [rs2 s2]. simpl in Ha. rewrite <- app_assoc in Ha. eauto. }
  destruct Hx as [rest1 Hx].
  specialize (Hw rest1 pos cursor left_ fs1 (Hby block) ltac:(lia)
    ltac:(intros b Hb; apply Hin2; cbn [flat_map]; rewrite elem_of_app; auto) Hx Hi1).
  destruct (write_array_runs _ _ _ _ fs1 (view fs0 block) 0 pos cursor left_) as [[ok|pos' cursor' left'] fs2].
  - destruct Hw as [[-> Hw]|Hw]; [left; auto|right; auto].
  - destruct Hw as [-> Hw]. destruct (walk _ (seqZ (Z.succ block) (Z.of_nat n))) as [rs2 s2] eqn:Ew. simpl fst in *. simpl snd in *.
    rewrite app_assoc. apply IH; auto; [intros b Hb; apply Hin; now right| |].
    + intros b Hb. apply Hin2. cbn [flat_map]. rewrite elem_of_app. auto.
    + rewrite Ha. now rewrite !app_assoc.
Qed.

(** The arrays a run names, if it names any. *)
Lemma write_named_arrays r rs rest pos cursor left_ fs (found := walk1 (view fs0) v (named_blocks v r)) :
  run_ok r -> (forall b, b ∈ named_blocks v r -> b ∈ arrays) -> all = rs ++ found.1 ++ rest -> write_inv rs pos cursor left_ fs ->
  write_to (rs ++ found.1) found.2
    (if run_is_zero r then (Go pos cursor left_, fs)
     else write_arrays offset src direct (Z.to_nat (run_length r)) fs (to_block (vol fs) r) pos cursor left_).
Proof.
  intros Hr Hin Ha Hi. subst found. destruct (run_is_zero r) eqn:Ez.
  - unfold named_blocks in *. rewrite Ez in *. cbn. rewrite app_nil_r. auto.
  - rewrite (named_arrays _ r _ Hr eq_refl Ez) in *.
    destruct (same_shape_facts _ _ _ (wi_shape _ _ _ _ _ Hi)) as (_ & _ & -> & _). now apply (write_arrays_spec _ rs _ rest).
Qed.

Lemma write_named_double r rs rest pos cursor left_ fs (found := walk2 (view fs0) v (named_blocks v r)) :
  run_ok r -> (forall b, b ∈ named_blocks v r -> b ∈ arrays) ->
  (forall b, b ∈ flat_map (fun b => flat_map (run_blocks v) (block_runs (view fs0) v b).1) (named_blocks v r) -> b ∈ arrays) ->
  (forall b, bytes_ok (view fs0 b)) -> all = rs ++ found.1 ++ rest -> write_inv rs pos cursor left_ fs ->
  write_to (rs ++ found.1) found.2
    (if run_is_zero r then (Go pos cursor left_, fs)
     else write_double offset src direct (Z.to_nat (run_length r)) fs (to_block (vol fs) r) pos cursor left_).
Proof.
  intros Hr Hin Hin2 Hby Ha Hi. subst found. destruct (run_is_zero r) eqn:Ez.
  - unfold named_blocks in *. rewrite Ez in *. cbn. rewrite app_nil_r. auto.
  - rewrite (named_arrays _ r _ Hr eq_refl Ez) in *.
    destruct (same_shape_facts _ _ _ (wi_shape _ _ _ _ _ Hi)) as (_ & _ & -> & _). now apply (write_double_spec _ rs _ rest).
Qed.
End writing.

(** A stream a write may go to: its runs can be read, no block of its data is
    named twice or holds one of its arrays, and, for a write straight to the
    disk, none has an image in the open transaction. *)
Record stream_writable live fs (direct : bool) (stream : bytes) : Prop := {
  sw_ok : stream_ok live (view fs) (vol fs) stream;
  sw_distinct : NoDup (data_blocks (vol fs) (written_runs (view fs) (vol fs) stream));
  sw_apart : forall b, b ∈ stream_arrays (view fs) (vol fs) stream ->
    b ∉ data_blocks (vol fs) (written_runs (view fs) (vol fs) stream);
  sw_unlogged : direct = true ->
    Forall (unlogged fs) (data_blocks (vol fs) (written_runs (view fs) (vol fs) stream));
}.

(** What a write of [src] at [offset] does to the volume. *)
Definition stream_written live fs direct (stream : bytes) (offset : Z) (src : bytes) (ok : bool) fs' : Prop :=
  let rs := written_runs (view fs) (vol fs) stream in
  fs_ok live fs' /\ same_shape direct fs fs' /\
  (forall b, client_block (vol fs) b -> b ∉ data_blocks (vol fs) rs -> view fs' b = view fs b) /\
  (ok = true -> offset + zlen src <= runs_total (vol fs) rs /\
     (forall p, offset <= p < offset + zlen src ->
        exists a, stream_at (vol fs) rs p = Some a /\ view_byte fs' a = byte_at src (p - offset)) /\
     (forall a, client_block (vol fs) (a / block_size (vol fs)) ->
        (forall p, offset <= p < offset + zlen src -> stream_at (vol fs) rs p <> Some a) ->
        view_byte fs' a = view_byte fs a)) /\
  (bs_up fs -> ok = (offset + zlen src <=? runs_total (vol fs) rs)).

Lemma write_to_written live fs direct stream offset src stop res ok fs' :
  geometry_ok (vol fs) -> 0 <= offset -> 0 < zlen src ->
  Forall (run_good live (vol fs)) (written_runs (view fs) (vol fs) stream) ->
  write_to live fs offset src direct (written_runs (view fs) (vol fs) stream)
    (written_runs (view fs) (vol fs) stream) stop res ->
  match res with (Stop ok, fs') => (ok, fs') | (Go _ _ left_, fs') => (left_ =? 0, fs') end = (ok, fs') ->
  stream_written live fs direct stream offset src ok fs'.
Proof.
  intros Hg Ho Hl Hf Hres E. set (rs := written_runs _ _ _) in *.
  assert (Hdone : forall pos cursor left_, write_inv live fs offset src direct rs rs pos cursor left_ fs' -> ok = (left_ =? 0) ->
    stream_written live fs direct stream offset src ok fs').
  { intros pos cursor left_ [Iok Ish Ip Ic Il Ib Iw Ik Iu] Eo. unfold stream_written. fold rs.
    assert (Hcov : ok = (offset + zlen src <=? runs_total (vol fs) rs)).
    { rewrite Eo. apply eq_true_iff_eq. rewrite Z.eqb_eq, Z.leb_le. lia. }
    splits; auto. intros Ht. rewrite Hcov, Z.leb_le in Ht. splits; auto. intros p Hp.
    destruct (stream_at (vol fs) rs p) as [a|] eqn:Ea; [exists a; eauto|].
    apply (stream_at_None _ rs p (good_nonneg live fs Hg rs Hf)) in Ea; lia. }
  destruct res as [[ok1|pos cursor left_] fs1]; injection E as <- <-.
  - destruct Hres as [[_ (pos & cursor & left_ & Hi & ->)]|[-> (F1 & F2 & F3 & F4)]]; [eauto|].
    unfold stream_written. fold rs. splits; auto; [discriminate|tauto].
  - destruct Hres as [_ Hi]. eauto.
Qed.

Lemma write_stream_law live fs direct stream offset src ok fs' :
  fs_ok live fs -> stream_writable live fs direct stream -> bytes_ok src ->
  0 <= offset -> 0 < zlen src < 2 ^ 32 -> offset + zlen src < 2 ^ 63 ->
  write_stream_impl fs stream offset src (zlen src) direct = (ok, fs') ->
  stream_written live fs direct stream offset src ok fs'.
Proof.
  intros Hok [[Sb Sa Sr St] Sd Sx Su] Hsb Ho Hl He. pose proof (fok_geo _ _ Hok) as Hgeo.
  unfold write_stream_impl. rewrite (proj2 (Z.eqb_neq _ 0)) by lia.
  destruct (written_prefix (view fs) (vol fs) stream) as [rest Hpre].
  set (all := written_runs (view fs) (vol fs) stream) in *. rewrite Hpre in Sr, St.
  assert (Hwalk : walkable live fs (all ++ rest)) by now split.
  apply (walkable_app live fs Hgeo) in Hwalk as [Hall Htotal].
  assert (Hby : forall b, bytes_ok (view fs b)) by (intros b; apply (view_len live fs b Hok)).
  assert (Hi0 : write_inv live fs offset src direct all [] 0 offset (zlen src) fs).
  { split; auto using same_shape_refl; try lia; try reflexivity. discriminate. }
  assert (Hfin : forall stop res, write_to live fs offset src direct all all stop res ->
    match res with (Stop ok, fs') => (ok, fs') | (Go _ _ left_, fs') => (left_ =? 0, fs') end = (ok, fs') ->
    stream_written live fs direct stream offset src ok fs')
    by (intros stop res; apply write_to_written; auto; lia).
  assert (Hstop : forall rs stop ok1 fs1, write_to live fs offset src direct all rs stop (Stop ok1, fs1) ->
    (stop = true -> all = rs) -> (ok1, fs1) = (ok, fs') -> stream_written live fs direct stream offset src ok fs').
  { intros rs stop ok1 fs1 Hw Hs E. apply (Hfin stop (Stop ok1, fs1)); [|exact E].
    destruct Hw as [[-> Hw]|Hw]; [left; rewrite <- (Hs eq_refl) in Hw; auto|right; auto]. }
  set (ind := le_run stream data.kIndirect) in *. set (dbl := le_run stream data.kDoubleIndirect) in *.
  assert (Hri : run_ok ind) by (apply le_run_ok; [exact Sb|unfold data.kIndirect; lia]).
  assert (Hrd : run_ok dbl) by (apply le_run_ok; [exact Sb|unfold data.kDoubleIndirect; lia]).
  pose proof (write_runs_spec live fs offset src direct all Ho ltac:(lia) He Hgeo Hsb Hall Htotal Sd Su
    (Z.to_nat data.kDirectCount) [] stream data.kDirect) as H1.
  pose proof (write_named_arrays live fs offset src direct all Ho ltac:(lia) He Hgeo Hsb Hall Htotal Sd Su _ Sa Sx ind) as H2.
  pose proof (write_named_double live fs offset src direct all Ho ltac:(lia) He Hgeo Hsb Hall Htotal Sd Su _ Sa Sx dbl) as H3.
  assert (Ea : all = (stream_walk (view fs) (vol fs) stream).1) by reflexivity. clearbody all.
  unfold stream_walk in Ea. fold ind dbl in Ea.
  destruct (array_runs (Z.to_nat data.kDirectCount) stream data.kDirect) as [rs1 s1]. cbn [fst snd app] in H1.
  destruct (walk1 (view fs) (vol fs) (named_blocks (vol fs) ind)) as [rs2 s2].
  destruct (walk2 (view fs) (vol fs) (named_blocks (vol fs) dbl)) as [rs3 s3]. cbn [fst snd] in H2, H3.
  assert (Hx1 : exists rest1, all = rs1 ++ rest1).
  { destruct s1; [exists []; now rewrite app_nil_r|]. destruct s2; simpl in Ea; eauto. }
  destruct Hx1 as [rest1 Hx1]. specialize (H1 rest1 0 offset (zlen src) fs Hx1 Hi0).
  destruct (write_runs _ _ _ _ fs stream data.kDirect 0 offset (zlen src)) as [[ok1|pos cursor left_] fs1].
  { apply (Hstop rs1 s1 ok1 fs1 H1). intros ->. exact Ea. }
  destruct H1 as [-> H1]. simpl in Ea.
  assert (Hx2 : exists rest2, all = rs1 ++ rs2 ++ rest2).
  { destruct s2; simpl in Ea; [exists []; now rewrite app_nil_r|eauto]. }
  destruct Hx2 as [rest2 Hx2].
  specialize (H2 rs1 rest2 pos cursor left_ fs1 Hri ltac:(intros b Hb; apply elem_of_app; auto) Hx2 H1).
  destruct (if run_is_zero ind then _ else _) as [[ok2|pos2 cursor2 left2] fs2].
  { apply (Hstop (rs1 ++ rs2) s2 ok2 fs2 H2). intros ->. exact Ea. }
  destruct H2 as [-> H2]. simpl in Ea.
  specialize (H3 (rs1 ++ rs2) [] pos2 cursor2 left2 fs2 Hrd ltac:(intros b Hb; unfold stream_arrays; rewrite !elem_of_app; auto)
    ltac:(intros b Hb; unfold stream_arrays; rewrite !elem_of_app; auto) Hby ltac:(now rewrite app_nil_r, <- app_assoc) H2).
  rewrite <- app_assoc, <- Ea in H3. exact (Hfin s3 _ H3).
Qed.

Lemma flat_map_eq {A B} (f g : A -> list B) l : (forall x, x ∈ l -> f x = g x) -> flat_map f l = flat_map g l.
Proof.
  induction l as [|x l IH]; intros Hx; [reflexivity|]. cbn [flat_map].
  rewrite Hx by now left. rewrite IH; [reflexivity|]. intros y Hy. apply Hx. now right.
Qed.

(** A stream's runs depend on its array blocks alone. *)
Lemma stream_runs_ext m m' v stream :
  (forall b, b ∈ stream_arrays m v stream -> m' b = m b) ->
  stream_runs m' v stream = stream_runs m v stream /\ stream_arrays m' v stream = stream_arrays m v stream.
Proof.
  unfold stream_arrays. intros Hm.
  set (bi := named_blocks v (le_run stream data.kIndirect)) in *.
  set (bd := named_blocks v (le_run stream data.kDoubleIndirect)) in *.
  assert (Hb : forall b, m' b = m b -> block_runs m' v b = block_runs m v b) by (intros b E; unfold block_runs; now rewrite E).
  assert (Hbd : forall b, b ∈ bd -> block_runs m' v b = block_runs m v b)
    by (intros b Hin; apply Hb, Hm; rewrite !elem_of_app; auto).
  split.
  - unfold stream_runs, level1, level2. f_equal. f_equal.
    + apply flat_map_eq. intros b Hin. rewrite Hb; [reflexivity|]. apply Hm. rewrite elem_of_app. auto.
    + apply flat_map_eq. intros b Hin. rewrite (Hbd b Hin). apply flat_map_eq. intros r Hr.
      apply flat_map_eq. intros c Hc. rewrite Hb; [reflexivity|]. apply Hm. rewrite !elem_of_app. right. right.
      apply list_elem_of_In, in_flat_map. exists b. split; [now apply list_elem_of_In|].
      apply in_flat_map. exists r. split; now apply list_elem_of_In.
  - f_equal. f_equal. apply flat_map_eq. intros b Hin. now rewrite (Hbd b Hin).
Qed.

(** After a write the stream is still one, and its map is the same. *)
Lemma stream_kept live fs direct stream offset src ok fs' :
  fs_ok live fs -> stream_writable live fs direct stream ->
  stream_written live fs direct stream offset src ok fs' ->
  stream_ok live (view fs') (vol fs') stream /\
  (forall p, stream_at (vol fs') (stream_runs (view fs') (vol fs') stream) p =
             stream_at (vol fs) (stream_runs (view fs) (vol fs) stream) p).
Proof.
  intros Hok [[Sb Sa Sr St] _ Sx _] (W1 & (W2 & (c & W3) & W4) & W5 & _).
  destruct (stream_runs_ext (view fs) (view fs') (vol fs) stream) as [E1 E2].
  { intros b Hb. rewrite Forall_forall in Sa. apply W5; [now apply Sa|now apply Sx]. }
  rewrite W3. change (stream_runs (view fs') (with_cache (vol fs) c) stream) with (stream_runs (view fs') (vol fs) stream).
  split; [|intros p; now rewrite E1].
  split; auto.
  - change (stream_arrays (view fs') (with_cache (vol fs) c) stream) with (stream_arrays (view fs') (vol fs) stream).
    rewrite E2. exact Sa.
  - change (stream_runs (view fs') (with_cache (vol fs) c) stream) with (stream_runs (view fs') (vol fs) stream).
    rewrite E1. exact Sr.
  - change (stream_runs (view fs') (with_cache (vol fs) c) stream) with (stream_runs (view fs') (vol fs) stream).
    rewrite E1. exact St.
Qed.
End written.

(** * Theorems *)

(** C35: Reading a stream.  For a stream whose runs and arrays lie in blocks that
    may be read, [read_stream] returns the bytes the stream maps the range to,
    and zeros where it maps nothing; it changes nothing but the cache, and on a
    device that answers every read it is not refused.  Batched and single-block
    reads, the cache and the open transaction's images are all covered. *)
Theorem read_stream_spec {D} `{SectorDeviceLaws D} (live : Z -> Prop) (fs fs' : Fs D) (stream : bytes)
    (offset length : Z) (r : option bytes) :
  fs_ok live fs -> stream_ok live (view fs) (vol fs) stream ->
  0 <= offset -> 0 <= length < 2 ^ 32 -> offset + length < 2 ^ 63 ->
  read_stream fs stream offset length = (r, fs') -> stream_read live fs stream offset length r fs'.
Proof. apply read_stream_law. Qed.

(** Writing a stream.  On success the whole range is mapped and holds the
    bytes given, and every other byte of the volume, inside the stream's blocks
    too, is as it was; whatever happens, blocks that are not the stream's data
    are untouched.  Outside a transaction, on a working device, it succeeds
    exactly when the stream's runs cover the range. *)
Theorem write_stream_spec {D} `{SectorDeviceLaws D} `{!PoweredDevice D} (live : Z -> Prop) (fs fs' : Fs D)
    (direct : bool) (stream : bytes) (offset : Z) (src : bytes) (ok : bool) :
  fs_ok live fs -> stream_writable live fs direct stream -> bytes_ok src ->
  0 <= offset -> 0 < zlen src < 2 ^ 32 -> offset + zlen src < 2 ^ 63 ->
  write_stream_impl fs stream offset src (zlen src) direct = (ok, fs') ->
  stream_written live fs direct stream offset src ok fs'.
Proof. apply write_stream_law. Qed.

(** C36: What was written reads back: after a write that succeeded, journalled or
    straight to the disk, a read of the same range that is not refused returns
    the bytes written, and a device that answers every read does not refuse it. *)
Theorem stream_roundtrip {D} `{SectorDeviceLaws D} `{!PoweredDevice D} (live : Z -> Prop) (fs fs1 fs2 : Fs D)
    (direct : bool) (stream : bytes) (offset : Z) (src : bytes) (r : option bytes) :
  fs_ok live fs -> stream_writable live fs direct stream -> bytes_ok src ->
  0 <= offset -> 0 < zlen src < 2 ^ 32 -> offset + zlen src < 2 ^ 63 ->
  write_stream_impl fs stream offset src (zlen src) direct = (true, fs1) ->
  read_stream fs1 stream offset (zlen src) = (r, fs2) ->
  (forall out, r = Some out -> out = src) /\ (reads_ok fs1 -> r = Some src).
Proof.
  intros Hok Hsw Hb Ho Hl He Hw Hr. apply (write_stream_law live) in Hw; auto.
  destruct (stream_kept live fs direct stream offset src true fs1 Hok Hsw Hw) as [Hso Hat].
  destruct Hw as (W1 & _ & _ & W4 & _). destruct (W4 eq_refl) as (_ & Hwrote & _).
  apply (read_stream_law live) in Hr as (_ & _ & R3 & R4); auto; [|lia].
  assert (Hout : forall out, r = Some out -> out = src).
  { intros out Er. destruct (R3 out Er) as [Hzl Hby]. apply bytes_ext; [exact Hzl|].
    intros i Hi. rewrite Hzl in Hi. rewrite Hby, Hat by lia.
    destruct (Hwrote (offset + i) ltac:(lia)) as (a & Ea & Hv).
    destruct (written_prefix (view fs) (vol fs) stream) as [rest ->].
    rewrite stream_at_app, Ea, Hv. f_equal. lia. }
  split; [exact Hout|]. intros Hro. destruct (R4 Hro) as [out Er]. now rewrite (Hout out Er) in Er.
Qed.

(** A read of a range the stream does not have is not refused: reading a
    stream with no runs returns zeros, at any offset, on any device. *)
Theorem read_past_end {D} `{SectorDevice D} (fs : Fs D) (offset length : Z) :
  1 <= length -> read_stream fs (zeros data.kBytes) offset length = (Some (zeros length), fs).
Proof.
  intros Hl. unfold read_stream. rewrite (proj2 (Z.eqb_neq length 0)) by lia. reflexivity.
Qed.

(** ** On a concrete volume *)

(** A working device answers every read. *)
Lemma powered_reads {D} `{SectorDeviceLaws D} `{!PoweredDevice D} (fs : Fs D) cap :
  powered (dev fs) cap -> num_blocks_ (vol fs) * sectors_per_block (vol fs) <= cap -> reads_ok fs.
Proof. intros Hp Hc s n Hs Hn He. destruct (powered_read (dev fs) cap s n) as [out ->]; eauto. lia. Qed.

Module SampleStream.
(** Two runs of one block each, out of order on the disk. *)
Definition stream : bytes := put_run (put_run (zeros data.kBytes) 0 (mkRun 0 14 1)) 8 (mkRun 0 12 1).
Definition src : bytes := replicate 100 7.

Lemma sample_runs : stream_runs (view sample_fs) (vol sample_fs) stream = [mkRun 0 14 1; mkRun 0 12 1].
Proof. vm_compute. reflexivity. Qed.
Lemma sample_written : written_runs (view sample_fs) (vol sample_fs) stream = [mkRun 0 14 1; mkRun 0 12 1].
Proof. vm_compute. reflexivity. Qed.
Lemma sample_arrays : stream_arrays (view sample_fs) (vol sample_fs) stream = [].
Proof. vm_compute. reflexivity. Qed.
Lemma sample_blocks : data_blocks (vol sample_fs) [mkRun 0 14 1; mkRun 0 12 1] = [14; 12].
Proof. vm_compute. reflexivity. Qed.

Lemma sample_stream_ok : stream_ok (fun _ => True) (view sample_fs) (vol sample_fs) stream.
Proof.
  split.
  - apply bytes_okb_true. vm_compute. reflexivity.
  - rewrite sample_arrays. constructor.
  - rewrite sample_runs. repeat constructor; vm_compute; congruence.
  - rewrite sample_runs. vm_compute. reflexivity.
Qed.

Lemma sample_writable direct : stream_writable (fun _ => True) sample_fs direct stream.
Proof.
  split; [exact sample_stream_ok|..]; rewrite ?sample_written, ?sample_blocks.
  - repeat constructor; rewrite ?elem_of_cons, ?elem_of_nil; intuition lia.
  - rewrite sample_arrays. intros b Hb. now apply elem_of_nil in Hb.
  - intros _. repeat constructor; vm_compute; reflexivity.
Qed.

Lemma src_ok : bytes_ok src.
Proof. apply bytes_okb_true. vm_compute. reflexivity. Qed.
End SampleStream.

Lemma read_stream_spec_witness :
  exists fs', read_stream sample_fs SampleStream.stream 1000 2000 = (Some (zeros 2000), fs') /\ only_cache sample_fs fs'.
Proof.
  destruct (read_stream sample_fs SampleStream.stream 1000 2000) as [r fs'] eqn:E.
  pose proof (read_stream_spec _ sample_fs fs' SampleStream.stream 1000 2000 r sample_fs_ok SampleStream.sample_stream_ok
    ltac:(lia) ltac:(lia) ltac:(lia) E) as (_ & Hc & _). exists fs'. split; [|exact Hc]. f_equal.
  apply (f_equal fst) in E. cbn [fst] in E. rewrite <- E. vm_compute. reflexivity.
Defined.

Lemma write_stream_spec_witness :
  exists fs', write_stream_impl sample_fs SampleStream.stream 1000 SampleStream.src (zlen SampleStream.src) false = (true, fs') /\
    view_byte fs' (14 * 1024 + 1010) = 7 /\ view_byte fs' (12 * 1024 + 75) = 7.
Proof.
  destruct (write_stream_impl sample_fs SampleStream.stream 1000 SampleStream.src (zlen SampleStream.src) false) as [b fs'] eqn:E.
  assert (Hl : 0 < zlen SampleStream.src < 2 ^ 32) by (vm_compute; split; reflexivity).
  assert (He : 1000 + zlen SampleStream.src < 2 ^ 63) by (vm_compute; reflexivity).
  pose proof (write_stream_spec _ sample_fs fs' false SampleStream.stream 1000 SampleStream.src b sample_fs_ok
    (SampleStream.sample_writable false) SampleStream.src_ok ltac:(lia) Hl He E) as (_ & _ & _ & Hok & _).
  assert (Hb : b = true) by (apply (f_equal fst) in E; cbn [fst] in E; rewrite <- E; vm_compute; reflexivity). subst b.
  destruct (Hok eq_refl) as (_ & Hw & _). rewrite SampleStream.sample_written in Hw. exists fs'. splits; auto.
  - destruct (Hw 1010) as (a & Ea & Hv); [vm_compute; split; congruence|]. vm_compute in Ea. injection Ea as <-. exact Hv.
  - destruct (Hw 1099) as (a & Ea & Hv); [vm_compute; split; congruence|]. vm_compute in Ea. injection Ea as <-. exact Hv.
Defined.

Lemma stream_roundtrip_witness :
  let fs1 := (write_stream_impl sample_fs SampleStream.stream 1000 SampleStream.src (zlen SampleStream.src) true).2 in
  (read_stream fs1 SampleStream.stream 1000 (zlen SampleStream.src)).1 = Some SampleStream.src.
Proof.
  intros fs1. destruct (write_stream_impl sample_fs SampleStream.stream 1000 SampleStream.src (zlen SampleStream.src) true) as [b fs'] eqn:E.
  assert (Hb : b = true) by (apply (f_equal fst) in E; cbn [fst] in E; rewrite <- E; vm_compute; reflexivity).
  assert (Hro : reads_ok fs').
  { apply (powered_reads fs' 32); apply (f_equal snd) in E; cbn [snd] in E; rewrite <- E; [|vm_compute; congruence].
    split; vm_compute; congruence. }
  subst b. subst fs1. cbn [snd]. destruct (read_stream fs' SampleStream.stream 1000 (zlen SampleStream.src)) as [r fs2] eqn:E2.
  assert (Hl : 0 < zlen SampleStream.src < 2 ^ 32) by (vm_compute; split; reflexivity).
  assert (He : 1000 + zlen SampleStream.src < 2 ^ 63) by (vm_compute; reflexivity).
  destruct (stream_roundtrip _ sample_fs fs' fs2 true SampleStream.stream 1000 SampleStream.src r sample_fs_ok
    (SampleStream.sample_writable true) SampleStream.src_ok ltac:(lia) Hl He E E2) as [_ Hr]. now apply Hr.
Defined.

Lemma read_past_end_witness : (read_stream sample_fs (zeros data.kBytes) 1000000 16).1 = Some (zeros 16).
Proof. now rewrite (read_past_end sample_fs 1000000 16) by lia. Defined.
