(* ===== verification/Directory.v ===== *)
(** Directories, indices and attributes (libs/freestanding/aegir-bfs,
    src/volume.cc): a name looked up in a directory's tree, the directory's
    entries listed by position, the walk over the inodes an index holds under a
    key, and an inode's attributes, which are in its own block or in files of its
    attribute directory.  [directory] says which sorted list of entries a stream
    holds as a B+tree; the theorems say that lookup and listing are the lookup
    and the positions of that list. *)
From stdpp Require Import base numbers list list_numbers.
From Stdlib Require Import ZArith Lia Sorted.
From S2P Require Import Prelude.
From S2P Require Import Layout.
From S2P Require Import Device.
From S2P Require Import Volume.
From S2P Require Import BlockStore.
From S2P Require Import Samples.
From S2P Require Import Journal.
From S2P Require Import Transaction.
From S2P Require Import BPlusTree.
From S2P Require Import Attribute.
From S2P Require Import Stream.

(** [if (!call) return false] for a call that returns a value and a new state. *)
Notation "'try' x , fs := e 'in' k" :=
  (match e with (None, fs) => (None, fs) | (Some x, fs) => k end)
  (at level 200, x pattern at level 0, fs name, e at level 100, k at level 200).

Definition name_equals (a b : bytes) : bool :=
  if negb (zlen a =? zlen b) then false else same_bytes a b.

(** * Reading a node's keys *)

(** The lengths of [n] keys: the steps of the cumulative offsets at [at_]. *)
Fixpoint key_steps (n : nat) (node : bytes) (at_ previous : Z) : list Z :=
  match n with
  | O => []
  | S n =>
    let cumulative := le16 node at_ in
    u16 (cumulative - previous) :: key_steps n node (at_ + 2) cumulative
  end.

(** The key lengths, and where the values are. *)
Definition node_key_lengths (node : bytes) (count : Z) : list Z * Z :=
  let all_key_length := le16 node node.kAllKeyLength in
  let at_ := key_align (node.kFixed + all_key_length) in
  (key_steps (Z.to_nat count) node at_ 0, at_ + count * 2).

(** [kFixed] and the lengths of the first [i] keys. *)
Definition key_start (lengths : list Z) (i : Z) : Z :=
  node.kFixed + fold_right Z.add 0 (take (Z.to_nat i) lengths).

Definition node_key (v : Volume) (node : bytes) (count index : Z) : option bytes :=
  if (count <=? index) || (512 <? count) then None
  else
    let '(lengths, _) := node_key_lengths node count in
    let at_ := key_start lengths index in
    let length := byte_at lengths index in
    if (kMaxName <? length) || (block_size v <? at_ + length) then None
    else Some (slice node at_ length).

(** The child to follow: the first key [name] is not greater than, from key [i]
    of [n] more; [count] when it is greater than all.  [None] is a key longer
    than [max_key]. *)
Fixpoint child_from (n : nat) (order : bytes -> bytes -> Z) (max_key : Z) (node : bytes)
    (lengths : list Z) (name : bytes) (i : Z) : option (Z * bool) :=
  match n with
  | O => Some (i, false)
  | S n =>
    let key_length := byte_at lengths i in
    if max_key <? key_length then None
    else
      let order_ := order name (slice node (key_start lengths i) key_length) in
      if order_ <=? 0 then Some (i, order_ =? 0)
      else child_from n order max_key node lengths name (i + 1)
  end.

(** [bool] with results, and the writes past [key_lengths[512]] on the stack
    that [dir_entry] does not guard against. *)
Inductive outcome (A : Type) := Done (a : A) | Refused | Overrun.
Arguments Done {A} a.
Arguments Refused {A}.
Arguments Overrun {A}.

Section directories.
Context {D : Type} `{SectorDevice D}.
Implicit Types fs : Fs D.

(** [node_size], [root], [maximum] and [data_type]. *)
Definition node_header fs (dir : Inode) : option (Z * Z * Z * Z) * Fs D :=
  try header, fs := read_stream fs (in_data dir) 0 tree_header.kBytes in
  if negb (le32 header tree_header.kMagic =? kTreeMagic) then (None, fs)
  else
    let node_size := le32 header tree_header.kNodeSize in
    let root := le64 header tree_header.kRootNode in
    let maximum := le64 header tree_header.kMaximumSize in
    let data_type := le32 header tree_header.kDataType in
    if (node_size =? 0) || (kMaxBlockSize <? node_size) then (None, fs)
    else (Some (node_size, root, maximum, data_type), fs).

(** ** Lookup *)

(** The loop over [depth]; [fuel] turns of it are left. *)
Fixpoint dir_find_from (fuel : nat) fs (dir : Inode) (node_size maximum : Z) (name : bytes) (offset : Z)
    : option Z * Fs D :=
  match fuel with
  | O => (None, fs)
  | S fuel =>
    if maximum <? u64 (offset + node_size) then (None, fs)
    else
      try tree, fs := read_stream fs (in_data dir) offset node_size in
      let overflow := le64_signed tree node.kOverflowLink in
      let count := le16 tree node.kKeyCount in
      if 512 <? count then (None, fs)
      else
        let '(key_lengths, values_at) := node_key_lengths tree count in
        match child_from (Z.to_nat count) key_compare kMaxName tree key_lengths name 0 with
        | None => (None, fs)
        | Some (child, equal) =>
          if overflow =? kNullLink then
            if equal then (Some (le64 tree (values_at + child * 8)), fs)
            else
              let right := le64_signed tree node.kRightLink in
              if (right =? kNullLink) || (right =? kFreeLink) then (None, fs)
              else dir_find_from fuel fs dir node_size maximum name (u64 right)
          else
            dir_find_from fuel fs dir node_size maximum name
              (if child =? count then u64 overflow else le64 tree (values_at + child * 8))
        end
  end.

Definition dir_find fs (dir : Inode) (name : bytes) : option Z * Fs D :=
  try (node_size, offset, maximum, _), fs := node_header fs dir in
  dir_find_from 16 fs dir node_size maximum name offset.

Definition index_inode fs (name : bytes) : option Z * Fs D :=
  if run_is_zero (indices_ (vol fs)) then (None, fs)
  else
    try dir, fs := read_inode fs (to_block (vol fs) (indices_ (vol fs))) in
    dir_find fs dir name.

(** ** The index walk *)

(** The descent to the leaf that holds [key]: the value there. *)
Fixpoint index_descend (fuel : nat) fs (index : Inode) (node_size maximum data_type : Z) (key : bytes)
    (offset : Z) : option Z * Fs D :=
  match fuel with
  | O => (None, fs)
  | S fuel =>
    if maximum <? u64 (offset + node_size) then (None, fs)
    else
      try tree, fs := read_stream fs (in_data index) offset node_size in
      let overflow := le64_signed tree node.kOverflowLink in
      let count := le16 tree node.kKeyCount in
      if 512 <? count then (None, fs)
      else
        let '(key_lengths, values_at) := node_key_lengths tree count in
        (* no limit on a key's length: every 16-bit length is below this one *)
        match child_from (Z.to_nat count) (key_compare_typed data_type) 65536 tree key_lengths key 0 with
        | None => (None, fs)
        | Some (child, equal) =>
          if overflow =? kNullLink then
            if negb equal then (None, fs) else (Some (le64 tree (values_at + child * 8)), fs)
          else
            index_descend fuel fs index node_size maximum data_type key
              (if child =? count then u64 overflow else le64 tree (values_at + child * 8))
        end
  end.

(** The walk over the chain of duplicate nodes; [position] is the caller's, and
    is left as the loop leaves it. *)
Fixpoint walk_duplicates (fuel : nat) fs (index : Inode) (node_size chain position : Z)
    : option Z * Z * Fs D :=
  match fuel with
  | O => (None, position, fs)
  | S fuel =>
    match read_stream fs (in_data index) chain node_size with
    | (None, fs) => (None, position, fs)
    | (Some tree, fs) =>
      let count := duplicate_count tree node_size in
      if position <? count then
        match duplicate_value tree node_size position with
        | None => (None, position, fs)
        | Some inode_block => (Some inode_block, position + 1, fs)
        end
      else
        let position := position - count in
        let right := le64_signed tree node.kRightLink in
        if right =? kNullLink then (None, position, fs)
        else walk_duplicates fuel fs index node_size (u64 right) position
    end
  end.

(** The inode found, and the caller's [position] afterwards. *)
Definition index_walk fs (index_block : Z) (key : bytes) (position : Z) : option Z * Z * Fs D :=
  match read_inode fs index_block with
  | (None, fs) => (None, position, fs)
  | (Some index, fs) =>
    match node_header fs index with
    | (None, fs) => (None, position, fs)
    | (Some (node_size, offset, maximum, data_type), fs) =>
      match index_descend 16 fs index node_size maximum data_type key offset with
      | (None, fs) => (None, position, fs)
      | (Some value, fs) =>
        if negb (link_is_duplicate value) then
          if negb (position =? 0) then (None, position, fs) else (Some value, 1, fs)
        else if negb (link_type value =? kDuplicateNode) then (None, position, fs)
        else walk_duplicates (Z.to_nat 4096) fs index node_size (link_offset value) position
      end
    end
  end.

(** ** Listing *)

(** Down the first children to the leftmost leaf. *)
Fixpoint leftmost (fuel : nat) fs (dir : Inode) (node_size maximum offset : Z) : outcome Z * Fs D :=
  match fuel with
  | O => (Done offset, fs)
  | S fuel =>
    if maximum <? u64 (offset + node_size) then (Refused, fs)
    else
      match read_stream fs (in_data dir) offset node_size with
      | (None, fs) => (Refused, fs)
      | (Some tree, fs) =>
        if le64_signed tree node.kOverflowLink =? kNullLink then (Done offset, fs)
        else
          let count := le16 tree node.kKeyCount in
          if 512 <? count then (Overrun, fs)
          else
            let '(_, values_at) := node_key_lengths tree count in
            leftmost fuel fs dir node_size maximum
              (if 0 <? count then le64 tree values_at else u64 (le64_signed tree node.kOverflowLink))
      end
  end.

(** Along the leaves by their right links, counting entries. *)
Fixpoint count_leaves (fuel : nat) fs (dir : Inode) (node_size maximum offset remaining : Z)
    : outcome (bytes * Z) * Fs D :=
  match fuel with
  | O => (Refused, fs)
  | S fuel =>
    if negb (u64 (offset + node_size) <=? maximum) then (Refused, fs)
    else
      match read_stream fs (in_data dir) offset node_size with
      | (None, fs) => (Refused, fs)
      | (Some tree, fs) =>
        if negb (le64_signed tree node.kOverflowLink =? kNullLink) then (Refused, fs)
        else
          let count := le16 tree node.kKeyCount in
          if remaining <? count then
            if 512 <? count then (Overrun, fs)
            else
              let '(_, values_at) := node_key_lengths tree count in
              match node_key (vol fs) tree count (u16 remaining) with
              | None => (Refused, fs)
              | Some name => (Done (name, le64 tree (values_at + remaining * 8)), fs)
              end
          else
            let offset := le64 tree node.kRightLink in
            if (offset =? u64 kNullLink) || (offset =? u64 kFreeLink) then (Refused, fs)
            else count_leaves fuel fs dir node_size maximum offset (remaining - count)
      end
  end.

(** [walked] runs from 0 to [max_nodes]. *)
Definition dir_entry fs (dir : Inode) (index : Z) : outcome (bytes * Z) * Fs D :=
  match node_header fs dir with
  | (None, fs) => (Refused, fs)
  | (Some (node_size, offset, maximum, _), fs) =>
    match leftmost 16 fs dir node_size maximum offset with
    | (Refused, fs) => (Refused, fs)
    | (Overrun, fs) => (Overrun, fs)
    | (Done offset, fs) =>
      let max_nodes := u64 (maximum / node_size + 1) in
      count_leaves (Z.to_nat (max_nodes + 1)) fs dir node_size maximum offset index
    end
  end.

(** ** Attributes *)

Definition attr_dir_inode fs (inode : Inode) : option Inode * Fs D :=
  if run_is_zero (in_attributes inode) then (None, fs)
  else read_inode fs (to_block (vol fs) (in_attributes inode)).

(** [block_] and the inode's size. *)
Definition inode_raw fs (inode : Inode) : option (bytes * Z) * Fs D :=
  try block, fs := read_block fs (to_block (vol fs) (in_run inode)) in
  let inode_size := le32 block inode.kInodeSize in
  if (inode_size <=? kMaxBlockSize) && (inode.kSmallData <=? inode_size)
  then (Some (block, inode_size), fs) else (None, fs).

Definition attr_inode fs (inode : Inode) (name : bytes) : option Z * Fs D :=
  try dir, fs := attr_dir_inode fs inode in
  try attr_block, fs := dir_find fs dir name in
  try attribute, fs := read_inode fs attr_block in
  if negb (mode_is_attr (in_mode attribute)) then (None, fs) else (Some attr_block, fs).

(** The attribute's small_data entry, when the inode's block has it. *)
Definition attr_small fs (inode : Inode) (name : bytes) : option SmallAttribute * Fs D :=
  try (block, inode_size), fs := inode_raw fs inode in
  (small_find block inode_size name, fs).

(** The attribute's own inode. *)
Definition attr_file fs (inode : Inode) (name : bytes) : option Inode * Fs D :=
  try attribute_block, fs := attr_inode fs inode name in
  read_inode fs attribute_block.

Definition attr_stat fs (inode : Inode) (name : bytes) : option (Z * Z) * Fs D :=
  match attr_small fs inode name with
  | (Some entry, fs) => (Some (sa_type entry, zlen (sa_data entry)), fs)
  | (None, fs) =>
    try attribute, fs := attr_file fs inode name in
    (Some (in_type attribute, u64 (in_size attribute)), fs)
  end.

(** The bytes put in [out]; [*length] becomes their number. *)
Definition attr_read fs (inode : Inode) (name : bytes) (offset length : Z) : option bytes * Fs D :=
  match attr_small fs inode name with
  | (Some entry, fs) =>
    let data_length := zlen (sa_data entry) in
    if data_length <=? offset then (Some [], fs)
    else
      let got := length in
      let got := if data_length - u32 offset <? got then data_length - u32 offset else got in
      (Some (slice (sa_data entry) offset got), fs)
  | (None, fs) =>
    try attribute, fs := attr_file fs inode name in
    if u64 (in_size attribute) <? offset then (Some [], fs)
    else
      let got := length in
      let available := u64 (in_size attribute) - offset in
      let got := if available <? got then u32 available else got in
      read_stream fs (in_data attribute) offset got
  end.

(** [while (small_next (...))] up to the [index]th: it, or how many there are. *)
Fixpoint small_entry (fuel : nat) (block : bytes) (inode_size cursor seen index : Z)
    : SmallAttribute + Z :=
  match fuel with
  | O => inr seen
  | S fuel =>
    match small_next (Z.to_nat inode_size) block inode_size cursor with
    | None => inr seen
    | Some (entry, cursor) =>
      if seen =? index then inl entry else small_entry fuel block inode_size cursor (seen + 1) index
    end
  end.

(** The name, the type and the size. *)
Definition attr_entry fs (inode : Inode) (index : Z) : outcome (bytes * Z * Z) * Fs D :=
  let '(small, fs) :=
    match inode_raw fs inode with
    | (None, fs) => (inr 0, fs)
    | (Some (block, inode_size), fs) =>
      (small_entry (Z.to_nat inode_size) block inode_size inode.kSmallData 0 index, fs)
    end in
  match small with
  | inl entry => (Done (sa_name entry, sa_type entry, zlen (sa_data entry)), fs)
  | inr seen =>
    match attr_dir_inode fs inode with
    | (None, fs) => (Refused, fs)
    | (Some dir, fs) =>
      match dir_entry fs dir (u32 (index - seen)) with
      | (Refused, fs) => (Refused, fs)
      | (Overrun, fs) => (Overrun, fs)
      | (Done (name, attribute_block), fs) =>
        match read_inode fs attribute_block with
        | (None, fs) => (Refused, fs)
        | (Some attribute, fs) => (Done (name, in_type attribute, u64 (in_size attribute)), fs)
        end
      end
    end
  end.
End directories.

(** * A node's keys, read *)

Section keys.
Context (node : bytes) (size : Z) (es : list (bytes * Z)) (Hrep : node_rep node size es).

Lemma key_steps_list suf pre :
  es = pre ++ suf ->
  key_steps (length suf) node (lengths_of es + zlen pre * 2) (zlen (keys pre)) = map (fun e => zlen e.1) suf.
Proof.
  revert pre. induction suf as [|e suf IH]; intros pre Hes; [reflexivity|]. cbn [length key_steps map].
  destruct (snoc_split es pre e suf Hes) as [Hes' Hz].
  assert (Hk : keys (pre ++ [e]) = keys pre ++ e.1)
    by (rewrite keys_app, keys_cons; unfold keys at 2; simpl; now rewrite app_nil_r).
  assert (Hc : le16 node (lengths_of es + zlen pre * 2) = zlen (keys pre) + zlen e.1).
  { unfold zlen at 1. rewrite (nr_lens _ _ _ Hrep) by (rewrite Hes, length_app; simpl; lia).
    rewrite Hes' at 1. rewrite take_app_le, take_ge by (rewrite length_app; simpl; lia).
    now rewrite Hk, zlen_app. }
  destruct (rep_keys_bound node size es Hrep) as (_ & B2 & B3). pose proof (nr_size _ _ _ Hrep) as [_ Hsz].
  pose proof (zlen_nonneg (keys pre)). pose proof (zlen_nonneg e.1). pose proof (zlen_nonneg (keys suf)).
  assert (Hall : zlen (keys es) = zlen (keys pre) + zlen e.1 + zlen (keys suf))
    by (rewrite Hes, keys_app, keys_cons, !zlen_app; lia).
  unfold kMaxBlockSize, node.kFixed in *. rewrite Hc, Z.add_simpl_l. f_equal; [apply u16_small; lia|].
  specialize (IH (pre ++ [e]) Hes'). rewrite Hz, Hk, zlen_app in IH. rewrite <- IH. f_equal. lia.
Qed.

Lemma rep_key_lengths :
  node_key_lengths node (le16 node node.kKeyCount) =
    (map (fun e => zlen e.1) es, lengths_of es + zlen es * 2).
Proof.
  unfold node_key_lengths. rewrite (nr_count _ _ _ Hrep), (nr_all _ _ _ Hrep), to_nat_zlen.
  fold (lengths_of es). f_equal. rewrite <- (key_steps_list es [] eq_refl). unfold zlen. simpl. f_equal. lia.
Qed.

Lemma rep_key_slice i e :
  es !! i = Some e ->
  byte_at (map (fun e => zlen e.1) es) (Z.of_nat i) = zlen e.1 /\
  key_start (map (fun e => zlen e.1) es) (Z.of_nat i) + zlen e.1 = node.kFixed + zlen (keys (take (S i) es)) /\
  slice node (key_start (map (fun e => zlen e.1) es) (Z.of_nat i)) (zlen e.1) = e.1.
Proof.
  intros Hi. assert (Hs : forall l : list (bytes * Z), fold_right Z.add 0 (map (fun e => zlen e.1) l) = zlen (keys l)).
  { induction l as [|x l IH]; [reflexivity|]. cbn [map fold_right]. now rewrite keys_cons, zlen_app, IH. }
  assert (Hst : key_start (map (fun e => zlen e.1) es) (Z.of_nat i) = node.kFixed + zlen (keys (take i es)))
    by (unfold key_start; now rewrite Nat2Z.id, firstn_map, Hs).
  split; [|split].
  - rewrite byte_at_lookup, Nat2Z.id, list_lookup_fmap, Hi. reflexivity.
  - rewrite Hst, (keys_take_S es i e Hi), zlen_app. lia.
  - rewrite Hst. pose proof (zlen_nonneg (keys (take i es))).
    pose proof (rep_prefix es (S i)) as Hp. rewrite (keys_take_S es i e Hi), zlen_app in Hp.
    rewrite <- (slice_slice node node.kFixed (zlen (keys es))) by (unfold node.kFixed; lia).
    rewrite (nr_keys _ _ _ Hrep), (keys_split es i e Hi).
    rewrite slice_app_r, Z.sub_diag, slice_app_l by lia. now apply slice_all.
Qed.

(** The child loop over the list of entries. *)
Fixpoint first_not_less (order : bytes -> bytes -> Z) (name : bytes) (es : list (bytes * Z)) : nat * bool :=
  match es with
  | [] => (O, false)
  | e :: es =>
    if order name e.1 <=? 0 then (O, order name e.1 =? 0)
    else let '(i, b) := first_not_less order name es in (S i, b)
  end.

Lemma child_from_list order max_key name suf pre :
  es = pre ++ suf -> Forall (fun e => zlen e.1 <= max_key) es ->
  child_from (length suf) order max_key node (map (fun e => zlen e.1) es) name (zlen pre) =
    let '(i, b) := first_not_less order name suf in Some (zlen pre + Z.of_nat i, b).
Proof.
  intros Hes Hm. revert pre Hes. induction suf as [|e suf IH]; intros pre Hes.
  { simpl. now rewrite Z.add_0_r. }
  cbn [length child_from first_not_less].
  assert (Hi : es !! length pre = Some e) by (rewrite Hes, lookup_app_r, Nat.sub_diag by lia; reflexivity).
  destruct (rep_key_slice _ _ Hi) as (B1 & _ & B2). fold (zlen pre) in B1, B2. rewrite B1, B2.
  rewrite Forall_forall in Hm. specialize (Hm e). rewrite (proj2 (Z.ltb_ge _ _)).
  2:{ apply Hm. apply list_elem_of_lookup. eauto. }
  destruct (order name e.1 <=? 0); [do 2 f_equal; lia|].
  destruct (snoc_split es pre e suf Hes) as [Hes' Hz]. rewrite <- Hz, (IH (pre ++ [e]) Hes'), Hz.
  destruct (first_not_less order name suf) as [i b]. do 2 f_equal. lia.
Qed.
End keys.

(** * The tree in a stream *)

(** A leaf: its offset in the stream and its entries. *)
Notation leaf := (Z * list (bytes * Z))%type (only parsing).

Definition entries (ls : list leaf) : list (bytes * Z) := concat (map snd ls).

Lemma entries_app ls ls' : entries (ls ++ ls') = entries ls ++ entries ls'.
Proof. unfold entries. now rewrite map_app, concat_app. Qed.

Section tree.
Context (dt size maximum max_key : Z) (get : Z -> bytes).
Local Notation cmp := (key_compare_typed dt).

Definition overflow_of (off : Z) : Z := le64_signed (get off) node.kOverflowLink.
Definition right_of (off : Z) : Z := le64_signed (get off) node.kRightLink.

(** The node at [off] holds [es], within the walks' limits. *)
Record node_at (off : Z) (es : list (bytes * Z)) : Prop := {
  na_tree : tree_ok dt (get off) size es;
  na_count : zlen es <= 512;
  na_keys : Forall (fun e => zlen e.1 <= max_key) es;
  na_off : 0 <= off /\ off + size <= maximum;
}.

(** The leaves from left to right, joined by their right links. *)
Fixpoint leaf_chain (ls : list leaf) : Prop :=
  match ls with
  | [] => True
  | (off, es) :: ls =>
    node_at off es /\ overflow_of off = kNullLink /\
    match ls with
    | [] => right_of off = kNullLink \/ right_of off = kFreeLink
    | (next, _) :: _ => right_of off = next
    end /\ leaf_chain ls
  end.

(** [subtree n off ls]: the node at [off] leads to the leaves [ls], reading at
    most [n] nodes.  A leaf may lead on to at most [g] leaves of its chain.  An
    internal node's key is not less than its child's keys and less than those of
    the children after it ([forest]); the overflow link is the last child. *)
Inductive subtree (g : nat) : nat -> Z -> list leaf -> Prop :=
| sub_leaves n off es ls : (length ls < Nat.min g n)%nat -> subtree g n off ((off, es) :: ls)
| sub_node n off ks ls :
    node_at off ks -> 0 <= overflow_of off -> forest g n ks (overflow_of off) ls -> subtree g (S n) off ls
with forest (g : nat) : nat -> list (bytes * Z) -> Z -> list leaf -> Prop :=
| forest_last n last ls : subtree g n last ls -> forest g n [] last ls
| forest_child n k c ks last ls ls' :
    subtree g n c ls -> forest g n ks last ls' ->
    Forall (fun e => cmp e.1 k <= 0) (entries ls) -> Forall (fun e => cmp k e.1 < 0) (entries ls') ->
    forest g n ((k, c) :: ks) last (ls ++ ls').

Lemma leaf_chain_app_r ls ls' : leaf_chain (ls ++ ls') -> leaf_chain ls'.
Proof. induction ls as [|[off es] ls IH]; [auto|]. intros (_ & _ & _ & Hc). auto. Qed.

Lemma node_at_keys off es : node_at off es -> Forall (fun e : bytes * Z => key_ok dt e.1) es.
Proof. intros [[_ _ He] _ _ _]. eapply Forall_impl; [exact He|]. intros e [Hk _]. exact Hk. Qed.

Lemma leaf_chain_keys ls : leaf_chain ls -> Forall (fun e : bytes * Z => key_ok dt e.1) (entries ls).
Proof.
  induction ls as [|[off es] ls IH]; [constructor|]. intros (Hn & _ & _ & Hc).
  apply Forall_app_2; [exact (node_at_keys off es Hn)|auto].
Qed.

(** Where the child loop leads. *)
Definition child_of (name : bytes) (ks : list (bytes * Z)) (last : Z) : Z :=
  match ks !! (first_not_less cmp name ks).1 with Some k => k.2 | None => last end.

Lemma forest_route g n ks last ls name :
  forest g n ks last ls -> key_ok dt name ->
  Forall (fun k : bytes * Z => key_ok dt k.1) ks -> Forall (fun e : bytes * Z => key_ok dt e.1) (entries ls) ->
  exists pre mid post, ls = pre ++ mid ++ post /\ subtree g n (child_of name ks last) mid /\
    name ∉ map fst (entries pre) /\ name ∉ map fst (entries post).
Proof.
  intros Hf Hn. induction Hf as [n last ls Hs|n k c ks last ls ls' Hs Hf IH Hle Hgt]; intros Hk He.
  { exists [], ls, []. rewrite app_nil_r. splits; auto; apply not_elem_of_nil. }
  apply Forall_cons in Hk as [Hk Hks]. rewrite entries_app in He. apply Forall_app in He as [He He'].
  unfold child_of. cbn [first_not_less fst]. simpl in Hk.
  destruct (Z.leb_spec (cmp name k) 0) as [Hc|Hc].
  - exists [], ls, ls'. splits; auto; [apply not_elem_of_nil|]. intros Hin.
    apply list_elem_of_In, in_map_iff in Hin as (e & <- & Hin%list_elem_of_In).
    rewrite Forall_forall in Hgt, He'. specialize (Hgt e Hin). specialize (He' e Hin). simpl in *.
    rewrite (typed_antisym dt k e.1) in Hc by auto. lia.
  - destruct (IH Hks He') as (pre & mid & post & -> & Hm & Hp & Hq). exists (ls ++ pre), mid, post. splits; auto.
    + now rewrite <- app_assoc.
    + unfold child_of in Hm. destruct (first_not_less cmp name ks) as [i b]. exact Hm.
    + rewrite entries_app, map_app. intros [Hin|Hin]%elem_of_app; [|now apply Hp].
      apply list_elem_of_In, in_map_iff in Hin as (e & <- & Hin%list_elem_of_In).
      rewrite Forall_forall in Hle. specialize (Hle e Hin). simpl in *. lia.
Qed.

(** The child loop in a leaf. *)
Lemma leaf_lookup es name :
  sorted dt es -> Forall (fun e : bytes * Z => key_ok dt e.1) es -> key_ok dt name ->
  match first_not_less cmp name es with
  | (i, true) => exists e, es !! i = Some e /\ assoc name es = Some e.2
  | (_, false) => assoc name es = None
  end.
Proof.
  intros Hs Hk Hn. induction es as [|e es IH]; [reflexivity|]. apply StronglySorted_inv in Hs as [Hs Hf].
  apply Forall_cons in Hk as [Hke Hk]. specialize (IH Hs Hk). cbn [first_not_less assoc].
  destruct (Z.leb_spec (cmp name e.1) 0) as [Hc|Hc].
  - destruct (Z.eqb_spec (cmp name e.1) 0) as [E|E].
    + exists e. split; [reflexivity|]. apply (typed_eq dt name e.1 Hn Hke) in E. now rewrite decide_True.
    + rewrite decide_False by (intros <-; apply E; now apply typed_eq).
      apply assoc_None. intros Hin. apply list_elem_of_In, in_map_iff in Hin as (x & <- & Hin%list_elem_of_In).
      rewrite Forall_forall in Hf, Hk. specialize (Hf x Hin). simpl in Hf.
      rewrite (typed_antisym dt e.1 x.1) in Hc, E by auto. lia.
  - rewrite decide_False.
    2:{ intros <-. assert (cmp e.1 e.1 = 0) by now apply typed_eq. lia. }
    destruct (first_not_less cmp name es) as [i [|]]; exact IH.
Qed.

Lemma first_not_less_bound order name es :
  ((first_not_less order name es).1 <= length es)%nat.
Proof.
  induction es as [|e es IH]; [simpl; lia|]. cbn [first_not_less length].
  destruct (order name e.1 <=? 0); [simpl; lia|]. destruct (first_not_less order name es) as [i b]. simpl in *. lia.
Qed.
End tree.

(** ** A listing *)

(** Where in its leaf's node the key of entry [i] ends. *)
Fixpoint key_end (ls : list leaf) (i : nat) : Z :=
  match ls with
  | [] => 0
  | (_, es) :: ls =>
    if decide (i < length es)%nat then node.kFixed + zlen (keys (take (S i) es)) else key_end ls (i - length es)
  end.

(** Entry [i] of a listing: the entry, when its key ends in its node's first
    [block] bytes. *)
Definition listed (block : Z) (ls : list leaf) (i : nat) : outcome (bytes * Z) :=
  match entries ls !! i with
  | Some e => if key_end ls i <=? block then Done e else Refused
  | None => Refused
  end.

Lemma listed_nil block i : listed block [] i = Refused.
Proof. reflexivity. Qed.

Lemma listed_here block off es ls i e :
  es !! i = Some e ->
  listed block ((off, es) :: ls) i = if node.kFixed + zlen (keys (take (S i) es)) <=? block then Done e else Refused.
Proof.
  intros Hi. pose proof (lookup_lt_Some _ _ _ Hi). unfold listed, entries. cbn [map concat snd key_end].
  now rewrite lookup_app_l, Hi, decide_True by lia.
Qed.

Lemma listed_later block off es ls i :
  (length es <= i)%nat -> listed block ((off, es) :: ls) i = listed block ls (i - length es).
Proof.
  intros Hi. unfold listed, entries. cbn [map concat snd key_end]. now rewrite lookup_app_r, decide_False by lia.
Qed.

(** Where every leaf's keys end in a block, the listing is the entries. *)
Lemma listed_all block ls i :
  Forall (fun l => node.kFixed + zlen (keys l.2) <= block) ls ->
  listed block ls i = match entries ls !! i with Some e => Done e | None => Refused end.
Proof.
  intros Hf. revert i. induction Hf as [|[off es] ls Hl _ IH]; intros i; [reflexivity|]. simpl in Hl.
  destruct (decide (i < length es)%nat) as [Hi|Hi].
  - destruct (lookup_lt_is_Some_2 es i Hi) as [e He]. rewrite (listed_here _ _ _ _ _ _ He).
    unfold entries. cbn [map concat snd]. rewrite lookup_app_l, He by lia.
    pose proof (rep_prefix es (S i)). now rewrite (proj2 (Z.leb_le _ _)) by lia.
  - rewrite listed_later, IH by lia. unfold entries. cbn [map concat snd]. now rewrite lookup_app_r by lia.
Qed.

(** * Walks in a stream *)

Section walks.
Context {D : Type} `{SectorDeviceLaws D}.
Implicit Types fs : Fs D.

(** [n] bytes of the stream from [off]; holes are zeros. *)
Definition stream_bytes fs (stream : bytes) (off n : Z) : bytes :=
  map (fun p => match stream_at (vol fs) (stream_runs (view fs) (vol fs) stream) p with
                | Some a => view_byte fs a
                | None => 0
                end) (seqZ off n).

Context (live : Z -> Prop) (fs0 : Fs D).

(** The volume of [fs0], reads having touched nothing but the cache. *)
Definition settled fs : Prop := fs_ok live fs /\ only_cache fs0 fs.

Lemma settled_stream_ok fs stream :
  settled fs -> stream_ok live (view fs0) (vol fs0) stream ->
  stream_ok live (view fs) (vol fs) stream /\
  forall p, stream_at (vol fs) (stream_runs (view fs) (vol fs) stream) p =
            stream_at (vol fs0) (stream_runs (view fs0) (vol fs0) stream) p.
Proof.
  intros [_ Hc] [Sb Sa Sr St]. destruct (only_cache_same fs0 fs Hc) as (_ & Hv & _).
  destruct Hc as (_ & _ & _ & c & Ev).
  destruct (stream_runs_ext (view fs0) (view fs) (vol fs0) stream ltac:(auto)) as [E1 E2].
  assert (E1' : stream_runs (view fs) (vol fs) stream = stream_runs (view fs0) (vol fs0) stream) by (now rewrite Ev).
  assert (E2' : stream_arrays (view fs) (vol fs) stream = stream_arrays (view fs0) (vol fs0) stream) by (now rewrite Ev).
  split; [|intros p; rewrite E1', Ev; reflexivity].
  split; rewrite ?E1', ?E2', ?Ev; auto.
Qed.

Lemma settled_read fs stream off n :
  settled fs -> reads_ok fs0 -> stream_ok live (view fs0) (vol fs0) stream ->
  0 <= off -> 0 <= n < 2 ^ 32 -> off + n < 2 ^ 63 ->
  exists fs', read_stream fs stream off n = (Some (stream_bytes fs0 stream off n), fs') /\ settled fs'.
Proof.
  intros Hs Hro Hst Ho Hn He. destruct (settled_stream_ok fs stream Hs Hst) as [Hst' Hat].
  destruct Hs as [Hok Hc]. destruct (only_cache_same fs0 fs Hc) as (_ & _ & Hv & _ & _ & Hr & _).
  destruct (read_stream fs stream off n) as [r fs'] eqn:E.
  apply (read_stream_law live) in E as (R1 & R2 & R3 & R4); auto.
  destruct (R4 (Hr Hro)) as [out ->]. destruct (R3 out eq_refl) as [Hl Hby]. exists fs'. split.
  - do 2 f_equal. apply bytes_ext.
    + rewrite Hl. unfold stream_bytes, zlen. rewrite length_map, length_seqZ. lia.
    + intros i Hi. rewrite Hl in Hi. rewrite Hby, Hat by lia. unfold stream_bytes.
      rewrite byte_at_lookup, list_lookup_fmap, lookup_seqZ_lt by lia. simpl.
      rewrite Z2Nat.id by lia. destruct (stream_at _ _ _); [apply Hv|reflexivity].
  - split; [exact R1|]. exact (only_cache_trans _ _ _ Hc R2).
Qed.

(** The header of a tree in the stream. *)
Record tree_header_is (stream : bytes) (dt size root maximum : Z) : Prop := {
  hi_magic : le32 (stream_bytes fs0 stream 0 tree_header.kBytes) tree_header.kMagic = kTreeMagic;
  hi_size : le32 (stream_bytes fs0 stream 0 tree_header.kBytes) tree_header.kNodeSize = size;
  hi_root : le64 (stream_bytes fs0 stream 0 tree_header.kBytes) tree_header.kRootNode = root;
  hi_maximum : le64 (stream_bytes fs0 stream 0 tree_header.kBytes) tree_header.kMaximumSize = maximum;
  hi_type : le32 (stream_bytes fs0 stream 0 tree_header.kBytes) tree_header.kDataType = dt;
  hi_bounds : node.kFixed <= size <= kMaxBlockSize /\ maximum < 2 ^ 62;
}.

(** [stream] holds the tree of type [dt] with the leaves [ls], in the reach of
    the walks: at most 16 nodes deep, at most [g] leaves of a chain in a row. *)
Record tree_in (g : nat) (dt max_key : Z) (stream : bytes) (size maximum : Z) (ls : list leaf) : Prop := {
  ti_stream : stream_ok live (view fs0) (vol fs0) stream;
  ti_header : exists root, tree_header_is stream dt size root maximum /\
    subtree dt size maximum max_key (fun off => stream_bytes fs0 stream off size) g 16 root ls;
  ti_chain : leaf_chain dt size maximum max_key (fun off => stream_bytes fs0 stream off size) ls;
  ti_leaves : zlen ls <= maximum / size + 2;
}.

Context (Hro : reads_ok fs0).

Lemma node_header_is fs dir dt size root maximum :
  settled fs -> stream_ok live (view fs0) (vol fs0) (in_data dir) ->
  tree_header_is (in_data dir) dt size root maximum ->
  exists fs', node_header fs dir = (Some (size, root, maximum, dt), fs') /\ settled fs'.
Proof.
  intros Hs Hst []. unfold node_header. destruct (settled_read fs (in_data dir) 0 tree_header.kBytes) as (fs1 & -> & Hs1);
    auto; try (unfold tree_header.kBytes; lia).
  unfold kMaxBlockSize, node.kFixed in *. exists fs1. rewrite hi_magic0, hi_size0, hi_root0, hi_maximum0, hi_type0.
  rewrite (proj2 (Z.eqb_neq size 0)), (proj2 (Z.ltb_ge _ _)) by (unfold kMaxBlockSize; lia). auto.
Qed.

Section one_tree.
Context (dir : Inode) (dt size maximum max_key : Z) (name : bytes).
Context (Hst : stream_ok live (view fs0) (vol fs0) (in_data dir)).
Context (Hsize : node.kFixed <= size <= kMaxBlockSize) (Hmax : maximum < 2 ^ 62).
Local Notation get := (fun off => stream_bytes fs0 (in_data dir) off size).
Local Notation node_at := (node_at dt size maximum max_key get).
Local Notation leaf_chain := (leaf_chain dt size maximum max_key get).
Local Notation subtree := (subtree dt size maximum max_key get).

(** One turn of a walk: the node is read, and its fields are the entries'. *)
Lemma node_read fs off es :
  settled fs -> node_at off es ->
  exists fs', read_stream fs (in_data dir) off size = (Some (get off), fs') /\ settled fs' /\
    (maximum <? u64 (off + size)) = false /\ le16 (get off) node.kKeyCount = zlen es /\ (512 <? zlen es) = false /\
    node_key_lengths (get off) (zlen es) = (map (fun e => zlen e.1) es, lengths_of es + zlen es * 2).
Proof.
  intros Hs [[Hr _ _] Hc _ [Ho He]]. unfold kMaxBlockSize, node.kFixed in Hsize.
  destruct (settled_read fs (in_data dir) off size) as (fs' & E & Hs'); auto; try lia.
  exists fs'. splits; auto.
  - rewrite u64_small by lia. now apply Z.ltb_ge.
  - exact (nr_count _ _ _ Hr).
  - now apply Z.ltb_ge.
  - rewrite <- (nr_count _ _ _ Hr) at 1. now apply (rep_key_lengths _ size).
Qed.

(** The child loop at a node, and the link it takes from an internal one. *)
Lemma node_child off es order :
  node_at off es ->
  child_from (Z.to_nat (zlen es)) order max_key (get off) (map (fun e => zlen e.1) es) name 0 =
    let '(i, b) := first_not_less order name es in Some (Z.of_nat i, b).
Proof.
  intros [[Hr _ _] _ Hk _]. rewrite to_nat_zlen.
  etransitivity; [exact (child_from_list (get off) size es Hr order max_key name es [] eq_refl Hk)|].
  now destruct (first_not_less order name es).
Qed.

Lemma node_value off es i e :
  node_at off es -> es !! i = Some e -> le64 (get off) (lengths_of es + zlen es * 2 + Z.of_nat i * 8) = e.2.
Proof. intros [[Hr _ _] _ _ _]. now apply (nr_vals _ _ _ Hr). Qed.

Lemma child_link off ks :
  node_at off ks -> 0 <= overflow_of get off ->
  let i := (first_not_less (key_compare_typed dt) name ks).1 in
  (if Z.of_nat i =? zlen ks then u64 (le64_signed (get off) node.kOverflowLink)
   else le64 (get off) (lengths_of ks + zlen ks * 2 + Z.of_nat i * 8)) =
  child_of dt name ks (overflow_of get off).
Proof.
  clear Hsize Hmax. intros Hn Ho i. unfold child_of. fold i.
  pose proof (first_not_less_bound (key_compare_typed dt) name ks) as Hb. fold i in Hb.
  destruct (Z.eqb_spec (Z.of_nat i) (zlen ks)) as [E|E].
  - rewrite lookup_ge_None_2 by (unfold zlen in E; lia). unfold overflow_of in *. apply u64_small.
    split; [exact Ho|]. unfold le64_signed, signed in *. destruct (na_tree _ _ _ _ _ _ _ Hn) as [Hr _ _].
    pose proof (le64_range (get off) node.kOverflowLink (nr_bytes _ _ _ Hr) ltac:(easy)) as Hx. cbv beta in *.
    destruct (le64 _ _ <? _); lia.
  - destruct (lookup_lt_is_Some_2 ks i) as [k Hk]; [unfold zlen in E; lia|]. rewrite Hk. now apply node_value.
Qed.
End one_tree.

(** ** Lookup *)

Section lookup.
Context (dir : Inode) (size maximum : Z) (name : bytes).
Context (Hst : stream_ok live (view fs0) (vol fs0) (in_data dir)).
Context (Hsize : node.kFixed <= size <= kMaxBlockSize) (Hmax : maximum < 2 ^ 62).
Context (Hname : key_ok kTreeStringType name).
Local Notation get := (fun off => stream_bytes fs0 (in_data dir) off size).
Local Notation leaf_chain := (leaf_chain kTreeStringType size maximum kMaxName get).
Local Notation subtree := (subtree kTreeStringType size maximum kMaxName get).

(** From a leaf, the lookup searches it and the leaves to its right. *)
Lemma dir_find_chain fuel ls fs off es :
  settled fs -> leaf_chain ((off, es) :: ls) ->
  exists fs', dir_find_from fuel fs dir size maximum name off =
      (assoc name (entries (take fuel ((off, es) :: ls))), fs') /\ settled fs'.
Proof.
  revert ls fs off es. induction fuel as [|fuel IH]; intros ls fs off es Hs (Hn & Ho & Hr & Hc); [eauto|].
  cbn [dir_find_from]. destruct (node_read dir kTreeStringType size maximum kMaxName Hst Hsize Hmax fs off es Hs Hn)
    as (fs1 & -> & Hs1 & -> & -> & -> & ->).
  rewrite (node_child dir kTreeStringType size maximum kMaxName name off es key_compare Hn).
  unfold overflow_of in Ho. rewrite Ho. cbn [take].
  change (entries ((off, es) :: take fuel ls)) with (es ++ entries (take fuel ls)). rewrite assoc_app.
  pose proof (leaf_lookup kTreeStringType es name (to_sorted _ _ _ _ (na_tree _ _ _ _ _ _ _ Hn))
    (node_at_keys _ _ _ _ _ _ _ Hn) Hname) as Hl.
  change (first_not_less key_compare name es) with (first_not_less (key_compare_typed kTreeStringType) name es).
  destruct (first_not_less _ name es) as [i [|]].
  - destruct Hl as (e & Hi & ->). rewrite (node_value dir kTreeStringType size maximum kMaxName off es i e Hn Hi). eauto.
  - rewrite Hl. unfold right_of in Hr. simpl (_ =? _). cbv iota. destruct ls as [|[next es'] ls].
    + rewrite take_nil. destruct Hr as [-> | ->]; eauto.
    + destruct Hc as (Hn' & Hc). pose proof (na_off _ _ _ _ _ _ _ Hn') as [Hne _]. rewrite Hr.
      unfold kNullLink, kFreeLink. rewrite !(proj2 (Z.eqb_neq next _)) by lia. cbn [orb].
      pose proof (na_off _ _ _ _ _ _ _ Hn') as [_ Hle]. unfold node.kFixed in Hsize.
      rewrite u64_small by lia. apply IH; [exact Hs1|]. now split.
Qed.

Lemma dir_find_tree g n : forall off ls pre post fuel fs,
  settled fs -> leaf_chain (pre ++ ls ++ post) -> subtree g n off ls -> (n <= fuel)%nat ->
  name ∉ map fst (entries pre) -> name ∉ map fst (entries post) ->
  exists fs', dir_find_from fuel fs dir size maximum name off = (assoc name (entries ls), fs') /\ settled fs'.
Proof.
  induction n as [|n IH]; intros off ls pre post fuel fs Hs Hc Ht Hf Hpre Hpost;
    inversion Ht as [n' off' es ls' Hlen|n' off' ks ls' Hn Ho Hfor]; subst.
  - lia.
  - apply leaf_chain_app_r in Hc. destruct (dir_find_chain fuel (ls' ++ post) fs off es Hs Hc) as (fs' & -> & Hs').
    exists fs'. split; [|exact Hs']. f_equal. rewrite app_comm_cons, take_app_ge by (simpl; lia).
    rewrite entries_app, assoc_app. destruct (assoc name (entries ((off, es) :: ls'))); [reflexivity|].
    apply assoc_None. intros Hin. apply Hpost. rewrite <- (take_drop (fuel - length ((off, es) :: ls')) post).
    rewrite entries_app, map_app, elem_of_app. now left.
  - destruct fuel as [|fuel]; [lia|]. cbn [dir_find_from].
    destruct (node_read dir kTreeStringType size maximum kMaxName Hst Hsize Hmax fs off ks Hs Hn)
      as (fs1 & -> & Hs1 & -> & -> & -> & ->).
    rewrite (node_child dir kTreeStringType size maximum kMaxName name off ks key_compare Hn).
    change (first_not_less key_compare name ks) with (first_not_less (key_compare_typed kTreeStringType) name ks).
    pose proof (child_link dir kTreeStringType size maximum kMaxName name off ks Hn Ho) as Hl.
    destruct (first_not_less _ name ks) as [i b]. unfold overflow_of in Ho. cbn [fst] in Hl. unfold kNullLink.
    rewrite (proj2 (Z.eqb_neq (le64_signed _ node.kOverflowLink) (-1))) by lia. rewrite Hl.
    pose proof (leaf_chain_keys _ _ _ _ _ _ Hc) as Hk. rewrite !entries_app in Hk.
    apply Forall_app in Hk as [_ Hk]. apply Forall_app in Hk as [Hk _].
    destruct (forest_route _ _ _ _ _ g n ks _ ls name Hfor Hname (node_at_keys _ _ _ _ _ _ _ Hn) Hk)
      as (pre' & mid & post' & -> & Hsub & Hp & Hq).
    destruct (IH (child_of kTreeStringType name ks (overflow_of get off)) mid (pre ++ pre') (post' ++ post) fuel fs1 Hs1) as (fs' & -> & Hs'); auto; try lia.
    + now rewrite <- !app_assoc in *.
    + rewrite entries_app, map_app, elem_of_app. tauto.
    + rewrite entries_app, map_app, elem_of_app. tauto.
    + exists fs'. split; [|exact Hs']. f_equal. rewrite !entries_app, !assoc_app, (proj2 (assoc_None name _) Hp).
      destruct (assoc name (entries mid)); [reflexivity|]. symmetry. now apply assoc_None.
Qed.
End lookup.

(** ** Listing *)

Section listing.
Context (dir : Inode) (dt size maximum : Z).
Context (Hst : stream_ok live (view fs0) (vol fs0) (in_data dir)).
Context (Hsize : node.kFixed <= size <= kMaxBlockSize) (Hmax : maximum < 2 ^ 62).
Local Notation get := (fun off => stream_bytes fs0 (in_data dir) off size).
Local Notation leaf_chain := (leaf_chain dt size maximum kMaxName get).
Local Notation subtree := (subtree dt size maximum kMaxName get).

Lemma forest_first g n ks last ls :
  forest dt size maximum kMaxName get g n ks last ls ->
  exists mid post, ls = mid ++ post /\ subtree g n (match ks with [] => last | k :: _ => k.2 end) mid.
Proof.
  destruct 1 as [n last ls Ht|n k c ks last ls ls' Ht]; [exists ls, []|exists ls, ls'; auto].
  now rewrite app_nil_r.
Qed.

Lemma leftmost_tree g n : forall off ls fuel fs post,
  settled fs -> leaf_chain (ls ++ post) -> subtree g n off ls -> (n <= fuel)%nat ->
  exists fs' first es rest, ls = (first, es) :: rest /\
    leftmost fuel fs dir size maximum off = (Done first, fs') /\ settled fs'.
Proof.
  induction n as [|n IH]; intros off ls fuel fs post Hs Hc Ht Hf;
    inversion Ht as [n' off' es ls' Hlen|n' off' ks ls' Hn Ho Hfor]; subst; [lia|..];
    (destruct fuel as [|fuel]; [lia|]); cbn [leftmost].
  - destruct Hc as (Hn & Ho & _).
    destruct (node_read dir dt size maximum kMaxName Hst Hsize Hmax fs off es Hs Hn) as (fs1 & -> & Hs1 & -> & _).
    unfold overflow_of in Ho. rewrite Ho. eexists _, _, _, _. splits; eauto.
  - destruct (node_read dir dt size maximum kMaxName Hst Hsize Hmax fs off ks Hs Hn)
      as (fs1 & -> & Hs1 & -> & -> & -> & ->).
    unfold overflow_of in Ho. unfold kNullLink.
    rewrite (proj2 (Z.eqb_neq (le64_signed _ node.kOverflowLink) (-1))) by lia.
    destruct (forest_first _ _ _ _ _ Hfor) as (mid & post' & -> & Hsub).
    rewrite <- app_assoc in Hc.
    assert (Hl : (if 0 <? zlen ks then le64 (get off) (lengths_of ks + zlen ks * 2)
                  else u64 (le64_signed (get off) node.kOverflowLink)) =
                 match ks with [] => overflow_of get off | k :: _ => k.2 end).
    { destruct ks as [|k ks].
      - apply (child_link dir dt size maximum kMaxName [] off [] Hn Ho).
      - rewrite (proj2 (Z.ltb_lt _ _)) by (unfold zlen; simpl; lia).
        rewrite <- (node_value dir dt size maximum kMaxName off (k :: ks) 0 k Hn eq_refl). f_equal. lia. }
    rewrite Hl. destruct (IH _ mid fuel fs1 (post' ++ post) Hs1 Hc Hsub) as (fs' & first & es & rest & -> & -> & Hs'); [lia|].
    eexists _, _, _, _. splits; eauto.
Qed.

(** A key is handed out exactly when it ends in the node's first [block_size]
    bytes, whatever the node's size. *)
Lemma node_key_at fs off es i e :
  settled fs -> node_at dt size maximum kMaxName get off es -> es !! i = Some e ->
  node_key (vol fs) (get off) (zlen es) (u16 (Z.of_nat i)) =
    if node.kFixed + zlen (keys (take (S i) es)) <=? block_size (vol fs0) then Some e.1 else None.
Proof.
  intros [_ Hc] [[Hr _ _] Hn Hk _] Hi. pose proof (lookup_lt_Some _ _ _ Hi) as Hlt.
  assert (Hb : block_size (vol fs) = block_size (vol fs0)) by apply (only_cache_same _ _ Hc).
  rewrite u16_small by (unfold zlen in Hn; lia). unfold node_key.
  rewrite (proj2 (Z.leb_gt _ _)), (proj2 (Z.ltb_ge _ _)) by (unfold zlen in *; lia). cbn [orb].
  pose proof (rep_key_lengths (get off) size es Hr) as Hkl. cbv beta in Hkl.
  rewrite (nr_count _ _ _ Hr) in Hkl. rewrite Hkl.
  destruct (rep_key_slice (get off) size es Hr i e Hi) as (-> & Hend & ->).
  rewrite Forall_forall in Hk. specialize (Hk e). rewrite (proj2 (Z.ltb_ge kMaxName _)).
  2:{ apply Hk, list_elem_of_lookup. eauto. }
  cbn [orb]. rewrite Hend, Hb, Z.ltb_antisym. now destruct (_ <=? _).
Qed.

Lemma count_leaves_list ls : forall fuel fs off es i,
  settled fs -> leaf_chain ((off, es) :: ls) -> (length ls < fuel)%nat ->
  exists fs', count_leaves fuel fs dir size maximum off (Z.of_nat i) =
      (listed (block_size (vol fs0)) ((off, es) :: ls) i, fs') /\ settled fs'.
Proof.
  induction ls as [|[next es'] ls IH]; intros fuel fs off es i Hs (Hn & Ho & Hr & Hc) Hf;
    (destruct fuel as [|fuel]; [lia|]); cbn [count_leaves];
    destruct (node_read dir dt size maximum kMaxName Hst Hsize Hmax fs off es Hs Hn)
      as (fs1 & -> & Hs1 & Hw & -> & Hl & ->);
    rewrite (proj2 (Z.leb_le _ _)) by (apply Z.ltb_ge in Hw; lia); cbn [negb];
    unfold overflow_of in Ho; rewrite Ho, Z.eqb_refl; cbn [negb];
    (destruct (Z.ltb_spec (Z.of_nat i) (zlen es)) as [Hi|Hi];
     [destruct (lookup_lt_is_Some_2 es i) as [e He]; [unfold zlen in Hi; lia|];
      rewrite Hl, (node_key_at fs1 off es i e Hs1 Hn He), (node_value dir dt size maximum kMaxName off es i e Hn He),
        (listed_here _ off es _ i e He);
      exists fs1; destruct e; now destruct (_ <=? _)|]);
    rewrite (listed_later _ off es) by (unfold zlen in Hi; lia).
  - exists fs1. rewrite listed_nil.
    pose proof (le64_range (get off) node.kRightLink (nr_bytes _ _ _ (to_rep _ _ _ _ (na_tree _ _ _ _ _ _ _ Hn))) ltac:(easy)) as Hx.
    unfold right_of, le64_signed, signed in Hr. cbv beta in *. set (r := le64 _ node.kRightLink) in *.
    assert (Hr' : (r =? u64 kNullLink) || (r =? u64 kFreeLink) = true).
    { unfold kNullLink, kFreeLink in *. change (u64 (-1)) with (2 ^ 64 - 1). change (u64 (-2)) with (2 ^ 64 - 2).
      apply orb_true_iff. rewrite !Z.eqb_eq. destruct (r <? 2 ^ (64 - 1)); lia. }
    now rewrite Hr'.
  - destruct Hc as (Hn' & Hc). pose proof (na_off _ _ _ _ _ _ _ Hn') as [Hn0 Hn1].
    pose proof (le64_range (get off) node.kRightLink (nr_bytes _ _ _ (to_rep _ _ _ _ (na_tree _ _ _ _ _ _ _ Hn))) ltac:(easy)) as Hx.
    assert (Hr' : le64 (get off) node.kRightLink = next).
    { unfold right_of, le64_signed, signed in Hr. cbv beta in *. set (r := le64 _ node.kRightLink) in *.
      destruct (r <? 2 ^ (64 - 1)); lia. }
    cbv beta in Hr'. rewrite Hr'. unfold node.kFixed in Hsize.
    change (u64 kNullLink) with (2 ^ 64 - 1). change (u64 kFreeLink) with (2 ^ 64 - 2).
    rewrite !(proj2 (Z.eqb_neq next _)) by lia. cbn [orb].
    replace (Z.of_nat i - zlen es) with (Z.of_nat (i - length es)) by (unfold zlen in *; lia).
    apply IH; [exact Hs1|now split|simpl in Hf; lia].
Qed.
End listing.

(** [dir] is a directory with the leaves [ls]. *)
Definition directory_leaves (dir : Inode) (ls : list leaf) : Prop :=
  exists size maximum, tree_in 16 kTreeStringType kMaxName (in_data dir) size maximum ls.

(** [dir] is a directory with the entries [es], in key order. *)
Definition directory (dir : Inode) (es : list (bytes * Z)) : Prop :=
  exists ls, directory_leaves dir ls /\ es = entries ls.

Lemma dir_find_law fs dir es name :
  settled fs -> directory dir es -> key_ok kTreeStringType name ->
  exists fs', dir_find fs dir name = (assoc name es, fs') /\ settled fs'.
Proof.
  intros Hs (ls & (size & maximum & [Hst (root & Hh & Ht) Hc _]) & ->) Hn. unfold dir_find.
  destruct (node_header_is fs dir _ _ _ _ Hs Hst Hh) as (fs1 & -> & Hs1).
  destruct Hh as [_ _ _ _ _ [Hb Hm]].
  apply (dir_find_tree dir size maximum name Hst Hb Hm Hn 16 16 root ls [] [] 16 fs1); auto; try apply not_elem_of_nil.
  now rewrite app_nil_r.
Qed.

Lemma dir_entry_law fs dir ls (i : nat) :
  settled fs -> directory_leaves dir ls ->
  exists fs', dir_entry fs dir (Z.of_nat i) = (listed (block_size (vol fs0)) ls i, fs') /\ settled fs'.
Proof.
  intros Hs (size & maximum & [Hst (root & Hh & Ht) Hc Hn]). unfold dir_entry.
  destruct (node_header_is fs dir _ _ _ _ Hs Hst Hh) as (fs1 & -> & Hs1).
  destruct Hh as [_ _ _ _ _ [Hb Hm]].
  destruct (leftmost_tree dir kTreeStringType size maximum Hst Hb Hm 16 16 root ls 16 fs1 [] Hs1)
    as (fs2 & first & es & rest & -> & -> & Hs2); auto; [now rewrite app_nil_r|].
  destruct Hc as (Hf & Hc). pose proof (na_off _ _ _ _ _ _ _ Hf) as [Hf0 Hf1].
  apply (count_leaves_list dir kTreeStringType); auto; [now split|]. rewrite zlen_cons in Hn. unfold zlen, node.kFixed in *.
  rewrite u64_small; [lia|]. assert (0 <= maximum / size <= maximum) by (split; [apply Z.div_pos|apply Z.div_le_upper_bound]; nia).
  lia.
Qed.

(** ** The index walk *)

Section index.
Context (index : Inode) (dt size maximum : Z) (key : bytes).
Context (Hst : stream_ok live (view fs0) (vol fs0) (in_data index)).
Context (Hsize : node.kFixed <= size <= kMaxBlockSize) (Hmax : maximum < 2 ^ 62).
Context (Hkey : key_ok dt key).
Local Notation get := (fun off => stream_bytes fs0 (in_data index) off size).
Local Notation leaf_chain := (leaf_chain dt size maximum 65536 get).
Local Notation subtree := (subtree dt size maximum 65536 get).

(** The descent finds the value of a key in a tree whose every leaf is under an
    internal node: it follows no right link. *)
Lemma index_descend_tree n : forall off ls pre post fuel fs,
  settled fs -> leaf_chain (pre ++ ls ++ post) -> subtree 1 n off ls -> (n <= fuel)%nat ->
  exists fs', index_descend fuel fs index size maximum dt key off = (assoc key (entries ls), fs') /\ settled fs'.
Proof.
  induction n as [|n IH]; intros off ls pre post fuel fs Hs Hc Ht Hf;
    inversion Ht as [n' off' es ls' Hlen|n' off' ks ls' Hn Ho Hfor]; subst; [lia|..];
    (destruct fuel as [|fuel]; [lia|]); cbn [index_descend].
  - destruct ls' as [|]; [|simpl in Hlen; lia]. apply leaf_chain_app_r in Hc. destruct Hc as (Hn & Ho & _).
    destruct (node_read index dt size maximum 65536 Hst Hsize Hmax fs off es Hs Hn) as (fs1 & -> & Hs1 & -> & -> & -> & ->).
    rewrite (node_child index dt size maximum 65536 key off es (key_compare_typed dt) Hn).
    unfold overflow_of in Ho. rewrite Ho, Z.eqb_refl. unfold entries. cbn [map concat snd]. rewrite app_nil_r.
    pose proof (leaf_lookup dt es key (to_sorted _ _ _ _ (na_tree _ _ _ _ _ _ _ Hn)) (node_at_keys _ _ _ _ _ _ _ Hn) Hkey) as Hl.
    destruct (first_not_less _ key es) as [i [|]]; cbn [negb].
    + destruct Hl as (e & Hi & ->). rewrite (node_value index dt size maximum 65536 off es i e Hn Hi). eauto.
    + rewrite Hl. eauto.
  - destruct (node_read index dt size maximum 65536 Hst Hsize Hmax fs off ks Hs Hn)
      as (fs1 & -> & Hs1 & -> & -> & -> & ->).
    rewrite (node_child index dt size maximum 65536 key off ks (key_compare_typed dt) Hn).
    pose proof (child_link index dt size maximum 65536 key off ks Hn Ho) as Hl.
    destruct (first_not_less _ key ks) as [i b]. unfold overflow_of in Ho. cbn [fst] in Hl. unfold kNullLink.
    rewrite (proj2 (Z.eqb_neq (le64_signed _ node.kOverflowLink) (-1))) by lia. rewrite Hl.
    pose proof (leaf_chain_keys _ _ _ _ _ _ Hc) as Hk. rewrite !entries_app in Hk.
    apply Forall_app in Hk as [_ Hk]. apply Forall_app in Hk as [Hk _].
    destruct (forest_route _ _ _ _ _ 1 n ks _ ls key Hfor Hkey (node_at_keys _ _ _ _ _ _ _ Hn) Hk)
      as (pre' & mid & post' & -> & Hsub & Hp & Hq).
    destruct (IH (child_of dt key ks (overflow_of get off)) mid (pre ++ pre') (post' ++ post) fuel fs1 Hs1)
      as (fs' & -> & Hs'); auto; try lia.
    + now rewrite <- !app_assoc in *.
    + exists fs'. split; [|exact Hs']. f_equal. rewrite !entries_app, !assoc_app, (proj2 (assoc_None key _) Hp).
      destruct (assoc key (entries mid)); [reflexivity|]. symmetry. now apply assoc_None.
Qed.

(** The inodes a value stands for: itself, or those of one duplicate node. *)
Definition value_holds (value : Z) (vs : list Z) : Prop :=
  if link_is_duplicate value then
    let node := get (link_offset value) in
    link_type value = kDuplicateNode /\ 0 <= link_offset value < 2 ^ 62 /\
    duplicate_count node size = zlen vs /\
    (forall i x, vs !! i = Some x -> duplicate_value node size (Z.of_nat i) = Some x) /\
    le64_signed node node.kRightLink = kNullLink
  else vs = [value].
End index.

(** The inode in block [block]. *)
Definition inode_at fs (block : Z) : option Inode :=
  let b := view fs block in
  if negb (valid_ (vol fs)) || (num_blocks_ (vol fs) <=? block) ||
     negb (le32 b inode.kMagic1 =? kInodeMagic1) || (Z.land (le32 b inode.kFlags) kInodeInUse =? 0) ||
     negb (le32 b inode.kInodeSize =? block_size (vol fs))
  then None else Some (inode_of b).

Lemma settled_block fs block :
  settled fs -> client_block (vol fs0) block -> live block ->
  exists fs', read_block fs block = (Some (view fs0 block), fs') /\ settled fs'.
Proof.
  intros [Hok Hc] Hb Hl. destruct (only_cache_same fs0 fs Hc) as (_ & Hv & _ & _ & _ & Hr & Hcb & _).
  destruct (read_block fs block) as [r fs'] eqn:E.
  apply (read_block_law live) in E as (R1 & R2 & R3 & R4); auto; [|now apply Hcb].
  destruct (R4 (Hr Hro)) as [data ->]. rewrite (R3 data eq_refl), Hv. exists fs'. split; [reflexivity|].
  split; [exact R1|]. exact (only_cache_trans _ _ _ Hc R2).
Qed.

Lemma settled_inode fs block :
  settled fs -> 0 < block -> live block ->
  exists fs', read_inode fs block = (inode_at fs0 block, fs') /\ settled fs'.
Proof.
  intros Hs Hb Hl. unfold read_inode, inode_at. pose proof Hs as [_ Hc]. pose proof Hc as (_ & _ & _ & c & Ev).
  rewrite Ev. change (valid_ (with_cache (vol fs0) c)) with (valid_ (vol fs0)).
  change (num_blocks_ (with_cache (vol fs0) c)) with (num_blocks_ (vol fs0)).
  destruct (negb (valid_ (vol fs0))) eqn:Hv; [eauto|]. destruct (Z.leb_spec (num_blocks_ (vol fs0)) block) as [Hn|Hn]; [eauto|].
  cbn [orb]. destruct (settled_block fs block Hs) as (fs1 & -> & Hs1); auto; [unfold client_block; lia|].
  pose proof Hs1 as [_ Hc1]. assert (Hbs : block_size (vol fs1) = block_size (vol fs0)) by apply (only_cache_same _ _ Hc1).
  rewrite Hbs. destruct (_ || _); eauto.
Qed.

(** The index in block [index_block] has the inodes [vs] under [key]. *)
Definition index_holds (index_block : Z) (key : bytes) (vs : list Z) : Prop :=
  0 < index_block /\ live index_block /\
  exists index dt size maximum ls, inode_at fs0 index_block = Some index /\
    tree_in 1 dt 65536 (in_data index) size maximum ls /\ key_ok dt key /\
    match assoc key (entries ls) with
    | None => vs = []
    | Some value => value_holds index size value vs
    end.

Lemma index_walk_law fs index_block key vs (i : nat) :
  settled fs -> index_holds index_block key vs -> (i <= length vs)%nat ->
  exists p fs', index_walk fs index_block key (Z.of_nat i) = (vs !! i, p, fs') /\ settled fs' /\
    (is_Some (vs !! i) -> p = Z.of_nat (S i)).
Proof.
  intros Hs (Hb & Hl & index & dt & size & maximum & ls & Ha & [Hst (root & Hh & Ht) Hc _] & Hk & Hv) Hi.
  unfold index_walk. destruct (settled_inode fs index_block Hs Hb Hl) as (fs1 & -> & Hs1). rewrite Ha.
  destruct (node_header_is fs1 index _ _ _ _ Hs1 Hst Hh) as (fs2 & -> & Hs2). destruct Hh as [_ _ _ _ _ [Hbd Hm]].
  destruct (index_descend_tree index dt size maximum key Hst Hbd Hm Hk 16 root ls [] [] 16 fs2) as (fs3 & -> & Hs3);
    auto; [now rewrite app_nil_r|].
  destruct (assoc key (entries ls)) as [value|].
  2:{ subst vs. eexists _, _. splits; eauto. rewrite lookup_nil. intros [? [=]]. }
  unfold value_holds in Hv. destruct (link_is_duplicate value); cbn [negb].
  - destruct Hv as (-> & Ho & Hcount & Hvals & Hright). rewrite Z.eqb_refl. cbn [negb].
    assert (exists k, Z.to_nat 4096 = S k) as [k ->] by (exists (Z.to_nat 4095); lia). cbn [walk_duplicates]. unfold kMaxBlockSize, node.kFixed in Hbd.
    destruct (settled_read fs3 (in_data index) (link_offset value) size) as (fs4 & -> & Hs4); auto; try lia.
    rewrite Hcount. destruct (Z.ltb_spec (Z.of_nat i) (zlen vs)) as [Hlt|Hge].
    + destruct (lookup_lt_is_Some_2 vs i) as [x Hx]; [unfold zlen in Hlt; lia|]. rewrite (Hvals i x Hx), Hx.
      eexists _, _. splits; eauto. intros _. lia.
    + rewrite Hright, Z.eqb_refl, (lookup_ge_None_2 vs i) by (unfold zlen in Hge; lia).
      eexists _, _. splits; eauto. intros [? [=]].
  - subst vs. simpl in Hi. destruct i as [|[|]]; [| |lia]; simpl; eexists _, _; splits; eauto. intros [? [=]].
Qed.

(** ** Attributes *)

(** [inode]'s attribute [name]: its type and its bytes, in the inode's block or
    in a file of its attribute directory; or that there is none. *)
Definition small_attr (inode : Inode) (name : bytes) : option SmallAttribute :=
  let b := view fs0 (to_block (vol fs0) (in_run inode)) in
  let inode_size := le32 b inode.kInodeSize in
  if (inode_size <=? kMaxBlockSize) && (inode.kSmallData <=? inode_size)
  then small_find b inode_size name else None.

Definition block_readable (b : Z) : Prop := client_block (vol fs0) b /\ live b.

Record attr_directory (inode dir : Inode) (es : list (bytes * Z)) : Prop := {
  ad_run : run_is_zero (in_attributes inode) = false;
  ad_block : block_readable (to_block (vol fs0) (in_attributes inode));
  ad_inode : inode_at fs0 (to_block (vol fs0) (in_attributes inode)) = Some dir;
  ad_dir : directory dir es;
}.

Inductive attr_is (inode : Inode) (name : bytes) : option (Z * bytes) -> Prop :=
| attr_in_block e : small_attr inode name = Some e -> attr_is inode name (Some (sa_type e, sa_data e))
| attr_in_file dir es block a :
    small_attr inode name = None -> attr_directory inode dir es -> assoc name es = Some block ->
    block_readable block -> inode_at fs0 block = Some a -> mode_is_attr (in_mode a) = true ->
    0 <= in_size a < 2 ^ 62 -> stream_ok live (view fs0) (vol fs0) (in_data a) ->
    attr_is inode name (Some (in_type a, stream_bytes fs0 (in_data a) 0 (in_size a)))
| attr_no_directory :
    small_attr inode name = None -> run_is_zero (in_attributes inode) = true -> attr_is inode name None
| attr_not_there dir es :
    small_attr inode name = None -> attr_directory inode dir es -> assoc name es = None -> attr_is inode name None.

Lemma attr_small_law fs inode name :
  settled fs -> block_readable (to_block (vol fs0) (in_run inode)) ->
  exists fs', attr_small fs inode name = (small_attr inode name, fs') /\ settled fs'.
Proof.
  intros Hs [Hb Hl]. unfold attr_small, inode_raw, small_attr. pose proof Hs as [_ Hc].
  assert (Ht : to_block (vol fs) (in_run inode) = to_block (vol fs0) (in_run inode)) by apply (only_cache_same _ _ Hc).
  rewrite Ht. destruct (settled_block fs _ Hs Hb Hl) as (fs1 & -> & Hs1). destruct (_ && _); eauto.
Qed.

Lemma attr_dir_law fs inode dir es name :
  settled fs -> attr_directory inode dir es -> key_ok kTreeStringType name ->
  exists fs' fs'', attr_dir_inode fs inode = (Some dir, fs') /\ dir_find fs' dir name = (assoc name es, fs'') /\ settled fs''.
Proof.
  intros Hs [Hr [Hb Hl] Hi Hd] Hn. unfold attr_dir_inode. rewrite Hr. pose proof Hs as [_ Hc].
  assert (Ht : to_block (vol fs) (in_attributes inode) = to_block (vol fs0) (in_attributes inode)) by apply (only_cache_same _ _ Hc).
  rewrite Ht. unfold client_block in Hb. destruct (settled_inode fs _ Hs (proj1 (Z.le_succ_l 0 _) (proj1 Hb)) Hl) as (fs1 & -> & Hs1).
  rewrite Hi. destruct (dir_find_law fs1 dir es name Hs1 Hd Hn) as (fs2 & E & Hs2). eauto.
Qed.

Lemma attr_file_law fs inode name r :
  settled fs -> small_attr inode name = None -> attr_is inode name r -> key_ok kTreeStringType name ->
  exists fs', settled fs' /\
    match r with
    | None => attr_file fs inode name = (None, fs')
    | Some (type, d) => exists a, attr_file fs inode name = (Some a, fs') /\ type = in_type a /\
        d = stream_bytes fs0 (in_data a) 0 (in_size a) /\ 0 <= in_size a < 2 ^ 62 /\
        stream_ok live (view fs0) (vol fs0) (in_data a)
    end.
Proof.
  intros Hs Hsm Ha Hn. unfold attr_file, attr_inode. destruct Ha as [e Hf|dir es block a _ Hd Has [Hb Hl] Hi Hm Hsz Hst|_ Hz|dir es _ Hd Has].
  - congruence.
  - destruct (attr_dir_law fs inode dir es name Hs Hd Hn) as (fs1 & fs2 & -> & -> & Hs2). rewrite Has.
    unfold client_block in Hb. assert (Hb0 : 0 < block) by lia.
    destruct (settled_inode fs2 block Hs2 Hb0 Hl) as (fs3 & -> & Hs3). rewrite Hi, Hm. cbn [negb].
    destruct (settled_inode fs3 block Hs3 Hb0 Hl) as (fs4 & -> & Hs4). rewrite Hi. exists fs4. split; [exact Hs4|].
    exists a. auto.
  - unfold attr_dir_inode. rewrite Hz. eauto.
  - destruct (attr_dir_law fs inode dir es name Hs Hd Hn) as (fs1 & fs2 & -> & -> & Hs2). rewrite Has. eauto.
Qed.

(** An entry's data is as long as 16 bits say. *)
Lemma small_next_data fuel block size at_ e cursor :
  bytes_ok block -> 0 <= at_ -> small_next fuel block size at_ = Some (e, cursor) ->
  zlen (sa_data e) < 65536 /\ 0 <= cursor.
Proof.
  intros Hb. revert at_. induction fuel as [|fuel IH]; intros at_ Ha; [discriminate|]. cbn [small_next].
  destruct (_ && _); [|discriminate].
  assert (Hs : 0 <= entry_size block size at_)
    by (unfold entry_size, small_entry_size; destruct (_ <=? _); [apply u32_range|lia]).
  destruct (entry_size block size at_ =? 0); [discriminate|].
  destruct (negb (is_file_name block at_)); [|apply IH; lia].
  intros [= <- <-]. cbn [sa_data]. pose proof (le16_range block (at_ + 6) Hb). rewrite zlen_slice by lia. lia.
Qed.

Lemma small_find_data block size name e :
  bytes_ok block -> small_find block size name = Some e -> zlen (sa_data e) < 65536.
Proof.
  intros Hb. unfold small_find. generalize (Z.to_nat size) at 1 as fuel.
  assert (Ha : 0 <= inode.kSmallData) by easy. revert Ha. generalize inode.kSmallData as at_.
  intros at_ Ha fuel. revert at_ Ha. induction fuel as [|fuel IH]; intros at_ Ha; [discriminate|]. cbn [small_find_from].
  destruct (small_next _ block size at_) as [[x cursor]|] eqn:E; [|discriminate].
  apply small_next_data in E as [E1 E2]; auto. destruct (name_matches _ name); [now intros [= <-]|]. now apply IH.
Qed.

Lemma small_attr_data inode name e : fs_ok live fs0 -> small_attr inode name = Some e -> zlen (sa_data e) < 65536.
Proof.
  intros Hok. unfold small_attr. destruct (_ && _); [|discriminate]. apply small_find_data, (view_len live fs0 _ Hok).
Qed.

Lemma slice_clip b offset n m :
  0 <= offset <= zlen b -> 0 <= n -> m = Z.min n (zlen b - offset) ->
  slice b offset m = take (Z.to_nat n) (drop (Z.to_nat offset) b).
Proof.
  intros Ho Hn ->. unfold slice, zlen in *. rewrite length_take, length_drop.
  replace (_ - _)%nat with O by lia. rewrite app_nil_r.
  destruct (Z.le_gt_cases n (Z.of_nat (length b) - offset)); [now rewrite Z.min_l by lia|].
  rewrite !take_ge; rewrite ?length_drop; auto; lia.
Qed.

Lemma stream_bytes_clip stream n offset m :
  0 <= offset <= n -> 0 <= m -> 
  take (Z.to_nat m) (drop (Z.to_nat offset) (stream_bytes fs0 stream 0 n)) =
  stream_bytes fs0 stream offset (Z.min m (n - offset)).
Proof.
  intros Ho Hm. unfold stream_bytes. rewrite skipn_map, firstn_map. f_equal.
  apply list_eq. intros i. destruct (decide (Z.of_nat i < Z.min m (n - offset))) as [Hi|Hi].
  - rewrite lookup_take_lt, lookup_drop, !lookup_seqZ_lt by lia. f_equal. lia.
  - rewrite !lookup_ge_None_2; auto; rewrite ?length_take, ?length_drop, ?length_seqZ; lia.
Qed.

Lemma attr_read_law fs inode name r offset n :
  fs_ok live fs0 -> settled fs -> block_readable (to_block (vol fs0) (in_run inode)) -> attr_is inode name r ->
  key_ok kTreeStringType name -> 0 <= offset < 2 ^ 64 -> 0 <= n < 2 ^ 32 ->
  exists fs', attr_read fs inode name offset n =
      (option_map (fun a => take (Z.to_nat n) (drop (Z.to_nat offset) a.2)) r, fs') /\ settled fs'.
Proof.
  intros Hok Hs Hb Ha Hn Ho Hl. unfold attr_read. destruct (attr_small_law fs inode name Hs Hb) as (fs1 & -> & Hs1).
  destruct (small_attr inode name) as [e|] eqn:Hsm.
  - destruct Ha as [e' E|? ? ? ? E|E|? ? E]; try congruence. rewrite Hsm in E. injection E as <-.
    exists fs1. split; [|exact Hs1]. cbn [option_map snd]. pose proof (zlen_nonneg (sa_data e)).
    destruct (Z.leb_spec (zlen (sa_data e)) offset) as [Hge|Hlt].
    + rewrite (drop_ge (sa_data e)) by (unfold zlen in Hge; lia). now rewrite take_nil.
    + apply (small_attr_data inode name e Hok) in Hsm. rewrite u32_small by lia. do 2 f_equal.
      apply slice_clip; [lia..|]. destruct (Z.ltb_spec (zlen (sa_data e) - offset) n); lia.
  - destruct (attr_file_law fs1 inode name r Hs1 Hsm Ha Hn) as (fs2 & Hs2 & Hr). destruct r as [[type d]|].
    2:{ rewrite Hr. eauto. }
    destruct Hr as (a & -> & _ & -> & Hsz & Hst). cbn [option_map snd]. rewrite u64_small by lia.
    destruct (Z.ltb_spec (in_size a) offset) as [Hgt|Hle].
    + exists fs2. split; [|exact Hs2]. rewrite drop_ge, take_nil; [reflexivity|].
      unfold stream_bytes. rewrite length_map, length_seqZ. lia.
    + rewrite stream_bytes_clip by lia.
      assert (Hgot : (if in_size a - offset <? n then u32 (in_size a - offset) else n) = Z.min n (in_size a - offset)).
      { destruct (Z.ltb_spec (in_size a - offset) n); [rewrite u32_small by lia|]; lia. }
      rewrite Hgot. apply settled_read; auto; lia.
Qed.

Lemma attr_stat_law fs inode name r :
  settled fs -> block_readable (to_block (vol fs0) (in_run inode)) -> attr_is inode name r ->
  key_ok kTreeStringType name ->
  exists fs', attr_stat fs inode name = (option_map (fun a => (a.1, zlen a.2)) r, fs') /\ settled fs'.
Proof.
  intros Hs Hb Ha Hn. unfold attr_stat. destruct (attr_small_law fs inode name Hs Hb) as (fs1 & -> & Hs1).
  destruct (small_attr inode name) as [e|] eqn:Hsm.
  - destruct Ha as [e' E|? ? ? ? E|E|? ? E]; try congruence. rewrite Hsm in E. injection E as <-. eauto.
  - destruct (attr_file_law fs1 inode name r Hs1 Hsm Ha Hn) as (fs2 & Hs2 & Hr). destruct r as [[type d]|].
    2:{ rewrite Hr. eauto. }
    destruct Hr as (a & -> & -> & -> & Hsz & _). exists fs2. split; [|exact Hs2]. cbn [option_map fst snd].
    rewrite u64_small by lia. unfold stream_bytes, zlen. rewrite length_map, length_seqZ. do 3 f_equal. lia.
Qed.
End walks.

(** * Theorems *)


(** Calls of [index_walk] from [position] until it returns [false]. *)
Fixpoint index_values {D} `{SectorDevice D} (fuel : nat) (fs : Fs D) (index_block : Z) (key : bytes) (position : Z)
    : option (list Z) :=
  match fuel with
  | O => None
  | S fuel =>
    match index_walk fs index_block key position with
    | (None, _, _) => Some []
    | (Some inode_block, position, fs) =>
      option_map (cons inode_block) (index_values fuel fs index_block key position)
    end
  end.

(** C39: The walk over an index ends, and it returns exactly the inodes the index
    holds under the key, in order: none for a key that is not there, the value
    itself, or the values of a duplicate node.  (The tree's leaves are all under
    internal nodes, and a key's duplicates are in one node.) *)
Theorem index_walk_spec {D} `{SectorDeviceLaws D} (live : Z -> Prop) (fs : Fs D) (index_block : Z) (key : bytes)
    (vs : list Z) (fuel : nat) :
  fs_ok live fs -> reads_ok fs -> index_holds live fs index_block key vs -> (length vs < fuel)%nat ->
  index_values fuel fs index_block key 0 = Some vs.
Proof.
  intros Hok Hro Hi Hf. assert (Hs : settled live fs fs) by (split; auto using only_cache_refl).
  assert (Hgen : forall suf pre fuel fs1, vs = pre ++ suf -> (length suf < fuel)%nat -> settled live fs fs1 ->
    index_values fuel fs1 index_block key (zlen pre) = Some suf).
  { induction suf as [|x suf IH]; intros pre fuel1 fs1 Hvs Hf1 Hs1; (destruct fuel1 as [|fuel1]; [simpl in Hf1; lia|]); cbn [index_values];
      (destruct (index_walk_law live fs Hro fs1 index_block key vs (length pre) Hs1 Hi) as (p & fs2 & E & Hs2 & Hp);
       [rewrite Hvs, length_app; lia|]); unfold zlen at 1; rewrite E.
    - rewrite lookup_ge_None_2 by (rewrite Hvs, app_nil_r; lia). reflexivity.
    - assert (Hx : vs !! length pre = Some x) by (rewrite Hvs, lookup_app_r, Nat.sub_diag by lia; reflexivity).
      rewrite Hx in *. rewrite Hp by eauto. replace (Z.of_nat (S (length pre))) with (zlen (pre ++ [x]))
        by (rewrite zlen_app; unfold zlen; simpl; lia).
      rewrite (IH (pre ++ [x]) fuel1 fs2); auto; [now rewrite <- app_assoc|simpl in Hf1; lia]. }
  exact (Hgen vs [] fuel fs eq_refl Hf Hs).
Qed.

(** An attribute is a type and a string of bytes, wherever it is stored: in
    the inode's own block, or in a file of the attribute directory.  Reading
    [n] bytes at [offset] gives that part of the string, clipped to its end;
    [attr_stat] gives the type and the length; both are refused exactly when
    there is no such attribute. *)
Theorem attr_read_spec {D} `{SectorDeviceLaws D} (live : Z -> Prop) (fs : Fs D) (inode : Inode) (name : bytes)
    (r : option (Z * bytes)) (offset n : Z) :
  fs_ok live fs -> reads_ok fs -> block_readable live fs (to_block (vol fs) (in_run inode)) ->
  attr_is live fs inode name r -> key_ok kTreeStringType name -> 0 <= offset < 2 ^ 64 -> 0 <= n < 2 ^ 32 ->
  (attr_read fs inode name offset n).1 =
    option_map (fun a => take (Z.to_nat n) (drop (Z.to_nat offset) a.2)) r /\
  (attr_stat fs inode name).1 = option_map (fun a => (a.1, zlen a.2)) r.
Proof.
  intros Hok Hro Hb Ha Hn Ho Hl. assert (Hs : settled live fs fs) by (split; auto using only_cache_refl). split.
  - destruct (attr_read_law live fs Hro fs inode name r offset n Hok Hs Hb Ha Hn Ho Hl) as (fs' & -> & _). reflexivity.
  - destruct (attr_stat_law live fs Hro fs inode name r Hs Hb Ha Hn) as (fs' & -> & _). reflexivity.
Qed.

(** * On concrete volumes *)

Module SampleDir.
Definition null : Z := 2 ^ 64 - 1.
Definition linked (left_ right over : Z) : bytes :=
  put_le64 (put_le64 (put_le64 (zeros 1024) node.kLeftLink left_) node.kRightLink right) node.kOverflowLink over.
Definition node_of (right over : Z) (es : list (bytes * Z)) : bytes := assemble 1024 (linked null right over) es.
Definition header (dt maximum : Z) : bytes := tree_header_build (zeros 1024) (mkTreeHeader 1024 1 dt 1024 null maximum).

(** Blocks written one after the other from [b]. *)
Fixpoint put_blocks (d : Disk.disk) (b : Z) (images : list bytes) : Disk.disk :=
  match images with [] => d | image :: images => put_blocks (Sample.put_block d b image) (b + 1) images end.

(** An inode at block [b] whose stream is the [n] blocks from [start]. *)
Definition inode_block (b mode start n : Z) : bytes :=
  let block := inode_build 1024 (mkRun 0 b 1) (mkRun 0 0 0) mode 0 0 0 [120] in
  inode_set_stream block (put_run (zeros data.kBytes) data.kDirect (mkRun 0 start n)) (n * 1024) 0.

Definition mounted (blocks : Z) (first : Z) (images : list bytes) : Fs Disk.disk :=
  (mount (put_blocks (Sample.disk (Sample.super blocks 6 1 8 0) blocks None) first images)).2.

Definition inode_in (fs : Fs Disk.disk) (b : Z) : Inode := inode_of (view fs b).

(** Two leaves under a root: a directory, and the same tree as an index whose
    second key has two duplicates. *)
Definition leaf1 : list (bytes * Z) := [([97], 101); ([98], 102)].
Definition leaf2 : list (bytes * Z) := [([99], 103)].
Definition index1 : list (bytes * Z) := [([97], 101); ([98], make_link kDuplicateNode 4096)].
Definition root : list (bytes * Z) := [([98], 2048)].
(** An inode with one small attribute and an attribute directory. *)
Definition owner : bytes :=
  let block := put_run (inode_block 22 32768 0 0) inode.kAttributes (mkRun 0 10 1) in
  match small_set block 1024 77 [109] [1; 2; 3] with Some b => b | None => [] end.
Definition attr_es : list (bytes * Z) := [([107], 29)].

Definition fs : Fs Disk.disk :=
  mounted 32 10 (inode_block 10 16384 23 4 :: inode_block 11 16384 17 5 ::
    [header 0 4096; node_of null 3072 root; node_of 3072 null leaf1; node_of null null leaf2; inode_block 16 16384 12 4;
     header 0 5120; node_of null 3072 root; node_of 3072 null index1; node_of null null leaf2;
     duplicate_build 1024 null null [7; 8]; owner;
     header 0 4096; node_of null null attr_es; zeros 1024; zeros 1024; zeros 1024; zeros 1024;
     inode_set_type (inode_block 29 kModeAttr 30 1) 55; replicate 1024 9]).

Lemma fs_okay : fs_ok (fun _ => True) fs.
Proof. apply idle_fs_ok; [split; vm_compute; intuition congruence|vm_compute; reflexivity..]. Qed.

Lemma fs_reads : reads_ok fs.
Proof. apply (powered_reads fs 64); [split; vm_compute; congruence|vm_compute; congruence]. Qed.

(** A stream checked by evaluation. *)
Definition clientb (b : Z) : bool := (1 <=? b) && (b <? num_blocks_ (vol fs)).
Definition run_okb (r : Run) : bool :=
  (0 <=? allocation_group r) && (allocation_group r <? 2 ^ 32) && (0 <=? start r) && (start r <? 65536) &&
  (0 <=? run_length r) && (run_length r <? 65536).
Definition stream_okb (stream : bytes) : bool :=
  let rs := stream_runs (view fs) (vol fs) stream in
  bytes_okb stream && forallb clientb (stream_arrays (view fs) (vol fs) stream) &&
  forallb (fun r => run_okb r && forallb clientb (run_blocks (vol fs) r)) rs &&
  (runs_total (vol fs) rs <? 2 ^ 63).

Lemma clientb_all bs : forallb clientb bs = true -> Forall (fun b => client_block (vol fs) b /\ True) bs.
Proof.
  rewrite forallb_forall. intros Hb. apply Forall_forall. intros b Hin%list_elem_of_In. apply Hb in Hin.
  unfold clientb, client_block in *. breflect. split; [lia|exact I].
Qed.

Lemma stream_okb_true stream : stream_okb stream = true -> stream_ok (fun _ => True) (view fs) (vol fs) stream.
Proof.
  unfold stream_okb. intros Hs. breflect. split; auto using bytes_okb_true, clientb_all.
  match goal with H : forallb (fun r => _) _ = true |- _ => rename H into Hr end. rewrite forallb_forall in Hr.
  apply Forall_forall. intros r Hin%list_elem_of_In. apply Hr in Hin. unfold run_okb in Hin. breflect. split.
  - repeat split; auto.
  - now apply clientb_all.
Qed.

(** A node built from its entries is a node with those entries. *)
Definition entry_okb (e : bytes * Z) : bool :=
  bytes_okb e.1 && (1 <=? zlen e.1) && (zlen e.1 <=? 255) && (0 <=? e.2) && (e.2 <? 2 ^ 64).

Fixpoint sortedb (es : list (bytes * Z)) : bool :=
  match es with
  | [] => true
  | e :: es => forallb (fun x => key_compare_typed kTreeStringType e.1 x.1 <? 0) es && sortedb es
  end.

Lemma sortedb_true es : sortedb es = true -> sorted kTreeStringType es.
Proof.
  induction es as [|e es IH]; [constructor|]. cbn [sortedb]. intros Hs. breflect. constructor; [now apply IH|].
  match goal with H : forallb _ _ = true |- _ => rewrite forallb_forall in H; rename H into Hf end.
  apply Forall_forall. intros x Hx%list_elem_of_In. now apply Z.ltb_lt, Hf.
Qed.

Definition node_okb (right over : Z) (es : list (bytes * Z)) : bool :=
  forallb entry_okb es && sortedb es && bytes_okb (linked null right over) && (zlen es <=? 512) &&
  (zlen (keys es) <? 65536) && (lengths_of es + zlen es * 10 <=? 1024).

Lemma node_of_tree right over es :
  node_okb right over es = true ->
  tree_ok kTreeStringType (node_of right over es) 1024 es /\ Forall (fun e => zlen e.1 <= 255) es.
Proof.
  unfold node_okb. intros Hb. breflect.
  match goal with H : forallb _ _ = true |- _ => rename H into He end. rewrite forallb_forall in He.
  assert (Hall : Forall (fun e : bytes * Z => (key_ok kTreeStringType e.1 /\ value_ok e) /\ zlen e.1 <= 255) es).
  { apply Forall_forall. intros e Hin%list_elem_of_In. apply He in Hin. unfold entry_okb in Hin. breflect.
    unfold key_ok, value_ok, kMaxKeyLength. splits; auto using bytes_okb_true; try lia; intros [|]; discriminate. }
  apply Forall_and in Hall as [Hall1 Hall2]. split; [|exact Hall2]. destruct (keys_bytes _ _ Hall1) as [Hk Hv].
  split; auto using sortedb_true. apply assemble_rep; auto using bytes_okb_true. unfold node.kFixed, kMaxBlockSize. lia.
Qed.

Lemma node_fine get off right over es maximum max_key :
  get off = node_of right over es -> node_okb right over es = true ->
  (0 <=? off) && (off + 1024 <=? maximum) && (255 <=? max_key) = true ->
  node_at kTreeStringType 1024 maximum max_key get off es.
Proof.
  intros Hg Hb Ho. destruct (node_of_tree right over es Hb) as [Ht Hk]. unfold node_okb in Hb. breflect.
  split; auto; [now rewrite Hg|]. eapply Forall_impl; [exact Hk|]. simpl. lia.
Qed.

(** The tree of two leaves, in the directory (block 16) and in the index (11). *)
Lemma two_leaves get es1 maximum max_key g :
  get 1024 = node_of null 3072 root -> get 2048 = node_of 3072 null es1 -> get 3072 = node_of null null leaf2 ->
  node_okb 3072 null es1 = true -> (4096 <=? maximum) && (255 <=? max_key) = true ->
  overflow_of get 2048 = kNullLink -> right_of get 2048 = 3072 -> map fst es1 = [[97]; [98]] -> (1 <= g)%nat ->
  leaf_chain kTreeStringType 1024 maximum max_key get [(2048, es1); (3072, leaf2)] /\
  subtree kTreeStringType 1024 maximum max_key get g 16 1024 [(2048, es1); (3072, leaf2)].
Proof.
  intros H1 H2 H3 Hb Hm O2 R2 Hes Hg. breflect.
  assert (Hat : forall off, 0 <= off <= 3072 -> (0 <=? off) && (off + 1024 <=? maximum) && (255 <=? max_key) = true)
    by (intros; rewrite !andb_true_iff, !Z.leb_le; lia).
  pose proof (node_fine get 1024 null 3072 root maximum max_key H1 ltac:(vm_compute; reflexivity) ltac:(apply Hat; lia)) as N1.
  pose proof (node_fine get 2048 3072 null es1 maximum max_key H2 Hb ltac:(apply Hat; lia)) as N2.
  pose proof (node_fine get 3072 null null leaf2 maximum max_key H3 ltac:(vm_compute; reflexivity) ltac:(apply Hat; lia)) as N3.
  assert (O1 : overflow_of get 1024 = 3072) by (unfold overflow_of; rewrite H1; vm_compute; reflexivity).
  split.
  - cbn [leaf_chain]. splits; auto; [|left]; unfold overflow_of, right_of; rewrite H3; vm_compute; reflexivity.
  - apply (sub_node _ _ _ _ _ _ 15 1024 root); [exact N1|rewrite O1; lia|]. rewrite O1. clear - Hes Hg.
    apply (forest_child _ _ _ _ _ _ _ [98] 2048 [] 3072 [(2048, es1)] [(3072, leaf2)]).
    + apply sub_leaves. simpl. lia.
    + apply forest_last, sub_leaves. simpl. lia.
    + unfold entries. simpl. rewrite app_nil_r.
      destruct es1 as [|[k1 v1] [|[k2 v2] [|]]]; try discriminate Hes. injection Hes as -> ->.
      repeat constructor; vm_compute; congruence.
    + repeat constructor; vm_compute; congruence.
Qed.

Lemma dir_directory : directory_leaves (fun _ => True) fs (inode_in fs 16) [(2048, leaf1); (3072, leaf2)].
Proof.
  exists 1024, 4096.
  destruct (two_leaves (fun off => stream_bytes fs (in_data (inode_in fs 16)) off 1024) leaf1 4096 kMaxName 16)
    as [Hc Ht]; [vm_compute; reflexivity..|lia|].
  split; [apply stream_okb_true; vm_compute; reflexivity| |exact Hc|vm_compute; congruence].
  exists 1024. split; [|exact Ht]. split; [vm_compute; reflexivity..|split; [split|]; vm_compute; congruence].
Qed.

Lemma key_one k : byte_ok k -> key_ok kTreeStringType [k].
Proof. intros Hk. unfold key_ok. splits; [constructor; [exact Hk|constructor]|easy|easy|intros [|]; discriminate..]. Qed.

Lemma index_index : index_holds (fun _ => True) fs 11 [98] [7; 8].
Proof.
  split; [lia|]. split; [exact I|].
  exists (inode_in fs 11), kTreeStringType, 1024, 5120, [(2048, index1); (3072, leaf2)].
  split; [vm_compute; reflexivity|]. split.
  - destruct (two_leaves (fun off => stream_bytes fs (in_data (inode_in fs 11)) off 1024) index1 5120 65536 1)
      as [Hc Ht]; [vm_compute; reflexivity..|lia|].
    split; [apply stream_okb_true; vm_compute; reflexivity| |exact Hc|vm_compute; congruence].
    exists 1024. split; [|exact Ht]. split; [vm_compute; reflexivity..|split; [split|]; vm_compute; congruence].
  - split; [apply key_one; unfold byte_ok; lia|].
    replace (assoc [98] (entries [(2048, index1); (3072, leaf2)])) with (Some (make_link kDuplicateNode 4096))
      by (vm_compute; reflexivity).
    unfold value_holds. replace (link_is_duplicate (make_link kDuplicateNode 4096)) with true by (vm_compute; reflexivity).
    replace (link_offset (make_link kDuplicateNode 4096)) with 4096 by (vm_compute; reflexivity).
    replace (stream_bytes fs (in_data (inode_in fs 11)) 4096 1024) with (duplicate_build 1024 null null [7; 8])
      by (vm_compute; reflexivity).
    split; [vm_compute; reflexivity|]. split; [lia|]. split; [vm_compute; reflexivity|].
    split; [|vm_compute; reflexivity].
    intros [|[|i]] x Hx; [injection Hx as <-; vm_compute; reflexivity..|discriminate Hx].
Qed.

Lemma attributes : attr_directory (fun _ => True) fs (inode_in fs 22) (inode_in fs 10) attr_es.
Proof.
  split; [vm_compute; reflexivity|split; [vm_compute; intuition congruence|exact I]|vm_compute; reflexivity|].
  exists [(1024, attr_es)]. split; [|reflexivity]. exists 1024, 4096.
  set (get := fun off => stream_bytes fs (in_data (inode_in fs 10)) off 1024).
  assert (Hg : get 1024 = node_of null null attr_es) by (vm_compute; reflexivity).
  assert (Hat : node_at kTreeStringType 1024 4096 kMaxName get 1024 attr_es)
    by (apply (node_fine get 1024 null null attr_es 4096 kMaxName Hg); vm_compute; reflexivity).
  split; [apply stream_okb_true; vm_compute; reflexivity| | |vm_compute; congruence].
  - exists 1024. split; [split; [vm_compute; reflexivity..|split; [split|]; vm_compute; congruence]|].
    apply sub_leaves. simpl. lia.
  - fold get. cbn [leaf_chain]. split; [exact Hat|]. split; [|split; [left|exact I]]; unfold overflow_of, right_of; rewrite Hg; vm_compute; reflexivity.
Qed.

(** The attribute [k] is a file of 1024 nines, of type 55. *)
Lemma attribute_k : attr_is (fun _ => True) fs (inode_in fs 22) [107] (Some (55, replicate 1024 9)).
Proof.
  replace (Some (55, replicate 1024 9)) with
    (Some (in_type (inode_in fs 29), stream_bytes fs (in_data (inode_in fs 29)) 0 (in_size (inode_in fs 29))))
    by (vm_compute; reflexivity).
  apply (attr_in_file _ _ _ _ (inode_in fs 10) attr_es 29); [vm_compute; reflexivity|exact attributes|vm_compute; reflexivity
    |split; [vm_compute; intuition congruence|exact I]|vm_compute; reflexivity|vm_compute; reflexivity
    |vm_compute; intuition congruence|apply stream_okb_true; vm_compute; reflexivity].
Qed.
End SampleDir.


Lemma index_walk_spec_witness : index_values 3 SampleDir.fs 11 [98] 0 = Some [7; 8].
Proof.
  apply (index_walk_spec _ SampleDir.fs 11 [98] [7; 8] 3 SampleDir.fs_okay SampleDir.fs_reads SampleDir.index_index).
  simpl. lia.
Defined.

Lemma attr_read_spec_witness :
  (attr_read SampleDir.fs (SampleDir.inode_in SampleDir.fs 22) [107] 1022 16).1 = Some [9; 9] /\
  (attr_stat SampleDir.fs (SampleDir.inode_in SampleDir.fs 22) [107]).1 = Some (55, 1024).
Proof.
  assert (Hb : block_readable (fun _ => True) SampleDir.fs
    (to_block (vol SampleDir.fs) (in_run (SampleDir.inode_in SampleDir.fs 22))))
    by (split; [vm_compute; intuition congruence|exact I]).
  assert (Hk : key_ok kTreeStringType [107]) by (apply SampleDir.key_one; unfold byte_ok; lia).
  destruct (attr_read_spec _ SampleDir.fs (SampleDir.inode_in SampleDir.fs 22) [107] _ 1022 16 SampleDir.fs_okay
    SampleDir.fs_reads Hb SampleDir.attribute_k Hk ltac:(lia) ltac:(lia)) as [-> ->].
  split; reflexivity.
Defined.

(** The small attribute [m] of the same inode, by evaluation. *)
Example attr_small_read :
  (attr_read SampleDir.fs (SampleDir.inode_in SampleDir.fs 22) [109] 1 16).1 = Some [2; 3] /\
  (attr_entry SampleDir.fs (SampleDir.inode_in SampleDir.fs 22) 0).1 = Done ([109], 77, 3) /\
  (attr_entry SampleDir.fs (SampleDir.inode_in SampleDir.fs 22) 1).1 = Done ([107], 55, 1024) /\
  (attr_entry SampleDir.fs (SampleDir.inode_in SampleDir.fs 22) 2).1 = Refused.
Proof. vm_compute. splits; reflexivity. Qed.

(** * What the walks miss *)

Module SampleWalk.
Import SampleDir.

(** An index whose key [b] has three inodes in two duplicate nodes. *)
Definition two_nodes : Fs Disk.disk :=
  mounted 32 10 [inode_block 10 16384 11 4; header 0 4096;
    node_of null null [([98], make_link kDuplicateNode 2048)];
    duplicate_build 1024 null 3072 [7; 8]; duplicate_build 1024 2048 null [9]].

(** The same entries in two leaves side by side, the first the root. *)
Definition side_by_side : Fs Disk.disk :=
  mounted 32 10 [inode_block 10 16384 11 3; header 0 3072; node_of 2048 null leaf1; node_of null null leaf2].

(** [n] leaves of one entry each, in a row. *)
Fixpoint row (n : nat) (i : Z) : list bytes :=
  match n with
  | O => []
  | S m => node_of (match m with O => null | _ => (i + 2) * 1024 end) null [([97 + i], 100 + i)] :: row m (i + 1)
  end.
Definition long_row : Fs Disk.disk :=
  mounted 64 10 (inode_block 10 16384 11 18 :: header 0 (18 * 1024) :: row 17 0).

(** A directory whose one leaf says it has 600 entries. *)
Definition crowded : Fs Disk.disk :=
  mounted 32 10 [inode_block 10 16384 11 2; header 0 2048; put_le16 (node_of null null leaf1) node.kKeyCount 600].

(** Nodes of two blocks, as the disk builder makes them: one leaf with five
    names of 250 bytes. *)
Definition long_name (i : Z) : bytes := (97 + i) :: replicate 249 120.
Definition big_entries : list (bytes * Z) := map (fun i => (long_name i, 100 + i)) [0; 1; 2; 3; 4].
Definition big_image : bytes :=
  let links := put_le64 (put_le64 (put_le64 (zeros 2048) node.kLeftLink null) node.kRightLink null) node.kOverflowLink null in
  tree_header_build (zeros 2048) (mkTreeHeader 2048 1 0 2048 null 4096) ++ assemble 2048 links big_entries.
Definition big_nodes : Fs Disk.disk :=
  mounted 32 10 (inode_block 10 16384 11 4 :: map (fun i => slice big_image (i * 1024) 1024) [0; 1; 2; 3]).

(** Once its blocks are cached the walk over [two_nodes] changes nothing. *)
Definition warm : Fs Disk.disk := (index_walk two_nodes 10 [98] 2).2.

Lemma warm_walk :
  index_walk warm 10 [98] 1 = (Some 8, 2, warm) /\ index_walk warm 10 [98] 2 = (Some 9, 1, warm).
Proof. split; vm_compute; reflexivity. Qed.

Lemma warm_cycle fuel :
  index_values fuel warm 10 [98] 1 = None /\ index_values fuel warm 10 [98] 2 = None.
Proof.
  destruct warm_walk as [W1 W2]. induction fuel as [|fuel [IH1 IH2]]; [split; reflexivity|].
  cbn [index_values]. rewrite W1, W2, IH1, IH2. split; reflexivity.
Qed.
End SampleWalk.

(** Over more than one duplicate node the walk does not end.  [index_walk]
    keeps the position within the node it stopped at, and the next call counts it
    from the first node again: with 7 and 8 in one node and 9 in the next, the
    calls return 7, 8, 9, and then 8, 9, 8, 9 and so on. *)
Theorem index_walk_restarts :
  let walk := index_walk SampleWalk.two_nodes 10 [98] in
  (walk 0).1 = (Some 7, 1) /\ (walk 1).1 = (Some 8, 2) /\ (walk 2).1 = (Some 9, 1) /\
  forall fuel, index_values fuel SampleWalk.two_nodes 10 [98] 2 = None.
Proof.
  intros walk. splits; [vm_compute; reflexivity..|]. intros [|fuel]; [reflexivity|]. cbn [index_values].
  assert (E : index_walk SampleWalk.two_nodes 10 [98] 2 = (Some 9, 1, SampleWalk.warm)) by (vm_compute; reflexivity).
  rewrite E, (proj1 (SampleWalk.warm_cycle fuel)). reflexivity.
Qed.

(** Leaves that are not under an internal node: the directory lookup follows
    right links and finds [c] in the second leaf, the index walk does not. *)
Theorem index_walk_first_leaf :
  (dir_find SampleWalk.side_by_side (SampleDir.inode_in SampleWalk.side_by_side 10) [99]).1 = Some 103 /\
  (index_walk SampleWalk.side_by_side 10 [99] 0).1.1 = None /\
  (index_walk SampleWalk.side_by_side 10 [98] 0).1.1 = Some 102.
Proof. vm_compute. splits; reflexivity. Qed.

(** The lookup reads at most 16 nodes, so in a row of 17 leaves it does not
    find the name in the last, which listing returns. *)
Theorem lookup_stops_at_sixteen :
  let dir := SampleDir.inode_in SampleWalk.long_row 10 in
  (dir_entry SampleWalk.long_row dir 16).1 = Done ([113], 116) /\
  (dir_find SampleWalk.long_row dir [113]).1 = None /\
  (dir_find SampleWalk.long_row dir [112]).1 = Some 115.
Proof. vm_compute. splits; reflexivity. Qed.

(** Listing does not check a node's count against the 512 lengths it has room
    for; the lookup in the same directory does. *)
Theorem dir_entry_overruns :
  let dir := SampleDir.inode_in SampleWalk.crowded 10 in
  (dir_entry SampleWalk.crowded dir 0).1 = Overrun /\ (dir_find SampleWalk.crowded dir [97]).1 = None.
Proof. vm_compute. splits; reflexivity. Qed.

(** Listing refuses a key that ends past the first [block_size] bytes of its
    node, though the node is larger and lookups find the name: [node_key]
    compares with the block's size, not the node's. *)
Theorem big_node_not_listed :
  let dir := SampleDir.inode_in SampleWalk.big_nodes 10 in
  map (fun i => (dir_find SampleWalk.big_nodes dir (SampleWalk.long_name i)).1) [2; 3; 4] = [Some 102; Some 103; Some 104] /\
  (dir_entry SampleWalk.big_nodes dir 2).1 = Done (SampleWalk.long_name 2, 102) /\
  (dir_entry SampleWalk.big_nodes dir 3).1 = Refused /\ (dir_entry SampleWalk.big_nodes dir 4).1 = Refused.
Proof. vm_compute. splits; reflexivity. Qed.
