(* ===== verification/Query.v ===== *)
(** Queries (libs/freestanding/aegir-bfs, include/aegir/bfs/query.h and
    src/query.cc): the recursive-descent parser that turns a query's text into
    postfix terms, and the evaluation of the terms on one inode with a stack of
    bools.  The theorems say that a query the parser accepts is a disjunction of
    conjunctions of equations and that it matches an inode exactly when that
    formula holds of the inode's attributes; that the parser ends; and that a
    query written out with quotes parses back. *)
From stdpp Require Import base numbers strings list list_numbers.
From Stdlib Require Import ZArith Lia.
From Stdlib Require Import SpecFloat.
From S2P Require Import Prelude.
From S2P Require Import Layout.
From S2P Require Import Device.
From S2P Require Import Volume.
From S2P Require Import BlockStore.
From S2P Require Import BPlusTree.
From S2P Require Import Attribute.
From S2P Require Import Stream.
From S2P Require Import Directory.

(** * Data *)

(** The characters of a literal of the source. *)
Definition str (s : string) : bytes :=
  map (fun a => Z.of_N (Ascii.N_of_ascii a)) (String.list_ascii_of_string s).

Module Ch.
Definition tab : Z := 9.
Definition newline : Z := 10.
Definition return_ : Z := 13.
Definition space : Z := 32.
Definition bang : Z := 33.
Definition quote : Z := 34.
Definition amp : Z := 38.
Definition apostrophe : Z := 39.
Definition close_paren : Z := 41.
Definition plus : Z := 43.
Definition minus : Z := 45.
Definition dot : Z := 46.
Definition zero : Z := 48.
Definition nine : Z := 57.
Definition less : Z := 60.
Definition equals : Z := 61.
Definition greater : Z := 62.
Definition backslash : Z := 92.
Definition bar : Z := 124.
End Ch.

Inductive QueryOp :=
| kQueryEqual | kQueryUnequal | kQueryGreater | kQueryLess
| kQueryGreaterEqual | kQueryLessEqual | kQueryAnd | kQueryOr.

#[export] Instance QueryOp_eq_dec : EqDecision QueryOp.
Proof. solve_decision. Defined.

Inductive QueryLiteral := LString | LInteger | LUnsigned | LReal | LBoolean.

Definition kMaxQueryValue : Z := 64.
Definition kMaxQueryTerms : Z := 16.

(** [double]: an IEEE 754 binary64 number. *)
Notation f64 := spec_float.

Record QueryEquation := mkEquation {
  q_op : QueryOp;
  q_literal : QueryLiteral;
  q_attribute : bytes;
  q_value : bytes;
  q_integer : Z;
  q_unsigned : Z;
  q_real : f64;
  q_boolean : bool;
}.

Inductive QueryTerm := TEquation (e : QueryEquation) | TOperator (op : QueryOp).

(** ** Type codes (aegir-metadata, include/aegir/metadata.h) *)

Definition type_code (a b c d : Z) : Z :=
  Z.lor (Z.lor (Z.lor (Z.shiftl a 24) (Z.shiftl b 16)) (Z.shiftl c 8)) d.
Definition code (s : string) : Z :=
  match str s with [a; b; c; d] => type_code a b c d | _ => 0 end.

Module Types.
Definition kTypeString : Z := Eval vm_compute in code "CSTR"%string.
Definition kTypeInt32 : Z := Eval vm_compute in code "LONG"%string.
Definition kTypeUInt32 : Z := Eval vm_compute in code "ULNG"%string.
Definition kTypeInt64 : Z := Eval vm_compute in code "LLNG"%string.
Definition kTypeUInt64 : Z := Eval vm_compute in code "ULLG"%string.
Definition kTypeInt16 : Z := Eval vm_compute in code "SHRT"%string.
Definition kTypeUInt16 : Z := Eval vm_compute in code "USHT"%string.
Definition kTypeInt8 : Z := Eval vm_compute in code "BYTE"%string.
Definition kTypeUInt8 : Z := Eval vm_compute in code "UBYT"%string.
Definition kTypeFloat : Z := Eval vm_compute in code "FLOT"%string.
Definition kTypeDouble : Z := Eval vm_compute in code "DBLE"%string.
Definition kTypeBool : Z := Eval vm_compute in code "BOOL"%string.
Definition kTypeRaw : Z := Eval vm_compute in code "RAWT"%string.
Definition kTypeMime : Z := Eval vm_compute in code "MIMS"%string.
End Types.
Import Types.

(** * Doubles *)

Definition f64_of_Z (z : Z) : f64 := binary_normalize 53 1024 z 0 false.
Definition f64_mul (a b : f64) : f64 := SFmul 53 1024 a b.
Definition f64_add (a b : f64) : f64 := SFadd 53 1024 a b.

(** The number of a bit pattern with [mw] bits of mantissa and [ew] of
    exponent. *)
Definition float_of_bits (mw ew bits : Z) : spec_float :=
  let sign := Z.testbit bits (mw + ew) in
  let ex := Z.land (Z.shiftr bits mw) (2 ^ ew - 1) in
  let m := Z.land bits (2 ^ mw - 1) in
  let emin := 3 - 2 ^ (ew - 1) - (mw + 1) in
  if ex =? 2 ^ ew - 1 then if m =? 0 then S754_infinity sign else S754_nan
  else
    match (if ex =? 0 then m else m + 2 ^ mw) with
    | Zpos p => S754_finite sign p (if ex =? 0 then emin else ex - 1 + emin)
    | _ => S754_zero sign
    end.

(** [float] to [double], which is exact. *)
Definition f64_of_f32 (x : spec_float) : f64 :=
  match x with
  | S754_finite s m e => binary_normalize 53 1024 (if s then Zneg m else Zpos m) e s
  | _ => x
  end.

(** * The parser

    Its state is the text from [pos] on. *)

Definition is_space (c : Z) : bool :=
  (c =? Ch.space) || (c =? Ch.tab) || (c =? Ch.newline) || (c =? Ch.return_).

Fixpoint skip_space (rest : bytes) : bytes :=
  match rest with
  | c :: rest' => if is_space c then skip_space rest' else rest
  | [] => []
  end.

Definition is_operator_start (c : Z) : bool :=
  (c =? Ch.equals) || (c =? Ch.bang) || (c =? Ch.less) || (c =? Ch.greater) || (c =? Ch.amp) ||
  (c =? Ch.bar) || (c =? Ch.close_paren).

(** Past the opening quote; [used] bytes are already in the buffer. *)
Fixpoint read_quoted_from (rest : bytes) (quote capacity used : Z) : option (bytes * bytes) :=
  match rest with
  | [] => None
  | c :: rest =>
    if c =? quote then Some ([], rest)
    else
      match rest with
      | c' :: rest' =>
        if c =? Ch.backslash then
          if capacity <=? used then None
          else
            match read_quoted_from rest' quote capacity (used + 1) with
            | None => None
            | Some (out, rest) => Some (c' :: out, rest)
            end
        else if capacity <=? used then None
        else
          match read_quoted_from rest quote capacity (used + 1) with
          | None => None
          | Some (out, rest) => Some (c :: out, rest)
          end
      | [] => None
      end
  end.

(** [rest] is on the quote. *)
Definition read_quoted (rest : bytes) (capacity : Z) : option (bytes * bytes) :=
  match rest with
  | [] => None
  | quote :: rest => read_quoted_from rest quote capacity 0
  end.

Fixpoint read_bare_from (rest : bytes) (capacity used : Z) : option (bytes * bytes) :=
  match rest with
  | [] => Some ([], [])
  | c :: rest' =>
    if is_operator_start c then Some ([], rest)
    else if capacity <=? used then None
    else
      match read_bare_from rest' capacity (used + 1) with
      | None => None
      | Some (out, rest) => Some (c :: out, rest)
      end
  end.

(** [while (used != 0 && is_space (out[used - 1])) --used] *)
Definition trim_end (out : bytes) : bytes := reverse (skip_space (reverse out)).

Definition read_bare (rest : bytes) (capacity : Z) : option (bytes * bytes) :=
  match read_bare_from rest capacity 0 with
  | None => None
  | Some (out, rest) => Some (trim_end out, rest)
  end.

Definition INT64_MAX : Z := 2 ^ 63 - 1.
Definition is_digit (c : Z) : bool := negb ((c <? Ch.zero) || (Ch.nine <? c)).

(** [text[0]] as a sign, and the rest. *)
Definition split_sign (text : bytes) : bool * bytes :=
  match text with
  | c :: rest => if (c =? Ch.plus) || (c =? Ch.minus) then (c =? Ch.minus, rest) else (false, text)
  | [] => (false, [])
  end.

Fixpoint integer_digits (text : bytes) (value : Z) : option Z :=
  match text with
  | [] => Some value
  | c :: text =>
    if negb (is_digit c) then None
    else
      let digit := c - Ch.zero in
      if (INT64_MAX - digit) / 10 <? value then None else integer_digits text (value * 10 + digit)
  end.

Definition parse_integer (text : bytes) : option Z :=
  match text with
  | [] => None
  | _ =>
    let '(negative, digits) := split_sign text in
    match digits with
    | [] => None
    | _ =>
      match integer_digits digits 0 with
      | None => None
      | Some value => Some (if negative then - value else value)
      end
    end
  end.

(** The value, and whether there were digits and a dot. *)
Fixpoint real_digits (text : bytes) (value : f64) (digits dot : bool) : option (f64 * bool * bool) :=
  match text with
  | [] => Some (value, digits, dot)
  | c :: text =>
    if is_digit c then
      real_digits text (f64_add (f64_mul value (f64_of_Z 10)) (f64_of_Z (c - Ch.zero))) true dot
    else if (c =? Ch.dot) && negb dot then real_digits text value digits true
    else None
  end.

Definition parse_real (text : bytes) : option f64 :=
  match text with
  | [] => None
  | _ =>
    let '(negative, rest) := split_sign text in
    match real_digits rest (f64_of_Z 0) false false with
    | None => None
    | Some (value, digits, dot) =>
      if negb digits || negb dot then None
      else Some (if negative then SFopp value else value)
    end
  end.

(** ** Terms *)

Definition push (terms : list QueryTerm) (t : QueryTerm) : option (list QueryTerm) :=
  if kMaxQueryTerms <=? zlen terms then None else Some (terms ++ [t]).
Definition push_equation (terms : list QueryTerm) (e : QueryEquation) := push terms (TEquation e).
Definition push_operator (terms : list QueryTerm) (op : QueryOp) := push terms (TOperator op).

Definition is_quote (c : Z) : bool := (c =? Ch.quote) || (c =? Ch.apostrophe).

(** [switch (text[pos])] *)
Definition read_operator (rest : bytes) : option (QueryOp * bytes) :=
  match rest with
  | [] => None
  | c :: rest =>
    let or_equal (op op_equal : QueryOp) :=
      match rest with
      | c' :: rest' => if c' =? Ch.equals then (op_equal, rest') else (op, rest)
      | [] => (op, rest)
      end in
    if c =? Ch.equals then Some (or_equal kQueryEqual kQueryEqual)
    else if c =? Ch.bang then
      match rest with
      | c' :: rest' => if c' =? Ch.equals then Some (kQueryUnequal, rest') else None
      | [] => None
      end
    else if c =? Ch.less then Some (or_equal kQueryLess kQueryLessEqual)
    else if c =? Ch.greater then Some (or_equal kQueryGreater kQueryGreaterEqual)
    else None
  end.

(** The literal a bare value is. *)
Definition bare_literal (op : QueryOp) (attribute value : bytes) : QueryEquation :=
  let eq literal integer real boolean := mkEquation op literal attribute value integer 0 real boolean in
  match parse_integer value with
  | Some integer => eq LInteger integer (f64_of_Z 0) false
  | None =>
    match parse_real value with
    | Some real => eq LReal 0 real false
    | None =>
      if name_equals value (str "true"%string) then eq LBoolean 0 (f64_of_Z 0) true
      else eq (if name_equals value (str "false"%string) then LBoolean else LString) 0 (f64_of_Z 0) false
    end
  end.

Definition string_literal (op : QueryOp) (attribute value : bytes) : QueryEquation :=
  mkEquation op LString attribute value 0 0 (f64_of_Z 0) false.

(** A quoted string or a bare run; [true] is quoted. *)
Definition read_word (rest : bytes) (capacity : Z) : option (bool * bytes * bytes) :=
  match rest with
  | [] => None
  | c :: _ =>
    if is_quote c then
      match read_quoted rest capacity with Some (out, rest) => Some (true, out, rest) | None => None end
    else
      match read_bare rest capacity with Some (out, rest) => Some (false, out, rest) | None => None end
  end.

Definition equation (rest : bytes) (terms : list QueryTerm) : option (bytes * list QueryTerm) :=
  match read_word (skip_space rest) kMaxName with
  | None => None
  | Some (_, attribute, rest) =>
    if zlen attribute =? 0 then None
    else
      match read_operator (skip_space rest) with
      | None => None
      | Some (op, rest) =>
        match read_word (skip_space rest) kMaxQueryValue with
        | None => None
        | Some (quoted, value, rest) =>
          if negb quoted && (zlen value =? 0) then None
          else
            let out := if quoted then string_literal op attribute value else bare_literal op attribute value in
            match push_equation terms out with
            | None => None
            | Some terms => Some (rest, terms)
            end
        end
      end
  end.

(** [text[pos] == c], once or twice, and the text after it. *)
Definition read_joiner (joiner : Z) (rest : bytes) : option bytes :=
  match rest with
  | c :: rest =>
    if c =? joiner then
      Some (match rest with c' :: rest' => if c' =? joiner then rest' else rest | [] => rest end)
    else None
  | [] => None
  end.

(** [for (;;)] of [conjunction] and of [disjunction]: [item] is what is joined. *)
Fixpoint joined (fuel : nat) (item : bytes -> list QueryTerm -> option (bytes * list QueryTerm))
    (joiner : Z) (op : QueryOp) (rest : bytes) (terms : list QueryTerm) : option (bytes * list QueryTerm) :=
  match fuel with
  | O => None
  | S fuel =>
    let rest := skip_space rest in
    match read_joiner joiner rest with
    | None => Some (rest, terms)
    | Some rest =>
      match item rest terms with
      | None => None
      | Some (rest, terms) =>
        match push_operator terms op with
        | None => None
        | Some terms => joined fuel item joiner op rest terms
        end
      end
    end
  end.

Definition conjunction (fuel : nat) (rest : bytes) (terms : list QueryTerm) : option (bytes * list QueryTerm) :=
  match equation rest terms with
  | None => None
  | Some (rest, terms) => joined fuel equation Ch.amp kQueryAnd rest terms
  end.

Definition disjunction (fuel : nat) (rest : bytes) (terms : list QueryTerm) : option (bytes * list QueryTerm) :=
  match conjunction fuel rest terms with
  | None => None
  | Some (rest, terms) => joined fuel (conjunction fuel) Ch.bar kQueryOr rest terms
  end.

(** [parse]'s answer and the terms; each turn of a loop takes a character, so
    as many turns as there are characters, and one more to see the end, are
    enough ([parse_terminates]). *)
Definition parse_with (fuel : nat) (text : bytes) : bool * list QueryTerm :=
  if zlen text =? 0 then (false, [])
  else
    match disjunction fuel text [] with
    | None => (false, [])
    | Some (rest, terms) =>
      if negb (zlen (skip_space rest) =? 0) then (false, []) else (negb (zlen terms =? 0), terms)
    end.
Definition parse (text : bytes) : bool * list QueryTerm := parse_with (S (length text)) text.

Definition query_valid (terms : list QueryTerm) : bool := negb (zlen terms =? 0).

Definition single_equation (terms : list QueryTerm) : option QueryEquation :=
  match terms with [TEquation e] => Some e | _ => None end.

(** * Evaluation *)

Inductive Family := FNone | FString | FInteger | FUnsigned | FReal | FBoolean.

#[export] Instance Family_eq_dec : EqDecision Family.
Proof. solve_decision. Defined.

Definition family_of (type : Z) : Family :=
  if (type =? kTypeString) || (type =? kTypeMime) || (type =? kTypeRaw) then FString
  else if (type =? kTypeInt32) || (type =? kTypeInt64) || (type =? kTypeInt16) || (type =? kTypeInt8) then FInteger
  else if (type =? kTypeUInt32) || (type =? kTypeUInt64) || (type =? kTypeUInt16) || (type =? kTypeUInt8)
  then FUnsigned
  else if (type =? kTypeFloat) || (type =? kTypeDouble) then FReal
  else if type =? kTypeBool then FBoolean
  else FNone.

(** [signed_out] and [unsigned_out], the one not written being 0. *)
Definition decode_integer (data : bytes) (type : Z) : option (Z * Z) :=
  let sized n (out : Z * Z) := if zlen data =? n then Some out else None in
  if type =? kTypeInt8 then sized 1 (signed 8 (byte_at data 0), 0)
  else if type =? kTypeUInt8 then sized 1 (0, byte_at data 0)
  else if type =? kTypeInt16 then sized 2 (signed 16 (le16 data 0), 0)
  else if type =? kTypeUInt16 then sized 2 (0, le16 data 0)
  else if type =? kTypeInt32 then sized 4 (signed 32 (le32 data 0), 0)
  else if type =? kTypeUInt32 then sized 4 (0, le32 data 0)
  else if type =? kTypeInt64 then sized 8 (le64_signed data 0, 0)
  else if type =? kTypeUInt64 then sized 8 (0, le64 data 0)
  else None.

Definition decode_real (data : bytes) (type : Z) : option f64 :=
  if (type =? kTypeFloat) && (zlen data =? 4) then Some (f64_of_f32 (float_of_bits 23 8 (le32 data 0)))
  else if (type =? kTypeDouble) && (zlen data =? 8) then Some (float_of_bits 52 11 (le64 data 0))
  else None.

(** [equal] and [order] of two doubles. *)
Definition compare_real (value literal : f64) : bool * Z :=
  (SFeqb value literal, if SFltb value literal then -1 else if SFltb literal value then 1 else 0).

(** [equal] and [order] of the value against the literal; [None] is [return
    false]. *)
Definition compare_literal (data : bytes) (type : Z) (e : QueryEquation) : option (bool * Z) :=
  let family := family_of type in
  match q_literal e with
  | LString =>
    if negb (bool_decide (family = FString)) then None
    else Some (name_equals data (q_value e), key_compare data (q_value e))
  | LBoolean =>
    if negb (bool_decide (family = FBoolean)) || negb (zlen data =? 1) then None
    else
      let equal := Bool.eqb (negb (byte_at data 0 =? 0)) (q_boolean e) in
      Some (equal, if equal then 0 else 1)
  | LInteger | LUnsigned =>
    let is_integer := match q_literal e with LInteger => true | _ => false end in
    if bool_decide (family = FReal) then
      match decode_real data type with
      | None => None
      | Some value => Some (compare_real value (f64_of_Z (if is_integer then q_integer e else q_unsigned e)))
      end
    else if negb (bool_decide (family = FInteger)) && negb (bool_decide (family = FUnsigned)) then None
    else
      match decode_integer data type with
      | None => None
      | Some (signed_value, unsigned_value) =>
        if bool_decide (family = FInteger) then
          let literal := if is_integer then q_integer e else signed 64 (q_unsigned e) in
          Some (signed_value =? literal, three_way signed_value literal)
        else
          let literal := if is_integer then u64 (q_integer e) else q_unsigned e in
          Some (unsigned_value =? literal, three_way unsigned_value literal)
      end
  | LReal =>
    if negb (bool_decide (family = FReal)) && negb (bool_decide (family = FInteger)) &&
       negb (bool_decide (family = FUnsigned)) then None
    else
      let value :=
        if bool_decide (family = FReal) then decode_real data type
        else
          match decode_integer data type with
          | None => None
          | Some (signed_value, unsigned_value) =>
            Some (f64_of_Z (if bool_decide (family = FInteger) then signed_value else unsigned_value))
          end in
      match value with
      | None => None
      | Some value => Some (compare_real value (q_real e))
      end
  end.

(** [switch (equation.op)] *)
Definition apply_op (op : QueryOp) (equal : bool) (order : Z) : bool :=
  match op with
  | kQueryEqual => equal
  | kQueryUnequal => negb equal
  | kQueryGreater => 0 <? order
  | kQueryLess => order <? 0
  | kQueryGreaterEqual => 0 <=? order
  | kQueryLessEqual => order <=? 0
  | kQueryAnd | kQueryOr => false
  end.

Definition equation_true (data : bytes) (type : Z) (e : QueryEquation) : bool :=
  match compare_literal data type e with
  | None => false
  | Some (equal, order) => apply_op (q_op e) equal order
  end.

(** The attributes every inode has: type and data, at most 64 bytes. *)
Definition standard_attribute (inode : Inode) (name : bytes) : option (Z * bytes) :=
  if name_equals name (str "name"%string) then Some (kTypeString, take (Z.to_nat kMaxQueryValue) (in_name inode))
  else if name_equals name (str "size"%string) then Some (kTypeInt64, le_split 8 (u64 (in_size inode)))
  else if name_equals name (str "last_modified"%string)
  then Some (kTypeInt64, le_split 8 (u64 (Z.shiftr (in_mtime inode) 16)))
  else None.

Section evaluation.
Context {D : Type} `{SectorDevice D}.
Implicit Types fs : Fs D.

Definition match_equation fs (inode : Inode) (e : QueryEquation) : bool * Fs D :=
  match standard_attribute inode (q_attribute e) with
  | Some (type, data) => (equation_true data type e, fs)
  | None =>
    match attr_stat fs inode (q_attribute e) with
    | (None, fs) => (false, fs)
    | (Some (type, attribute_size), fs) =>
      let wanted := if attribute_size <? kMaxQueryValue then attribute_size else kMaxQueryValue in
      match attr_read fs inode (q_attribute e) 0 wanted with
      | (None, fs) => (false, fs)
      | (Some data, fs) => (equation_true data type e, fs)
      end
    end
  end.

(** The loop over the terms; the stack's top is the list's head. *)
Fixpoint run_terms fs (inode : Inode) (terms : list QueryTerm) (stack : list bool) : option (list bool) * Fs D :=
  match terms with
  | [] => (Some stack, fs)
  | TEquation e :: terms =>
    if kMaxQueryTerms <=? zlen stack then (None, fs)
    else let '(b, fs) := match_equation fs inode e in run_terms fs inode terms (b :: stack)
  | TOperator op :: terms =>
    match stack with
    | right_ :: left_ :: stack =>
      run_terms fs inode terms ((if bool_decide (op = kQueryAnd) then left_ && right_ else left_ || right_) :: stack)
    | _ => (None, fs)
    end
  end.

Definition matches fs (inode : Inode) (terms : list QueryTerm) : bool * Fs D :=
  if zlen terms =? 0 then (false, fs)
  else
    match run_terms fs inode terms [] with
    | (Some [b], fs) => (b, fs)
    | (_, fs) => (false, fs)
    end.
End evaluation.

(** * What a query means *)

(** A query is a disjunction of conjunctions of equations. *)
Notation formula := (list (list QueryEquation)) (only parsing).

(** [x1], then each further [x] followed by the operator. *)
Definition postfix_list {A} (op : QueryOp) (terms_of : A -> list QueryTerm) (l : list A) : list QueryTerm :=
  match l with
  | [] => []
  | x :: l => terms_of x ++ concat (map (fun y => terms_of y ++ [TOperator op]) l)
  end.
Definition conj_terms (es : list QueryEquation) : list QueryTerm :=
  postfix_list kQueryAnd (fun e => [TEquation e]) es.
Definition postfix (f : formula) : list QueryTerm := postfix_list kQueryOr conj_terms f.

(** No disjunct is empty, and there is one. *)
Definition formula_ok (f : formula) : Prop := f <> [] /\ Forall (fun es => es <> []) f.

Lemma postfix_list_snoc {A} op (terms_of : A -> list QueryTerm) l x :
  l <> [] -> postfix_list op terms_of (l ++ [x]) = postfix_list op terms_of l ++ terms_of x ++ [TOperator op].
Proof.
  destruct l as [|y l]; [congruence|]. intros _. cbn [postfix_list app].
  rewrite map_app, concat_app, <- app_assoc. simpl. now rewrite app_nil_r.
Qed.

(** ** The stack machine *)

Section machine.
Context {D : Type} `{SectorDevice D} (inode : Inode).
Implicit Types fs : Fs D.

(** Every item evaluated, from left to right, whatever the ones before gave. *)
Fixpoint eval_list {A} (eval : Fs D -> A -> bool * Fs D) (combine : bool -> bool -> bool) fs (acc : bool) (l : list A)
    : bool * Fs D :=
  match l with
  | [] => (acc, fs)
  | x :: l => let '(b, fs) := eval fs x in eval_list eval combine fs (combine acc b) l
  end.
Definition eval_items {A} (eval : Fs D -> A -> bool * Fs D) (combine : bool -> bool -> bool) fs (l : list A) : bool * Fs D :=
  match l with
  | [] => (false, fs)
  | x :: l => let '(b, fs) := eval fs x in eval_list eval combine fs b l
  end.
Definition eval_conj fs (es : list QueryEquation) : bool * Fs D :=
  eval_items (fun fs e => match_equation fs inode e) andb fs es.
Definition eval_formula fs (f : formula) : bool * Fs D := eval_items eval_conj orb fs f.

(** Terms that leave their value on a stack with room for [n]. *)
Definition pushes {A} (eval : Fs D -> A -> bool * Fs D) (terms_of : A -> list QueryTerm) (n : Z) (x : A) : Prop :=
  forall fs more stack, zlen stack + n <= kMaxQueryTerms ->
    run_terms fs inode (terms_of x ++ more) stack =
      let '(b, fs) := eval fs x in run_terms fs inode more (b :: stack).

Lemma run_list {A} (eval : Fs D -> A -> bool * Fs D) op (combine : bool -> bool -> bool) terms_of n (l : list A) :
  0 <= n -> (forall a b, (if bool_decide (op = kQueryAnd) then a && b else a || b) = combine a b) ->
  l <> [] -> Forall (pushes eval terms_of n) l ->
  pushes (fun fs l => eval_items eval combine fs l) (postfix_list op terms_of) (n + 1) l.
Proof.
  intros Hn Hop Hne Hall fs more stack Hs. destruct l as [|x l]; [congruence|]. apply Forall_cons in Hall as [Hx Hl].
  cbn [postfix_list eval_items]. rewrite <- app_assoc, Hx by lia. destruct (eval fs x) as [b fs1]. clear Hx Hne.
  revert b fs1. induction Hl as [|y l Hy Hl IH]; intros b fs1; [reflexivity|].
  cbn [map concat eval_list]. rewrite <- !app_assoc, Hy by (rewrite zlen_cons; lia).
  destruct (eval fs1 y) as [b' fs2]. cbn [app run_terms]. rewrite Hop. apply IH.
Qed.

Lemma eval_run fs f :
  formula_ok f -> matches fs inode (postfix f) = eval_formula fs f.
Proof.
  intros [Hne Hall].
  assert (He : forall e : QueryEquation,
    pushes (fun fs e => match_equation fs inode e) (fun e => [TEquation e]) 1 e).
  { intros e fs1 more stack Hs. cbn [app run_terms]. now rewrite (proj2 (Z.leb_gt _ _)) by lia. }
  assert (Hc : forall es, es <> [] -> pushes eval_conj conj_terms 2 es).
  { intros es Hes. exact (run_list _ kQueryAnd andb _ 1 es ltac:(lia) (fun _ _ => eq_refl) Hes (Forall_true _ es He)). }
  assert (Hp : pushes eval_formula postfix 3 f).
  { refine (run_list _ kQueryOr orb _ 2 f ltac:(lia) (fun _ _ => eq_refl) Hne _).
    eapply Forall_impl; [exact Hall|exact Hc]. }
  unfold matches. specialize (Hp fs [] []). rewrite app_nil_r in Hp. rewrite Hp by (unfold kMaxQueryTerms; rewrite zlen_nil; lia).
  destruct (Z.eqb_spec (zlen (postfix f)) 0) as [E|_].
  - apply zlen_0 in E. destruct f as [|[|e es] f]; [congruence| |discriminate E].
    apply Forall_cons in Hall as [Hnil _]. congruence.
  - destruct (eval_formula fs f) as [b fs1]. reflexivity.
Qed.
End machine.

(** * The parser's results *)

Lemma skip_space_length rest : (length (skip_space rest) <= length rest)%nat.
Proof. induction rest as [|c rest IH]; [reflexivity|]. cbn [skip_space]. destruct (is_space c); simpl; lia. Qed.

(** A quoted string fits its buffer, and its text is consumed. *)
Lemma read_quoted_from_bounds quote capacity : forall n rest used out rest',
  (length rest <= n)%nat -> 0 <= used <= capacity ->
  read_quoted_from rest quote capacity used = Some (out, rest') ->
  used + zlen out <= capacity /\ (length rest' < length rest)%nat.
Proof.
  induction n as [|n IH]; intros [|c rest] used out rest' Hn Hu; try discriminate; [simpl in Hn; lia|]. simpl in Hn.
  cbn [read_quoted_from]. destruct (c =? quote); [intros [= <- <-]; rewrite zlen_nil; simpl; lia|].
  destruct rest as [|c' rest]; [discriminate|]. simpl in Hn.
  assert (Hgo : forall x r, (length r <= S (length rest))%nat -> (length r <= n)%nat ->
    (if capacity <=? used then None
     else match read_quoted_from r quote capacity (used + 1) with
          | None => None | Some (out, rest) => Some (x :: out, rest) end) = Some (out, rest') ->
    used + zlen out <= capacity /\ (length rest' < length (c :: c' :: rest))%nat).
  { intros x r Hr Hrn. destruct (Z.leb_spec capacity used); [discriminate|].
    destruct (read_quoted_from r quote capacity (used + 1)) as [[o r']|] eqn:E; [|discriminate]. intros [= <- <-].
    apply IH in E as [E1 E2]; [|lia..]. rewrite zlen_cons. simpl. lia. }
  destruct (c =? Ch.backslash); [apply (Hgo c' rest)|apply (Hgo c (c' :: rest))]; simpl; lia.
Qed.

Lemma read_bare_from_bounds capacity rest : forall used out rest',
  0 <= used <= capacity -> read_bare_from rest capacity used = Some (out, rest') ->
  used + zlen out <= capacity /\ (length rest' <= length rest)%nat.
Proof.
  induction rest as [|c rest IH]; intros used out rest' Hu; cbn [read_bare_from].
  { intros [= <- <-]. rewrite zlen_nil. simpl. lia. }
  destruct (is_operator_start c); [intros [= <- <-]; rewrite zlen_nil; simpl; lia|].
  destruct (Z.leb_spec capacity used); [discriminate|].
  destruct (read_bare_from rest capacity (used + 1)) as [[o r']|] eqn:E; [|discriminate]. intros [= <- <-].
  apply IH in E as [E1 E2]; [|lia]. rewrite zlen_cons. simpl. lia.
Qed.

Lemma trim_end_length out : zlen (trim_end out) <= zlen out.
Proof.
  unfold trim_end, zlen. rewrite length_reverse. pose proof (skip_space_length (reverse out)) as Hs.
  rewrite length_reverse in Hs. lia.
Qed.

Lemma read_word_bounds rest capacity q out rest' :
  0 <= capacity -> read_word rest capacity = Some (q, out, rest') ->
  zlen out <= capacity /\ (length rest' <= length rest)%nat.
Proof.
  intros Hc. destruct rest as [|c rest]; [discriminate|]. cbn [read_word]. destruct (is_quote c).
  - cbn [read_quoted]. destruct (read_quoted_from rest c capacity 0) as [[o r]|] eqn:E; [|discriminate].
    intros [= _ <- <-]. apply (read_quoted_from_bounds _ _ (length rest)) in E; simpl; lia.
  - unfold read_bare. destruct (read_bare_from (c :: rest) capacity 0) as [[o r]|] eqn:E; [|discriminate].
    intros [= _ <- <-]. apply read_bare_from_bounds in E; [|lia]. pose proof (trim_end_length o). lia.
Qed.

Lemma read_operator_length rest op rest' :
  read_operator rest = Some (op, rest') -> (length rest' < length rest)%nat /\ op <> kQueryAnd /\ op <> kQueryOr.
Proof.
  destruct rest as [|c [|c' rest]]; [discriminate|..]; cbn [read_operator];
    destruct (c =? Ch.equals), (c =? Ch.bang), (c =? Ch.less), (c =? Ch.greater);
    try discriminate; try (destruct (c' =? Ch.equals)); try discriminate;
    intros [= <- <-]; simpl; splits; try lia; discriminate.
Qed.

(** What the parser puts in an equation's buffers. *)
Definition equation_fits (e : QueryEquation) : Prop :=
  1 <= zlen (q_attribute e) <= kMaxName /\ zlen (q_value e) <= kMaxQueryValue /\
  q_op e <> kQueryAnd /\ q_op e <> kQueryOr.

Lemma bare_literal_fits op attribute value :
  q_attribute (bare_literal op attribute value) = attribute /\ q_value (bare_literal op attribute value) = value /\
  q_op (bare_literal op attribute value) = op.
Proof.
  unfold bare_literal. destruct (parse_integer value); [auto|]. destruct (parse_real value); [auto|].
  destruct (name_equals value (str "true"%string)); auto.
Qed.

Lemma equation_result rest terms rest' terms' :
  equation rest terms = Some (rest', terms') ->
  (length rest' < length rest)%nat /\
  exists e, terms' = terms ++ [TEquation e] /\ equation_fits e /\ zlen terms < kMaxQueryTerms.
Proof.
  unfold equation. pose proof (skip_space_length rest) as L1.
  destruct (read_word (skip_space rest) kMaxName) as [[[q attribute] rest1]|] eqn:E1; [|discriminate].
  apply read_word_bounds in E1 as [B1 L2]; [|unfold kMaxName; lia].
  destruct (Z.eqb_spec (zlen attribute) 0) as [|Ha]; [discriminate|]. pose proof (zlen_nonneg attribute).
  pose proof (skip_space_length rest1) as L3.
  destruct (read_operator (skip_space rest1)) as [[op rest2]|] eqn:E2; [|discriminate].
  apply read_operator_length in E2 as (L4 & Ho1 & Ho2). pose proof (skip_space_length rest2) as L5.
  destruct (read_word (skip_space rest2) kMaxQueryValue) as [[[quoted value] rest3]|] eqn:E3; [|discriminate].
  apply read_word_bounds in E3 as [B3 L6]; [|unfold kMaxQueryValue; lia].
  destruct (negb quoted && (zlen value =? 0)); [discriminate|]. unfold push_equation, push.
  destruct (Z.leb_spec kMaxQueryTerms (zlen terms)); [discriminate|]. intros [= <- <-]. split; [lia|].
  eexists. split; [reflexivity|]. split; [|lia].
  destruct (bare_literal_fits op attribute value) as (F1 & F2 & F3).
  destruct quoted; unfold equation_fits; rewrite ?F1, ?F2, ?F3; simpl; splits; auto; lia.
Qed.

(** [item] adds the terms of something good and shortens the text. *)
Definition item_spec {A} (item : bytes -> list QueryTerm -> option (bytes * list QueryTerm))
    (terms_of : A -> list QueryTerm) (good : A -> Prop) : Prop :=
  forall rest terms rest' terms', zlen terms <= kMaxQueryTerms -> item rest terms = Some (rest', terms') ->
    (length rest' < length rest)%nat /\ zlen terms' <= kMaxQueryTerms /\
    exists x, terms' = terms ++ terms_of x /\ good x.

Lemma read_joiner_length joiner rest rest' : read_joiner joiner rest = Some rest' -> (length rest' < length rest)%nat.
Proof.
  destruct rest as [|c [|c' rest]]; cbn [read_joiner]; [discriminate|..]; destruct (c =? joiner); try discriminate;
    intros [= <-]; [simpl; lia|]. destruct (c' =? joiner); simpl; lia.
Qed.

Lemma joined_result {A} item (terms_of : A -> list QueryTerm) good joiner op fuel :
  item_spec item terms_of good ->
  forall rest terms rest' terms', zlen terms <= kMaxQueryTerms ->
  joined fuel item joiner op rest terms = Some (rest', terms') ->
  (length rest' <= length rest)%nat /\ zlen terms' <= kMaxQueryTerms /\
  exists xs, terms' = terms ++ concat (map (fun y => terms_of y ++ [TOperator op]) xs) /\ Forall good xs.
Proof.
  intros Hitem. induction fuel as [|fuel IH]; intros rest terms rest' terms' Ht; [discriminate|]. cbn [joined].
  pose proof (skip_space_length rest) as L1. destruct (read_joiner joiner (skip_space rest)) as [rest1|] eqn:E1.
  2:{ intros [= <- <-]. splits; auto. exists []. simpl. now rewrite app_nil_r. }
  apply read_joiner_length in E1. destruct (item rest1 terms) as [[rest2 terms2]|] eqn:E2; [|discriminate].
  apply Hitem in E2 as (L2 & T2 & x & -> & Hx); [|auto]. unfold push_operator, push.
  destruct (Z.leb_spec kMaxQueryTerms (zlen (terms ++ terms_of x))); [discriminate|]. intros E.
  apply IH in E as (L3 & T3 & xs & -> & Hxs); [|rewrite zlen_app, zlen_cons, zlen_nil; lia].
  splits; [lia|auto|]. exists (x :: xs). split; [|now constructor]. cbn [map concat]. now rewrite <- !app_assoc.
Qed.

Definition conj_good (es : list QueryEquation) : Prop := es <> [] /\ Forall equation_fits es.

Lemma conjunction_spec fuel : item_spec (conjunction fuel) conj_terms conj_good.
Proof.
  intros rest terms rest' terms' Ht. unfold conjunction. destruct (equation rest terms) as [[rest1 terms1]|] eqn:E; [|discriminate].
  apply equation_result in E as (L1 & e & -> & He & Hl). intros E.
  apply (joined_result equation (fun e => [TEquation e]) equation_fits) in E as (L2 & T2 & es & -> & Hes).
  - splits; [lia|auto|]. exists (e :: es). split; [|split; [discriminate|now constructor]].
    unfold conj_terms. cbn [postfix_list]. now rewrite <- app_assoc.
  - intros r t r' t' Ht' Hr. apply equation_result in Hr as (L & x & -> & Hx & Hl'). splits; [auto| |eauto].
    rewrite zlen_app, zlen_cons, zlen_nil. lia.
  - rewrite zlen_app, zlen_cons, zlen_nil. lia.
Qed.

Lemma parse_result text terms :
  parse text = (true, terms) ->
  zlen terms <= kMaxQueryTerms /\ exists f, terms = postfix f /\ f <> [] /\ Forall conj_good f.
Proof.
  unfold parse, parse_with. destruct (zlen text =? 0); [discriminate|]. unfold disjunction.
  destruct (conjunction _ text []) as [[rest1 terms1]|] eqn:E1; [|discriminate].
  apply conjunction_spec in E1 as (_ & T1 & es & E1 & He); [|unfold kMaxQueryTerms; rewrite zlen_nil; lia].
  rewrite app_nil_l in E1. subst terms1.
  destruct (joined _ _ Ch.bar kQueryOr rest1 (conj_terms es)) as [[rest2 terms2]|] eqn:E2; [|discriminate].
  apply (joined_result _ _ _ _ _ _ (conjunction_spec _)) in E2 as (_ & T2 & f & -> & Hf); [|auto].
  destruct (negb (zlen (skip_space rest2) =? 0)); [discriminate|]. intros [= _ <-]. split; [auto|].
  exists (es :: f). splits; [reflexivity|discriminate|now constructor].
Qed.

(** ** The parser ends *)

Lemma joined_fuel item item' joiner op : forall fuel fuel' rest terms,
  (length rest < fuel)%nat -> (length rest < fuel')%nat ->
  (forall r t, (length r < length rest)%nat -> item r t = item' r t) ->
  (forall r t r' t', item r t = Some (r', t') -> (length r' <= length r)%nat) ->
  joined fuel item joiner op rest terms = joined fuel' item' joiner op rest terms.
Proof.
  induction fuel as [|fuel IH]; intros [|fuel'] rest terms H1 H2 Hi Hs; try lia. cbn [joined].
  pose proof (skip_space_length rest) as L1. destruct (read_joiner joiner (skip_space rest)) as [rest1|] eqn:E1; [|reflexivity].
  apply read_joiner_length in E1. rewrite <- Hi by lia. destruct (item rest1 terms) as [[rest2 terms2]|] eqn:E2; [|reflexivity].
  apply Hs in E2. destruct (push_operator terms2 op); [|reflexivity]. apply IH; [lia..| |exact Hs].
  intros r t Hr. apply Hi. lia.
Qed.

Lemma joined_length item joiner op fuel :
  (forall r t r' t', item r t = Some (r', t') -> (length r' <= length r)%nat) ->
  forall rest terms rest' terms', joined fuel item joiner op rest terms = Some (rest', terms') ->
  (length rest' <= length rest)%nat.
Proof.
  intros Hi. induction fuel as [|fuel IH]; intros rest terms rest' terms'; [discriminate|]. cbn [joined].
  pose proof (skip_space_length rest) as L1. destruct (read_joiner joiner (skip_space rest)) as [rest1|] eqn:E1; [|now intros [= <- <-]].
  apply read_joiner_length in E1. destruct (item rest1 terms) as [[rest2 terms2]|] eqn:E2; [|discriminate].
  apply Hi in E2. destruct (push_operator terms2 op); [|discriminate]. intros E. apply IH in E. lia.
Qed.

Lemma equation_length rest terms rest' terms' : equation rest terms = Some (rest', terms') -> (length rest' <= length rest)%nat.
Proof. intros E. apply equation_result in E as [E _]. lia. Qed.

Lemma conjunction_length fuel rest terms rest' terms' :
  conjunction fuel rest terms = Some (rest', terms') -> (length rest' <= length rest)%nat.
Proof.
  unfold conjunction. destruct (equation rest terms) as [[rest1 terms1]|] eqn:E1; [|discriminate].
  apply equation_length in E1. intros E. apply (joined_length _ _ _ _ equation_length) in E. lia.
Qed.

Lemma conjunction_fuel fuel fuel' rest terms :
  (length rest < fuel)%nat -> (length rest < fuel')%nat -> conjunction fuel rest terms = conjunction fuel' rest terms.
Proof.
  intros H1 H2. unfold conjunction. destruct (equation rest terms) as [[rest1 terms1]|] eqn:E; [|reflexivity].
  apply equation_length in E. apply joined_fuel; [lia..|reflexivity|exact equation_length].
Qed.

(** * Writing a query *)

(** A string in double quotes, quotes and backslashes escaped. *)
Fixpoint escape (s : bytes) : bytes :=
  match s with
  | [] => []
  | c :: s => if (c =? Ch.quote) || (c =? Ch.backslash) then Ch.backslash :: c :: escape s else c :: escape s
  end.
Definition write_quoted (s : bytes) : bytes := Ch.quote :: escape s ++ [Ch.quote].

Definition write_op (op : QueryOp) : bytes :=
  match op with
  | kQueryEqual => [Ch.equals; Ch.equals]
  | kQueryUnequal => [Ch.bang; Ch.equals]
  | kQueryGreater => [Ch.greater]
  | kQueryLess => [Ch.less]
  | kQueryGreaterEqual => [Ch.greater; Ch.equals]
  | kQueryLessEqual => [Ch.less; Ch.equals]
  | kQueryAnd | kQueryOr => []
  end.

Definition write_equation (e : QueryEquation) : bytes :=
  write_quoted (q_attribute e) ++ write_op (q_op e) ++ write_quoted (q_value e).
Definition write_joined {A} (write : A -> bytes) (joiner : Z) (l : list A) : bytes :=
  match l with [] => [] | x :: l => write x ++ concat (map (fun y => joiner :: write y) l) end.
Definition write_conj (es : list QueryEquation) : bytes := write_joined write_equation Ch.amp es.
Definition write_query (f : formula) : bytes := write_joined write_conj Ch.bar f.

Lemma read_escaped s rest capacity used :
  used + zlen s <= capacity ->
  read_quoted_from (escape s ++ Ch.quote :: rest) Ch.quote capacity used = Some (s, rest).
Proof.
  revert used. induction s as [|c s IH]; intros used Hc; [reflexivity|]. rewrite zlen_cons in Hc.
  pose proof (zlen_nonneg s).
  assert (Hgo : read_quoted_from (escape s ++ Ch.quote :: rest) Ch.quote capacity (used + 1) = Some (s, rest)) by (apply IH; lia).
  cbn [escape]. destruct (Z.eqb_spec c Ch.quote) as [->|Hq]; cbn [orb].
  - cbn [app read_quoted_from]. simpl (Ch.backslash =? _). cbv iota. rewrite (proj2 (Z.leb_gt _ _)), Hgo by lia. reflexivity.
  - destruct (Z.eqb_spec c Ch.backslash) as [->|Hb]; cbn [app read_quoted_from].
    + simpl (Ch.backslash =? _). cbv iota. rewrite (proj2 (Z.leb_gt _ _)), Hgo by lia. reflexivity.
    + rewrite (proj2 (Z.eqb_neq c Ch.quote) Hq), (proj2 (Z.eqb_neq c Ch.backslash) Hb).
      destruct (escape s ++ Ch.quote :: rest) as [|c' r] eqn:E.
      * destruct s; [discriminate E|]. cbn [escape] in E. destruct (_ || _); discriminate E.
      * rewrite (proj2 (Z.leb_gt _ _)), Hgo by lia. reflexivity.
Qed.

Lemma read_written s rest capacity :
  zlen s <= capacity -> read_word (write_quoted s ++ rest) capacity = Some (true, s, rest).
Proof.
  intros Hc. unfold write_quoted. cbn [app read_word]. simpl (is_quote _). cbv iota. cbn [read_quoted].
  rewrite <- app_assoc. cbn [app]. rewrite read_escaped by lia. reflexivity.
Qed.

Lemma read_written_op op s rest :
  op <> kQueryAnd -> op <> kQueryOr ->
  read_operator (skip_space (write_op op ++ write_quoted s ++ rest)) = Some (op, write_quoted s ++ rest).
Proof. intros H1 H2. destruct op; try congruence; reflexivity. Qed.

(** An equation between strings. *)
Definition is_string (e : QueryEquation) : Prop := e = string_literal (q_op e) (q_attribute e) (q_value e).

Lemma equation_written e rest terms :
  equation_fits e -> is_string e -> zlen terms < kMaxQueryTerms ->
  equation (write_equation e ++ rest) terms = Some (rest, terms ++ [TEquation e]).
Proof.
  intros (Ha & Hv & Ho1 & Ho2) Hs Ht. unfold equation, write_equation. rewrite <- !app_assoc.
  change (skip_space (write_quoted (q_attribute e) ++ ?r)) with (write_quoted (q_attribute e) ++ r).
  rewrite read_written by lia. rewrite (proj2 (Z.eqb_neq _ _)) by lia.
  rewrite read_written_op by auto. change (skip_space (write_quoted (q_value e) ++ rest)) with (write_quoted (q_value e) ++ rest).
  rewrite read_written by lia. cbn [negb andb]. unfold push_equation, push. rewrite (proj2 (Z.leb_gt _ _)) by lia.
  now rewrite <- Hs.
Qed.

(** [write x] followed by anything that [ends] it reads back. *)
Definition reads_back {A} (item : bytes -> list QueryTerm -> option (bytes * list QueryTerm)) (write : A -> bytes)
    (terms_of : A -> list QueryTerm) (ends : bytes -> Prop) (x : A) : Prop :=
  (exists r, write x = Ch.quote :: r) /\
  forall rest terms, ends rest -> zlen terms + zlen (terms_of x) <= kMaxQueryTerms ->
    item (write x ++ rest) terms = Some (rest, terms ++ terms_of x).

Lemma joined_written {A} item (write : A -> bytes) terms_of ends joiner op l : forall fuel rest terms,
  (joiner =? Ch.quote) = false -> is_space joiner = false -> (forall r, ends (joiner :: r)) -> ends rest ->
  skip_space rest = rest -> read_joiner joiner rest = None ->
  Forall (reads_back item write terms_of ends) l -> (length l < fuel)%nat ->
  zlen terms + zlen (concat (map (fun y => terms_of y ++ [TOperator op]) l)) <= kMaxQueryTerms ->
  joined fuel item joiner op (concat (map (fun y => joiner :: write y) l) ++ rest) terms =
    Some (rest, terms ++ concat (map (fun y => terms_of y ++ [TOperator op]) l)).
Proof.
  induction l as [|x l IH]; intros fuel rest terms Hj Hjs He Hr Hs Hn Hall Hf Ht; (destruct fuel as [|fuel]; [lia|]); cbn [joined].
  { cbn [map concat app]. now rewrite Hs, Hn, app_nil_r. }
  apply Forall_cons in Hall as [[[r Hx] Hitem] Hall]. cbn [map concat] in Ht |- *.
  rewrite !zlen_app, zlen_cons, zlen_nil in Ht. rewrite <- !app_assoc. cbn [app skip_space]. rewrite Hjs.
  pose proof (zlen_nonneg (concat (map (fun y => terms_of y ++ [TOperator op]) l))).
  assert (Hrj : forall t, read_joiner joiner (joiner :: write x ++ t) = Some (write x ++ t)).
  { intros t. cbn [read_joiner]. rewrite Z.eqb_refl, Hx. cbn [app]. now rewrite Z.eqb_sym, Hj. }
  rewrite Hrj, Hitem; [|destruct l; [exact Hr|apply He]|lia]. unfold push_operator, push.
  rewrite (proj2 (Z.leb_gt _ _)) by (rewrite zlen_app; lia). rewrite IH; auto.
  - now rewrite <- !app_assoc.
  - simpl in Hf. lia.
  - rewrite !zlen_app, zlen_cons, zlen_nil. lia.
Qed.

Lemma written_length {A} (write : A -> bytes) joiner (l : list A) :
  (length l <= length (concat (map (fun y => joiner :: write y) l)))%nat.
Proof. induction l as [|x l IH]; [reflexivity|]. cbn [map concat length app]. rewrite length_app. lia. Qed.

(** What may follow a conjunction. *)
Definition conj_ends (rest : bytes) : Prop := rest = [] \/ exists r, rest = Ch.bar :: r.

Lemma conjunction_written fuel es :
  es <> [] -> Forall (fun e => equation_fits e /\ is_string e) es -> (length (write_conj es) < fuel)%nat ->
  reads_back (conjunction fuel) write_conj conj_terms conj_ends es.
Proof.
  intros Hne Hall Hf. destruct es as [|e es]; [congruence|]. apply Forall_cons in Hall as [[He1 He2] Hall].
  split; [eexists; reflexivity|]. intros rest terms Hr Ht. unfold write_conj, conj_terms in *.
  cbn [write_joined postfix_list] in *. rewrite zlen_app, zlen_cons, zlen_nil in Ht.
  pose proof (zlen_nonneg (concat (map (fun y => [TEquation y] ++ [TOperator kQueryAnd]) es))).
  unfold conjunction. rewrite <- app_assoc, equation_written by (auto; lia).
  rewrite (joined_written equation write_equation (fun e => [TEquation e]) (fun _ => True)); auto.
  - now rewrite <- app_assoc.
  - destruct Hr as [->|[r ->]]; reflexivity.
  - destruct Hr as [->|[r ->]]; reflexivity.
  - eapply Forall_impl; [exact Hall|]. intros x [Hx1 Hx2]. split; [eexists; reflexivity|].
    intros r t _ Hl. rewrite zlen_cons, zlen_nil in Hl. apply equation_written; auto. lia.
  - rewrite length_app in Hf. pose proof (written_length write_equation Ch.amp es). lia.
  - rewrite zlen_app, zlen_cons, zlen_nil. lia.
Qed.

Lemma parse_written f :
  f <> [] -> Forall (fun es => es <> [] /\ Forall (fun e => equation_fits e /\ is_string e) es) f ->
  zlen (postfix f) <= kMaxQueryTerms -> parse (write_query f) = (true, postfix f).
Proof.
  intros Hne Hall Ht. destruct f as [|es f]; [congruence|]. apply Forall_cons in Hall as [[He1 He2] Hall].
  unfold parse, parse_with, write_query, postfix in *. cbn [write_joined postfix_list] in *. rewrite zlen_app in Ht.
  set (text := write_conj es ++ _). assert (Hlen : (length (write_conj es) < S (length text))%nat) by (unfold text; rewrite length_app; lia).
  destruct (conjunction_written (S (length text)) es He1 He2 Hlen) as [[r Hw] Hc].
  rewrite (proj2 (Z.eqb_neq (zlen text) 0)) by (unfold text; rewrite Hw; cbn [app]; rewrite zlen_cons; pose proof (zlen_nonneg (r ++ concat (map (fun y => Ch.bar :: write_conj y) f))); lia).
  unfold disjunction. unfold text at 2. pose proof (zlen_nonneg (concat (map (fun y => conj_terms y ++ [TOperator kQueryOr]) f))).
  rewrite Hc; [|destruct f; [now left|right; eexists; reflexivity]|rewrite zlen_nil; lia].
  rewrite <- (app_nil_r (concat (map (fun y => Ch.bar :: write_conj y) f))).
  rewrite (joined_written _ write_conj conj_terms conj_ends); auto.
  - cbn [skip_space negb]. simpl (zlen [] =? 0). cbn [negb]. rewrite app_nil_l. f_equal.
    destruct es as [|e es]; [congruence|]. reflexivity.
  - right. eexists. reflexivity.
  - now left.
  - apply Forall_forall. intros x Hx. rewrite Forall_forall in Hall. destruct (Hall x Hx) as [Hx1 Hx2].
    apply conjunction_written; auto. unfold text. rewrite length_app. apply list_elem_of_split in Hx as (l1 & l2 & ->).
    rewrite map_app, concat_app, length_app. cbn [map concat]. rewrite length_app. simpl. lia.
  - unfold text. rewrite length_app. pose proof (written_length write_conj Ch.bar f). lia.
Qed.

(** * Theorems *)

(** ** What an equation means *)

(** A value is compared by what it is: a string as bytes, an integer as a
    number, a real as an IEEE double, a bool as a bool (specs/bfs.md, Queries). *)
Inductive value := VString (s : bytes) | VInteger (n : Z) | VReal (x : f64) | VBoolean (b : bool).

(** The integer types: the width in bytes, and whether there is a sign. *)
Definition integer_types : list (Z * (Z * bool)) :=
  [(kTypeInt8, (1, true)); (kTypeUInt8, (1, false)); (kTypeInt16, (2, true)); (kTypeUInt16, (2, false));
   (kTypeInt32, (4, true)); (kTypeUInt32, (4, false)); (kTypeInt64, (8, true)); (kTypeUInt64, (8, false))].
Definition integer_type (type : Z) : option (Z * bool) := option_map snd (find (fun x => x.1 =? type) integer_types).

(** Two's complement of [n] bytes. *)
Definition number (n : Z) (has_sign : bool) (u : Z) : Z :=
  if has_sign && (2 ^ (8 * n - 1) <=? u) then u - 2 ^ (8 * n) else u.

Definition sized {A} (d : bytes) (n : Z) (x : A) : option A := if zlen d =? n then Some x else None.

(** The value that the little-endian bytes [d] of an attribute stand for. *)
Definition value_of (type : Z) (d : bytes) : option value :=
  if bool_decide (type ∈ [kTypeString; kTypeMime; kTypeRaw]) then Some (VString d)
  else if type =? kTypeBool then sized d 1 (VBoolean (bool_decide (le_num d <> 0)))
  else if type =? kTypeFloat then sized d 4 (VReal (f64_of_f32 (float_of_bits 23 8 (le_num d))))
  else if type =? kTypeDouble then sized d 8 (VReal (float_of_bits 52 11 (le_num d)))
  else match integer_type type with
       | Some (n, has_sign) => sized d n (VInteger (number n has_sign (le_num d)))
       | None => None
       end.

Definition literal_of (e : QueryEquation) : value :=
  match q_literal e with
  | LString => VString (q_value e)
  | LInteger => VInteger (q_integer e)
  | LUnsigned => VInteger (q_unsigned e)
  | LReal => VReal (q_real e)
  | LBoolean => VBoolean (q_boolean e)
  end.

(** The comparison an operator stands for. *)
Definition op_accepts (op : QueryOp) (c : comparison) : bool :=
  match op, c with
  | kQueryEqual, Eq | kQueryUnequal, (Lt | Gt) | kQueryGreater, Gt | kQueryLess, Lt
  | kQueryGreaterEqual, (Gt | Eq) | kQueryLessEqual, (Lt | Eq) => true
  | _, _ => false
  end.

(** Dictionary order. *)
Fixpoint lexicographic (a b : bytes) : comparison :=
  match a, b with
  | [], [] => Eq
  | [], _ => Lt
  | _, [] => Gt
  | x :: a, y :: b => match x ?= y with Eq => lexicographic a b | c => c end
  end.

(** Two numbers of which one is a real are compared as doubles. *)
Definition doubles (v l : value) : option (f64 * f64) :=
  match v, l with
  | VReal x, VReal y => Some (x, y)
  | VReal x, VInteger n => Some (x, f64_of_Z n)
  | VInteger n, VReal y => Some (f64_of_Z n, y)
  | _, _ => None
  end.

(** Values of different families never match; a double that is not a number is
    only unequal to others. *)
Definition compares (op : QueryOp) (v l : value) : bool :=
  match v, l with
  | VString a, VString b => op_accepts op (lexicographic a b)
  | VInteger a, VInteger b => op_accepts op (a ?= b)
  | VBoolean a, VBoolean b => op_accepts op (if Bool.eqb a b then Eq else if a then Gt else Lt)
  | _, _ =>
    match doubles v l with
    | Some (x, y) =>
      match SFcompare x y with Some c => op_accepts op c | None => bool_decide (op = kQueryUnequal) end
    | None => false
    end
  end.

(** The attribute [name] of an inode whose stored attributes are [r]: type and
    value. *)
Definition attribute_value (inode : Inode) (r : bytes -> option (Z * bytes)) (name : bytes) : option (Z * value) :=
  if bool_decide (name = str "name"%string) then Some (kTypeString, VString (in_name inode))
  else if bool_decide (name = str "size"%string) then Some (kTypeInt64, VInteger (in_size inode))
  else if bool_decide (name = str "last_modified"%string) then Some (kTypeInt64, VInteger (in_mtime inode / 2 ^ 16))
  else match r name with
       | Some (type, d) => option_map (pair type) (value_of type d)
       | None => None
       end.

Definition equation_holds (inode : Inode) (r : bytes -> option (Z * bytes)) (e : QueryEquation) : bool :=
  match attribute_value inode r (q_attribute e) with
  | Some (_, v) => compares (q_op e) v (literal_of e)
  | None => false
  end.

(** Where the evaluation follows that meaning: no value longer than 64 bytes
    ([long_name_equal]), no literal outside the 64-bit type the attribute has
    ([unsigned_below_minus_one], [signed_below_huge]), no order between bools
    ([bool_above_true]), and no [>=] or [<=] of what is not a number
    ([nan_at_least_and_at_most]). *)
Record comparable (type : Z) (v : value) (e : QueryEquation) : Prop := {
  cm_integer : - 2 ^ 63 <= q_integer e < 2 ^ 63;
  cm_unsigned : 0 <= q_unsigned e < 2 ^ 64;
  cm_not_negative : forall n, integer_type type = Some (n, false) -> q_literal e = LInteger -> 0 <= q_integer e;
  cm_not_huge : forall n, integer_type type = Some (n, true) -> q_literal e = LUnsigned -> q_unsigned e < 2 ^ 63;
  cm_boolean : forall b, v = VBoolean b -> q_op e = kQueryEqual \/ q_op e = kQueryUnequal;
  cm_number : forall x y, doubles v (literal_of e) = Some (x, y) -> SFcompare x y = None ->
    q_op e <> kQueryGreaterEqual /\ q_op e <> kQueryLessEqual;
}.

Record equation_plain (inode : Inode) (r : bytes -> option (Z * bytes)) (e : QueryEquation) : Prop := {
  ep_size : - 2 ^ 63 <= in_size inode < 2 ^ 63;
  ep_time : - 2 ^ 63 <= in_mtime inode < 2 ^ 63;
  ep_name : bytes_ok (in_name inode) /\ zlen (in_name inode) <= kMaxQueryValue;
  ep_short : forall type d, r (q_attribute e) = Some (type, d) -> bytes_ok d /\ zlen d <= kMaxQueryValue;
  ep_comparable : forall type v, attribute_value inode r (q_attribute e) = Some (type, v) -> comparable type v e;
}.

(** ** The code's comparisons *)

Lemma key_compare_lex a b :
  key_compare a b = match lexicographic a b with Lt => -1 | Eq => 0 | Gt => 1 end.
Proof.
  revert b. induction a as [|x a IH]; intros [|y b]; [reflexivity..|].
  rewrite key_compare_cons, IH. cbn [lexicographic].
  destruct (Z.compare_spec x y); [subst; now rewrite Z.eqb_refl|..];
    rewrite (proj2 (Z.eqb_neq x y)) by lia; [rewrite (proj2 (Z.ltb_lt x y)) by lia|rewrite (proj2 (Z.ltb_ge x y)) by lia]; reflexivity.
Qed.

Lemma lexicographic_eq a b : lexicographic a b = Eq <-> a = b.
Proof. rewrite <- key_compare_eq, key_compare_lex. destruct (lexicographic a b); split; intros; congruence. Qed.

Lemma SFcompare_swap x y : SFcompare y x = option_map CompOpp (SFcompare x y).
Proof.
  destruct x as [sx|sx| |sx mx ex], y as [sy|sy| |sy my ey]; try (destruct sx); try (destruct sy); try reflexivity; simpl;
    rewrite (Z.compare_antisym ex ey); change (Pos.compare_cont Eq my mx) with (Pos.compare my mx);
    change (Pos.compare_cont Eq mx my) with (Pos.compare mx my); rewrite (Pos.compare_antisym mx my);
    destruct (Z.compare ex ey), (Pos.compare mx my); reflexivity.
Qed.

Lemma apply_ordered op c :
  apply_op op (match c with Eq => true | _ => false end) (match c with Lt => -1 | Eq => 0 | Gt => 1 end) = op_accepts op c.
Proof. now destruct op, c. Qed.

Lemma apply_three_way op x y : apply_op op (x =? y) (three_way x y) = op_accepts op (x ?= y).
Proof. rewrite <- apply_ordered. unfold three_way, Z.ltb. rewrite Z.eqb_compare, (Z.compare_antisym x y). now destruct (x ?= y). Qed.

Lemma name_equals_true a b : name_equals a b = true <-> a = b.
Proof.
  unfold name_equals. destruct (Z.eqb_spec (zlen a) (zlen b)) as [E|E]; cbn [negb].
  - now apply same_bytes_eq.
  - split; [discriminate|]. intros ->. now destruct E.
Qed.

Lemma apply_strings op a b : apply_op op (name_equals a b) (key_compare a b) = op_accepts op (lexicographic a b).
Proof.
  rewrite <- apply_ordered, key_compare_lex. f_equal. pose proof (lexicographic_eq a b) as He. pose proof (name_equals_true a b) as Hn.
  destruct (lexicographic a b), (name_equals a b); intuition congruence.
Qed.

Lemma apply_doubles op x y :
  (SFcompare x y = None -> op <> kQueryGreaterEqual /\ op <> kQueryLessEqual) ->
  (let '(equal, order) := compare_real x y in apply_op op equal order) =
  match SFcompare x y with Some c => op_accepts op c | None => bool_decide (op = kQueryUnequal) end.
Proof.
  intros Hn. unfold compare_real, SFeqb, SFltb. rewrite (SFcompare_swap x y). destruct (SFcompare x y) as [[]|]; simpl;
    [now destruct op..|]. destruct (Hn eq_refl). destruct op; try reflexivity; congruence.
Qed.

(** The types are distinct constants. *)
Ltac known_types :=
  repeat match goal with |- context [(?x =? ?y)] => first [change (x =? y) with true | change (x =? y) with false] end; cbv iota.

Lemma decode_integer_number d type n has_sign :
  bytes_ok d -> integer_type type = Some (n, has_sign) ->
  decode_integer d type = sized d n (let x := number n has_sign (le_num d) in if has_sign then (x, 0) else (0, x)).
Proof.
  intros Hd. unfold integer_type, integer_types. cbn [find fst option_map snd].
  assert (H1 : zlen d = 1 -> byte_at d 0 = le_num d) by (destruct d as [|x [|]]; unfold zlen; simpl; intros; [lia| |lia]; unfold byte_at; simpl; lia).
  assert (H2 : zlen d = 2 -> le16 d 0 = le_num d) by (intros; rewrite le16_num, slice_all by (auto; lia); auto).
  assert (H4 : zlen d = 4 -> le32 d 0 = le_num d) by (intros; rewrite le32_num, slice_all by (auto; lia); auto).
  assert (H8 : zlen d = 8 -> le64 d 0 = le_num d) by (intros; rewrite le64_num, slice_all by (auto; lia); auto).
  repeat match goal with |- context [(?k =? type)] => destruct (Z.eqb_spec k type) as [<-|] end; intros [= <- <-];
    unfold decode_integer, sized, number, le64_signed, signed; cbn [andb];
    known_types;
    (match goal with |- context [zlen d =? ?n] => destruct (Z.eqb_spec (zlen d) n) as [E|_] end; [|reflexivity]);
    first [rewrite (H1 E)|rewrite (H2 E)|rewrite (H4 E)|rewrite (H8 E)]; try reflexivity;
    rewrite Z.ltb_antisym; match goal with |- context [negb (?x <=? ?y)] => destruct (Z.leb_spec x y) end;
    match goal with |- context [?x <=? ?y] => destruct (Z.leb_spec x y) end; cbn [negb]; (reflexivity || lia).
Qed.

(** The kinds of types: what the value is and the family the code puts it in. *)
Inductive kind_of (type : Z) (d : bytes) : Prop :=
| kind_string : family_of type = FString -> value_of type d = Some (VString d) -> kind_of type d
| kind_bool : family_of type = FBoolean -> value_of type d = sized d 1 (VBoolean (negb (byte_at d 0 =? 0))) -> kind_of type d
| kind_real : family_of type = FReal -> value_of type d = option_map VReal (decode_real d type) -> kind_of type d
| kind_integer (n : Z) (has_sign : bool) :
    family_of type = (if has_sign then FInteger else FUnsigned) -> integer_type type = Some (n, has_sign) ->
    value_of type d = sized d n (VInteger (number n has_sign (le_num d))) -> kind_of type d
| kind_none : family_of type = FNone -> value_of type d = None -> kind_of type d.

Lemma kind_total type d : bytes_ok d -> kind_of type d.
Proof.
  intros Hd.
  destruct (decide (type ∈ [kTypeString; kTypeMime; kTypeRaw])) as [Hs|Hs].
  { apply kind_string; [|unfold value_of; now rewrite bool_decide_true].
    rewrite !elem_of_cons in Hs. destruct Hs as [->|[->|[->|Hs]]]; [reflexivity..|]. now apply elem_of_nil in Hs. }
  destruct (decide (type = kTypeBool)) as [->|Hb].
  { apply kind_bool; [reflexivity|]. unfold value_of, sized. rewrite bool_decide_false by exact Hs. simpl.
    destruct (Z.eqb_spec (zlen d) 1) as [E|]; [|reflexivity]. destruct d as [|x [|y d]]; [discriminate E| |unfold zlen in E; simpl in E; lia].
    unfold byte_at. simpl. do 2 f_equal. rewrite Z.add_0_r.
    destruct (Z.eqb_spec x 0); [now rewrite bool_decide_false by lia|now rewrite bool_decide_true by lia]. }
  destruct (decide (type = kTypeFloat)) as [->|Hf].
  { apply kind_real; [reflexivity|]. unfold value_of, decode_real, sized. rewrite bool_decide_false by exact Hs. known_types.
    destruct (Z.eqb_spec (zlen d) 4); [|reflexivity]. cbn [andb option_map]. now rewrite le32_num, slice_all by (auto; lia). }
  destruct (decide (type = kTypeDouble)) as [->|Hdb].
  { apply kind_real; [reflexivity|]. unfold value_of, decode_real, sized. rewrite bool_decide_false by exact Hs. known_types.
    destruct (Z.eqb_spec (zlen d) 8); [|reflexivity]. cbn [andb option_map]. now rewrite le64_num, slice_all by (auto; lia). }
  assert (Hv : value_of type d = match integer_type type with
      | Some (n, has_sign) => sized d n (VInteger (number n has_sign (le_num d))) | None => None end).
  { unfold value_of. rewrite bool_decide_false by exact Hs. now rewrite !(proj2 (Z.eqb_neq type _)) by assumption. }
  destruct (integer_type type) as [[n has_sign]|] eqn:Ei.
  - apply (kind_integer _ _ n has_sign); auto. revert Ei. clear. unfold integer_type, integer_types. cbn [find fst option_map snd].
    repeat match goal with |- context [(?k =? type)] => destruct (Z.eqb_spec k type) as [<-|] end; intros [= <- <-]; reflexivity.
  - apply kind_none; [|exact Hv]. rewrite !elem_of_cons in Hs. revert Ei. unfold integer_type, integer_types. cbn [find fst option_map snd].
    repeat match goal with |- context [(?k =? type)] => destruct (Z.eqb_spec k type); [discriminate|] end. intros _.
    unfold family_of. rewrite !(proj2 (Z.eqb_neq type _)) by (intros ->; intuition congruence). reflexivity.
Qed.

(** The evaluation of one comparison is its meaning. *)
Lemma equation_true_meets type d e :
  bytes_ok d -> (forall v, value_of type d = Some v -> comparable type v e) ->
  equation_true d type e = match value_of type d with Some v => compares (q_op e) v (literal_of e) | None => false end.
Proof.
  intros Hd Hc. unfold equation_true, compare_literal.
  destruct (kind_total type d Hd) as [Hf Hv|Hf Hv|Hf Hv|n has_sign Hf Hi Hv|Hf Hv]; rewrite Hf; rewrite Hv in *.
  - destruct (Hc _ eq_refl) as []. destruct (q_literal e) eqn:El; unfold literal_of; rewrite El; try reflexivity. apply apply_strings.
  - unfold sized in *. destruct (q_literal e) eqn:El; try (destruct (zlen d =? 1); unfold literal_of; rewrite ?El; reflexivity).
    cbn. destruct (zlen d =? 1); [|reflexivity]. unfold literal_of. rewrite El.
    destruct (Hc _ eq_refl) as [_ _ _ _ Hb _]. destruct (Hb _ eq_refl) as [-> | ->]; simpl;
      destruct (byte_at d 0 =? 0), (q_boolean e); reflexivity.
  - destruct (decode_real d type) as [x|]; [|destruct (q_literal e); reflexivity]. simpl in Hc.
    destruct (Hc _ eq_refl) as [_ _ _ _ _ Hn]. cbn [option_map]. revert Hn. unfold literal_of. destruct (q_literal e); intros Hn; try reflexivity;
      cbn -[compare_real]; apply apply_doubles; intros E; exact (Hn _ _ eq_refl E).
  - rewrite (decode_integer_number d type n has_sign Hd Hi). unfold sized in *.
    destruct (zlen d =? n) eqn:Ez; [|destruct (q_literal e), has_sign; reflexivity].
    destruct (Hc _ eq_refl) as [Ci Cu Cn Ch _ Cd]. unfold literal_of in *.
    set (x := number n has_sign (le_num d)) in *. clearbody x. destruct (q_literal e) eqn:El; destruct has_sign; try reflexivity;
      cbn -[compare_real three_way SFcompare u64 signed].
    + apply apply_three_way.
    + rewrite u64_small by (specialize (Cn _ Hi eq_refl); lia). apply apply_three_way.
    + specialize (Ch _ Hi eq_refl). unfold signed. rewrite (proj2 (Z.ltb_lt _ _)) by lia. apply apply_three_way.
    + apply apply_three_way.
    + apply apply_doubles. intros E. exact (Cd _ _ eq_refl E).
    + apply apply_doubles. intros E. exact (Cd _ _ eq_refl E).
  - destruct (q_literal e); reflexivity.
Qed.

Lemma value_int64 x : - 2 ^ 63 <= x < 2 ^ 63 -> value_of kTypeInt64 (le_split 8 (u64 x)) = Some (VInteger x).
Proof.
  intros Hx. unfold value_of. rewrite bool_decide_false by (rewrite !elem_of_cons, elem_of_nil; intuition discriminate).
  known_types. change (integer_type kTypeInt64) with (Some (8, true)). cbv iota. unfold sized. rewrite zlen_le_split. known_types.
  do 2 f_equal. rewrite le_num_split. change (256 ^ Z.of_nat 8) with (2 ^ 64). unfold u64. rewrite Z.mod_mod by lia.
  unfold number. cbn [andb]. change (8 * 8) with 64. destruct (Z.lt_ge_cases x 0).
  - assert (Hm : x mod 2 ^ 64 = x + 2 ^ 64) by (symmetry; apply (Z.mod_unique_pos _ _ (-1)); lia).
    rewrite Hm, (proj2 (Z.leb_le _ _)) by lia. lia.
  - rewrite Z.mod_small by lia. now rewrite (proj2 (Z.leb_gt _ _)) by lia.
Qed.

(** The attributes every inode has mean what the inode says. *)
Lemma standard_meets inode r e type d :
  equation_plain inode r e -> standard_attribute inode (q_attribute e) = Some (type, d) ->
  equation_true d type e = equation_holds inode r e.
Proof.
  intros [Es Et [En1 En2] _ Ec]. unfold standard_attribute, equation_holds, attribute_value in *.
  pose proof (name_equals_true (q_attribute e)) as Hn. unfold kMaxQueryValue, zlen in En2.
  destruct (name_equals _ (str "name"%string)) eqn:E1; [|destruct (name_equals _ (str "size"%string)) eqn:E2;
    [|destruct (name_equals _ (str "last_modified"%string)) eqn:E3; [|discriminate]]];
    intros Ed%(inj Some)%pair_equal_spec; destruct Ed as [<- <-].
  - rewrite bool_decide_true in * by now apply Hn. rewrite take_ge by (unfold kMaxQueryValue; lia).
    rewrite equation_true_meets; [reflexivity|exact En1|]. intros v [= <-]. now apply Ec.
  - rewrite bool_decide_false in * by (intros E; apply Hn in E; congruence). rewrite bool_decide_true in * by now apply Hn.
    rewrite equation_true_meets, value_int64 by (auto with buf || (rewrite value_int64 by lia; intros v [= <-]; now apply Ec) || lia).
    reflexivity.
  - rewrite !bool_decide_false in * by (intros E; apply Hn in E; congruence). rewrite bool_decide_true in * by now apply Hn.
    rewrite Z.shiftr_div_pow2 by lia. assert (Hr : - 2 ^ 63 <= in_mtime inode / 2 ^ 16 < 2 ^ 63).
    { split; [apply Z.div_le_lower_bound; lia|apply Z.div_lt_upper_bound; lia]. }
    rewrite equation_true_meets, value_int64 by (auto with buf || (rewrite value_int64 by lia; intros v [= <-]; now apply Ec) || lia).
    reflexivity.
Qed.

Lemma stored_meets inode r e type d :
  equation_plain inode r e -> standard_attribute inode (q_attribute e) = None -> r (q_attribute e) = Some (type, d) ->
  equation_true (take (Z.to_nat kMaxQueryValue) d) type e = equation_holds inode r e.
Proof.
  intros [_ _ _ Er Ec] Hs Hr. destruct (Er _ _ Hr) as [Hb Hl]. unfold kMaxQueryValue, zlen in Hl.
  rewrite take_ge by (unfold kMaxQueryValue; lia). unfold standard_attribute, equation_holds, attribute_value in *.
  pose proof (name_equals_true (q_attribute e)) as Hn.
  destruct (name_equals _ (str "name"%string)) eqn:E1; [discriminate|]. destruct (name_equals _ (str "size"%string)) eqn:E2; [discriminate|].
  destruct (name_equals _ (str "last_modified"%string)) eqn:E3; [discriminate|].
  rewrite !bool_decide_false in * by (intros E; apply Hn in E; congruence). rewrite Hr in *.
  rewrite equation_true_meets; [now destruct (value_of type d)|exact Hb|]. intros v Hv. apply Ec. now rewrite Hv.
Qed.

Lemma missing_meets inode r e :
  standard_attribute inode (q_attribute e) = None -> r (q_attribute e) = None -> equation_holds inode r e = false.
Proof.
  intros Hs Hr. unfold standard_attribute, equation_holds, attribute_value in *. pose proof (name_equals_true (q_attribute e)) as Hn.
  destruct (name_equals _ (str "name"%string)) eqn:E1; [discriminate|]. destruct (name_equals _ (str "size"%string)) eqn:E2; [discriminate|].
  destruct (name_equals _ (str "last_modified"%string)) eqn:E3; [discriminate|].
  rewrite !bool_decide_false in * by (intros E; apply Hn in E; congruence). now rewrite Hr.
Qed.

Section meaning.
Context {D : Type} `{SectorDeviceLaws D}.
Context (live : Z -> Prop) (fs0 : Fs D) (inode : Inode) (r : bytes -> option (Z * bytes)).
Context (Hok : fs_ok live fs0) (Hro : reads_ok fs0) (Hb : block_readable live fs0 (to_block (vol fs0) (in_run inode))).

(** [r] says what the attributes that [e] reads are. *)
Definition attr_known (e : QueryEquation) : Prop :=
  standard_attribute inode (q_attribute e) = None ->
  key_ok kTreeStringType (q_attribute e) /\ attr_is live fs0 inode (q_attribute e) (r (q_attribute e)).

Lemma match_equation_law fs e :
  settled live fs0 fs -> attr_known e -> equation_plain inode r e ->
  exists fs', match_equation fs inode e = (equation_holds inode r e, fs') /\ settled live fs0 fs'.
Proof.
  intros Hs Hk Hp. unfold match_equation.
  destruct (standard_attribute inode (q_attribute e)) as [[type d]|] eqn:E; [rewrite (standard_meets _ _ _ _ _ Hp E); eauto|].
  destruct (Hk E) as [Hn Ha].
  destruct (attr_stat_law live fs0 Hro fs inode _ _ Hs Hb Ha Hn) as (fs1 & -> & Hs1).
  destruct (r (q_attribute e)) as [[type d]|] eqn:Er; [|cbn [option_map]; rewrite (missing_meets _ _ _ E Er); eauto].
  cbn [option_map fst snd]. rewrite <- (stored_meets _ _ _ _ _ Hp E Er). pose proof (zlen_nonneg d).
  destruct (attr_read_law live fs0 Hro fs1 inode _ _ 0 (if zlen d <? kMaxQueryValue then zlen d else kMaxQueryValue) Hok Hs1 Hb Ha Hn)
    as (fs2 & -> & Hs2); [lia|unfold kMaxQueryValue; destruct (Z.ltb_spec (zlen d) 64); lia|].
  cbn [option_map snd]. exists fs2. split; [|exact Hs2]. do 2 f_equal. rewrite drop_0. unfold kMaxQueryValue, zlen.
  destruct (Z.ltb_spec (Z.of_nat (length d)) 64); [|reflexivity]. rewrite !take_ge by lia. reflexivity.
Qed.

Lemma eval_list_law {A} (eval : Fs D -> A -> bool * Fs D) combine holds (l : list A) :
  Forall (fun x => forall fs, settled live fs0 fs -> exists fs', eval fs x = (holds x, fs') /\ settled live fs0 fs') l ->
  forall fs acc, settled live fs0 fs ->
  exists fs', eval_list eval combine fs acc l = (fold_left (fun a x => combine a (holds x)) l acc, fs') /\ settled live fs0 fs'.
Proof.
  induction 1 as [|x l Hx Hl IH]; intros fs acc Hs; [eauto|]. cbn [eval_list fold_left].
  destruct (Hx fs Hs) as (fs1 & -> & Hs1). now apply IH.
Qed.

Lemma fold_and {A} (holds : A -> bool) l acc : fold_left (fun a x => a && holds x) l acc = acc && forallb holds l.
Proof. revert acc; induction l as [|x l IH]; intros acc; simpl; [now rewrite andb_true_r|]. now rewrite IH, andb_assoc. Qed.
Lemma fold_or {A} (holds : A -> bool) l acc : fold_left (fun a x => a || holds x) l acc = acc || existsb holds l.
Proof. revert acc; induction l as [|x l IH]; intros acc; simpl; [now rewrite orb_false_r|]. now rewrite IH, orb_assoc. Qed.

Definition understood (e : QueryEquation) : Prop := attr_known e /\ equation_plain inode r e.

Lemma eval_conj_law es :
  es <> [] -> Forall understood es -> forall fs, settled live fs0 fs ->
  exists fs', eval_conj inode fs es = (forallb (equation_holds inode r) es, fs') /\ settled live fs0 fs'.
Proof.
  intros Hne Hk fs Hs. destruct es as [|e es]; [congruence|]. apply Forall_cons in Hk as [He Hk].
  unfold eval_conj, eval_items. destruct (match_equation_law fs e Hs (proj1 He) (proj2 He)) as (fs1 & -> & Hs1).
  destruct (eval_list_law (fun fs e => match_equation fs inode e) andb (equation_holds inode r) es) with (fs := fs1)
    (acc := equation_holds inode r e) as (fs2 & -> & Hs2); auto.
  - eapply Forall_impl; [exact Hk|]. intros x [Hx Hp] fs' Hs'. now apply match_equation_law.
  - rewrite fold_and. eauto.
Qed.

Lemma eval_formula_law f :
  formula_ok f -> Forall (Forall understood) f -> forall fs, settled live fs0 fs ->
  exists fs', eval_formula inode fs f = (existsb (forallb (equation_holds inode r)) f, fs') /\ settled live fs0 fs'.
Proof.
  intros [Hne Hall] Hk fs Hs. destruct f as [|es f]; [congruence|].
  apply Forall_cons in Hk as [He Hk]. apply Forall_cons in Hall as [Hes Hall].
  unfold eval_formula, eval_items. destruct (eval_conj_law es Hes He fs Hs) as (fs1 & -> & Hs1).
  destruct (eval_list_law (eval_conj inode) orb (forallb (equation_holds inode r)) f) with (fs := fs1)
    (acc := forallb (equation_holds inode r) es) as (fs2 & -> & Hs2); auto.
  - apply Forall_forall. intros x Hx. rewrite Forall_forall in Hk, Hall. apply eval_conj_law; auto.
  - rewrite fold_or. eauto.
Qed.
End meaning.

(** Every query the parser accepts is well formed: at most 16 terms, which
    are the postfix form of a disjunction of non-empty conjunctions of
    equations, each within its buffers (an attribute of 1 to 255 bytes, a value
    of at most 64) and with a comparison as its operator. *)
Theorem parse_well_formed (text : bytes) (terms : list QueryTerm) :
  parse text = (true, terms) ->
  zlen terms <= kMaxQueryTerms /\ exists f, terms = postfix f /\ f <> [] /\ Forall conj_good f.
Proof. apply parse_result. Qed.

(** C11: What a query means.  The terms of a formula, on an inode whose
    attributes are known and a device that answers reads, match exactly when
    some conjunction has all its equations true of the inode: its name, size and
    time, or a stored attribute, compares with the literal as a string in
    dictionary order, as an integer, as an IEEE double when one side is a real,
    or as a bool, and different families never match.  The equations are ones the
    evaluation takes at their meaning ([equation_plain]): values of at most 64
    bytes, no negative literal against an unsigned type and none of 2^63 or more
    against a signed one, no order between bools, and no [>=] or [<=] of what is
    not a number.  The evaluation stack neither under- nor overflows, whatever
    the formula's size, and nothing but the cache changes. *)
Theorem query_matches_spec {D} `{SectorDeviceLaws D} (live : Z -> Prop) (fs : Fs D) (inode : Inode)
    (r : bytes -> option (Z * bytes)) (f : list (list QueryEquation)) :
  fs_ok live fs -> reads_ok fs -> block_readable live fs (to_block (vol fs) (in_run inode)) ->
  formula_ok f -> Forall (Forall (fun e => attr_known live fs inode r e /\ equation_plain inode r e)) f ->
  exists fs', matches fs inode (postfix f) = (existsb (forallb (equation_holds inode r)) f, fs') /\ only_cache fs fs'.
Proof.
  intros Hok Hro Hb Hf Hk. rewrite (eval_run inode fs f Hf).
  destruct (eval_formula_law live fs inode r Hok Hro Hb f Hf Hk fs) as (fs' & -> & _ & Hc); [split; auto using only_cache_refl|].
  eauto.
Qed.

(** The parser ends: with more turns of its loops than the text has
    characters the answer does not depend on how many there are. *)
Theorem parse_terminates (text : bytes) (fuel : nat) :
  (length text < fuel)%nat -> parse_with fuel text = parse text.
Proof.
  intros Hf. unfold parse, parse_with, disjunction.
  rewrite (conjunction_fuel fuel (S (length text)) text []) by lia.
  destruct (conjunction (S (length text)) text []) as [[rest terms]|] eqn:E; [|reflexivity].
  apply conjunction_length in E. rewrite (joined_fuel _ (conjunction (S (length text))) Ch.bar kQueryOr fuel (S (length text)) rest terms);
    [reflexivity|lia..| |].
  - intros r t Hr. apply conjunction_fuel; lia.
  - intros r t r' t'. apply conjunction_length.
Qed.

(** A query written out reads back.  For any formula of equations between
    strings whose terms fit, writing it with quoted and escaped attributes and
    values, [&] between equations and [|] between conjunctions, and parsing the
    text gives the formula's terms: [&] binds tighter than [|], and any byte may
    stand in a quoted string. *)
Theorem query_roundtrip (f : list (list QueryEquation)) :
  f <> [] -> Forall (fun es => es <> [] /\ Forall (fun e => equation_fits e /\ is_string e) es) f ->
  zlen (postfix f) <= kMaxQueryTerms -> parse (write_query f) = (true, postfix f).
Proof. apply parse_written. Qed.

(** * On concrete queries *)

Module SampleQuery.
Import SampleDir.

Definition eq_k : QueryEquation := string_literal kQueryEqual [107] [120].
Definition eq_m : QueryEquation := string_literal kQueryEqual [109] [120].
Definition size_0 : QueryEquation := mkEquation kQueryEqual LInteger (str "size"%string) [48] 0 0 (f64_of_Z 0) false.
Definition name_a : QueryEquation := string_literal kQueryGreater (str "name"%string) [97].
(** [m == x | size == 0 & name > a], on an inode of size 0 called [x] whose
    attribute [m] is of an unknown type. *)
Definition f : list (list QueryEquation) := [[eq_m]; [size_0; name_a]].
Definition text : bytes := str "m == x | size == 0 & name > a"%string.
Definition r (name : bytes) : option (Z * bytes) := Some (77, [1; 2; 3]).

Lemma text_parses :
  parse text = (true, [TEquation eq_m; TEquation size_0; TEquation name_a; TOperator kQueryAnd; TOperator kQueryOr]).
Proof. vm_compute. reflexivity. Qed.

Definition node := inode_in fs 22.
Lemma node_fields : in_size node = 0 /\ in_mtime node = 0 /\ in_name node = [120].
Proof. vm_compute. auto. Qed.

Lemma plain e :
  e ∈ [eq_m; size_0; name_a] -> equation_plain node r e.
Proof.
  destruct node_fields as (N1 & N2 & N3). intros He. split; rewrite ?N1, ?N2, ?N3; try lia.
  - split; [repeat constructor; unfold byte_ok; lia|vm_compute; congruence].
  - intros type d [= <- <-]. split; [repeat constructor; unfold byte_ok; lia|vm_compute; congruence].
  - intros type v. rewrite !elem_of_cons, elem_of_nil in He. destruct He as [->|[->|[->|[]]]]; cbn [q_attribute eq_m size_0 name_a string_literal];
      unfold attribute_value; rewrite ?N1, ?N2, ?N3.
    + rewrite !bool_decide_false by discriminate. cbn [r]. intros E. vm_compute in E. discriminate E.
    + rewrite bool_decide_false by discriminate. rewrite bool_decide_true by reflexivity. intros [= <- <-].
      split; cbn [q_integer q_unsigned q_literal q_op size_0]; try lia; discriminate.
    + rewrite bool_decide_true by reflexivity. intros [= <- <-].
      split; cbn [q_integer q_unsigned q_literal q_op name_a string_literal]; try lia; discriminate.
Qed.

Lemma attribute_m : attr_is (fun _ => True) fs node [109] (Some (77, [1; 2; 3])).
Proof.
  assert (E : exists e, small_attr fs node [109] = Some e /\ sa_type e = 77 /\ sa_data e = [1; 2; 3])
    by (eexists; split; [vm_compute; reflexivity|split; reflexivity]).
  destruct E as (e & E & <- & <-). now apply attr_in_block.
Qed.

Lemma f_known : Forall (Forall (fun e => attr_known (fun _ => True) fs node r e /\ equation_plain node r e)) f.
Proof.
  assert (Hs : forall e, e ∈ [size_0; name_a] -> attr_known (fun _ => True) fs node r e).
  { intros e He E. exfalso. rewrite !elem_of_cons, elem_of_nil in He. destruct He as [->|[->|[]]]; vm_compute in E; discriminate E. }
  constructor; [|constructor; [|constructor]]; (constructor; [split|]); try (apply plain, list_elem_of_In; simpl; auto).
  - intros _. split; [apply key_one; unfold byte_ok; lia|exact attribute_m].
  - constructor.
  - apply Hs, list_elem_of_In. simpl. auto.
  - constructor; [|constructor]. split; [apply Hs|apply plain]; apply list_elem_of_In; simpl; auto.
Qed.
End SampleQuery.

Lemma parse_well_formed_witness : zlen (parse SampleQuery.text).2 <= 16.
Proof.
  rewrite SampleQuery.text_parses.
  exact (proj1 (parse_well_formed SampleQuery.text _ SampleQuery.text_parses)).
Defined.

Lemma query_matches_spec_witness :
  (matches SampleDir.fs SampleQuery.node (parse SampleQuery.text).2).1 = true.
Proof.
  assert (Hb : block_readable (fun _ => True) SampleDir.fs (to_block (vol SampleDir.fs) (in_run SampleQuery.node)))
    by (split; [vm_compute; intuition congruence|exact I]).
  assert (Hf : formula_ok SampleQuery.f) by (split; [discriminate|repeat constructor; discriminate]).
  destruct (query_matches_spec _ SampleDir.fs SampleQuery.node SampleQuery.r SampleQuery.f
    SampleDir.fs_okay SampleDir.fs_reads Hb Hf SampleQuery.f_known) as (fs' & E & _).
  rewrite SampleQuery.text_parses. cbn [snd].
  change [TEquation SampleQuery.eq_m; TEquation SampleQuery.size_0; TEquation SampleQuery.name_a; TOperator kQueryAnd;
    TOperator kQueryOr] with (postfix SampleQuery.f).
  rewrite E. vm_compute. reflexivity.
Defined.

Lemma parse_terminates_witness : parse_with 1000 SampleQuery.text = parse SampleQuery.text.
Proof. apply parse_terminates. vm_compute. lia. Defined.

Lemma query_roundtrip_witness :
  let f := [[string_literal kQueryLess [34; 92] [38]; SampleQuery.eq_k]; [SampleQuery.eq_k]] in
  parse (write_query f) = (true, postfix f).
Proof.
  apply query_roundtrip; [discriminate| |vm_compute; congruence].
  repeat (constructor || split || discriminate); vm_compute; congruence.
Defined.

(** ** What literals do not say *)

(** The digits after the point are not scaled: [1.5] is the number 15. *)
Lemma real_literal_unscaled :
  parse_real (str "1.5"%string) = Some (f64_of_Z 15) /\ parse_real (str "1.50"%string) = Some (f64_of_Z 150).
Proof. vm_compute. split; reflexivity. Qed.

(** Against an unsigned attribute a negative literal is a huge number: 5 is less
    than -1. *)
Lemma unsigned_below_minus_one :
  equation_true (le_split 4 5) kTypeUInt32
    (mkEquation kQueryLess LInteger [120] (str "-1"%string) (-1) 0 (f64_of_Z 0) false) = true.
Proof. vm_compute. reflexivity. Qed.

(** Against a signed attribute a literal of 2^63 or more is negative: 5 is not
    less than 2^64 - 1. *)
Lemma signed_below_huge :
  equation_true (le_split 8 5) kTypeInt64
    (mkEquation kQueryLess LUnsigned [120] (str "18446744073709551615"%string) 0 (2 ^ 64 - 1) (f64_of_Z 0) false) = false.
Proof. vm_compute. reflexivity. Qed.

(** A bool that differs from the literal is above it, whichever it is: [false]
    is greater than [true]. *)
Lemma bool_above_true :
  equation_true [0] kTypeBool (mkEquation kQueryGreater LBoolean [120] (str "true"%string) 0 0 (f64_of_Z 0) true) = true.
Proof. vm_compute. reflexivity. Qed.

(** A value that is not a number is both at least and at most every number. *)
Lemma nan_at_least_and_at_most :
  let nan := le_split 8 (Z.shiftl 0x7ff8 48) in
  let eq op := mkEquation op LInteger [120] (str "1"%string) 1 0 (f64_of_Z 0) false in
  equation_true nan kTypeDouble (eq kQueryGreaterEqual) = true /\
  equation_true nan kTypeDouble (eq kQueryLessEqual) = true /\
  equation_true nan kTypeDouble (eq kQueryEqual) = false.
Proof. vm_compute. splits; reflexivity. Qed.

(** A name of 65 bytes equals a literal of its first 64. *)
Lemma long_name_equal {D} `{SectorDevice D} (fs : Fs D) (inode : Inode) :
  in_name inode = replicate 65 97 ->
  (match_equation fs inode (string_literal kQueryEqual (str "name"%string) (replicate 64 97))).1 = true.
Proof.
  intros E. unfold match_equation.
  change (standard_attribute inode (q_attribute (string_literal kQueryEqual (str "name"%string) (replicate 64 97))))
    with (Some (kTypeString, take (Z.to_nat kMaxQueryValue) (in_name inode))).
  rewrite E. vm_compute. reflexivity.
Qed.
