(* ===== verification/WriterNode.v ===== *)
(** The writer's tree nodes (libs/freestanding/aegir-bfs, src/writer.cc): a
    node built from its entries, the tree of a fresh directory, a node's entries
    borrowed for a split, and the two halves a split makes of a leaf or of an
    internal node.  The theorems say what list of entries each image holds and
    when the halves are nodes at all. *)
From stdpp Require Import base numbers list list_numbers.
From Stdlib Require Import ZArith Lia Sorted.
From S2P Require Import Prelude.
From S2P Require Import Layout.
From S2P Require Import BPlusTree.
From S2P Require Import Attribute.
From S2P Require Import Stream.

(** * Small predicates *)

(** A read view of an inode block; the fields the writer does not set are zero. *)
Definition inode_view (block : bytes) : Inode :=
  mkInode (le32 block inode.kMode) 0 0 0 (le64_signed block (inode.kData + data.kSize))
    (le64_signed block inode.kLastModified) (le_run block inode.kInodeNum) (le_run block inode.kParent)
    (mkRun 0 0 0) [] (inode_get_stream block).

Definition blocks_for (bytes block_size : Z) : Z := u32 (u64 (bytes + block_size - 1) / block_size).

Definition is_regular_node (mode : Z) : bool :=
  Z.land mode (Z.lor (Z.lor kModeAttrDir kModeAttr) kModeIndexDir) =? 0.

Definition is_indexed_file (mode : Z) : bool :=
  Z.land mode (Z.lor (Z.lor (Z.lor kModeTypeMask kModeAttrDir) kModeAttr) kModeIndexDir) =? kModeRegular.

(** * Building nodes *)

Definition kTreeNodeSize : Z := 4096.
Definition kMaxNodeEntries : Z := (kTreeNodeSize - 28) / (2 + 8).

(** The loops over [keys], [key_lengths] and [values]. *)
Fixpoint put_keys (out : bytes) (at_ : Z) (es : list (bytes * Z)) : bytes :=
  match es with
  | [] => out
  | e :: es => put_keys (blit out at_ e.1) (at_ + zlen e.1) es
  end.

Fixpoint put_lengths (out : bytes) (at_ cumulative : Z) (es : list (bytes * Z)) : bytes :=
  match es with
  | [] => out
  | e :: es =>
    let cumulative := u16 (cumulative + zlen e.1) in
    put_lengths (put_le16 out at_ cumulative) (at_ + 2) cumulative es
  end.

(** [left_], [right] and [overflow] are the links as 64-bit patterns. *)
Definition build_node (node_size : Z) (leaf : bool) (left_ right overflow : Z) (es : list (bytes * Z)) : bytes :=
  let out := zeros node_size in
  let out := put_le64 out node.kLeftLink left_ in
  let out := put_le64 out node.kRightLink right in
  let out := put_le64 out node.kOverflowLink (if leaf then u64 kNullLink else overflow) in
  let out := put_le16 out node.kKeyCount (u16 (zlen es)) in
  let all := fold_right (fun e n => zlen e.1 + n) 0 es in
  let out := put_le16 out node.kAllKeyLength (u16 all) in
  let out := put_keys out node.kFixed es in
  let lengths := key_align (node.kFixed + all) in
  let out := put_lengths out lengths 0 es in
  put_values out (lengths + zlen es * 2) (map snd es).

(** A fresh tree: the header, and an empty leaf. *)
Definition build_empty_tree : bytes :=
  let total := kTreeNodeSize * 2 in
  let tree := zeros total in
  let tree := tree_header_build tree
    (mkTreeHeader kTreeNodeSize 1 kTreeStringType kTreeNodeSize (u64 kNullLink) total) in
  let node := kTreeNodeSize in
  let tree := put_le64 tree (node + node.kLeftLink) (u64 kNullLink) in
  let tree := put_le64 tree (node + node.kRightLink) (u64 kNullLink) in
  let tree := put_le64 tree (node + node.kOverflowLink) (u64 kNullLink) in
  put_le16 tree (node + node.kKeyCount) 0.

(** A directory's: its leaf holds dot and dotdot. *)
Definition build_dir_tree (self_block parent_block : Z) : bytes :=
  let total := kTreeNodeSize * 2 in
  let tree := zeros total in
  let tree := tree_header_build tree
    (mkTreeHeader kTreeNodeSize 1 kTreeStringType kTreeNodeSize (u64 kNullLink) total) in
  let node := kTreeNodeSize in
  let tree := put_le64 tree (node + node.kLeftLink) (u64 kNullLink) in
  let tree := put_le64 tree (node + node.kRightLink) (u64 kNullLink) in
  let tree := put_le64 tree (node + node.kOverflowLink) (u64 kNullLink) in
  let tree := put_le16 tree (node + node.kKeyCount) 2 in
  let tree := put_le16 tree (node + node.kAllKeyLength) 3 in
  let tree := set_byte tree (node + node.kFixed + 0) 46 in
  let tree := set_byte tree (node + node.kFixed + 1) 46 in
  let tree := set_byte tree (node + node.kFixed + 2) 46 in
  let lengths := key_align (node.kFixed + 3) in
  let tree := put_le16 tree (node + lengths) 1 in
  let tree := put_le16 tree (node + lengths + 2) 3 in
  let values := lengths + 2 * 2 in
  let tree := put_le64 tree (node + values) self_block in
  put_le64 tree (node + values + 8) parent_block.

(** * Splitting *)

(** The entries of a node, borrowed: [g_keys_], [g_lengths_], [g_values_]. *)
Fixpoint gather_from (n : nat) (node : bytes) (lengths values_at i previous : Z) : list (bytes * Z) :=
  match n with
  | O => []
  | S n =>
    let cumulative := le16 node (lengths + i * 2) in
    (slice node (node.kFixed + previous) (u16 (cumulative - previous)), le64 node (values_at + i * 8)) ::
    gather_from n node lengths values_at (i + 1) cumulative
  end.

Definition gather (node : bytes) (node_size : Z) : option (list (bytes * Z) * Z) :=
  match node_info node node_size with
  | None => None
  | Some info =>
    if kMaxNodeEntries <? ni_count info then None
    else
      let lengths := key_align (node.kFixed + le16 node node.kAllKeyLength) in
      Some (gather_from (Z.to_nat (ni_count info)) node lengths (lengths + ni_count info * 2) 0 0, ni_overflow info)
  end.

(** The first entry whose key is greater than [name], from index [i]. *)
Fixpoint split_point (data_type : Z) (name : bytes) (es : list (bytes * Z)) (i : nat) : nat :=
  match es with
  | [] => i
  | e :: es => if key_compare_typed data_type name e.1 <? 0 then i else split_point data_type name es (S i)
  end.

(** [ck], [ckl], [cv]: the entries with the new one at [pos]. *)
Definition combine_at (es : list (bytes * Z)) (pos : nat) (name : bytes) (value : Z) : list (bytes * Z) :=
  take pos es ++ (name, value) :: drop pos es.

(** What [split_leaf] writes at [offset] and at [other], and the separator.  A
    leaf that splits is full, so the list is not empty; for an empty one [m] is 0
    and the source would read before its arrays, where the separator here is
    empty. *)
Definition leaf_halves (data_type node_size offset other : Z) (node name : bytes) (value : Z)
    : option (bytes * bytes * bytes) :=
  match gather node node_size with
  | None => None
  | Some (es, _) =>
    if kMaxNodeEntries <? zlen es + 1 then None
    else
      let c := combine_at es (split_point data_type name es 0) name value in
      let m := (length c / 2)%nat in
      Some (build_node node_size true (le64 node node.kLeftLink) other (u64 kNullLink) (take m c),
            build_node node_size true offset (le64 node node.kRightLink) (u64 kNullLink) (drop m c),
            match c !! (m - 1)%nat with Some e => e.1 | None => [] end)
  end.

(** What [split_internal] writes: the entry after the new one, or the overflow
    link, becomes [replace_with]; entry [j]'s value is the left node's overflow
    and its key the separator. *)
Definition internal_halves (data_type node_size offset other : Z) (node name : bytes) (value replace_with : Z)
    : option (bytes * bytes * bytes) :=
  match gather node node_size with
  | None => None
  | Some (es, overflow) =>
    if kMaxNodeEntries <? zlen es + 1 then None
    else
      let pos := split_point data_type name es 0 in
      let c := combine_at es pos name value in
      let total := length c in
      let '(c, combined_overflow) :=
        if (S pos <=? total - 1)%nat
        then (match c !! S pos with Some e => <[S pos := (e.1, replace_with)]> c | None => c end, u64 overflow)
        else (c, replace_with) in
      let j := (total / 2)%nat in
      let j := if (j <? 1)%nat then 1%nat else j in
      let j := if (total <=? j)%nat then (total - 1)%nat else j in
      match c !! j with
      | None => None
      | Some (separator, middle) =>
        Some (build_node node_size false (le64 node node.kLeftLink) other middle (take j c),
              build_node node_size false offset (le64 node node.kRightLink) combined_overflow (drop (S j) c),
              separator)
      end
  end.

(** * A built node holds its entries *)

Lemma fold_lengths (es : list (bytes * Z)) : fold_right (fun e n => zlen e.1 + n) 0 es = zlen (keys es).
Proof. induction es as [|e es IH]; [reflexivity|]. cbn [fold_right]. now rewrite IH, keys_cons, zlen_app. Qed.

Lemma zlen_put_keys es out at_ : zlen (put_keys out at_ es) = zlen out.
Proof. revert out at_; induction es as [|e es IH]; intros; simpl; [auto|]. now rewrite IH, zlen_blit. Qed.

Lemma zlen_put_lengths es out at_ c : zlen (put_lengths out at_ c es) = zlen out.
Proof. revert out at_ c; induction es as [|e es IH]; intros; simpl; [auto|]. now rewrite IH, zlen_put16. Qed.

(** Copying key after key is copying them all. *)
Lemma put_keys_get es out at_ k :
  0 <= at_ -> 0 <= k -> at_ + zlen (keys es) <= zlen out ->
  byte_at (put_keys out at_ es) k =
    if (at_ <=? k) && (k <? at_ + zlen (keys es)) then byte_at (keys es) (k - at_) else byte_at out k.
Proof.
  revert out at_. induction es as [|e es IH]; intros out at_ Ha Hk Hl.
  { change (zlen (keys [])) with 0. rewrite Z.add_0_r. simpl. destruct (Z.leb_spec at_ k), (Z.ltb_spec k at_); auto; lia. }
  rewrite keys_cons, zlen_app in *. pose proof (zlen_nonneg e.1). pose proof (zlen_nonneg (keys es)).
  cbn [put_keys]. rewrite IH by (rewrite ?zlen_blit; lia). rewrite byte_at_blit by lia.
  destruct (Z.leb_spec at_ k), (Z.leb_spec (at_ + zlen e.1) k), (Z.ltb_spec k (at_ + zlen e.1)),
    (Z.ltb_spec k (at_ + zlen e.1 + zlen (keys es))), (Z.ltb_spec k (at_ + (zlen e.1 + zlen (keys es)))),
    (Z.ltb_spec k (zlen out)); try lia; cbn [andb]; try reflexivity; rewrite byte_at_app by lia;
    rewrite ?(proj2 (Z.ltb_ge _ _)), ?(proj2 (Z.ltb_lt _ _)) by lia; f_equal; lia.
Qed.

Lemma put_lengths_frame es out at_ c k :
  0 <= at_ -> 0 <= k -> k < at_ \/ at_ + zlen es * 2 <= k -> byte_at (put_lengths out at_ c es) k = byte_at out k.
Proof.
  revert out at_ c. induction es as [|e es IH]; intros out at_ c Ha Hk Hd; [reflexivity|]. cbn [put_lengths].
  rewrite zlen_cons in Hd. pose proof (zlen_nonneg es). rewrite IH by lia.
  rewrite put_le16_blit by lia. apply byte_blit_disj; rewrite ?zlen_le_split; lia.
Qed.

Lemma put_lengths_get es out at_ c (i : nat) :
  0 <= at_ -> 0 <= c -> at_ + zlen es * 2 <= zlen out -> c + zlen (keys es) < 65536 -> (i < length es)%nat ->
  le16 (put_lengths out at_ c es) (at_ + Z.of_nat i * 2) = c + zlen (keys (take (S i) es)).
Proof.
  revert out at_ c i. induction es as [|e es IH]; intros out at_ c i Ha Hc Hl Ht Hi; [simpl in Hi; lia|].
  rewrite zlen_cons in Hl. rewrite keys_cons, zlen_app in Ht.
  pose proof (zlen_nonneg es). pose proof (zlen_nonneg e.1). pose proof (zlen_nonneg (keys es)).
  cbn [put_lengths]. rewrite u16_small by lia. destruct i as [|i].
  - rewrite Z.add_0_r. transitivity (le16 (put_le16 out at_ (c + zlen e.1)) at_).
    + apply le16_ext. intros j Hj. apply put_lengths_frame; lia.
    + rewrite le16_put by lia. rewrite u16_small by lia. cbn [take]. unfold keys. simpl. rewrite app_nil_r. reflexivity.
  - replace (at_ + Z.of_nat (S i) * 2) with (at_ + 2 + Z.of_nat i * 2) by lia.
    rewrite IH by (rewrite ?zlen_put16; simpl in Hi; lia). cbn [take]. rewrite keys_cons, zlen_app. lia.
Qed.

Lemma bytes_ok_put_lengths es out at_ c : 0 <= at_ -> bytes_ok out -> bytes_ok (put_lengths out at_ c es).
Proof.
  revert out at_ c. induction es as [|e es IH]; intros out at_ c Ha Ho; [exact Ho|]. cbn [put_lengths].
  apply IH; [lia|]. now apply bytes_ok_put16.
Qed.

Lemma bytes_ok_put_values vs out at_ : 0 <= at_ -> bytes_ok out -> bytes_ok (put_values out at_ vs).
Proof.
  revert out at_. induction vs as [|v vs IH]; intros out at_ Ha Ho; [exact Ho|]. cbn [put_values].
  apply IH; [lia|]. now apply bytes_ok_put64.
Qed.

Lemma bytes_ok_put_keys es out at_ : 0 <= at_ -> bytes_ok out -> bytes_ok (keys es) -> bytes_ok (put_keys out at_ es).
Proof.
  revert out at_. induction es as [|e es IH]; intros out at_ Ha Ho Hk; [exact Ho|]. cbn [put_keys].
  rewrite keys_cons in Hk. apply Forall_app in Hk as [Hk1 Hk2]. pose proof (zlen_nonneg e.1).
  apply IH; [lia| |exact Hk2]. apply bytes_ok_blit; auto.
Qed.

(** The links of a node. *)
Definition links_are (node : bytes) (left_ right overflow : Z) : Prop :=
  le64 node node.kLeftLink = left_ /\ le64 node node.kRightLink = right /\ le64 node node.kOverflowLink = overflow.

(** Entries fit a node of [size] bytes. *)
Definition fits (size : Z) (es : list (bytes * Z)) : Prop :=
  zlen (keys es) < 65536 /\ lengths_of es + zlen es * 10 <= size.

Section built.
Context (size : Z) (leaf : bool) (left_ right overflow : Z) (es : list (bytes * Z)).
Context (Hs : node.kFixed <= size <= kMaxBlockSize) (Hk : bytes_ok (keys es)) (Hv : Forall value_ok es).
Context (Hfit : fits size es).
Context (Hl : 0 <= left_ < 2 ^ 64) (Hr : 0 <= right < 2 ^ 64) (Ho : 0 <= overflow < 2 ^ 64).
Local Notation over := (if leaf then u64 kNullLink else overflow).

Lemma built_bounds : node.kFixed + zlen (keys es) <= lengths_of es /\ zlen (keys es) < 65536 /\ zlen es < 65536.
Proof.
  unfold fits, lengths_of, kMaxBlockSize, node.kFixed in *. pose proof (zlen_nonneg (keys es)). pose proof (zlen_nonneg es).
  pose proof (key_align_bounds (28 + zlen (keys es)) ltac:(lia)). lia.
Qed.

(** The fixed part, before the keys. *)
Lemma built_header :
  let h := new_header size (put_le64 (put_le64 (put_le64 (zeros 24) 0 left_) 8 right) 16 over) (zlen es) (zlen (keys es)) in
  zlen h = size /\ bytes_ok h /\ le16 h node.kKeyCount = zlen es /\ le16 h node.kAllKeyLength = zlen (keys es) /\
  links_are h left_ right over /\
  build_node size leaf left_ right overflow es =
    put_values (put_lengths (put_keys h node.kFixed es) (lengths_of es) 0 es) (lengths_of es + zlen es * 2) (map snd es).
Proof.
  destruct built_bounds as (B1 & B2 & B3). pose proof (zlen_nonneg (keys es)). pose proof (zlen_nonneg es).
  assert (Hover : 0 <= over < 2 ^ 64) by (destruct leaf; [apply u64_range|exact Ho]).
  set (n := put_le64 _ 16 _). intros h.
  assert (Hz : zlen (zeros 24) = 24) by (apply zlen_zeros; lia).
  assert (L0 : le64 n 0 = left_).
  { unfold n. rewrite (put_le64_blit _ 16), (put_le64_blit _ 8) by lia.
    rewrite !le64_blit_disj by (rewrite ?zlen_le_split; lia). rewrite le64_put by lia. now apply u64_small. }
  assert (L8 : le64 n 8 = right).
  { unfold n. rewrite (put_le64_blit _ 16) by lia. rewrite le64_blit_disj by (rewrite ?zlen_le_split; lia).
    rewrite le64_put by (rewrite ?zlen_put64; lia). now apply u64_small. }
  assert (L16 : le64 n 16 = over) by (unfold n; rewrite le64_put by (rewrite ?zlen_put64; lia); now apply u64_small).
  assert (Hn : bytes_ok n) by (unfold n; repeat (apply bytes_ok_put64; [lia|]); auto with buf).
  destruct (new_header_facts size n (zlen es) (zlen (keys es)) (proj1 Hs) Hn ltac:(lia) ltac:(lia))
    as (F1 & F2 & F3 & F4 & F5 & F6 & F7).
  splits; auto.
  - unfold links_are. fold h in F5, F6, F7. rewrite F5, F6, F7. auto.
  - unfold build_node, h, new_header, lengths_of. rewrite fold_lengths.
    change node.kLeftLink with 0 in *. change node.kRightLink with 8 in *. change node.kOverflowLink with 16 in *.
    now rewrite L0, L8, L16.
Qed.

Lemma build_node_rep :
  node_rep (build_node size leaf left_ right overflow es) size es /\
  links_are (build_node size leaf left_ right overflow es) left_ right over.
Proof.
  destruct built_bounds as (B1 & B2 & B3). destruct built_header as (F1 & F2 & F3 & F4 & (F5 & F6 & F7) & ->).
  set (h := new_header _ _ _ _) in *. pose proof (zlen_nonneg (keys es)). pose proof (zlen_nonneg es).
  set (L := lengths_of es) in *. destruct Hfit as [_ Hfit']. fold L in Hfit'.
  set (w := put_keys h node.kFixed es). set (x := put_lengths w L 0 es). set (out := put_values x _ _).
  assert (Hzv : zlen (map snd es) = zlen es) by (unfold zlen; now rewrite length_map).
  assert (Hw : zlen w = size) by (unfold w; now rewrite zlen_put_keys).
  assert (Hx : zlen x = size) by (unfold x; now rewrite zlen_put_lengths).
  assert (Hout : forall k, 0 <= k < L -> byte_at out k = byte_at w k).
  { intros k Hkk. unfold out. rewrite put_values_frame by lia. unfold x. apply put_lengths_frame; unfold node.kFixed in *; lia. }
  assert (Hhead : forall k, 0 <= k < node.kFixed -> byte_at out k = byte_at h k).
  { intros k Hkk. rewrite Hout by lia. unfold w. rewrite put_keys_get by (unfold node.kFixed in *; lia).
    now rewrite (proj2 (Z.leb_gt _ _)) by lia. }
  assert (Hvals : forall i e, es !! i = Some e -> le64 out (L + zlen es * 2 + Z.of_nat i * 8) = e.2).
  { intros i e Hi. apply put_values_get; rewrite ?Hx, ?Hzv; try (unfold node.kFixed in *; lia).
    - apply Forall_map. exact Hv.
    - now rewrite list_lookup_fmap, Hi. }
  unfold node.kFixed, node.kKeyCount, node.kAllKeyLength, node.kLeftLink, node.kRightLink, node.kOverflowLink in *.
  split; [split|unfold links_are; splits]; unfold node.kFixed, node.kKeyCount, node.kAllKeyLength,
    node.kLeftLink, node.kRightLink, node.kOverflowLink; auto.
  - unfold out. now rewrite zlen_put_values.
  - unfold out, x, w. apply bytes_ok_put_values; [lia|]. apply bytes_ok_put_lengths; [lia|].
    apply bytes_ok_put_keys; auto. unfold node.kFixed. lia.
  - erewrite le16_ext; [exact F3|]. intros i Hi. apply Hhead. lia.
  - erewrite le16_ext; [exact F4|]. intros i Hi. apply Hhead. lia.
  - apply bytes_ext; rewrite zlen_slice by lia; [reflexivity|]. intros i Hi. rewrite byte_at_slice, Hout by lia.
    unfold w. rewrite put_keys_get by (unfold node.kFixed; lia). unfold node.kFixed.
    rewrite (proj2 (Z.leb_le _ _)), (proj2 (Z.ltb_lt _ _)) by lia. cbn [andb]. f_equal. lia.
  - intros i Hi. transitivity (le16 x (L + Z.of_nat i * 2)).
    + apply le16_ext. intros j Hj. unfold out. apply put_values_frame; unfold zlen in *; lia.
    + unfold x. rewrite put_lengths_get by (rewrite ?Hw; lia). lia.
  - erewrite le64_ext; [exact F5|]. intros i Hi. apply Hhead. lia.
  - erewrite le64_ext; [exact F6|]. intros i Hi. apply Hhead. lia.
  - erewrite le64_ext; [exact F7|]. intros i Hi. apply Hhead. lia.
Qed.
End built.

(** * Splitting, as lists *)

Section gathered.
Context (node : bytes) (size : Z) (es : list (bytes * Z)) (Hrep : node_rep node size es).

Lemma gather_from_list suf pre :
  es = pre ++ suf ->
  gather_from (length suf) node (lengths_of es) (lengths_of es + zlen es * 2) (zlen pre) (zlen (keys pre)) = suf.
Proof.
  revert pre. induction suf as [|e suf IH]; intros pre Hes; [reflexivity|]. cbn [length gather_from].
  destruct (snoc_split es pre e suf Hes) as [Hes' Hz].
  assert (Hi : es !! length pre = Some e) by (rewrite Hes, lookup_app_r, Nat.sub_diag by lia; reflexivity).
  assert (Ht : take (length pre) es = pre) by (rewrite Hes, take_app_le, take_ge by lia; reflexivity).
  pose proof (keys_take_S es _ _ Hi) as Hk. rewrite Ht in Hk.
  assert (Hc : le16 node (lengths_of es + zlen pre * 2) = zlen (keys pre) + zlen e.1).
  { unfold zlen at 1. rewrite (nr_lens _ _ _ Hrep) by (rewrite Hes, length_app; simpl; lia). now rewrite Hk, zlen_app. }
  destruct (rep_key_at node size es Hrep _ _ Hi) as (off & Hat & Hsl).
  destruct (rep_keys_bound node size es Hrep) as (_ & B2 & B3). pose proof (nr_size _ _ _ Hrep) as [_ Hsz].
  pose proof (zlen_nonneg (keys pre)). pose proof (zlen_nonneg e.1). pose proof (zlen_nonneg (keys suf)).
  assert (Hall : zlen (keys es) = zlen (keys pre) + zlen e.1 + zlen (keys suf))
    by (rewrite Hes, keys_app, keys_cons, !zlen_app; lia).
  unfold kMaxBlockSize, node.kFixed in *. rewrite Hc, Z.add_simpl_l, u16_small by lia. f_equal.
  - rewrite (surjective_pairing e). f_equal; [|now apply (nr_vals _ _ _ Hrep)]. cbn [fst].
    rewrite <- (slice_slice node 28 (zlen (keys es))) by lia.
    pose proof (nr_keys _ _ _ Hrep) as Hkk. unfold node.kFixed in Hkk. rewrite Hkk, Hes, keys_app, keys_cons.
    rewrite slice_app_r, Z.sub_diag, slice_app_l by lia. now apply slice_all.
  - specialize (IH (pre ++ [e]) Hes'). rewrite Hz in IH. rewrite <- IH at 2. f_equal.
    rewrite keys_app, keys_cons, zlen_app. unfold keys at 2. simpl. rewrite app_nil_r. reflexivity.
Qed.

Lemma gather_rep :
  zlen es <= kMaxNodeEntries -> gather node size = Some (es, le64_signed node node.kOverflowLink).
Proof.
  intros Hn. unfold gather. rewrite (rep_info node size es Hrep). cbn [ni_count ni_overflow].
  rewrite (proj2 (Z.ltb_ge _ _)) by lia. rewrite (nr_all _ _ _ Hrep), to_nat_zlen. fold (lengths_of es).
  do 2 f_equal. exact (gather_from_list es [] eq_refl).
Qed.
End gathered.

Section split_lists.
Context (data_type : Z).
Local Notation cmp := (key_compare_typed data_type).
Local Notation ok := (fun e : bytes * Z => key_ok data_type e.1 /\ value_ok e).

Lemma split_point_bounds name es i : (i <= split_point data_type name es i <= i + length es)%nat.
Proof.
  revert i. induction es as [|e es IH]; intros i; cbn [split_point length]; [lia|].
  destruct (_ <? 0); [lia|]. specialize (IH (S i)). lia.
Qed.

(** The new entry goes where the order wants it. *)
Lemma combine_sorted es name v :
  sorted data_type es -> Forall ok es -> key_ok data_type name -> name ∉ map fst es ->
  let c := combine_at es (split_point data_type name es 0) name v in
  sorted data_type c /\ (0 <= v < 2 ^ 64 -> Forall ok c).
Proof.
  intros Hs Hok Hn Hni c.
  assert (Hsp : forall suf pre, es = pre ++ suf -> Forall (fun x : bytes * Z => cmp x.1 name < 0) pre ->
    let p := split_point data_type name suf (length pre) in
    Forall (fun x : bytes * Z => cmp x.1 name < 0) (take p es) /\
    match drop p es with [] => True | e :: _ => 0 < cmp e.1 name end).
  { induction suf as [|e suf IH]; intros pre Hes Hpre; cbn [split_point].
    - rewrite app_nil_r in Hes. subst pre. rewrite take_ge, drop_ge by lia. auto.
    - assert (Hke : key_ok data_type e.1).
      { rewrite Hes in Hok. apply Forall_app in Hok as [_ Hok]. now apply Forall_cons in Hok as [[Hk _] _]. }
      rewrite (typed_antisym data_type e.1 name) by auto. destruct (Z.ltb_spec (- cmp e.1 name) 0) as [Hlt|Hge].
      + rewrite Hes, take_app_le, take_ge, drop_app_ge, Nat.sub_diag by lia. split; [exact Hpre|]. simpl. lia.
      + assert (Hne : cmp e.1 name <> 0).
        { intros E. apply (typed_eq data_type e.1 name Hke Hn) in E. apply Hni. rewrite Hes, map_app, elem_of_app. right.
          cbn [map]. rewrite E. left. }
        specialize (IH (pre ++ [e])). rewrite length_app, Nat.add_1_r in IH. apply IH.
        * rewrite <- app_assoc. exact Hes.
        * apply Forall_app_2; [exact Hpre|]. constructor; [lia|constructor]. }
  destruct (Hsp es [] eq_refl ltac:(constructor)) as [H1 H2]. cbn [length] in H1, H2.
  set (p := split_point data_type name es 0) in *. unfold c, combine_at. fold p.
  rewrite <- (take_drop p es) in Hs, Hok. split; [now apply sorted_insert|]. intros Hv.
  apply Forall_app in Hok as [Ho1 Ho2]. apply Forall_app_2; [exact Ho1|]. constructor; [split; auto|exact Ho2].
Qed.

Lemma combine_assoc es p name v x :
  name ∉ map fst es -> assoc x (combine_at es p name v) = if decide (x = name) then Some v else assoc x es.
Proof.
  intros Hni. unfold combine_at. rewrite <- (take_drop p es) in Hni at 1. rewrite map_app, not_elem_of_app in Hni.
  replace (assoc x es) with (assoc x (take p es ++ drop p es)) by (now rewrite take_drop). rewrite !assoc_app. cbn [assoc fst snd].
  destruct (decide (x = name)) as [->|Hx].
  - rewrite (proj2 (assoc_None name _)) by tauto. now rewrite decide_True.
  - destruct (assoc x (take p es)); [reflexivity|]. now rewrite decide_False by congruence.
Qed.

(** Entries up to the [m]th are at most the last of them; those after are
    greater. *)
Lemma sorted_split c m e :
  sorted data_type c -> Forall ok c -> c !! m = Some e ->
  Forall (fun x : bytes * Z => cmp x.1 e.1 <= 0) (take (S m) c) /\ Forall (fun x : bytes * Z => cmp e.1 x.1 < 0) (drop (S m) c).
Proof.
  intros Hs Hok Hm. rewrite (take_S_r c m e Hm). pose proof (take_drop_middle c m e Hm) as Hc.
  rewrite <- Hc in Hs. split.
  - apply Forall_app_2.
    + apply Forall_forall. intros x Hx. pose proof (sorted_cross data_type _ _ x e Hs Hx) as Hlt.
      specialize (Hlt ltac:(left)). simpl in Hlt. lia.
    + constructor; [|constructor]. rewrite <- Hc in Hok. apply Forall_app in Hok as [_ Hok].
      apply Forall_cons in Hok as [[Hk _] _]. rewrite (proj2 (typed_eq data_type e.1 e.1 Hk Hk) eq_refl). lia.
  - destruct (sorted_app_inv data_type _ _ Hs) as [_ Hs2]. now apply StronglySorted_inv in Hs2 as [_ Hf].
Qed.
End split_lists.

(** A node of sorted entries that fit. *)
Lemma build_node_tree data_type size leaf left_ right overflow es :
  node.kFixed <= size <= kMaxBlockSize -> fits size es -> sorted data_type es ->
  Forall (fun e : bytes * Z => key_ok data_type e.1 /\ value_ok e) es ->
  0 <= left_ < 2 ^ 64 -> 0 <= right < 2 ^ 64 -> 0 <= overflow < 2 ^ 64 ->
  tree_ok data_type (build_node size leaf left_ right overflow es) size es /\
  links_are (build_node size leaf left_ right overflow es) left_ right (if leaf then u64 kNullLink else overflow).
Proof.
  intros Hs Hf Hso Hok Hl Hr Ho. destruct (keys_bytes _ _ Hok) as [Hk Hv].
  destruct (build_node_rep size leaf left_ right overflow es Hs Hk Hv Hf Hl Hr Ho) as [H1 H2].
  split; [now split|exact H2].
Qed.

(** C38: Splitting a leaf.  From a leaf with the sorted entries [es] and a name
    that is not among them, [split_leaf] makes two leaves, provided each half
    fits its node: together they hold the entries and the new one, in order, all
    keys of the left are at most the separator and all of the right are greater,
    the two are linked to each other and to the old neighbours, and neither half
    is empty. *)
Theorem split_leaf_spec (data_type size offset other : Z) (node name : bytes) (value : Z) (es : list (bytes * Z)) :
  tree_ok data_type node size es -> key_ok data_type name -> name ∉ map fst es -> 0 <= value < 2 ^ 64 ->
  0 <= offset < 2 ^ 64 -> 0 <= other < 2 ^ 64 -> es <> [] -> zlen es + 1 <= kMaxNodeEntries ->
  let c := combine_at es (split_point data_type name es 0) name value in
  let m := (length c / 2)%nat in
  fits size (take m c) -> fits size (drop m c) ->
  exists l r separator, leaf_halves data_type size offset other node name value = Some (l, r, separator) /\
    tree_ok data_type l size (take m c) /\ tree_ok data_type r size (drop m c) /\
    take m c <> [] /\ drop m c <> [] /\
    (forall x, assoc x (take m c ++ drop m c) = if decide (x = name) then Some value else assoc x es) /\
    Forall (fun e => key_compare_typed data_type e.1 separator <= 0) (take m c) /\
    Forall (fun e => key_compare_typed data_type separator e.1 < 0) (drop m c) /\
    links_are l (le64 node node.kLeftLink) other (u64 kNullLink) /\
    links_are r offset (le64 node node.kRightLink) (u64 kNullLink).
Proof.
  intros [Hr Hs Hok] Hn Hni Hv Hoff Hoth Hne Hmax c m Hf1 Hf2.
  destruct (combine_sorted data_type es name value Hs Hok Hn Hni) as [Hcs Hco]. specialize (Hco Hv). fold c in Hcs, Hco.
  assert (Hlen : length c = S (length es)).
  { unfold c, combine_at. rewrite length_app. cbn [length]. pose proof (split_point_bounds data_type name es 0).
    rewrite length_take, length_drop. lia. }
  assert (Hm : (1 <= m /\ m < length c)%nat).
  { unfold m. rewrite Hlen. destruct es as [|e es]; [congruence|]. cbn [length].
    split; [apply Nat.div_le_lower_bound; lia|apply Nat.div_lt; lia]. }
  destruct (lookup_lt_is_Some_2 c (m - 1)) as [e He]; [lia|].
  destruct (sorted_split data_type c (m - 1) e Hcs Hco He) as [S1 S2]. replace (S (m - 1)) with m in S1, S2 by lia.
  pose proof (take_drop m c) as Hcat. rewrite <- Hcat in Hcs, Hco.
  destruct (sorted_app_inv data_type _ _ Hcs) as [Hs1 Hs2]. apply Forall_app in Hco as [Ho1 Ho2].
  pose proof (nr_size _ _ _ Hr) as Hsz. pose proof (nr_bytes _ _ _ Hr) as Hb.
  pose proof (le64_range node node.kLeftLink Hb ltac:(easy)) as Hll. pose proof (le64_range node node.kRightLink Hb ltac:(easy)) as Hlr.
  pose proof (u64_range kNullLink) as Hnull.
  destruct (build_node_tree data_type size true (le64 node node.kLeftLink) other (u64 kNullLink) (take m c)) as [T1 K1]; auto.
  destruct (build_node_tree data_type size true offset (le64 node node.kRightLink) (u64 kNullLink) (drop m c)) as [T2 K2]; auto.
  eexists _, _, _. split.
  { unfold leaf_halves. rewrite (gather_rep node size es Hr) by lia. rewrite (proj2 (Z.ltb_ge _ _)) by lia.
    fold c. fold m. rewrite He. reflexivity. }
  splits; auto.
  - destruct c; [simpl in Hm; lia|]. destruct m; [lia|discriminate].
  - intros E. apply (f_equal length) in E. rewrite length_drop in E. simpl in E. lia.
  - intros x. rewrite Hcat. now apply combine_assoc.
Qed.

(** The children of an internal node, from left to right. *)
Definition children (ks : list (bytes * Z)) (overflow : Z) : list Z := map snd ks ++ [overflow].

Lemma fits_keys size es es' : map fst es = map fst es' -> fits size es -> fits size es'.
Proof.
  intros E. unfold fits, lengths_of, keys. rewrite <- E. apply (f_equal length) in E. rewrite !length_map in E.
  unfold zlen. now rewrite <- E.
Qed.

(** The order is the keys' alone. *)
Lemma sorted_keys data_type es es' : map fst es = map fst es' -> sorted data_type es -> sorted data_type es'.
Proof.
  unfold sorted. revert es. induction es' as [|x es' IH]; intros es Hk Hs; [constructor|].
  destruct es as [|y es]; [discriminate Hk|]. injection Hk as Hxy Hk. apply StronglySorted_inv in Hs as [Hs Hf].
  constructor; [now apply (IH es)|]. rewrite <- Hxy.
  rewrite <- (Forall_map fst (fun k => key_compare_typed data_type y.1 k < 0)) in Hf |- *. now rewrite <- Hk.
Qed.

Section replaced.
Context (data_type : Z) (ks : list (bytes * Z)) (overflow : Z) (name : bytes) (value replace_with : Z).
Local Notation pos := (split_point data_type name ks 0).

(** The combined entries with the split child's right half in place. *)
Lemma replaced_list :
  let c := combine_at ks pos name value in
  exists c' over,
    (if (S pos <=? length c - 1)%nat
     then (match c !! S pos with Some e => <[S pos := (e.1, replace_with)]> c | None => c end, overflow)
     else (c, replace_with)) = (c', over) /\
    map fst c' = map fst c /\ over ∈ [overflow; replace_with] /\
    (forall x, x ∈ c' -> x ∈ c \/ x.2 = replace_with) /\
    children c' over = take pos (children ks overflow) ++ [value; replace_with] ++ drop (S pos) (children ks overflow).
Proof.
  intros c. pose proof (split_point_bounds data_type name ks 0) as [_ Hp]. rewrite Nat.add_0_l in Hp.
  assert (Hlen : length c = S (length ks)).
  { unfold c, combine_at. rewrite length_app. cbn [length]. rewrite length_take, length_drop. lia. }
  assert (Htl : length (take pos ks) = pos) by (rewrite length_take; lia).
  unfold children. rewrite take_app_le by (rewrite length_map; lia). rewrite firstn_map.
  destruct (drop pos ks) as [|k rest] eqn:Ed.
  - assert (Hpe : pos = length ks) by (apply (f_equal length) in Ed; rewrite length_drop in Ed; simpl in Ed; lia).
    rewrite (proj2 (Nat.leb_gt _ _)) by lia. exists c, replace_with. splits; auto.
    + rewrite elem_of_cons, elem_of_cons. auto.
    + unfold c, combine_at. rewrite Ed, map_app. cbn [map snd]. rewrite (drop_ge (map snd ks ++ [overflow])); [|rewrite length_app, length_map; simpl; lia].
      rewrite app_nil_r, <- app_assoc. reflexivity.
  - assert (Hpl : (pos < length ks)%nat) by (apply (f_equal length) in Ed; rewrite length_drop in Ed; simpl in Ed; lia).
    assert (Hc : c = (take pos ks ++ [(name, value)]) ++ k :: rest) by (unfold c, combine_at; rewrite Ed, <- app_assoc; reflexivity).
    assert (Hpre : length (take pos ks ++ [(name, value)]) = S pos) by (rewrite length_app, Htl; simpl; lia).
    rewrite (proj2 (Nat.leb_le _ _)) by lia.
    assert (Hat : c !! S pos = Some k) by (rewrite Hc, lookup_app_r, Hpre, Nat.sub_diag by lia; reflexivity).
    assert (Hins : <[S pos := (k.1, replace_with)]> c = (take pos ks ++ [(name, value)]) ++ (k.1, replace_with) :: rest).
    { rewrite Hc, <- Hpre. rewrite <- (Nat.add_0_r (length (take pos ks ++ [(name, value)]))). now rewrite insert_app_r. }
    rewrite Hat, Hins. eexists _, _. split; [reflexivity|]. rewrite Hc. splits.
    + now rewrite !map_app.
    + left.
    + intros x. rewrite !elem_of_app, !elem_of_cons. intros [Hx|[->|Hx]]; auto.
    + rewrite !map_app. cbn [map snd]. rewrite <- !app_assoc. cbn [app]. do 2 f_equal.
      rewrite <- (take_drop pos ks) at 2. rewrite Ed, map_app. cbn [map]. rewrite <- app_assoc.
      rewrite drop_app_ge by (rewrite length_map; lia). rewrite length_map, Htl.
      replace (S pos - pos)%nat with 1%nat by lia. reflexivity.
Qed.
End replaced.

(** Splitting an internal node.  A child at position [pos] was split: its
    left half keeps the offset [value], its right half is at [replace_with], and
    [name] separates them.  When both halves fit, [split_internal] makes two
    internal nodes and a new separator from the node's keys and [name]: their
    children, in order, are the old ones with the split child replaced by its
    two halves, and the keys are the old ones with [name] in its place. *)
Theorem split_internal_spec (data_type size offset other : Z) (node name : bytes) (value replace_with : Z)
    (ks : list (bytes * Z)) :
  tree_ok data_type node size ks -> key_ok data_type name -> name ∉ map fst ks -> 0 <= value < 2 ^ 64 ->
  0 <= replace_with < 2 ^ 64 -> 0 <= offset < 2 ^ 64 -> 0 <= other < 2 ^ 64 -> ks <> [] ->
  zlen ks + 1 <= kMaxNodeEntries ->
  let pos := split_point data_type name ks 0 in
  let c := combine_at ks pos name value in
  let j := (length c / 2)%nat in
  fits size (take j c) -> fits size (drop (S j) c) ->
  exists l r separator kl kr ol or,
    internal_halves data_type size offset other node name value replace_with = Some (l, r, separator) /\
    tree_ok data_type l size kl /\ tree_ok data_type r size kr /\
    links_are l (le64 node node.kLeftLink) other ol /\ links_are r offset (le64 node node.kRightLink) or /\
    map fst kl ++ separator :: map fst kr = map fst c /\
    children kl ol ++ children kr or =
      take pos (children ks (le64 node node.kOverflowLink)) ++ [value; replace_with] ++
      drop (S pos) (children ks (le64 node node.kOverflowLink)).
Proof.
  intros [Hr Hs Hok] Hn Hni Hv Hrw Hoff Hoth Hne Hmax pos c j Hf1 Hf2.
  destruct (combine_sorted data_type ks name value Hs Hok Hn Hni) as [Hcs Hco]. specialize (Hco Hv). fold pos c in Hcs, Hco.
  assert (Hlen : length c = S (length ks)).
  { unfold c, combine_at. rewrite length_app. cbn [length]. pose proof (split_point_bounds data_type name ks 0).
    fold pos in H. rewrite length_take, length_drop. lia. }
  assert (Hj : (1 <= j /\ j < length c)%nat).
  { unfold j. rewrite Hlen. destruct ks as [|e es]; [congruence|]. cbn [length].
    split; [apply Nat.div_le_lower_bound; lia|apply Nat.div_lt; lia]. }
  pose proof (nr_size _ _ _ Hr) as Hsz. pose proof (nr_bytes _ _ _ Hr) as Hb.
  pose proof (le64_range node node.kLeftLink Hb ltac:(easy)) as Hll. pose proof (le64_range node node.kRightLink Hb ltac:(easy)) as Hlr.
  pose proof (le64_range node node.kOverflowLink Hb ltac:(easy)) as Hlo.
  set (ov := le64 node node.kOverflowLink) in *.
  assert (Hov : u64 (le64_signed node node.kOverflowLink) = ov).
  { unfold le64_signed, signed. fold ov. destruct (ov <? _); [now apply u64_small|].
    unfold u64. replace (ov - 2 ^ 64) with (ov + (-1) * 2 ^ 64) by lia. rewrite Z.mod_add by lia. now apply Z.mod_small. }
  destruct (replaced_list data_type ks ov name value replace_with) as (c' & over & Ec & Hk & Hover & Hin & Hch).
  fold pos c in Ec, Hk, Hin, Hch.
  assert (Hlen' : length c' = length c) by (apply (f_equal length) in Hk; now rewrite !length_map in Hk).
  destruct (lookup_lt_is_Some_2 c' j) as [[sep mid] Hm]; [lia|].
  pose proof (take_drop_middle c' j _ Hm) as Hcat.
  assert (Hok' : Forall (fun e : bytes * Z => key_ok data_type e.1 /\ value_ok e) c').
  { apply Forall_forall. intros x Hx. rewrite Forall_forall in Hco. destruct (Hin x Hx) as [Hx'|Hx']; [now apply Hco|].
    split; [|unfold value_ok; now rewrite Hx'].
    assert (Hxk : x.1 ∈ map fst c) by (rewrite <- Hk; now apply list_elem_of_fmap_2).
    apply list_elem_of_fmap in Hxk as (y & -> & Hy). now apply Hco. }
  pose proof (sorted_keys data_type c c' (eq_sym Hk) Hcs) as Hs'.
  rewrite <- Hcat in Hs', Hok'. destruct (sorted_app_inv data_type _ _ Hs') as [Hs1 Hs2].
  apply StronglySorted_inv in Hs2 as [Hs2 _]. apply Forall_app in Hok' as [Ho1 Ho2]. apply Forall_cons in Ho2 as [[_ Hmid] Ho2].
  assert (Hf1' : fits size (take j c')) by (apply (fits_keys size (take j c)); [rewrite <- !firstn_map; now rewrite Hk|exact Hf1]).
  assert (Hf2' : fits size (drop (S j) c')) by (apply (fits_keys size (drop (S j) c)); [rewrite <- !skipn_map; now rewrite Hk|exact Hf2]).
  assert (Hor : 0 <= over < 2 ^ 64) by (rewrite !elem_of_cons in Hover; destruct Hover as [->|[->|Hx]]; auto; now apply elem_of_nil in Hx).
  destruct (build_node_tree data_type size false (le64 node node.kLeftLink) other mid (take j c')) as [T1 K1]; auto.
  destruct (build_node_tree data_type size false offset (le64 node node.kRightLink) over (drop (S j) c')) as [T2 K2]; auto.
  exists (build_node size false (le64 node node.kLeftLink) other mid (take j c')),
    (build_node size false offset (le64 node node.kRightLink) over (drop (S j) c')), sep, (take j c'), (drop (S j) c'), mid, over.
  split.
  { unfold internal_halves. rewrite (gather_rep node size ks Hr) by lia. rewrite (proj2 (Z.ltb_ge _ _)) by lia.
    fold pos c. rewrite Hov, Ec. fold j. rewrite (proj2 (Nat.ltb_ge j 1)) by lia. rewrite (proj2 (Nat.leb_gt _ _)) by lia.
    now rewrite Hm. }
  splits; auto.
  - rewrite <- Hk. transitivity (map fst (take j c' ++ (sep, mid) :: drop (S j) c')); [now rewrite map_app|now rewrite Hcat].
  - rewrite <- Hch. unfold children. transitivity (map snd (take j c' ++ (sep, mid) :: drop (S j) c') ++ [over]).
    + rewrite map_app. cbn [map snd]. now rewrite <- !app_assoc.
    + now rewrite Hcat.
Qed.

(** * The tree of a fresh directory *)

(** The tree a new directory is born with: the header names one node, right
    after it, and the node is a leaf without neighbours that holds dot, which is
    the directory itself, and dotdot, its parent. *)
Theorem dir_tree_spec (self_block parent_block : Z) :
  0 <= self_block < 2 ^ 64 -> 0 <= parent_block < 2 ^ 64 ->
  let tree := build_dir_tree self_block parent_block in
  let node := slice tree kTreeNodeSize kTreeNodeSize in
  tree_header_parse tree = Some (mkTreeHeader kTreeNodeSize 1 kTreeStringType kTreeNodeSize (u64 kNullLink) (zlen tree)) /\
  tree_ok kTreeStringType node kTreeNodeSize [([46], self_block); ([46; 46], parent_block)] /\
  links_are node (u64 kNullLink) (u64 kNullLink) (u64 kNullLink).
Proof.
  intros Hs Hp tree node.
  assert (En : node = build_node kTreeNodeSize true (u64 kNullLink) (u64 kNullLink) (u64 kNullLink)
                        [([46], self_block); ([46; 46], parent_block)]) by (vm_compute; reflexivity).
  split; [vm_compute; reflexivity|]. rewrite En.
  clear En node tree. apply build_node_tree; [split; vm_compute; congruence|split; vm_compute; [reflexivity|congruence]|..|
    apply u64_range|apply u64_range|apply u64_range].
  - constructor; [constructor; constructor|]. constructor; [vm_compute; reflexivity|constructor].
  - assert (Hk : forall n, (1 <= n <= 2)%nat -> key_ok kTreeStringType (replicate n 46)).
    { intros n Hn. unfold key_ok. splits; [apply Forall_replicate; split; lia|..];
        unfold zlen; rewrite length_replicate; unfold kMaxKeyLength; try lia; intros [|]; discriminate. }
    constructor; [split; [apply (Hk 1%nat); lia|exact Hs]|].
    constructor; [split; [apply (Hk 2%nat); lia|exact Hp]|constructor].
Qed.

(** * On concrete nodes *)

Module SampleSplit.
Definition null : Z := u64 kNullLink.
Definition es : list (bytes * Z) := [([97], 1); ([99], 2); ([101], 3)].
Definition node : bytes := build_node 1024 true null 4096 null es.
Definition inner : bytes := build_node 1024 false null null 5 es.

Lemma sample_entries : sorted kTreeStringType es /\ Forall (fun e : bytes * Z => key_ok kTreeStringType e.1 /\ value_ok e) es.
Proof. split; [repeat constructor|repeat constructor; vm_compute; intuition congruence]. Qed.

Lemma sample_node leaf right overflow :
  0 <= right < 2 ^ 64 -> 0 <= overflow < 2 ^ 64 ->
  tree_ok kTreeStringType (build_node 1024 leaf null right overflow es) 1024 es.
Proof.
  intros Hr Ho. destruct sample_entries as [Hs He].
  apply build_node_tree; auto; [split; vm_compute; congruence|split; vm_compute; [reflexivity|congruence]|apply u64_range].
Qed.

Lemma key_b : key_ok kTreeStringType [98] /\ [98] ∉ map fst es.
Proof.
  split; [repeat constructor; vm_compute; intuition congruence|]. unfold es. cbn [map fst].
  rewrite !elem_of_cons, elem_of_nil. intuition discriminate.
Qed.

(** A leaf of 15 short names and 15 of 246 bytes, and a 16th long one. *)
Definition long_name (i : Z) : bytes := 122 :: i :: replicate 244 97.
Definition mixed : list (bytes * Z) :=
  map (fun i => ([i], i)) (seqZ 97 15) ++ map (fun i => (long_name i, i)) (seqZ 1 15).
Definition full : bytes := build_node kTreeNodeSize true null null null mixed.
End SampleSplit.

Lemma split_leaf_spec_witness :
  exists l r, leaf_halves kTreeStringType 1024 2048 8192 SampleSplit.node [98] 9 = Some (l, r, [98]) /\
    tree_ok kTreeStringType l 1024 [([97], 1); ([98], 9)] /\ tree_ok kTreeStringType r 1024 [([99], 2); ([101], 3)].
Proof.
  destruct SampleSplit.key_b as [Hk Hn].
  assert (Ht : tree_ok kTreeStringType SampleSplit.node 1024 SampleSplit.es)
    by (apply SampleSplit.sample_node; [lia|apply u64_range]).
  destruct (split_leaf_spec kTreeStringType 1024 2048 8192 SampleSplit.node [98] 9 SampleSplit.es Ht Hk Hn)
    as (l & r & sep & E & T1 & T2 & _); [lia..|discriminate|vm_compute; congruence
      |split; vm_compute; [reflexivity|congruence]|split; vm_compute; [reflexivity|congruence]|].
  assert (Hsep : sep = [98]).
  { assert (E' : exists x y, leaf_halves kTreeStringType 1024 2048 8192 SampleSplit.node [98] 9 = Some (x, y, [98]))
      by (eexists _, _; vm_compute; reflexivity).
    destruct E' as (x & y & E'). rewrite E in E'. now injection E'. }
  subst sep. exists l, r. splits; [exact E|exact T1|exact T2].
Defined.

Lemma split_internal_spec_witness :
  exists l r sep kl kr ol or,
    internal_halves kTreeStringType 1024 2048 8192 SampleSplit.inner [98] 2 77 = Some (l, r, sep) /\
    tree_ok kTreeStringType l 1024 kl /\ tree_ok kTreeStringType r 1024 kr /\
    children kl ol ++ children kr or = [1; 2; 77; 3; 5].
Proof.
  destruct SampleSplit.key_b as [Hk Hn].
  assert (Ht : tree_ok kTreeStringType SampleSplit.inner 1024 SampleSplit.es)
    by (apply SampleSplit.sample_node; [apply u64_range|lia]).
  destruct (split_internal_spec kTreeStringType 1024 2048 8192 SampleSplit.inner [98] 2 77 SampleSplit.es Ht Hk Hn)
    as (l & r & sep & kl & kr & ol & or & E & T1 & T2 & _ & _ & _ & Hc); [lia..|discriminate|vm_compute; congruence
      |split; vm_compute; [reflexivity|congruence]|split; vm_compute; [reflexivity|congruence]|].
  exists l, r, sep, kl, kr, ol, or. splits; [exact E|exact T1|exact T2|]. rewrite Hc. vm_compute. reflexivity.
Defined.

Lemma dir_tree_spec_witness :
  assoc [46; 46] [([46], 20); ([46; 46], 10)] = Some 10 /\
  tree_ok kTreeStringType (slice (build_dir_tree 20 10) kTreeNodeSize kTreeNodeSize) kTreeNodeSize [([46], 20); ([46; 46], 10)].
Proof.
  split; [reflexivity|]. destruct (dir_tree_spec 20 10) as (_ & Ht & _); [lia..|exact Ht].
Defined.

(** A split counts entries, not bytes.  The leaf of 15 short names and 15
    names of 246 bytes is a node of 4096 bytes; splitting it for a 16th long name
    puts all 16 long names in the right half, which does not fit: what is written
    is not a node ([node_info] refuses it), and values of its entries are cut
    off. *)
Theorem split_overflows :
  is_Some (node_info SampleSplit.full kTreeNodeSize) /\
  node_insert kTreeNodeSize kTreeStringType SampleSplit.full (SampleSplit.long_name 16) 999 = None /\
  exists l r separator,
    leaf_halves kTreeStringType kTreeNodeSize 4096 8192 SampleSplit.full (SampleSplit.long_name 16) 999 =
      Some (l, r, separator) /\
    zlen r = kTreeNodeSize /\ le16 r node.kKeyCount = 16 /\ node_info r kTreeNodeSize = None /\
    value_at r 16 15 <> 999.
Proof.
  split; [vm_compute; eauto|]. split; [vm_compute; reflexivity|].
  destruct (leaf_halves kTreeStringType kTreeNodeSize 4096 8192 SampleSplit.full (SampleSplit.long_name 16) 999)
    as [[[l r] separator]|] eqn:E; [|vm_compute in E; discriminate E].
  exists l, r, separator. split; [reflexivity|].
  assert (Hr : option_map (fun x => x.1.2) (leaf_halves kTreeStringType kTreeNodeSize 4096 8192 SampleSplit.full
    (SampleSplit.long_name 16) 999) = Some r) by (rewrite E; reflexivity).
  clear E. vm_compute in Hr. injection Hr as <-. vm_compute. splits; try reflexivity. discriminate.
Qed.
