(* ===== verification/WriterStream.v ===== *)
(** The writer's streams (libs/freestanding/aegir-bfs, src/writer.cc): how many
    blocks a stream has, a run added to its direct, indirect or double-indirect
    runs, and growth by fresh zeroed runs.  The theorems count a stream's blocks,
    and say that a run added to the direct runs extends the stream by exactly its
    blocks, and where the 16-bit run length breaks that. *)
From stdpp Require Import base numbers list list_numbers.
From Stdlib Require Import ZArith Lia.
From S2P Require Import Prelude.
From S2P Require Import Layout.
From S2P Require Import Device.
From S2P Require Import Volume.
From S2P Require Import BlockStore.
From S2P Require Import Samples.
From S2P Require Import Journal.
From S2P Require Import Transaction.
From S2P Require Import Allocator.
From S2P Require Import Attribute.
From S2P Require Import Stream.
From S2P Require Import Directory.

(** * The writer *)

(** [class Writer]: the volume with its journal, the allocator, and the buffers
    one call leaves for the next.  Buffers filled before every use are local to
    the definitions. *)
Record Writer (D : Type) := mkWriter {
  w_fs : Fs D;
  w_al : Allocator;
  inode_ : bytes;
  stream_ : bytes;
  hdr_ : bytes;
  parent_ : bytes;
  node_ : bytes;
  tree_type_ : Z;
  edit_parent_ : Z;
}.
Arguments mkWriter {D}.
Arguments w_fs {D}.
Arguments w_al {D}.
Arguments inode_ {D}.
Arguments stream_ {D}.
Arguments hdr_ {D}.
Arguments parent_ {D}.
Arguments node_ {D}.
Arguments tree_type_ {D}.
Arguments edit_parent_ {D}.

Definition kNumArrayBlocks : Z := 4.
Definition kDoubleIndirectArraySize : Z := 4096.

(** [false] is [None]. *)
Definition guard (ok : bool) : option unit := if ok then Some tt else None.

Section writer.
Context {D : Type} `{SectorDevice D}.
Implicit Types w : Writer D.

Definition with_fs w (fs : Fs D) : Writer D :=
  mkWriter fs (w_al w) (inode_ w) (stream_ w) (hdr_ w) (parent_ w) (node_ w) (tree_type_ w) (edit_parent_ w).
Definition with_al w (a : Allocator) : Writer D :=
  mkWriter (w_fs w) a (inode_ w) (stream_ w) (hdr_ w) (parent_ w) (node_ w) (tree_type_ w) (edit_parent_ w).

Definition with_node w (node : bytes) : Writer D :=
  mkWriter (w_fs w) (w_al w) (inode_ w) (stream_ w) (hdr_ w) (parent_ w) node (tree_type_ w) (edit_parent_ w).

(** The buffer [node_] with [data] over its first bytes. *)
Definition fill_node w (data : bytes) : Writer D :=
  with_node w (data ++ drop (length data) (node_ w)).

(** The volume's and the allocator's calls, on the writer's own. *)
Definition w_read_block w (block : Z) : option bytes * Writer D :=
  let '(r, fs) := read_block (w_fs w) block in (r, with_fs w fs).
(** A read into [node_], or ([false]) into a buffer nothing is left in. *)
Definition w_read_node w (into_node : bool) (block : Z) : option bytes * Writer D :=
  try data, w := w_read_block w block in
  (Some data, if into_node then fill_node w data else w).
Definition w_write_block w (block : Z) (data : bytes) : option unit * Writer D :=
  let '(ok, fs) := write_block (w_fs w) block data in (guard ok, with_fs w fs).
Definition w_write_block_now w (block : Z) (data : bytes) : option unit * Writer D :=
  let '(ok, fs) := write_block_now (w_fs w) block data in (guard ok, with_fs w fs).
Definition w_allocate w (max_blocks min_blocks : Z) : option Run * Writer D :=
  let '(r, a, fs) := allocate (w_al w) (w_fs w) max_blocks min_blocks in (r, with_al (with_fs w fs) a).
Definition w_free w (run : Run) : option unit * Writer D :=
  let '(ok, a, fs) := free (w_al w) (w_fs w) run in (guard ok, with_al (with_fs w fs) a).

Definition w_block_size w : Z := block_size (vol (w_fs w)).
Definition w_to_block w (run : Run) : Z := to_block (vol (w_fs w)) run.

(** [for (b < n) write_block(at + b, zero_)], through the journal or straight. *)
Fixpoint write_zeros (n : nat) w (now : bool) (at_ : Z) : option unit * Writer D :=
  match n with
  | O => (Some tt, w)
  | S n =>
    let zero_ := zeros (w_block_size w) in
    try _, w := (if now then w_write_block_now w at_ zero_ else w_write_block w at_ zero_) in
    write_zeros n w now (at_ + 1)
  end.

(** ** A stream's blocks *)

Definition double_indirect_blocks w : Z :=
  if kDoubleIndirectArraySize <? w_block_size w then 1 else kDoubleIndirectArraySize / w_block_size w.

(** [covered] after the runs of an array; [true] is a zero run, which returns. *)
Fixpoint cover_runs (n : nat) (array : bytes) (at_ covered : Z) : bool * Z :=
  match n with
  | O => (false, covered)
  | S n =>
    let run := le_run array at_ in
    if run_is_zero run then (true, covered) else cover_runs n array (at_ + 8) (covered + run_length run)
  end.

Fixpoint cover_arrays (n : nat) w (into_node : bool) (block covered : Z) : bool * Z * Writer D :=
  match n with
  | O => (false, covered, w)
  | S n =>
    match w_read_node w into_node block with
    | (None, w) => (true, covered, w)
    | (Some array, w) =>
      match cover_runs (Z.to_nat (w_block_size w / 8)) array 0 covered with
      | (true, covered) => (true, covered, w)
      | (false, covered) => cover_arrays n w into_node (block + 1) covered
      end
    end
  end.

Fixpoint cover_array_runs (n : nat) w (array : bytes) (at_ covered : Z) : bool * Z * Writer D :=
  match n with
  | O => (false, covered, w)
  | S n =>
    let run := le_run array at_ in
    if run_is_zero run then (true, covered, w)
    else
      match cover_arrays (Z.to_nat (run_length run)) w false (w_to_block w run) covered with
      | (true, covered, w) => (true, covered, w)
      | (false, covered, w) => cover_array_runs n w array (at_ + 8) covered
      end
  end.

Fixpoint cover_double (n : nat) w (block covered : Z) : bool * Z * Writer D :=
  match n with
  | O => (false, covered, w)
  | S n =>
    match w_read_node w true block with
    | (None, w) => (true, covered, w)
    | (Some array, w) =>
      match cover_array_runs (Z.to_nat (w_block_size w / 8)) w array 0 covered with
      | (true, covered, w) => (true, covered, w)
      | (false, covered, w) => cover_double n w (block + 1) covered
      end
    end
  end.

Definition stream_blocks w (stream : bytes) : Z * Writer D :=
  match cover_runs (Z.to_nat data.kDirectCount) stream data.kDirect 0 with
  | (true, covered) => (covered, w)
  | (false, covered) =>
    let indirect := le_run stream data.kIndirect in
    match (if run_is_zero indirect then (false, covered, w)
           else cover_arrays (Z.to_nat (run_length indirect)) w true (w_to_block w indirect) covered) with
    | (true, covered, w) => (covered, w)
    | (false, covered, w) =>
      let double_indirect := le_run stream data.kDoubleIndirect in
      if run_is_zero double_indirect then (covered, w)
      else
        let '(_, covered, w) := cover_double (Z.to_nat (run_length double_indirect)) w
                                  (w_to_block w double_indirect) covered in
        (covered, w)
    end
  end.

(** ** Adding a run *)

(** The first zero run of [n] from slot [j]; [j + n] when there is none. *)
Fixpoint first_zero (n : nat) (array : bytes) (at_ j : Z) : Z :=
  match n with
  | O => j
  | S n => if run_is_zero (le_run array at_) then j else first_zero n array (at_ + 8) (j + 1)
  end.

(** [run] in slot [j] of the array at [base], or joined to the run before it. *)
Definition put_or_join (array : bytes) (base j : Z) (run : Run) : bytes :=
  let previous := if 0 <? j then le_run array (base + (j - 1) * 8) else mkRun 0 0 0 in
  if (0 <? j) && runs_contiguous previous run
  then put_run array (base + (j - 1) * 8)
         (mkRun (allocation_group previous) (start previous) (u16 (run_length previous + run_length run)))
  else put_run array (base + j * 8) run.

(** [range += run.length * block_size] *)
Definition add_range w (stream : bytes) (field : Z) (run : Run) : bytes :=
  put_le64 stream field (u64 (le64_signed stream field + run_length run * w_block_size w)).

(** The indirect arrays, from block [at_]: [Some None] is that all are full. *)
Fixpoint append_indirect (n : nat) w (stream : bytes) (run : Run) (at_ : Z) : option (option bytes) * Writer D :=
  match n with
  | O => (Some None, w)
  | S n =>
    try array, w := w_read_node w true at_ in
    let per_block := w_block_size w / 8 in
    let j := first_zero (Z.to_nat per_block) array 0 0 in
    if per_block <=? j then append_indirect n w stream run (at_ + 1)
    else
      let array := put_or_join array 0 j run in
      try _, w := w_write_block (fill_node w array) at_ array in
      (Some (Some (add_range w stream data.kMaxIndirectRange run)), w)
  end.

(** [do { ... } while ((++index % per_block) != 0 && run.length != 0)] *)
Fixpoint put_pieces (fuel : nat) (work : bytes) (run : Run) (index unit per_block : Z) : bytes * Run * Z :=
  match fuel with
  | O => (work, run, index)
  | S fuel =>
    let work := put_run work (index mod per_block * 8) (mkRun (allocation_group run) (start run) (u16 unit)) in
    let run := mkRun (allocation_group run) (u16 (start run + unit)) (u16 (run_length run - unit)) in
    let index := index + 1 in
    if negb (index mod per_block =? 0) && negb (run_length run =? 0)
    then put_pieces fuel work run index unit per_block
    else (work, run, index)
  end.

(** A fresh array of [unit] zeroed blocks. *)
Definition fresh_array w (unit : Z) : option Run * Writer D :=
  match w_allocate w unit unit with
  | (None, w) => (None, w)
  | (Some array, w) =>
    if run_length array <? unit then
      (None, if run_length array =? 0 then w else (w_free w array).2)
    else
      match write_zeros (Z.to_nat (run_length array)) w false (w_to_block w array) with
      | (None, w) => (None, (w_free w array).2)
      | (Some _, w) => (Some array, w)
      end
  end.

(** The inner [do]: one array of runs; [node] is the block of the
    double-indirect run, [wrote] whether it changed. *)
Fixpoint fill_array (fuel : nat) w (node : bytes) (run : Run) (indirect_index index unit : Z) (wrote : bool)
    : option (bytes * Run * Z * bool) * Writer D :=
  match fuel with
  | O => (None, w)
  | S fuel =>
    let per_block := w_block_size w / 8 in
    let at_ := indirect_index mod per_block * 8 in
    let slot := le_run node at_ in
    try (node, slot, wrote), w :=
      (if run_is_zero slot then
         try array, w := fresh_array w unit in (Some (put_run node at_ array, array, true), w)
       else (Some (node, slot, wrote), w)) in
    let data_block := w_to_block w slot + index / per_block in
    try work, w := w_read_block w data_block in
    let '(work, run, index) := put_pieces (S (Z.to_nat (run_length run))) work run index unit per_block in
    try _, w := w_write_block w data_block work in
    if negb (index mod (per_block * unit) =? 0) && negb (run_length run =? 0)
    then fill_array fuel w node run indirect_index index unit wrote
    else (Some (node, run, index, wrote), w)
  end.

(** [while (run.length != 0)]; [loaded] is the double-indirect block held and
    its number. *)
Fixpoint append_double_loop (fuel : nat) w (double_indirect run : Run) (indirect_index index unit : Z)
    (loaded : option (Z * bytes)) : option Datatypes.unit * Writer D :=
  if run_length run =? 0 then (Some tt, w)
  else
    match fuel with
    | O => (None, w)
    | S fuel =>
      let per_block := w_block_size w / 8 in
      let block := u64 indirect_index / per_block in
      if run_length double_indirect <=? block then (None, w)
      else
        try (array_block, node), w :=
          (match loaded with
           | Some held => (Some held, w)
           | None =>
             let array_block := w_to_block w double_indirect + block in
             try node, w := w_read_node w true array_block in (Some (array_block, node), w)
           end) in
        try (node, run, index, wrote), w :=
          fill_array (S (Z.to_nat (run_length run))) w node run indirect_index index unit false in
        let w := fill_node w node in
        try _, w := (if (wrote : bool) then w_write_block w array_block node else (Some tt, w)) in
        let index := if index =? per_block * unit then 0 else index in
        let indirect_index := indirect_index + 1 in
        let wrapped := indirect_index mod per_block =? 0 in
        append_double_loop fuel w double_indirect run indirect_index (if wrapped then 0 else index) unit
          (if wrapped then None else Some (array_block, node))
    end.

Definition append_double w (stream : bytes) (run : Run) : option bytes * Writer D :=
  let unit := double_indirect_blocks w in
  let per_block := w_block_size w / 8 in
  let max_indirect := le64_signed stream data.kMaxIndirectRange in
  let max_double := le64_signed stream data.kMaxDoubleIndirectRange in
  let start_ := max_double - max_indirect in
  let direct_size := unit * w_block_size w in
  let indirect_size := unit * direct_size * per_block in
  if (direct_size <=? 0) || (indirect_size <=? 0) then (None, w)
  else
    let indirect_index := Z.quot start_ indirect_size in
    let index := Z.quot (Z.rem start_ indirect_size) direct_size in
    try _, w := append_double_loop (S (Z.to_nat (run_length run))) w (le_run stream data.kDoubleIndirect) run
                  indirect_index index unit None in
    (Some (put_le64 stream data.kMaxDoubleIndirectRange
             (u64 (max_double + run_length run * w_block_size w))), w).

(** The stream with [run] added, and how many of its blocks were not taken. *)
Definition append_run w (stream : bytes) (run : Run) : option (Z * bytes) * Writer D :=
  let used := first_zero (Z.to_nat data.kDirectCount) stream data.kDirect 0 in
  if used <? data.kDirectCount then
    (Some (0, add_range w (put_or_join stream data.kDirect used run) data.kMaxDirectRange run), w)
  else
    try (stream, indirect), w :=
      (let indirect := le_run stream data.kIndirect in
       if run_is_zero indirect then
         match w_allocate w kNumArrayBlocks 1 with
         | (None, w) => (None, w)
         | (Some array, w) =>
           if run_length array =? 0 then (None, w)
           else
             match write_zeros (Z.to_nat (run_length array)) w false (w_to_block w array) with
             | (None, w) => (None, (w_free w array).2)
             | (Some _, w) =>
               let stream := put_run stream data.kIndirect array in
               (Some (put_le64 stream data.kMaxIndirectRange (u64 (le64_signed stream data.kMaxDirectRange)), array), w)
             end
         end
       else (Some (stream, indirect), w)) in
    try done, w := append_indirect (Z.to_nat (run_length indirect)) w stream run (w_to_block w indirect) in
    match done with
    | Some stream => (Some (0, stream), w)
    | None =>
      let unit := double_indirect_blocks w in
      try stream, w :=
        (if run_is_zero (le_run stream data.kDoubleIndirect) then
           try array, w := fresh_array w unit in
           let stream := put_run stream data.kDoubleIndirect array in
           (Some (put_le64 stream data.kMaxDoubleIndirectRange (u64 (le64_signed stream data.kMaxIndirectRange))), w)
         else (Some stream, w)) in
      if negb (unit =? 0) && negb (run_length run mod unit =? 0) then
        let usable := run_length run / unit * unit in
        if usable =? 0 then (Some (run_length run, stream), w)
        else
          try stream, w := append_double w stream (mkRun (allocation_group run) (start run) (u16 usable)) in
          (Some (run_length run - usable, stream), w)
      else
        try stream, w := append_double w stream run in (Some (0, stream), w)
    end.

(** [while ( *covered < needed_blocks)]: the stream and [covered].  A turn that
    takes no block is followed by one that takes a unit, or by a refusal. *)
Fixpoint grow_loop (fuel : nat) w (stream : bytes) (needed_blocks covered min_unit : Z)
    : option (bytes * Z) * Writer D :=
  if needed_blocks <=? covered then (Some (stream, covered), w)
  else
    match fuel with
    | O => (None, w)
    | S fuel =>
      let want := needed_blocks - covered in
      let want := if want <? min_unit then min_unit else want in
      let want := if 65535 <? want then 65535 else want in
      try run, w := w_allocate w want min_unit in
      if (1 <? min_unit) && (run_length run <? min_unit) then (None, (w_free w run).2)
      else
        match write_zeros (Z.to_nat (run_length run)) w true (w_to_block w run) with
        | (None, w) => (None, (w_free w run).2)
        | (Some _, w) =>
          match append_run w stream run with
          | (None, w) => (None, (w_free w run).2)
          | (Some (rest, stream), w) =>
            let w :=
              if negb (rest =? 0)
              then (w_free w (mkRun (allocation_group run) (u16 (start run + (run_length run - rest))) (u16 rest))).2
              else w in
            let covered := covered + (run_length run - rest) in
            let min_unit := if (rest =? run_length run) || negb (rest =? 0) then double_indirect_blocks w else 1 in
            grow_loop fuel w stream needed_blocks covered min_unit
          end
        end
    end.

Definition grow_to w (stream : bytes) (needed_blocks covered : Z) : option (bytes * Z) * Writer D :=
  grow_loop (Z.to_nat (2 * (needed_blocks - covered) + 2)) w stream needed_blocks covered 1.

(** The writer's [zero_range]: zeros straight to the disk, 8 KiB at a time. *)
Fixpoint zero_stream_loop (fuel : nat) w (stream : bytes) (pos to : Z) : option Datatypes.unit * Writer D :=
  if to <=? pos then (Some tt, w)
  else
    match fuel with
    | O => (None, w)
    | S fuel =>
      let chunk := if kMaxBlockSize <? to - pos then kMaxBlockSize else to - pos in
      let '(ok, fs) := write_stream_direct (w_fs w) stream pos (zeros chunk) (u32 chunk) in
      if negb ok then (None, with_fs w fs) else zero_stream_loop fuel (with_fs w fs) stream (pos + chunk) to
    end.
Definition zero_stream w (stream : bytes) (from to : Z) : option Datatypes.unit * Writer D :=
  zero_stream_loop (Z.to_nat (to - from)) w stream from to.
End writer.

(** * How many blocks a stream has *)

Definition blocks_total (rs : list Run) : Z := foldr (fun r n => run_length r + n) 0 rs.

Lemma blocks_total_app rs rs' : blocks_total (rs ++ rs') = blocks_total rs + blocks_total rs'.
Proof. induction rs as [|r rs IH]; simpl; [reflexivity|]. rewrite IH. lia. Qed.

Lemma cover_runs_spec n array at_ covered :
  cover_runs n array at_ covered =
  ((array_runs n array at_).2, covered + blocks_total (array_runs n array at_).1).
Proof.
  revert at_ covered. induction n as [|n IH]; intros at_ covered; cbn [cover_runs array_runs]; [f_equal; simpl; lia|].
  destruct (run_is_zero (le_run array at_)); [f_equal; simpl; lia|]. rewrite IH.
  destruct (array_runs n array (at_ + 8)) as [rs stop]; simpl. f_equal. lia.
Qed.

Lemma seqZ_succ block (n : nat) : seqZ block (Z.of_nat (S n)) = block :: seqZ (block + 1) (Z.of_nat n).
Proof. rewrite (seqZ_cons block (Z.of_nat (S n))) by lia. do 2 f_equal; lia. Qed.

Section covering.
Context {D : Type} `{SectorDeviceLaws D} (live : Z -> Prop) (w0 : Writer D).
Notation fs0 := (w_fs w0).
Notation v := (vol fs0).
Notation reached b := (client_block v b /\ live b).
Context (Hreads : reads_ok fs0).

(** The writer as it was, but for the volume's cache and the scratch node. *)
Definition cached (w : Writer D) : Prop :=
  exists fs node, w = with_node (with_fs w0 fs) node /\ fs_ok live fs /\ only_cache fs0 fs.

Definition covers (ars : list Run * bool) (covered : Z) (res : bool * Z * Writer D) : Prop :=
  res.1.1 = ars.2 /\ res.1.2 = covered + blocks_total ars.1 /\ cached res.2.

Lemma cached_facts w :
  cached w -> w_block_size w = block_size v /\ (forall r, w_to_block w r = to_block v r).
Proof.
  intros (fs & node & -> & _ & Hc). destruct (only_cache_same _ _ Hc) as (E1 & _ & _ & _ & _ & _ & _ & E8 & _).
  split; [exact E1|exact E8].
Qed.

Lemma cover_read w into_node b :
  cached w -> reached b -> exists w', w_read_node w into_node b = (Some (view fs0 b), w') /\ cached w'.
Proof.
  intros (fs & node & -> & Hok & Hc) [Hb Hl]. destruct (only_cache_same _ _ Hc) as (_ & S2 & _ & _ & _ & S6 & S7 & _).
  unfold w_read_node, w_read_block. simpl. destruct (read_block fs b) as [r fs'] eqn:E.
  destruct (read_block_law live fs b r fs' Hok (proj2 (S7 b) Hb) Hl E) as (R1 & R2 & R3 & R4).
  destruct (R4 (S6 Hreads)) as [data ->]. rewrite (R3 data eq_refl), S2.
  eexists. split; [reflexivity|]. exists fs', (if into_node then view fs0 b ++ drop (length (view fs0 b)) node else node).
  splits; [now destruct into_node|auto|exact (only_cache_trans _ _ _ Hc R2)].
Qed.

Lemma cover_arrays_spec n : forall w into_node block covered,
  cached w -> Forall (fun b => reached b) (seqZ block (Z.of_nat n)) ->
  covers (walk1 (view fs0) v (seqZ block (Z.of_nat n))) covered (cover_arrays n w into_node block covered).
Proof.
  induction n as [|n IH]; intros w into_node block covered Hw Hf; cbn [cover_arrays]; [unfold covers; simpl; splits; auto; lia|].
  rewrite seqZ_succ in *. apply Forall_cons in Hf as [Hb Hf]. unfold walk1 in *. cbn [walk].
  destruct (cover_read w into_node block Hw Hb) as (w' & -> & Hw'). rewrite (proj1 (cached_facts w' Hw')), cover_runs_spec.
  fold (block_runs (view fs0) v block). destruct (block_runs (view fs0) v block) as [rs stop]; simpl.
  destruct stop; [unfold covers; simpl; auto|]. specialize (IH w' into_node (block + 1) (covered + blocks_total rs) Hw' Hf).
  destruct (walk _ _) as [rs' stop']. destruct IH as (E1 & E2 & E3). unfold covers. simpl in *.
  rewrite blocks_total_app. splits; auto. lia.
Qed.

Lemma cover_array_runs_spec n : forall w array at_ covered,
  cached w -> bytes_ok array -> 0 <= at_ ->
  Forall (fun b => reached b) (flat_map (run_blocks v) (array_runs n array at_).1) ->
  covers (walk_runs (view fs0) v (array_runs n array at_)) covered (cover_array_runs n w array at_ covered).
Proof.
  induction n as [|n IH]; intros w array at_ covered Hw Hby Ha Hf; cbn [cover_array_runs array_runs] in *.
  { unfold covers; simpl; splits; auto; lia. }
  destruct (run_is_zero (le_run array at_)); [unfold covers; simpl; splits; auto; lia|].
  pose proof (le_run_ok array at_ Hby Ha) as (_ & _ & Hl). set (run := le_run array at_) in *.
  specialize (IH) with (array := array) (at_ := at_ + 8).
  destruct (array_runs n array (at_ + 8)) as [rs stop]. simpl fst in *. cbn [flat_map] in Hf.
  apply Forall_app in Hf as [Hf1 Hf2]. rewrite (proj2 (cached_facts w Hw)).
  pose proof (cover_arrays_spec (Z.to_nat (run_length run)) w false (to_block v run) covered Hw) as Hc.
  rewrite Z2Nat.id in Hc by lia. fold (run_blocks v run) in Hc. specialize (Hc Hf1).
  destruct (cover_arrays _ w _ _ covered) as [[stop1 covered1] w1]. unfold walk_runs in *. cbn [fst snd walk] in *.
  destruct (walk1 (view fs0) v (run_blocks v run)) as [rs1 s1] eqn:E1. destruct Hc as (Hs & Hc & Hw1). simpl in Hs, Hc. subst s1 covered1.
  destruct stop1; [unfold covers; simpl; auto|].
  specialize (IH w1 (covered + blocks_total rs1) Hw1 Hby ltac:(lia) Hf2).
  destruct (walk _ rs) as [rs2 s2]. destruct IH as (I1 & I2 & I3). unfold covers; simpl in *.
  rewrite blocks_total_app. splits; auto. lia.
Qed.

Lemma cover_double_spec n : forall w block covered,
  cached w -> fs_ok live fs0 -> Forall (fun b => reached b) (seqZ block (Z.of_nat n)) ->
  Forall (fun b => reached b)
    (flat_map (fun b => flat_map (run_blocks v) (block_runs (view fs0) v b).1) (seqZ block (Z.of_nat n))) ->
  covers (walk2 (view fs0) v (seqZ block (Z.of_nat n))) covered (cover_double n w block covered).
Proof.
  induction n as [|n IH]; intros w block covered Hw Hok Hf Hf2; cbn [cover_double];
    [unfold covers; simpl; splits; auto; lia|].
  rewrite seqZ_succ in *. apply Forall_cons in Hf as [Hb Hf]. cbn [flat_map] in Hf2. apply Forall_app in Hf2 as [Hf2 Hf3].
  unfold walk2 in *. cbn [walk]. destruct (cover_read w true block Hw Hb) as (w' & -> & Hw').
  rewrite (proj1 (cached_facts w' Hw')).
  pose proof (cover_array_runs_spec (Z.to_nat (block_size v / 8)) w' (view fs0 block) 0 covered Hw'
    (proj2 (view_len live fs0 block Hok)) ltac:(lia) Hf2) as Hc. fold (block_runs (view fs0) v block) in Hc.
  destruct (cover_array_runs _ w' _ 0 covered) as [[stop1 covered1] w1].
  destruct (walk_runs (view fs0) v _) as [rs1 s1]. destruct Hc as (Hs & Hc & Hw1). simpl in Hs, Hc. subst s1 covered1.
  destruct stop1; [unfold covers; simpl; auto|].
  specialize (IH w1 (block + 1) (covered + blocks_total rs1) Hw1 Hok Hf Hf3).
  destruct (walk _ _) as [rs2 s2]. destruct IH as (I1 & I2 & I3). unfold covers; simpl in *.
  rewrite blocks_total_app. splits; auto. lia.
Qed.

Lemma stream_blocks_law stream :
  fs_ok live fs0 -> bytes_ok stream -> Forall (fun b => reached b) (stream_arrays (view fs0) v stream) ->
  (stream_blocks w0 stream).1 = blocks_total (written_runs (view fs0) v stream) /\ cached (stream_blocks w0 stream).2.
Proof.
  intros Hok Hby Ha. unfold stream_arrays in Ha. apply Forall_app in Ha as [A1 A2]. apply Forall_app in A2 as [A2 A3].
  assert (Hw0 : cached w0) by (exists fs0, (node_ w0); splits; [now destruct w0|auto|apply only_cache_refl]).
  unfold stream_blocks, written_runs, stream_walk. rewrite cover_runs_spec.
  destruct (array_runs _ stream _) as [rs1 [|]]; simpl; [split; [lia|auto]|].
  set (ind := le_run stream data.kIndirect) in *. set (dbl := le_run stream data.kDoubleIndirect) in *.
  assert (Hri : run_ok ind) by (apply le_run_ok; [exact Hby|unfold data.kIndirect; lia]).
  assert (Hrd : run_ok dbl) by (apply le_run_ok; [exact Hby|unfold data.kDoubleIndirect; lia]).
  assert (H1 : covers (walk1 (view fs0) v (named_blocks v ind)) (0 + blocks_total rs1)
    (if run_is_zero ind then (false, 0 + blocks_total rs1, w0)
     else cover_arrays (Z.to_nat (run_length ind)) w0 true (w_to_block w0 ind) (0 + blocks_total rs1))).
  { destruct (run_is_zero ind) eqn:Ez.
    - unfold named_blocks. rewrite Ez. unfold covers; simpl. splits; auto; lia.
    - rewrite (named_arrays _ ind _ Hri eq_refl Ez) in A1 |- *. now apply cover_arrays_spec. }
  destruct (if run_is_zero ind then _ else _) as [[s2 c2] w2]. destruct (walk1 _ _ _) as [rs2 s2'].
  destruct H1 as (E1 & E2 & Hw2). simpl in E1, E2, Hw2. subst s2' c2.
  destruct s2; simpl; [rewrite blocks_total_app; split; [lia|auto]|].
  destruct (run_is_zero dbl) eqn:Ez.
  - unfold named_blocks. rewrite Ez. simpl. rewrite app_nil_r, blocks_total_app. split; [lia|auto].
  - rewrite (named_arrays _ dbl _ Hrd eq_refl Ez) in A2, A3 |- *. rewrite (proj2 (cached_facts w2 Hw2)).
    pose proof (cover_double_spec (Z.to_nat (run_length dbl)) w2 (to_block v dbl) (0 + blocks_total rs1 + blocks_total rs2)
      Hw2 Hok A2 A3) as H3.
    destruct (cover_double _ w2 _ _) as [[s3 c3] w3]. destruct (walk2 _ _ _) as [rs3 s3'].
    destruct H3 as (_ & E3 & Hw3). simpl in *. rewrite !blocks_total_app. split; [lia|auto].
Qed.
End covering.

(** * A run added to an array of runs *)

Definition zero_run : Run := mkRun 0 0 0.

(** The first [n] slots of an array of runs. *)
Definition slots (n : nat) (array : bytes) (at_ : Z) : list Run :=
  map (fun i => le_run array (at_ + 8 * Z.of_nat i)) (seq 0 n).

(** The runs before the first zero run. *)
Fixpoint before_zero (rs : list Run) : list Run * bool :=
  match rs with
  | [] => ([], false)
  | r :: rs => if run_is_zero r then ([], true) else let '(l, stop) := before_zero rs in (r :: l, stop)
  end.

Lemma slots_cons n array at_ : slots (S n) array at_ = le_run array at_ :: slots n array (at_ + 8).
Proof.
  unfold slots. cbn [seq map]. rewrite <- seq_shift, map_map. f_equal; [f_equal; lia|].
  apply map_ext. intros i. f_equal. lia.
Qed.

Lemma array_runs_slots n array at_ : array_runs n array at_ = before_zero (slots n array at_).
Proof.
  revert at_. induction n as [|n IH]; intros at_; [reflexivity|]. rewrite slots_cons. cbn [array_runs before_zero].
  destruct (run_is_zero _); [reflexivity|]. now rewrite IH.
Qed.

Lemma first_zero_slots n array at_ j :
  first_zero n array at_ j = j + zlen (array_runs n array at_).1.
Proof.
  revert at_ j. induction n as [|n IH]; intros at_ j; cbn [first_zero array_runs]; [unfold zlen; simpl; lia|].
  destruct (run_is_zero _); [unfold zlen; simpl; lia|]. rewrite IH.
  destruct (array_runs n array (at_ + 8)) as [rs stop]; simpl. unfold zlen. simpl. lia.
Qed.

Lemma length_slots n array at_ : length (slots n array at_) = n.
Proof. unfold slots. now rewrite length_map, length_seq. Qed.

Lemma slots_lookup n array at_ (i : nat) :
  (i < n)%nat -> slots n array at_ !! i = Some (le_run array (at_ + 8 * Z.of_nat i)).
Proof. intros Hi. unfold slots. rewrite list_lookup_fmap, lookup_seq_lt by lia. reflexivity. Qed.

Lemma slots_put n array at_ (k : nat) r :
  0 <= at_ -> (k < n)%nat -> at_ + 8 * Z.of_nat n <= zlen array -> run_ok r ->
  slots n (put_run array (at_ + 8 * Z.of_nat k) r) at_ = <[k := r]> (slots n array at_).
Proof.
  intros Ha Hk Hn Hr. apply list_eq. intros i. destruct (decide (i < n)%nat) as [Hi|Hi].
  - rewrite slots_lookup by lia. destruct (decide (i = k)) as [->|Hne].
    + rewrite list_lookup_insert_eq by (rewrite length_slots; lia). f_equal. apply le_run_put_same; auto; lia.
    + rewrite list_lookup_insert_ne, slots_lookup by lia. f_equal. rewrite put_run_blit by lia.
      apply le_run_blit_disj; rewrite ?zlen_run_bytes_of; lia.
  - rewrite !lookup_ge_None_2; [reflexivity| |]; rewrite ?length_insert, length_slots; lia.
Qed.

Lemma before_zero_app rs m :
  Forall (fun r => run_is_zero r = false) rs -> before_zero (rs ++ replicate m zero_run) = (rs, bool_decide (m <> 0%nat)).
Proof.
  induction 1 as [|r rs Hr Hf IH]; simpl; [destruct m; reflexivity|]. now rewrite Hr, IH.
Qed.

Lemma before_zero_nonzero rs : Forall (fun r => run_is_zero r = false) (before_zero rs).1.
Proof.
  induction rs as [|r rs IH]; simpl; [constructor|]. destruct (run_is_zero r) eqn:E; [constructor|].
  destruct (before_zero rs); simpl in *. now constructor.
Qed.

(** The runs of the array, and zero runs after them. *)
Record dense (n : nat) (array : bytes) (at_ : Z) (rs : list Run) : Prop := {
  dn_nonzero : Forall (fun r => run_is_zero r = false) rs;
  dn_length : (length rs <= n)%nat;
  dn_slots : slots n array at_ = rs ++ replicate (n - length rs) zero_run;
}.

Lemma dense_runs n array at_ rs :
  dense n array at_ rs -> array_runs n array at_ = (rs, bool_decide ((length rs < n)%nat)).
Proof.
  intros [Hf Hl Hs]. rewrite array_runs_slots, Hs, before_zero_app by auto. f_equal.
  apply bool_decide_ext. lia.
Qed.

(** The runs with [run] after them, joined to the last where they meet. *)
Definition add_run (rs : list Run) (run : Run) : list Run :=
  match last rs with
  | Some previous =>
    if runs_contiguous previous run
    then take (length rs - 1) rs ++ [mkRun (allocation_group previous) (start previous) (run_length previous + run_length run)]
    else rs ++ [run]
  | None => [run]
  end.

(** The 16-bit length holds the joined run. *)
Definition join_fits (rs : list Run) (run : Run) : Prop :=
  forall previous, last rs = Some previous -> runs_contiguous previous run = true ->
    run_length previous + run_length run < 65536.

Lemma run_nonzero r : 0 < run_length r -> run_is_zero r = false.
Proof. intros Hr. unfold run_is_zero. rewrite (proj2 (Z.eqb_neq (run_length r) 0)), andb_false_r; [reflexivity|lia]. Qed.

Lemma add_run_fresh rs run :
  (forall previous, last rs = Some previous -> runs_contiguous previous run = false) -> add_run rs run = rs ++ [run].
Proof.
  unfold add_run. destruct (last rs) as [p|] eqn:E; [intros Hc; now rewrite (Hc p eq_refl)|].
  apply last_None in E as ->. reflexivity.
Qed.

Lemma dense_put n array at_ rs run :
  0 <= at_ -> at_ + 8 * Z.of_nat n <= zlen array -> dense n array at_ rs -> (length rs < n)%nat ->
  run_ok run -> run_is_zero run = false ->
  dense n (put_run array (at_ + zlen rs * 8) run) at_ (rs ++ [run]).
Proof.
  intros Ha Hn [Hf Hl Hs] Hlt Hr Hz. split.
  - apply Forall_app. auto.
  - rewrite length_app. simpl. lia.
  - replace (zlen rs * 8) with (8 * Z.of_nat (length rs)) by (unfold zlen; lia). rewrite slots_put, Hs by auto.
    replace (n - length rs)%nat with (S (n - length (rs ++ [run]))) by (rewrite length_app; simpl; lia).
    cbn [replicate]. rewrite insert_app_r_alt, Nat.sub_diag by lia. cbn [insert list_insert].
    now rewrite <- app_assoc.
Qed.

Lemma dense_join n array at_ rs previous run :
  0 <= at_ -> at_ + 8 * Z.of_nat n <= zlen array -> dense n array at_ (rs ++ [previous]) ->
  run_ok run -> run_is_zero run = false ->
  dense n (put_run array (at_ + zlen rs * 8) run) at_ (rs ++ [run]).
Proof.
  intros Ha Hn [Hf Hl Hs] Hr Hz. rewrite length_app in *. simpl in Hl, Hs. split.
  - apply Forall_app in Hf as [Hf _]. apply Forall_app. auto.
  - rewrite length_app. simpl. lia.
  - replace (zlen rs * 8) with (8 * Z.of_nat (length rs)) by (unfold zlen; lia).
    rewrite slots_put, Hs by (auto; lia). rewrite insert_app_l by (rewrite length_app; simpl; lia).
    rewrite insert_app_r_alt, Nat.sub_diag by lia. cbn [insert list_insert]. now rewrite length_app.
Qed.

Lemma put_or_join_spec n array at_ rs run :
  0 <= at_ -> at_ + 8 * Z.of_nat n <= zlen array -> bytes_ok array -> dense n array at_ rs -> (length rs < n)%nat ->
  run_ok run -> 0 < run_length run -> join_fits rs run ->
  dense n (put_or_join array at_ (zlen rs) run) at_ (add_run rs run).
Proof.
  intros Ha Hn Hby Hd Hlt Hr Hz Hj. pose proof (run_nonzero run Hz) as Hnz.
  destruct rs as [|previous rs _] using rev_ind; [exact (dense_put n array at_ [] run Ha Hn Hd Hlt Hr Hnz)|].
  assert (Hp : le_run array (at_ + (zlen (rs ++ [previous]) - 1) * 8) = previous).
  { pose proof (slots_lookup n array at_ (length rs)) as Hl. rewrite length_app in Hlt. simpl in Hlt.
    specialize (Hl ltac:(lia)). rewrite (dn_slots _ _ _ _ Hd), <- app_assoc in Hl. simpl in Hl.
    rewrite list_lookup_middle in Hl by reflexivity. injection Hl as ->. f_equal. unfold zlen. rewrite length_app. simpl. lia. }
  assert (Hrp : run_ok previous) by (rewrite <- Hp; apply le_run_ok; [auto|unfold zlen; rewrite length_app; simpl; lia]).
  unfold put_or_join. rewrite (proj2 (Z.ltb_lt 0 _)) by (unfold zlen; rewrite length_app; simpl; lia).
  rewrite Hp. cbn [andb]. destruct (runs_contiguous previous run) eqn:Ec.
  - pose proof (Hj previous (last_snoc _ _) Ec) as Hfit. unfold add_run. rewrite last_snoc, Ec.
    rewrite length_app, Nat.add_sub, take_app_length. destruct Hrp as (P1 & P2 & P3).
    rewrite u16_small by lia. replace (zlen (rs ++ [previous]) - 1) with (zlen rs) by (unfold zlen; rewrite length_app; simpl; lia).
    apply (dense_join n array at_ rs previous); auto; [unfold run_ok; simpl; lia|apply run_nonzero; simpl; lia].
  - rewrite add_run_fresh by (intros p E; rewrite last_snoc in E; now injection E as <-). now apply dense_put.
Qed.

(** A run that lies in one allocation group. *)
Lemma to_block_next v a b :
  geometry_ok v -> run_ok a -> start b < 2 ^ ag_shift_ v -> 0 < run_length a -> runs_contiguous a b = true ->
  to_block v b = to_block v a + run_length a.
Proof.
  intros Hg (A1 & A2 & A3) Hb Hl Hc. unfold runs_contiguous in Hc. breflect.
  destruct a as [ga sa la], b as [gb sb lb]; simpl in *. rewrite !to_block_sum by (auto; lia). lia.
Qed.

Lemma add_run_blocks v rs run :
  geometry_ok v -> Forall run_ok rs -> Forall (fun r => 0 < run_length r) rs -> 0 <= run_length run ->
  start run < 2 ^ ag_shift_ v ->
  data_blocks v (add_run rs run) = data_blocks v rs ++ run_blocks v run.
Proof.
  intros Hg Hok Hp Hr Hs. unfold data_blocks. destruct rs as [|previous rs _] using rev_ind; [exact (app_nil_r _)|].
  unfold add_run. rewrite last_snoc. apply Forall_app in Hok as [_ Hok]. apply Forall_app in Hp as [_ Hp].
  apply Forall_cons in Hok as [Hok _]. apply Forall_cons in Hp as [Hp _].
  destruct (runs_contiguous previous run) eqn:Ec; rewrite !flat_map_app; simpl; rewrite !app_nil_r; [|reflexivity].
  rewrite length_app, Nat.add_sub, take_app_length, <- app_assoc. f_equal. unfold run_blocks at 1. cbn [run_length].
  rewrite seqZ_app by lia. unfold run_blocks. now rewrite (to_block_next v previous run Hg Hok Hs Hp Ec).
Qed.

(** * The direct runs *)

(** A stream whose direct runs are [rs]. *)
Record direct_stream (stream : bytes) (rs : list Run) : Prop := {
  ds_length : zlen stream = data.kBytes;
  ds_bytes : bytes_ok stream;
  ds_dense : dense (Z.to_nat data.kDirectCount) stream data.kDirect rs;
  ds_positive : Forall (fun r => 0 < run_length r) rs;
}.

Lemma direct_run_ok stream rs : direct_stream stream rs -> Forall run_ok rs.
Proof.
  intros [Hl Hb [Hf Hn Hs] _]. apply Forall_forall. intros r Hr.
  assert (Hin : r ∈ slots (Z.to_nat data.kDirectCount) stream data.kDirect) by (rewrite Hs; apply elem_of_app; auto).
  unfold slots in Hin. apply list_elem_of_fmap in Hin as (i & -> & _).
  apply le_run_ok; [exact Hb|unfold data.kDirect; lia].
Qed.

Lemma add_run_positive rs run :
  Forall (fun r => 0 < run_length r) rs -> 0 < run_length run -> Forall (fun r => 0 < run_length r) (add_run rs run).
Proof.
  intros Hf Hr. destruct rs as [|previous rs _] using rev_ind; [now repeat constructor|].
  unfold add_run. rewrite last_snoc. destruct (runs_contiguous previous run); [|apply Forall_app; auto].
  rewrite length_app, Nat.add_sub, take_app_length. apply Forall_app in Hf as [Hf1 Hf2].
  apply Forall_cons in Hf2 as [Hp _]. apply Forall_app. split; [auto|]. repeat constructor. simpl. lia.
Qed.

Lemma slots_ext n b c at_ :
  (forall i, at_ <= i < at_ + 8 * Z.of_nat n -> byte_at b i = byte_at c i) -> slots n b at_ = slots n c at_.
Proof.
  intros Hb. unfold slots. apply map_ext_in. intros i Hi. apply in_seq in Hi.
  apply le_run_ext. intros k Hk. apply Hb. lia.
Qed.

Lemma put_or_join_frame array base j run i :
  0 <= base -> 0 <= j -> 0 <= i -> i < base \/ base + (j + 1) * 8 <= i ->
  byte_at (put_or_join array base j run) i = byte_at array i.
Proof.
  intros Hb Hj Hi Hd. unfold put_or_join.
  destruct (Z.ltb_spec 0 j); cbn [andb]; [destruct (runs_contiguous _ _)|];
    rewrite put_run_blit by lia; apply byte_blit_disj; rewrite ?zlen_run_bytes_of; lia.
Qed.

Lemma zlen_put_or_join array base j run : zlen (put_or_join array base j run) = zlen array.
Proof. unfold put_or_join. destruct (_ && _); apply zlen_put_run. Qed.

Lemma bytes_ok_put_or_join array base j run :
  0 <= base -> 0 <= j -> bytes_ok array -> bytes_ok (put_or_join array base j run).
Proof.
  intros. unfold put_or_join. destruct (Z.ltb_spec 0 j); cbn [andb]; [destruct (runs_contiguous _ _)|];
    apply bytes_ok_put_run; auto; lia.
Qed.

Lemma signed_put stream field x :
  0 <= field -> field + 8 <= zlen stream -> 0 <= x < 2 ^ 63 -> le64_signed (put_le64 stream field (u64 x)) field = x.
Proof.
  intros Hf Hl Hx. change (2 ^ 63) with 9223372036854775808 in *. unfold le64_signed.
  rewrite le64_put, !u64_small by (rewrite ?u64_small; lia). unfold signed.
  change (2 ^ (64 - 1)) with 9223372036854775808. rewrite (proj2 (Z.ltb_lt _ _)); lia.
Qed.

(** The length field wraps where a joined run passes 65535 blocks: 65535 blocks
    and the one after them become a run of none. *)
Lemma merged_run_wraps :
  put_or_join (put_run (zeros data.kBytes) 0 (mkRun 1 0 65535)) 0 1 (mkRun 1 65535 1) =
  put_run (zeros data.kBytes) 0 (mkRun 1 0 0).
Proof. vm_compute. reflexivity. Qed.

Lemma add_range_frame {D} (w : Writer D) s field run i :
  0 <= field -> 0 <= i -> i < field \/ field + 8 <= i -> byte_at (add_range w s field run) i = byte_at s i.
Proof.
  intros Hf Hi Hd. unfold add_range. rewrite put_le64_blit by lia.
  apply byte_blit_disj; [lia|lia|]. rewrite zlen_le_split. lia.
Qed.

Section appending.
Context {D : Type} `{SectorDevice D} (w : Writer D) (stream : bytes) (rs : list Run) (run : Run).
Notation v := (vol (w_fs w)).
Context (Hstream : direct_stream stream rs) (Hroom : (length rs < Z.to_nat data.kDirectCount)%nat).
Context (Hrun : run_ok run) (Hpos : 0 < run_length run) (Hfit : join_fits rs run).

Lemma append_direct_eq :
  append_run w stream run =
  (Some (0, add_range w (put_or_join stream data.kDirect (zlen rs) run) data.kMaxDirectRange run), w).
Proof.
  unfold append_run. rewrite first_zero_slots, (dense_runs _ _ _ _ (ds_dense _ _ Hstream)). simpl fst.
  rewrite Z.add_0_l, (proj2 (Z.ltb_lt _ _)); [reflexivity|]. clear Hfit Hpos Hrun. revert Hroom.
  unfold data.kDirectCount, zlen. lia.
Qed.

Lemma append_direct_stream :
  direct_stream (add_range w (put_or_join stream data.kDirect (zlen rs) run) data.kMaxDirectRange run) (add_run rs run).
Proof.
  destruct Hstream as [Hl Hb Hd Hp]. split.
  - unfold add_range. now rewrite zlen_put64, zlen_put_or_join.
  - unfold add_range. apply bytes_ok_put64; [unfold data.kMaxDirectRange; lia|].
    apply bytes_ok_put_or_join; auto; unfold data.kDirect, zlen; lia.
  - pose proof (put_or_join_spec (Z.to_nat data.kDirectCount) stream data.kDirect rs run ltac:(unfold data.kDirect; lia)
      ltac:(rewrite Hl; vm_compute; discriminate) Hb Hd Hroom Hrun Hpos Hfit) as [E1 E2 E3].
    split; auto. rewrite <- E3. apply slots_ext. intros i Hi.
    apply add_range_frame; unfold data.kDirect, data.kDirectCount, data.kMaxDirectRange in *; lia.
  - now apply add_run_positive.
Qed.
End appending.

(** The number of blocks [stream_blocks] counts is the length of the runs
    a write reaches, through the direct runs, the indirect arrays and the
    double-indirect arrays, and the count changes nothing but the cache
    and the scratch buffer [node_]. *)
Theorem stream_blocks_spec {D} `{SectorDeviceLaws D} (live : Z -> Prop) (w : Writer D) (stream : bytes) :
  fs_ok live (w_fs w) -> reads_ok (w_fs w) -> bytes_ok stream ->
  Forall (fun b => client_block (vol (w_fs w)) b /\ live b) (stream_arrays (view (w_fs w)) (vol (w_fs w)) stream) ->
  exists fs' node,
    stream_blocks w stream =
      (blocks_total (written_runs (view (w_fs w)) (vol (w_fs w)) stream), with_node (with_fs w fs') node) /\
    fs_ok live fs' /\ only_cache (w_fs w) fs'.
Proof.
  intros Hok Hr Hb Ha. destruct (stream_blocks_law live w Hr stream Hok Hb Ha) as (E & fs' & node & E' & F1 & F2).
  exists fs', node. split; [|auto]. destruct (stream_blocks w stream) as [n w']. simpl in *. now subst.
Qed.

(** C37: A run added while a direct slot is free takes all of the run's blocks:
    the stream's blocks become the old ones followed by the run's, whether the
    run gets a slot or joins the last one, the direct range grows by the run's
    bytes, the rest of the stream is untouched, and the direct runs stay dense. *)
Theorem append_direct_spec {D} `{SectorDevice D} (w : Writer D) (stream : bytes) (rs : list Run) (run : Run) :
  geometry_ok (vol (w_fs w)) -> direct_stream stream rs -> (length rs < Z.to_nat data.kDirectCount)%nat ->
  run_ok run -> 0 < run_length run -> start run < 2 ^ ag_shift_ (vol (w_fs w)) -> join_fits rs run ->
  0 <= le64_signed stream data.kMaxDirectRange ->
  le64_signed stream data.kMaxDirectRange + run_length run * block_size (vol (w_fs w)) < 2 ^ 63 ->
  exists stream',
    append_run w stream run = (Some (0, stream'), w) /\ direct_stream stream' (add_run rs run) /\
    data_blocks (vol (w_fs w)) (add_run rs run) = data_blocks (vol (w_fs w)) rs ++ run_blocks (vol (w_fs w)) run /\
    le64_signed stream' data.kMaxDirectRange =
      le64_signed stream data.kMaxDirectRange + run_length run * block_size (vol (w_fs w)) /\
    (forall i, data.kIndirect <= i -> byte_at stream' i = byte_at stream i).
Proof.
  intros Hg Hs Hn Hr Hp Hst Hj H0 H1. eexists. split; [exact (append_direct_eq w stream rs run Hs Hn)|].
  assert (Hz : 0 <= zlen rs /\ zlen rs + 1 <= data.kDirectCount) by (revert Hn; unfold zlen, data.kDirectCount; lia).
  assert (Hfr : forall i, data.kMaxDirectRange <= i ->
    byte_at (put_or_join stream data.kDirect (zlen rs) run) i = byte_at stream i).
  { intros i Hi. apply put_or_join_frame; unfold data.kDirect, data.kMaxDirectRange, data.kDirectCount in *; lia. }
  splits; [exact (append_direct_stream w stream rs run Hs Hn Hr Hp Hj)| | |].
  - apply add_run_blocks; auto; [exact (direct_run_ok _ _ Hs)|exact (ds_positive _ _ Hs)|lia].
  - assert (E : le64_signed (put_or_join stream data.kDirect (zlen rs) run) data.kMaxDirectRange =
        le64_signed stream data.kMaxDirectRange).
    { unfold le64_signed. f_equal. apply le64_ext. intros i Hi. apply Hfr. lia. }
    unfold add_range. rewrite E. apply signed_put; [unfold data.kMaxDirectRange; lia| |].
    + rewrite zlen_put_or_join, (ds_length _ _ Hs). vm_compute. discriminate.
    + pose proof (block_size_bounds _ Hg). unfold w_block_size. nia.
  - intros i Hi. rewrite add_range_frame by (unfold data.kIndirect, data.kMaxDirectRange in *; lia).
    apply Hfr. unfold data.kIndirect, data.kMaxDirectRange in *. lia.
Qed.

(** ** On a concrete volume *)

Module SampleWriter.
Fixpoint put_runs (b : bytes) (at_ : Z) (rs : list Run) : bytes :=
  match rs with [] => b | r :: rs => put_runs (put_run b at_ r) (at_ + 8) rs end.

(** Twelve direct runs, a full indirect array in block 10, and one array in
    block 12 under the double-indirect block 11. *)
Definition fs : Fs Disk.disk :=
  SampleDir.mounted 32 10
    [put_runs (zeros 1024) 0 (replicate 128 (mkRun 0 20 1)); put_run (zeros 1024) 0 (mkRun 0 12 1);
     put_run (zeros 1024) 0 (mkRun 0 21 2)].
Definition stream : bytes :=
  put_run (put_run (put_runs (zeros data.kBytes) data.kDirect (replicate 12 (mkRun 0 14 3))) data.kIndirect (mkRun 0 10 1))
    data.kDoubleIndirect (mkRun 0 11 1).
Definition writer : Writer Disk.disk := mkWriter fs new_allocator [] [] [] [] [] 0 0.

Lemma writer_ok : fs_ok (fun _ => True) fs.
Proof. apply idle_fs_ok; [split; vm_compute; intuition congruence|vm_compute; reflexivity..]. Qed.
Lemma writer_reads : reads_ok fs.
Proof. apply (powered_reads fs 64); [split; vm_compute; congruence|vm_compute; congruence]. Qed.
Lemma writer_arrays : stream_arrays (view fs) (vol fs) stream = [10; 11; 12].
Proof. vm_compute. reflexivity. Qed.

(** One direct run of three blocks. *)
Definition short : bytes := put_le64 (put_run (zeros data.kBytes) data.kDirect (mkRun 0 14 3)) data.kMaxDirectRange 3072.
Lemma short_ok : direct_stream short [mkRun 0 14 3].
Proof.
  split; [vm_compute; reflexivity|apply bytes_okb_true; vm_compute; reflexivity| |repeat constructor].
  split; [repeat constructor|vm_compute; lia|vm_compute; reflexivity].
Qed.
End SampleWriter.

Lemma stream_blocks_spec_witness : (stream_blocks SampleWriter.writer SampleWriter.stream).1 = 166.
Proof.
  destruct (stream_blocks_spec (fun _ => True) SampleWriter.writer SampleWriter.stream SampleWriter.writer_ok
    SampleWriter.writer_reads) as (fs' & node & E & _).
  - apply bytes_okb_true. vm_compute. reflexivity.
  - change (w_fs SampleWriter.writer) with SampleWriter.fs. rewrite SampleWriter.writer_arrays.
    repeat constructor; vm_compute; congruence.
  - rewrite E. vm_compute. reflexivity.
Defined.

Lemma append_direct_spec_witness :
  exists stream', append_run SampleWriter.writer SampleWriter.short (mkRun 0 17 2) = (Some (0, stream'), SampleWriter.writer) /\
    direct_stream stream' [mkRun 0 14 5].
Proof.
  destruct (append_direct_spec SampleWriter.writer SampleWriter.short [mkRun 0 14 3] (mkRun 0 17 2)) as (s & E & Hs & _).
  - exact (fok_geo _ _ SampleWriter.writer_ok).
  - exact SampleWriter.short_ok.
  - vm_compute. lia.
  - unfold run_ok. simpl. lia.
  - simpl. lia.
  - vm_compute. reflexivity.
  - intros p [= <-] _. vm_compute. reflexivity.
  - vm_compute. discriminate.
  - vm_compute. reflexivity.
  - exists s. split; [exact E|exact Hs].
Defined.
