(* ===== verification/WriterTrim.v ===== *)
(** The writer's streams freed and cut (libs/freestanding/aegir-bfs,
    src/writer.cc): [free_stream], [free_double], [destroy] and [trim_stream].
    The theorem says that a cut keeps exactly the stream's first blocks and
    gives exactly the others back to the allocator. *)
From stdpp Require Import base numbers list list_numbers.
From Stdlib Require Import ZArith Lia.
From S2P Require Import Prelude.
From S2P Require Import Layout.
From S2P Require Import Device.
From S2P Require Import Volume.
From S2P Require Import BlockStore.
From S2P Require Import Samples.
From S2P Require Import Opening.
From S2P Require Import Journal.
From S2P Require Import Transaction.
From S2P Require Import Allocator.
From S2P Require Import Attribute.
From S2P Require Import Stream.
From S2P Require Import Directory.
From S2P Require Import WriterStream.

Section freeing.
Context {D : Type} `{SectorDevice D}.
Implicit Types w : Writer D.

(** * Freeing and cutting streams *)

(** The runs of an array freed, up to its zero run. *)
Fixpoint free_runs (n : nat) w (array : bytes) (at_ : Z) : option Datatypes.unit * Writer D :=
  match n with
  | O => (Some tt, w)
  | S n =>
    let run := le_run array at_ in
    if run_is_zero run then (Some tt, w)
    else try _, w := w_free w run in free_runs n w array (at_ + 8)
  end.

Fixpoint free_arrays (n : nat) w (block : Z) : option Datatypes.unit * Writer D :=
  match n with
  | O => (Some tt, w)
  | S n =>
    try array, w := w_read_block w block in
    try _, w := free_runs (Z.to_nat (w_block_size w / 8)) w array 0 in
    free_arrays n w (block + 1)
  end.

(** The array runs of a double-indirect block; [strict] is [free_double], where
    an array that cannot be freed ends the walk. *)
Fixpoint free_array_runs (n : nat) w (strict : bool) (node : bytes) (at_ : Z) : option Datatypes.unit * Writer D :=
  match n with
  | O => (Some tt, w)
  | S n =>
    let array := le_run node at_ in
    if run_is_zero array then (Some tt, w)
    else
      try _, w := free_arrays (Z.to_nat (run_length array)) w (w_to_block w array) in
      match w_free w array with
      | (None, w) => if strict then (None, w) else free_array_runs n w strict node (at_ + 8)
      | (Some _, w) => free_array_runs n w strict node (at_ + 8)
      end
  end.

Fixpoint free_double_blocks (n : nat) w (strict : bool) (block : Z) : option Datatypes.unit * Writer D :=
  match n with
  | O => (Some tt, w)
  | S n =>
    try node, w := w_read_block w block in
    try _, w := free_array_runs (Z.to_nat (w_block_size w / 8)) w strict node 0 in
    free_double_blocks n w strict (block + 1)
  end.

Definition free_stream w (stream : bytes) : option Datatypes.unit * Writer D :=
  try _, w := free_runs (Z.to_nat data.kDirectCount) w stream data.kDirect in
  let indirect := le_run stream data.kIndirect in
  try _, w :=
    (if run_is_zero indirect then (Some tt, w)
     else
       try _, w := free_arrays (Z.to_nat (run_length indirect)) w (w_to_block w indirect) in
       (Some tt, (w_free w indirect).2)) in
  let double_indirect := le_run stream data.kDoubleIndirect in
  if run_is_zero double_indirect then (Some tt, w)
  else
    try _, w := free_double_blocks (Z.to_nat (run_length double_indirect)) w false (w_to_block w double_indirect) in
    (Some tt, (w_free w double_indirect).2).

Definition free_double w (stream : bytes) : option bytes * Writer D :=
  let double_indirect := le_run stream data.kDoubleIndirect in
  if run_is_zero double_indirect then (Some stream, w)
  else
    try _, w := free_double_blocks (Z.to_nat (run_length double_indirect)) w true (w_to_block w double_indirect) in
    try _, w := w_free w double_indirect in
    (Some (put_run stream data.kDoubleIndirect (mkRun 0 0 0)), w).

(** The block, when it is an inode in use. *)
Definition read_inode_block w (block : Z) : option bytes * Writer D :=
  try out, w := w_read_block w block in
  (if (le32 out inode.kMagic1 =? kInodeMagic1) && negb (Z.land (le32 out inode.kFlags) kInodeInUse =? 0)
   then Some out else None, w).

Definition with_inode w (inode stream : bytes) : Writer D :=
  mkWriter (w_fs w) (w_al w) inode stream (hdr_ w) (parent_ w) (node_ w) (tree_type_ w) (edit_parent_ w).

Definition destroy w (block : Z) : option Datatypes.unit * Writer D :=
  try out, w := read_inode_block w block in
  let w := with_inode w out (inode_get_stream out) in
  try _, w := free_stream w (stream_ w) in
  w_free w (le_run (inode_ w) inode.kInodeNum).

(** The runs of an array cut to [new_blocks], [logical] blocks coming before
    them: the array, the blocks kept so far, and whether the array changed. *)
Fixpoint trim_runs (n : nat) w (array : bytes) (at_ logical new_blocks : Z) (changed : bool)
    : option (bytes * Z * bool) * Writer D :=
  match n with
  | O => (Some (array, logical, changed), w)
  | S n =>
    let run := le_run array at_ in
    if run_is_zero run then (Some (array, logical, changed), w)
    else if new_blocks <=? logical then
      try _, w := w_free w run in
      trim_runs n w (put_run array at_ (mkRun 0 0 0)) (at_ + 8) logical new_blocks true
    else if logical + run_length run <=? new_blocks then
      trim_runs n w array (at_ + 8) (logical + run_length run) new_blocks changed
    else
      let keep := u32 (new_blocks - logical) in
      let tail := mkRun (allocation_group run) (u16 (start run + keep)) (u16 (run_length run - keep)) in
      try _, w := w_free w tail in
      trim_runs n w (put_run array at_ (mkRun (allocation_group run) (start run) (u16 keep))) (at_ + 8)
        (logical + keep) new_blocks true
  end.

Fixpoint trim_arrays (n : nat) w (at_ logical new_blocks : Z) : option Z * Writer D :=
  match n with
  | O => (Some logical, w)
  | S n =>
    try node, w := w_read_block w at_ in
    try (node, logical, changed), w := trim_runs (Z.to_nat (w_block_size w / 8)) w node 0 logical new_blocks false in
    try _, w := (if (changed : bool) then w_write_block w at_ node else (Some tt, w)) in
    trim_arrays n w (at_ + 1) logical new_blocks
  end.

Definition trim_stream w (stream : bytes) (new_blocks : Z) : option bytes * Writer D :=
  try (stream, logical, _), w := trim_runs (Z.to_nat data.kDirectCount) w stream data.kDirect 0 new_blocks false in
  let indirect := le_run stream data.kIndirect in
  try (stream, logical), w :=
    (if run_is_zero indirect then (Some (stream, logical), w)
     else
       try logical, w := trim_arrays (Z.to_nat (run_length indirect)) w (w_to_block w indirect) logical new_blocks in
       if logical <=? u64 (le64_signed stream data.kMaxDirectRange) / w_block_size w then
         try _, w := w_free w indirect in
         (Some (put_le64 (put_run stream data.kIndirect (mkRun 0 0 0)) data.kMaxIndirectRange 0, logical), w)
       else (Some (stream, logical), w)) in
  try stream, w :=
    (if run_is_zero (le_run stream data.kDoubleIndirect) then (Some stream, w)
     else if logical <? new_blocks then (None, w)
     else
       try stream, w := free_double w stream in
       (Some (put_le64 stream data.kMaxDoubleIndirectRange 0), w)) in
  let direct_bytes := (cover_runs (Z.to_nat data.kDirectCount) stream data.kDirect 0).2 * w_block_size w in
  let stream := put_le64 stream data.kMaxDirectRange (u64 direct_bytes) in
  (Some (if run_is_zero (le_run stream data.kIndirect) then put_le64 stream data.kMaxIndirectRange 0 else stream), w).
End freeing.

(** * What a cut keeps *)

(** The runs of the first [n] blocks, and of the others. *)
Fixpoint kept_runs (rs : list Run) (n : Z) : list Run :=
  match rs with
  | [] => []
  | r :: rs =>
    if n <=? 0 then []
    else if run_length r <=? n then r :: kept_runs rs (n - run_length r)
    else [mkRun (allocation_group r) (start r) n]
  end.
Fixpoint cut_runs (rs : list Run) (n : Z) : list Run :=
  match rs with
  | [] => []
  | r :: rs =>
    if n <=? 0 then r :: rs
    else if run_length r <=? n then cut_runs rs (n - run_length r)
    else mkRun (allocation_group r) (start r + n) (run_length r - n) :: rs
  end.

Lemma kept_none rs n : n <= 0 -> kept_runs rs n = [].
Proof. intros Hn. destruct rs; cbn [kept_runs]; [reflexivity|]. now rewrite (proj2 (Z.leb_le _ _)). Qed.

Lemma cut_none rs n : n <= 0 -> cut_runs rs n = rs.
Proof. intros Hn. destruct rs; cbn [cut_runs]; [reflexivity|]. now rewrite (proj2 (Z.leb_le _ _)). Qed.

(** A part of a data run is a data run, and its blocks follow. *)
Lemma data_run_tail v r k :
  geometry_ok v -> data_run v r -> 0 < k < run_length r ->
  let tail := mkRun (allocation_group r) (start r + k) (run_length r - k) in
  data_run v tail /\ to_block v tail = to_block v r + k.
Proof.
  intros Hg (R1 & R2 & R3) Hk tail. destruct (validate_run_true v Hg r R1 R2) as (V1 & V2 & V3 & V4 & V5).
  destruct R1 as (P1 & P2 & P3). pose proof (span_pos v Hg).
  assert (E : to_block v tail = to_block v r + k) by (unfold tail; rewrite (to_block_sum v Hg) by lia; lia).
  split; [|exact E]. split; [unfold tail, run_ok; simpl; lia|]. split; [|lia].
  revert R2. unfold validate_run. rewrite E. unfold tail; simpl. rewrite Z.shiftl_1_l.
  destruct (_ || _) eqn:E1; [discriminate|]. breflect. intros _.
  rewrite (proj2 (Z.eqb_neq (run_length r - k) 0)), (proj2 (Z.leb_gt (num_ags_ v) (allocation_group r))) by lia. cbn [orb].
  rewrite (proj2 (Z.ltb_ge _ _)) by lia. apply Z.leb_le. lia.
Qed.

Lemma data_blocks_cons v r rs : data_blocks v (r :: rs) = run_blocks v r ++ data_blocks v rs.
Proof. reflexivity. Qed.

Lemma kept_cut_blocks v rs n :
  geometry_ok v -> Forall (data_run v) rs -> data_blocks v (kept_runs rs n) ++ data_blocks v (cut_runs rs n) = data_blocks v rs.
Proof.
  intros Hg Hf. revert n. induction Hf as [|r rs Hr Hf IH]; intros n; cbn [kept_runs cut_runs]; [reflexivity|].
  destruct (Z.leb_spec n 0); [reflexivity|]. destruct (Z.leb_spec (run_length r) n).
  - rewrite !data_blocks_cons, <- app_assoc, IH. reflexivity.
  - destruct (data_run_tail v r n Hg Hr ltac:(lia)) as [_ E]. rewrite !data_blocks_cons. unfold data_blocks at 1. simpl.
    rewrite app_nil_r, app_assoc. f_equal. unfold run_blocks. rewrite E. cbn [run_length].
    replace (to_block v (mkRun (allocation_group r) (start r) n)) with (to_block v r) by reflexivity.
    rewrite <- seqZ_app by lia. f_equal. lia.
Qed.

Lemma kept_length v rs n :
  geometry_ok v -> Forall (data_run v) rs -> 0 <= n -> zlen (data_blocks v (kept_runs rs n)) = Z.min n (blocks_total rs).
Proof.
  intros Hg Hf. revert n. induction Hf as [|r rs (R1 & R2 & R3) Hf IH]; intros n Hn; cbn [kept_runs]; [simpl; unfold zlen; simpl; lia|].
  destruct (validate_run_true v Hg r R1 R2) as (V1 & _).
  assert (Ht : 0 <= blocks_total rs).
  { clear -Hf. induction Hf as [|r rs ((_ & _ & Hr) & _) Hf IH]; simpl; lia. }
  assert (Hz : forall g k, 0 <= k -> zlen (run_blocks v (mkRun g (start r) k)) = k).
  { intros g k Hk. unfold zlen, run_blocks. simpl. rewrite length_seqZ. lia. }
  destruct (Z.leb_spec n 0); [unfold zlen; simpl; lia|]. cbn [blocks_total foldr]. fold (blocks_total rs).
  destruct (Z.leb_spec (run_length r) n).
  - rewrite data_blocks_cons. unfold zlen in *. rewrite length_app, Nat2Z.inj_add, IH by lia.
    specialize (Hz (allocation_group r) (run_length r) ltac:(lia)). destruct r; simpl in *. lia.
  - unfold data_blocks. simpl. rewrite app_nil_r, Hz by lia. lia.
Qed.

Section trimming.
Context {D : Type} `{SectorDeviceLaws D}.
Implicit Types w : Writer D.

(** The writer's allocator can be trusted with the volume's bitmaps. *)
Record bitmaps_ok w : Prop := {
  bo_live : exists live, fs_ok live (w_fs w) /\ bitmap_live live (vol (w_fs w));
  bo_ready : alloc_ready (w_al w) (vol (w_fs w));
  bo_queue : queue_ok (w_al w) (vol (w_fs w));
}.

(** [w'] is [w] with the blocks [bs] given back. *)
Record freed w (bs : list Z) w' : Prop := {
  fr_ok : bitmaps_ok w';
  fr_geo : same_geometry (vol (w_fs w)) (vol (w_fs w'));
  fr_used : forall b, 0 <= b < num_blocks_ (vol (w_fs w)) ->
    used_block (w_fs w') b = true <-> used_block (w_fs w) b = true /\ b ∉ bs;
}.

Lemma freed_nil w : bitmaps_ok w -> freed w [] w.
Proof.
  intros Hok. split; [exact Hok|reflexivity|]. intros b Hb. split; [|tauto]. intros Hu. split; [exact Hu|]. apply not_elem_of_nil.
Qed.

Lemma freed_app w bs1 w1 bs2 w2 : freed w bs1 w1 -> freed w1 bs2 w2 -> freed w (bs1 ++ bs2) w2.
Proof.
  intros [A1 A2 A3] [B1 B2 B3]. split; [exact B1|etransitivity; eauto|]. intros b Hb.
  rewrite B3 by (now rewrite <- A2). rewrite A3 by exact Hb. rewrite elem_of_app. tauto.
Qed.

Lemma w_free_law w r w' :
  bitmaps_ok w -> data_run (vol (w_fs w)) r -> w_free w r = (Some tt, w') -> freed w (run_blocks (vol (w_fs w)) r) w'.
Proof.
  intros [(live & L1 & L2) Ha Hq] Hr. unfold w_free. destruct (free (w_al w) (w_fs w) r) as [[ok a] fs] eqn:E.
  destruct ok; [|discriminate]. intros [= <-].
  pose proof (L1 : bs_ok (BlockStoreLaws := fs_block_store_laws) live (w_fs w)) as L1'.
  destruct (free_law live _ _ (w_fs w) fs r L1' L2 Ha Hq Hr E) as (F1 & F2 & F3 & F4 & _ & F6).
  split; [now split|exact F1|]. intros b Hb. rewrite (F6 b Hb). unfold run_blocks. rewrite elem_of_seqZ. reflexivity.
Qed.

(** An array cut to [n] blocks: its runs, the bytes around them, the blocks
    left in use. *)
Record trimmed (m : nat) w (array : bytes) (at_ : Z) (rs : list Run) (n : Z) (array' : bytes) w' : Prop := {
  tm_slots : slots m array' at_ = kept_runs rs n ++ replicate (m - length (kept_runs rs n)) zero_run;
  tm_frame : forall i, 0 <= i -> i < at_ \/ at_ + 8 * Z.of_nat m <= i -> byte_at array' i = byte_at array i;
  tm_length : zlen array' = zlen array;
  tm_bytes : bytes_ok array';
  tm_freed : freed w (data_blocks (vol (w_fs w)) (cut_runs rs n)) w';
}.

Lemma slots_after_put m array at_ r :
  0 <= at_ -> slots m (put_run array at_ r) (at_ + 8) = slots m array (at_ + 8).
Proof.
  intros Ha. apply slots_ext. intros i Hi. rewrite put_run_blit by lia.
  apply byte_blit_disj; rewrite ?zlen_run_bytes_of; lia.
Qed.

(** [array1] is [array] with [r] in the slot at [at_]. *)
Record slot_put (array : bytes) (at_ : Z) (r : Run) (array1 : bytes) : Prop := {
  sp_run : le_run array1 at_ = r;
  sp_frame : forall i, 0 <= i -> i < at_ \/ at_ + 8 <= i -> byte_at array1 i = byte_at array i;
  sp_length : zlen array1 = zlen array;
  sp_bytes : bytes_ok array1;
}.

Lemma slot_put_run array at_ r :
  0 <= at_ -> at_ + 8 <= zlen array -> bytes_ok array -> run_ok r -> slot_put array at_ r (put_run array at_ r).
Proof.
  intros Ha Hl Hb Hr. split; [now apply le_run_put_same| |apply zlen_put_run|now apply bytes_ok_put_run].
  intros i Hi Hd. rewrite put_run_blit by lia. apply byte_blit_disj; rewrite ?zlen_run_bytes_of; lia.
Qed.

Lemma dense_tail m array at_ r rs array1 r1 :
  0 <= at_ -> dense (S m) array at_ (r :: rs) -> slot_put array at_ r1 array1 ->
  le_run array at_ = r /\ run_is_zero r = false /\ dense m array1 (at_ + 8) rs.
Proof.
  intros Ha [Hf Hl Hs] Hp. rewrite slots_cons in Hs. simpl in Hs, Hl. injection Hs as E Hs.
  apply Forall_cons in Hf as [Hz Hf]. splits; auto. split; [auto|lia|]. rewrite <- Hs. apply slots_ext.
  intros i Hi. apply (sp_frame _ _ _ _ Hp); lia.
Qed.

(** One slot rewritten as [r], the rest of the array cut. *)
Lemma trimmed_cons m w w1 array at_ r0 r rs n k array1 array' w' bs :
  0 <= at_ -> slot_put array at_ r array1 ->
  freed w bs w1 -> trimmed m w1 array1 (at_ + 8) rs k array' w' ->
  kept_runs (r0 :: rs) n ++ replicate (S m - length (kept_runs (r0 :: rs) n)) zero_run =
    r :: kept_runs rs k ++ replicate (m - length (kept_runs rs k)) zero_run ->
  data_blocks (vol (w_fs w)) (cut_runs (r0 :: rs) n) = bs ++ data_blocks (vol (w_fs w)) (cut_runs rs k) ->
  trimmed (S m) w array at_ (r0 :: rs) n array' w'.
Proof.
  intros Ha [P1 P2 P3 P4] Hf [T1 T2 T3 T4 T5] Hk Hc. split; auto.
  - rewrite slots_cons, T1, Hk. f_equal. rewrite <- P1. apply le_run_ext. intros i Hi. apply T2; lia.
  - intros i Hi Hd. rewrite T2 by lia. apply P2; lia.
  - now rewrite T3.
  - rewrite Hc. apply (freed_app _ _ _ _ _ Hf). replace (data_blocks (vol (w_fs w)) (cut_runs rs k))
      with (data_blocks (vol (w_fs w1)) (cut_runs rs k)); [exact T5|].
    unfold data_blocks. apply flat_map_ext. intros x. unfold run_blocks. now rewrite <- (fr_geo _ _ _ Hf).
Qed.

(** The three ways a run is cut: freed whole, kept whole, and cut at [n]. *)
Lemma trimmed_cut m w w1 array at_ r rs n array1 array' w' :
  0 <= at_ -> n <= 0 -> slot_put array at_ zero_run array1 -> freed w (run_blocks (vol (w_fs w)) r) w1 ->
  trimmed m w1 array1 (at_ + 8) rs n array' w' -> trimmed (S m) w array at_ (r :: rs) n array' w'.
Proof.
  intros Ha Hn Hp Hf Ht. eapply (trimmed_cons m w w1 array at_ r zero_run rs n n); eauto.
  - rewrite !kept_none by lia. simpl. now rewrite Nat.sub_0_r.
  - rewrite !cut_none by lia. reflexivity.
Qed.

Lemma trimmed_whole m w array at_ r rs n array' w' :
  0 <= at_ -> 0 < n -> run_length r <= n -> bitmaps_ok w -> bytes_ok array -> le_run array at_ = r ->
  trimmed m w array (at_ + 8) rs (n - run_length r) array' w' -> trimmed (S m) w array at_ (r :: rs) n array' w'.
Proof.
  intros Ha Hn Hl Hw Hb Hr Ht. eapply (trimmed_cons m w w array at_ r r rs n (n - run_length r)); eauto using freed_nil.
  - now split.
  - cbn [kept_runs]. now rewrite (proj2 (Z.leb_gt n 0)), (proj2 (Z.leb_le (run_length r) _)) by lia.
  - cbn [cut_runs]. now rewrite (proj2 (Z.leb_gt n 0)), (proj2 (Z.leb_le (run_length r) _)) by lia.
Qed.

Lemma trimmed_part m w w1 array at_ r rs n array1 array' w' :
  0 <= at_ -> 0 < n < run_length r -> slot_put array at_ (mkRun (allocation_group r) (start r) n) array1 ->
  freed w (run_blocks (vol (w_fs w)) (mkRun (allocation_group r) (start r + n) (run_length r - n))) w1 ->
  trimmed m w1 array1 (at_ + 8) rs 0 array' w' -> trimmed (S m) w array at_ (r :: rs) n array' w'.
Proof.
  intros Ha Hn Hp Hf Ht. eapply (trimmed_cons m w w1 array at_ r _ rs n 0); eauto.
  - rewrite (kept_none rs) by lia. cbn [kept_runs].
    rewrite (proj2 (Z.leb_gt n 0)), (proj2 (Z.leb_gt (run_length r) _)) by lia. reflexivity.
  - rewrite (cut_none rs) by lia. cbn [cut_runs].
    rewrite (proj2 (Z.leb_gt n 0)), (proj2 (Z.leb_gt (run_length r) _)) by lia. reflexivity.
Qed.

Lemma trimmed_nil m w array at_ n :
  bytes_ok array -> bitmaps_ok w -> dense m array at_ [] -> trimmed m w array at_ [] n array w.
Proof. intros Hb Hw [_ _ Hs]. split; auto. now apply freed_nil. Qed.

Lemma data_runs_geometry w bs w1 rs :
  freed w bs w1 -> Forall (data_run (vol (w_fs w))) rs -> Forall (data_run (vol (w_fs w1))) rs.
Proof. intros Hf Hr. apply (Forall_impl _ _ _ Hr). intros r Hd. now rewrite <- (fr_geo _ _ _ Hf). Qed.

Lemma zero_run_ok : run_ok zero_run.
Proof. unfold run_ok, zero_run. simpl. lia. Qed.

Lemma trim_runs_spec m : forall w array at_ rs logical new_blocks changed array' logical' changed' w',
  0 <= at_ -> at_ + 8 * Z.of_nat m <= zlen array -> bytes_ok array -> bitmaps_ok w -> dense m array at_ rs ->
  Forall (data_run (vol (w_fs w))) rs -> logical <= new_blocks ->
  trim_runs m w array at_ logical new_blocks changed = (Some (array', logical', changed'), w') ->
  trimmed m w array at_ rs (new_blocks - logical) array' w' /\ logical' = logical + Z.min (new_blocks - logical) (blocks_total rs).
Proof.
  induction m as [|m IH]; intros w array at_ rs logical new_blocks changed array' logical' changed' w' Ha Hl Hb Hw Hd Hf Hn;
    cbn [trim_runs].
  { assert (rs = []) as -> by (destruct rs; [reflexivity|]; destruct Hd as [_ Hd _]; simpl in Hd; lia).
    intros [= <- <- <- <-]. split; [now apply trimmed_nil|simpl; lia]. }
  destruct rs as [|r rs].
  { pose proof (dn_slots _ _ _ _ Hd) as Hs. rewrite slots_cons in Hs.
    assert (Hz : le_run array at_ = zero_run) by exact (f_equal (List.hd zero_run) Hs). rewrite Hz.
    cbn [run_is_zero zero_run allocation_group start run_length Z.eqb andb].
    intros [= <- <- <- <-]. split; [now apply trimmed_nil|simpl; lia]. }
  assert (Hsame : slot_put array at_ (le_run array at_) array) by (split; auto).
  destruct (dense_tail m array at_ r rs array _ Ha Hd Hsame) as (Er & Ez & Hd0). rewrite Er, Ez.
  apply Forall_cons in Hf as [Hr Hf]. pose proof Hr as (R1 & R2 & R3).
  destruct (bo_live _ Hw) as (live & L1 & _). pose proof (fok_geo _ _ L1) as Hg.
  destruct (validate_run_true _ Hg r R1 R2) as (V1 & V2 & V3 & V4 & V5). destruct R1 as (P1 & P2 & P3).
  assert (Ht : 0 <= blocks_total rs).
  { clear -Hf. induction Hf as [|x l ((_ & _ & Hx) & _) Hf IH]; simpl; lia. }
  cbn [blocks_total foldr]. fold (blocks_total rs).
  destruct (Z.leb_spec new_blocks logical) as [Hcut|Hmore].
  { destruct (w_free w r) as [[[]|] w1] eqn:E1; [|discriminate]. intros E.
    pose proof (w_free_law w r w1 Hw Hr E1) as Hfr.
    pose proof (slot_put_run array at_ zero_run Ha ltac:(lia) Hb zero_run_ok) as Hp.
    destruct (dense_tail m array at_ r rs _ _ Ha Hd Hp) as (_ & _ & Hd1).
    apply (IH w1 _ _ rs) in E as [T ->]; eauto using fr_ok, sp_bytes, data_runs_geometry; [|lia|rewrite zlen_put_run; lia].
    split; [|lia]. eapply (trimmed_cut m w w1); eauto. lia. }
  destruct (Z.leb_spec (logical + run_length r) new_blocks) as [Hwhole|Hpart]; intros E.
  { apply (IH w _ _ rs) in E as [T ->]; auto; [|lia|lia]. split; [|lia]. apply trimmed_whole; auto; [lia|lia|].
    now replace (new_blocks - logical - run_length r) with (new_blocks - (logical + run_length r)) by lia. }
  revert E. rewrite (u32_small (new_blocks - logical)) by lia. rewrite !u16_small by (pose proof (span_pos _ Hg); lia).
  destruct (data_run_tail _ r (new_blocks - logical) Hg Hr ltac:(lia)) as [Htail _]. cbv zeta in Htail.
  destruct (w_free w _) as [[[]|] w1] eqn:E1; [|discriminate]. intros E.
  pose proof (w_free_law w _ w1 Hw Htail E1) as Hfr.
  assert (Hr1 : run_ok (mkRun (allocation_group r) (start r) (new_blocks - logical))) by (unfold run_ok; simpl; lia).
  pose proof (slot_put_run array at_ _ Ha ltac:(lia) Hb Hr1) as Hp.
  destruct (dense_tail m array at_ r rs _ _ Ha Hd Hp) as (_ & _ & Hd1).
  apply (IH w1 _ _ rs) in E as [T ->]; eauto using fr_ok, sp_bytes, data_runs_geometry; [|lia|rewrite zlen_put_run; lia|lia].
  split; [|lia]. eapply (trimmed_part m w w1); eauto; [lia|].
  now replace (new_blocks - (logical + (new_blocks - logical))) with 0 in T by lia.
Qed.

Lemma kept_positive v rs n :
  geometry_ok v -> Forall (data_run v) rs ->
  Forall (fun r => 0 < run_length r) (kept_runs rs n) /\ (length (kept_runs rs n) <= length rs)%nat /\
  0 <= blocks_total (kept_runs rs n) <= 65535 * Z.of_nat (length rs).
Proof.
  intros Hg Hf. revert n. induction Hf as [|r rs (R1 & R2 & R3) Hf IH]; intros n; cbn [kept_runs];
    [simpl; repeat split; [constructor|lia..]|].
  destruct (validate_run_true v Hg r R1 R2) as (V1 & _). destruct R1 as (_ & _ & P3).
  destruct (Z.leb_spec n 0); [simpl; repeat split; [constructor|lia..]|].
  destruct (Z.leb_spec (run_length r) n).
  - destruct (IH (n - run_length r)) as (I1 & I2 & I3). cbn [blocks_total foldr length].
    fold (blocks_total (kept_runs rs (n - run_length r))). repeat split; [constructor; auto|lia..].
  - simpl. repeat split; [repeat constructor; simpl; lia|lia..].
Qed.

Lemma split_at {A} (l k c : list A) (n : Z) :
  k ++ c = l -> zlen k = Z.min n (zlen l) -> 0 <= n -> take (Z.to_nat n) l = k /\ drop (Z.to_nat n) l = c.
Proof.
  intros <- Hk Hn. unfold zlen in Hk. rewrite length_app in Hk. destruct (Z.le_gt_cases n (Z.of_nat (length k))).
  - replace (Z.to_nat n) with (length k) by lia. now rewrite take_app_length, drop_app_length.
  - assert (c = []) as -> by (destruct c; [reflexivity|simpl in *; lia]).
    rewrite app_nil_r in *. rewrite take_ge, drop_ge by lia. auto.
Qed.

Lemma data_blocks_length v rs : Forall run_ok rs -> zlen (data_blocks v rs) = blocks_total rs.
Proof.
  induction 1 as [|r rs (_ & _ & Hr) Hf IH]; [reflexivity|]. rewrite data_blocks_cons. unfold zlen in *.
  rewrite length_app, Nat2Z.inj_add, IH. unfold run_blocks. rewrite length_seqZ. simpl. lia.
Qed.

(** The three ranges rewritten after a cut are past the direct runs. *)
Lemma trimmed_direct w stream rs n stream1 w' x :
  direct_stream stream rs -> geometry_ok (vol (w_fs w)) -> Forall (data_run (vol (w_fs w))) rs ->
  trimmed (Z.to_nat data.kDirectCount) w stream data.kDirect rs n stream1 w' ->
  direct_stream (put_le64 (put_le64 stream1 data.kMaxDirectRange x) data.kMaxIndirectRange 0) (kept_runs rs n).
Proof.
  intros [D1 D2 [D3 D4 D5] D6] Hg Hf [T1 T2 T3 T4 _]. destruct (kept_positive _ rs n Hg Hf) as (K1 & K2 & _). split.
  - now rewrite !zlen_put64, T3.
  - do 2 (apply bytes_ok_put64; [unfold data.kMaxIndirectRange, data.kMaxDirectRange; lia|]). exact T4.
  - split; [|lia|].
    + apply (Forall_impl _ _ _ K1). intros r. apply run_nonzero.
    + rewrite <- T1. apply slots_ext. unfold data.kDirect, data.kDirectCount. intros i Hi.
      rewrite !put_le64_blit by (unfold data.kMaxIndirectRange, data.kMaxDirectRange; lia).
      rewrite !byte_blit_disj by (rewrite ?zlen_le_split; unfold data.kMaxIndirectRange, data.kMaxDirectRange in *; lia).
      reflexivity.
  - exact K1.
Qed.

Lemma range_put stream x :
  data.kBytes <= zlen stream -> 0 <= x < 2 ^ 63 ->
  le64_signed (put_le64 (put_le64 stream data.kMaxDirectRange (u64 x)) data.kMaxIndirectRange 0) data.kMaxDirectRange = x.
Proof.
  intros Hl Hx. rewrite <- (signed_put stream data.kMaxDirectRange x) at 2;
    unfold data.kBytes, data.kMaxDirectRange, data.kMaxIndirectRange in *; [|lia..].
  unfold le64_signed. f_equal. rewrite (put_le64_blit _ 112) by lia. apply le64_blit_disj; rewrite ?zlen_le_split; lia.
Qed.
End trimming.

(** C8: [trim_stream] on a stream that reaches no further than its direct runs
    keeps exactly the first [new_blocks] blocks of the stream, in runs that
    start where the old ones did, and gives exactly the others back: a block is
    in use afterwards iff it was and is not one of those.  The direct range is
    the kept blocks', and the bitmaps stay trustworthy. *)
Theorem trim_direct_spec {D} `{SectorDeviceLaws D} (w w' : Writer D) (stream stream' : bytes) (rs : list Run) (new_blocks : Z) :
  bitmaps_ok w -> direct_stream stream rs -> Forall (data_run (vol (w_fs w))) rs -> 0 <= new_blocks ->
  le_run stream data.kIndirect = zero_run -> le_run stream data.kDoubleIndirect = zero_run ->
  trim_stream w stream new_blocks = (Some stream', w') ->
  direct_stream stream' (kept_runs rs new_blocks) /\
  data_blocks (vol (w_fs w)) (kept_runs rs new_blocks) = take (Z.to_nat new_blocks) (data_blocks (vol (w_fs w)) rs) /\
  freed w (drop (Z.to_nat new_blocks) (data_blocks (vol (w_fs w)) rs)) w' /\
  le64_signed stream' data.kMaxDirectRange = blocks_total (kept_runs rs new_blocks) * block_size (vol (w_fs w)).
Proof.
  intros Hw Hs Hf Hn Hi Hd. destruct (bo_live _ Hw) as (live & L1 & _). pose proof (fok_geo _ _ L1) as Hg.
  unfold trim_stream. destruct (trim_runs _ w stream _ 0 new_blocks false) as [[[[stream1 logical] changed]|] w1] eqn:E;
    [|discriminate].
  pose proof (ds_length _ _ Hs) as Hl. pose proof (dn_length _ _ _ _ (ds_dense _ _ Hs)) as Hln.
  apply (trim_runs_spec _ w stream data.kDirect rs) in E as [T _];
    [|unfold data.kDirect; lia|rewrite Hl; vm_compute; discriminate|apply Hs|exact Hw|apply Hs|exact Hf|lia].
  rewrite Z.sub_0_r in T.
  assert (Hrun : forall at_, data.kMaxDirectRange <= at_ -> le_run stream1 at_ = le_run stream at_).
  { intros at_ Ha. apply le_run_ext. intros i Hk. apply (tm_frame _ _ _ _ _ _ _ _ T);
      unfold data.kDirect, data.kDirectCount, data.kMaxDirectRange in *; lia. }
  rewrite Hrun, Hi by (vm_compute; discriminate). change (run_is_zero zero_run) with true. cbv iota.
  rewrite Hrun, Hd by (vm_compute; discriminate). change (run_is_zero zero_run) with true. cbv iota.
  match goal with |- context [put_le64 stream1 data.kMaxDirectRange (u64 ?y)] => set (x := y) end.
  replace (le_run _ data.kIndirect) with zero_run.
  2:{ rewrite put_le64_blit, le_run_blit_disj by (rewrite ?zlen_le_split; unfold data.kIndirect, data.kMaxDirectRange; lia).
      rewrite Hrun by (vm_compute; discriminate). now rewrite Hi. }
  change (run_is_zero zero_run) with true. cbv iota. intros [= <- <-].
  pose proof (trimmed_direct w stream rs new_blocks stream1 w1 (u64 x) Hs Hg Hf T) as Hk.
  destruct (split_at _ _ _ new_blocks (kept_cut_blocks _ rs new_blocks Hg Hf)) as [-> ->]; [|exact Hn|].
  { rewrite (kept_length _ _ _ Hg Hf Hn), data_blocks_length; [reflexivity|].
    apply (Forall_impl _ _ _ Hf). intros r Hr. apply Hr. }
  pose proof (tm_freed _ _ _ _ _ _ _ _ T) as Hfr. splits; auto.
  unfold x. rewrite cover_runs_spec. cbn [snd]. destruct (kept_positive _ rs new_blocks Hg Hf) as (K1 & K2 & K3).
  rewrite array_runs_slots, (tm_slots _ _ _ _ _ _ _ _ T), before_zero_app.
  2:{ apply (Forall_impl _ _ _ K1). intros r. apply run_nonzero. }
  cbn [fst]. rewrite Z.add_0_l. unfold w_block_size. rewrite <- (fr_geo _ _ _ Hfr).
  apply range_put; [rewrite (tm_length _ _ _ _ _ _ _ _ T), Hl; vm_compute; discriminate|].
  pose proof (block_size_bounds _ Hg). unfold data.kDirectCount in Hln. nia.
Qed.

(** ** On a concrete volume *)

Module SampleTrim.
(** 16 blocks, the first 14 in use; a file in blocks 12, 13, 10 and 11. *)
Definition full_disk : Disk.disk :=
  Sample.put_block (Sample.disk (Sample.super 16 4 1 8 0) 16 None) 1 ([255; 63] ++ zeros 1022).
Definition fs : Fs Disk.disk := mkFs full_disk (open new_volume full_disk true).2 new_journal false.
Definition writer : Writer Disk.disk :=
  mkWriter fs (allocator_open new_allocator (vol fs)).2 [] [] [] [] [] 0 0.
Definition runs : list Run := [mkRun 0 12 2; mkRun 0 10 2].
Definition stream : bytes :=
  put_le64 (put_run (put_run (zeros data.kBytes) 0 (mkRun 0 12 2)) 8 (mkRun 0 10 2)) data.kMaxDirectRange 4096.

Lemma sample_bitmaps_ok : bitmaps_ok writer.
Proof.
  split.
  - exists (fun _ => True). split; [|intros g Hg; exact I].
    apply (open_fs_ok full_disk true); [vm_compute; reflexivity|vm_compute; congruence..].
  - split; try (vm_compute; reflexivity); [apply bytes_okb_true; vm_compute; reflexivity|vm_compute; congruence].
  - intros Hp. vm_compute in Hp. discriminate Hp.
Qed.

Lemma sample_direct : direct_stream stream runs.
Proof.
  split; [vm_compute; reflexivity|apply bytes_okb_true; vm_compute; reflexivity| |repeat constructor].
  split; [repeat constructor|vm_compute; lia|vm_compute; reflexivity].
Qed.

Lemma sample_data : Forall (data_run (vol fs)) runs.
Proof. repeat constructor; vm_compute; congruence. Qed.
End SampleTrim.

Lemma trim_direct_spec_witness :
  exists stream' w', trim_stream SampleTrim.writer SampleTrim.stream 3 = (Some stream', w') /\
    direct_stream stream' [mkRun 0 12 2; mkRun 0 10 1] /\
    used_block (w_fs w') 10 = true /\ used_block (w_fs w') 11 = false.
Proof.
  assert (Hs : is_Some (trim_stream SampleTrim.writer SampleTrim.stream 3).1) by (vm_compute; eauto).
  destruct (trim_stream SampleTrim.writer SampleTrim.stream 3) as [r w'] eqn:E. destruct Hs as [stream' Hs].
  cbn [fst] in Hs. subst r. exists stream', w'. split; [reflexivity|].
  destruct (trim_direct_spec SampleTrim.writer w' SampleTrim.stream stream' SampleTrim.runs 3 SampleTrim.sample_bitmaps_ok
    SampleTrim.sample_direct SampleTrim.sample_data ltac:(lia) ltac:(vm_compute; reflexivity) ltac:(vm_compute; reflexivity) E)
    as (Hd & _ & [_ _ Hu] & _).
  change (kept_runs SampleTrim.runs 3) with [mkRun 0 12 2; mkRun 0 10 1] in Hd. split; [exact Hd|].
  assert (Hdrop : drop (Z.to_nat 3) (data_blocks (vol (w_fs SampleTrim.writer)) SampleTrim.runs) = [11]) by (vm_compute; reflexivity).
  rewrite Hdrop in Hu. split.
  - apply Hu; [vm_compute; split; congruence|]. split; [vm_compute; reflexivity|]. rewrite list_elem_of_singleton. lia.
  - apply not_true_iff_false. rewrite Hu by (vm_compute; split; congruence). intros [_ Hn]. apply Hn. now constructor.
Defined.
