(* ===== verification/WriterTree.v ===== *)
(** The writer's directory edits (libs/freestanding/aegir-bfs, src/writer.cc):
    the descent to a leaf, insertion with splits up to a new root, and removal.
    The theorems say that an edit that splits nothing changes exactly the one
    entry, and show what a split of an internal node below the root does. *)
From stdpp Require Import base numbers list list_numbers.
From Stdlib Require Import ZArith Lia Sorting.Sorted.
From S2P Require Import Prelude.
From S2P Require Import Layout.
From S2P Require Import Device.
From S2P Require Import Volume.
From S2P Require Import BlockStore.
From S2P Require Import Samples.
From S2P Require Import Journal.
From S2P Require Import Transaction.
From S2P Require Import Allocator.
From S2P Require Import BPlusTree.
From S2P Require Import Attribute.
From S2P Require Import Stream.
From S2P Require Import Directory.
From S2P Require Import WriterNode.
From S2P Require Import WriterStream.
From S2P Require Import WriterTrim.

(** [struct TreeSplit], when [split] is set. *)
Record TreeSplit := mkTreeSplit { separator : bytes; split_left : Z; split_right : Z }.

(** The loop over a node's keys: the index and the offset of the child whose
    key is the first [name] is not greater than, or of the overflow child. *)
Fixpoint follow (n : nat) (data_type : Z) (node : bytes) (node_size : Z) (name : bytes) (i : Z) : option (Z * Z) :=
  match n with
  | O => Some (i, u64 (le64_signed node node.kOverflowLink))
  | S n =>
    match node_entry node node_size i with
    | None => None
    | Some (key, child_value) =>
      if key_compare_typed data_type name key <=? 0 then Some (i, child_value)
      else follow n data_type node node_size name (i + 1)
    end
  end.

Section edits.
Context {D : Type} `{SectorDevice D}.
Implicit Types w : Writer D.

Definition with_hdr w (hdr : bytes) : Writer D :=
  mkWriter (w_fs w) (w_al w) (inode_ w) (stream_ w) hdr (parent_ w) (node_ w) (tree_type_ w) (edit_parent_ w).
Definition with_parent w (parent : bytes) : Writer D :=
  mkWriter (w_fs w) (w_al w) (inode_ w) (stream_ w) (hdr_ w) parent (node_ w) (tree_type_ w) (edit_parent_ w).
Definition with_tree_type w (data_type : Z) : Writer D :=
  mkWriter (w_fs w) (w_al w) (inode_ w) (stream_ w) (hdr_ w) (parent_ w) (node_ w) data_type (edit_parent_ w).
Definition with_edit_parent w (block : Z) : Writer D :=
  mkWriter (w_fs w) (w_al w) (inode_ w) (stream_ w) (hdr_ w) (parent_ w) (node_ w) (tree_type_ w) block.

Definition w_read_stream w (stream : bytes) (offset length : Z) : option bytes * Writer D :=
  let '(r, fs) := read_stream (w_fs w) stream offset length in (r, with_fs w fs).
Definition w_write_stream w (stream : bytes) (offset : Z) (src : bytes) (length : Z) : option Datatypes.unit * Writer D :=
  let '(ok, fs) := write_stream_raw (w_fs w) stream offset src length in (guard ok, with_fs w fs).

(** [node_size], [root] and [maximum]; the inode, the stream, the header and
    the key type stay in the writer. *)
Definition tree_header w (parent_block : Z) : option (Z * Z * Z) * Writer D :=
  try inode, w := read_inode_block w parent_block in
  let w := with_inode w inode (inode_get_stream inode) in
  try hdr, w := w_read_stream w (in_data (inode_view (inode_ w))) 0 tree_header.kBytes in
  let w := with_hdr w hdr in
  match tree_header_parse hdr with
  | None => (None, w)
  | Some parsed =>
    (Some (th_node_size parsed, th_root parsed, th_maximum parsed), with_tree_type w (th_data_type parsed))
  end.

Definition w_node_read w (offset node_size : Z) : option bytes * Writer D :=
  w_read_stream w (in_data (inode_view (inode_ w))) offset node_size.
Definition w_node_write w (offset node_size : Z) (node : bytes) : option Datatypes.unit * Writer D :=
  w_write_stream w (stream_ w) offset node node_size.
Definition header_write w : option Datatypes.unit * Writer D :=
  w_write_stream w (stream_ w) 0 (hdr_ w) tree_header.kBytes.

(** A node at the end of the tree: its offset. *)
Definition append_node w (parent_block node_size : Z) : option Z * Writer D :=
  let offset := le64 (hdr_ w) tree_header.kMaximumSize in
  let end_ := u64 (offset + node_size) in
  let needed := blocks_for end_ (w_block_size w) in
  let '(covered, w) := stream_blocks w (stream_ w) in
  try stream, w :=
    (if covered <? needed then
       try (stream, _), w := grow_to w (stream_ w) needed covered in (Some stream, w)
     else (Some (stream_ w), w)) in
  let w := with_hdr w (put_le64 (hdr_ w) tree_header.kMaximumSize end_) in
  let w := with_inode w (inode_set_stream (inode_ w) stream (signed 64 end_) (inode_mtime (inode_ w))) stream in
  try _, w := w_write_block w parent_block (inode_ w) in
  try _, w := header_write w in
  (Some offset, w).

(** Both halves of a split written, and the old right neighbour's left link. *)
Definition write_halves w (node_size offset other : Z) (node left_ right_ : bytes) (sep : bytes)
    : option (option TreeSplit) * Writer D :=
  let old_right := le64_signed node node.kRightLink in
  try _, w := w_node_write w offset node_size left_ in
  try _, w := w_node_write w other node_size right_ in
  try _, w :=
    (if negb (old_right =? kNullLink) && negb (old_right =? kFreeLink) then
       try neighbour, w := w_node_read w (u64 old_right) node_size in
       w_node_write w (u64 old_right) node_size (put_le64 neighbour node.kLeftLink other)
     else (Some tt, w)) in
  (Some (Some (mkTreeSplit sep offset other)), w).

(** [leaf_halves] refuses whatever [other] is, so before a node is added. *)
Definition split_leaf w (node : bytes) (node_size offset : Z) (name : bytes) (value : Z)
    : option (option TreeSplit) * Writer D :=
  match leaf_halves (tree_type_ w) node_size offset 0 node name value with
  | None => (None, w)
  | Some _ =>
    try other, w := append_node w (edit_parent_ w) node_size in
    match leaf_halves (tree_type_ w) node_size offset other node name value with
    | None => (None, w)
    | Some (left_, right_, sep) => write_halves w node_size offset other node left_ right_ sep
    end
  end.

Definition split_internal w (node : bytes) (node_size offset : Z) (name : bytes) (value replace_with : Z)
    : option (option TreeSplit) * Writer D :=
  match internal_halves (tree_type_ w) node_size offset 0 node name value replace_with with
  | None => (None, w)
  | Some _ =>
    try other, w := append_node w (edit_parent_ w) node_size in
    match internal_halves (tree_type_ w) node_size offset other node name value replace_with with
    | None => (None, w)
    | Some (left_, right_, sep) => write_halves w node_size offset other node left_ right_ sep
    end
  end.

(** The recursion has no bound of its own: [fuel] is how many nodes it may
    read, and a tree deeper than that is not described.  [parent_] is one
    buffer for all the levels. *)
Fixpoint insert_into (fuel : nat) w (offset node_size : Z) (name : bytes) (value : Z)
    : option (option TreeSplit) * Writer D :=
  match fuel with
  | O => (None, w)
  | S fuel =>
    try node, w := w_node_read w offset node_size in
    match node_info node node_size with
    | None => (None, w)
    | Some info =>
      if ni_overflow info =? kNullLink then
        match node_insert node_size (tree_type_ w) node name value with
        | None => split_leaf w node node_size offset name value
        | Some (work, _) => try _, w := w_node_write w offset node_size work in (Some None, w)
        end
      else
        let w := with_parent w node in
        match follow (Z.to_nat (ni_count info)) (tree_type_ w) (parent_ w) node_size name 0 with
        | None => (None, w)
        | Some (child_index, child) =>
          try child_split, w := insert_into fuel w child node_size name value in
          match child_split with
          | None => (Some None, w)
          | Some (mkTreeSplit sep left_ right_) =>
            match node_insert node_size (tree_type_ w) (parent_ w) sep left_ with
            | Some (work, _) =>
              let new_count := le16 work node.kKeyCount in
              let work :=
                if u16 (child_index + 1) <? new_count then
                  let lengths := key_align (node.kFixed + le16 work node.kAllKeyLength) in
                  put_le64 work (lengths + new_count * 2 + (child_index + 1) * 8) right_
                else put_le64 work node.kOverflowLink right_ in
              try _, w := w_node_write w offset node_size work in (Some None, w)
            | None => split_internal w (parent_ w) node_size offset sep left_ right_
            end
          end
        end
    end
  end.

Definition write_new_root w (split : TreeSplit) (node_size : Z) : option Datatypes.unit * Writer D :=
  try new_root, w := append_node w (edit_parent_ w) node_size in
  let fresh := build_node node_size false (u64 kNullLink) (u64 kNullLink) (split_right split)
                 [(separator split, split_left split)] in
  try _, w := w_node_write w new_root node_size fresh in
  let hdr := put_le64 (hdr_ w) tree_header.kRootNode new_root in
  let levels := le32 hdr tree_header.kMaxLevels in
  header_write (with_hdr w (put_le32 hdr tree_header.kMaxLevels (u32 (levels + 1)))).

(** Whether the name was removed. *)
Fixpoint remove_into (fuel : nat) w (offset node_size : Z) (name : bytes) : option bool * Writer D :=
  match fuel with
  | O => (None, w)
  | S fuel =>
    try node, w := w_node_read w offset node_size in
    match node_info node node_size with
    | None => (None, w)
    | Some info =>
      if ni_overflow info =? kNullLink then
        match node_remove node_size (tree_type_ w) node name with
        | None => (None, w)
        | Some (_, false) => (Some false, w)
        | Some (work, true) => try _, w := w_node_write w offset node_size work in (Some true, w)
        end
      else
        match follow (Z.to_nat (ni_count info)) (tree_type_ w) node node_size name 0 with
        | None => (None, w)
        | Some (_, child) => remove_into fuel w child node_size name
        end
    end
  end.

(** [*existed]. *)
Definition tree_edit (fuel : nat) w (parent_block : Z) (name : bytes) (value : Z) (insert : bool)
    : option bool * Writer D :=
  try (node_size, root, maximum), w := tree_header w parent_block in
  if (kMaxBlockSize <? node_size) || (maximum <? u64 (root + node_size)) then (None, w)
  else
    let w := with_edit_parent w parent_block in
    if insert then
      let '(existing, fs) := dir_find (w_fs w) (inode_view (inode_ w)) name in
      let w := with_fs w fs in
      match existing with
      | Some _ => (Some true, w)
      | None =>
        try split, w := insert_into fuel w root node_size name value in
        try _, w := (match split with Some split => write_new_root w split node_size | None => (Some tt, w) end) in
        (Some false, w)
      end
    else remove_into fuel w root node_size name.
End edits.

(** * The leaf an edit reaches *)

Section routes.
Context (dt size maximum max_key : Z) (get : Z -> bytes).
Local Notation cmp := (key_compare_typed dt).
Local Notation node_at := (node_at dt size maximum max_key get).
Local Notation overflow_of := (overflow_of get).

(** The descent for [name] from [off] ends at the leaf [lo], reading [n] nodes
    at most. *)
Inductive route (name : bytes) : nat -> Z -> Z -> Prop :=
| route_leaf n lo es : node_at lo es -> overflow_of lo = kNullLink -> route name (S n) lo lo
| route_node n off ks lo :
    node_at off ks -> 0 <= overflow_of off -> route name n (child_of dt name ks (overflow_of off)) lo ->
    route name (S n) off lo.

(** [get2] is [get] but at [lo]. *)
Definition differs_at (lo : Z) (get2 : Z -> bytes) : Prop := forall off, off <> lo -> get2 off = get off.

Lemma inner_not_leaf lo off get2 :
  differs_at lo get2 -> overflow_of lo = kNullLink -> 0 <= overflow_of off -> get2 off = get off.
Proof. intros Hd Hl Ho. apply Hd. intros ->. rewrite Hl in Ho. unfold kNullLink in Ho. lia. Qed.

Lemma node_at_same get2 off es : get2 off = get off -> node_at off es -> Directory.node_at dt size maximum max_key get2 off es.
Proof. intros E [T C K O]. split; auto. now rewrite E. Qed.

(** A subtree keeps its leaves when only a leaf changes. *)
Fixpoint subtree_frame g n off ls lo get2 (Hd : differs_at lo get2) (Hl : overflow_of lo = kNullLink)
    (Ht : subtree dt size maximum max_key get g n off ls) {struct Ht} :
  subtree dt size maximum max_key get2 g n off ls
with forest_frame g n ks last ls lo get2 (Hd : differs_at lo get2) (Hl : overflow_of lo = kNullLink)
    (Hf : forest dt size maximum max_key get g n ks last ls) {struct Hf} :
  forest dt size maximum max_key get2 g n ks last ls.
Proof.
  - destruct Ht as [n off es ls Hn|n off ks ls Hn Ho Hf]; [now apply sub_leaves|].
    pose proof (inner_not_leaf lo off get2 Hd Hl Ho) as E.
    apply (sub_node _ _ _ _ _ _ n off ks); [now apply node_at_same|unfold Directory.overflow_of in *; now rewrite E|].
    unfold Directory.overflow_of. rewrite E. exact (forest_frame _ _ _ _ _ lo get2 Hd Hl Hf).
  - destruct Hf as [n last ls Ht|n k c ks last ls ls' Ht Hf H1 H2].
    + apply forest_last. exact (subtree_frame _ _ _ _ lo get2 Hd Hl Ht).
    + apply forest_child; auto; [exact (subtree_frame _ _ _ _ lo get2 Hd Hl Ht)|exact (forest_frame _ _ _ _ _ lo get2 Hd Hl Hf)].
Qed.

(** A new leaf's keys are the old one's and [name]. *)
Definition only_adds (name : bytes) (es es' : list (bytes * Z)) : Prop :=
  Forall (fun e : bytes * Z => e.1 = name \/ e.1 ∈ map fst es) es'.

(** What the route to the leaf [lo] of [ls] keeps when that leaf changes. *)
Definition reaches (name : bytes) (ls : list (Z * list (bytes * Z))) (lo : Z) (P : (Z -> bytes) -> list (Z * list (bytes * Z)) -> Prop) : Prop :=
  exists pre es post, ls = pre ++ (lo, es) :: post /\
    Forall (fun e : bytes * Z => cmp e.1 name < 0) (entries pre) /\
    Forall (fun e : bytes * Z => cmp name e.1 < 0) (entries post) /\
    forall get2 es', differs_at lo get2 -> only_adds name es es' -> P get2 (pre ++ (lo, es') :: post).

Lemma Forall_only_adds (P : bytes -> Prop) name es es' :
  only_adds name es es' -> P name -> Forall (fun e : bytes * Z => P e.1) es -> Forall (fun e : bytes * Z => P e.1) es'.
Proof.
  intros Ha Hn Hf. apply (Forall_impl _ _ _ Ha). intros e [->|Hin]; [exact Hn|].
  apply list_elem_of_fmap in Hin as (x & -> & Hin). rewrite Forall_forall in Hf. now apply Hf.
Qed.

Lemma entries_leaf pre lo es post : entries (pre ++ (lo, es) :: post) = entries pre ++ es ++ entries post.
Proof. now rewrite entries_app. Qed.

Lemma Forall_leaf_changed (P : bytes -> Prop) name pre lo es es' post :
  only_adds name es es' -> P name -> Forall (fun e : bytes * Z => P e.1) (entries (pre ++ (lo, es) :: post)) ->
  Forall (fun e : bytes * Z => P e.1) (entries (pre ++ (lo, es') :: post)).
Proof.
  intros Ha Hn. rewrite !entries_leaf, !Forall_app. intros (H1 & H2 & H3). splits; auto. eapply Forall_only_adds; eauto.
Qed.

Definition is_leaf (l : Z * list (bytes * Z)) : Prop := node_at l.1 l.2 /\ overflow_of l.1 = kNullLink.

Lemma leaf_chain_leaves ls : leaf_chain dt size maximum max_key get ls -> Forall is_leaf ls.
Proof.
  induction ls as [|[off es] ls IH]; [constructor|]. intros (Hn & Ho & _ & Hc). constructor; [now split|auto].
Qed.

Definition leaves_ok (ls : list (Z * list (bytes * Z))) : Prop :=
  Forall is_leaf ls /\ Forall (fun e : bytes * Z => key_ok dt e.1) (entries ls).

Lemma leaves_ok_app ls ls' : leaves_ok (ls ++ ls') <-> leaves_ok ls /\ leaves_ok ls'.
Proof. unfold leaves_ok. rewrite entries_app, !Forall_app. tauto. Qed.

Lemma leaves_overflow pre lo es post : leaves_ok (pre ++ (lo, es) :: post) -> overflow_of lo = kNullLink.
Proof. intros [Hl _]. apply Forall_app in Hl as [_ Hl]. apply Forall_cons in Hl as [[_ Ho] _]. exact Ho. Qed.

(** Less than a key that is at most another's, or at most a key that is less. *)
Lemma cmp_lt_le a b c : key_ok dt a -> key_ok dt b -> key_ok dt c -> cmp a b < 0 -> cmp b c <= 0 -> cmp a c < 0.
Proof.
  intros Ha Hb Hc H1 H2. destruct (Z.eq_dec (cmp b c) 0) as [E|E].
  - apply (typed_eq dt b c Hb Hc) in E as <-. exact H1.
  - apply (typed_trans dt a b c); auto. lia.
Qed.
Lemma cmp_le_lt a b c : key_ok dt a -> key_ok dt b -> key_ok dt c -> cmp a b <= 0 -> cmp b c < 0 -> cmp a c < 0.
Proof.
  intros Ha Hb Hc H1 H2. destruct (Z.eq_dec (cmp a b) 0) as [E|E].
  - apply (typed_eq dt a b Ha Hb) in E as ->. exact H2.
  - apply (typed_trans dt a b c); auto. lia.
Qed.

Lemma Forall_order (P Q : bytes -> Prop) (es : list (bytes * Z)) :
  Forall (fun e : bytes * Z => key_ok dt e.1) es -> (forall k, key_ok dt k -> P k -> Q k) ->
  Forall (fun e : bytes * Z => P e.1) es -> Forall (fun e : bytes * Z => Q e.1) es.
Proof. intros Hk Hpq Hp. rewrite Forall_forall in *. auto. Qed.

Lemma forest_reaches n ks last ls name :
  (forall off ls, subtree dt size maximum max_key get 1 n off ls -> leaves_ok ls ->
     exists lo, route name n off lo /\ reaches name ls lo (fun get2 => subtree dt size maximum max_key get2 1 n off)) ->
  forest dt size maximum max_key get 1 n ks last ls -> key_ok dt name -> leaves_ok ls ->
  Forall (fun k : bytes * Z => key_ok dt k.1) ks ->
  exists lo, route name n (child_of dt name ks last) lo /\
    reaches name ls lo (fun get2 => forest dt size maximum max_key get2 1 n ks last).
Proof.
  intros IHt Hf Hname. remember 1%nat as g eqn:Eg.
  induction Hf as [n last ls Hs|n k c ks last ls ls' Hs Hf IH Hle Hgt]; subst g; intros Hl Hk.
  { destruct (IHt last ls Hs Hl) as (lo & Hr & pre & es & post & E & H1 & H2 & H3). exists lo. split; [exact Hr|].
    exists pre, es, post. splits; auto. intros get2 es' Hd Ha. apply forest_last. auto. }
  apply leaves_ok_app in Hl as [Hl Hl']. apply Forall_cons in Hk as [Hk Hks]. simpl in Hk.
  unfold child_of. cbn [first_not_less fst]. destruct (Z.leb_spec (cmp name k) 0) as [Hc|Hc].
  - destruct (IHt c ls Hs Hl) as (lo & Hr & pre & es & post & -> & H1 & H2 & H3). exists lo. split; [exact Hr|].
    pose proof (leaves_overflow _ _ _ _ Hl) as Hlo. exists pre, es, (post ++ ls'). rewrite <- app_assoc, entries_app. splits; auto.
    + apply Forall_app. split; [exact H2|].
      apply (Forall_order (fun x => cmp k x < 0) (fun x => cmp name x < 0) _ (proj2 Hl')); [|exact Hgt].
      intros x Hx. now apply cmp_le_lt.
    + intros get2 es' Hd Ha. change ((lo, es') :: post ++ ls') with (((lo, es') :: post) ++ ls'). rewrite app_assoc.
      apply forest_child; auto; [exact (forest_frame _ _ _ _ _ lo get2 Hd Hlo Hf)|].
      exact (Forall_leaf_changed (fun x => cmp x k <= 0) name pre lo es es' post Ha Hc Hle).
  - destruct (IH IHt Hl' Hks) as (lo & Hr & pre & es & post & -> & H1 & H2 & H3). exists lo. split.
    { unfold child_of in Hr. destruct (first_not_less cmp name ks) as [i b]. exact Hr. }
    pose proof (leaves_overflow _ _ _ _ Hl') as Hlo. assert (Hck : cmp k name < 0) by (rewrite (typed_antisym dt name k); auto; lia).
    exists (ls ++ pre), es, post. rewrite <- app_assoc, entries_app. splits; auto.
    + apply Forall_app. split; [|exact H1].
      apply (Forall_order (fun x => cmp x k <= 0) (fun x => cmp x name < 0) _ (proj2 Hl)); [|exact Hle].
      intros x Hx Hxk. exact (cmp_le_lt x k name Hx Hk Hname Hxk Hck).
    + intros get2 es' Hd Ha. rewrite <- app_assoc. apply forest_child; auto; [exact (subtree_frame _ _ _ _ lo get2 Hd Hlo Hs)|].
      exact (Forall_leaf_changed (fun x => cmp k x < 0) name pre lo es es' post Ha Hck Hgt).
Qed.

Lemma subtree_reaches n : forall off ls name,
  key_ok dt name -> subtree dt size maximum max_key get 1 n off ls -> leaves_ok ls ->
  exists lo, route name n off lo /\ reaches name ls lo (fun get2 => subtree dt size maximum max_key get2 1 n off).
Proof.
  induction n as [|n IH]; intros off ls name Hname Ht Hl;
    inversion Ht as [n' off' es ls' Hlen|n' off' ks ls' Hn Ho Hf]; subst; [lia|..].
  - destruct ls' as [|]; [|simpl in Hlen; lia]. pose proof Hl as [Hl1 _]. apply Forall_cons in Hl1 as [[Hn Ho] _].
    exists off. split; [exact (route_leaf name n off es Hn Ho)|]. exists [], es, [].
    splits; [reflexivity|constructor|constructor|]. intros get2 es' _ _. now apply sub_leaves.
  - destruct (forest_reaches n ks _ ls name (fun o l Ho' Hl' => IH o l name Hname Ho' Hl') Hf Hname Hl (node_at_keys _ _ _ _ _ _ _ Hn))
      as (lo & Hr & pre & es & post & -> & H1 & H2 & H3). exists lo. split; [exact (route_node name n off ks lo Hn Ho Hr)|].
    pose proof (leaves_overflow _ _ _ _ Hl) as Hlo. exists pre, es, post. splits; auto. intros get2 es' Hd Ha.
    pose proof (inner_not_leaf lo off get2 Hd Hlo Ho) as E.
    apply (sub_node _ _ _ _ _ _ n off ks); [now apply node_at_same|unfold Directory.overflow_of in *; now rewrite E|].
    specialize (H3 get2 es' Hd Ha). unfold Directory.overflow_of in *. now rewrite E.
Qed.

(** The links determine the chain, so no leaf is on it twice. *)
Lemma chain_length l1 : forall off es1 es2 l2,
  leaf_chain dt size maximum max_key get ((off, es1) :: l1) -> leaf_chain dt size maximum max_key get ((off, es2) :: l2) ->
  length l1 = length l2.
Proof.
  induction l1 as [|[n1 e1] l1 IH]; intros off es1 es2 [|[n2 e2] l2] (_ & _ & R1 & C1) (_ & _ & R2 & C2); auto.
  - destruct C2 as ([_ _ _ [Hn _]] & _). unfold kNullLink, kFreeLink in R1. lia.
  - destruct C1 as ([_ _ _ [Hn _]] & _). unfold kNullLink, kFreeLink in R2. lia.
  - simpl. f_equal. assert (n1 = n2) as -> by congruence. exact (IH n2 e1 e2 l2 C1 C2).
Qed.

Lemma chain_once pre lo es post :
  leaf_chain dt size maximum max_key get (pre ++ (lo, es) :: post) -> lo ∉ map fst pre /\ lo ∉ map fst post.
Proof.
  intros Hc. split; intros Hin; apply list_elem_of_fmap in Hin as ([o e] & E & Hin); simpl in E; subst o;
    apply list_elem_of_split in Hin as (l1 & l2 & ->).
  - rewrite <- app_assoc in Hc. apply leaf_chain_app_r in Hc. pose proof Hc as Hc2.
    apply leaf_chain_app_r in Hc2.
    pose proof (chain_length _ _ _ _ _ Hc Hc2) as E. rewrite length_app in E. simpl in E. lia.
  - apply leaf_chain_app_r in Hc. pose proof Hc as Hc2. rewrite app_comm_cons in Hc2. apply leaf_chain_app_r in Hc2.
    pose proof (chain_length _ _ _ _ _ Hc Hc2) as E. rewrite length_app in E. simpl in E. lia.
Qed.

Lemma chain_frame ls lo get2 :
  differs_at lo get2 -> lo ∉ map fst ls -> leaf_chain dt size maximum max_key get ls ->
  leaf_chain dt size maximum max_key get2 ls.
Proof.
  intros Hd. induction ls as [|[off es] ls IH]; [auto|]. simpl map. rewrite not_elem_of_cons. intros [Hne Hn] (H1 & H2 & H3 & H4).
  assert (E : get2 off = get off) by (apply Hd; auto).
  refine (conj _ (conj _ (conj _ _))); [now apply node_at_same|unfold Directory.overflow_of in *; now rewrite E| |exact (IH Hn H4)].
  unfold right_of in *. now rewrite E.
Qed.

Lemma chain_update pre lo es es' post get2 :
  leaf_chain dt size maximum max_key get (pre ++ (lo, es) :: post) -> differs_at lo get2 ->
  Directory.node_at dt size maximum max_key get2 lo es' -> Directory.overflow_of get2 lo = kNullLink ->
  right_of get2 lo = right_of get lo -> leaf_chain dt size maximum max_key get2 (pre ++ (lo, es') :: post).
Proof.
  intros Hc Hd Hn Ho Hr. destruct (chain_once _ _ _ _ Hc) as [Hpre Hpost]. induction pre as [|[off e] pre IH].
  - destruct Hc as (_ & _ & C1 & C2). refine (conj _ (conj _ (conj _ _))); auto; [|exact (chain_frame post lo get2 Hd Hpost C2)]. now rewrite Hr.
  - simpl in Hpre. apply not_elem_of_cons in Hpre as [Hne Hpre]. destruct Hc as (C1 & C2 & C3 & C4).
    assert (E : get2 off = get off) by (apply Hd; auto).
    refine (conj _ (conj _ (conj _ _))); [now apply node_at_same|unfold Directory.overflow_of in *; now rewrite E| |exact (IH C4 Hpre)].
    unfold right_of in *. rewrite E. destruct pre as [|[o2 e2] pre]; exact C3.
Qed.
End routes.

(** * A stream after a write *)

Lemma stream_at_inj v rs p q a :
  geometry_ok v -> Forall run_ok rs -> NoDup (data_blocks v rs) -> 0 <= p -> 0 <= q ->
  stream_at v rs p = Some a -> stream_at v rs q = Some a -> p = q.
Proof.
  intros Hg Hf. revert p q. induction Hf as [|r rs Hr Hf IH]; intros p q Hn Hp Hq; [discriminate|].
  rewrite data_blocks_cons in Hn. apply NoDup_app in Hn as (_ & Hx & Hn).
  assert (Hin : forall x y, 0 <= x < run_bytes v r -> 0 <= y -> to_block v r * block_size v + x = a -> stream_at v rs y = Some a -> False).
  { intros x y Hx1 Hy Ea Ey. destruct (stream_at_block v [r] x a Hg ltac:(auto) ltac:(lia)) as [_ Hb].
    - cbn [stream_at]. rewrite (proj2 (Z.ltb_lt _ _)) by lia. now f_equal.
    - destruct (stream_at_block v rs y a Hg Hf Hy Ey) as [_ Hb2]. unfold data_blocks in Hb. simpl in Hb. rewrite app_nil_r in Hb.
      exact (Hx _ Hb Hb2). }
  cbn [stream_at]. destruct (Z.ltb_spec p (run_bytes v r)), (Z.ltb_spec q (run_bytes v r)); intros E1 E2.
  - injection E1 as E1. injection E2 as E2. lia.
  - injection E1 as E1. exfalso. apply (Hin p (q - run_bytes v r)); auto; lia.
  - injection E2 as E2. exfalso. apply (Hin q (p - run_bytes v r)); auto; lia.
  - pose proof (IH (p - run_bytes v r) (q - run_bytes v r) Hn ltac:(lia) ltac:(lia) E1 E2). lia.
Qed.

Lemma walk_ext {A} (f f' : A -> list Run * bool) l :
  (forall x, x ∈ l -> f' x = f x) -> walk f' l = walk f l.
Proof.
  induction l as [|x l IH]; intros Hf; [reflexivity|]. cbn [walk]. rewrite (Hf x) by now left.
  rewrite IH by (intros y Hy; apply Hf; now right). reflexivity.
Qed.

Lemma elem_of_flat_map {A B} (f : A -> list B) l x y : x ∈ l -> y ∈ f x -> y ∈ flat_map f l.
Proof. intros Hx Hy. apply list_elem_of_In, in_flat_map. exists x. now rewrite <- !list_elem_of_In. Qed.

Lemma written_runs_ext m m' v stream :
  (forall b, b ∈ stream_arrays m v stream -> m' b = m b) -> written_runs m' v stream = written_runs m v stream.
Proof.
  unfold stream_arrays. intros Hm. set (bi := named_blocks v (le_run stream data.kIndirect)) in *.
  set (bd := named_blocks v (le_run stream data.kDoubleIndirect)) in *.
  assert (Hb : forall b, m' b = m b -> block_runs m' v b = block_runs m v b) by (intros b E; unfold block_runs; now rewrite E).
  assert (H1 : walk1 m' v bi = walk1 m v bi).
  { apply walk_ext. intros b Hin. apply Hb, Hm. apply elem_of_app. now left. }
  assert (H2 : walk2 m' v bd = walk2 m v bd).
  { apply walk_ext. intros b Hin. rewrite (Hb b) by (apply Hm; rewrite !elem_of_app; tauto). unfold walk_runs.
    erewrite walk_ext; [reflexivity|]. intros r Hr. apply walk_ext. intros c Hc. apply Hb, Hm. rewrite !elem_of_app. right. right.
    apply (elem_of_flat_map _ bd b c Hin). now apply (elem_of_flat_map _ _ r). }
  unfold written_runs, stream_walk. fold bi bd. now rewrite H1, H2.
Qed.

Section after_write.
Context {D : Type} `{SectorDeviceLaws D} `{!PoweredDevice D} (live : Z -> Prop).
Implicit Types fs : Fs D.

Definition reached_runs fs (stream : bytes) : list Run := written_runs (view fs) (vol fs) stream.

Lemma reached_at fs stream p :
  fs_ok live fs -> stream_ok live (view fs) (vol fs) stream -> 0 <= p < runs_total (vol fs) (reached_runs fs stream) ->
  exists a, stream_at (vol fs) (reached_runs fs stream) p = Some a /\
    stream_at (vol fs) (stream_runs (view fs) (vol fs) stream) p = Some a /\
    client_block (vol fs) (a / block_size (vol fs)).
Proof.
  intros Hok [_ _ Sr _] Hp. pose proof (fok_geo _ _ Hok) as Hg.
  destruct (written_prefix (view fs) (vol fs) stream) as [rest E]. fold (reached_runs fs stream) in E.
  rewrite E in Sr |- *. apply Forall_app in Sr as [Sr _].
  assert (Hnn : Forall (fun r => 0 <= run_bytes (vol fs) r) (reached_runs fs stream)).
  { apply (Forall_impl _ _ _ Sr). intros r [Hr _]. now apply run_bytes_nonneg. }
  assert (Hro : Forall run_ok (reached_runs fs stream)) by (apply (Forall_impl _ _ _ Sr); intros r [Hr _]; exact Hr).
  rewrite stream_at_app. destruct (stream_at (vol fs) (reached_runs fs stream) p) as [a|] eqn:Ea.
  2:{ apply (stream_at_None (vol fs) _ p Hnn ltac:(lia)) in Ea. lia. }
  exists a. splits; auto. destruct (stream_at_block _ _ p a Hg Hro ltac:(lia) Ea) as [_ Hin].
  apply list_elem_of_In, in_flat_map in Hin as (r & Hr%list_elem_of_In & Hb%list_elem_of_In).
  rewrite Forall_forall in Sr. destruct (Sr r Hr) as [_ Hf]. rewrite Forall_forall in Hf. now apply Hf.
Qed.

(** The bytes of the stream after a write that succeeded. *)
Lemma stream_bytes_written fs fs' stream offset src :
  fs_ok live fs -> stream_writable live fs false stream -> stream_written live fs false stream offset src true fs' ->
  0 <= offset ->
  (forall off n, 0 <= off -> 0 <= n -> off + n <= runs_total (vol fs) (reached_runs fs stream) ->
     off + n <= offset \/ offset + zlen src <= off -> stream_bytes fs' stream off n = stream_bytes fs stream off n) /\
  (bytes_ok src -> stream_bytes fs' stream offset (zlen src) = src).
Proof.
  intros Hok Hw Hs Ho. pose proof (fok_geo _ _ Hok) as Hg. pose proof (sw_ok _ _ _ _ Hw) as Hso.
  destruct (stream_kept live fs false stream offset src true fs' Hok Hw Hs) as [_ Hat].
  destruct Hs as (_ & _ & _ & Hs & _). destruct (Hs eq_refl) as (Htot & Hin & Hout). fold (reached_runs fs stream) in *.
  split.
  - intros off n Hoff Hn Hle Hd. unfold stream_bytes. apply map_ext_in. intros p Hp%list_elem_of_In%elem_of_seqZ.
    rewrite Hat. destruct (reached_at fs stream p Hok Hso ltac:(lia)) as (a & E1 & -> & Hc).
    apply Hout; [exact Hc|]. intros q Hq Eq. assert (p = q); [|lia].
    destruct (written_prefix (view fs) (vol fs) stream) as [rest E].
    apply (stream_at_inj (vol fs) (reached_runs fs stream) p q a Hg); auto; [|apply (sw_distinct _ _ _ _ Hw)|lia|lia].
    pose proof (so_runs _ _ _ _ Hso) as Sr. rewrite E in Sr. apply Forall_app in Sr as [Sr _].
    apply (Forall_impl _ _ _ Sr). intros r [Hr _]. exact Hr.
  - intros _. apply bytes_ext; [unfold stream_bytes, zlen; rewrite length_map, length_seqZ; lia|].
    intros i Hi. unfold stream_bytes in *. unfold zlen in Hi. rewrite length_map, length_seqZ in Hi.
    rewrite byte_at_lookup, list_lookup_fmap, lookup_seqZ_lt by (unfold zlen; lia). simpl.
    rewrite Z2Nat.id by lia. rewrite Hat. destruct (Hin (offset + i)) as (a & Ea & Hv); [unfold zlen; lia|].
    destruct (reached_at fs stream (offset + i) Hok Hso) as (a' & E1 & -> & _); [unfold zlen in *; lia|].
    rewrite Ea in E1. injection E1 as <-. rewrite Hv. f_equal. lia.
Qed.

Lemma writable_kept fs fs' stream offset src ok :
  fs_ok live fs -> stream_writable live fs false stream -> stream_written live fs false stream offset src ok fs' ->
  stream_writable live fs' false stream /\ reached_runs fs' stream = reached_runs fs stream.
Proof.
  intros Hok Hw Hs. destruct (stream_kept live fs false stream offset src ok fs' Hok Hw Hs) as [Hso _].
  destruct Hw as [[Sb Sa Sr St] Hd Hx Hu]. destruct Hs as (_ & (_ & (c & Ev) & _) & Hb & _).
  assert (Hm : forall b, b ∈ stream_arrays (view fs) (vol fs) stream -> view fs' b = view fs b).
  { intros b Hin. rewrite Forall_forall in Sa. apply Hb; [now apply Sa|now apply Hx]. }
  assert (E : written_runs (view fs') (vol fs') stream = written_runs (view fs) (vol fs) stream)
    by (rewrite Ev; exact (written_runs_ext (view fs) (view fs') (vol fs) stream Hm)).
  assert (E2 : stream_arrays (view fs') (vol fs') stream = stream_arrays (view fs) (vol fs) stream)
    by (rewrite Ev; exact (proj2 (stream_runs_ext (view fs) (view fs') (vol fs) stream Hm))).
  split; [|exact E]. split; [exact Hso|rewrite E, Ev; exact Hd| |discriminate].
  rewrite E, E2, Ev. exact Hx.
Qed.
End after_write.

(** * The tree of a directory *)

Section trees.
Context {D : Type} `{SectorDeviceLaws D} `{!PoweredDevice D} (live : Z -> Prop).
Implicit Types fs : Fs D.
Local Notation leaf := (Z * list (bytes * Z))%type.
Local Notation dt := kTreeStringType.

(** The node at [off], where nodes can be: at multiples of the node size after
    the header, inside the tree. *)
Definition aligned_node fs (stream : bytes) (size maximum off : Z) : bytes :=
  if (size <=? off) && (off mod size =? 0) && (off + size <=? maximum) then stream_bytes fs stream off size else [].

Definition stream_in fs (block : Z) : bytes := inode_get_stream (view fs block).

(** The inode in [block] is a directory that an edit may change: a tree whose
    every leaf is under the root, with the leaves [ls]. *)
Record tree_at fs (block size maximum : Z) (ls : list leaf) : Prop := {
  ta_ok : fs_ok live fs;
  ta_block : client_block (vol fs) block /\ live block;
  ta_inode : le32 (view fs block) inode.kMagic1 = kInodeMagic1 /\
             Z.land (le32 (view fs block) inode.kFlags) kInodeInUse <> 0;
  ta_writable : stream_writable live fs false (stream_in fs block);
  ta_apart : block ∉ data_blocks (vol fs) (reached_runs fs (stream_in fs block));
  ta_covered : maximum <= runs_total (vol fs) (reached_runs fs (stream_in fs block));
  ta_size : tree_header.kBytes <= size;
  ta_header : exists root, tree_header_is fs (stream_in fs block) dt size root maximum /\
    subtree dt size maximum kMaxName (aligned_node fs (stream_in fs block) size maximum) 1 16 root ls;
  ta_chain : leaf_chain dt size maximum kMaxName (aligned_node fs (stream_in fs block) size maximum) ls;
  ta_leaves : zlen ls <= maximum / size + 2;
}.

Lemma aligned_at fs stream size maximum max_key off es :
  node_at dt size maximum max_key (aligned_node fs stream size maximum) off es ->
  size <= off /\ off mod size = 0 /\ aligned_node fs stream size maximum off = stream_bytes fs stream off size.
Proof.
  intros [[Hr _ _] _ _ _]. pose proof (nr_len _ _ _ Hr) as Hl. pose proof (nr_size _ _ _ Hr) as Hs.
  unfold aligned_node in *. destruct (_ && _) eqn:E; [breflect; auto|].
  unfold zlen in Hl. simpl in Hl. unfold node.kFixed in Hs. lia.
Qed.

(** The leaf at which the descent for [name] ends: from the root, each internal
    node's first child whose key is not less than [name], or the last child. *)
Definition leaf_for fs (block size maximum : Z) (name : bytes) (off : Z) : Prop :=
  exists root, tree_header_is fs (stream_in fs block) dt size root maximum /\
    route dt size maximum kMaxName (aligned_node fs (stream_in fs block) size maximum) name 16 root off.

(** Where two readings of the nodes agree, so do the trees. *)
Fixpoint subtree_mono size maximum max_key get get2 g g2 n off ls
    (Hm : forall off es, node_at dt size maximum max_key get off es -> get2 off = get off) (Hg : (g <= g2)%nat)
    (Ht : subtree dt size maximum max_key get g n off ls) {struct Ht} : subtree dt size maximum max_key get2 g2 n off ls
with forest_mono size maximum max_key get get2 g g2 n ks last ls
    (Hm : forall off es, node_at dt size maximum max_key get off es -> get2 off = get off) (Hg : (g <= g2)%nat)
    (Hf : forest dt size maximum max_key get g n ks last ls) {struct Hf} : forest dt size maximum max_key get2 g2 n ks last ls.
Proof.
  - destruct Ht as [n off es ls Hn|n off ks ls Hn Ho Hf]; [apply sub_leaves; lia|]. pose proof (Hm off ks Hn) as E.
    apply (sub_node _ _ _ _ _ _ n off ks); [now apply (node_at_same dt size maximum max_key get)|unfold overflow_of in *; now rewrite E|].
    unfold overflow_of. rewrite E. exact (forest_mono size maximum max_key get get2 g g2 _ _ _ _ Hm Hg Hf).
  - destruct Hf as [n last ls Ht|n k c ks last ls ls' Ht Hf H1 H2].
    + apply forest_last. exact (subtree_mono size maximum max_key get get2 g g2 _ _ _ Hm Hg Ht).
    + apply forest_child; auto; [exact (subtree_mono size maximum max_key get get2 g g2 _ _ _ Hm Hg Ht)|].
      exact (forest_mono size maximum max_key get get2 g g2 _ _ _ _ Hm Hg Hf).
Qed.

Lemma chain_mono size maximum max_key get get2 ls :
  (forall off es, node_at dt size maximum max_key get off es -> get2 off = get off) ->
  leaf_chain dt size maximum max_key get ls -> leaf_chain dt size maximum max_key get2 ls.
Proof.
  intros Hm. induction ls as [|[off es] ls IH]; [auto|]. intros (H1 & H2 & H3 & H4). pose proof (Hm off es H1) as E.
  refine (conj _ (conj _ (conj _ _))); [now apply (node_at_same dt size maximum max_key get)|unfold overflow_of in *; now rewrite E| |exact (IH H4)].
  unfold right_of in *. now rewrite E.
Qed.

(** Such a directory is one the reader can use. *)
Lemma tree_at_directory fs block size maximum ls :
  tree_at fs block size maximum ls -> directory live fs (inode_view (view fs block)) (entries ls).
Proof.
  intros [T1 T2 T3 T4 T5 T6 T7 (root & Hh & Ht) T9 T10]. exists ls. split; [|reflexivity]. exists size, maximum.
  assert (Hm : forall off es, node_at dt size maximum kMaxName (aligned_node fs (stream_in fs block) size maximum) off es ->
    stream_bytes fs (stream_in fs block) off size = aligned_node fs (stream_in fs block) size maximum off).
  { intros off es Hn. symmetry. now apply (aligned_at fs _ size maximum kMaxName off es). }
  split; [exact (sw_ok _ _ _ _ T4)| | |exact T10].
  - exists root. split; [exact Hh|]. exact (subtree_mono size maximum kMaxName _ _ 1 16 16 root ls Hm ltac:(lia) Ht).
  - exact (chain_mono size maximum kMaxName _ _ ls Hm T9).
Qed.

Lemma aligned_apart size a b :
  0 < size -> a mod size = 0 -> b mod size = 0 -> a <> b -> a + size <= b \/ b + size <= a.
Proof.
  intros Hs Ha Hb Hne. pose proof (Z.div_mod a size ltac:(lia)) as Ea. pose proof (Z.div_mod b size ltac:(lia)) as Eb.
  assert (a / size <> b / size) by (intros E; apply Hne; rewrite Ea, Eb, E, Ha, Hb; reflexivity). nia.
Qed.

Section one_leaf.
Context (fs fs' : Fs D) (block size maximum root : Z) (ls pre post : list leaf) (lo : Z) (es es' : list (bytes * Z)).
Context (name work : bytes).
Local Notation stream := (stream_in fs block).
Local Notation get := (aligned_node fs stream size maximum).
Local Notation get' := (aligned_node fs' stream size maximum).
Context (Htree : tree_at fs block size maximum ls) (Hls : ls = pre ++ (lo, es) :: post).
Context (Hwrite : stream_written live fs false stream lo work true fs').
Context (Hwork : tree_ok dt work size es') (Hlinks : same_links (get lo) work).
Context (Hcount : zlen es' <= 512) (Hadds : only_adds name es es') (Hname : zlen name <= kMaxName).

Lemma changed_leaf : is_leaf dt size maximum kMaxName get (lo, es).
Proof.
  pose proof (leaf_chain_leaves _ _ _ _ _ _ (ta_chain _ _ _ _ _ Htree)) as Hl. rewrite Hls in Hl.
  apply Forall_app in Hl as [_ Hl]. now apply Forall_cons in Hl as [Hl _].
Qed.

Lemma changed_bytes :
  size <= lo /\ lo mod size = 0 /\ get' lo = work /\ differs_at get lo get' /\
  stream_bytes fs' stream 0 tree_header.kBytes = stream_bytes fs stream 0 tree_header.kBytes.
Proof.
  destruct changed_leaf as [Hn _]. simpl in Hn. destruct (aligned_at _ _ _ _ _ _ _ Hn) as (A1 & A2 & A3).
  pose proof (na_off _ _ _ _ _ _ _ Hn) as [Hlo Hmax]. pose proof (ta_size _ _ _ _ _ Htree) as Hsz.
  unfold tree_header.kBytes in Hsz. pose proof (nr_len _ _ _ (to_rep _ _ _ _ Hwork)) as Hlen.
  destruct (stream_bytes_written live fs fs' stream lo work (ta_ok _ _ _ _ _ Htree) (ta_writable _ _ _ _ _ Htree) Hwrite Hlo)
    as [Hout Hin]. pose proof (ta_covered _ _ _ _ _ Htree) as Hcov. rewrite Hlen in *. splits; auto.
  - unfold aligned_node. rewrite (proj2 (Z.leb_le _ _)), (proj2 (Z.eqb_eq _ _) A2), (proj2 (Z.leb_le _ _)) by lia. cbn [andb].
    apply Hin, (nr_bytes _ _ _ (to_rep _ _ _ _ Hwork)).
  - intros off Hne. unfold aligned_node. destruct (_ && _) eqn:E; [|reflexivity]. breflect.
    apply Hout; [lia|lia|lia|]. apply aligned_apart; auto; lia.
  - apply Hout; unfold tree_header.kBytes; lia.
Qed.

Lemma leaf_written :
  tree_header_is fs stream dt size root maximum ->
  (forall get2 es', differs_at get lo get2 -> only_adds name es es' ->
     subtree dt size maximum kMaxName get2 1 16 root (pre ++ (lo, es') :: post)) ->
  tree_at fs' block size maximum (pre ++ (lo, es') :: post) /\ view fs' block = view fs block.
Proof.
  intros Hh Hsub. destruct changed_bytes as (A1 & A2 & A3 & A4 & A5). destruct changed_leaf as [Hn Hov]. simpl in Hn, Hov.
  pose proof Hwrite as (W1 & (_ & (c & Ev) & _) & W3 & _). destruct Htree as [T1 T2 T3 T4 T5 T6 T7 _ T9 T10].
  destruct (writable_kept live fs fs' stream lo work true T1 T4 Hwrite) as [K1 K2].
  assert (Hview : view fs' block = view fs block) by (apply W3; [apply T2|exact T5]). split; [|exact Hview].
  assert (Es : stream_in fs' block = stream) by (unfold stream_in; now rewrite Hview).
  destruct Hlinks as (_ & Hright & Hover).
  assert (Hn' : node_at dt size maximum kMaxName get' lo es').
  { split; [now rewrite A3|exact Hcount| |apply Hn].
    exact (Forall_only_adds (fun k => zlen k <= kMaxName) name es es' Hadds Hname (na_keys _ _ _ _ _ _ _ Hn)). }
  split; rewrite ?Es, ?K2, ?Hview; auto.
  - rewrite Ev. exact T2.
  - rewrite Ev. exact T5.
  - rewrite Ev. exact T6.
  - exists root. split; [destruct Hh; split; rewrite ?A5; auto|]. now apply Hsub.
  - rewrite Hls in T9. apply (chain_update dt size maximum kMaxName get pre lo es es' post get' T9 A4 Hn').
    + unfold overflow_of, le64_signed in *. rewrite A3, Hover. exact Hov.
    + unfold right_of, le64_signed. rewrite A3, Hright. reflexivity.
  - rewrite Hls in T10. unfold zlen in *. rewrite length_app in *. exact T10.
Qed.
End one_leaf.

(** ** Reads change nothing an edit relies on *)

Lemma settled_bytes fs0 fs stream off n :
  settled live fs0 fs -> stream_ok live (view fs0) (vol fs0) stream ->
  stream_bytes fs stream off n = stream_bytes fs0 stream off n.
Proof.
  intros Hs Hst. destruct (settled_stream_ok live fs0 fs stream Hs Hst) as [_ Hat].
  destruct (only_cache_same fs0 fs (proj2 Hs)) as (_ & _ & Hv & _). unfold stream_bytes.
  apply map_ext. intros p. rewrite Hat. now destruct (stream_at _ _ p).
Qed.

Lemma settled_writable fs0 fs stream :
  settled live fs0 fs -> stream_writable live fs0 false stream ->
  stream_writable live fs false stream /\ reached_runs fs stream = reached_runs fs0 stream.
Proof.
  intros Hs [Hso Hd Hx _]. destruct (settled_stream_ok live fs0 fs stream Hs Hso) as [Hso' _].
  destruct Hs as [_ Hc]. destruct (only_cache_same fs0 fs Hc) as (_ & Hv & _). destruct Hc as (_ & _ & _ & c & Ev).
  assert (E : written_runs (view fs) (vol fs) stream = written_runs (view fs0) (vol fs0) stream)
    by (rewrite Ev; exact (written_runs_ext (view fs0) (view fs) (vol fs0) stream (fun b _ => Hv b))).
  assert (E2 : stream_arrays (view fs) (vol fs) stream = stream_arrays (view fs0) (vol fs0) stream)
    by (rewrite Ev; exact (proj2 (stream_runs_ext (view fs0) (view fs) (vol fs0) stream (fun b _ => Hv b)))).
  split; [|exact E]. split; [exact Hso'|rewrite E, Ev; exact Hd| |discriminate]. rewrite E, E2, Ev. exact Hx.
Qed.

Lemma settled_up fs0 fs : settled live fs0 fs -> bs_up fs0 -> bs_up fs.
Proof.
  intros [_ (E1 & E2 & E3 & c & E4)] (Hg & Hw & Ht & cap & Hp & Hc). simpl. unfold in_transaction in *.
  rewrite E1, E2, E3, E4. splits; auto; [destruct Hg; now split|]. exists cap. auto.
Qed.

Lemma tree_at_settled fs0 fs block size maximum ls :
  settled live fs0 fs -> tree_at fs0 block size maximum ls ->
  tree_at fs block size maximum ls /\ stream_in fs block = stream_in fs0 block /\
  (forall off, aligned_node fs (stream_in fs0 block) size maximum off = aligned_node fs0 (stream_in fs0 block) size maximum off).
Proof.
  intros Hs [T1 T2 T3 T4 T5 T6 T7 (root & Hh & Ht) T9 T10].
  destruct (only_cache_same fs0 fs (proj2 Hs)) as (_ & Hv & _). pose proof Hs as [Hok (_ & _ & _ & c & Ev)].
  assert (Es : stream_in fs block = stream_in fs0 block) by (unfold stream_in; now rewrite Hv).
  destruct (settled_writable fs0 fs (stream_in fs0 block) Hs T4) as [K1 K2].
  assert (Hb : forall off n, stream_bytes fs (stream_in fs0 block) off n = stream_bytes fs0 (stream_in fs0 block) off n)
    by (intros off n; exact (settled_bytes fs0 fs (stream_in fs0 block) off n Hs (sw_ok _ _ _ _ T4))).
  assert (Hget : forall off, aligned_node fs (stream_in fs0 block) size maximum off = aligned_node fs0 (stream_in fs0 block) size maximum off)
    by (intros off; unfold aligned_node; now rewrite Hb).
  split; [|auto]. split; rewrite ?Es, ?K2, ?Hv; auto; try (rewrite Ev; assumption).
  - exists root. split; [destruct Hh; split; rewrite ?Hb; auto|].
    exact (subtree_mono size maximum kMaxName _ _ 1 1 16 root ls (fun off _ _ => Hget off) ltac:(lia) Ht).
  - exact (chain_mono size maximum kMaxName _ _ ls (fun off _ _ => Hget off) T9).
Qed.
End trees.

(** * The edits *)

Lemma follow_list node size (es : list (bytes * Z)) dt name suf : forall pre,
  tree_ok dt node size es -> Forall (fun e : bytes * Z => zlen e.1 <= kMaxName) es -> es = pre ++ suf ->
  follow (length suf) dt node size name (zlen pre) =
  Some (zlen pre + Z.of_nat (first_not_less (key_compare_typed dt) name suf).1,
        match suf !! (first_not_less (key_compare_typed dt) name suf).1 with
        | Some e => e.2
        | None => u64 (le64_signed node node.kOverflowLink)
        end).
Proof.
  induction suf as [|e suf IH]; intros pre Ht Hk Hes; cbn [follow length first_not_less].
  { simpl. now rewrite Z.add_0_r. }
  assert (Hi : es !! length pre = Some e) by (rewrite Hes; now apply list_lookup_middle).
  pose proof (node_entry_law dt node size es (length pre) Ht) as He. rewrite Hi in He. fold (zlen pre) in He. rewrite He.
  rewrite Forall_forall in Hk. rewrite (proj2 (Z.ltb_ge _ _)) by (apply Hk, list_elem_of_lookup; eauto).
  destruct e as [k c]. cbn [fst snd]. destruct (key_compare_typed dt name k <=? 0); [simpl; now rewrite Z.add_0_r|].
  destruct (snoc_split es pre (k, c) suf Hes) as [Hes' Hz]. rewrite <- Hz, (IH (pre ++ [(k, c)]) Ht) by (auto; now apply Forall_forall).
  destruct (first_not_less _ name suf) as [i b]. cbn [fst]. rewrite Hz. do 2 f_equal. lia.
Qed.

Section editing.
Context {D : Type} `{SectorDeviceLaws D} `{!PoweredDevice D} (live : Z -> Prop) (w0 : Writer D).
Context (block size maximum : Z) (ls : list (Z * list (bytes * Z))).
Local Notation fs0 := (w_fs w0).
Local Notation stream := (stream_in fs0 block).
Local Notation get := (aligned_node fs0 stream size maximum).
Local Notation dt := kTreeStringType.
Context (Htree : tree_at live fs0 block size maximum ls) (Hreads : reads_ok fs0).

(** The writer during an edit, before its write: what [tree_header] left. *)
Record ready (w : Writer D) : Prop := {
  rd_fs : settled live fs0 (w_fs w);
  rd_inode : inode_ w = view fs0 block;
  rd_stream : stream_ w = stream;
  rd_type : tree_type_ w = dt;
}.

Lemma ready_parent w node : ready w -> ready (with_parent w node).
Proof. now intros []. Qed.

Lemma tree_bounds : node.kFixed <= size <= kMaxBlockSize /\ maximum < 2 ^ 62.
Proof. destruct (ta_header _ _ _ _ _ _ Htree) as (root & Hh & _). exact (hi_bounds _ _ _ _ _ _ Hh). Qed.

Lemma ready_read w off es :
  ready w -> node_at dt size maximum kMaxName get off es ->
  exists w', w_node_read w off size = (Some (get off), w') /\ ready w'.
Proof.
  intros [R1 R2 R3 R4] Hn. destruct (aligned_at _ _ _ _ _ _ _ Hn) as (A1 & _ & A3). pose proof tree_bounds as [Hs Hm].
  pose proof (na_off _ _ _ _ _ _ _ Hn) as [Ho He]. unfold node.kFixed, kMaxBlockSize in Hs.
  unfold w_node_read, w_read_stream. rewrite R2. change (in_data (inode_view (view fs0 block))) with stream.
  destruct (settled_read live fs0 (w_fs w) stream off size R1 Hreads (sw_ok _ _ _ _ (ta_writable _ _ _ _ _ _ Htree)))
    as (fs' & -> & R1'); try lia. exists (with_fs w fs'). rewrite A3. split; [reflexivity|now split].
Qed.

Lemma route_start name n off lo : route dt size maximum kMaxName get name n off lo -> exists es, node_at dt size maximum kMaxName get off es.
Proof. destruct 1; eauto. Qed.

(** The child an internal node leads to. *)
Lemma follow_child name off ks :
  node_at dt size maximum kMaxName get off ks -> 0 <= overflow_of get off ->
  exists i, follow (Z.to_nat (zlen ks)) dt (get off) size name 0 = Some (i, child_of dt name ks (overflow_of get off)).
Proof.
  intros Hn Ho. rewrite to_nat_zlen. eexists.
  etransitivity; [exact (follow_list (get off) size ks dt name ks [] (na_tree _ _ _ _ _ _ _ Hn) (na_keys _ _ _ _ _ _ _ Hn) eq_refl)|].
  do 2 f_equal. unfold child_of. destruct (ks !! _); [reflexivity|]. fold (overflow_of get off). apply u64_small. split; [exact Ho|].
  unfold overflow_of, le64_signed, signed in *. pose proof (nr_bytes _ _ _ (to_rep _ _ _ _ (na_tree _ _ _ _ _ _ _ Hn))) as Hb.
  pose proof (le64_range (get off) node.kOverflowLink Hb ltac:(easy)) as Hx. destruct (le64 _ _ <? _); lia.
Qed.

Lemma insert_descend name value work b lo n off :
  node_insert size dt (get lo) name value = Some (work, b) ->
  route dt size maximum kMaxName get name n off lo -> forall fuel w, (n <= fuel)%nat -> ready w ->
  exists w1, ready w1 /\
    insert_into fuel w off size name value = (try _, w2 := w_node_write w1 lo size work in (Some None, w2)).
Proof.
  intros Hins. induction 1 as [n lo es Hn Ho|n off ks lo Hn Ho Hr IH]; intros fuel w Hf Hw; (destruct fuel as [|fuel]; [lia|]);
    cbn [insert_into].
  - destruct (ready_read w lo es Hw Hn) as (w1 & -> & Hw1).
    rewrite (rep_info _ _ _ (to_rep _ _ _ _ (na_tree _ _ _ _ _ _ _ Hn))). cbn [ni_overflow].
    unfold overflow_of in Ho. rewrite Ho, Z.eqb_refl, (rd_type _ Hw1), Hins. exists w1. auto.
  - destruct (ready_read w off ks Hw Hn) as (w1 & -> & Hw1).
    rewrite (rep_info _ _ _ (to_rep _ _ _ _ (na_tree _ _ _ _ _ _ _ Hn))). cbn [ni_overflow ni_count].
    pose proof (follow_child name off ks Hn Ho) as [i Hi]. unfold overflow_of in Ho. unfold kNullLink.
    rewrite (proj2 (Z.eqb_neq (le64_signed _ node.kOverflowLink) (-1))) by lia.
    apply (ready_parent w1 (get off)) in Hw1. rewrite (rd_type _ Hw1). cbn [parent_ with_parent]. rewrite Hi.
    destruct (IH Hins fuel (with_parent w1 (get off)) ltac:(lia) Hw1) as (w2 & Hw2 & ->). exists w2. split; [exact Hw2|].
    now destruct (w_node_write w2 lo size work) as [[u|] w3].
Qed.

Lemma remove_descend name lo n off :
  route dt size maximum kMaxName get name n off lo -> forall fuel w, (n <= fuel)%nat -> ready w ->
  exists w1, ready w1 /\
    remove_into fuel w off size name =
    match node_remove size dt (get lo) name with
    | None => (None, w1)
    | Some (_, false) => (Some false, w1)
    | Some (work, true) => try _, w2 := w_node_write w1 lo size work in (Some true, w2)
    end.
Proof.
  induction 1 as [n lo es Hn Ho|n off ks lo Hn Ho Hr IH]; intros fuel w Hf Hw; (destruct fuel as [|fuel]; [lia|]);
    cbn [remove_into].
  - destruct (ready_read w lo es Hw Hn) as (w1 & -> & Hw1).
    rewrite (rep_info _ _ _ (to_rep _ _ _ _ (na_tree _ _ _ _ _ _ _ Hn))). cbn [ni_overflow].
    unfold overflow_of in Ho. rewrite Ho, Z.eqb_refl, (rd_type _ Hw1). exists w1. auto.
  - destruct (ready_read w off ks Hw Hn) as (w1 & -> & Hw1).
    rewrite (rep_info _ _ _ (to_rep _ _ _ _ (na_tree _ _ _ _ _ _ _ Hn))). cbn [ni_overflow ni_count].
    pose proof (follow_child name off ks Hn Ho) as [i Hi]. unfold overflow_of in Ho. unfold kNullLink.
    rewrite (proj2 (Z.eqb_neq (le64_signed _ node.kOverflowLink) (-1))) by lia. rewrite (rd_type _ Hw1), Hi.
    destruct (IH fuel w1 ltac:(lia) Hw1) as (w2 & Hw2 & ->). exists w2. auto.
Qed.

Lemma tree_header_ready :
  exists root w, tree_header w0 block = (Some (size, root, maximum), w) /\ ready w /\
    tree_header_is fs0 stream dt size root maximum /\ subtree dt size maximum kMaxName get 1 16 root ls.
Proof.
  destruct Htree as [T1 [T2 T2'] [T3 T3'] T4 _ _ _ (root & Hh & Ht) _ _]. unfold tree_header, read_inode_block, w_read_block.
  destruct (read_block fs0 block) as [r fs1] eqn:E. destruct (read_block_law live fs0 block r fs1 T1 T2 T2' E) as (R1 & R2 & R3 & R4).
  destruct (R4 Hreads) as [data ->]. rewrite (R3 data eq_refl), T3, Z.eqb_refl, (proj2 (Z.eqb_neq _ 0) T3'). cbn [negb andb].
  assert (Hs1 : settled live fs0 fs1) by now split. unfold w_read_stream.
  cbn [w_fs inode_ with_inode with_fs]. change (in_data (inode_view (view fs0 block))) with stream.
  destruct (settled_read live fs0 fs1 stream 0 tree_header.kBytes Hs1 Hreads (sw_ok _ _ _ _ T4)) as (fs2 & -> & Hs2);
    try (unfold tree_header.kBytes; lia).
  unfold tree_header_parse. pose proof (hi_bounds _ _ _ _ _ _ Hh) as [Hb _]. unfold node.kFixed in Hb.
  rewrite (hi_magic _ _ _ _ _ _ Hh), (hi_size _ _ _ _ _ _ Hh), (hi_root _ _ _ _ _ _ Hh), (hi_maximum _ _ _ _ _ _ Hh),
    (hi_type _ _ _ _ _ _ Hh), Z.eqb_refl, (proj2 (Z.eqb_neq size 0)), (proj2 (Z.ltb_ge _ _)) by lia.
  cbn [negb orb]. eexists root, _. split; [reflexivity|]. splits; auto. now split.
Qed.

(** The guards of [tree_edit], and the leaf the edit will change. *)
Lemma edit_start name :
  key_ok dt name ->
  exists root w lo pre es post,
    tree_header w0 block = (Some (size, root, maximum), w) /\ ready w /\ tree_header_is fs0 stream dt size root maximum /\
    (kMaxBlockSize <? size) || (maximum <? u64 (root + size)) = false /\
    route dt size maximum kMaxName get name 16 root lo /\ ls = pre ++ (lo, es) :: post /\
    node_at dt size maximum kMaxName get lo es /\
    name ∉ map fst (entries pre) /\ name ∉ map fst (entries post) /\
    (Forall (fun e : bytes * Z => key_compare_typed dt e.1 name < 0) (entries pre) /\
     Forall (fun e : bytes * Z => key_compare_typed dt name e.1 < 0) (entries post)) /\
    forall get2 es', differs_at get lo get2 -> only_adds name es es' ->
      subtree dt size maximum kMaxName get2 1 16 root (pre ++ (lo, es') :: post).
Proof.
  intros Hk. destruct tree_header_ready as (root & w & E & Hw & Hh & Ht). pose proof (ta_chain _ _ _ _ _ _ Htree) as Hc.
  assert (Hl : leaves_ok dt size maximum kMaxName get ls).
  { split; [exact (leaf_chain_leaves _ _ _ _ _ _ Hc)|exact (leaf_chain_keys _ _ _ _ _ _ Hc)]. }
  destruct (subtree_reaches dt size maximum kMaxName get 16 root ls name Hk Ht Hl)
    as (lo & Hr & pre & es & post & Hls & H1 & H2 & H3).
  destruct (route_start name 16 root lo Hr) as [es0 Hn0]. pose proof (na_off _ _ _ _ _ _ _ Hn0) as [Hr0 Hr1].
  pose proof tree_bounds as [[Hb0 Hb] Hm]. rewrite Hls in Hl. destruct Hl as [Hl Hkeys].
  apply Forall_app in Hl as [_ Hl]. apply Forall_cons in Hl as [[Hn _] _]. simpl in Hn.
  assert (Hself : key_compare_typed dt name name = 0) by now apply typed_eq.
  exists root, w, lo, pre, es, post. splits; auto.
  - rewrite (proj2 (Z.ltb_ge _ _)) by lia. apply Z.ltb_ge. rewrite u64_small; [lia|].
    unfold node.kFixed in Hb0. lia.
  - intros Hin. apply list_elem_of_fmap in Hin as (e & Ee & Hin). rewrite Forall_forall in H1. specialize (H1 e Hin).
    simpl in H1. rewrite <- Ee, Hself in H1. lia.
  - intros Hin. apply list_elem_of_fmap in Hin as (e & Ee & Hin). rewrite Forall_forall in H2. specialize (H2 e Hin).
    simpl in H2. rewrite <- Ee, Hself in H2. lia.
Qed.

Lemma leaf_write w root pre lo es es' post name work r w' :
  ready w -> ls = pre ++ (lo, es) :: post -> tree_header_is fs0 stream dt size root maximum ->
  node_at dt size maximum kMaxName get lo es ->
  (forall get2 es', differs_at get lo get2 -> only_adds name es es' ->
     subtree dt size maximum kMaxName get2 1 16 root (pre ++ (lo, es') :: post)) ->
  tree_ok dt work size es' -> same_links (get lo) work -> zlen es' <= 512 -> only_adds name es es' -> zlen name <= kMaxName ->
  w_node_write w lo size work = (r, w') ->
  (r = Some tt -> tree_at live (w_fs w') block size maximum (pre ++ (lo, es') :: post) /\ view (w_fs w') block = view fs0 block) /\
  (bs_up fs0 -> r = Some tt).
Proof.
  intros [R1 R2 R3 R4] Hls Hh Hn Hsub Hwork Hlinks Hcount Hadds Hname. unfold w_node_write, w_write_stream. rewrite R3.
  destruct (write_stream_raw (w_fs w) stream lo work size) as [ok fs'] eqn:E. intros [= <- <-].
  destruct (tree_at_settled live fs0 (w_fs w) block size maximum ls R1 Htree) as (Ht1 & Es & Hget).
  destruct (only_cache_same fs0 (w_fs w) (proj2 R1)) as (_ & Hv & _).
  pose proof (nr_len _ _ _ (to_rep _ _ _ _ Hwork)) as Hlen. pose proof tree_bounds as [Hs Hm]. unfold node.kFixed, kMaxBlockSize in Hs.
  pose proof (na_off _ _ _ _ _ _ _ Hn) as [Hlo Hmax]. unfold write_stream_raw in E. rewrite <- Hlen in E.
  destruct (settled_writable live fs0 (w_fs w) stream R1 (ta_writable _ _ _ _ _ _ Htree)) as [Hwr Hrr].
  apply (write_stream_law live) in E; [|exact (ta_ok _ _ _ _ _ _ Ht1)|exact Hwr|exact (nr_bytes _ _ _ (to_rep _ _ _ _ Hwork))|lia|lia|lia].
  split.
  - intros Hg. assert (ok = true) as -> by (destruct ok; [reflexivity|discriminate]).
    destruct (leaf_written live (w_fs w) fs' block size maximum root ls pre post lo es es' name work Ht1 Hls) as [L1 L2]; rewrite ?Es; auto.
    + unfold same_links in *. now rewrite Hget.
    + destruct (ta_header _ _ _ _ _ _ Ht1) as (root' & Hh' & _). rewrite Es in Hh'.
      replace root with root'; [exact Hh'|]. rewrite <- (hi_root _ _ _ _ _ _ Hh), <- (hi_root _ _ _ _ _ _ Hh').
      now rewrite (settled_bytes live fs0 (w_fs w) stream _ _ R1 (sw_ok _ _ _ _ (ta_writable _ _ _ _ _ _ Htree))).
    + intros get2 es2 Hd Ha. apply Hsub; [|exact Ha]. intros off Hne. rewrite <- Hget. now apply Hd.
    + split; [exact L1|]. simpl. rewrite L2. apply Hv.
  - intros Hup. destruct E as (_ & _ & _ & _ & E). rewrite (E (settled_up live fs0 (w_fs w) R1 Hup)).
    pose proof (ta_covered _ _ _ _ _ _ Ht1) as Hcov. rewrite Es in Hcov. unfold reached_runs in Hcov.
    now rewrite (proj2 (Z.leb_le _ _)) by lia.
Qed.
End editing.

(** The leaf has room for another entry, and the readers' limit of 512. *)
Definition leaf_room (size : Z) (es : list (bytes * Z)) (name : bytes) : Prop :=
  key_align (node.kFixed + (zlen (keys es) + zlen name)) + (zlen es + 1) * 10 <= size /\ zlen es + 1 <= 512.

Lemma assoc_adds name es es' (f : bytes -> option Z) :
  (forall k, assoc k es' = if decide (k = name) then f k else assoc k es) -> only_adds name es es'.
Proof.
  intros Ha. apply Forall_forall. intros e He. destruct (decide (e.1 = name)) as [|Hne]; [now left|]. right.
  destruct (decide (e.1 ∈ map fst es)) as [|Hn]; [assumption|]. apply assoc_None in Hn. specialize (Ha e.1).
  rewrite decide_False, Hn in Ha by exact Hne. apply assoc_None in Ha. exfalso. apply Ha. now apply list_elem_of_fmap_2.
Qed.

Lemma assoc_leaf name pre lo es es' post (f : bytes -> option Z) :
  name ∉ map fst (entries pre) -> name ∉ map fst (entries post) ->
  (forall k, assoc k es' = if decide (k = name) then f k else assoc k es) ->
  forall k, assoc k (entries (pre ++ (lo, es') :: post)) =
    if decide (k = name) then f k else assoc k (entries (pre ++ (lo, es) :: post)).
Proof.
  intros Hpre Hpost Ha k. rewrite !entries_leaf, !assoc_app, Ha. destruct (decide (k = name)) as [->|]; [|reflexivity].
  rewrite (proj2 (assoc_None _ _) Hpre). destruct (f name) eqn:E; [reflexivity|]. now apply assoc_None.
Qed.

Lemma sorted_keys_distinct dt (es : list (bytes * Z)) :
  sorted dt es -> Forall (fun e : bytes * Z => key_ok dt e.1) es -> NoDup (map fst es).
Proof.
  intros Hs Hk. induction es as [|e es IH]; [constructor|]. apply StronglySorted_inv in Hs as [Hs Hf].
  apply Forall_cons in Hk as [Hke Hk]. constructor; [|auto]. intros Hin. apply list_elem_of_fmap in Hin as (x & Ex & Hin).
  rewrite Forall_forall in Hf. specialize (Hf x Hin). simpl in Hf. rewrite <- Ex in Hf.
  assert (key_compare_typed dt e.1 e.1 = 0) by now apply typed_eq. lia.
Qed.

Lemma remove_count dt work size es es' name :
  tree_ok dt work size es' ->
  (forall k, assoc k es' = if decide (k = name) then None else assoc k es) -> zlen es <= 512 -> zlen es' <= 512.
Proof.
  intros [_ Hs Ho] Ha H512. assert (Hd : NoDup (map fst es')).
  { apply (sorted_keys_distinct dt es' Hs). apply (Forall_impl _ _ _ Ho). intros e [Hk _]. exact Hk. }
  assert (Hincl : incl (map fst es') (map fst es)).
  { intros k Hk%list_elem_of_In. apply list_elem_of_In. destruct (decide (k ∈ map fst es)) as [|Hn]; [assumption|].
    exfalso. apply assoc_None in Hn. specialize (Ha k). rewrite Hn in Ha. destruct (decide (k = name)); now apply assoc_None in Ha. }
  apply NoDup_ListNoDup in Hd. pose proof (NoDup_incl_length Hd Hincl) as Hl. rewrite !length_map in Hl. unfold zlen in *. lia.
Qed.



(** ** On concrete volumes *)

Module SampleEdit.
Definition fs : Fs Disk.disk := SampleDir.fs.
Definition writer : Writer Disk.disk := mkWriter fs (allocator_open new_allocator (vol fs)).2 [] [] [] [] [] 0 0.
Definition leaves : list (Z * list (bytes * Z)) := [(2048, SampleDir.leaf1); (3072, SampleDir.leaf2)].

Lemma edit_tree_at : tree_at (fun _ => True) fs 16 1024 4096 leaves.
Proof.
  destruct (SampleDir.two_leaves (aligned_node fs (stream_in fs 16) 1024 4096) SampleDir.leaf1 4096 kMaxName 1)
    as [Hc Ht]; [vm_compute; reflexivity..|lia|].
  assert (Hr : reached_runs fs (stream_in fs 16) = [mkRun 0 12 4]) by (vm_compute; reflexivity).
  assert (Hd : data_blocks (vol fs) [mkRun 0 12 4] = [12; 13; 14; 15]) by (vm_compute; reflexivity).
  split.
  - exact SampleDir.fs_okay.
  - split; [vm_compute; split; congruence|exact I].
  - split; [vm_compute; reflexivity|vm_compute; congruence].
  - split.
    + apply SampleDir.stream_okb_true. vm_compute. reflexivity.
    + change (written_runs (view fs) (vol fs) (stream_in fs 16)) with (reached_runs fs (stream_in fs 16)). rewrite Hr, Hd.
      repeat constructor; rewrite ?elem_of_cons, ?elem_of_nil; intuition lia.
    + replace (stream_arrays _ _ _) with (@nil Z) by (vm_compute; reflexivity). intros b Hb. now apply elem_of_nil in Hb.
    + discriminate.
  - rewrite Hr, Hd. rewrite ?elem_of_cons, ?elem_of_nil; intuition lia.
  - rewrite Hr. vm_compute. congruence.
  - vm_compute; congruence.
  - exists 1024. split; [|exact Ht]. split; [vm_compute; reflexivity..|split; [split|]; vm_compute; congruence].
  - exact Hc.
  - vm_compute. congruence.
Qed.

Lemma leaves_have_room pre off es post :
  leaves = pre ++ (off, es) :: post -> leaf_room 1024 es [100].
Proof.
  unfold leaves. destruct pre as [|a [|b [|c pre]]]; simpl; intros E; inversion E; subst; split; vm_compute; congruence.
Qed.

Lemma edit_key : key_ok kTreeStringType [100].
Proof. apply SampleDir.key_one. unfold byte_ok. lia. Qed.
End SampleEdit.



Module SampleTree.
Definition null : Z := 2 ^ 64 - 1.
(** A node of 64 bytes, which has room for three entries with one-byte keys. *)
Definition leaf_node (right_ : Z) (es : list (bytes * Z)) : bytes := build_node 64 true null right_ null es.
Definition inner_node (overflow : Z) (es : list (bytes * Z)) : bytes := build_node 64 false null null overflow es.
Definition header (root maximum : Z) : bytes :=
  tree_header_build (zeros 64) (mkTreeHeader 64 3 kTreeStringType root null maximum).

(** A root over two internal nodes, the first of them full, and six leaves, the
    second of them full. *)
Definition tree : bytes :=
  header 64 640 ++
  inner_node 192 [([40], 128)] ++
  inner_node 448 [([10], 256); ([20], 320); ([30], 384)] ++
  inner_node 576 [([60], 512)] ++
  leaf_node 320 [([5], 1); ([10], 2)] ++
  leaf_node 384 [([12], 3); ([16], 4); ([20], 5)] ++
  leaf_node 448 [([25], 6)] ++
  leaf_node 512 [([35], 7)] ++
  leaf_node 576 [([50], 8)] ++
  leaf_node null [([70], 9)].

(** The tree in blocks 11 and 12, its inode in block 10. *)
Definition blocks : list bytes := [slice (tree ++ zeros 2048) 0 1024; slice (tree ++ zeros 2048) 1024 1024].
Definition writer : Writer Disk.disk :=
  let fs := SampleDir.mounted 32 10 (SampleDir.inode_block 10 16384 11 2 :: blocks) in
  mkWriter fs (allocator_open new_allocator (vol fs)).2 [] [] [] [] [] 0 0.
End SampleTree.

Module SampleChain.
(** A root that is a leaf, joined to a second one, as the disk builder writes a
    directory bigger than a node. *)
Definition tree : bytes :=
  SampleTree.header 64 192 ++ SampleTree.leaf_node 128 [([5], 1)] ++ SampleTree.leaf_node SampleTree.null [([70], 9)].
Definition writer : Writer Disk.disk :=
  let fs := SampleDir.mounted 32 10 [SampleDir.inode_block 10 16384 11 1; slice (tree ++ zeros 1024) 0 1024] in
  mkWriter fs (allocator_open new_allocator (vol fs)).2 [] [] [] [] [] 0 0.
End SampleChain.

(** Names in the leaves after the first of such a directory are found, and
    cannot be removed: the edits follow no right link. *)
Lemma chained_leaf_not_removed :
  (dir_find (w_fs SampleChain.writer) (inode_view (view (w_fs SampleChain.writer) 10)) [70]).1 = Some 9 /\
  (tree_edit 8 SampleChain.writer 10 [70] 0 false).1 = Some false.
Proof. vm_compute. auto. Qed.

(** A split that reaches an internal node below the root damages the
    directory: [parent_] holds the lower node when the upper one is edited, so
    the root is rewritten from the lower node's entries.  The insertion reports
    success, and neither the new name nor three names of the leaf that split
    can be found any more. *)
Theorem deep_split_loses_names :
  let '(r, w) := tree_edit 8 SampleTree.writer 10 [14] 99 true in
  let find (fs : Fs Disk.disk) (k : Z) := (dir_find fs (inode_view (view fs 10)) [k]).1 in
  map (find (w_fs SampleTree.writer)) [12; 14; 16; 20] = [Some 3; None; Some 4; Some 5] /\
  r = Some false /\
  map (find (w_fs w)) [12; 14; 16; 20] = [None; None; None; None].
Proof. vm_compute. splits; reflexivity. Qed.
