(* ===== verification/WriterIndex.v ===== *)
(** The writer's indices (libs/freestanding/aegir-bfs, src/writer.cc): the
    descent to a key, a value added to a key and taken away from it through the
    key's duplicate nodes, and the standard indices that follow an inode. *)
From stdpp Require Import base numbers list list_numbers.
From Stdlib Require Import ZArith Lia Sorting.Sorted.
From S2P Require Import Prelude.
From S2P Require Import Layout.
From S2P Require Import Device.
From S2P Require Import Volume.
From S2P Require Import BlockStore.
From S2P Require Import Samples.
From S2P Require Import Journal.
From S2P Require Import Transaction.
From S2P Require Import Allocator.
From S2P Require Import BPlusTree.
From S2P Require Import Attribute.
From S2P Require Import Stream.
From S2P Require Import Directory.
From S2P Require Import WriterNode.
From S2P Require Import WriterStream.
From S2P Require Import WriterTrim.
From S2P Require Import WriterTree.

(** * The values of a key *)

(** Where value [i] of a duplicate node is. *)
Definition slot (i : Z) : Z := node.kOverflowLink + 8 + i * 8.

(** The first of [n] values from [i] that passes [test]: [i + n] when none does,
    [None] when one cannot be read. *)
Fixpoint value_point (n : nat) (test : Z -> bool) (node : bytes) (node_size i : Z) : option Z :=
  match n with
  | O => Some i
  | S n =>
    match duplicate_value node node_size i with
    | None => None
    | Some existing => if test existing then Some i else value_point n test node node_size (i + 1)
    end
  end.

(** [for (i = count; i > at; --i)]: [n] values up by one, from the last. *)
Fixpoint shift_up (n : nat) (node : bytes) (node_size i : Z) : bytes :=
  match n with
  | O => node
  | S n =>
    let existing := default 0 (duplicate_value node node_size (i - 1)) in
    shift_up n (put_le64 node (slot i) existing) node_size (i - 1)
  end.

(** [for (i = at; i + 1 < count; ++i)]: [n] values down by one. *)
Fixpoint shift_down (n : nat) (node : bytes) (node_size i : Z) : bytes :=
  match n with
  | O => node
  | S n =>
    let next := default 0 (duplicate_value node node_size (i + 1)) in
    shift_down n (put_le64 node (slot i) next) node_size (i + 1)
  end.

(** The node with [value] in its place among the values, and without the value
    at [at_]. *)
Definition insert_value (node : bytes) (node_size count at_ value : Z) : bytes :=
  let node := shift_up (Z.to_nat (count - at_)) node node_size count in
  put_le64 (put_le64 node (slot at_) value) node.kOverflowLink (count + 1).
Definition remove_value (node : bytes) (node_size count at_ : Z) : bytes :=
  put_le64 (shift_down (Z.to_nat (count - 1 - at_)) node node_size at_) node.kOverflowLink (count - 1).

(** The entry of a leaf whose key is [key]: its index and value, if any. *)
Fixpoint leaf_find (n : nat) (data_type : Z) (node : bytes) (node_size : Z) (key : bytes) (i : Z)
    : option (option (Z * Z)) :=
  match n with
  | O => Some None
  | S n =>
    match node_entry node node_size i with
    | None => None
    | Some (entry_key, entry_value) =>
      if key_compare_typed data_type key entry_key =? 0 then Some (Some (i, entry_value))
      else leaf_find n data_type node node_size key (i + 1)
    end
  end.

Section indices.
Context {D : Type} `{SectorDevice D} (fuel : nat).
Implicit Types w : Writer D.

(** The leaf, and the entry found in it. *)
Fixpoint w_index_descend (depth : nat) w (offset node_size : Z) (key : bytes)
    : option (Z * option (Z * Z)) * Writer D :=
  match depth with
  | O => (None, w)
  | S depth =>
    try node, w := w_node_read w offset node_size in
    match node_info node node_size with
    | None => (None, w)
    | Some info =>
      if ni_overflow info =? kNullLink then
        match leaf_find (Z.to_nat (ni_count info)) (tree_type_ w) node node_size key 0 with
        | None => (None, w)
        | Some found => (Some (offset, found), w)
        end
      else
        match follow (Z.to_nat (ni_count info)) (tree_type_ w) node node_size key 0 with
        | None => (None, w)
        | Some (_, child) => w_index_descend depth w child node_size key
        end
    end
  end.

(** The loop along a key's duplicate nodes.  The node read is in [node_], where
    [append_node] may leave a block of the stream's arrays. *)
Fixpoint add_to_chain (depth : nat) w (offset value node_size : Z) : option unit * Writer D :=
  match depth with
  | O => (None, w)
  | S depth =>
    try node, w := w_node_read w offset node_size in
    let w := fill_node w node in
    let count := duplicate_count node node_size in
    if count <? duplicate_capacity node_size then
      match value_point (Z.to_nat count) (fun existing => value <? existing) node node_size 0 with
      | None => (None, w)
      | Some at_ => w_node_write w offset node_size (insert_value node node_size count at_ value)
      end
    else
      let right_ := le64_signed node node.kRightLink in
      if right_ =? kNullLink then
        try fresh, w := append_node w (edit_parent_ w) node_size in
        try _, w := w_node_write w offset node_size (put_le64 (slice (node_ w) 0 node_size) node.kRightLink fresh) in
        w_node_write w fresh node_size (duplicate_build node_size offset (u64 kNullLink) [value])
      else if right_ =? kFreeLink then (None, w)
      else add_to_chain depth w (u64 right_) value node_size
  end.

Definition index_add_value w (leaf index old_value value node_size : Z) : option unit * Writer D :=
  if link_is_duplicate old_value then
    if negb (link_type old_value =? kDuplicateNode) then (None, w)
    else add_to_chain (Z.to_nat 4096) w (link_offset old_value) value node_size
  else
    try fresh, w := append_node w (edit_parent_ w) node_size in
    let values := if value <? old_value then [value; old_value] else [old_value; value] in
    try _, w := w_node_write w fresh node_size (duplicate_build node_size (u64 kNullLink) (u64 kNullLink) values) in
    try node, w := w_node_read w leaf node_size in
    match node_set_value node_size node index (make_link kDuplicateNode fresh) with
    | None => (None, w)
    | Some work => w_node_write w leaf node_size work
    end.

Definition free_tree_node w (offset node_size : Z) : option unit * Writer D :=
  try work, w := w_node_read w offset node_size in
  let work := put_le64 work node.kLeftLink (le64 (hdr_ w) tree_header.kFreeNode) in
  let work := put_le64 work node.kOverflowLink (u64 kFreeLink) in
  try _, w := w_node_write w offset node_size work in
  header_write (with_hdr w (put_le64 (hdr_ w) tree_header.kFreeNode offset)).

(** [node_read], [node_set_value] and [node_write] of the leaf's entry. *)
Definition set_leaf_value w (leaf index value node_size : Z) (node : bytes) : option unit * Writer D :=
  match node_set_value node_size node index value with
  | None => (None, w)
  | Some work => w_node_write w leaf node_size work
  end.

(** The empty node at [offset] taken out of its chain, and freed. *)
Definition unlink_node w (leaf index offset previous left_ right_ : Z) (key : bytes) (node_size : Z)
    : option unit * Writer D :=
  if left_ =? kNullLink then
    try node, w := w_node_read w leaf node_size in
    if right_ =? kNullLink then
      match node_remove node_size (tree_type_ w) node key with
      | None => (None, w)
      | Some (_, false) => (Some tt, w)
      | Some (work, true) => w_node_write w leaf node_size work
      end
    else
      try next, w := w_node_read w (u64 right_) node_size in
      try _, w := w_node_write w (u64 right_) node_size (put_le64 next node.kLeftLink (u64 kNullLink)) in
      try _, w := set_leaf_value w leaf index (make_link kDuplicateNode (u64 right_)) node_size node in
      free_tree_node w offset node_size
  else
    try before, w := w_node_read w previous node_size in
    try _, w := w_node_write w previous node_size (put_le64 before node.kRightLink (u64 right_)) in
    try _, w :=
      (if negb (right_ =? kNullLink) then
         try next, w := w_node_read w (u64 right_) node_size in
         w_node_write w (u64 right_) node_size (put_le64 next node.kLeftLink (u64 left_))
       else (Some tt, w)) in
    free_tree_node w offset node_size.

(** The loop along the chain; [*removed] stays set when a later step fails, but
    no caller looks at it then. *)
Fixpoint drop_from_chain (depth : nat) w (leaf index offset previous : Z) (key : bytes) (value node_size : Z)
    : option bool * Writer D :=
  match depth with
  | O => (None, w)
  | S depth =>
    try node, w := w_node_read w offset node_size in
    let count := duplicate_count node node_size in
    match value_point (Z.to_nat count) (fun existing => existing =? value) node node_size 0 with
    | None => (None, w)
    | Some at_ =>
      let left_ := le64_signed node node.kLeftLink in
      let right_ := le64_signed node node.kRightLink in
      if at_ =? count then
        if right_ =? kNullLink then (Some false, w)
        else drop_from_chain depth w leaf index (u64 right_) offset key value node_size
      else
        let node := remove_value node node_size count at_ in
        let left_count := count - 1 in
        try _, w :=
          (if (left_ =? kNullLink) && (right_ =? kNullLink) && (left_count =? 1) then
             let remaining := default 0 (duplicate_value node node_size 0) in
             try node, w := w_node_read w leaf node_size in
             try _, w := set_leaf_value w leaf index remaining node_size node in
             free_tree_node w offset node_size
           else if left_count =? 0 then unlink_node w leaf index offset previous left_ right_ key node_size
           else w_node_write w offset node_size node) in
        (Some true, w)
    end
  end.

Definition index_drop_value w (leaf index old_value : Z) (key : bytes) (value node_size : Z)
    : option bool * Writer D :=
  if negb (link_type old_value =? kDuplicateNode) then (None, w)
  else drop_from_chain (Z.to_nat 4096) w leaf index (link_offset old_value) (u64 kNullLink) key value node_size.

(** * A key's value added and removed *)

(** The header and the descent both start with. *)
Definition index_reach w (index_block : Z) (key : bytes) : option (Z * Z * Z * option (Z * Z)) * Writer D :=
  if (zlen key =? 0) || (kMaxKeyLength <? zlen key) then (None, w)
  else
    try (node_size, root, maximum), w := tree_header w index_block in
    if maximum <? u64 (root + node_size) then (None, w)
    else
      try (leaf, found), w := w_index_descend 32 (with_edit_parent w index_block) root node_size key in
      (Some (node_size, root, leaf, found), w).

Definition index_insert_blocks w (index_block : Z) (key : bytes) (value : Z) : option unit * Writer D :=
  try (node_size, root, leaf, found), w := index_reach w index_block key in
  match found with
  | None =>
    try split, w := insert_into fuel w root node_size key value in
    match split with
    | Some split => write_new_root w split node_size
    | None => (Some tt, w)
    end
  | Some (index, old_value) => index_add_value w leaf index old_value value node_size
  end.

(** [*removed]. *)
Definition index_remove_blocks w (index_block : Z) (key : bytes) (value : Z) : option bool * Writer D :=
  try (node_size, root, leaf, found), w := index_reach w index_block key in
  match found with
  | None => (Some false, w)
  | Some (index, old_value) =>
    if negb (link_is_duplicate old_value) then
      if negb (old_value =? value) then (Some false, w)
      else
        try node, w := w_node_read w leaf node_size in
        match node_remove node_size (tree_type_ w) node key with
        | None => (None, w)
        | Some (_, false) => (Some false, w)
        | Some (work, true) => try _, w := w_node_write w leaf node_size work in (Some true, w)
        end
    else index_drop_value w leaf index old_value key value node_size
  end.

(** * The standard indices *)

Definition w_index_inode w (index : bytes) : option Z * Writer D :=
  let '(r, fs) := index_inode (w_fs w) index in (r, with_fs w fs).

Definition index_add w (index key : bytes) (value : Z) : option unit * Writer D :=
  match w_index_inode w index with
  | (None, w) => (Some tt, w)
  | (Some block, w) => index_insert_blocks w block key value
  end.
Definition index_drop w (index key : bytes) (value : Z) : option unit * Writer D :=
  match w_index_inode w index with
  | (None, w) => (Some tt, w)
  | (Some block, w) => try _, w := index_remove_blocks w block key value in (Some tt, w)
  end.

(** ["name"], ["size"] and ["last_modified"]. *)
Definition name_index : bytes := [110; 97; 109; 101].
Definition size_index : bytes := [115; 105; 122; 101].
Definition time_index : bytes := [108; 97; 115; 116; 95; 109; 111; 100; 105; 102; 105; 101; 100].

(** The key of a size or a time. *)
Definition number_key (n : Z) : bytes := put_le64 (zeros 8) 0 (u64 n).

Definition index_on_create w (block : Z) (name : bytes) (mode size time : Z) : option unit * Writer D :=
  try _, w := (if is_regular_node mode then index_add w name_index name block else (Some tt, w)) in
  if is_indexed_file mode then
    try _, w := index_add w size_index (number_key size) block in
    index_add w time_index (number_key time) block
  else (Some tt, w).

Definition index_on_remove w (block : Z) (name : bytes) (mode size time : Z) : option unit * Writer D :=
  try _, w := (if is_regular_node mode then index_drop w name_index name block else (Some tt, w)) in
  if is_indexed_file mode then
    try _, w := index_drop w size_index (number_key size) block in
    index_drop w time_index (number_key time) block
  else (Some tt, w).

Definition index_on_rename w (block : Z) (from to : bytes) : option unit * Writer D :=
  try _, w := index_drop w name_index from block in
  index_add w name_index to block.

Definition index_on_resize w (block mode old_size new_size : Z) : option unit * Writer D :=
  if (old_size =? new_size) || negb (is_indexed_file mode) then (Some tt, w)
  else
    try _, w := index_drop w size_index (number_key old_size) block in
    index_add w size_index (number_key new_size) block.

Definition index_on_time w (block mode old_time new_time : Z) : option unit * Writer D :=
  if (old_time =? new_time) || negb (is_indexed_file mode) then (Some tt, w)
  else
    try _, w := index_drop w time_index (number_key old_time) block in
    index_add w time_index (number_key new_time) block.
End indices.

(** * Duplicate nodes, edited *)

(** A duplicate node of [size] bytes with the values [vs]. *)
Record dup_rep (node : bytes) (size : Z) (vs : list Z) : Prop := {
  dr_size : node.kFixed <= size <= kMaxBlockSize;
  dr_len : zlen node = size;
  dr_bytes : bytes_ok node;
  dr_count : le64 node node.kOverflowLink = zlen vs;
  dr_room : zlen vs <= duplicate_capacity size;
  dr_values : forall i x, vs !! i = Some x -> le64 node (slot (Z.of_nat i)) = x;
}.

Lemma capacity_bound size i :
  node.kFixed <= size -> 0 <= i < duplicate_capacity size -> 0 <= slot i /\ 24 <= slot i /\ slot i + 8 <= size /\ i < 125.
Proof.
  unfold duplicate_capacity, slot, node.kFixed, node.kOverflowLink, kNumDuplicateValues. intros Hs Hi.
  destruct (_ <=? _) eqn:E1 in Hi; breflect; [lia|]. destruct (_ <? _) eqn:E2 in Hi; breflect; zlia.
Qed.

Lemma put_slot node i x a :
  0 <= slot i -> 0 <= a -> a + 8 <= slot i \/ slot i + 8 <= a -> le64 (put_le64 node (slot i) x) a = le64 node a.
Proof. intros. rewrite put_le64_blit by lia. apply le64_blit_disj; rewrite ?zlen_le_split; lia. Qed.

(** The words of a node: a store changes one. *)
Lemma put_slot_at node size i j x :
  node.kFixed <= size -> zlen node = size -> 0 <= i < duplicate_capacity size -> 0 <= j -> 0 <= x < 2 ^ 64 ->
  le64 (put_le64 node (slot i) x) (slot j) = if decide (j = i) then x else le64 node (slot j).
Proof.
  intros Hs Hl Hi Hj Hx. destruct (capacity_bound size i Hs Hi) as (H1 & _ & H3 & _). case_decide as E.
  - subst j. rewrite le64_put by lia. now apply u64_small.
  - apply put_slot; unfold slot in *; unfold node.kOverflowLink in *; lia.
Qed.

Lemma count_ext node node' size :
  le64 node' node.kOverflowLink = le64 node node.kOverflowLink -> duplicate_count node' size = duplicate_count node size.
Proof. intros E. unfold duplicate_count, le64_signed. now rewrite E. Qed.

Lemma capacity_small size : duplicate_capacity size <= 125.
Proof.
  unfold duplicate_capacity, kNumDuplicateValues. destruct (_ <=? _); [lia|].
  destruct (_ <? _) eqn:E; breflect; [|lia]. apply Z.lt_le_incl, E.
Qed.

Lemma rep_dup_count node size vs : dup_rep node size vs -> duplicate_count node size = zlen vs.
Proof.
  intros [_ _ _ Hc Hr _]. pose proof (capacity_small size). pose proof (zlen_nonneg vs).
  unfold duplicate_count, le64_signed, signed. rewrite Hc. rewrite (proj2 (Z.ltb_lt (zlen vs) (2 ^ (64 - 1)))) by lia.
  rewrite u32_small by lia. zcase; lia.
Qed.

Lemma rep_dup_value node size vs (i : nat) : dup_rep node size vs -> duplicate_value node size (Z.of_nat i) = vs !! i.
Proof.
  intros Hr. unfold duplicate_value. rewrite (rep_dup_count node size vs Hr). destruct (vs !! i) as [x|] eqn:E.
  - pose proof (lookup_lt_Some _ _ _ E). rewrite (proj2 (Z.leb_gt _ _)) by (unfold zlen; lia).
    f_equal. exact (dr_values _ _ _ Hr i x E).
  - apply lookup_ge_None in E. now rewrite (proj2 (Z.leb_le _ _)) by (unfold zlen; lia).
Qed.

(** A node whose values moved: the same length and bytes below the values. *)
Record moved (node node' : bytes) : Prop := {
  mv_len : zlen node' = zlen node;
  mv_bytes : bytes_ok node';
  mv_head : forall a, 0 <= a -> a + 8 <= slot 0 -> le64 node' a = le64 node a;
}.

Lemma moved_put node size i x :
  node.kFixed <= size -> zlen node = size -> bytes_ok node -> 0 <= i < duplicate_capacity size ->
  moved node (put_le64 node (slot i) x).
Proof.
  intros Hs Hl Hb Hi. destruct (capacity_bound size i Hs Hi) as (H1 & H2 & H3 & _).
  split; [apply zlen_put64|auto with buf|]. intros a Ha Ha'. apply put_slot; auto.
  left. unfold slot, node.kOverflowLink in *. lia.
Qed.

Lemma moved_trans a b c : moved a b -> moved b c -> moved a c.
Proof.
  intros [A1 A2 A3] [B1 B2 B3]. split; [congruence|auto|]. intros o Ho Ho'. rewrite B3 by auto. now apply A3.
Qed.

Lemma moved_count node node' size : moved node node' -> duplicate_count node' size = duplicate_count node size.
Proof. intros [_ _ Hh]. apply count_ext, Hh; unfold slot, node.kOverflowLink; lia. Qed.

Section shifting.
Context (size count : Z) (Hs : node.kFixed <= size) (Hcap : count <= duplicate_capacity size).

Lemma counted_value node i :
  duplicate_count node size = count -> i < count -> default 0 (duplicate_value node size i) = le64 node (slot i).
Proof. intros Hc Hi. unfold duplicate_value. now rewrite Hc, (proj2 (Z.leb_gt _ _)) by lia. Qed.

Lemma shift_up_spec n : forall node i,
  zlen node = size -> bytes_ok node -> duplicate_count node size = count ->
  i <= count -> i < duplicate_capacity size -> 0 <= i - Z.of_nat n ->
  moved node (shift_up n node size i) /\
  forall j, 0 <= j -> le64 (shift_up n node size i) (slot j) =
    if decide (i - Z.of_nat n < j <= i) then le64 node (slot (j - 1)) else le64 node (slot j).
Proof.
  induction n as [|n IH]; intros node i Hl Hb Hc Hi Hi' Hn; cbn [shift_up].
  - split; [now split|]. intros j Hj. rewrite decide_False by lia. reflexivity.
  - rewrite counted_value by (auto; lia). set (x := le64 node (slot (i - 1))).
    pose proof (moved_put node size i x Hs Hl Hb ltac:(lia)) as Hm. destruct Hm as [M1 M2 M3] eqn:EM. clear EM.
    assert (Hx : 0 <= x < 2 ^ 64) by (apply le64_range; [auto|unfold slot, node.kOverflowLink; lia]).
    destruct (IH (put_le64 node (slot i) x) (i - 1)) as [H1 H2]; [lia|auto| |lia..|].
    { rewrite <- Hc. now apply moved_count. }
    split; [now apply (moved_trans _ (put_le64 node (slot i) x))|].
    intros j Hj. rewrite H2 by lia. repeat case_decide; try lia; rewrite !(put_slot_at node size) by (auto; lia);
      repeat case_decide; try lia; try reflexivity. subst j. reflexivity.
Qed.

Lemma shift_down_spec n : forall node i,
  zlen node = size -> bytes_ok node -> duplicate_count node size = count ->
  0 <= i -> i + Z.of_nat n < count ->
  moved node (shift_down n node size i) /\
  forall j, 0 <= j -> le64 (shift_down n node size i) (slot j) =
    if decide (i <= j < i + Z.of_nat n) then le64 node (slot (j + 1)) else le64 node (slot j).
Proof.
  induction n as [|n IH]; intros node i Hl Hb Hc Hi Hn; cbn [shift_down].
  - split; [now split|]. intros j Hj. rewrite decide_False by lia. reflexivity.
  - rewrite counted_value by (auto; lia). set (x := le64 node (slot (i + 1))).
    pose proof (moved_put node size i x Hs Hl Hb ltac:(lia)) as Hm. pose proof Hm as [M1 M2 M3].
    assert (Hx : 0 <= x < 2 ^ 64) by (apply le64_range; [auto|unfold slot, node.kOverflowLink; lia]).
    destruct (IH (put_le64 node (slot i) x) (i + 1)) as [H1 H2]; [lia|auto| |lia..|].
    { rewrite <- Hc. now apply moved_count. }
    split; [now apply (moved_trans _ (put_le64 node (slot i) x))|].
    intros j Hj. rewrite H2 by lia. repeat case_decide; try lia; rewrite !(put_slot_at node size) by (auto; lia);
      repeat case_decide; try lia; try reflexivity. subst j. reflexivity.
Qed.
End shifting.

Lemma value_point_spec node size vs test : dup_rep node size vs -> forall b a,
  vs = a ++ b ->
  exists c d, b = c ++ d /\ value_point (length b) test node size (zlen a) = Some (zlen (a ++ c)) /\
    Forall (fun x => test x = false) c /\ match d with [] => True | x :: _ => test x = true end.
Proof.
  intros Hr. induction b as [|x b IH]; intros a Hv; cbn [value_point length].
  - exists [], []. splits; auto. now rewrite app_nil_r.
  - assert (Hx : vs !! length a = Some x) by (rewrite Hv, lookup_app_r, Nat.sub_diag by lia; reflexivity).
    unfold zlen at 1. rewrite (rep_dup_value node size vs _ Hr), Hx. destruct (test x) eqn:Et.
    + exists [], (x :: b). splits; auto. now rewrite app_nil_r.
    + destruct (IH (a ++ [x])) as (c & d & -> & Hp & Hc & Hd); [now rewrite <- app_assoc|].
      exists (x :: c), d. splits; auto. rewrite <- app_assoc in Hp. cbn [app] in Hp. rewrite <- Hp.
      f_equal. unfold zlen. rewrite length_app. simpl. lia.
Qed.

Definition same_ends (node node' : bytes) : Prop :=
  le64 node' node.kLeftLink = le64 node node.kLeftLink /\ le64 node' node.kRightLink = le64 node node.kRightLink.

(** A node after its values moved and its count was set. *)
Lemma counted_rep node node' size vs vs' :
  dup_rep node size vs -> moved node node' -> zlen vs' <= duplicate_capacity size ->
  (forall i x, vs' !! i = Some x -> le64 node' (slot (Z.of_nat i)) = x) ->
  dup_rep (put_le64 node' node.kOverflowLink (zlen vs')) size vs' /\
  same_ends node (put_le64 node' node.kOverflowLink (zlen vs')).
Proof.
  intros [Hs Hl Hb Hc Hr Hv] [M1 M2 M3] Hcap Hv'. pose proof (capacity_small size). pose proof (zlen_nonneg vs').
  unfold node.kFixed in Hs.
  assert (Hput : forall a, 0 <= a -> a + 8 <= 16 \/ 24 <= a -> le64 (put_le64 node' 16 (zlen vs')) a = le64 node' a).
  { intros a Ha Ho. rewrite put_le64_blit by lia. apply le64_blit_disj; rewrite ?zlen_le_split; lia. }
  unfold node.kOverflowLink in *. split.
  - split; auto; [rewrite zlen_put64; lia|apply bytes_ok_put64; [lia|auto]| |].
    + unfold node.kOverflowLink. rewrite le64_put by lia. apply u64_small. lia.
    + intros i x Hi. rewrite Hput; [now apply Hv'|unfold slot, node.kOverflowLink; lia..].
  - unfold same_ends, node.kLeftLink, node.kRightLink. rewrite !Hput, !M3 by (unfold slot, node.kOverflowLink; lia). auto.
Qed.

Lemma insert_value_rep node size a b value :
  dup_rep node size (a ++ b) -> zlen (a ++ b) < duplicate_capacity size -> 0 <= value < 2 ^ 64 ->
  let node' := insert_value node size (zlen (a ++ b)) (zlen a) value in
  dup_rep node' size (a ++ value :: b) /\ same_ends node node'.
Proof.
  intros Hr Hroom Hx node'. pose proof (zlen_nonneg a). pose proof (zlen_nonneg b).
  assert (Hab : zlen (a ++ b) = zlen a + zlen b) by (unfold zlen; rewrite length_app; lia).
  destruct (shift_up_spec size (zlen (a ++ b)) (proj1 (dr_size _ _ _ Hr)) (Z.to_nat (zlen (a ++ b) - zlen a))
    node (zlen (a ++ b)) (dr_len _ _ _ Hr) (dr_bytes _ _ _ Hr) (rep_dup_count _ _ _ Hr)) as [Hm Hw]; [lia..|].
  unfold node', insert_value. set (up := shift_up _ _ _ _) in *. pose proof Hm as [M1 M2 _].
  assert (Hl' : zlen up = size) by (rewrite M1; apply Hr).
  pose proof (moved_put up size (zlen a) value (proj1 (dr_size _ _ _ Hr)) Hl' M2 ltac:(lia)) as Hm'.
  replace (zlen (a ++ b) + 1) with (zlen (a ++ value :: b)) by (unfold zlen in *; rewrite !length_app in *; simpl; lia).
  apply (counted_rep node _ size (a ++ b)); auto.
  - exact (moved_trans _ _ _ Hm Hm').
  - unfold zlen in *. rewrite !length_app in *. simpl. lia.
  - intros i x Hi. rewrite (put_slot_at up size) by (try lia; apply Hr). unfold zlen in *. case_decide as E.
    + assert (i = length a) as -> by lia. rewrite lookup_app_r, Nat.sub_diag in Hi by lia. now injection Hi.
    + rewrite Hw by lia. destruct (decide (i < length a)%nat) as [Hlt|Hge].
      * rewrite decide_False by lia. apply (dr_values _ _ _ Hr). rewrite lookup_app_l in Hi |- * by lia. exact Hi.
      * rewrite lookup_app_r in Hi by lia. destruct (i - length a)%nat as [|k] eqn:Ek; [lia|]. cbn [lookup] in Hi.
        pose proof (lookup_lt_Some b k x Hi) as Hk. rewrite decide_True by (rewrite length_app in *; lia).
        replace (Z.of_nat i - 1) with (Z.of_nat (length a + k)) by lia. apply (dr_values _ _ _ Hr).
        rewrite lookup_app_r by lia. now replace (length a + k - length a)%nat with k by lia.
Qed.

Lemma remove_value_rep node size a y b :
  dup_rep node size (a ++ y :: b) ->
  let node' := remove_value node size (zlen (a ++ y :: b)) (zlen a) in
  dup_rep node' size (a ++ b) /\ same_ends node node'.
Proof.
  intros Hr node'. pose proof (zlen_nonneg a). pose proof (zlen_nonneg b). pose proof (dr_room _ _ _ Hr) as Hroom.
  assert (Hab : zlen (a ++ y :: b) = zlen a + zlen b + 1) by (unfold zlen; rewrite length_app; simpl; lia).
  destruct (shift_down_spec size (zlen (a ++ y :: b)) (proj1 (dr_size _ _ _ Hr)) Hroom (Z.to_nat (zlen (a ++ y :: b) - 1 - zlen a))
    node (zlen a) (dr_len _ _ _ Hr) (dr_bytes _ _ _ Hr) (rep_dup_count _ _ _ Hr)) as [Hm Hw]; [lia..|].
  unfold node', remove_value. set (down := shift_down _ _ _ _) in *.
  replace (zlen (a ++ y :: b) - 1) with (zlen (a ++ b)) by (unfold zlen in *; rewrite !length_app in *; simpl in *; lia).
  apply (counted_rep node _ size (a ++ y :: b)); auto.
  - unfold zlen in *. rewrite !length_app in *. simpl in *. lia.
  - intros i x Hi. pose proof (lookup_lt_Some _ _ _ Hi) as Hlen. rewrite Hw by lia. unfold zlen in *. rewrite length_app in *.
    destruct (decide (i < length a)%nat) as [Hlt|Hge].
    + rewrite decide_False by lia. apply (dr_values _ _ _ Hr). rewrite lookup_app_l in Hi |- * by lia. exact Hi.
    + rewrite decide_True by lia. replace (Z.of_nat i + 1) with (Z.of_nat (S i)) by lia. apply (dr_values _ _ _ Hr).
      rewrite lookup_app_r in Hi |- * by lia. now replace (S i - length a)%nat with (S (i - length a)) by lia.
Qed.

Lemma sorted_put (a b : list Z) (x : Z) :
  StronglySorted Z.le (a ++ b) -> Forall (fun y => (x <? y) = false) a ->
  match b with [] => True | y :: _ => (x <? y) = true end -> StronglySorted Z.le (a ++ x :: b).
Proof.
  induction a as [|y a IH]; simpl; intros Hs Ha Hb.
  - constructor; [exact Hs|]. destruct b as [|y b]; [constructor|]. apply Z.ltb_lt in Hb.
    apply StronglySorted_inv in Hs as [_ Hf]. constructor; [lia|]. apply (Forall_impl _ _ _ Hf). lia.
  - apply StronglySorted_inv in Hs as [Hs Hf]. apply Forall_cons in Ha as [Hy Ha]. apply Z.ltb_ge in Hy.
    constructor; [now apply IH|]. rewrite Forall_app in Hf |- *. destruct Hf as [Hf1 Hf2]. auto.
Qed.

(** C12: Edits of the duplicate node of an index key that holds the values
    [vs], in this order.  A new value, where the node has room, is put before
    the first greater one and the others keep their places on both sides of it,
    so that ascending values stay ascending.  Any value of the node is found at
    its first place, and taking it out leaves all the others in their order; one
    that is not there is reported by the count.  Neither edit changes the links
    of the node's chain. *)
Theorem duplicate_edit_spec (node : bytes) (size : Z) (vs : list Z) (value : Z) :
  dup_rep node size vs ->
  (zlen vs < duplicate_capacity size -> 0 <= value < 2 ^ 64 ->
   exists a b, vs = a ++ b /\ Forall (fun x => x <= value) a /\ match b with [] => True | y :: _ => value < y end /\
     value_point (length vs) (fun existing => value <? existing) node size 0 = Some (zlen a) /\
     let node' := insert_value node size (duplicate_count node size) (zlen a) value in
     dup_rep node' size (a ++ value :: b) /\ same_ends node node' /\
     (StronglySorted Z.le vs -> StronglySorted Z.le (a ++ value :: b))) /\
  (value ∈ vs ->
   exists a b, vs = a ++ value :: b /\ value ∉ a /\
     value_point (length vs) (fun existing => existing =? value) node size 0 = Some (zlen a) /\
     let node' := remove_value node size (duplicate_count node size) (zlen a) in
     dup_rep node' size (a ++ b) /\ same_ends node node') /\
  (value ∉ vs -> value_point (length vs) (fun existing => existing =? value) node size 0 = Some (duplicate_count node size)).
Proof.
  intros Hr. splits.
  - intros Hroom Hx.
    destruct (value_point_spec node size vs (fun existing => value <? existing) Hr vs [] eq_refl) as (a & b & -> & Hp & Ha & Hb).
    exists a, b. rewrite (rep_dup_count _ _ _ Hr). destruct (insert_value_rep node size a b value Hr Hroom Hx) as [Hr' Hl'].
    splits; auto; [apply (Forall_impl _ _ _ Ha); intros y Hy; now apply Z.ltb_ge|destruct b; [auto|now apply Z.ltb_lt]|].
    cbv zeta. splits; auto. intros Hs. now apply sorted_put.
  - intros Hin. destruct (value_point_spec node size vs (fun existing => existing =? value) Hr vs [] eq_refl) as (a & b & -> & Hp & Ha & Hb).
    assert (Hna : value ∉ a).
    { intros Hy. rewrite Forall_forall in Ha. specialize (Ha value Hy). now rewrite Z.eqb_refl in Ha. }
    destruct b as [|y b]; [rewrite app_nil_r in Hin; tauto|]. apply Z.eqb_eq in Hb. subst y.
    exists a, b. rewrite (rep_dup_count _ _ _ Hr). destruct (remove_value_rep node size a value b Hr) as [Hr' Hl']. splits; auto.
  - intros Hn. destruct (value_point_spec node size vs (fun existing => existing =? value) Hr vs [] eq_refl) as (a & b & -> & Hp & Ha & Hb).
    rewrite (rep_dup_count _ _ _ Hr). destruct b as [|y b]; [now rewrite !app_nil_r in *|]. exfalso. apply Hn.
    apply Z.eqb_eq in Hb. subst y. apply elem_of_app. right. constructor.
Qed.

Lemma sample_dup_rep : dup_rep (duplicate_build 1024 0 0 [3; 7]) 1024 [3; 7].
Proof.
  split; [split; vm_compute; congruence|vm_compute; reflexivity|apply bytes_okb_true; vm_compute; reflexivity
    |vm_compute; reflexivity|vm_compute; congruence|].
  intros [|[|[|i]]] x Hx; simplify_eq/=; vm_compute; reflexivity.
Qed.

Lemma duplicate_edit_spec_witness :
  (exists a b, [3; 7] = a ++ b /\ dup_rep (insert_value (duplicate_build 1024 0 0 [3; 7]) 1024 2 1 5) 1024 (a ++ 5 :: b) /\
     StronglySorted Z.le (a ++ 5 :: b)) /\
  dup_rep (remove_value (duplicate_build 1024 0 0 [3; 7]) 1024 2 0) 1024 [7].
Proof.
  assert (Hc : duplicate_count (duplicate_build 1024 0 0 [3; 7]) 1024 = 2) by (vm_compute; reflexivity). split.
  - destruct (duplicate_edit_spec (duplicate_build 1024 0 0 [3; 7]) 1024 [3; 7] 5 sample_dup_rep) as (Hi & _ & _).
    destruct Hi as (a & b & E & _ & _ & Hp & Hr & _ & Hs); [vm_compute; reflexivity|lia|].
    assert (Ha : Some (zlen a) = Some 1) by (rewrite <- Hp; vm_compute; reflexivity). injection Ha as Ha. rewrite Hc, Ha in Hr. exists a, b. splits; auto.
    apply Hs. repeat constructor; lia.
  - destruct (duplicate_edit_spec (duplicate_build 1024 0 0 [3; 7]) 1024 [3; 7] 3 sample_dup_rep) as (_ & Hd & _).
    destruct Hd as (a & b & E & _ & Hp & Hr & _); [constructor|]. rewrite Hc in Hr.
    assert (Ha : Some (zlen a) = Some 0) by (rewrite <- Hp; vm_compute; reflexivity). injection Ha as Ha. rewrite Ha in Hr. apply zlen_0 in Ha. subst a.
    injection E as <-. exact Hr.
Defined.

(** * On a concrete volume *)

Module SampleIndex.
Import SampleDir.
(** An index in twelve direct blocks and one under an indirect array: the
    header, a leaf whose one key has a duplicate node, and that node, full. *)
Definition values : list Z := map (fun i => 1000 + Z.of_nat i) (seq 0 125).
Definition stream : bytes :=
  put_run (fold_left (fun s i => put_run s (i * 8) (mkRun 0 (64 + 2 * i) 1)) (seqZ 0 12) (zeros data.kBytes))
    data.kIndirect (mkRun 0 88 1).
Definition inode : bytes :=
  inode_set_stream (inode_build 1024 (mkRun 0 62 1) (mkRun 0 0 0) (Z.lor kModeIndexDir kModeDirectory) 0 0 0 [120])
    stream (13 * 1024) 0.
Definition disk : Disk.disk :=
  let d := Sample.put_block (Sample.disk (Sample.super 128 7 1 32 0) 128 None) 1 (replicate 12 255 ++ zeros 1012) in
  let d := Sample.put_block (Sample.put_block d 62 inode) 64 (header 0 (13 * 1024)) in
  let d := Sample.put_block d 66 (node_of null null [([107], make_link kDuplicateNode 2048)]) in
  let d := Sample.put_block d 68 (duplicate_build 1024 null null values) in
  Sample.put_block d 88 (put_run (zeros 1024) 0 (mkRun 0 90 1)).
Definition writer : Writer Disk.disk :=
  let fs := (mount disk).2 in mkWriter fs (allocator_open new_allocator (vol fs)).2 [] [] [] [] (zeros kMaxBlockSize) 0 0.

(** The first inodes under the key. *)
Definition first (w : Writer Disk.disk) (n : nat) : list (option Z) :=
  map (fun i => (index_walk (w_fs w) 62 [107] (Z.of_nat i)).1.1) (seq 0 n).
End SampleIndex.

(** Adding a value to a key whose last duplicate node is full destroys that
    node when the index's stream has an indirect array: [append_node] reads the
    array into [node_], which is then written over the node.  The insertion
    reports success; the 125 values that were under the key are gone. *)
Theorem full_chain_overwritten :
  let '(r, w) := index_insert_blocks 8 SampleIndex.writer 62 [107] 5 in
  SampleIndex.first SampleIndex.writer 3 = [Some 1000; Some 1001; Some 1002] /\
  r = Some tt /\ SampleIndex.first w 3 = [Some 5; None; None].
Proof. vm_compute. splits; reflexivity. Qed.
