(* ===== verification/WriterFile.v ===== *)
(** The writer's operations (libs/freestanding/aegir-bfs, src/writer.cc): files
    and directories made, written, cut, renamed and removed, and attributes
    written and removed, each one transaction. *)
From stdpp Require Import base numbers list list_numbers.
From Stdlib Require Import ZArith Lia Sorting.Sorted.
From S2P Require Import Prelude.
From S2P Require Import Layout.
From S2P Require Import Device.
From S2P Require Import Volume.
From S2P Require Import BlockStore.
From S2P Require Import Samples.
From S2P Require Import Journal.
From S2P Require Import Transaction.
From S2P Require Import Recovery.
From S2P Require Import Allocator.
From S2P Require Import BPlusTree.
From S2P Require Import Attribute.
From S2P Require Import Stream.
From S2P Require Import Directory.
From S2P Require Import WriterNode.
From S2P Require Import WriterStream.
From S2P Require Import WriterTrim.
From S2P Require Import WriterTree.
From S2P Require Import WriterIndex.

(** ["BEOS:APP_SIG"] *)
Definition kAppSigIndex : bytes := [66; 69; 79; 83; 58; 65; 80; 80; 95; 83; 73; 71].
Definition is_app_sig (name : bytes) : bool := name_equals name kAppSigIndex.
Definition kMaxIndexKey : Z := 255.

Section operations.
Context {D : Type} `{SectorDevice D} (fuel : nat).
Implicit Types w : Writer D.

(** * A transaction around each operation *)

(** [Writer::open], for a volume opened with [open]. *)
Definition writer_open w : bool * Writer D :=
  let v := vol (w_fs w) in
  if negb (valid_ v) || negb (write_ v) then (false, w)
  else
    let '(ok, a) := allocator_open (w_al w) v in
    let w := with_al w a in
    if negb ok then (false, w)
    else
      let '(ok, fs) := journal_open (w_fs w) in
      if negb ok then (false, with_fs w fs)
      else let '(ok, fs) := replay fs in (ok, with_fs w fs).

Definition give_back w : Writer D := with_al (with_fs w (abort (w_fs w))) (drop_discards (w_al w)).

Definition finish {A} (res : option A * Writer D) : option A * Writer D :=
  let '(r, w) := res in
  match r with
  | None => (None, give_back w)
  | Some a =>
    let '(ok, fs) := commit (w_fs w) in
    let w := with_fs w fs in
    if negb ok then (None, give_back w)
    else let '(al, fs) := flush_discards (w_al w) (w_fs w) in (Some a, with_al (with_fs w fs) al)
  end.

(** [if (active()) return false; begin(); return finish(body)] *)
Definition transact {A} (body : Writer D -> option A * Writer D) w : option A * Writer D :=
  if active_ (jnl (w_fs w)) then (None, w)
  else finish (body (with_fs w (begin (w_fs w)))).

(** [(void)allocator_.free(run)] *)
Definition w_discard w (run : Run) : Writer D := (w_free w run).2.

(** [return false] after giving back what was allocated. *)
Definition refuse {A} w (runs : list Run) : option A * Writer D := (None, fold_left w_discard runs w).

(** * Making *)

(** The run for a fresh tree's two nodes; a shorter one is freed, and then
    [inode_run]. *)
Definition allocate_tree w (inode_run : Run) : option Run * Writer D :=
  let tree_blocks := blocks_for (kTreeNodeSize * 2) (w_block_size w) in
  match w_allocate w tree_blocks tree_blocks with
  | (None, w) => refuse w [inode_run]
  | (Some tree_run, w) =>
    if run_length tree_run <? tree_blocks
    then refuse w (if negb (run_length tree_run =? 0) then [tree_run; inode_run] else [inode_run])
    else (Some tree_run, w)
  end.

(** The stream of a fresh tree. *)
Definition tree_stream (tree_run : Run) : bytes :=
  put_le64 (put_run (zeros data.kBytes) data.kDirect tree_run) data.kMaxDirectRange (kTreeNodeSize * 2).

Definition create_blocks w (parent_block : Z) (name : bytes) (mode uid gid time : Z) : option Z * Writer D :=
  if (zlen name =? 0) || (kMaxName <? zlen name) then (None, w)
  else
    try parent, w := read_inode_block w parent_block in
    let parent_run := le_run parent inode.kInodeNum in
    try inode_run, w := w_allocate w 1 1 in
    let block := w_to_block w inode_run in
    let directory := mode_is_directory mode in
    let mode := if directory then Z.lor mode kModeStrIndex else mode in
    try tree, w :=
      (if directory then try tree_run, w := allocate_tree w inode_run in (Some [tree_run], w)
       else (Some [], w)) in
    let runs := tree ++ [inode_run] in
    let inode := inode_build (w_block_size w) inode_run parent_run mode uid gid time name in
    let inode :=
      match tree with
      | tree_run :: _ => inode_set_stream inode (tree_stream tree_run) (kTreeNodeSize * 2) time
      | [] => inode
      end in
    match w_write_block w block inode with
    | (None, w) => refuse w runs
    | (Some _, w) =>
      match (match tree with
             | tree_run :: _ =>
               w_write_stream w (tree_stream tree_run) 0 (build_dir_tree block (w_to_block w parent_run)) (kTreeNodeSize * 2)
             | [] => (Some tt, w)
             end) with
      | (None, w) => refuse w runs
      | (Some _, w) =>
        match tree_edit fuel w parent_block name block true with
        | (None, w) | (Some true, w) => refuse w runs
        | (Some false, w) =>
          try _, w := index_on_create fuel w block name mode 0 time in (Some block, w)
        end
      end
    end.

Definition create w (parent_block : Z) (name : bytes) (mode uid gid time : Z) : option Z * Writer D :=
  transact (fun w => create_blocks w parent_block name mode uid gid time) w.

(** * Owner and mode *)

Definition set_owner_mode_blocks w (inode_block uid gid mode : Z) : option unit * Writer D :=
  try inode, w := read_inode_block w inode_block in
  w_write_block w inode_block (inode_set_mode (inode_set_owner inode uid gid) mode).

Definition set_owner_mode w (inode_block uid gid mode : Z) : option unit * Writer D :=
  transact (fun w => set_owner_mode_blocks w inode_block uid gid mode) w.

(** * Writing and cutting *)

(** The indices after the inode's size and time changed. *)
Definition index_changes w (inode_block mode old_size new_size old_time time : Z) : option unit * Writer D :=
  try _, w := index_on_resize fuel w inode_block mode old_size new_size in
  index_on_time fuel w inode_block mode old_time time.

Definition write_blocks w (inode_block offset : Z) (src : bytes) (time : Z) : option unit * Writer D :=
  let length := zlen src in
  try inode, w := read_inode_block w inode_block in
  let stream := inode_get_stream inode in
  let mode := inode_mode inode in
  let old_size := u64 (inode_size inode) in
  let old_time := inode_mtime inode in
  let new_size := u64 (offset + length) in
  let new_size := if new_size <? old_size then old_size else new_size in
  let needed := u64 (u64 (offset + length) + w_block_size w - 1) / w_block_size w in
  let '(covered, w) := stream_blocks w stream in
  try (stream, _), w := (if covered <? needed then grow_to w stream needed covered else (Some (stream, covered), w)) in
  try _, w := (if old_size <? offset then zero_stream w stream old_size offset else (Some tt, w)) in
  let '(ok, fs) := write_stream_direct (w_fs w) stream offset src length in
  let w := with_fs w fs in
  if negb ok then (None, w)
  else
    try _, w := w_write_block w inode_block (inode_set_stream inode stream (signed 64 new_size) time) in
    index_changes w inode_block mode (signed 64 old_size) (signed 64 new_size) old_time time.

Definition write w (inode_block offset : Z) (src : bytes) (time : Z) : option unit * Writer D :=
  transact (fun w => write_blocks w inode_block offset src time) w.

Definition truncate_blocks w (inode_block size time : Z) : option unit * Writer D :=
  try inode, w := read_inode_block w inode_block in
  let stream := inode_get_stream inode in
  let mode := inode_mode inode in
  let old_size := u64 (inode_size inode) in
  let old_time := inode_mtime inode in
  let new_blocks := u64 (size + w_block_size w - 1) / w_block_size w in
  let '(covered, w) := stream_blocks w stream in
  try stream, w := (if new_blocks <? covered then trim_stream w stream new_blocks else (Some stream, w)) in
  try _, w :=
    (if old_size <? size then
       let '(covered, w) := stream_blocks w stream in
       let covered_bytes := u64 (covered * w_block_size w) in
       let hi := if size <? covered_bytes then size else covered_bytes in
       if old_size <? hi then zero_stream w stream old_size hi else (Some tt, w)
     else (Some tt, w)) in
  try _, w := w_write_block w inode_block (inode_set_stream inode stream (signed 64 size) time) in
  index_changes w inode_block mode (signed 64 old_size) (signed 64 size) old_time time.

Definition truncate w (inode_block size time : Z) : option unit * Writer D :=
  transact (fun w => truncate_blocks w inode_block size time) w.

(** * Removing and renaming *)

Definition w_dir_find w (dir : Inode) (name : bytes) : option Z * Writer D :=
  let '(r, fs) := dir_find (w_fs w) dir name in (r, with_fs w fs).
Definition w_read_inode w (block : Z) : option Inode * Writer D :=
  let '(r, fs) := read_inode (w_fs w) block in (r, with_fs w fs).

(** ["."] and [".."] *)
Definition is_dot (key : bytes) : bool := name_equals key [46] || name_equals key [46; 46].

(** The descent to the leftmost leaf, or where 16 nodes end. *)
Fixpoint leftmost_leaf (depth : nat) w (stream : bytes) (node_size maximum offset : Z) : option Z * Writer D :=
  match depth with
  | O => (Some offset, w)
  | S depth =>
    if maximum <? u64 (offset + node_size) then (None, w)
    else
      try node, w := w_read_stream w stream offset node_size in
      if le64_signed node node.kOverflowLink =? kNullLink then (Some offset, w)
      else
        let count := le16 node node.kKeyCount in
        let values_at := key_align (node.kFixed + le16 node node.kAllKeyLength) + count * 2 in
        leftmost_leaf depth w stream node_size maximum
          (if 0 <? count then le64 node values_at else u64 (le64_signed node node.kOverflowLink))
  end.

(** The keys of a leaf, from [i]: whether all are dots, and how many. *)
Fixpoint count_keys (n : nat) (node : bytes) (node_size i : Z) (ok : bool) (entries : Z) : option (bool * Z) :=
  match n with
  | O => Some (ok, entries)
  | S n =>
    match node_entry node node_size i with
    | None => None
    | Some (key, _) => count_keys n node node_size (i + 1) (ok && is_dot key) (u32 (entries + 1))
    end
  end.

(** The walk along the leaves; [fuel] is how many more it may read. *)
Fixpoint count_chain (n : nat) w (stream : bytes) (node_size maximum offset : Z) (ok : bool) (entries : Z)
    : option (bool * Z) * Writer D :=
  match n with
  | O => (Some (ok, entries), w)
  | S n =>
    if maximum <? u64 (offset + node_size) then (Some (ok, entries), w)
    else
      try node, w := w_read_stream w stream offset node_size in
      if negb (le64_signed node node.kOverflowLink =? kNullLink) then (None, w)
      else
        match count_keys (Z.to_nat (le16 node node.kKeyCount)) node node_size 0 ok entries with
        | None => (None, w)
        | Some (ok, entries) =>
          let offset := le64 node node.kRightLink in
          if (offset =? u64 kNullLink) || (offset =? u64 kFreeLink) then (Some (ok, entries), w)
          else count_chain n w stream node_size maximum offset ok entries
        end
  end.

(** [Some tt]: it is empty. *)
Definition dir_is_empty w (dir_block : Z) : option unit * Writer D :=
  try inode, w := read_inode_block w dir_block in
  let stream := in_data (inode_view inode) in
  try header, w := w_read_stream w stream 0 tree_header.kBytes in
  match tree_header_parse header with
  | None => (None, w)
  | Some parsed =>
    try offset, w := leftmost_leaf 16 w stream (th_node_size parsed) (th_maximum parsed) (th_root parsed) in
    let max_nodes := th_maximum parsed / th_node_size parsed + 1 in
    try (ok, entries), w :=
      count_chain (Z.to_nat (max_nodes + 1)) w stream (th_node_size parsed) (th_maximum parsed) offset true 0 in
    (guard (ok && (entries =? 2)), w)
  end.

Definition remove_blocks w (parent_block : Z) (name : bytes) : option unit * Writer D :=
  try parent, w := read_inode_block w parent_block in
  try child, w := w_dir_find w (inode_view parent) name in
  try inode, w := read_inode_block w child in
  try _, w := (if mode_is_directory (inode_mode inode) then dir_is_empty w child else (Some tt, w)) in
  try present, w := tree_edit fuel w parent_block name 0 false in
  if negb present then (None, w)
  else
    try _, w := index_on_remove w child name (inode_mode inode) (inode_size inode) (inode_mtime inode) in
    destroy w child.

Definition remove w (parent_block : Z) (name : bytes) : option unit * Writer D :=
  transact (fun w => remove_blocks w parent_block name) w.

Definition rename_blocks w (parent_block : Z) (from to : bytes) : option unit * Writer D :=
  try inode, w := read_inode_block w parent_block in
  let parent := inode_view inode in
  try child, w := w_dir_find w parent from in
  match w_dir_find w parent to with
  | (Some _, w) => (None, w)
  | (None, w) =>
    try present, w := tree_edit fuel w parent_block from 0 false in
    if negb present then (None, w)
    else
      match tree_edit fuel w parent_block to child true with
      | (None, w) | (Some true, w) => (None, (tree_edit fuel w parent_block from child true).2)
      | (Some false, w) => index_on_rename fuel w child from to
      end
  end.

Definition rename w (parent_block : Z) (from to : bytes) : option unit * Writer D :=
  transact (fun w => rename_blocks w parent_block from to) w.

(** * Attributes *)

(** The block of the inode's attribute directory, made when there is none. *)
Definition attr_dir w (inode_block time : Z) : option Z * Writer D :=
  try inode, w := read_inode_block w inode_block in
  let attributes := le_run inode inode.kAttributes in
  if negb (run_is_zero attributes) then (Some (w_to_block w attributes), w)
  else
    let owner_run := le_run inode inode.kInodeNum in
    try inode_run, w := w_allocate w 1 1 in
    let block := w_to_block w inode_run in
    try tree_run, w := allocate_tree w inode_run in
    let runs := [tree_run; inode_run] in
    let mode := Z.lor (Z.lor (Z.lor kModeAttrDir kModeDirectory) kModeStrIndex) 0x1b6 in
    let stream := tree_stream tree_run in
    let dir := inode_set_stream (inode_build (w_block_size w) inode_run owner_run mode 0 0 time []) stream
                 (kTreeNodeSize * 2) time in
    match w_write_block w block dir with
    | (None, w) => refuse w runs
    | (Some _, w) =>
      match w_write_stream w stream 0 build_empty_tree (kTreeNodeSize * 2) with
      | (None, w) => refuse w runs
      | (Some _, w) =>
        try inode, w := read_inode_block w inode_block in
        match w_write_block w inode_block (put_run inode inode.kAttributes inode_run) with
        | (None, w) => refuse w runs
        | (Some _, w) => (Some block, w)
        end
      end
    end.

Definition attr_inode_create w (dir_block : Z) (name : bytes) (type time : Z) : option Z * Writer D :=
  try dir, w := read_inode_block w dir_block in
  let dir_run := le_run dir inode.kInodeNum in
  try inode_run, w := w_allocate w 1 1 in
  let block := w_to_block w inode_run in
  let mode := Z.lor (Z.lor kModeAttr kModeRegular) 0x1b6 in
  let inode := inode_set_type (inode_build (w_block_size w) inode_run dir_run mode 0 0 time []) type in
  let inode := put_le32 inode inode.kFlags (Z.lor kInodeInUse kInodeAttrInode) in
  match w_write_block w block inode with
  | (None, w) => refuse w [inode_run]
  | (Some _, w) =>
    match tree_edit fuel w dir_block name block true with
    | (None, w) | (Some true, w) => refuse w [inode_run]
    | (Some false, w) => (Some block, w)
    end
  end.

(** The first bytes of the attribute, as an index keys it. *)
Definition attribute_key w (inode_block : Z) (name : bytes) (length : Z) : option bytes * Writer D :=
  try inode, w := w_read_inode w inode_block in
  let '(stat, fs) := attr_stat (w_fs w) inode name in
  let w := with_fs w fs in
  match stat with
  | None => (None, w)
  | Some (_, size) =>
    let want := if size <? length then u32 size else length in
    if want =? 0 then (Some [], w)
    else let '(r, fs) := attr_read (w_fs w) inode name 0 want in (r, with_fs w fs)
  end.

(** The first [new_length] bytes of [attr_]: the old value, zeros after it and
    the write over them at the low 32 bits of [offset].  The stores are not
    checked against the buffer; those past it are left out here. *)
Definition attr_value (old : bytes) (offset : Z) (src : bytes) (new_length : Z) : bytes :=
  slice (blit (old ++ zeros (new_length - zlen old)) (u32 offset) src) 0 new_length.

(** The bytes written, [*written], are all or none. *)
Definition attr_write_impl w (inode_block : Z) (name : bytes) (type offset : Z) (src : bytes) (time : Z)
    : option Z * Writer D :=
  let length := zlen src in
  let end_ := u64 (offset + length) in
  if (zlen name =? 0) || (kMaxName <? zlen name) || (end_ <? offset) then (None, w)
  else
    try inode, w := read_inode_block w inode_block in
    let inode_size := le32 inode inode.kInodeSize in
    match small_find inode inode_size name with
    | Some entry =>
      if negb (sa_type entry =? type) then (None, w)
      else
        let new_length := u32 (if zlen (sa_data entry) <? end_ then end_ else zlen (sa_data entry)) in
        if kMaxBlockSize <? new_length then (None, w)
        else
          let attr := attr_value (sa_data entry) offset src new_length in
          match small_set inode inode_size type name attr with
          | Some inode => try _, w := w_write_block w inode_block inode in (Some length, w)
          | None =>
            try dir_block, w := attr_dir w inode_block time in
            try attr_block, w := attr_inode_create w dir_block name type time in
            try _, w := write_blocks w attr_block 0 attr time in
            try inode, w := read_inode_block w inode_block in
            match small_remove inode inode_size name with
            | None => (None, w)
            | Some inode => try _, w := w_write_block w inode_block inode in (Some length, w)
            end
          end
    | None =>
      let attributes := le_run inode inode.kAttributes in
      let '(existing, w) :=
        if run_is_zero attributes then (None, w)
        else try dir, w := w_read_inode w (w_to_block w attributes) in w_dir_find w dir name in
      match existing with
      | Some attr_block =>
        try attribute, w := w_read_inode w attr_block in
        if negb (in_type attribute =? type) then (None, w)
        else try _, w := write_blocks w attr_block offset src time in (Some length, w)
      | None =>
        match (if end_ <=? kMaxBlockSize then small_set inode inode_size type name (attr_value [] offset src end_)
               else None) with
        | Some inode => try _, w := w_write_block w inode_block inode in (Some length, w)
        | None =>
          try dir_block, w := attr_dir w inode_block time in
          try attr_block, w := attr_inode_create w dir_block name type time in
          try _, w := write_blocks w attr_block offset src time in
          (Some length, w)
        end
      end
    end.

(** When neither key can be read the source compares what the two buffers last
    held; either answer ends in [return true]. *)
Definition attr_write_blocks w (inode_block : Z) (name : bytes) (type offset : Z) (src : bytes) (time : Z)
    : option Z * Writer D :=
  let indexed := (offset =? 0) && is_app_sig name in
  let '(old, w) := if indexed then attribute_key w inode_block name kMaxIndexKey else (None, w) in
  try written, w := attr_write_impl w inode_block name type offset src time in
  if negb indexed then (Some written, w)
  else
    let '(new, w) := attribute_key w inode_block name kMaxIndexKey in
    match old, new with
    | None, None => (Some written, w)
    | Some old, None =>
      try _, w := index_drop w kAppSigIndex old inode_block in (Some written, w)
    | None, Some new =>
      try _, w := index_add fuel w kAppSigIndex new inode_block in (Some written, w)
    | Some old, Some new =>
      if name_equals old new then (Some written, w)
      else
        try _, w := index_drop w kAppSigIndex old inode_block in
        try _, w := index_add fuel w kAppSigIndex new inode_block in
        (Some written, w)
    end.

Definition attr_write w (inode_block : Z) (name : bytes) (type offset : Z) (src : bytes) (time : Z)
    : option Z * Writer D :=
  transact (fun w => attr_write_blocks w inode_block name type offset src time) w.

Definition attr_remove_impl w (inode_block : Z) (name : bytes) : option unit * Writer D :=
  if (zlen name =? 0) || (kMaxName <? zlen name) then (None, w)
  else
    try inode, w := read_inode_block w inode_block in
    let inode_size := le32 inode inode.kInodeSize in
    match small_find inode inode_size name with
    | Some _ =>
      match small_remove inode inode_size name with
      | None => (None, w)
      | Some inode => w_write_block w inode_block inode
      end
    | None =>
      let attributes := le_run inode inode.kAttributes in
      if run_is_zero attributes then (None, w)
      else
        let dir_block := w_to_block w attributes in
        try dir, w := w_read_inode w dir_block in
        try attr_block, w := w_dir_find w dir name in
        try existed, w := tree_edit fuel w dir_block name 0 false in
        if negb existed then (None, w) else destroy w attr_block
    end.

Definition attr_remove_blocks w (inode_block : Z) (name : bytes) : option unit * Writer D :=
  let '(old, w) := if is_app_sig name then attribute_key w inode_block name kMaxIndexKey else (None, w) in
  try _, w := attr_remove_impl w inode_block name in
  match old with
  | None => (Some tt, w)
  | Some old => index_drop w kAppSigIndex old inode_block
  end.

Definition attr_remove w (inode_block : Z) (name : bytes) : option unit * Writer D :=
  transact (fun w => attr_remove_blocks w inode_block name) w.

(** * Indices of their own *)

Definition index_insert w (index_block : Z) (key : bytes) (value : Z) : option unit * Writer D :=
  transact (fun w => index_insert_blocks fuel w index_block key value) w.
Definition index_remove w (index_block : Z) (key : bytes) (value : Z) : option bool * Writer D :=
  transact (fun w => index_remove_blocks w index_block key value) w.
End operations.

(** * On a concrete volume *)

Module SampleWriter.
Import SampleDir.
(** 128 blocks of 1 KiB and a log of 32: a root directory with a name index and
    an index of application signatures, all empty. *)
Definition super : bytes :=
  put_run (Sample.super 128 7 1 32 0) superblock.kIndices (mkRun 0 53 1).
Definition bitmap : bytes := replicate 7 255 ++ [63] ++ zeros 1016.
Definition dots (block : Z) : list (bytes * Z) := [([46], block); ([46; 46], block)].
Definition images : list bytes :=
  [inode_block 50 kModeDirectory 51 2; header 0 2048; node_of null null (dots 50);
   inode_block 53 (Z.lor kModeIndexDir kModeDirectory) 54 2; header 0 2048; node_of null null [(kAppSigIndex, 56); (name_index, 59)];
   inode_block 56 (Z.lor kModeIndexDir kModeDirectory) 57 2; header 0 2048; node_of null null [];
   inode_block 59 (Z.lor kModeIndexDir kModeDirectory) 60 2; header 0 2048; node_of null null []].
Definition disk : Disk.disk := put_blocks (Sample.put_block (Sample.disk super 128 None) 1 bitmap) 50 images.
Definition fresh : Writer Disk.disk :=
  mkWriter (mkFs disk (open new_volume disk true).2 new_journal false) new_allocator [] [] [] [] [] 0 0.
Definition writer : Writer Disk.disk := (writer_open fresh).2.

Definition kFile : Z := Z.lor kModeRegular 0x1b6.
Definition find {D} `{SectorDevice D} (w : Writer D) (name : bytes) : option Z :=
  (w_dir_find w (inode_view (view (w_fs w) 50)) name).1.

(** The root with one file in it, in block 62. *)
Definition with_file : Writer Disk.disk := (create 8 writer 50 [97] kFile 1 2 5).2.
Lemma file_created : (create 8 writer 50 [97] kFile 1 2 5).1 = Some 62 /\ find with_file [97] = Some 62.
Proof. vm_compute. auto. Qed.
End SampleWriter.

(** Renaming leaves the name in the inode.  The directory and the name
    index have the new name, but the name the inode carries in its small data,
    which is the one a query compares and answers with, is still the old. *)
Theorem rename_keeps_inode_name :
  let '(r, w) := rename 8 SampleWriter.with_file 50 [97] [98] in
  r = Some tt /\ SampleWriter.find w [97] = None /\ SampleWriter.find w [98] = Some 62 /\
  (index_walk (w_fs w) 59 [98] 0).1.1 = Some 62 /\ in_name (SampleDir.inode_in (w_fs w) 62) = [97].
Proof. vm_compute. splits; reflexivity. Qed.

(** Removing a file leaves its application signature in the index, under a
    block that is free. *)
Lemma removed_signature_stays :
  let '(written, w) := attr_write 8 SampleWriter.with_file 62 kAppSigIndex 77 0 [1; 2; 3] 5 in
  let '(removed, w) := remove 8 w 50 [97] in
  written = Some 3 /\ removed = Some tt /\ SampleWriter.find w [97] = None /\
  used_block (w_fs w) 62 = false /\ (index_walk (w_fs w) 56 [1; 2; 3] 0).1.1 = Some 62.
Proof. vm_compute. splits; reflexivity. Qed.

(** An empty signature is refused where there is an index of them: an index
    takes no empty key, and the whole write fails.  Another attribute may be
    empty. *)
Lemma empty_signature_refused :
  (attr_write 8 SampleWriter.with_file 62 kAppSigIndex 77 0 [] 5).1 = None /\
  (attr_write 8 SampleWriter.with_file 62 [100] 77 0 [] 5).1 = Some 0.
Proof. vm_compute. auto. Qed.

(** The offset of a write to an attribute in the inode is cut to 32 bits:
    one byte written at 2^32 replaces the whole attribute by that byte. *)
Theorem attribute_offset_wraps :
  let '(first, w) := attr_write 8 SampleWriter.with_file 62 [100] 77 0 [1; 2; 3] 5 in
  let '(second, w) := attr_write 8 w 62 [100] 77 (2 ^ 32) [9] 5 in
  first = Some 3 /\ second = Some 1 /\
  (attr_read (w_fs w) (SampleDir.inode_in (w_fs w) 62) [100] 0 10).1 = Some [9].
Proof. vm_compute. splits; reflexivity. Qed.
