(* ===== verification/WriterAtomic.v ===== *)
(** Operations that fail (libs/freestanding/aegir-bfs, src/writer.cc): what the
    writer does between [begin] and [finish] goes through the journal, so a
    removal, a change of owner or a removal of an attribute that fails leaves
    the disk and the volume as they were. *)
From stdpp Require Import base numbers list list_numbers.
From Stdlib Require Import ZArith Lia.
From S2P Require Import Prelude.
From S2P Require Import Layout.
From S2P Require Import Device.
From S2P Require Import Volume.
From S2P Require Import BlockStore.
From S2P Require Import Samples.
From S2P Require Import Journal.
From S2P Require Import Transaction.
From S2P Require Import Recovery.
From S2P Require Import Allocator.
From S2P Require Import BPlusTree.
From S2P Require Import Attribute.
From S2P Require Import Stream.
From S2P Require Import Directory.
From S2P Require Import WriterNode.
From S2P Require Import WriterStream.
From S2P Require Import WriterTrim.
From S2P Require Import WriterTree.
From S2P Require Import WriterIndex.
From S2P Require Import WriterFile.

(** What every block read, block write, change of the used count and discard
    keeps. *)
Class TxnInvariant {D} `{SectorDevice D} (P : Fs D -> Prop) : Prop := {
  ti_read fs b : P fs -> P (read_block fs b).2;
  ti_write fs b data : P fs -> P (write_block fs b data).2;
  ti_used fs used : P fs -> P (with_vol fs (set_used_blocks (vol fs) used));
  ti_flush fs : P fs -> P (flush_superblock fs).2;
  ti_discard fs run : P fs -> P (discard_run fs run).2;
}.

(** And every write that passes the journal by. *)
Class DirectInvariant {D} `{SectorDevice D} (P : Fs D -> Prop) : Prop := {
  di_now fs b data : P fs -> P (write_block_now fs b data).2;
}.

Create HintDb keep.

(** The state each call leaves is [P], or [Q] for the writer's. *)
Ltac keep_with P Q :=
  intros;
  repeat first
    [ assumption
    | progress cbn [snd]
    | progress cbv zeta
    | match goal with
      | |- _ (snd (match ?e with _ => _ end)) =>
        lazymatch type of e with
        | (_ * Fs _)%type => let K := fresh "K" in assert (K : P (snd e)); [|destruct e as [? ?]; cbn [snd] in K]
        | (_ * Writer _)%type => let K := fresh "K" in assert (K : Q (snd e)); [|destruct e as [? ?]; cbn [snd] in K]
        | _ => destruct e
        end
      | |- _ (if ?b then _ else _) => destruct b
      end ]; eauto 6 with keep.

Section journaled.
Context {D : Type} `{SectorDevice D} (P : Fs D -> Prop) `{!TxnInvariant P}.
Implicit Types fs : Fs D.
Local Ltac keep := keep_with P P.
Lemma read_block_keep fs b : P fs -> P (read_block fs b).2.
Proof. apply ti_read. Qed.
Lemma write_block_keep fs b data : P fs -> P (write_block fs b data).2.
Proof. apply ti_write. Qed.
Hint Resolve read_block_keep write_block_keep : keep.

Lemma read_part_loop_keep n : forall fs byte left_, P fs -> P (read_part_loop n fs byte left_).2.
Proof. induction n as [|n IH]; intros; cbn [read_part_loop]; keep. Qed.
Hint Resolve read_part_loop_keep : keep.
Lemma read_part_keep fs run skip length : P fs -> P (read_part fs run skip length).2.
Proof. unfold read_part. keep. Qed.
Hint Resolve read_part_keep : keep.
Lemma read_handle_keep fs offset length run run_start out : P fs -> P (read_handle fs offset length run run_start out).2.
Proof. unfold read_handle. keep. Qed.
Hint Resolve read_handle_keep : keep.
Lemma read_runs_keep n : forall fs offset length array at_ pos out, P fs -> P (read_runs n fs offset length array at_ pos out).2.
Proof. induction n as [|n IH]; intros; cbn [read_runs]; keep. Qed.
Hint Resolve read_runs_keep : keep.
Lemma read_arrays_keep n : forall fs offset length block pos out, P fs -> P (read_arrays n fs offset length block pos out).2.
Proof. induction n as [|n IH]; intros; cbn [read_arrays]; keep. Qed.
Hint Resolve read_arrays_keep : keep.
Lemma read_array_runs_keep n : forall fs offset length array at_ pos out, P fs -> P (read_array_runs n fs offset length array at_ pos out).2.
Proof. induction n as [|n IH]; intros; cbn [read_array_runs]; keep. Qed.
Hint Resolve read_array_runs_keep : keep.
Lemma read_double_keep n : forall fs offset length block pos out, P fs -> P (read_double n fs offset length block pos out).2.
Proof. induction n as [|n IH]; intros; cbn [read_double]; keep. Qed.
Hint Resolve read_double_keep : keep.
Lemma read_stream_keep fs stream offset length : P fs -> P (read_stream fs stream offset length).2.
Proof. unfold read_stream. keep. Qed.
Hint Resolve read_stream_keep : keep.

Lemma put_data_keep fs block data : P fs -> P (put_data fs false block data).2.
Proof. apply ti_write. Qed.
Hint Resolve put_data_keep : keep.
Lemma write_part_loop_keep n : forall fs byte src left_, P fs -> P (write_part_loop n fs byte src left_ false).2.
Proof. induction n as [|n IH]; intros; cbn [write_part_loop]; keep. Qed.
Hint Resolve write_part_loop_keep : keep.
Lemma write_part_keep fs run skip src length : P fs -> P (write_part fs run skip src length false).2.
Proof. unfold write_part. keep. Qed.
Hint Resolve write_part_keep : keep.
Lemma write_handle_keep fs offset src run run_start cursor left_ :
  P fs -> P (write_handle fs offset src false run run_start cursor left_).2.
Proof. unfold write_handle. keep. Qed.
Hint Resolve write_handle_keep : keep.
Lemma write_runs_keep offset src n : forall fs array at_ pos cursor left_,
  P fs -> P (write_runs offset src false n fs array at_ pos cursor left_).2.
Proof. induction n as [|n IH]; intros; cbn [write_runs]; keep. Qed.
Hint Resolve write_runs_keep : keep.
Lemma write_arrays_keep offset src n : forall fs block pos cursor left_,
  P fs -> P (write_arrays offset src false n fs block pos cursor left_).2.
Proof. induction n as [|n IH]; intros; cbn [write_arrays]; keep. Qed.
Hint Resolve write_arrays_keep : keep.
Lemma write_array_runs_keep offset src n : forall fs array at_ pos cursor left_,
  P fs -> P (write_array_runs offset src false n fs array at_ pos cursor left_).2.
Proof. induction n as [|n IH]; intros; cbn [write_array_runs]; keep. Qed.
Hint Resolve write_array_runs_keep : keep.
Lemma write_double_keep offset src n : forall fs block pos cursor left_,
  P fs -> P (write_double offset src false n fs block pos cursor left_).2.
Proof. induction n as [|n IH]; intros; cbn [write_double]; keep. Qed.
Hint Resolve write_double_keep : keep.
Lemma write_stream_raw_keep fs stream offset src length : P fs -> P (write_stream_raw fs stream offset src length).2.
Proof. unfold write_stream_raw, write_stream_impl. keep. Qed.
Hint Resolve write_stream_raw_keep : keep.

(** ** Lookups *)

Lemma node_header_keep fs dir : P fs -> P (node_header fs dir).2.
Proof. unfold node_header. keep. Qed.
Hint Resolve node_header_keep : keep.
Lemma dir_find_from_keep n : forall fs dir node_size maximum name offset,
  P fs -> P (dir_find_from n fs dir node_size maximum name offset).2.
Proof. induction n as [|n IH]; intros; cbn [dir_find_from]; keep. Qed.
Hint Resolve dir_find_from_keep : keep.
Lemma dir_find_keep fs dir name : P fs -> P (dir_find fs dir name).2.
Proof. unfold dir_find. keep. Qed.
Hint Resolve dir_find_keep : keep.
Lemma read_inode_keep fs block : P fs -> P (read_inode fs block).2.
Proof. unfold read_inode. keep. Qed.
Hint Resolve read_inode_keep : keep.
Lemma index_inode_keep fs name : P fs -> P (index_inode fs name).2.
Proof. unfold index_inode. keep. Qed.
Hint Resolve index_inode_keep : keep.
Lemma attr_small_keep fs inode name : P fs -> P (attr_small fs inode name).2.
Proof. unfold attr_small, inode_raw. keep. Qed.
Hint Resolve attr_small_keep : keep.
Lemma attr_file_keep fs inode name : P fs -> P (attr_file fs inode name).2.
Proof. unfold attr_file, attr_inode, attr_dir_inode. keep. Qed.
Hint Resolve attr_file_keep : keep.
Lemma attr_stat_keep fs inode name : P fs -> P (attr_stat fs inode name).2.
Proof. unfold attr_stat. keep. Qed.
Lemma attr_read_keep fs inode name offset length : P fs -> P (attr_read fs inode name offset length).2.
Proof. unfold attr_read. keep. Qed.
Hint Resolve attr_stat_keep attr_read_keep : keep.

(** ** The allocator *)

Lemma load_bitmap_keep a fs at_ : P fs -> P (load_bitmap a fs at_).2.
Proof. unfold load_bitmap. cbn [bs_read bs_vol fs_block_store]. keep. Qed.
Hint Resolve load_bitmap_keep : keep.
Lemma set_used_keep fs used : P fs -> P (bs_set_used fs used).
Proof. apply ti_used. Qed.
Lemma flush_keep fs : P fs -> P (bs_flush fs).2.
Proof. apply ti_flush. Qed.
Lemma discard_keep fs run : P fs -> P (bs_discard fs run).2.
Proof. apply ti_discard. Qed.
Lemma bitmap_write_keep fs b data : P fs -> P (bs_write fs b data).2.
Proof. apply ti_write. Qed.
Hint Resolve set_used_keep flush_keep discard_keep bitmap_write_keep : keep.
Lemma search_group_keep n : forall a fs group bits max_blocks min_blocks index,
  P fs -> P (search_group n a fs group bits max_blocks min_blocks index).2.
Proof. induction n as [|n IH]; intros; cbn [search_group]; keep. Qed.
Hint Resolve search_group_keep : keep.
Lemma search_groups_keep n : forall a fs max_blocks min_blocks group,
  P fs -> P (search_groups n a fs max_blocks min_blocks group).2.
Proof. induction n as [|n IH]; intros; cbn [search_groups]; keep. Qed.
Hint Resolve search_groups_keep : keep.
Lemma allocate_keep a fs max_blocks min_blocks : P fs -> P (allocate a fs max_blocks min_blocks).2.
Proof. unfold allocate. keep. Qed.
Hint Resolve allocate_keep : keep.
Lemma flush_discards_keep a fs : P fs -> P (flush_discards a fs).2.
Proof. intros. unfold flush_discards. cbn [snd]. destruct (_ && _); auto with keep. Qed.
Hint Resolve flush_discards_keep : keep.
Lemma queue_discard_keep a fs run : P fs -> P (queue_discard a fs run).2.
Proof. unfold queue_discard. keep. Qed.
Hint Resolve queue_discard_keep : keep.
Lemma free_bits_keep n : forall a fs run k, P fs -> P (free_bits n a fs run k).2.
Proof. induction n as [|n IH]; intros; cbn [free_bits]; keep. Qed.
Hint Resolve free_bits_keep : keep.
Lemma free_keep a fs run : P fs -> P (free a fs run).2.
Proof. unfold free. keep. Qed.
Hint Resolve free_keep : keep.

(** ** The writer *)

Implicit Types w : Writer D.
Definition holds w : Prop := P (w_fs w).
Local Ltac wkeep := keep_with P holds.

Lemma holds_fs w : holds w -> P (w_fs w).
Proof. auto. Qed.
Lemma holds_with_fs w fs : P fs -> holds (with_fs w fs).
Proof. auto. Qed.
Lemma holds_with_al w a : holds w -> holds (with_al w a).
Proof. auto. Qed.
Lemma holds_fill_node w data : holds w -> holds (fill_node w data).
Proof. auto. Qed.
Lemma holds_with_inode w inode stream : holds w -> holds (with_inode w inode stream).
Proof. auto. Qed.
Lemma holds_with_hdr w hdr : holds w -> holds (with_hdr w hdr).
Proof. auto. Qed.
Lemma holds_with_parent w parent : holds w -> holds (with_parent w parent).
Proof. auto. Qed.
Lemma holds_with_tree_type w data_type : holds w -> holds (with_tree_type w data_type).
Proof. auto. Qed.
Lemma holds_with_edit_parent w block : holds w -> holds (with_edit_parent w block).
Proof. auto. Qed.
Lemma holds_if (b : bool) w w' : holds w -> holds w' -> holds (if b then w else w').
Proof. now destruct b. Qed.
Hint Resolve holds_if holds_fs holds_with_fs holds_with_al holds_fill_node holds_with_inode holds_with_hdr holds_with_parent
  holds_with_tree_type holds_with_edit_parent : keep.

Lemma w_read_block_keep w block : holds w -> holds (w_read_block w block).2.
Proof. unfold w_read_block. wkeep. Qed.
Lemma w_write_block_keep w block data : holds w -> holds (w_write_block w block data).2.
Proof. unfold w_write_block. wkeep. Qed.
Lemma w_allocate_keep w max_blocks min_blocks : holds w -> holds (w_allocate w max_blocks min_blocks).2.
Proof. unfold w_allocate. wkeep. Qed.
Lemma w_free_keep w run : holds w -> holds (w_free w run).2.
Proof. unfold w_free. wkeep. Qed.
Lemma w_read_stream_keep w stream offset length : holds w -> holds (w_read_stream w stream offset length).2.
Proof. unfold w_read_stream. wkeep. Qed.
Lemma w_write_stream_keep w stream offset src length : holds w -> holds (w_write_stream w stream offset src length).2.
Proof. unfold w_write_stream. wkeep. Qed.
Lemma w_index_inode_keep w index : holds w -> holds (w_index_inode w index).2.
Proof. unfold w_index_inode. wkeep. Qed.
Lemma w_dir_find_keep w dir name : holds w -> holds (w_dir_find w dir name).2.
Proof. unfold w_dir_find. wkeep. Qed.
Lemma w_read_inode_keep w block : holds w -> holds (w_read_inode w block).2.
Proof. unfold w_read_inode. wkeep. Qed.
Hint Resolve w_read_block_keep w_write_block_keep w_allocate_keep w_free_keep w_read_stream_keep w_write_stream_keep
  w_index_inode_keep w_dir_find_keep w_read_inode_keep : keep.

Lemma read_inode_block_keep w block : holds w -> holds (read_inode_block w block).2.
Proof. unfold read_inode_block. wkeep. Qed.
Hint Resolve read_inode_block_keep : keep.
Lemma free_runs_keep n : forall w array at_, holds w -> holds (free_runs n w array at_).2.
Proof. induction n as [|n IH]; intros; cbn [free_runs]; wkeep. Qed.
Hint Resolve free_runs_keep : keep.
Lemma free_arrays_keep n : forall w block, holds w -> holds (free_arrays n w block).2.
Proof. induction n as [|n IH]; intros; cbn [free_arrays]; wkeep. Qed.
Hint Resolve free_arrays_keep : keep.
Lemma free_array_runs_keep n : forall w strict node at_, holds w -> holds (free_array_runs n w strict node at_).2.
Proof. induction n as [|n IH]; intros; cbn [free_array_runs]; wkeep. Qed.
Hint Resolve free_array_runs_keep : keep.
Lemma free_double_blocks_keep n : forall w strict block, holds w -> holds (free_double_blocks n w strict block).2.
Proof. induction n as [|n IH]; intros; cbn [free_double_blocks]; wkeep. Qed.
Hint Resolve free_double_blocks_keep : keep.
Lemma free_stream_keep w stream : holds w -> holds (free_stream w stream).2.
Proof. unfold free_stream. wkeep. Qed.
Hint Resolve free_stream_keep : keep.
Lemma destroy_keep w block : holds w -> holds (destroy w block).2.
Proof. unfold destroy. wkeep. Qed.
Hint Resolve destroy_keep : keep.

Lemma tree_header_keep w block : holds w -> holds (WriterTree.tree_header w block).2.
Proof. unfold WriterTree.tree_header. wkeep. Qed.
Lemma w_node_read_keep w offset node_size : holds w -> holds (w_node_read w offset node_size).2.
Proof. unfold w_node_read. wkeep. Qed.
Lemma w_node_write_keep w offset node_size node : holds w -> holds (w_node_write w offset node_size node).2.
Proof. unfold w_node_write. wkeep. Qed.
Lemma header_write_keep w : holds w -> holds (header_write w).2.
Proof. unfold header_write. wkeep. Qed.
Hint Resolve tree_header_keep w_node_read_keep w_node_write_keep header_write_keep : keep.
Lemma remove_into_keep n : forall w offset node_size name, holds w -> holds (remove_into n w offset node_size name).2.
Proof. induction n as [|n IH]; intros; cbn [remove_into]; wkeep. Qed.
Hint Resolve remove_into_keep : keep.
Lemma tree_remove_keep n w block name value : holds w -> holds (tree_edit n w block name value false).2.
Proof. unfold tree_edit. wkeep. Qed.
Hint Resolve tree_remove_keep : keep.

Lemma w_index_descend_keep n : forall w offset node_size key, holds w -> holds (w_index_descend n w offset node_size key).2.
Proof. induction n as [|n IH]; intros; cbn [w_index_descend]; wkeep. Qed.
Hint Resolve w_index_descend_keep : keep.
Lemma free_tree_node_keep w offset node_size : holds w -> holds (free_tree_node w offset node_size).2.
Proof. unfold free_tree_node. wkeep. Qed.
Lemma set_leaf_value_keep w leaf index value node_size node : holds w -> holds (set_leaf_value w leaf index value node_size node).2.
Proof. unfold set_leaf_value. wkeep. Qed.
Hint Resolve free_tree_node_keep set_leaf_value_keep : keep.
Lemma unlink_node_keep w leaf index offset previous left_ right_ key node_size :
  holds w -> holds (unlink_node w leaf index offset previous left_ right_ key node_size).2.
Proof. unfold unlink_node. wkeep. Qed.
Hint Resolve unlink_node_keep : keep.
Lemma drop_from_chain_keep n : forall w leaf index offset previous key value node_size,
  holds w -> holds (drop_from_chain n w leaf index offset previous key value node_size).2.
Proof. induction n as [|n IH]; intros; cbn [drop_from_chain]; wkeep. Qed.
Hint Resolve drop_from_chain_keep : keep.
Lemma index_drop_value_keep w leaf index old_value key value node_size :
  holds w -> holds (index_drop_value w leaf index old_value key value node_size).2.
Proof. unfold index_drop_value. wkeep. Qed.
Lemma index_reach_keep w block key : holds w -> holds (index_reach w block key).2.
Proof. unfold index_reach. wkeep. Qed.
Hint Resolve index_drop_value_keep index_reach_keep : keep.
Lemma index_remove_blocks_keep w block key value : holds w -> holds (index_remove_blocks w block key value).2.
Proof. unfold index_remove_blocks. wkeep. Qed.
Hint Resolve index_remove_blocks_keep : keep.
Lemma index_drop_keep w index key value : holds w -> holds (index_drop w index key value).2.
Proof. unfold index_drop. wkeep. Qed.
Hint Resolve index_drop_keep : keep.
Lemma index_on_remove_keep w block name mode size time : holds w -> holds (index_on_remove w block name mode size time).2.
Proof. unfold index_on_remove. wkeep. Qed.
Hint Resolve index_on_remove_keep : keep.

Lemma leftmost_leaf_keep n : forall w stream node_size maximum offset,
  holds w -> holds (leftmost_leaf n w stream node_size maximum offset).2.
Proof. induction n as [|n IH]; intros; cbn [leftmost_leaf]; wkeep. Qed.
Lemma count_chain_keep n : forall w stream node_size maximum offset ok entries,
  holds w -> holds (count_chain n w stream node_size maximum offset ok entries).2.
Proof. induction n as [|n IH]; intros; cbn [count_chain]; wkeep. Qed.
Hint Resolve leftmost_leaf_keep count_chain_keep : keep.
Lemma dir_is_empty_keep w block : holds w -> holds (dir_is_empty w block).2.
Proof. unfold dir_is_empty. wkeep. Qed.
Lemma attribute_key_keep w block name length : holds w -> holds (attribute_key w block name length).2.
Proof. unfold attribute_key. wkeep. Qed.
Hint Resolve dir_is_empty_keep attribute_key_keep : keep.

(** ** The operations *)

Lemma set_owner_mode_keep w block uid gid mode : holds w -> holds (set_owner_mode_blocks w block uid gid mode).2.
Proof. unfold set_owner_mode_blocks. wkeep. Qed.
Lemma remove_keep n w block name : holds w -> holds (remove_blocks n w block name).2.
Proof. unfold remove_blocks. wkeep. Qed.
Lemma attr_remove_impl_keep n w block name : holds w -> holds (attr_remove_impl n w block name).2.
Proof. unfold attr_remove_impl. wkeep. Qed.
Hint Resolve attr_remove_impl_keep : keep.
Lemma attr_remove_keep n w block name : holds w -> holds (attr_remove_blocks n w block name).2.
Proof. unfold attr_remove_blocks. wkeep. Qed.
Hint Resolve attr_remove_keep : keep.

(** ** Operations that also write past the journal *)

Context `{!DirectInvariant P}.

Lemma write_block_now_keep fs b data : P fs -> P (write_block_now fs b data).2.
Proof. apply di_now. Qed.
Hint Resolve write_block_now_keep : keep.
Lemma put_data_direct_keep fs direct block data : P fs -> P (put_data fs direct block data).2.
Proof. unfold put_data. keep. Qed.
Hint Resolve put_data_direct_keep : keep.
Lemma write_part_loop_direct n : forall fs byte src left_ direct, P fs -> P (write_part_loop n fs byte src left_ direct).2.
Proof. induction n as [|n IH]; intros; cbn [write_part_loop]; keep. Qed.
Hint Resolve write_part_loop_direct : keep.
Lemma write_handle_direct fs offset src direct run run_start cursor left_ :
  P fs -> P (write_handle fs offset src direct run run_start cursor left_).2.
Proof. unfold write_handle, write_part. keep. Qed.
Hint Resolve write_handle_direct : keep.
Lemma write_runs_direct offset src direct n : forall fs array at_ pos cursor left_,
  P fs -> P (write_runs offset src direct n fs array at_ pos cursor left_).2.
Proof. induction n as [|n IH]; intros; cbn [write_runs]; keep. Qed.
Hint Resolve write_runs_direct : keep.
Lemma write_arrays_direct offset src direct n : forall fs block pos cursor left_,
  P fs -> P (write_arrays offset src direct n fs block pos cursor left_).2.
Proof. induction n as [|n IH]; intros; cbn [write_arrays]; keep. Qed.
Hint Resolve write_arrays_direct : keep.
Lemma write_array_runs_direct offset src direct n : forall fs array at_ pos cursor left_,
  P fs -> P (write_array_runs offset src direct n fs array at_ pos cursor left_).2.
Proof. induction n as [|n IH]; intros; cbn [write_array_runs]; keep. Qed.
Hint Resolve write_array_runs_direct : keep.
Lemma write_double_direct offset src direct n : forall fs block pos cursor left_,
  P fs -> P (write_double offset src direct n fs block pos cursor left_).2.
Proof. induction n as [|n IH]; intros; cbn [write_double]; keep. Qed.
Hint Resolve write_double_direct : keep.
Lemma write_stream_direct_keep fs stream offset src length : P fs -> P (write_stream_direct fs stream offset src length).2.
Proof. unfold write_stream_direct, write_stream_impl. keep. Qed.
Hint Resolve write_stream_direct_keep : keep.

Lemma w_write_block_now_keep w block data : holds w -> holds (w_write_block_now w block data).2.
Proof. unfold w_write_block_now. wkeep. Qed.
Lemma w_read_node_keep w into_node block : holds w -> holds (w_read_node w into_node block).2.
Proof. unfold w_read_node. wkeep. Qed.
Hint Resolve w_write_block_now_keep w_read_node_keep : keep.
Lemma write_zeros_keep n : forall w now at_, holds w -> holds (write_zeros n w now at_).2.
Proof. induction n as [|n IH]; intros; cbn [write_zeros]; wkeep. Qed.
Lemma cover_arrays_keep n : forall w into_node block covered, holds w -> holds (cover_arrays n w into_node block covered).2.
Proof. induction n as [|n IH]; intros; cbn [cover_arrays]; wkeep. Qed.
Hint Resolve write_zeros_keep cover_arrays_keep : keep.
Lemma cover_array_runs_keep n : forall w array at_ covered, holds w -> holds (cover_array_runs n w array at_ covered).2.
Proof. induction n as [|n IH]; intros; cbn [cover_array_runs]; wkeep. Qed.
Hint Resolve cover_array_runs_keep : keep.
Lemma cover_double_keep n : forall w block covered, holds w -> holds (cover_double n w block covered).2.
Proof. induction n as [|n IH]; intros; cbn [cover_double]; wkeep. Qed.
Hint Resolve cover_double_keep : keep.
Lemma stream_blocks_keep w stream : holds w -> holds (stream_blocks w stream).2.
Proof. unfold stream_blocks. wkeep. Qed.
Hint Resolve stream_blocks_keep : keep.

Lemma append_indirect_keep n : forall w stream run at_, holds w -> holds (append_indirect n w stream run at_).2.
Proof. induction n as [|n IH]; intros; cbn [append_indirect]; wkeep. Qed.
Lemma fresh_array_keep w unit : holds w -> holds (fresh_array w unit).2.
Proof. unfold fresh_array. wkeep. Qed.
Hint Resolve append_indirect_keep fresh_array_keep : keep.
Lemma fill_array_keep n : forall w node run indirect_index index unit wrote,
  holds w -> holds (fill_array n w node run indirect_index index unit wrote).2.
Proof. induction n as [|n IH]; intros; cbn [fill_array]; wkeep. Qed.
Hint Resolve fill_array_keep : keep.
Lemma append_double_loop_keep n : forall w double_indirect run indirect_index index unit loaded,
  holds w -> holds (append_double_loop n w double_indirect run indirect_index index unit loaded).2.
Proof. induction n as [|n IH]; intros; cbn [append_double_loop]; wkeep. Qed.
Hint Resolve append_double_loop_keep : keep.
Lemma append_run_keep w stream run : holds w -> holds (append_run w stream run).2.
Proof. unfold append_run, append_double. wkeep. Qed.
Hint Resolve append_run_keep : keep.
Lemma grow_loop_keep n : forall w stream needed_blocks covered min_unit,
  holds w -> holds (grow_loop n w stream needed_blocks covered min_unit).2.
Proof. induction n as [|n IH]; intros; cbn [grow_loop]; wkeep. Qed.
Hint Resolve grow_loop_keep : keep.
Lemma grow_to_keep w stream needed_blocks covered : holds w -> holds (grow_to w stream needed_blocks covered).2.
Proof. unfold grow_to. wkeep. Qed.
Lemma zero_stream_loop_keep n : forall w stream pos to, holds w -> holds (zero_stream_loop n w stream pos to).2.
Proof. induction n as [|n IH]; intros; cbn [zero_stream_loop]; wkeep. Qed.
Hint Resolve grow_to_keep zero_stream_loop_keep : keep.
Lemma zero_stream_keep w stream from to : holds w -> holds (zero_stream w stream from to).2.
Proof. unfold zero_stream. wkeep. Qed.
Hint Resolve zero_stream_keep : keep.
Lemma trim_runs_keep n : forall w array at_ logical new_blocks changed,
  holds w -> holds (trim_runs n w array at_ logical new_blocks changed).2.
Proof. induction n as [|n IH]; intros; cbn [trim_runs]; wkeep. Qed.
Hint Resolve trim_runs_keep : keep.
Lemma trim_arrays_keep n : forall w at_ logical new_blocks, holds w -> holds (trim_arrays n w at_ logical new_blocks).2.
Proof. induction n as [|n IH]; intros; cbn [trim_arrays]; wkeep. Qed.
Hint Resolve trim_arrays_keep : keep.
Lemma trim_stream_keep w stream new_blocks : holds w -> holds (trim_stream w stream new_blocks).2.
Proof. unfold trim_stream, free_double. wkeep. Qed.
Hint Resolve trim_stream_keep : keep.

Lemma append_node_keep w block node_size : holds w -> holds (append_node w block node_size).2.
Proof. unfold append_node. wkeep. Qed.
Hint Resolve append_node_keep : keep.
Lemma write_halves_keep w node_size offset other node left_ right_ sep :
  holds w -> holds (write_halves w node_size offset other node left_ right_ sep).2.
Proof. unfold write_halves. wkeep. Qed.
Hint Resolve write_halves_keep : keep.
Lemma split_leaf_keep w node node_size offset name value : holds w -> holds (split_leaf w node node_size offset name value).2.
Proof. unfold split_leaf. wkeep. Qed.
Lemma split_internal_keep w node node_size offset name value replace_with :
  holds w -> holds (split_internal w node node_size offset name value replace_with).2.
Proof. unfold split_internal. wkeep. Qed.
Hint Resolve split_leaf_keep split_internal_keep : keep.
Lemma insert_into_keep n : forall w offset node_size name value, holds w -> holds (insert_into n w offset node_size name value).2.
Proof. induction n as [|n IH]; intros; cbn [insert_into]; wkeep. Qed.
Lemma write_new_root_keep w split node_size : holds w -> holds (write_new_root w split node_size).2.
Proof. unfold write_new_root. wkeep. Qed.
Hint Resolve insert_into_keep write_new_root_keep : keep.
Lemma tree_edit_keep n w block name value insert : holds w -> holds (tree_edit n w block name value insert).2.
Proof. destruct insert; [|apply tree_remove_keep]. unfold tree_edit. wkeep. Qed.
Hint Resolve tree_edit_keep : keep.

Lemma add_to_chain_keep n : forall w offset value node_size, holds w -> holds (add_to_chain n w offset value node_size).2.
Proof. induction n as [|n IH]; intros; cbn [add_to_chain]; wkeep. Qed.
Hint Resolve add_to_chain_keep : keep.
Lemma index_add_value_keep w leaf index old_value value node_size :
  holds w -> holds (index_add_value w leaf index old_value value node_size).2.
Proof. unfold index_add_value. wkeep. Qed.
Hint Resolve index_add_value_keep : keep.
Lemma index_insert_blocks_keep n w block key value : holds w -> holds (index_insert_blocks n w block key value).2.
Proof. unfold index_insert_blocks. wkeep. Qed.
Hint Resolve index_insert_blocks_keep : keep.
Lemma index_add_keep n w index key value : holds w -> holds (index_add n w index key value).2.
Proof. unfold index_add. wkeep. Qed.
Hint Resolve index_add_keep : keep.
Lemma index_on_create_keep n w block name mode size time : holds w -> holds (index_on_create n w block name mode size time).2.
Proof. unfold index_on_create. wkeep. Qed.
Lemma index_on_rename_keep n w block from to : holds w -> holds (index_on_rename n w block from to).2.
Proof. unfold index_on_rename. wkeep. Qed.
Lemma index_changes_keep n w block mode old_size new_size old_time time :
  holds w -> holds (index_changes n w block mode old_size new_size old_time time).2.
Proof. unfold index_changes, index_on_resize, index_on_time. wkeep. Qed.
Hint Resolve index_on_create_keep index_on_rename_keep index_changes_keep : keep.

Lemma refuse_keep {A} runs : forall w, holds w -> holds (refuse (A := A) w runs).2.
Proof. unfold refuse. cbn [snd]. induction runs as [|run runs IH]; intros; [auto|]. cbn [fold_left]. apply IH. unfold w_discard. auto with keep. Qed.
Hint Resolve refuse_keep : keep.
Lemma allocate_tree_keep w run : holds w -> holds (allocate_tree w run).2.
Proof. unfold allocate_tree. wkeep. Qed.
Hint Resolve allocate_tree_keep : keep.
Lemma create_keep n w block name mode uid gid time : holds w -> holds (create_blocks n w block name mode uid gid time).2.
Proof. unfold create_blocks. wkeep. Qed.
Lemma write_keep n w block offset src time : holds w -> holds (write_blocks n w block offset src time).2.
Proof. unfold write_blocks. wkeep. Qed.
Lemma truncate_keep n w block size time : holds w -> holds (truncate_blocks n w block size time).2.
Proof. unfold truncate_blocks. wkeep. Qed.
Lemma rename_keep n w block from to : holds w -> holds (rename_blocks n w block from to).2.
Proof. unfold rename_blocks. wkeep. Qed.
Hint Resolve write_keep : keep.
Lemma attr_dir_keep w block time : holds w -> holds (attr_dir w block time).2.
Proof. unfold attr_dir. wkeep. Qed.
Lemma attr_inode_create_keep n w block name type time : holds w -> holds (attr_inode_create n w block name type time).2.
Proof. unfold attr_inode_create. wkeep. Qed.
Hint Resolve attr_dir_keep attr_inode_create_keep : keep.
Lemma attr_write_impl_keep n w block name type offset src time : holds w -> holds (attr_write_impl n w block name type offset src time).2.
Proof. unfold attr_write_impl. wkeep. Qed.
Hint Resolve attr_write_impl_keep : keep.
Lemma attr_write_keep n w block name type offset src time : holds w -> holds (attr_write_blocks n w block name type offset src time).2.
Proof. unfold attr_write_blocks. wkeep. Qed.
End journaled.

(** * An open transaction is such an invariant *)

Lemma begun_discard {D} `{SectorDevice D} devs (fs0 fs : Fs D) :
  discard_ (vol fs0) = false -> begun devs fs0 fs -> discard_ (vol fs) = false.
Proof. intros Hd [_ _ _ _ _ _ _ (sb & used & c & ->)]. exact Hd. Qed.

Lemma begun_invariant {D} `{SectorDevice D} devs (fs0 : Fs D) :
  discard_ (vol fs0) = false -> TxnInvariant (begun devs fs0).
Proof.
  intros Hd. split.
  - intros fs b HB. exact (begun_step devs fs0 fs _ HB (step_read fs b)).
  - intros fs b data HB. exact (begun_step devs fs0 fs _ HB (step_write fs b data)).
  - intros fs used HB. exact (begun_step devs fs0 fs _ HB (step_used fs used)).
  - intros fs HB. exact (begun_step devs fs0 fs _ HB (step_flush fs)).
  - intros fs run HB. unfold discard_run. now rewrite (begun_discard devs fs0 fs Hd HB).
Qed.

Lemma begun_direct {D} `{SectorDevice D} (fs0 : Fs D) : DirectInvariant (begun (fun _ => True) fs0).
Proof.
  split. intros fs b data [B1 B2 B3 B4 B5 B6 B7 (sb & used & c & B8)]. unfold write_block_now. simpl.
  destruct (negb _); [|destruct (write_sectors _ _ _ _)]; simpl; split; simpl; auto; rewrite B8; eexists _, _, _; reflexivity.
Qed.

(** What an open transaction's steps also keep of the journal and of the
    superblock in memory. *)
Record logging {D} `{SectorDevice D} (devs : D -> Prop) (fs0 fs : Fs D) : Prop := {
  lg_begun : begun devs fs0 fs;
  lg_size : block_size_ (jnl fs) = block_size_ (jnl fs0);
  lg_nodup : NoDup (map fst (entries_ (jnl fs)));
  lg_count : zlen (entries_ (jnl fs)) <= kMaxJournalBlocks;
  lg_super : super_describes (superblock_ (vol fs)) (vol fs0) /\
    le64 (superblock_ (vol fs)) superblock.kLogStart = log_start_ (vol fs0);
}.

Section logging.
Context {D : Type} `{SectorDevice D}.
Implicit Types fs : Fs D.

Lemma jlog_shape j b data :
  NoDup (map fst (entries_ j)) -> zlen (entries_ j) <= kMaxJournalBlocks ->
  let j' := (jlog j b data).2 in
  block_size_ j' = block_size_ j /\ NoDup (map fst (entries_ j')) /\ zlen (entries_ j') <= kMaxJournalBlocks.
Proof.
  intros Hn Hc j'. unfold j', jlog. clear j'. destruct (negb _); [auto|]. destruct (replace_entry _ _ _) as [es|] eqn:E.
  - apply replace_entry_spec in E as (H1 & _). simpl. rewrite H1. splits; auto.
    unfold zlen in *. now rewrite <- (length_map fst es), H1, length_map.
  - apply replace_entry_None in E. destruct (Z.leb_spec kMaxJournalBlocks (zlen (entries_ j))); [auto|]. simpl.
    splits; [auto| |rewrite zlen_app; unfold zlen at 2; simpl; lia].
    rewrite map_app. apply NoDup_app. splits; auto; [|apply NoDup_singleton].
    intros x Hx ->%list_elem_of_singleton. auto.
Qed.

Lemma logging_write devs fs0 fs b data : logging devs fs0 fs -> logging devs fs0 (write_block fs b data).2.
Proof.
  intros [L1 L2 L3 L4 L5]. pose proof (be_attached _ _ _ L1) as Ha. pose proof (be_active _ _ _ L1) as Ht.
  pose proof (begun_write devs fs0 fs b data L1) as HB. revert HB. unfold write_block, in_transaction. simpl. rewrite Ha, Ht. simpl.
  destruct (jlog_shape (jnl fs) b data L3 L4) as (J1 & J2 & J3). destruct (jlog (jnl fs) b data) as [ok j]. simpl in *.
  intros HB. split; simpl; auto. congruence.
Qed.

Lemma logging_read devs fs0 fs b : logging devs fs0 fs -> logging devs fs0 (read_block fs b).2.
Proof.
  intros [L1 L2 L3 L4 L5]. pose proof (begun_step devs fs0 fs _ L1 (step_read fs b)) as HB. revert HB. unfold read_block.
  destruct (if attached fs then _ else _); [now split|]. destruct (line_valid _ && _); [now split|].
  destruct (read_block_now fs b); now split.
Qed.

Lemma logging_invariant devs fs0 : discard_ (vol fs0) = false -> TxnInvariant (logging devs fs0).
Proof.
  intros Hd. pose proof (begun_invariant devs fs0 Hd) as HB. split; intros fs.
  - intros b. apply logging_read.
  - intros b data. apply logging_write.
  - intros used [L1 L2 L3 L4 [L5 L6]]. split; [exact (ti_used fs used L1)|auto..]. simpl. split; [now apply super_describes_used|].
    rewrite <- L6. unfold superblock.kUsedBlocks, superblock.kLogStart. rewrite put_le64_blit by lia.
    apply le64_blit_disj; rewrite ?zlen_le_split; lia.
  - intros [L1 L2 L3 L4 L5]. unfold flush_superblock, in_transaction. rewrite (be_attached _ _ _ L1), (be_active _ _ _ L1). now split.
  - intros run [L1 L2 L3 L4 L5]. unfold discard_run. rewrite (begun_discard devs fs0 fs Hd L1). now split.
Qed.

Lemma logging_direct fs0 : DirectInvariant (logging (fun _ => True) fs0).
Proof.
  split. intros fs b data [L1 L2 L3 L4 L5]. pose proof (begun_direct fs0) as HB. pose proof (di_now fs b data L1) as HB'.
  revert HB'. unfold write_block_now. simpl. destruct (negb _); [|destruct (write_sectors _ _ _ _)]; intros HB'; now split.
Qed.

Lemma logging_begin (devs : D -> Prop) fs0 :
  volume_ (jnl fs0) = true -> super_in_step (vol fs0) -> txn_ready (begin fs0) -> devs (dev fs0) -> logging devs fs0 (begin fs0).
Proof.
  intros Hv Hs Hr Hd. split; [apply begun_begin; auto; exact (tr_attached _ Hr)|reflexivity|constructor| |exact (tr_memory _ Hr)].
  unfold kMaxJournalBlocks. simpl. rewrite zlen_nil. lia.
Qed.

(** An open transaction whose logged blocks are blocks of the volume outside
    the log is one the journal can commit. *)
Lemma logging_ready devs fs0 fs :
  logging devs fs0 fs -> txn_ready (begin fs0) ->
  Forall (fun e => entry_ok (vol fs0) e /\ ~ BlockStore.in_run (vol fs0) (log_ (vol fs0)) e.1) (entries_ (jnl fs)) ->
  sector (dev fs) 1 = sector (dev fs0) 1 -> txn_ready fs.
Proof.
  intros [L1 L2 L3 L4 L5] [R1 R2 R3 R4 R5 R6 R7 R8 R9 R10 R11] He Hsec. destruct L1 as [B1 B2 B3 B4 B5 B6 B7 (sb & used & c & B8)].
  split; rewrite ?B8; auto.
  - destruct R1. now split.
  - destruct R4. now split.
  - split; rewrite ?B8; auto; [rewrite L2; exact (jok_size _ _ R7)| |congruence].
    apply (Forall_impl _ _ _ He). intros e [[E1 E2] _]. now split.
  - apply (Forall_impl _ _ _ He). intros e [_ E]. exact E.
  - rewrite B8 in L5. destruct L5 as [L5 L6]. split; [destruct L5; now split|exact L6].
  - rewrite Hsec. destruct R11 as [R11 R12]. split; [destruct R11; now split|exact R12].
Qed.
End logging.

(** * The operations of the writer *)

Inductive operation :=
| Create (parent_block : Z) (name : bytes) (mode uid gid time : Z)
| SetOwnerMode (inode_block uid gid mode : Z)
| Write (inode_block offset : Z) (src : bytes) (time : Z)
| Truncate (inode_block size time : Z)
| Remove (parent_block : Z) (name : bytes)
| Rename (parent_block : Z) (from to : bytes)
| AttrWrite (inode_block : Z) (name : bytes) (type offset : Z) (src : bytes) (time : Z)
| AttrRemove (inode_block : Z) (name : bytes)
| IndexInsert (index_block : Z) (key : bytes) (value : Z)
| IndexRemove (index_block : Z) (key : bytes) (value : Z).

(** Those that add no block to a stream and write no file data. *)
Definition journaled (op : operation) : bool :=
  match op with SetOwnerMode _ _ _ _ | Remove _ _ | AttrRemove _ _ | IndexRemove _ _ _ => true | _ => false end.

Section operations.
Context {D : Type} `{SectorDevice D} (fuel : nat).
Implicit Types w : Writer D.

(** Whether the call returned true, whatever it returned besides. *)
Definition done {A} (res : option A * Writer D) : bool * Writer D :=
  (match res.1 with Some _ => true | None => false end, res.2).

Definition body (op : operation) w : bool * Writer D :=
  match op with
  | Create parent_block name mode uid gid time => done (create_blocks fuel w parent_block name mode uid gid time)
  | SetOwnerMode inode_block uid gid mode => done (set_owner_mode_blocks w inode_block uid gid mode)
  | Write inode_block offset src time => done (write_blocks fuel w inode_block offset src time)
  | Truncate inode_block size time => done (truncate_blocks fuel w inode_block size time)
  | Remove parent_block name => done (remove_blocks fuel w parent_block name)
  | Rename parent_block from to => done (rename_blocks fuel w parent_block from to)
  | AttrWrite inode_block name type offset src time => done (attr_write_blocks fuel w inode_block name type offset src time)
  | AttrRemove inode_block name => done (attr_remove_blocks fuel w inode_block name)
  | IndexInsert index_block key value => done (index_insert_blocks fuel w index_block key value)
  | IndexRemove index_block key value => done (index_remove_blocks w index_block key value)
  end.

Definition perform (op : operation) w : bool * Writer D :=
  match op with
  | Create parent_block name mode uid gid time => done (create fuel w parent_block name mode uid gid time)
  | SetOwnerMode inode_block uid gid mode => done (set_owner_mode w inode_block uid gid mode)
  | Write inode_block offset src time => done (write fuel w inode_block offset src time)
  | Truncate inode_block size time => done (truncate fuel w inode_block size time)
  | Remove parent_block name => done (remove fuel w parent_block name)
  | Rename parent_block from to => done (rename fuel w parent_block from to)
  | AttrWrite inode_block name type offset src time => done (attr_write fuel w inode_block name type offset src time)
  | AttrRemove inode_block name => done (attr_remove fuel w inode_block name)
  | IndexInsert index_block key value => done (index_insert fuel w index_block key value)
  | IndexRemove index_block key value => done (index_remove w index_block key value)
  end.

Lemma transact_refused {A} (f : Writer D -> option A * Writer D) w :
  active_ (jnl (w_fs w)) = false -> (done (f (with_fs w (begin (w_fs w))))).1 = false ->
  done (transact f w) = (false, give_back (f (with_fs w (begin (w_fs w)))).2).
Proof.
  intros Ha. unfold transact. rewrite Ha. destruct (f _) as [[a|] w1]; unfold done; simpl; [discriminate|reflexivity].
Qed.

(** The body that fails is abandoned. *)
Lemma perform_refused op w :
  active_ (jnl (w_fs w)) = false -> (body op (with_fs w (begin (w_fs w)))).1 = false ->
  perform op w = (false, give_back (body op (with_fs w (begin (w_fs w)))).2).
Proof.
  intros Ha. destruct op; unfold body, perform, create, set_owner_mode, write, truncate, remove, rename, attr_write,
    attr_remove, index_insert, index_remove; intros Hf; now rewrite transact_refused.
Qed.

Lemma body_keep (P : Fs D -> Prop) `{!TxnInvariant P} op w :
  journaled op = true \/ DirectInvariant P -> P (w_fs w) -> P (w_fs (body op w).2).
Proof.
  intros [Hj|Hd] HP; change (holds P w) in HP; change (holds P (body op w).2).
  - destruct op; try discriminate; unfold body, done; cbn [snd];
      [now apply set_owner_mode_keep|now apply remove_keep|now apply attr_remove_keep|now apply index_remove_blocks_keep].
  - destruct op; unfold body, done; cbn [snd]; [now apply create_keep|now apply set_owner_mode_keep|now apply write_keep
      |now apply truncate_keep|now apply remove_keep|now apply rename_keep|now apply attr_write_keep|now apply attr_remove_keep
      |now apply index_insert_blocks_keep|now apply index_remove_blocks_keep].
Qed.
End operations.

(** C3: An operation of the writer that fails before its commit gives back
    everything it did to the volume: the superblock's counts and cursors are
    those from before it, the journal is idle and empty.  A removal, a change of
    owner and mode, and a removal of an attribute or an index entry have then
    left the device untouched, and every block reads as the device holds it.
    (Without discard: a run freed is otherwise thrown away at once.) *)
Theorem failed_operation_restores {D} `{SectorDevice D} (fuel : nat) (op : operation) (w : Writer D) :
  attached (w_fs w) = true -> volume_ (jnl (w_fs w)) = true -> active_ (jnl (w_fs w)) = false ->
  super_in_step (vol (w_fs w)) -> discard_ (vol (w_fs w)) = false ->
  (body fuel op (with_fs w (begin (w_fs w)))).1 = false ->
  exists w', perform fuel op w = (false, w') /\
    vol (w_fs w') = with_cache (vol (w_fs w)) (cache_ (vol (w_fs w'))) /\
    active_ (jnl (w_fs w')) = false /\ entries_ (jnl (w_fs w')) = [] /\
    (journaled op = true -> dev (w_fs w') = dev (w_fs w) /\
       forall b, view (w_fs w') b = disk_block (vol (w_fs w)) (dev (w_fs w)) b).
Proof.
  intros Ha Hv Hi Hs Hd Hf. rewrite (perform_refused fuel op w Hi Hf). eexists. split; [reflexivity|].
  assert (Hkeep : forall devs : D -> Prop, journaled op = true \/ DirectInvariant (begun devs (w_fs w)) -> devs (dev (w_fs w)) ->
    begun devs (w_fs w) (w_fs (body fuel op (with_fs w (begin (w_fs w)))).2)).
  { intros devs Hj Hdev. pose proof (begun_invariant devs (w_fs w) Hd). apply (body_keep fuel (begun devs (w_fs w)) op _ Hj). now apply begun_begin. }
  set (w1 := (body fuel op _).2) in *. cbn [w_fs give_back with_al with_fs].
  destruct (begun_abort _ _ _ (Hkeep (fun _ => True) (or_intror (begun_direct (w_fs w))) I) Hs) as (_ & A2 & A3 & A4 & _).
  splits; auto. intros Hj. pose proof (Hkeep (eq (dev (w_fs w))) (or_introl Hj) eq_refl) as HB.
  pose proof (be_dev _ _ _ HB) as HBd. destruct (begun_abort _ _ _ HB Hs) as (A1 & _ & _ & _ & A5). rewrite <- HBd in *. auto.
Qed.

(** * Operations across a crash *)

Section commit_discard.
Context {D : Type} `{SectorDevice D}.
Implicit Types fs : Fs D.

Lemma write_now_discard fs b data : discard_ (vol (write_block_now fs b data).2) = discard_ (vol fs).
Proof. unfold write_block_now. destruct (negb _); [reflexivity|]. now destruct (write_sectors _ _ _ _). Qed.
Lemma super_now_discard fs : discard_ (vol (write_superblock_now fs).2) = discard_ (vol fs).
Proof. unfold write_superblock_now. destruct (negb _); [reflexivity|]. now destruct (write_sectors _ _ _ _). Qed.
Lemma write_log_discard es : forall fs log_block length position,
  discard_ (vol (write_log fs log_block length position es).2) = discard_ (vol fs).
Proof.
  induction es as [|[b data] es IH]; intros; cbn [write_log]; [reflexivity|].
  pose proof (write_now_discard fs (log_block + position) data) as E. destruct (write_block_now _ _ _) as [[] fs']; simpl in *; congruence.
Qed.
Lemma write_home_discard es : forall fs, discard_ (vol (write_home fs es).2) = discard_ (vol fs).
Proof.
  induction es as [|[b data] es IH]; intros; cbn [write_home]; [reflexivity|].
  pose proof (write_now_discard fs b data) as E. destruct (write_block_now _ _ _) as [[] fs']; simpl in *; congruence.
Qed.

Lemma commit_discard fs : discard_ (vol (commit fs).2) = discard_ (vol fs).
Proof.
  unfold commit. destruct (negb _); [reflexivity|]. destruct (_ =? 0); [reflexivity|]. destruct (_ || _); [reflexivity|].
  match goal with |- context [write_block_now ?f ?b ?x] => pose proof (write_now_discard f b x) as E1; destruct (write_block_now f b x) as [ok1 fs1] end.
  destruct (negb ok1); [exact E1|].
  match goal with |- context [write_log ?f ?b ?l ?p ?x] => pose proof (write_log_discard x f b l p) as E2; destruct (write_log f b l p x) as [[ok2 position] fs2] end.
  destruct (negb ok2); [simpl in *; congruence|].
  match goal with |- context [write_superblock_now ?f] => pose proof (super_now_discard f) as E3; destruct (write_superblock_now f) as [ok3 fs3] end.
  destruct (negb ok3); [simpl in *; congruence|].
  match goal with |- context [write_home ?f ?x] => pose proof (write_home_discard x f) as E4; destruct (write_home f x) as [ok4 fs4] end.
  destruct (negb ok4); [simpl in *; congruence|]. rewrite super_now_discard. simpl in *. congruence.
Qed.
End commit_discard.

(** The device after [finish] is the one the commit left, or the one the body
    left when there was none. *)
Lemma perform_dev {D} `{SectorDevice D} (fuel : nat) (op : operation) (w : Writer D) :
  active_ (jnl (w_fs w)) = false -> 
  let '(ok1, w1) := body fuel op (with_fs w (begin (w_fs w))) in
  discard_ (vol (w_fs w1)) = false ->
  let '(ok, w') := perform fuel op w in
  dev (w_fs w') = (if ok1 then dev (commit (w_fs w1)).2 else dev (w_fs w1)) /\ ok = (ok1 && (commit (w_fs w1)).1).
Proof.
  intros Ha.
  assert (Ht : forall A (f : Writer D -> option A * Writer D),
    let '(ok1, w1) := done (f (with_fs w (begin (w_fs w)))) in
    discard_ (vol (w_fs w1)) = false ->
    let '(ok, w') := done (transact f w) in
    dev (w_fs w') = (if ok1 then dev (commit (w_fs w1)).2 else dev (w_fs w1)) /\ ok = (ok1 && (commit (w_fs w1)).1)).
  { intros A f. unfold transact. rewrite Ha. destruct (f _) as [[a|] w1]; unfold done; cbn [fst snd finish]; intros Hd; [|now split].
    pose proof (commit_discard (w_fs w1)) as Hc. destruct (commit (w_fs w1)) as [[] fs2]; cbn [negb fst snd] in *; [|now split].
    unfold flush_discards. cbn [w_fs with_fs fst snd]. split; [|reflexivity]. destruct (_ && _); [|reflexivity].
    cbn [bs_discard fs_block_store]. unfold discard_run. now rewrite Hc, Hd. }
  destruct op as [p n m u g t|b u g m|b o s t|b s t|p n|p f t|b n y o s t|b n|b k x|b k x];
    [exact (Ht _ (fun w => create_blocks fuel w p n m u g t))|exact (Ht _ (fun w => set_owner_mode_blocks w b u g m))
    |exact (Ht _ (fun w => write_blocks fuel w b o s t))|exact (Ht _ (fun w => truncate_blocks fuel w b s t))
    |exact (Ht _ (fun w => remove_blocks fuel w p n))|exact (Ht _ (fun w => rename_blocks fuel w p f t))
    |exact (Ht _ (fun w => attr_write_blocks fuel w b n y o s t))|exact (Ht _ (fun w => attr_remove_blocks fuel w b n))
    |exact (Ht _ (fun w => index_insert_blocks fuel w b k x))|exact (Ht _ (fun w => index_remove_blocks w b k x))].
Qed.

Section old_crashes.
Context {D : Type} `{SectorDeviceLaws D} `{!PoweredDevice D} (fs0 : Fs D) (Hready : txn_ready fs0).

Lemma old_crashes (d d' : D) : phase_old fs0 d -> crashes d d' -> phase_old fs0 d'.
Proof.
  intros Ho. induction 1 as [d' Hs|d1 d' _ IH Hs].
  - now apply (phases_same fs0 d d' Hready Hs).
  - destruct (mount_idle fs0 Hready d1 (or_introl IH)) as [E _]. rewrite E in Hs. now apply (phases_same fs0 d1 d' Hready Hs).
Qed.

(** A transaction without entries reads as the device. *)
Lemma idle_view b : entries_ (jnl fs0) = [] -> view fs0 b = disk_block (vol fs0) (dev fs0) b.
Proof. intros E. unfold view, peek. rewrite E. simpl. now destruct (attached fs0). Qed.
End old_crashes.

(** The geometry of a volume whose transaction is open is the one from before
    it. *)
Lemma begun_geometry {D} `{SectorDeviceLaws D} devs (fs0 fs : Fs D) :
  begun devs fs0 fs ->
  log_length (vol fs) = log_length (vol fs0) /\ num_blocks_ (vol fs) = num_blocks_ (vol fs0) /\
  sectors_per_block (vol fs) = sectors_per_block (vol fs0) /\
  (forall b, home_block (vol fs) b <-> home_block (vol fs0) b) /\
  forall (d : D) b, disk_block (vol fs) d b = disk_block (vol fs0) d b.
Proof. intros [_ _ _ _ _ _ _ (sb & used & c & ->)]. splits; try reflexivity. Qed.

(** The same, for the transaction the body leaves. *)
Lemma perform_crash {D} `{SectorDeviceLaws D} `{!PoweredDevice D}
    (fuel : nat) (op : operation) (w w' : Writer D) (ok : bool) (d : D) (cap : Z) :
  let fs1 := w_fs (body fuel op (with_fs w (begin (w_fs w)))).2 in
  active_ (jnl (w_fs w)) = false -> discard_ (vol fs1) = false ->
  txn_ready fs1 -> zlen (entries_ (jnl fs1)) + 1 < log_length (vol fs1) ->
  perform fuel op w = (ok, w') -> crashes (dev (w_fs w')) d ->
  powered d cap -> num_blocks_ (vol fs1) * sectors_per_block (vol fs1) <= cap ->
  exists fs2, mount d = (true, fs2) /\ log_start_ (vol fs2) = log_end_ (vol fs2) /\
    let old := forall b, home_block (vol fs1) b -> disk_block (vol fs1) (dev fs2) b = disk_block (vol fs1) (dev fs1) b in
    let new := forall b, home_block (vol fs1) b -> disk_block (vol fs1) (dev fs2) b = view fs1 b in
    (old \/ new) /\ (ok = true -> new) /\ ((body fuel op (with_fs w (begin (w_fs w)))).1 = false -> old).
Proof.
  intros fs1 Hi Hd1 Hr Hroom Hp Hc Hpow Hcap. subst fs1.
  pose proof (perform_dev fuel op w Hi) as Hdev. rewrite Hp in Hdev.
  destruct (body fuel op _) as [ok1 w1]. cbn [fst snd] in *. destruct (Hdev Hd1) as [Hdw Hok].
  assert (Hset : Recovery.settled (w_fs w1) (ok = true /\ entries_ (jnl (w_fs w1)) <> []) (dev (w_fs w')) /\
                 (ok1 = false -> phase_old (w_fs w1) (dev (w_fs w')))).
  { rewrite Hdw, Hok. destruct ok1; [|unfold Recovery.settled, phase_old; intuition discriminate].
    split; [|discriminate]. exact (commit_settled (w_fs w1) Hr (commit (w_fs w1)).1 (commit (w_fs w1)).2 (surjective_pairing _)). }
  destruct Hset as [Hset Hold]. eapply settled_crashes in Hset; [|exact Hr|exact Hroom|exact Hc].
  assert (Hold' : ok1 = false -> phase_old (w_fs w1) d) by (intros E; exact (old_crashes (w_fs w1) Hr _ d (Hold E) Hc)).
  exists (mount d).2. rewrite (surjective_pairing (mount d)) at 1.
  assert (Hidle : phase_old (w_fs w1) d \/ phase_done (w_fs w1) d -> dev (mount d).2 = d /\
    (mount d).1 = true /\ log_start_ (vol (mount d).2) = log_end_ (vol (mount d).2)).
  { intros Hph. destruct (mount_idle (w_fs w1) Hr d Hph) as [E Hm]. split; [exact E|now apply (Hm cap)]. }
  destruct ok1.
  - destruct Hset as [Hdone|[[Hl Hne]|[Ho Hn]]].
    + destruct (Hidle (or_intror Hdone)) as (E & -> & Hlog). rewrite E. destruct Hdone as [_ Hdone].
      splits; auto; discriminate.
    + destruct (mount_phase (w_fs w1) Hr Hroom d Hne Hl) as [_ Hm]. destruct (Hm cap Hpow Hcap) as (-> & [_ Hdone] & Hlog).
      splits; auto; discriminate.
    + destruct (Hidle (or_introl Ho)) as (E & -> & Hlog). rewrite E. destruct Ho as [_ Ho]. splits; auto.
      intros Hok1 b Hb. destruct (decide (entries_ (jnl (w_fs w1)) = [])) as [He|He]; [|tauto].
      rewrite (idle_view (w_fs w1) b He). now apply Ho.
  - pose proof (Hold' eq_refl) as Ho. destruct (Hidle (or_introl Ho)) as (E & -> & Hlog). rewrite E. destruct Ho as [_ Ho].
    splits; auto. rewrite Hok. discriminate.
Qed.

(** C2: An operation of the writer is all or nothing across crashes, when it
    starts on a clean volume (no transaction open, the log empty, both
    superblocks in step: [txn_ready] of the transaction it opens), without
    discard, and what it logs is whole blocks of the volume outside the log that
    leave the log a free block; an operation that also writes past the journal
    must have left the device's superblock alone.  Whatever the device refused
    or lost while it ran, a mount of what is left, after however many mounts were
    cut short, succeeds and finds every block outside the log either as the
    device held it when the commit began or as the operation's own writes had
    it: the latter when it returned true, the former when it failed before its
    commit.  For the operations that only write through the journal, the device
    at the commit is the one from before the operation. *)
Theorem operation_crash_atomic {D} `{SectorDeviceLaws D} `{!PoweredDevice D}
    (fuel : nat) (op : operation) (w w' : Writer D) (ok : bool) (d : D) (cap : Z) :
  let v := vol (w_fs w) in
  let fs1 := w_fs (body fuel op (with_fs w (begin (w_fs w)))).2 in
  volume_ (jnl (w_fs w)) = true -> active_ (jnl (w_fs w)) = false -> super_in_step v -> discard_ v = false ->
  txn_ready (begin (w_fs w)) ->
  Forall (fun e => entry_ok v e /\ ~ BlockStore.in_run v (log_ v) e.1) (entries_ (jnl fs1)) ->
  zlen (entries_ (jnl fs1)) + 1 < log_length v ->
  (journaled op = false -> sector (dev fs1) 1 = sector (dev (w_fs w)) 1) ->
  perform fuel op w = (ok, w') -> crashes (dev (w_fs w')) d ->
  powered d cap -> num_blocks_ v * sectors_per_block v <= cap ->
  exists fs2, mount d = (true, fs2) /\ log_start_ (vol fs2) = log_end_ (vol fs2) /\
    let old := forall b, home_block v b -> disk_block v (dev fs2) b = disk_block v (dev fs1) b in
    let new := forall b, home_block v b -> disk_block v (dev fs2) b = view fs1 b in
    (old \/ new) /\ (ok = true -> new) /\ ((body fuel op (with_fs w (begin (w_fs w)))).1 = false -> old) /\
    (journaled op = true -> dev fs1 = dev (w_fs w)).
Proof.
  intros v fs1 Hv Hi Hs Hd Hr0 He Hroom Hsec Hp Hc Hpow Hcap. subst v fs1.
  assert (Hkeep : forall devs : D -> Prop, journaled op = true \/ DirectInvariant (logging devs (w_fs w)) -> devs (dev (w_fs w)) ->
    logging devs (w_fs w) (w_fs (body fuel op (with_fs w (begin (w_fs w)))).2)).
  { intros devs Hj Hdev. pose proof (logging_invariant devs (w_fs w) Hd).
    apply (body_keep fuel (logging devs (w_fs w)) op _ Hj). now apply logging_begin. }
  pose proof (Hkeep (fun _ => True) (or_intror (logging_direct (w_fs w))) I) as Hlog1.
  assert (Hj : journaled op = true -> dev (w_fs (body fuel op (with_fs w (begin (w_fs w)))).2) = dev (w_fs w)).
  { intros Hj. symmetry. exact (be_dev _ _ _ (lg_begun _ _ _ (Hkeep (eq (dev (w_fs w))) (or_introl Hj) eq_refl))). }
  assert (Hr : txn_ready (w_fs (body fuel op (with_fs w (begin (w_fs w)))).2)).
  { apply (logging_ready _ _ _ Hlog1 Hr0 He). destruct (journaled op); [now rewrite Hj|auto]. }
  pose proof (begun_discard _ _ _ Hd (lg_begun _ _ _ Hlog1)) as Hd1.
  destruct (begun_geometry _ _ _ (lg_begun _ _ _ Hlog1)) as (G1 & G2 & G3 & G4 & G5).
  rewrite <- G1 in Hroom. rewrite <- G2, <- G3 in Hcap.
  destruct (perform_crash fuel op w w' ok d cap) as (fs2 & E1 & E2 & E3 & E4 & E5); auto.
  exists fs2. cbv zeta. splits; auto.
  - destruct E3 as [E|E]; [left|right]; intros b Hb; specialize (E b (proj2 (G4 b) Hb)); now rewrite ?G5 in E.
  - intros Hok b Hb. specialize (E4 Hok b (proj2 (G4 b) Hb)). now rewrite G5 in E4.
  - intros Hok b Hb. specialize (E5 Hok b (proj2 (G4 b) Hb)). now rewrite !G5 in E5.
Qed.

(** ** On a concrete volume *)

Module SampleFailure.
(** A file with an empty application signature, as another system may leave
    one: removing it changes the inode and then fails in the index. *)
Definition inode : bytes :=
  match small_set (view (w_fs SampleWriter.with_file) 62) 1024 77 kAppSigIndex [] with Some b => b | None => [] end.
Definition disk : Disk.disk := Sample.put_block (dev (w_fs SampleWriter.with_file)) 62 inode.
Definition writer : Writer Disk.disk :=
  (writer_open (mkWriter (mkFs disk (open new_volume disk true).2 new_journal false) new_allocator [] [] [] [] [] 0 0)).2.
Definition op : operation := AttrRemove 62 kAppSigIndex.
Lemma fails_late :
  let '(ok, w) := body 8 op (with_fs writer (begin (w_fs writer))) in ok = false /\ view (w_fs w) 62 <> view (w_fs writer) 62.
Proof. vm_compute. split; [reflexivity|congruence]. Qed.
End SampleFailure.

Lemma failed_operation_restores_witness :
  exists w', perform 8 SampleFailure.op SampleFailure.writer = (false, w') /\
    dev (w_fs w') = dev (w_fs SampleFailure.writer) /\ view (w_fs w') 62 = SampleFailure.inode.
Proof.
  destruct (failed_operation_restores 8 SampleFailure.op SampleFailure.writer) as (w' & E & _ & _ & _ & Hj);
    [vm_compute; reflexivity..|split; vm_compute; reflexivity|vm_compute; reflexivity|vm_compute; reflexivity|].
  destruct (Hj eq_refl) as [Hd Hv]. exists w'. split; [exact E|]. split; [exact Hd|]. rewrite Hv. vm_compute. reflexivity.
Defined.

Module SampleCrash.
(** A file is removed, and the power goes after [writes] writes. *)
Definition writer (writes : nat) : Writer Disk.disk :=
  let w := SampleWriter.with_file in
  with_fs w (with_dev (w_fs w) (Disk.mkDisk (Disk.contents (dev (w_fs w))) (Some writes) (Disk.trimmed (dev (w_fs w))))).
Definition op : operation := Remove 50 [97].
Notation inner n := (w_fs (body 8 op (with_fs (writer n) (begin (w_fs (writer n))))).2).
Definition left_ (writes : nat) : Disk.disk := dev (w_fs (perform 8 op (writer writes)).2).
(** What a first mount, cut short after one write, leaves. *)
Definition cut (d : Disk.disk) : Disk.disk :=
  dev (mount (Disk.mkDisk (Disk.contents d) (Some 1%nat) (Disk.trimmed d))).2.

Definition sb : bytes := Eval vm_compute in superblock_ (vol (w_fs SampleWriter.with_file)).
Lemma described n : super_describes sb (vol (w_fs (writer n))).
Proof. split; try (vm_compute; reflexivity). apply bytes_okb_true. vm_compute. reflexivity. Qed.

Lemma in_step n : super_in_step (vol (w_fs (writer n))).
Proof. split; vm_compute; reflexivity. Qed.

Lemma begin_vol (fs : Fs Disk.disk) : vol (begin fs) = vol fs.
Proof. reflexivity. Qed.
Lemma begin_dev (fs : Fs Disk.disk) : dev (begin fs) = dev fs.
Proof. reflexivity. Qed.

Lemma opened n : txn_ready (begin (w_fs (writer n))).
Proof.
  assert (Hsup : superblock_ (vol (w_fs (writer n))) = sb) by (vm_compute; reflexivity).
  assert (Hdev : sector (dev (w_fs (writer n))) 1 = sb) by (vm_compute; reflexivity).
  split; try (vm_compute; reflexivity).
  - split; vm_compute; intuition congruence.
  - vm_compute. congruence.
  - split; vm_compute; intuition congruence.
  - split; [vm_compute; reflexivity|constructor|constructor|vm_compute; congruence|discriminate].
  - constructor.
  - vm_compute. intuition congruence.
  - rewrite begin_vol, Hsup. split; [apply described|vm_compute; reflexivity].
  - rewrite begin_vol, begin_dev, Hdev. split; [apply described|vm_compute; reflexivity].
Qed.

(** The three blocks it logs: the directory's leaf, the index's, the bitmap. *)
Definition fits (e : Z * bytes) : bool :=
  (1 <=? e.1) && (e.1 <? 128) && (zlen e.2 =? 1024) && bytes_okb e.2 && ((e.1 <? 2) || (34 <=? e.1)).
Lemma logged n :
  Forall (fun e => entry_ok (vol (w_fs (writer n))) e /\ ~ BlockStore.in_run (vol (w_fs (writer n))) (log_ (vol (w_fs (writer n)))) e.1)
    (entries_ (jnl (inner n))) /\ map fst (entries_ (jnl (inner n))) = [52; 61; 1].
Proof.
  assert (Hf : forallb fits (entries_ (jnl (inner n))) = true) by (vm_compute; reflexivity).
  split; [|vm_compute; reflexivity]. rewrite forallb_forall in Hf. apply Forall_forall. intros e He%list_elem_of_In. apply Hf in He.
  unfold fits in He. breflect.
  assert (Hv : num_blocks_ (vol (w_fs (writer n))) = 128 /\ block_size (vol (w_fs (writer n))) = 1024 /\
    to_block (vol (w_fs (writer n))) (log_ (vol (w_fs (writer n)))) = 2 /\ run_length (log_ (vol (w_fs (writer n)))) = 32)
    by (vm_compute; auto).
  destruct Hv as (V1 & V2 & V3 & V4). unfold entry_ok, client_block, BlockStore.in_run. rewrite V1, V2, V3, V4. splits; auto; try lia.
  now apply bytes_okb_true.
Qed.

Lemma rebooted_powered d : 256 <= zlen (Disk.contents d) -> powered (Sample.reboot d) 256.
Proof. apply Sample.reboot_powered. Qed.

Lemma cut_crashes d : crashes d (Sample.reboot (cut d)).
Proof.
  apply (crash_mount d (Disk.mkDisk (Disk.contents d) (Some 1%nat) (Disk.trimmed d))); [|apply Sample.reboot_same].
  apply crash_reboot. intros s Hs. reflexivity.
Qed.

Lemma left_crashes n : crashes (dev (w_fs (perform 8 op (writer n)).2)) (Sample.reboot (cut (left_ n))).
Proof. unfold left_. apply cut_crashes. Qed.

(** Which of the two a mount finds: block 52 tells. *)
Definition reads_old (n : nat) (d : Disk.disk) : bool :=
  bool_decide (disk_block (vol (w_fs (writer n))) (dev (mount d).2) 52 = disk_block (vol (w_fs (writer n))) (dev (inner n)) 52).
Definition reads_new (n : nat) (d : Disk.disk) : bool :=
  bool_decide (disk_block (vol (w_fs (writer n))) (dev (mount d).2) 52 = view (inner n) 52).
Lemma home_52 n : home_block (vol (w_fs (writer n))) 52.
Proof. split; [split; vm_compute; congruence|]. intros [_ Hx]. vm_compute in Hx. discriminate Hx. Qed.
End SampleCrash.

(** The power goes after four writes, before the superblock names the log's
    entry: the file is still there.  It goes after six, one block being
    checkpointed, and again after the first write of the mount that follows: the
    next mount finds the removal whole. *)
Lemma operation_crash_atomic_witness :
  (exists fs2, mount (Sample.reboot (SampleCrash.left_ 4)) = (true, fs2) /\
     forall b, home_block (vol (w_fs (SampleCrash.writer 4))) b ->
       disk_block (vol (w_fs (SampleCrash.writer 4))) (dev fs2) b =
       disk_block (vol (w_fs (SampleCrash.writer 4))) (dev (w_fs (SampleCrash.writer 4))) b) /\
  (exists fs2, mount (Sample.reboot (SampleCrash.cut (SampleCrash.left_ 6))) = (true, fs2) /\
     forall b, home_block (vol (w_fs (SampleCrash.writer 6))) b ->
       disk_block (vol (w_fs (SampleCrash.writer 6))) (dev fs2) b =
       view (w_fs (body 8 SampleCrash.op (with_fs (SampleCrash.writer 6) (begin (w_fs (SampleCrash.writer 6))))).2) b).
Proof.
  split.
  - pose proof (operation_crash_atomic 8 SampleCrash.op (SampleCrash.writer 4) _ _ (Sample.reboot (SampleCrash.left_ 4)) 256
      ltac:(vm_compute; reflexivity) ltac:(vm_compute; reflexivity) (SampleCrash.in_step _) ltac:(vm_compute; reflexivity)
      (SampleCrash.opened _) (proj1 (SampleCrash.logged _)) ltac:(vm_compute; reflexivity) ltac:(intros Hf; discriminate Hf)
      (surjective_pairing _) (crash_reboot _ _ (Sample.reboot_same _))
      ltac:(apply SampleCrash.rebooted_powered; vm_compute; congruence) ltac:(vm_compute; congruence))
      as (fs2 & Hm & _ & Hon & _ & _ & Hj).
    exists fs2. split; [exact Hm|]. destruct Hon as [Ho|Hn]; [intros b Hb; rewrite <- (Hj eq_refl); exact (Ho b Hb)|exfalso].
    specialize (Hn 52 (SampleCrash.home_52 _)). assert (E : SampleCrash.reads_new 4 (Sample.reboot (SampleCrash.left_ 4)) = false) by (vm_compute; reflexivity).
    unfold SampleCrash.reads_new in E. rewrite Hm in E. apply bool_decide_eq_false in E. exact (E Hn).
  - pose proof (operation_crash_atomic 8 SampleCrash.op (SampleCrash.writer 6) _ _
      (Sample.reboot (SampleCrash.cut (SampleCrash.left_ 6))) 256
      ltac:(vm_compute; reflexivity) ltac:(vm_compute; reflexivity) (SampleCrash.in_step _) ltac:(vm_compute; reflexivity)
      (SampleCrash.opened _) (proj1 (SampleCrash.logged _)) ltac:(vm_compute; reflexivity) ltac:(intros Hf; discriminate Hf)
      (surjective_pairing _) (SampleCrash.left_crashes 6)
      ltac:(apply SampleCrash.rebooted_powered; vm_compute; congruence) ltac:(vm_compute; congruence))
      as (fs2 & Hm & _ & Hon & _ & _ & _).
    exists fs2. split; [exact Hm|]. destruct Hon as [Ho|Hn]; [exfalso|exact Hn].
    specialize (Ho 52 (SampleCrash.home_52 _)). assert (E : SampleCrash.reads_old 6 (Sample.reboot (SampleCrash.cut (SampleCrash.left_ 6))) = false)
      by (vm_compute; reflexivity).
    unfold SampleCrash.reads_old in E. rewrite Hm in E. apply bool_decide_eq_false in E. exact (E Ho).
Defined.
