(* ===== verification/Pattern.v ===== *)
(** AmigaDOS wildcards (libs/freestanding/aegir-pattern, src/pattern.cc): the
    matcher over index spans of a pattern and a name, and the language a pattern
    stands for.  The theorems: the recursion ends, and on a pattern written from
    its syntax tree the matcher accepts exactly the tree's language. *)
From stdpp Require Import base numbers list.
From Stdlib Require Import ZArith Lia.
From S2P Require Import Prelude.

(** A [char] is its value; a pattern and a name are lists of them, and an index
    is a natural number: the arithmetic on [uint32_t] indices does not wrap for
    lengths below 2^32 - 2. *)
Notation chars := (list Z).
Definition at_index (p : chars) (i : nat) : Z := nth i p 0.

Module Char.
Definition quote : Z := 39.
Definition percent : Z := 37.
Definition hash : Z := 35.
Definition lparen : Z := 40.
Definition rparen : Z := 41.
Definition minus : Z := 45.
Definition question : Z := 63.
Definition lbracket : Z := 91.
Definition rbracket : Z := 93.
Definition bar : Z := 124.
Definition tilde : Z := 126.
End Char.

(** * The matcher *)

Definition fold (c : Z) : Z := if (65 <=? c) && (c <=? 90) then c - 65 + 97 else c.

(** [while (i < pe && p[i] != ']') ++i] *)
Fixpoint class_close (n : nat) (p : chars) (pe i : nat) : nat :=
  match n with
  | O => i
  | S n => if (i <? pe)%nat && negb (at_index p i =? Char.rbracket) then class_close n p pe (S i) else i
  end.

(** [for (i = at; i < pe; ++i)] with the depth of parentheses. *)
Fixpoint group_close (n : nat) (p : chars) (pe i : nat) (depth : Z) : nat :=
  match n with
  | O => pe
  | S n =>
    if (pe <=? i)%nat then pe
    else if at_index p i =? Char.lparen then group_close n p pe (S i) (depth + 1)
    else if at_index p i =? Char.rparen then
      if depth - 1 =? 0 then S i else group_close n p pe (S i) (depth - 1)
    else group_close n p pe (S i) depth
  end.

(** The index past the expression at [at_]; [n] bounds a row of [#] and [~]. *)
Fixpoint expr_end_from (n : nat) (p : chars) (pe at_ : nat) : nat :=
  if (pe <=? at_)%nat then at_
  else
    let c := at_index p at_ in
    if c =? Char.quote then if (at_ + 2 <=? pe)%nat then at_ + 2 else pe
    else if c =? Char.lbracket then
      let i := class_close (pe - at_) p pe (S at_) in
      if (i <? pe)%nat then S i else pe
    else if c =? Char.lparen then group_close (S (pe - at_)) p pe at_ 0
    else if (c =? Char.hash) || (c =? Char.tilde) then
      match n with O => at_ | S n => expr_end_from n p pe (S at_) end
    else S at_.
Definition expr_end (p : chars) (pe at_ : nat) : nat := expr_end_from (pe - at_) p pe at_.

(** [while (i + 1 < ge)] *)
Fixpoint alternative_end_from (n : nat) (p : chars) (ge i : nat) (depth : Z) : nat :=
  match n with
  | O => i
  | S n =>
    if (ge <=? S i)%nat then i
    else if at_index p i =? Char.lparen then alternative_end_from n p ge (S i) (depth + 1)
    else if at_index p i =? Char.rparen then alternative_end_from n p ge (S i) (depth - 1)
    else if (at_index p i =? Char.bar) && (depth =? 0) then i
    else alternative_end_from n p ge (S i) depth
  end.
Definition alternative_end (p : chars) (ge at_ : nat) : nat := alternative_end_from (ge - at_) p ge at_ 0.

(** The group's alternatives, [for (a = pi + 1; a + 1 < ge; a = ae + 1)]. *)
Fixpoint alternatives (n : nat) (p : chars) (ge a : nat) : list (nat * nat) :=
  match n with
  | O => []
  | S n =>
    if (ge <=? S a)%nat then []
    else let ae := alternative_end p ge a in (a, ae) :: alternatives n p ge (S ae)
  end.

(** The loop over the members of a class that ends at [last]. *)
Fixpoint class_scan (n : nat) (p : chars) (i last : nat) (ch : Z) (found : bool) : bool :=
  match n with
  | O => found
  | S n =>
    if (last <=? i)%nat then found
    else if (i + 2 <? last)%nat && (at_index p (i + 1) =? Char.minus) then
      let inside := (fold (at_index p i) <=? fold ch) && (fold ch <=? fold (at_index p (i + 2))) in
      class_scan n p (i + 3) last ch (found || inside)
    else class_scan n p (S i) last ch (found || (fold ch =? fold (at_index p i)))
  end.
Definition class_has (p : chars) (at_ ce : nat) (ch : Z) : bool :=
  let negated := (S at_ <? ce - 1)%nat && (at_index p (S at_) =? Char.tilde) in
  let i := (if negated then at_ + 2 else S at_)%nat in
  xorb (class_scan (ce - i) p i (ce - 1) ch false) negated.

(** [a && b] and [for (x : xs) if (f(x)) return true; return false], where
    [None] is a recursion that has not ended. *)
Definition andthen (a : option bool) (b : option bool) : option bool :=
  match a with Some true => b | r => r end.
Fixpoint try_each {A} (f : A -> option bool) (xs : list A) : option bool :=
  match xs with
  | [] => Some false
  | x :: xs => match f x with Some false => try_each f xs | r => r end
  end.

(** [for (mid = from; mid <= to; ++mid)] *)
Definition mids (from to : nat) : list nat := seq from (S to - from).

Fixpoint match_sub (fuel : nat) (p : chars) (pi pe : nat) (s : chars) (ni ne : nat) {struct fuel} : option bool :=
  match fuel with
  | O => None
  | S fuel =>
    if (pe <=? pi)%nat then Some (ne <=? ni)%nat
    else
      let c := at_index p pi in
      let one := (ni <? ne)%nat in
      if c =? Char.hash then
        let xe := expr_end p pe (S pi) in match_rep fuel p (S pi) xe xe pe s ni ne
      else if c =? Char.tilde then
        let xe := expr_end p pe (S pi) in
        try_each (fun mid => andthen (option_map negb (match_sub fuel p (S pi) xe s ni mid)) (match_sub fuel p xe pe s mid ne))
          (mids ni ne)
      else if c =? Char.lparen then
        let ge := expr_end p pe pi in
        if (ge <? pi + 2)%nat || negb (at_index p (ge - 1) =? Char.rparen) then Some false
        else
          try_each (fun '(a, ae) =>
            try_each (fun mid => andthen (match_sub fuel p a ae s ni mid) (match_sub fuel p ge pe s mid ne)) (mids ni ne))
            (alternatives ge p ge (S pi))
      else if c =? Char.lbracket then
        let ce := expr_end p pe pi in
        if (ce <? pi + 2)%nat || negb (at_index p (ce - 1) =? Char.rbracket) then Some false
        else andthen (Some (one && class_has p pi ce (at_index s ni))) (match_sub fuel p ce pe s (S ni) ne)
      else if c =? Char.quote then
        andthen (Some ((S pi <? pe)%nat && one && (fold (at_index p (S pi)) =? fold (at_index s ni))))
          (match_sub fuel p (pi + 2) pe s (S ni) ne)
      else if c =? Char.percent then match_sub fuel p (S pi) pe s ni ne
      else if c =? Char.question then andthen (Some one) (match_sub fuel p (S pi) pe s (S ni) ne)
      else
        andthen (Some (one && (fold (at_index p pi) =? fold (at_index s ni)))) (match_sub fuel p (S pi) pe s (S ni) ne)
  end
with match_rep (fuel : nat) (p : chars) (xp xe rp pe : nat) (s : chars) (ni ne : nat) {struct fuel} : option bool :=
  match fuel with
  | O => None
  | S fuel =>
    match match_sub fuel p rp pe s ni ne with
    | Some false =>
      try_each (fun mid => andthen (match_sub fuel p xp xe s ni mid) (match_rep fuel p xp xe rp pe s mid ne)) (mids (S ni) ne)
    | r => r
    end
  end.

(** A depth that is always enough for spans of these lengths. *)
Definition depth_for (m n : nat) : nat := S (m * (n + 3)).

(** [match], for a pattern and a name that are not null. *)
Definition pattern_match (pattern name : chars) : option bool :=
  match_sub (depth_for (length pattern) (length name)) pattern 0 (length pattern) name 0 (length name).

(** * The recursion ends *)

Lemma group_close_bound n p pe i depth : (i <= pe)%nat -> (i <= group_close n p pe i depth <= pe)%nat.
Proof.
  revert i depth. induction n as [|n IH]; intros i depth Hi; cbn [group_close]; [lia|].
  destruct (Nat.leb_spec pe i); [lia|]. assert (Hs : forall d, (i <= group_close n p pe (S i) d <= pe)%nat).
  { intros d. specialize (IH (S i) d). lia. }
  destruct (_ =? Char.lparen); [apply Hs|]. destruct (_ =? Char.rparen); [|apply Hs]. destruct (depth - 1 =? 0); [lia|apply Hs].
Qed.

Lemma class_close_bound n p pe i : (i <= class_close n p pe i)%nat.
Proof.
  revert i. induction n as [|n IH]; intros i; cbn [class_close]; [lia|]. destruct (_ && _); [|lia]. specialize (IH (S i)). lia.
Qed.

(** An expression is not empty, and stays in its span. *)
Lemma expr_end_bound n p pe at_ : (at_ <= pe)%nat -> (at_ <= expr_end_from n p pe at_ <= pe)%nat.
Proof.
  revert at_. induction n as [|n IH]; intros at_ Ha; cbn [expr_end_from]; (destruct (Nat.leb_spec pe at_); [lia|]);
    (destruct (_ =? Char.quote); [destruct (Nat.leb_spec (at_ + 2) pe); lia|]);
    (destruct (_ =? Char.lbracket); [pose proof (class_close_bound (pe - at_) p pe (S at_)); destruct (Nat.ltb_spec (class_close (pe - at_) p pe (S at_)) pe); lia|]);
    (destruct (_ =? Char.lparen); [now apply group_close_bound|]); (destruct (_ || _); [|lia]); [lia|].
  specialize (IH (S at_)). lia.
Qed.

Lemma group_open n p pe i : (i < pe)%nat -> at_index p i = Char.lparen -> (i < group_close (S n) p pe i 0)%nat.
Proof.
  intros Hi Hc. cbn [group_close]. destruct (Nat.leb_spec pe i); [lia|]. rewrite Hc, Z.eqb_refl.
  pose proof (group_close_bound n p pe (S i) (0 + 1)). lia.
Qed.

Lemma alternative_end_bound n p ge i depth : (i <= alternative_end_from n p ge i depth)%nat /\
  ((S i <= ge)%nat -> (S (alternative_end_from n p ge i depth) <= ge)%nat).
Proof.
  revert i depth. induction n as [|n IH]; intros i depth; cbn [alternative_end_from]; [lia|].
  destruct (Nat.leb_spec ge (S i)); [lia|]. assert (Hs : forall d, (i <= alternative_end_from n p ge (S i) d)%nat /\
    ((S i <= ge)%nat -> (S (alternative_end_from n p ge (S i) d) <= ge)%nat)).
  { intros d. destruct (IH (S i) d) as [I1 I2]. lia. }
  destruct (_ =? Char.lparen); [apply Hs|]. destruct (_ =? Char.rparen); [apply Hs|]. destruct (_ && _); [lia|apply Hs].
Qed.

Lemma alternatives_bound n p ge a :
  Forall (fun '(b, be) => (a <= b)%nat /\ (b <= be)%nat /\ (S be <= ge)%nat) (alternatives n p ge a).
Proof.
  revert a. induction n as [|n IH]; intros a; cbn [alternatives]; [constructor|]. destruct (Nat.leb_spec ge (S a)); [constructor|].
  destruct (alternative_end_bound (ge - a) p ge a 0) as [H1 H2]. fold (alternative_end p ge a) in H1, H2. constructor; [lia|].
  apply (Forall_impl _ _ _ (IH (S (alternative_end p ge a)))). intros [b be]. lia.
Qed.

Lemma try_each_some {A} (f : A -> option bool) xs : Forall (fun x => is_Some (f x)) xs -> is_Some (try_each f xs).
Proof. induction 1 as [|x xs [[] E] _ IH]; cbn [try_each]; [eauto|rewrite E; eauto..]. Qed.

Lemma andthen_some a b : is_Some a -> is_Some b -> is_Some (andthen a b).
Proof. intros [[] ->] Hb; simpl; eauto. Qed.

Lemma mids_bound from to : Forall (fun mid => (from <= mid <= to)%nat) (mids from to).
Proof. apply Forall_forall. intros mid Hm. unfold mids in Hm. apply elem_of_seq in Hm. lia. Qed.

Lemma depth_mono m n m' n' : (m <= m')%nat -> (n <= n')%nat -> (depth_for m n <= depth_for m' n')%nat.
Proof. unfold depth_for. intros. apply le_n_S, Nat.mul_le_mono; lia. Qed.

Lemma mids_some from to (f : nat -> option bool) :
  (forall mid, (from <= mid <= to)%nat -> is_Some (f mid)) -> is_Some (try_each f (mids from to)).
Proof. intros Hf. apply try_each_some, (Forall_impl _ _ _ (mids_bound from to)). exact Hf. Qed.

(** The depth the recursion needs, for both functions. *)
Lemma match_ends fuel :
  (forall p pi pe s ni ne, (depth_for (pe - pi) (ne - ni) <= fuel)%nat -> is_Some (match_sub fuel p pi pe s ni ne)) /\
  (forall p xp xe rp pe s ni ne, (S (ne - ni) + depth_for (pe - xp) (ne - ni) <= fuel)%nat ->
     (xe <= pe)%nat -> (xp <= rp)%nat -> is_Some (match_rep fuel p xp xe rp pe s ni ne)).
Proof.
  induction fuel as [|fuel [IH1 IH2]]; [unfold depth_for; split; intros; nia|]. split.
  - intros p pi pe s ni ne Hf. cbn [match_sub]. destruct (Nat.leb_spec pe pi) as [|Hlt]; [eauto|].
    assert (Hsub : forall i j a b, (j - i <= pe - pi - 1)%nat -> (b - a <= ne - ni)%nat -> is_Some (match_sub fuel p i j s a b)).
    { intros i j a b Hij Hab. apply IH1. pose proof (depth_mono (j - i) (b - a) (pe - pi - 1) (ne - ni) Hij Hab).
      unfold depth_for in *. nia. }
    assert (Hx : (S pi <= expr_end p pe (S pi) <= pe)%nat) by (apply expr_end_bound; lia).
    assert (He : (pi <= expr_end p pe pi <= pe)%nat) by (apply expr_end_bound; lia).
    destruct (_ =? Char.hash) eqn:E1.
    { apply IH2; [unfold depth_for in *; nia|lia|lia]. }
    destruct (_ =? Char.tilde) eqn:E2.
    { apply mids_some. intros mid Hm. apply andthen_some; [|apply Hsub; lia].
      destruct (Hsub (S pi) (expr_end p pe (S pi)) ni mid ltac:(lia) ltac:(lia)) as [b ->]. eauto. }
    destruct (_ =? Char.lparen) eqn:E3.
    { destruct (_ || _) eqn:Eo; [eauto|]. apply orb_false_iff in Eo as [Eo _]. apply Nat.ltb_ge in Eo.
      apply try_each_some, (Forall_impl _ _ _ (alternatives_bound _ p _ _)). intros [a ae] Ha.
      apply mids_some. intros mid Hm. apply andthen_some; apply Hsub; lia. }
    destruct (_ =? Char.lbracket) eqn:E4.
    { destruct (_ || _) eqn:Eo; [eauto|]. apply orb_false_iff in Eo as [Eo _]. apply Nat.ltb_ge in Eo.
      apply andthen_some; [eauto|]. apply Hsub; lia. }
    repeat (destruct (_ =? _)); try apply andthen_some; try (eauto; fail); apply Hsub; lia.
  - intros p xp xe rp pe s ni ne Hf Hxe Hrp. cbn [match_rep].
    assert (Hsub : forall i j a b, (j - i <= pe - xp)%nat -> (b - a <= ne - ni)%nat -> is_Some (match_sub fuel p i j s a b)).
    { intros i j a b Hij Hab. apply IH1. pose proof (depth_mono (j - i) (b - a) (pe - xp) (ne - ni) Hij Hab). lia. }
    destruct (Hsub rp pe ni ne ltac:(lia) ltac:(lia)) as [[] ->]; [eauto|]. apply mids_some. intros mid Hm.
    apply andthen_some; [apply Hsub; lia|]. apply IH2; auto.
    pose proof (depth_mono (pe - xp) (ne - mid) (pe - xp) (ne - ni)). lia.
Qed.

(** * The language of a pattern *)

(** A pattern's syntax: [c], ['c], [?], [%], [[...]], [#X], [~X] and
    [(a|b)], and sequences of them. *)
Inductive expr :=
| Lit (c : Z)
| Quote (c : Z)
| AnyChar
| Nothing
| Class_ (negated : bool) (members : chars)
| Rep (e : expr)
| Not_ (e : expr)
| Group (a : alts)
with sequence := SNil | SCons (e : expr) (q : sequence)
with alts := One (q : sequence) | Alt (q : sequence) (a : alts).

Scheme expr_mut := Induction for expr Sort Prop
with sequence_mut := Induction for sequence Sort Prop
with alts_mut := Induction for alts Sort Prop.
Combined Scheme syntax_ind from expr_mut, sequence_mut, alts_mut.

Fixpoint print_expr (e : expr) : chars :=
  match e with
  | Lit c => [c]
  | Quote c => [Char.quote; c]
  | AnyChar => [Char.question]
  | Nothing => [Char.percent]
  | Class_ negated members => Char.lbracket :: (if negated then [Char.tilde] else []) ++ members ++ [Char.rbracket]
  | Rep e => Char.hash :: print_expr e
  | Not_ e => Char.tilde :: print_expr e
  | Group a => Char.lparen :: print_alts a ++ [Char.rparen]
  end
with print_seq (q : sequence) : chars :=
  match q with SNil => [] | SCons e q => print_expr e ++ print_seq q end
with print_alts (a : alts) : chars :=
  match a with One q => print_seq q | Alt q a => print_seq q ++ Char.bar :: print_alts a end.

(** The members of a class: characters, and ranges where a [-] is between two. *)
Fixpoint in_members (members : chars) (ch : Z) : bool :=
  match members with
  | [] => false
  | x :: rest =>
    match rest with
    | m :: y :: rest' =>
      if m =? Char.minus then ((fold x <=? fold ch) && (fold ch <=? fold y)) || in_members rest' ch
      else (fold ch =? fold x) || in_members rest ch
    | _ => (fold ch =? fold x) || in_members rest ch
    end
  end.

Inductive star (L : chars -> Prop) : chars -> Prop :=
| star_nil : star L []
| star_more t1 t2 : L t1 -> star L t2 -> star L (t1 ++ t2).

(** The names an expression stands for. *)
Fixpoint names (e : expr) (t : chars) : Prop :=
  match e with
  | Lit c | Quote c => exists x, t = [x] /\ fold x = fold c
  | AnyChar => exists x, t = [x]
  | Nothing => t = []
  | Class_ negated members => exists x, t = [x] /\ in_members members x <> negated
  | Rep e => star (names e) t
  | Not_ e => ~ names e t
  | Group a => names_alts a t
  end
with names_seq (q : sequence) (t : chars) : Prop :=
  match q with
  | SNil => t = []
  | SCons e q => exists t1 t2, t = t1 ++ t2 /\ names e t1 /\ names_seq q t2
  end
with names_alts (a : alts) (t : chars) : Prop :=
  match a with One q => names_seq q t | Alt q a => names_seq q t \/ names_alts a t end.

(** What can be written so that it is read back: a literal is no token; a class
    has no closing bracket and starts with [~] only when negated; inside a group
    no literal, quoted character or member is a parenthesis or a bar; and the
    last alternative of a group is not empty. *)
Definition token (c : Z) : bool :=
  existsb (Z.eqb c) [Char.hash; Char.tilde; Char.lparen; Char.lbracket; Char.quote; Char.percent; Char.question].
Definition group_token (c : Z) : bool := existsb (Z.eqb c) [Char.lparen; Char.rparen; Char.bar].
Definition starts_tilde (l : chars) : bool := match l with c :: _ => c =? Char.tilde | [] => false end.

Fixpoint wf_expr (inside : bool) (e : expr) : bool :=
  match e with
  | Lit c => negb (token c) && negb (inside && group_token c)
  | Quote c => negb (inside && group_token c)
  | AnyChar | Nothing => true
  | Class_ negated members =>
    forallb (fun c => negb (c =? Char.rbracket) && negb (inside && group_token c)) members && (negated || negb (starts_tilde members))
  | Rep e | Not_ e => wf_expr inside e
  | Group a => wf_alts a
  end
with wf_seq (inside : bool) (q : sequence) : bool :=
  match q with SNil => true | SCons e q => wf_expr inside e && wf_seq inside q end
with wf_alts (a : alts) : bool :=
  match a with
  | One q => wf_seq true q && match q with SNil => false | _ => true end
  | Alt q a => wf_seq true q && wf_alts a
  end.

(** * Spans *)

(** [l] is at index [i] of [p]. *)
Definition spans (p : chars) (i : nat) (l : chars) : Prop := exists pre post, p = pre ++ l ++ post /\ length pre = i.

Lemma spans_cons p i c l : spans p i (c :: l) -> at_index p i = c /\ spans p (S i) l.
Proof.
  intros (pre & post & -> & <-). split.
  - unfold at_index. rewrite app_nth2, Nat.sub_diag by lia. reflexivity.
  - exists (pre ++ [c]), post. rewrite <- app_assoc, length_app. simpl. split; [reflexivity|lia].
Qed.

Lemma spans_app p i l1 l2 : spans p i (l1 ++ l2) -> spans p i l1 /\ spans p (i + length l1) l2.
Proof.
  intros (pre & post & -> & <-). split.
  - exists pre, (l2 ++ post). now rewrite <- app_assoc.
  - exists (pre ++ l1), post. rewrite length_app. now rewrite <- !app_assoc.
Qed.

Lemma spans_whole p : spans p 0 p.
Proof. exists [], []. now rewrite app_nil_r. Qed.

(** Parentheses closed; outside them no bar unless [bars]. *)
Inductive balanced (bars : bool) : chars -> Prop :=
| bal_nil : balanced bars []
| bal_char c l : c <> Char.lparen -> c <> Char.rparen -> (bars = false -> c <> Char.bar) -> balanced bars l -> balanced bars (c :: l)
| bal_group inner l : balanced true inner -> balanced bars l -> balanced bars (Char.lparen :: inner ++ Char.rparen :: l).

Lemma balanced_app bars l1 l2 : balanced bars l1 -> balanced bars l2 -> balanced bars (l1 ++ l2).
Proof.
  induction 1 as [bars|bars c l H1 H2 H3 Hl IH|bars inner l Hi _ Hl IH]; intros H; simpl; [auto|apply bal_char; auto|].
  rewrite <- app_assoc. simpl. apply bal_group; auto.
Qed.

Lemma balanced_bars l : balanced false l -> balanced true l.
Proof. intros H. induction H as [bars|bars c l H1 H2 H3 Hl IH|bars inner l Hi _ Hl IH]; [constructor|apply bal_char; auto; discriminate|now apply bal_group]. Qed.

Lemma group_token_false c : group_token c = false -> c <> Char.lparen /\ c <> Char.rparen /\ c <> Char.bar.
Proof. unfold group_token. simpl. intros H. repeat split; intros ->; discriminate H. Qed.

Lemma balanced_plain c l : group_token c = false -> balanced false l -> balanced false (c :: l).
Proof. intros H Hl. apply group_token_false in H as (H1 & H2 & H3). apply bal_char; auto. Qed.

Lemma balanced_members l :
  forallb (fun c => negb (c =? Char.rbracket) && negb (true && group_token c)) l = true -> balanced false l.
Proof.
  induction l as [|c l IH]; [constructor|]. cbn [forallb]. intros [[_ Hc]%andb_true_iff Hl]%andb_true_iff.
  apply balanced_plain; [now apply negb_true_iff in Hc|auto].
Qed.

Lemma print_balanced :
  (forall e, wf_expr true e = true -> balanced false (print_expr e)) /\
  (forall q, wf_seq true q = true -> balanced false (print_seq q)) /\
  (forall a, wf_alts a = true -> balanced true (print_alts a)).
Proof.
  apply syntax_ind.
  - intros c [_ H]%andb_true_iff. apply balanced_plain; [now apply negb_true_iff in H|constructor].
  - intros c H. apply balanced_plain; [reflexivity|]. apply balanced_plain; [now apply negb_true_iff in H|constructor].
  - intros _. repeat (apply balanced_plain; [reflexivity|]). constructor.
  - intros _. repeat (apply balanced_plain; [reflexivity|]). constructor.
  - intros negated members [Hm _]%andb_true_iff. apply balanced_plain; [reflexivity|]. apply balanced_app.
    + destruct negated; [|constructor]. apply balanced_plain; [reflexivity|constructor].
    + apply balanced_app; [now apply balanced_members|]. apply balanced_plain; [reflexivity|constructor].
  - intros e IH H. apply balanced_plain; [reflexivity|auto].
  - intros e IH H. apply balanced_plain; [reflexivity|auto].
  - intros a IH H. constructor; [auto|constructor].
  - constructor.
  - intros e IHe q IHq [H1 H2]%andb_true_iff. apply balanced_app; auto.
  - intros q IH [H _]%andb_true_iff. now apply balanced_bars, IH.
  - intros q IHq a IHa [H1 H2]%andb_true_iff. simpl. apply balanced_app; [now apply balanced_bars, IHq|].
    constructor; auto; discriminate.
Qed.

(** * Reading a printed pattern *)

Lemma group_skip bars l : balanced bars l -> forall n p pe i depth,
  spans p i l -> (i + length l <= pe)%nat -> 1 <= depth ->
  group_close (length l + n) p pe i depth = group_close n p pe (i + length l) depth.
Proof.
  induction 1 as [bars|bars c l H1 H2 _ Hl IH|bars inner l Hi IHi Hl IHl]; intros n p pe i depth Hs Hpe Hd.
  - simpl. now rewrite Nat.add_0_r.
  - apply spans_cons in Hs as [Hc Hs]. cbn [length Nat.add group_close] in *. destruct (Nat.leb_spec pe i); [lia|].
    rewrite Hc, (proj2 (Z.eqb_neq _ _) H1), (proj2 (Z.eqb_neq _ _) H2), IH by (auto; lia). f_equal. lia.
  - apply spans_cons in Hs as [Hc Hs]. apply spans_app in Hs as [Hs1 Hs2]. apply spans_cons in Hs2 as [Hc2 Hs2].
    cbn [length] in *. rewrite length_app in *. cbn [length Nat.add group_close] in *. destruct (Nat.leb_spec pe i); [lia|].
    rewrite Hc, Z.eqb_refl. rewrite <- Nat.add_assoc, IHi by (auto; lia). cbn [Nat.add group_close].
    destruct (Nat.leb_spec pe (S (i + length inner))); [lia|]. rewrite Hc2. cbn [Z.eqb Char.rparen Char.lparen Pos.eqb].
    replace (depth + 1 - 1) with depth by lia. rewrite (proj2 (Z.eqb_neq depth 0)) by lia.
    rewrite IHl by (auto; lia). f_equal. lia.
Qed.

Lemma alternative_skip bars l : balanced bars l -> forall n p ge i depth,
  spans p i l -> (i + length l < ge)%nat -> 0 <= depth -> (bars = true -> 1 <= depth) ->
  alternative_end_from (length l + n) p ge i depth = alternative_end_from n p ge (i + length l) depth.
Proof.
  induction 1 as [bars|bars c l H1 H2 H3 Hl IH|bars inner l Hi IHi Hl IHl]; intros n p ge i depth Hs Hge Hd Hb.
  - simpl. now rewrite Nat.add_0_r.
  - apply spans_cons in Hs as [Hc Hs]. cbn [length Nat.add alternative_end_from] in *. destruct (Nat.leb_spec ge (S i)); [lia|].
    rewrite Hc, (proj2 (Z.eqb_neq _ _) H1), (proj2 (Z.eqb_neq _ _) H2).
    assert ((c =? Char.bar) && (depth =? 0) = false) as ->.
    { destruct bars; [rewrite (proj2 (Z.eqb_neq depth 0)) by (specialize (Hb eq_refl); lia); apply andb_false_r|].
      now rewrite (proj2 (Z.eqb_neq _ _) (H3 eq_refl)). }
    rewrite IH by (auto; lia). f_equal. lia.
  - apply spans_cons in Hs as [Hc Hs]. apply spans_app in Hs as [Hs1 Hs2]. apply spans_cons in Hs2 as [Hc2 Hs2].
    cbn [length] in *. rewrite length_app in *. cbn [length Nat.add alternative_end_from] in *.
    destruct (Nat.leb_spec ge (S i)); [lia|]. rewrite Hc, Z.eqb_refl. rewrite <- Nat.add_assoc, IHi by (auto; lia).
    cbn [Nat.add alternative_end_from]. destruct (Nat.leb_spec ge (S (S (i + length inner)))); [lia|].
    rewrite Hc2. cbn [Z.eqb Char.rparen Char.lparen Pos.eqb]. replace (depth + 1 - 1) with depth by lia.
    rewrite IHl by (auto; lia). f_equal. lia.
Qed.

Lemma class_skip l : forall n p pe i,
  forallb (fun c => negb (c =? Char.rbracket)) l = true -> spans p i (l ++ [Char.rbracket]) ->
  (i + length l < pe)%nat -> (length l <= n)%nat -> class_close n p pe i = (i + length l)%nat.
Proof.
  induction l as [|c l IH]; intros n p pe i Hl Hs Hpe Hn.
  - apply spans_cons in Hs as [Hc _]. destruct n; cbn [class_close length]; [lia|]. rewrite Hc. cbn. rewrite andb_false_r. lia.
  - apply andb_true_iff in Hl as [Hc Hl]. apply spans_cons in Hs as [Hi Hs]. cbn [length] in *. destruct n as [|n]; [lia|].
    cbn [class_close]. rewrite Hi, Hc, (proj2 (Nat.ltb_lt _ _)) by lia. cbn [andb]. rewrite IH by (auto; lia). lia.
Qed.

Lemma members_plain inside l :
  forallb (fun c => negb (c =? Char.rbracket) && negb (inside && group_token c)) l = true ->
  forallb (fun c => negb (c =? Char.rbracket)) l = true.
Proof. rewrite !forallb_forall. intros H x Hx. now apply H, andb_true_iff in Hx as [Hx _]. Qed.

Lemma token_false c : token c = false ->
  (c =? Char.hash) = false /\ (c =? Char.tilde) = false /\ (c =? Char.lparen) = false /\ (c =? Char.lbracket) = false /\
  (c =? Char.quote) = false /\ (c =? Char.percent) = false /\ (c =? Char.question) = false.
Proof. unfold token. simpl. rewrite !orb_false_iff. tauto. Qed.

(** The end of the class: its bracket. *)
Definition class_body (negated : bool) (members : chars) : chars := (if negated then [Char.tilde] else []) ++ members.

Lemma class_body_plain inside negated members :
  forallb (fun c => negb (c =? Char.rbracket) && negb (inside && group_token c)) members = true ->
  forallb (fun c => negb (c =? Char.rbracket)) (class_body negated members) = true.
Proof. intros H. apply members_plain in H. destruct negated; simpl; [now rewrite H|exact H]. Qed.

Lemma expr_end_print e : forall inside n p pe at_ l,
  wf_expr inside e = true -> spans p at_ (print_expr e ++ l) -> (at_ + length (print_expr e) <= pe)%nat ->
  (length (print_expr e) <= n)%nat -> expr_end_from n p pe at_ = (at_ + length (print_expr e))%nat.
Proof.
  induction e as [c|c| | |negated members|e IH|e IH|a];
    intros inside n p pe at_ l Hw Hs Hpe Hn; (destruct n as [|n]; [simpl in Hn; lia|]);
    cbn [expr_end_from print_expr length app] in *; (destruct (Nat.leb_spec pe at_); [lia|]);
    apply spans_cons in Hs as [Hc Hs]; rewrite Hc.
  - apply andb_true_iff in Hw as [Hw _]. apply negb_true_iff, token_false in Hw as (-> & -> & -> & -> & -> & _). cbn [orb]. lia.
  - rewrite Z.eqb_refl, (proj2 (Nat.leb_le _ _)) by lia. reflexivity.
  - cbn. lia.
  - cbn. lia.
  - cbn [Z.eqb Char.lbracket Char.quote Pos.eqb]. apply andb_true_iff in Hw as [Hw _].
    apply (class_body_plain inside negated) in Hw. rewrite app_assoc in *. fold (class_body negated members) in *.
    rewrite length_app in *. cbn [length] in *. apply spans_app in Hs as [Hs _].
    rewrite (class_skip (class_body negated members)), (proj2 (Nat.ltb_lt _ _)) by (auto; lia). lia.
  - cbn. rewrite (IH inside n p pe (S at_) l) by (auto; lia). lia.
  - cbn. rewrite (IH inside n p pe (S at_) l) by (auto; lia). lia.
  - cbn [Z.eqb Char.lparen Char.lbracket Char.quote Pos.eqb]. rewrite length_app in *. cbn [length] in *.
    pose proof (proj2 (proj2 print_balanced) a Hw) as Hb. rewrite <- app_assoc in Hs. apply spans_app in Hs as [Hs1 Hs2].
    apply spans_cons in Hs2 as [Hc2 _]. cbn [group_close]. destruct (Nat.leb_spec pe at_); [lia|]. rewrite Hc, Z.eqb_refl.
    replace (pe - at_)%nat with (length (print_alts a) + S (pe - at_ - length (print_alts a) - 1))%nat by lia.
    rewrite (group_skip true _ Hb) by (auto; lia). cbn [group_close]. cbn [Nat.add]; destruct (Nat.leb_spec pe (S (at_ + length (print_alts a)))); [lia|].
    cbn [Nat.add] in Hc2; rewrite Hc2. cbn.
    change (0 + 1 - 1 =? 0) with true. cbn [negb]. lia.
Qed.

(** The members of a class, read from the pattern. *)
Lemma class_scan_spec n : forall p i l ch found,
  spans p i l -> (length l <= n)%nat -> class_scan n p i (i + length l) ch found = found || in_members l ch.
Proof.
  induction n as [n IH] using lt_wf_ind. intros p i l ch found Hs Hn. destruct l as [|x rest].
  - rewrite orb_false_r. destruct n; cbn [class_scan]; [reflexivity|]. rewrite (proj2 (Nat.leb_le _ _)) by (simpl; lia). reflexivity.
  - destruct n as [|n]; [simpl in Hn; lia|]. apply spans_cons in Hs as [Hx Hs]. cbn [class_scan length] in *.
    rewrite (proj2 (Nat.leb_gt _ _)), Hx by lia.
    assert (Hone : class_scan n p (S i) (i + S (length rest)) ch (found || (fold ch =? fold x)) =
      found || ((fold ch =? fold x) || in_members rest ch)).
    { replace (i + S (length rest))%nat with (S i + length rest)%nat by lia. rewrite (IH n) by (auto; lia). now rewrite orb_assoc. }
    destruct rest as [|m rest].
    { rewrite (proj2 (Nat.ltb_ge _ _)) by (simpl; lia). exact Hone. }
    destruct rest as [|y rest].
    { rewrite (proj2 (Nat.ltb_ge _ _)) by (simpl; lia). exact Hone. }
    apply spans_cons in Hs as [Hm Hs]. apply spans_cons in Hs as [Hy Hs].
    rewrite (proj2 (Nat.ltb_lt _ _)) by (simpl; lia). replace (i + 1)%nat with (S i) by lia. rewrite Hm. cbn [andb].
    change (in_members (x :: m :: y :: rest) ch) with
      (if m =? Char.minus then ((fold x <=? fold ch) && (fold ch <=? fold y)) || in_members rest ch
       else (fold ch =? fold x) || in_members (m :: y :: rest) ch).
    destruct (m =? Char.minus); [|exact Hone]. replace (i + 2)%nat with (S (S i)) by lia. rewrite Hy.
    replace (i + 3)%nat with (S (S (S i))) by lia. cbn [length].
    replace (i + S (S (S (length rest))))%nat with (S (S (S i)) + length rest)%nat by lia.
    rewrite (IH n) by (auto; cbn [length] in *; lia). now rewrite orb_assoc.
Qed.

Lemma class_has_print p pi negated members ch :
  spans p (S pi) (class_body negated members) -> negated = true \/ starts_tilde members = false ->
  class_has p pi (S (S pi + length (class_body negated members))) ch = xorb (in_members members ch) negated.
Proof.
  intros Hs Hn. unfold class_has. rewrite Nat.sub_succ, Nat.sub_0_r. set (last := (S pi + length (class_body negated members))%nat).
  assert (Hneg : (S pi <? last)%nat && (at_index p (S pi) =? Char.tilde) = negated).
  { unfold last. destruct negated; simpl in Hs |- *.
    - apply spans_cons in Hs as [-> _]. now rewrite (proj2 (Nat.ltb_lt _ _)) by lia.
    - destruct Hn as [|Hn]; [discriminate|]. destruct members as [|c members]; simpl in *.
      + now rewrite (proj2 (Nat.ltb_ge _ _)) by lia.
      + apply spans_cons in Hs as [-> _]. rewrite Hn. apply andb_false_r. }
  rewrite Hneg. f_equal. unfold last. destruct negated; simpl in Hs |- *.
  - apply spans_cons in Hs as [_ Hs]. replace (pi + 2)%nat with (S (S pi)) by lia.
    replace (S (pi + S (length members))) with (S (S pi) + length members)%nat by lia.
    rewrite class_scan_spec by (auto; lia). reflexivity.
  - change (class_body false members) with members in *.
    replace (S (pi + length members)) with (S pi + length members)%nat by lia.
    rewrite class_scan_spec by (auto; lia). reflexivity.
Qed.

(** The alternatives of a group printed at [i]. *)
Fixpoint alt_spans (i : nat) (a : alts) : list (nat * nat) :=
  match a with
  | One q => [(i, i + length (print_seq q))%nat]
  | Alt q a => (i, i + length (print_seq q))%nat :: alt_spans (S (i + length (print_seq q))) a
  end.

Lemma print_expr_nonempty e : (1 <= length (print_expr e))%nat.
Proof. destruct e; simpl; lia. Qed.

Lemma print_alts_nonempty a : wf_alts a = true -> (1 <= length (print_alts a))%nat.
Proof.
  destruct a as [q|q a]; simpl; intros [_ H]%andb_true_iff; [|rewrite length_app; simpl; lia].
  destruct q as [|e q]; [discriminate|]. simpl. rewrite length_app. pose proof (print_expr_nonempty e). lia.
Qed.

Lemma alternatives_print a : forall n p i,
  wf_alts a = true -> spans p i (print_alts a) -> (length (print_alts a) <= n)%nat ->
  alternatives n p (S (i + length (print_alts a))) i = alt_spans i a.
Proof.
  induction a as [q|q a IH]; intros n p i Hw Hs Hn; pose proof (print_alts_nonempty _ Hw) as Hne;
    (destruct n as [|n]; [lia|]); cbn [alternatives alt_spans]; rewrite (proj2 (Nat.leb_gt _ _)) by lia;
    cbn [wf_alts print_alts] in *; apply andb_true_iff in Hw as [Hq Hw];
    pose proof (proj1 (proj2 print_balanced) q Hq) as Hb.
  - assert (He : alternative_end p (S (i + length (print_seq q))) i = (i + length (print_seq q))%nat).
    { unfold alternative_end. replace (S (i + length (print_seq q)) - i)%nat with (length (print_seq q) + 1)%nat by lia.
      rewrite (alternative_skip false _ Hb) by (auto; try lia; discriminate). cbn [alternative_end_from].
      now rewrite (proj2 (Nat.leb_le _ _)) by lia. }
    rewrite He. destruct n; cbn [alternatives]; [reflexivity|]. now rewrite (proj2 (Nat.leb_le _ _)) by lia.
  - rewrite length_app in *. cbn [length] in *. apply spans_app in Hs as [Hs1 Hs2]. apply spans_cons in Hs2 as [Hc Hs2].
    pose proof (print_alts_nonempty a Hw) as Hne'.
    set (ge := S (i + (length (print_seq q) + S (length (print_alts a))))) in *.
    assert (He : alternative_end p ge i = (i + length (print_seq q))%nat).
    { unfold alternative_end. replace (ge - i)%nat with (length (print_seq q) + S (S (length (print_alts a))))%nat by lia.
      rewrite (alternative_skip false _ Hb) by (auto; try lia; discriminate). cbn [alternative_end_from].
      rewrite (proj2 (Nat.leb_gt _ _)) by lia. rewrite Hc. reflexivity. }
    rewrite He. f_equal. unfold ge. rewrite <- (IH n p (S (i + length (print_seq q)))) by (auto; lia). f_equal. lia.
Qed.

(** * The matcher accepts the language *)

Lemma try_each_spec {A} (f : A -> option bool) (R : A -> Prop) xs b :
  (forall x r, x ∈ xs -> f x = Some r -> (r = true <-> R x)) ->
  try_each f xs = Some b -> (b = true <-> exists x, x ∈ xs /\ R x).
Proof.
  induction xs as [|x xs IH]; intros Hf; cbn [try_each].
  - intros [= <-]. split; [discriminate|]. intros (x & Hx & _). now apply elem_of_nil in Hx.
  - destruct (f x) as [[]|] eqn:E; [|intros Hb|discriminate].
    + intros [= <-]. split; [|auto]. intros _. exists x. split; [now left|]. now apply (Hf x true (list_elem_of_here _ _) E).
    + rewrite IH; [|intros y r Hy; apply Hf; now right|exact Hb]. split.
      * intros (y & Hy & HR). exists y. split; [now right|exact HR].
      * intros (y & Hy & HR). exists y. split; [|exact HR]. apply elem_of_cons in Hy as [->|Hy]; [|exact Hy].
        apply (Hf x false (list_elem_of_here _ _) E) in HR. discriminate.
Qed.

Lemma andthen_spec a b r (A B : Prop) :
  (forall x, a = Some x -> (x = true <-> A)) -> (forall x, b = Some x -> (x = true <-> B)) ->
  andthen a b = Some r -> (r = true <-> A /\ B).
Proof.
  intros HA HB. destruct a as [[]|]; simpl; [|intros [= <-]|discriminate].
  - intros Hb. rewrite (HB r Hb). specialize (HA true eq_refl). tauto.
  - specialize (HA false eq_refl). intuition discriminate.
Qed.

(** The lengths tried are the ways to cut the name in two. *)
Lemma mids_spec (f : nat -> option bool) (R : chars -> chars -> Prop) (k ni : nat) t b :
  (forall t1 t2 r, t = t1 ++ t2 -> (k <= length t1)%nat -> f (ni + length t1)%nat = Some r -> (r = true <-> R t1 t2)) ->
  try_each f (mids (ni + k) (ni + length t)) = Some b ->
  (b = true <-> exists t1 t2, t = t1 ++ t2 /\ (k <= length t1)%nat /\ R t1 t2).
Proof.
  intros Hf Hb. unfold mids in Hb.
  assert (Hcut : forall mid, mid ∈ seq (ni + k) (S (ni + length t) - (ni + k)) ->
    exists t1 t2, t = t1 ++ t2 /\ (k <= length t1)%nat /\ mid = (ni + length t1)%nat).
  { intros mid Hm. apply elem_of_seq in Hm. exists (take (mid - ni) t), (drop (mid - ni) t). rewrite take_drop.
    rewrite length_take_le by lia. splits; [reflexivity|lia|lia]. }
  rewrite (try_each_spec f (fun mid => exists t1 t2, t = t1 ++ t2 /\ (k <= length t1)%nat /\ mid = (ni + length t1)%nat /\ R t1 t2)
    (seq (ni + k) (S (ni + length t) - (ni + k))) b).
  - split; [intros (mid & _ & t1 & t2 & H1 & H2 & _ & H3); eauto 6|]. intros (t1 & t2 & H1 & H2 & H3).
    exists (ni + length t1)%nat. split; [|eauto 6]. apply elem_of_seq. subst t. rewrite length_app. lia.
  - intros mid r Hm Hr. destruct (Hcut mid Hm) as (t1 & t2 & Ht & Hk & ->). rewrite (Hf t1 t2 r Ht Hk Hr). split.
    + intros HR. exists t1, t2. auto.
    + intros (u1 & u2 & Hu & _ & Hl & HR). subst t. apply app_inj_1 in Hu as [-> ->]; [exact HR|lia].
  - exact Hb.
Qed.

(** The matcher on the span of [l] at [i] accepts the names of [L]. *)
Definition accepts (p : chars) (i j : nat) (L : chars -> Prop) : Prop :=
  forall fuel s ni t b, spans s ni t -> match_sub fuel p i j s ni (ni + length t) = Some b -> (b = true <-> L t).

Definition ok_seq (q : sequence) : Prop :=
  forall p i, spans p i (print_seq q) -> accepts p i (i + length (print_seq q)) (names_seq q).

(** A token that takes one character. *)
Lemma one_char fuel p j pe s ni t (test : Z -> bool) (L : chars -> Prop) b :
  spans s ni t -> accepts p j pe L ->
  andthen (Some ((ni <? ni + length t)%nat && test (at_index s ni))) (match_sub fuel p j pe s (S ni) (ni + length t)) = Some b ->
  (b = true <-> exists t1 t2, t = t1 ++ t2 /\ (exists x, t1 = [x] /\ test x = true) /\ L t2).
Proof.
  intros Hs Hj. destruct t as [|x t].
  - rewrite (proj2 (Nat.ltb_ge _ _)) by (simpl; lia). cbn [andb andthen]. intros [= <-]. split; [discriminate|].
    intros (t1 & t2 & H1 & (x & -> & _) & _). discriminate.
  - apply spans_cons in Hs as [-> Hs]. cbn [length]. rewrite (proj2 (Nat.ltb_lt _ _)) by lia. cbn [andb].
    replace (ni + S (length t))%nat with (S ni + length t)%nat by lia. intros Hb.
    assert (Hb' : b = true <-> test x = true /\ L t).
    { revert Hb. apply andthen_spec; [intros r [= <-]; tauto|]. intros r Hr. exact (Hj _ _ _ _ _ Hs Hr). }
    rewrite Hb'.
    split; [intros [H1 H2]; exists [x], t; eauto 6|]. intros (t1 & t2 & E & (y & -> & H1) & H2). injection E as <- <-. auto.
Qed.

Lemma star_split L t : star L t -> t = [] \/ exists u v, t = u ++ v /\ (1 <= length u)%nat /\ L u /\ star L v.
Proof.
  induction 1 as [|u v Hu Hv IH]; [now left|]. destruct u as [|x u]; [exact IH|]. right. exists (x :: u), v. splits; auto. simpl. lia.
Qed.

Lemma match_rep_spec p xp xe rp pe (X L : chars -> Prop) :
  accepts p xp xe X -> accepts p rp pe L -> forall fuel s ni t b, spans s ni t ->
  match_rep fuel p xp xe rp pe s ni (ni + length t) = Some b ->
  (b = true <-> exists t1 t2, t = t1 ++ t2 /\ star X t1 /\ L t2).
Proof.
  intros HX HL. induction fuel as [|fuel IH]; intros s ni t b Hs; cbn [match_rep]; [discriminate|].
  destruct (match_sub fuel p rp pe s ni (ni + length t)) as [[]|] eqn:E; [| |discriminate].
  - intros [= <-]. split; [|auto]. intros _. exists [], t. splits; [reflexivity|constructor|]. now apply (HL _ _ _ _ _ Hs E).
  - intros Hb. replace (S ni) with (ni + 1)%nat in Hb by lia.
    eapply (mids_spec _ (fun t1 t2 => X t1 /\ exists u v, t2 = u ++ v /\ star X u /\ L v)) in Hb.
    + rewrite Hb. split.
      * intros (t1 & t2 & -> & _ & H1 & u & v & -> & H2 & H3). exists (t1 ++ u), v. rewrite app_assoc. splits; auto. now constructor.
      * intros (t1 & t2 & -> & H1 & H2). destruct (star_split X t1 H1) as [->|(u & v & -> & Hl & H3 & H4)].
        { apply (HL _ _ _ _ _ Hs E) in H2. discriminate. }
        exists u, (v ++ t2). rewrite <- app_assoc. splits; eauto 6.
    + intros t1 t2 r -> _ Hr. apply spans_app in Hs as [Hs1 Hs2]. rewrite length_app, Nat.add_assoc in Hr. revert Hr. apply andthen_spec.
      * intros x Hx. exact (HX _ _ _ _ _ Hs1 Hx).
      * intros x Hx. exact (IH _ _ _ _ Hs2 Hx).
Qed.

Fixpoint ok_alts (a : alts) : Prop := match a with One q => ok_seq q | Alt q a => ok_seq q /\ ok_alts a end.

Lemma alts_spec fuel p ge pe s ni t (L : chars -> Prop) a : forall i b,
  accepts p ge pe L -> spans s ni t -> ok_alts a -> spans p i (print_alts a) ->
  try_each (fun '(x, xe) =>
    try_each (fun mid => andthen (match_sub fuel p x xe s ni mid) (match_sub fuel p ge pe s mid (ni + length t)))
      (mids ni (ni + length t))) (alt_spans i a) = Some b ->
  (b = true <-> exists t1 t2, t = t1 ++ t2 /\ names_alts a t1 /\ L t2).
Proof.
  intros i b HL Hs. revert i b.
  assert (Hq : forall q i b, ok_seq q -> spans p i (print_seq q) ->
    try_each (fun mid => andthen (match_sub fuel p i (i + length (print_seq q)) s ni mid) (match_sub fuel p ge pe s mid (ni + length t)))
      (mids ni (ni + length t)) = Some b ->
    (b = true <-> exists t1 t2, t = t1 ++ t2 /\ names_seq q t1 /\ L t2)).
  { intros q i b Hok Hp Hb. replace (mids ni (ni + length t)) with (mids (ni + 0) (ni + length t)) in Hb by (f_equal; lia).
    apply (mids_spec _ (fun t1 t2 => names_seq q t1 /\ L t2)) in Hb.
    - rewrite Hb. split; [intros (t1 & t2 & H1 & _ & H2); eauto|intros (t1 & t2 & H1 & H2); exists t1, t2; splits; tauto || lia].
    - intros t1 t2 r -> _ Hr. apply spans_app in Hs as [Hs1 Hs2]. rewrite length_app, Nat.add_assoc in Hr. revert Hr. apply andthen_spec.
      + intros x Hx. exact (Hok _ _ Hp _ _ _ _ _ Hs1 Hx).
      + intros x Hx. exact (HL _ _ _ _ _ Hs2 Hx). }
  induction a as [q|q a IH]; intros i b Hok Hp; cbn [alt_spans try_each names_alts ok_alts print_alts] in *.
  - destruct (try_each _ (mids _ _)) as [[]|] eqn:E; [| |discriminate]; intros [= <-]; exact (Hq q i _ Hok Hp E).
  - destruct Hok as [Hok1 Hok2]. apply spans_app in Hp as [Hp1 Hp2]. apply spans_cons in Hp2 as [_ Hp2].
    destruct (try_each _ (mids _ _)) as [[]|] eqn:E; [| |discriminate]; pose proof (Hq q i _ Hok1 Hp1 E) as Hqb.
    + intros [= <-]. split; [|auto]. intros _. destruct (proj1 Hqb eq_refl) as (t1 & t2 & H1 & H2 & H3). eauto 6.
    + intros Hb. rewrite (IH _ _ Hok2 Hp2 Hb). split; [intros (t1 & t2 & H1 & H2 & H3); eauto 6|].
      intros (t1 & t2 & H1 & [H2|H2] & H3); [|eauto 6]. discriminate (proj2 Hqb ltac:(eauto)).
Qed.

(** The first character of a printed expression decides the branch. *)
Lemma accepts_intro p i e q (L : chars -> Prop) :
  spans p i (print_expr e ++ print_seq q) ->
  (forall fuel s ni t b, spans s ni t ->
     match_sub (S fuel) p i (i + length (print_expr e ++ print_seq q)) s ni (ni + length t) = Some b -> (b = true <-> L t)) ->
  accepts p i (i + length (print_expr e ++ print_seq q)) L.
Proof. intros _ Hm [|fuel] s ni t b Hs Hb; [discriminate|eauto]. Qed.

Lemma rest_accepts p i e q :
  spans p i (print_expr e ++ print_seq q) -> ok_seq q ->
  accepts p (i + length (print_expr e)) (i + length (print_expr e ++ print_seq q)) (names_seq q).
Proof.
  intros Hp Hq. apply spans_app in Hp as [_ Hp]. rewrite length_app, Nat.add_assoc. exact (Hq p _ Hp).
Qed.

Lemma branch_start p i e q c l :
  spans p i (print_expr e ++ print_seq q) -> print_expr e = c :: l ->
  at_index p i = c /\ (i + length (print_expr e ++ print_seq q) <=? i)%nat = false.
Proof.
  intros Hp E. rewrite E in *. cbn [app] in Hp. apply spans_cons in Hp as [Hc _]. split; [exact Hc|]. apply Nat.leb_gt. simpl. lia.
Qed.

(** [e] on its own, where it follows a [#] or a [~]. *)
Lemma operand_accepts p i e q :
  ok_seq (SCons e SNil) -> spans p i (print_expr e ++ print_seq q) -> accepts p i (i + length (print_expr e)) (names e).
Proof.
  intros Hok Hp fuel s ni t b Hs Hb. apply spans_app in Hp as [Hp _].
  specialize (Hok p i). cbn [print_seq] in Hok. rewrite app_nil_r in Hok. rewrite (Hok Hp fuel s ni t b Hs Hb). simpl. split.
  - intros (t1 & t2 & -> & H1 & ->). now rewrite app_nil_r.
  - intros H. exists t, []. now rewrite app_nil_r.
Qed.

Lemma ok_nil : ok_seq SNil.
Proof.
  intros p i _ [|fuel] s ni t b Hs; cbn [match_sub print_seq length]; [discriminate|].
  rewrite (proj2 (Nat.leb_le _ _)) by lia. intros [= <-]. simpl. rewrite Nat.leb_le. destruct t; simpl; split; intros; (reflexivity || lia || discriminate).
Qed.

Section one_expr.
Context (q : sequence) (Hq : ok_seq q).

Lemma ok_lit inside c : wf_expr inside (Lit c) = true -> ok_seq (SCons (Lit c) q).
Proof.
  intros [Hw _]%andb_true_iff p i Hp. apply accepts_intro; [exact Hp|]. intros fuel s ni t b Hs.
  destruct (branch_start p i (Lit c) q c [] Hp eq_refl) as [Hc Hle]. cbn [match_sub]. rewrite Hle, Hc.
  apply negb_true_iff, token_false in Hw as (-> & -> & -> & -> & -> & -> & ->). intros Hb.
  apply (one_char _ _ _ _ _ _ _ (fun x => fold c =? fold x) (names_seq q)) in Hb; [|exact Hs|].
  - rewrite Hb. simpl. setoid_rewrite Z.eqb_eq. split; intros (t1 & t2 & -> & (x & -> & Hx) & H2); exists [x], t2; splits; eauto.
  - pose proof (rest_accepts p i (Lit c) q Hp Hq) as Hr. cbn [print_expr length] in Hr. now rewrite Nat.add_1_r in Hr.
Qed.

Lemma ok_quote c : ok_seq (SCons (Quote c) q).
Proof.
  intros p i Hp. apply accepts_intro; [exact Hp|]. intros fuel s ni t b Hs.
  destruct (branch_start p i (Quote c) q Char.quote [c] Hp eq_refl) as [Hc Hle]. cbn [match_sub]. rewrite Hle, Hc.
  cbn [Z.eqb Char.quote Char.hash Char.tilde Char.lparen Char.lbracket Pos.eqb].
  pose proof Hp as Hp'. cbn [print_expr app] in Hp'. apply spans_cons in Hp' as [_ Hp']. apply spans_cons in Hp' as [-> _].
  rewrite (proj2 (Nat.ltb_lt (S i) _)) by (simpl; lia). cbn [andb]. intros Hb.
  apply (one_char _ _ _ _ _ _ _ (fun x => fold c =? fold x) (names_seq q)) in Hb; [|exact Hs|exact (rest_accepts p i (Quote c) q Hp Hq)].
  rewrite Hb. simpl. setoid_rewrite Z.eqb_eq. split; intros (t1 & t2 & -> & (x & -> & Hx) & H2); exists [x], t2; splits; eauto.
Qed.

Lemma ok_any : ok_seq (SCons AnyChar q).
Proof.
  intros p i Hp. apply accepts_intro; [exact Hp|]. intros fuel s ni t b Hs.
  destruct (branch_start p i AnyChar q Char.question [] Hp eq_refl) as [Hc Hle]. cbn [match_sub]. rewrite Hle, Hc.
  cbn [Z.eqb Char.quote Char.hash Char.tilde Char.lparen Char.lbracket Char.percent Char.question Pos.eqb]. intros Hb.
  rewrite <- (andb_true_r (ni <? _)%nat) in Hb.
  apply (one_char _ _ _ _ _ _ _ (fun _ => true) (names_seq q)) in Hb; [|exact Hs|].
  - rewrite Hb. simpl. split; [intros (t1 & t2 & -> & (x & -> & _) & H2)|intros (t1 & t2 & -> & (x & ->) & H2)]; exists [x], t2; splits; eauto.
  - pose proof (rest_accepts p i AnyChar q Hp Hq) as Hr. cbn [print_expr length] in Hr. now rewrite Nat.add_1_r in Hr.
Qed.

Lemma ok_nothing : ok_seq (SCons Nothing q).
Proof.
  intros p i Hp. apply accepts_intro; [exact Hp|]. intros fuel s ni t b Hs.
  destruct (branch_start p i Nothing q Char.percent [] Hp eq_refl) as [Hc Hle]. cbn [match_sub]. rewrite Hle, Hc.
  cbn [Z.eqb Char.quote Char.hash Char.tilde Char.lparen Char.lbracket Char.percent Char.question Pos.eqb]. intros Hb.
  pose proof (rest_accepts p i Nothing q Hp Hq) as Hr. cbn [print_expr length] in Hr. rewrite Nat.add_1_r in Hr.
  rewrite (Hr _ _ _ _ _ Hs Hb). simpl. split; [intros H; exists [], t; auto|]. now intros (t1 & t2 & -> & -> & H).
Qed.

Lemma print_class negated members :
  print_expr (Class_ negated members) = Char.lbracket :: class_body negated members ++ [Char.rbracket].
Proof. unfold class_body. now rewrite <- app_assoc. Qed.

Lemma ok_class inside negated members :
  wf_expr inside (Class_ negated members) = true -> ok_seq (SCons (Class_ negated members) q).
Proof.
  intros Hw p i Hp. apply accepts_intro; [exact Hp|]. intros fuel s ni t b Hs. set (e := Class_ negated members) in *.
  destruct (branch_start p i e q Char.lbracket _ Hp eq_refl) as [Hc Hle]. cbn [match_sub]. rewrite Hle, Hc.
  cbn [Z.eqb Char.hash Char.tilde Char.lparen Char.lbracket Pos.eqb].
  assert (Hend : expr_end p (i + length (print_expr e ++ print_seq q)) i = (i + length (print_expr e))%nat).
  { apply (expr_end_print e inside) with (l := print_seq q); auto; rewrite length_app; lia. }
  assert (Hlen : (i + length (print_expr e))%nat = S (S i + length (class_body negated members))).
  { unfold e, class_body. simpl. rewrite app_assoc, length_app. simpl. lia. }
  rewrite Hend, Hlen. pose proof Hp as Hp'. change (spans p i (print_expr e ++ print_seq q)) in Hp'. unfold e in Hp'. rewrite print_class in Hp'. cbn [app] in Hp'.
  apply spans_cons in Hp' as [_ Hp']. rewrite <- app_assoc in Hp'. apply spans_app in Hp' as [Hb1 Hb2].
  cbn [app] in Hb2. apply spans_cons in Hb2 as [Hrb _].
  rewrite Nat.sub_succ, Nat.sub_0_r, Hrb, Z.eqb_refl, (proj2 (Nat.ltb_ge _ _)) by lia. cbn [orb negb].
  apply andb_true_iff in Hw as [_ Hw].
  assert (Hn : negated = true \/ starts_tilde members = false) by (destruct negated; [now left|right; now apply negb_true_iff in Hw]).
  intros Hb. apply (one_char _ _ _ _ _ _ _ (class_has p i (S (S i + length (class_body negated members)))) (names_seq q)) in Hb;
    [|exact Hs|rewrite <- Hlen; exact (rest_accepts p i e q Hp Hq)].
  rewrite Hb. simpl. setoid_rewrite (fun x => class_has_print p i negated members x Hb1 Hn).
  assert (Hx : forall x, xorb (in_members members x) negated = true <-> in_members members x <> negated)
    by (intros x; destruct (in_members members x), negated; simpl; intuition congruence).
  setoid_rewrite Hx. reflexivity.
Qed.

Lemma ok_rep inside e : wf_expr inside e = true -> ok_seq (SCons e SNil) -> ok_seq (SCons (Rep e) q).
Proof.
  intros Hw He p i Hp. apply accepts_intro; [exact Hp|]. intros fuel s ni t b Hs.
  destruct (branch_start p i (Rep e) q Char.hash _ Hp eq_refl) as [Hc Hle]. cbn [match_sub]. rewrite Hle, Hc, Z.eqb_refl.
  pose proof Hp as Hp'. cbn [print_expr app] in Hp'. apply spans_cons in Hp' as [_ Hp'].
  assert (Hend : expr_end p (i + length (print_expr (Rep e) ++ print_seq q)) (S i) = (S i + length (print_expr e))%nat).
  { apply (expr_end_print e inside) with (l := print_seq q); auto; cbn [print_expr app length]; rewrite length_app; lia. }
  rewrite Hend. intros Hb. apply (match_rep_spec p _ _ _ _ (names e) (names_seq q)) in Hb; [exact Hb| | |exact Hs].
  - exact (operand_accepts p (S i) e q He Hp').
  - pose proof (rest_accepts p i (Rep e) q Hp Hq) as Hr. cbn [print_expr length] in Hr.
    now replace (i + S (length (print_expr e)))%nat with (S i + length (print_expr e))%nat in Hr by lia.
Qed.

Lemma ok_not inside e : wf_expr inside e = true -> ok_seq (SCons e SNil) -> ok_seq (SCons (Not_ e) q).
Proof.
  intros Hw He p i Hp. apply accepts_intro; [exact Hp|]. intros fuel s ni t b Hs.
  destruct (branch_start p i (Not_ e) q Char.tilde _ Hp eq_refl) as [Hc Hle]. cbn [match_sub]. rewrite Hle, Hc.
  cbn [Z.eqb Char.hash Char.tilde Pos.eqb]. pose proof Hp as Hp'. cbn [print_expr app] in Hp'. apply spans_cons in Hp' as [_ Hp'].
  assert (Hend : expr_end p (i + length (print_expr (Not_ e) ++ print_seq q)) (S i) = (S i + length (print_expr e))%nat).
  { apply (expr_end_print e inside) with (l := print_seq q); auto; cbn [print_expr app length]; rewrite length_app; lia. }
  pose proof (operand_accepts p (S i) e q He Hp') as Hx. pose proof (rest_accepts p i (Not_ e) q Hp Hq) as Hr.
  cbn [print_expr length] in Hr. replace (i + S (length (print_expr e)))%nat with (S i + length (print_expr e))%nat in Hr by lia.
  rewrite Hend. intros Hb. replace (mids ni (ni + length t)) with (mids (ni + 0) (ni + length t)) in Hb by (f_equal; lia).
  apply (mids_spec _ (fun t1 t2 => ~ names e t1 /\ names_seq q t2)) in Hb.
  - rewrite Hb. simpl. split; [intros (t1 & t2 & H1 & _ & H2); eauto|intros (t1 & t2 & H1 & H2); exists t1, t2; splits; tauto || lia].
  - intros t1 t2 r -> _ Hr'. apply spans_app in Hs as [Hs1 Hs2]. rewrite (length_app t1 t2), (Nat.add_assoc ni) in Hr'. revert Hr'. apply andthen_spec.
    + intros x. destruct (match_sub _ _ _ _ _ _ _) as [y|] eqn:Ey; [|discriminate]. intros [= <-].
      pose proof (Hx _ _ _ _ _ Hs1 Ey) as Hy. destruct y; simpl; intuition discriminate.
    + intros x Hx'. exact (Hr _ _ _ _ _ Hs2 Hx').
Qed.

Lemma ok_group a : wf_alts a = true -> ok_alts a -> ok_seq (SCons (Group a) q).
Proof.
  intros Hw Ha p i Hp. apply accepts_intro; [exact Hp|]. intros fuel s ni t b Hs. set (e := Group a) in *.
  destruct (branch_start p i e q Char.lparen _ Hp eq_refl) as [Hc Hle]. cbn [match_sub]. rewrite Hle, Hc.
  cbn [Z.eqb Char.hash Char.tilde Char.lparen Pos.eqb].
  assert (Hend : expr_end p (i + length (print_expr e ++ print_seq q)) i = (i + length (print_expr e))%nat).
  { apply (expr_end_print e true) with (l := print_seq q); auto; rewrite length_app; lia. }
  assert (Hlen : (i + length (print_expr e))%nat = S (S i + length (print_alts a))).
  { unfold e. simpl. rewrite length_app. simpl. lia. }
  pose proof Hp as Hp'. change (spans p i (Char.lparen :: (print_alts a ++ [Char.rparen]) ++ print_seq q)) in Hp'.
  apply spans_cons in Hp' as [_ Hp']. rewrite <- app_assoc in Hp'. apply spans_app in Hp' as [Hb1 Hb2]. cbn [app] in Hb2. apply spans_cons in Hb2 as [Hrb _].
  rewrite Hend, Hlen, Nat.sub_succ, Nat.sub_0_r, Hrb, Z.eqb_refl, (proj2 (Nat.ltb_ge _ _)) by lia. cbn [orb negb].
  rewrite alternatives_print by (auto; lia). intros Hb.
  pose proof (rest_accepts p i e q Hp Hq) as Hr. rewrite Hlen in Hr.
  exact (alts_spec fuel p _ _ s ni t (names_seq q) a (S i) b Hr Hs Ha Hb1 Hb).
Qed.
End one_expr.

Lemma syntax_ok :
  (forall e inside q, wf_expr inside e = true -> ok_seq q -> ok_seq (SCons e q)) /\
  (forall q inside, wf_seq inside q = true -> ok_seq q) /\
  (forall a, wf_alts a = true -> ok_alts a).
Proof.
  apply syntax_ind.
  - intros c inside q Hw Hq. now apply (ok_lit q Hq inside).
  - intros c inside q _ Hq. now apply ok_quote.
  - intros inside q _ Hq. now apply ok_any.
  - intros inside q _ Hq. now apply ok_nothing.
  - intros negated members inside q Hw Hq. now apply (ok_class q Hq inside).
  - intros e IH inside q Hw Hq. apply (ok_rep q Hq inside); [exact Hw|]. exact (IH inside SNil Hw ok_nil).
  - intros e IH inside q Hw Hq. apply (ok_not q Hq inside); [exact Hw|]. exact (IH inside SNil Hw ok_nil).
  - intros a IH inside q Hw Hq. apply ok_group; auto.
  - intros inside _. exact ok_nil.
  - intros e IHe q IHq inside [H1 H2]%andb_true_iff. exact (IHe inside q H1 (IHq inside H2)).
  - intros q IH [H _]%andb_true_iff. exact (IH true H).
  - intros q IHq a IHa [H1 H2]%andb_true_iff. split; [exact (IHq true H1)|auto].
Qed.

(** C14: The matcher always answers, whatever the pattern: the recursion's depth
    is bounded by the lengths. *)
Theorem pattern_match_ends (pattern name : chars) : is_Some (pattern_match pattern name).
Proof. apply (proj1 (match_ends _)). now rewrite !Nat.sub_0_r. Qed.

(** C13: On a pattern written from its syntax tree the matcher accepts exactly
    the names the tree stands for: literals and classes without regard to case,
    [#] any number of repetitions, [~] the names its operand does not match, a
    group any of its alternatives, one after the other in a sequence.  The trees
    are those of [wf_seq]: a literal is no token, a class holds no closing
    bracket, and inside a group no literal, quoted character or member of a class
    is a parenthesis or a bar and the last alternative is not empty; the last two
    are needed although the manual allows both ([empty_last_alternative]). *)
Theorem pattern_match_spec (q : sequence) (name : chars) :
  wf_seq false q = true -> (pattern_match (print_seq q) name = Some true <-> names_seq q name).
Proof.
  intros Hw. pose proof (proj1 (proj2 syntax_ok) q false Hw (print_seq q) 0%nat (spans_whole _)) as Hok.
  assert (Hb : is_Some (pattern_match (print_seq q) name)) by (apply (proj1 (match_ends _)); now rewrite !Nat.sub_0_r).
  destruct Hb as [b Hb]. rewrite Hb. rewrite <- (Hok _ _ _ _ _ (spans_whole name) Hb).
  split; [now intros [= ->]|now intros ->].
Qed.

(** [(ab|~c)#?] and the name "abz". *)
Lemma pattern_match_spec_witness :
  let q := SCons (Group (Alt (SCons (Lit 97) (SCons (Lit 98) SNil)) (One (SCons (Not_ (Lit 99)) SNil)))) (SCons (Rep AnyChar) SNil) in
  names_seq q [65; 66; 122].
Proof.
  intros q. apply (pattern_match_spec q [65; 66; 122]); vm_compute; reflexivity.
Defined.

(** The last alternative of a group is not tried when it is empty, the first
    is; and a quote does not protect a bar or a parenthesis inside a group. *)
Lemma empty_last_alternative :
  let a := 97 in
  pattern_match [Char.lparen; Char.bar; a; Char.rparen] [] = Some true /\
  pattern_match [Char.lparen; a; Char.bar; Char.rparen] [] = Some false /\
  pattern_match [Char.quote; Char.bar] [Char.bar] = Some true /\
  pattern_match [Char.lparen; Char.quote; Char.bar; Char.rparen] [Char.bar] = Some false.
Proof. vm_compute. auto. Qed.
