(* ===== verification/ProcessTable.v ===== *)
(** The process registry's table (libs/freestanding/aegir-process,
    src/process_table.cc, and the badges of libs/freestanding/aegir-ipc,
    include/aegir/ipc/badge.h): registration, removal, attention flags and the
    port's one call.  The theorems: every reply is the one a list of processes,
    as the clients see them, gives, and a caller changes only processes it may
    break. *)
From stdpp Require Import base numbers list gmap.
From Stdlib Require Import ZArith Lia.
From S2P Require Import Prelude Wire.

(** * Badges *)

Definition kUserBadge : Z := Z.shiftl 1 62.
Definition kUserIndexMask : Z := 0x3fffffffff.
Definition make_user_badge (user serial : Z) : Z := u64 (Z.lor (Z.lor kUserBadge (Z.shiftl user 24)) serial).
Definition user_index (badge : Z) : Z := Z.land (Z.shiftr badge 24) kUserIndexMask.
Definition is_user_badge (badge : Z) : bool := negb (Z.land badge kUserBadge =? 0).

(** * Rows *)

Definition kMethodCount : Z := 1.
Definition kMethodDescribe : Z := 2.
Definition kMethodBreak : Z := 3.
Definition kMethodRegister : Z := 4.
Definition kMethodUnregister : Z := 5.
Definition kAttnC : Z := 1.
Definition kAttnAll : Z := 15.
Definition kStateRunning : Z := 0.
Definition kStateBreakPending : Z := 1.
Definition kBreakRefused : Z := 0.
Definition kBreakSet : Z := 1.
Definition kProcessRefused : Z := 0.
Definition kProcessAdded : Z := 1.
Definition kNameMax : Z := 24.
Definition kPathMax : Z := 72.
Definition kRowWords : Z := 16.

(** [struct Row] *)
Record Row := mkRow {
  pid : Z;
  parent : Z;
  flags : Z;
  state : Z;
  row_name : bytes;
  row_path : bytes;
}.

(** The row as words, and words as a row, on a little-endian machine. *)
Definition row_words (row : Row) : list Z :=
  [pid row; parent row; flags row; state row] ++ words_of (row_name row) 3 ++ words_of (row_path row) 9.
Definition row_of_words (words : list Z) : Row :=
  mkRow (word words 0) (word words 1) (word words 2) (word words 3)
    (bytes_of (take 3 (drop 4 words))) (bytes_of (take 9 (drop 7 words))).

(** * The table *)

(** [class ProcessTable]: the rows' memory and how many are live. *)
Record ProcessTable := mkTable { rows_ : list Row; capacity_ : Z; count_ : Z }.

Definition with_rows (t : ProcessTable) (rows : list Row) : ProcessTable := mkTable rows (capacity_ t) (count_ t).

Definition process_count (t : ProcessTable) : Z := count_ t.

Definition row_at (t : ProcessTable) (index : Z) : option Row :=
  if index <? count_ t then rows_ t !! Z.to_nat index else None.

(** The loop [for (i < count_) if (rows_[i].pid == pid)]: the first such index. *)
Fixpoint index_from (n : nat) (rows : list Row) (id : Z) (i : nat) : option nat :=
  match n with
  | O => None
  | S n =>
    match rows !! i with
    | Some row => if pid row =? id then Some i else index_from n rows id (S i)
    | None => None
    end
  end.
Definition index_of (t : ProcessTable) (id : Z) : option nat := index_from (Z.to_nat (count_ t)) (rows_ t) id 0.

Definition find_process (t : ProcessTable) (id : Z) : option Row :=
  match index_of t id with Some i => rows_ t !! i | None => None end.

Definition may_break (caller target : Z) : bool :=
  if negb (is_user_badge caller) then true
  else if negb (is_user_badge target) then false
  else user_index caller =? user_index target.

(** [field[max - 1] = '\0'] *)
Definition terminated (field : bytes) (max : Z) : bytes := set_byte field (max - 1) 0.

(** The seed with what is the registry's own. *)
Definition registered (seed : Row) : Row :=
  mkRow (pid seed) (parent seed) 0 kStateRunning (terminated (row_name seed) kNameMax) (terminated (row_path seed) kPathMax).

Definition add_process (t : ProcessTable) (seed : Row) : bool * ProcessTable :=
  if (capacity_ t <=? count_ t) || match find_process t (pid seed) with Some _ => true | None => false end then (false, t)
  else (true, mkTable (<[Z.to_nat (count_ t) := registered seed]> (rows_ t)) (capacity_ t) (count_ t + 1)).

Definition remove_process (t : ProcessTable) (id : Z) : bool * ProcessTable :=
  match index_of t id with
  | None => (false, t)
  | Some i =>
    match rows_ t !! Z.to_nat (count_ t - 1) with
    | None => (false, t)
    | Some last => (true, mkTable (<[i := last]> (rows_ t)) (capacity_ t) (count_ t - 1))
    end
  end.

(** [rows_[i].flags = flags], and the state when C is among them. *)
Definition flagged (row : Row) (value : Z) : Row :=
  mkRow (pid row) (parent row) value (if negb (Z.land value kAttnC =? 0) then kStateBreakPending else state row)
    (row_name row) (row_path row).

Definition process_set_flags (t : ProcessTable) (id value caller : Z) : bool * ProcessTable :=
  match index_of t id with
  | None => (false, t)
  | Some i =>
    match rows_ t !! i with
    | None => (false, t)
    | Some row =>
      if negb (may_break caller (pid row)) then (false, t)
      else (true, with_rows t (<[i := flagged row value]> (rows_ t)))
    end
  end.

Definition answer (ok : bool) (yes no : Z) : list Z := [if ok then yes else no].

(** The reply's words; none is the refusal. *)
Definition handle (t : ProcessTable) (method : Z) (words : list Z) (caller capacity : Z) : list Z * ProcessTable :=
  let word_count := zlen words in
  if method =? kMethodCount then
    if capacity <? 1 then ([], t) else ([count_ t], t)
  else if method =? kMethodDescribe then
    if (word_count <? 1) || (capacity <? kRowWords) then ([], t)
    else match row_at t (u32 (word words 0)) with None => ([], t) | Some row => (row_words row, t) end
  else if method =? kMethodBreak then
    if (word_count <? 2) || (capacity <? 1) then ([], t)
    else
      let '(ok, t) := process_set_flags t (word words 0) (Z.land (word words 1) kAttnAll) caller in
      (answer ok kBreakSet kBreakRefused, t)
  else if method =? kMethodRegister then
    if (word_count <? kRowWords) || (capacity <? 1) then ([], t)
    else
      let '(ok, t) := add_process t (row_of_words words) in
      (answer ok kProcessAdded kProcessRefused, t)
  else if method =? kMethodUnregister then
    if (word_count <? 1) || (capacity <? 1) then ([], t)
    else
      let '(ok, t) := remove_process t (word words 0) in
      (answer ok kProcessAdded kProcessRefused, t)
  else ([], t).

(** * The rows as a map *)

Definition live_rows (t : ProcessTable) : list Row := take (Z.to_nat (count_ t)) (rows_ t).
Definition keyed (row : Row) : Z * Row := (pid row, row).
Definition live (t : ProcessTable) : gmap Z Row := list_to_map (map keyed (live_rows t)).

(** Every process has one row. *)
Record table_ok (t : ProcessTable) : Prop := {
  tk_memory : zlen (rows_ t) = capacity_ t;
  tk_count : 0 <= count_ t <= capacity_ t;
  tk_distinct : NoDup (map pid (live_rows t));
}.

Lemma keyed_keys rows : (map keyed rows).*1 = map pid rows.
Proof. rewrite map_map. reflexivity. Qed.

Lemma length_live t : table_ok t -> length (live_rows t) = Z.to_nat (count_ t).
Proof. intros [Hm Hc _]. unfold live_rows. rewrite length_take. unfold zlen in Hm. lia. Qed.

Lemma live_lookup t id row : table_ok t -> live t !! id = Some row <-> row ∈ live_rows t /\ pid row = id.
Proof.
  intros [_ _ Hd]. unfold live. rewrite <- elem_of_list_to_map by (now rewrite keyed_keys).
  rewrite list_elem_of_fmap. unfold keyed. split; [intros (r & [= -> ->] & Hr); auto|intros [Hr <-]; eauto].
Qed.

Lemma live_perm t rows :
  table_ok t -> live_rows t ≡ₚ rows -> live t = list_to_map (map keyed rows).
Proof.
  intros [_ _ Hd] Hp. apply list_to_map_proper; [now rewrite keyed_keys|]. now apply Permutation_map.
Qed.

Lemma index_from_spec n rows id : forall i,
  (i + n <= length rows)%nat ->
  match index_from n rows id i with
  | Some j => (i <= j < i + n)%nat /\ exists row, rows !! j = Some row /\ pid row = id
  | None => forall j row, (i <= j < i + n)%nat -> rows !! j = Some row -> pid row <> id
  end.
Proof.
  induction n as [|n IH]; intros i Hi; cbn [index_from]; [intros; lia|].
  destruct (lookup_lt_is_Some_2 rows i ltac:(lia)) as [row Hr]. rewrite Hr. destruct (Z.eqb_spec (pid row) id) as [E|E].
  - split; [lia|eauto].
  - specialize (IH (S i) ltac:(lia)). destruct (index_from n rows id (S i)) as [j|].
    + destruct IH as [Hj Hx]. split; [lia|exact Hx].
    + intros j r Hj Hjr. destruct (decide (j = i)) as [->|Hne]; [congruence|]. apply (IH j r); [lia|exact Hjr].
Qed.

Lemma index_of_spec t id : table_ok t ->
  match index_of t id with
  | Some i => exists row, rows_ t !! i = Some row /\ live_rows t !! i = Some row /\ pid row = id /\ live t !! id = Some row
  | None => live t !! id = None
  end.
Proof.
  intros Ht. pose proof (length_live t Ht) as Hlen. pose proof (tk_count t Ht) as Hc.
  pose proof (tk_memory t Ht) as Hm. unfold zlen in Hm.
  pose proof (index_from_spec (Z.to_nat (count_ t)) (rows_ t) id 0 ltac:(lia)) as Hi. fold (index_of t id) in Hi.
  assert (Htake : forall i, (i < Z.to_nat (count_ t))%nat -> live_rows t !! i = rows_ t !! i)
    by (intros i Hlt; unfold live_rows; now apply lookup_take_lt).
  destruct (index_of t id) as [i|].
  - destruct Hi as [Hlt (row & Hr & Hp)]. rewrite <- Htake in Hr by lia. exists row. rewrite <- Htake by lia. splits; auto.
    apply (live_lookup t id row Ht). split; [now apply (list_elem_of_lookup_2 _ i)|exact Hp].
  - destruct (live t !! id) as [row|] eqn:E; [|reflexivity]. apply (live_lookup t id row Ht) in E as [Hin Hp].
    apply list_elem_of_lookup in Hin as [i Hi']. pose proof (lookup_lt_Some _ _ _ Hi') as Hlt. rewrite Htake in Hi' by lia.
    exfalso. apply (Hi i row ltac:(lia) Hi' Hp).
Qed.

(** ** A break *)

Lemma set_flags_spec t id value caller : table_ok t ->
  let '(ok, t') := process_set_flags t id value caller in
  table_ok t' /\ capacity_ t' = capacity_ t /\
  match live t !! id with
  | Some row =>
    if may_break caller id then ok = true /\ live t' = <[id := flagged row value]> (live t) else ok = false /\ live t' = live t
  | None => ok = false /\ live t' = live t
  end.
Proof.
  intros Ht. unfold process_set_flags. pose proof (index_of_spec t id Ht) as Hi. pose proof Ht as [Hm Hc Hd]. unfold zlen in Hm.
  destruct (index_of t id) as [i|]; [|rewrite Hi; auto]. destruct Hi as (row & -> & Hlr & Hp & ->). rewrite Hp.
  destruct (may_break caller id); cbn [negb]; [|auto]. set (t' := with_rows _ _). pose proof (lookup_lt_Some _ _ _ Hlr) as Hlt.
  rewrite (length_live t Ht) in Hlt.
  assert (Hrows : live_rows t' = <[i := flagged row value]> (live_rows t)).
  { unfold live_rows, t'. simpl. now rewrite take_insert_lt by lia. }
  assert (Hpid : map pid (live_rows t') = map pid (live_rows t)).
  { rewrite Hrows. change (map pid (<[i:=flagged row value]> (live_rows t))) with (pid <$> <[i:=flagged row value]> (live_rows t)).
    rewrite list_fmap_insert. apply list_insert_id. rewrite list_lookup_fmap, Hlr. reflexivity. }
  assert (Ht' : table_ok t').
  { split; simpl; [unfold zlen; rewrite length_insert; lia|lia|now rewrite Hpid]. }
  assert (Hl : (i < length (live_rows t))%nat) by (rewrite (length_live t Ht); lia).
  assert (Hold : live_rows t ≡ₚ row :: take i (live_rows t) ++ drop (S i) (live_rows t))
    by (rewrite <- (take_drop_middle _ i row Hlr) at 1; symmetry; apply Permutation_middle).
  assert (Hnew : live_rows t' ≡ₚ flagged row value :: take i (live_rows t) ++ drop (S i) (live_rows t))
    by (rewrite Hrows, insert_take_drop by exact Hl; symmetry; apply Permutation_middle).
  splits; auto. rewrite (live_perm t _ Ht Hold), (live_perm t' _ Ht' Hnew). set (rest := take i _ ++ _).
  change (<[pid row := flagged row value]> (list_to_map (map keyed rest)) =
    <[id := flagged row value]> (<[pid row := row]> (list_to_map (map keyed rest)) : gmap Z Row)).
  now rewrite Hp, insert_insert_eq.
Qed.

(** * What the port promises *)

(** The registry as its clients see it: a list of processes, each the sixteen
    words its description answers (id, parent, flags, state, three words of name
    and nine of path, the last byte of either being zero). *)
Notation process := (list Z) (only parsing).

(** Where the process [id] is. *)
Fixpoint position (l : list process) (id : Z) : option nat :=
  match l with
  | [] => None
  | p :: l => if word p 0 =? id then Some 0%nat else option_map S (position l id)
  end.

(** A new process: no flags, running (state 0), name and path cut to end. *)
Definition fresh_process (words : list Z) : process :=
  let w := word words in
  [w 0; w 1; 0; 0; w 4; w 5; w 6 mod 2 ^ 56; w 7; w 8; w 9; w 10; w 11; w 12; w 13; w 14; w 15 mod 2 ^ 56].

(** The attention bits are the low four; bit C (the lowest) leaves a break
    pending (state 1). *)
Definition attended (p : process) (value : Z) : process :=
  let p := <[2%nat := value mod 16]> p in
  if Z.odd value then <[3%nat := 1]> p else p.

(** Bit 62 of a badge is a user's, bits 24 to 61 say which; the system breaks
    anything, a user what is the same user's. *)
Definition badge_user (badge : Z) : option Z :=
  if Z.testbit badge 62 then Some ((badge / 2 ^ 24) mod 2 ^ 38) else None.
Definition authority (caller target : Z) : bool :=
  match badge_user caller, badge_user target with
  | None, _ => true
  | Some _, None => false
  | Some user, Some owner => user =? owner
  end.

(** Without the process at [i]: the last one takes its place. *)
Definition without (l : list process) (i : nat) : list process :=
  match rev (drop (S i) l) with
  | [] => take i l
  | final :: others => take i l ++ final :: rev others
  end.

(** A call: its reply and the list after it.  A refused envelope answers
    nothing and changes nothing. *)
Definition spec_call (room : Z) (l : list process) (method : Z) (words : list Z) (caller capacity : Z)
    : list Z * list process :=
  let id := word words 0 in
  match method with
  | 1 (* count *) => if capacity <? 1 then ([], l) else ([zlen l], l)
  | 2 (* describe *) =>
    if (zlen words <? 1) || (capacity <? 16) then ([], l)
    else (match l !! Z.to_nat (id mod 2 ^ 32) with Some p => p | None => [] end, l)
  | 3 (* break *) =>
    if (zlen words <? 2) || (capacity <? 1) then ([], l)
    else match position l id with
         | Some i => if authority caller id then ([1], alter (fun p => attended p (word words 1)) i l) else ([0], l)
         | None => ([0], l)
         end
  | 4 (* register *) =>
    if (zlen words <? 16) || (capacity <? 1) then ([], l)
    else match position l id with
         | Some _ => ([0], l)
         | None => if room <=? zlen l then ([0], l) else ([1], l ++ [fresh_process words])
         end
  | 5 (* unregister *) =>
    if (zlen words <? 1) || (capacity <? 1) then ([], l)
    else match position l id with Some i => ([1], without l i) | None => ([0], l) end
  | _ => ([], l)
  end.

(** ** The table implements it *)

Definition processes (t : ProcessTable) : list process := map row_words (live_rows t).

Lemma words_of_cons x b n : zlen x = 8 -> 0 <= n -> words_of (x ++ b) (1 + n) = le_num x :: words_of b n.
Proof.
  intros Hx Hn. unfold words_of. rewrite seqZ_cons by lia. cbn [map]. rewrite slice_app_l by lia.
  rewrite slice_all by lia. f_equal. replace (Z.pred (1 + n)) with n by lia. change (Z.succ 0) with (1 + 0).
  rewrite <- fmap_add_seqZ. change (map (fun i => le_num (slice (x ++ b) (i * 8) 8)) (Z.add 1 <$> seqZ 0 n))
    with (map (fun i => le_num (slice (x ++ b) (i * 8) 8)) (map (Z.add 1) (seqZ 0 n))). rewrite map_map.
  apply map_ext_in. intros i Hi%list_elem_of_In%elem_of_seqZ. rewrite slice_app_r by lia. do 2 f_equal. lia.
Qed.

(** A field of whole words whose last byte is made zero. *)
Lemma words_terminated ws c :
  Forall word_ok ws ->
  words_of (terminated (bytes_of (ws ++ [c])) (8 * (zlen ws + 1))) (zlen ws + 1) = ws ++ [c mod 2 ^ 56].
Proof.
  intros Hw. assert (E : terminated (bytes_of (ws ++ [c])) (8 * (zlen ws + 1)) = bytes_of ws ++ le_split 7 c ++ [0]).
  { unfold bytes_of, terminated, set_byte. rewrite map_app, concat_app. cbn [map concat]. rewrite app_nil_r. fold (bytes_of ws).
    assert (Hl : length (bytes_of ws) = (8 * length ws)%nat) by (pose proof (zlen_bytes_of ws); unfold zlen in *; lia).
    rewrite insert_app_r_alt by (unfold zlen; lia). f_equal.
    replace (_ - length (bytes_of ws))%nat with 7%nat by (unfold zlen; lia). reflexivity. }
  rewrite E. clear E. induction Hw as [|w ws Hw Hws IH].
  - change (zlen (@nil Z) + 1) with (1 + 0). unfold bytes_of. cbn [map concat app]. rewrite <- (app_nil_r (le_split 7 c ++ [0])).
    rewrite words_of_cons by (rewrite ?zlen_app, ?zlen_le_split; reflexivity || lia). cbn [app]. do 2 f_equal.
    change (2 ^ 56) with (256 ^ Z.of_nat 7). rewrite <- le_num_split. generalize (le_split 7 c). intros l.
    induction l as [|x l IHl]; cbn [app le_num]; lia.
  - rewrite zlen_cons. replace (1 + zlen ws + 1) with (1 + (zlen ws + 1)) by lia. unfold bytes_of in *. cbn [map concat].
    rewrite <- app_assoc, words_of_cons by (rewrite ?zlen_le_split; pose proof (zlen_nonneg ws); reflexivity || lia).
    rewrite IH. cbn [app]. f_equal. now apply word_num.
Qed.

Lemma registered_words words :
  Forall word_ok words -> 16 <= zlen words -> row_words (registered (row_of_words words)) = fresh_process words.
Proof.
  intros Hw Hl.
  destruct words as [|w0 [|w1 [|w2 [|w3 [|w4 [|w5 [|w6 [|w7 [|w8 [|w9 [|w10 [|w11 [|w12 [|w13 [|w14 [|w15 words]]]]]]]]]]]]]]]];
    try (unfold zlen in Hl; simpl in Hl; lia).
  do 16 (apply Forall_cons in Hw as [? Hw]).
  assert (Hn : words_of (terminated (bytes_of [w4; w5; w6]) 24) 3 = [w4; w5; w6 mod 2 ^ 56])
    by (apply (words_terminated [w4; w5] w6); auto).
  assert (Hp : words_of (terminated (bytes_of [w7; w8; w9; w10; w11; w12; w13; w14; w15]) 72) 9 =
      [w7; w8; w9; w10; w11; w12; w13; w14; w15 mod 2 ^ 56])
    by (apply (words_terminated [w7; w8; w9; w10; w11; w12; w13; w14] w15); auto 20).
  unfold row_words, registered, row_of_words, kNameMax, kPathMax. cbn [pid parent flags state row_name row_path take drop].
  rewrite take_0, Hn, Hp. reflexivity.
Qed.

Lemma position_index n rows id : forall i,
  (i + n <= length rows)%nat ->
  index_from n rows id i = option_map (Nat.add i) (position (map row_words (take n (drop i rows))) id).
Proof.
  induction n as [|n IH]; intros i Hi; cbn [index_from]; [reflexivity|].
  destruct (lookup_lt_is_Some_2 rows i ltac:(lia)) as [row Hr]. rewrite Hr, (drop_S rows row i Hr). cbn [take map position].
  change (word (row_words row) 0) with (pid row). destruct (pid row =? id); [cbn; f_equal; lia|].
  rewrite IH by lia. destruct (position _ id); [|reflexivity]. cbn. f_equal. lia.
Qed.

Lemma index_of_position t id : table_ok t -> index_of t id = position (processes t) id.
Proof.
  intros [Hm Hc _]. unfold zlen in Hm. unfold index_of. rewrite position_index by lia. rewrite drop_0.
  unfold processes, live_rows. now destruct (position _ id).
Qed.

Lemma position_lookup l id i : position l id = Some i -> exists p, l !! i = Some p /\ word p 0 = id.
Proof.
  revert i. induction l as [|p l IH]; intros i; cbn [position]; [discriminate|].
  destruct (Z.eqb_spec (word p 0) id) as [E|]; [intros [= <-]; exists p; auto|].
  destruct (position l id) as [j|]; [|discriminate]. intros [= <-]. now apply IH.
Qed.

Lemma position_none l id : position l id = None -> id ∉ map (fun p => word p 0) l.
Proof.
  induction l as [|p l IH]; cbn [position map]; intros Hp; [apply not_elem_of_nil|].
  destruct (Z.eqb_spec (word p 0) id) as [|Hne]; [discriminate|]. destruct (position l id); [discriminate|].
  apply not_elem_of_cons. split; [congruence|auto].
Qed.

Lemma processes_ids t : map (fun p => word p 0) (processes t) = map pid (live_rows t).
Proof. unfold processes. rewrite map_map. reflexivity. Qed.

Lemma zlen_processes t : table_ok t -> zlen (processes t) = count_ t.
Proof. intros Ht. unfold processes, zlen. rewrite length_map, (length_live t Ht). pose proof (tk_count t Ht). lia. Qed.

Lemma add_law t seed : table_ok t ->
  let '(ok, t') := add_process t seed in
  table_ok t' /\ capacity_ t' = capacity_ t /\
  match position (processes t) (pid seed) with
  | Some _ => ok = false /\ t' = t
  | None => if capacity_ t <=? zlen (processes t) then ok = false /\ t' = t
            else ok = true /\ processes t' = processes t ++ [row_words (registered seed)]
  end.
Proof.
  intros Ht. unfold add_process, find_process. rewrite (index_of_position t _ Ht), (zlen_processes t Ht).
  destruct (position (processes t) (pid seed)) as [i|] eqn:E.
  { rewrite <- (index_of_position t _ Ht) in E. pose proof (index_of_spec t (pid seed) Ht) as Hi. rewrite E in Hi.
    destruct Hi as (row & -> & _). rewrite orb_true_r. auto. }
  rewrite orb_false_r. destruct (Z.leb_spec (capacity_ t) (count_ t)) as [Hf|Hf]; [auto|].
  pose proof Ht as [Hm Hc Hd]. unfold zlen in Hm. set (t' := mkTable _ _ _).
  assert (Hrows : live_rows t' = live_rows t ++ [registered seed]).
  { unfold live_rows, t'. simpl. replace (Z.to_nat (count_ t + 1)) with (S (Z.to_nat (count_ t))) by lia.
    rewrite (take_S_r _ _ (registered seed)) by (apply list_lookup_insert_eq; lia). now rewrite take_insert_ge by lia. }
  apply position_none in E. rewrite processes_ids in E.
  splits; auto; [|unfold processes; now rewrite Hrows, map_app].
  split; simpl; [unfold zlen; rewrite length_insert; lia|lia|]. rewrite Hrows, map_app, NoDup_app. splits; [auto| |apply NoDup_singleton].
  intros x Hx ->%list_elem_of_singleton. exact (E Hx).
Qed.

(** The last element moved into the hole. *)
Lemma take_insert_last (l : list process) i final :
  (i < length l)%nat -> l !! (length l - 1)%nat = Some final ->
  take (length l - 1) (<[i := final]> l) = without l i.
Proof.
  intros Hi Hf. unfold without. destruct (decide (i = length l - 1)%nat) as [->|Hne].
  - rewrite drop_ge by lia. simpl. now rewrite take_insert_ge by lia.
  - assert (Hd : drop (S i) l = take (length l - 1 - S i) (drop (S i) l) ++ [final]).
    { rewrite <- (take_drop (length l - 1 - S i) (drop (S i) l)) at 1. f_equal. rewrite drop_drop.
      replace (S i + (length l - 1 - S i))%nat with (length l - 1)%nat by lia.
      rewrite (drop_S l final) by exact Hf. now rewrite drop_ge by lia. }
    rewrite Hd, rev_app_distr. cbn [rev app]. rewrite rev_involutive, insert_take_drop by exact Hi.
    assert (Hl : length (take i l) = i) by (rewrite length_take; lia).
    rewrite take_app_ge by lia. rewrite Hl. f_equal. replace (length l - 1 - i)%nat with (S (length l - 1 - S i)) by lia. reflexivity.
Qed.

Lemma swap_pids (l : list process) i p :
  l !! i = Some p -> map (fun p => word p 0) l ≡ₚ word p 0 :: map (fun p => word p 0) (without l i).
Proof.
  intros Hi. rewrite <- (take_drop_middle l i p Hi) at 1. unfold without. rewrite map_app. cbn [map].
  destruct (rev (drop (S i) l)) as [|final others] eqn:E; apply (f_equal (@rev process)) in E; rewrite rev_involutive in E; rewrite E; cbn [rev app].
  - cbn [map]. symmetry. apply Permutation_cons_append.
  - rewrite !map_app. cbn [map]. etransitivity; [symmetry; apply Permutation_middle|]. constructor. apply Permutation_app_head.
    symmetry. apply Permutation_cons_append.
Qed.

Lemma remove_law t id : table_ok t ->
  let '(ok, t') := remove_process t id in
  table_ok t' /\ capacity_ t' = capacity_ t /\
  match position (processes t) id with
  | Some i => ok = true /\ processes t' = without (processes t) i
  | None => ok = false /\ t' = t
  end.
Proof.
  intros Ht. unfold remove_process. rewrite (index_of_position t _ Ht). destruct (position (processes t) id) as [i|] eqn:E; [|auto].
  apply position_lookup in E as (p & Hp & _). pose proof (lookup_lt_Some _ _ _ Hp) as Hlt.
  pose proof Ht as [Hm Hc Hd]. unfold zlen in Hm. pose proof (length_live t Ht) as Hlen.
  assert (Hlp : length (processes t) = Z.to_nat (count_ t)) by (unfold processes; now rewrite length_map).
  destruct (lookup_lt_is_Some_2 (rows_ t) (Z.to_nat (count_ t - 1)) ltac:(lia)) as [final Hfinal]. rewrite Hfinal. set (t' := mkTable _ _ _).
  assert (Hrows : processes t' = without (processes t) i).
  { rewrite <- (take_insert_last _ i (row_words final)); [|exact Hlt|].
    - unfold processes, live_rows, t'. simpl. rewrite length_map, length_take.
      replace (Z.to_nat (count_ t - 1)) with (Z.to_nat (count_ t) - 1)%nat by lia.
      replace (Z.to_nat (count_ t) `min` length (rows_ t))%nat with (Z.to_nat (count_ t)) by lia.
      change (map row_words (take (Z.to_nat (count_ t) - 1) (<[i:=final]> (rows_ t))) =
        take (Z.to_nat (count_ t) - 1) (<[i:=row_words final]> (row_words <$> take (Z.to_nat (count_ t)) (rows_ t)))).
      rewrite <- list_fmap_insert, <- take_insert_lt by lia.
      change (row_words <$> ?l) with (map row_words l).
      rewrite firstn_map, take_take. do 2 f_equal. lia.
    - rewrite Hlp. unfold processes, live_rows. rewrite list_lookup_fmap, lookup_take_lt by lia.
      replace (Z.to_nat (count_ t) - 1)%nat with (Z.to_nat (count_ t - 1)) by lia. now rewrite Hfinal. }
  splits; auto. split; simpl; [unfold zlen; rewrite length_insert; lia|lia|].
  rewrite <- processes_ids, Hrows. rewrite <- processes_ids, (swap_pids _ i p Hp) in Hd. now apply NoDup_cons in Hd as [_ Hd].
Qed.

Lemma is_user_bit badge : is_user_badge badge = Z.testbit badge 62.
Proof.
  unfold is_user_badge, kUserBadge. rewrite Z.shiftl_1_l. destruct (Z.testbit badge 62) eqn:E.
  - destruct (Z.eqb_spec (Z.land badge (2 ^ 62)) 0) as [H0|]; [|reflexivity].
    apply (f_equal (fun z => Z.testbit z 62)) in H0. rewrite Z.land_spec, E, Z.pow2_bits_true in H0 by lia. discriminate H0.
  - apply negb_false_iff, Z.eqb_eq, Z.bits_inj'. intros n Hn. rewrite Z.land_spec, Z.pow2_bits_eqb, Z.bits_0 by lia.
    destruct (Z.eqb_spec 62 n) as [<-|]; [now rewrite E|apply andb_false_r].
Qed.

Lemma may_break_authority caller target : may_break caller target = authority caller target.
Proof.
  assert (Hu : forall badge, user_index badge = (badge / 2 ^ 24) mod 2 ^ 38).
  { intros badge. unfold user_index. change kUserIndexMask with (Z.ones 38). now rewrite Z.land_ones, Z.shiftr_div_pow2 by lia. }
  unfold may_break, authority, badge_user. rewrite !is_user_bit, !Hu.
  destruct (Z.testbit caller 62), (Z.testbit target 62); reflexivity.
Qed.

Lemma flagged_words row value : row_words (flagged row (Z.land value kAttnAll)) = attended (row_words row) value.
Proof.
  assert (Hf : Z.land value kAttnAll = value mod 16) by (change kAttnAll with (Z.ones 4); now rewrite Z.land_ones by lia).
  unfold flagged, attended. rewrite Hf. change kAttnC with (Z.ones 1). rewrite Z.land_ones by lia.
  assert (Ho : (value mod 16) mod 2 ^ 1 = if Z.odd value then 1 else 0).
  { rewrite <- Znumtheory.Zmod_div_mod; [|lia|lia|exists 8; lia]. change (2 ^ 1) with 2. rewrite Zmod_odd. now destruct (Z.odd value). }
  rewrite Ho. destruct (Z.odd value); reflexivity.
Qed.

Lemma break_law t id value caller : table_ok t ->
  let '(ok, t') := process_set_flags t id (Z.land value kAttnAll) caller in
  table_ok t' /\ capacity_ t' = capacity_ t /\
  match position (processes t) id with
  | Some i =>
    if authority caller id then ok = true /\ processes t' = alter (fun p => attended p value) i (processes t)
    else ok = false /\ t' = t
  | None => ok = false /\ t' = t
  end.
Proof.
  intros Ht. pose proof (set_flags_spec t id (Z.land value kAttnAll) caller Ht) as Hs. revert Hs.
  unfold process_set_flags. pose proof (index_of_spec t id Ht) as Hi. rewrite <- (index_of_position t id Ht).
  destruct (index_of t id) as [i|]; [|auto]. destruct Hi as (row & Hr & Hl & Hp & _). rewrite Hr, Hp, may_break_authority.
  destruct (authority caller id); cbn [negb]; intros (H1 & H2 & _); [|auto]. splits; auto.
  pose proof (lookup_lt_Some _ _ _ Hl) as Hlt. rewrite (length_live t Ht) in Hlt.
  unfold processes, live_rows. cbn [rows_ count_ with_rows]. rewrite take_insert_lt by lia.
  change (map row_words ?l) with (row_words <$> l). rewrite list_fmap_insert, flagged_words, list_insert_alter. apply list_alter_ext; [|reflexivity].
  intros p Hpr. rewrite list_lookup_fmap in Hpr. unfold live_rows in Hl. rewrite Hl in Hpr. now injection Hpr as <-.
Qed.

Lemma handle_law t method words caller capacity :
  table_ok t -> Forall word_ok words ->
  let '(reply, t') := handle t method words caller capacity in
  table_ok t' /\ capacity_ t' = capacity_ t /\
  spec_call (capacity_ t) (processes t) method words caller capacity = (reply, processes t').
Proof.
  intros Ht Hw. unfold handle, kMethodCount, kMethodDescribe, kMethodBreak, kMethodRegister, kMethodUnregister, kRowWords.
  destruct (Z.eqb_spec method 1) as [->|N1].
  { unfold spec_call. rewrite (zlen_processes t Ht). destruct (capacity <? 1); auto. }
  destruct (Z.eqb_spec method 2) as [->|N2].
  { unfold spec_call. destruct (_ || _); [auto|]. unfold row_at, u32, processes. rewrite list_lookup_fmap. unfold live_rows.
    assert (Hu : 0 <= word words 0 mod 2 ^ 32) by (apply Z.mod_pos_bound; lia). pose proof Ht as [Hm Hc _]. unfold zlen in Hm.
    destruct (Z.ltb_spec (word words 0 mod 2 ^ 32) (count_ t)).
    - rewrite lookup_take_lt by lia. destruct (rows_ t !! _); auto.
    - rewrite lookup_take_ge by lia. auto. }
  destruct (Z.eqb_spec method 3) as [->|N3].
  { unfold spec_call. destruct (_ || _); [auto|]. pose proof (break_law t (word words 0) (word words 1) caller Ht) as Hs.
    destruct (process_set_flags _ _ _ _) as [ok t']. destruct Hs as (H1 & H2 & H3). splits; auto.
    destruct (position _ _); [destruct (authority _ _)|]; destruct H3 as [-> H3]; now rewrite H3. }
  destruct (Z.eqb_spec method 4) as [->|N4].
  { unfold spec_call. destruct (Z.ltb_spec (zlen words) 16) as [Hl|Hl]; cbn [orb]; [auto|]. destruct (capacity <? 1); [auto|].
    pose proof (add_law t (row_of_words words) Ht) as Hs. rewrite (registered_words words Hw Hl) in Hs.
    change (pid (row_of_words words)) with (word words 0) in Hs. destruct (add_process _ _) as [ok t']. destruct Hs as (H1 & H2 & H3).
    splits; auto. destruct (position _ _); [|destruct (capacity_ t <=? _)]; destruct H3 as [-> H3]; now rewrite H3. }
  destruct (Z.eqb_spec method 5) as [->|N5].
  { unfold spec_call. destruct (_ || _); [auto|]. pose proof (remove_law t (word words 0) Ht) as Hs.
    destruct (remove_process _ _) as [ok t']. destruct Hs as (H1 & H2 & H3). splits; auto.
    destruct (position _ _); destruct H3 as [-> H3]; now rewrite H3. }
  splits; auto. destruct method as [|[[[]|[]|]|[[]|[]|]|]|]; congruence || reflexivity.
Qed.

(** Calls one after another, each with its caller: the replies and the table. *)
Fixpoint handle_all (t : ProcessTable) (calls : list (Z * list Z * Z * Z)) : list (list Z) * ProcessTable :=
  match calls with
  | [] => ([], t)
  | (method, words, caller, capacity) :: calls =>
    let '(reply, t) := handle t method words caller capacity in
    let '(replies, t) := handle_all t calls in (reply :: replies, t)
  end.
Fixpoint spec_all (room : Z) (l : list process) (calls : list (Z * list Z * Z * Z)) : list (list Z) * list process :=
  match calls with
  | [] => ([], l)
  | (method, words, caller, capacity) :: calls =>
    let '(reply, l) := spec_call room l method words caller capacity in
    let '(replies, l) := spec_all room l calls in (reply :: replies, l)
  end.

Definition empty_table (rows : list Row) : ProcessTable := mkTable rows (zlen rows) 0.

(** C15: The registry as its clients see it.  From the empty table, after any
    calls of any callers with 64-bit words, every reply and the processes left
    are those of [spec_call]: the count; the sixteen words of the process at an
    index (its low 32 bits), nothing past the last; a registration appends the
    words it carries with flags and state cleared and name and path ended, and
    is refused for an id that is there or when the table is full; a removal takes
    out that id and the last process takes its place; a break sets the four
    attention bits of the process it names, and a pending break with bit C, when
    the caller is the system or the same user; short calls are refused.  No id is
    there twice. *)
Theorem process_table_refines (rows : list Row) (calls : list (Z * list Z * Z * Z)) :
  Forall (fun call : Z * list Z * Z * Z => Forall word_ok call.1.1.2) calls ->
  let '(replies, t) := handle_all (empty_table rows) calls in
  spec_all (zlen rows) [] calls = (replies, processes t) /\ NoDup (map (fun p => word p 0) (processes t)).
Proof.
  intros Hw.
  assert (Hgen : forall t, table_ok t -> let '(replies, t') := handle_all t calls in
    table_ok t' /\ spec_all (capacity_ t) (processes t) calls = (replies, processes t')).
  { induction Hw as [|[[[method words] caller] capacity] calls Hc Hw IH]; intros t Ht; cbn [handle_all spec_all]; [auto|]. simpl in Hc.
    pose proof (handle_law t method words caller capacity Ht Hc) as Hh. destruct (handle _ _ _ _ _) as [reply t1].
    destruct Hh as (H1 & H2 & ->). specialize (IH t1 H1). destruct (handle_all t1 calls) as [replies t2].
    destruct IH as [I1 I2]. split; [exact I1|]. now rewrite H2 in I2; rewrite I2. }
  assert (Hempty : table_ok (empty_table rows)) by (split; simpl; [reflexivity|pose proof (zlen_nonneg rows); lia|constructor]).
  specialize (Hgen _ Hempty). destruct (handle_all (empty_table rows) calls) as [replies t]. destruct Hgen as [Ht Hs].
  split; [exact Hs|]. rewrite processes_ids. apply Ht.
Qed.


(** C16: A user cannot touch what is not the user's: no break a user sends
    changes the row of a system process or of another user's. *)
Theorem break_needs_authority (t : ProcessTable) (words : list Z) (caller capacity id : Z) :
  table_ok t -> is_user_badge caller = true ->
  is_user_badge id = false \/ user_index id <> user_index caller ->
  live (handle t kMethodBreak words caller capacity).2 !! id = live t !! id.
Proof.
  intros Ht Hc Hid. unfold handle. cbn [Z.eqb kMethodBreak kMethodCount kMethodDescribe Pos.eqb].
  destruct (_ || _); [reflexivity|]. pose proof (set_flags_spec t (word words 0) (Z.land (word words 1) kAttnAll) caller Ht) as Hs.
  destruct (process_set_flags _ _ _ _) as [ok t']. destruct Hs as (_ & _ & Hs). cbn [snd].
  destruct (live t !! word words 0) as [row|]; [|destruct Hs as [_ ->]; reflexivity].
  destruct (may_break caller (word words 0)) eqn:E; destruct Hs as [_ ->]; [|reflexivity].
  apply lookup_insert_ne. intros Ei. unfold may_break in E. rewrite Hc, Ei in E. cbn [negb] in E.
  destruct (is_user_badge id); cbn [negb] in E; [|discriminate]. apply Z.eqb_eq in E. intuition congruence.
Qed.

(** Two users' processes and a system one. *)
Definition sample_calls : list (Z * list Z * Z * Z) :=
  [(kMethodRegister, [make_user_badge 1 5] ++ replicate 15 0, 7, 16); (kMethodRegister, [9] ++ replicate 15 0, 7, 16)].
Definition sample_table : ProcessTable := (handle_all (empty_table (replicate 4 (mkRow 0 0 0 0 (zeros 24) (zeros 72)))) sample_calls).2.

Lemma sample_table_ok : table_ok sample_table.
Proof.
  split; [vm_compute; reflexivity|split; vm_compute; congruence|].
  replace (map pid (live_rows sample_table)) with [make_user_badge 1 5; 9] by (vm_compute; reflexivity).
  apply NoDup_cons. split; [rewrite list_elem_of_singleton; vm_compute; congruence|apply NoDup_singleton].
Qed.

(** Two registrations, a break of the user's process by the same user, the
    first process gone, and the one left described. *)
Lemma process_table_refines_witness :
  let calls := sample_calls ++ [(kMethodBreak, [make_user_badge 1 5; 1], make_user_badge 1 6, 1); (kMethodDescribe, [0], 7, 16);
    (kMethodUnregister, [make_user_badge 1 5], 7, 1); (kMethodDescribe, [0], 7, 16)] in
  (handle_all (empty_table (replicate 4 (mkRow 0 0 0 0 (zeros 24) (zeros 72)))) calls).1 =
  [[1]; [1]; [1]; [make_user_badge 1 5; 0; 1; 1] ++ replicate 12 0; [1]; [9] ++ replicate 15 0].
Proof.
  intros calls. pose proof (process_table_refines (replicate 4 (mkRow 0 0 0 0 (zeros 24) (zeros 72))) calls) as T.
  destruct (handle_all _ calls) as [replies t]. destruct T as [T _].
  { repeat constructor; simpl; unfold word_ok; vm_compute; congruence. }
  apply (f_equal fst) in T. cbn [fst] in T |- *. rewrite <- T. vm_compute. reflexivity.
Defined.

Lemma break_needs_authority_witness :
  live (handle sample_table kMethodBreak [9; 1] (make_user_badge 1 6) 1).2 !! 9 = live sample_table !! 9 /\
  (handle sample_table kMethodBreak [make_user_badge 1 5; 1] (make_user_badge 1 6) 1).1 = [kBreakSet].
Proof.
  split; [|vm_compute; reflexivity].
  apply (break_needs_authority sample_table [9; 1] (make_user_badge 1 6) 1 9 sample_table_ok); [vm_compute; reflexivity|left; vm_compute; reflexivity].
Defined.
