(* ===== verification/Elf.v ===== *)
(** Program images (libs/freestanding/aegir-spawn, src/elf.cc): what a spawner
    reads of an ELF file.  Every read is checked against the image's bytes:
    [None] is a read outside them, which the code itself does not notice.  The
    theorems: an image whose table does not run around the address space is read
    within its bounds and accepted exactly when it is well formed, and the
    segments and the table an accepted image hands out lie inside it. *)
From stdpp Require Import base numbers option list.
From Stdlib Require Import ZArith Lia.
From S2P Require Import Prelude.

Definition kClass64 : Z := 2.
Definition kDataLittleEndian : Z := 1.
Definition kTypeExecutable : Z := 2.
Definition kTypeDynamic : Z := 3.
Definition kMachineRiscV : Z := 243.
Definition kEntryOffset : Z := 24.
Definition kProgramHeaderOffsetOffset : Z := 32.
Definition kProgramHeaderEntrySizeOffset : Z := 54.
Definition kProgramHeaderCountOffset : Z := 56.
Definition kPhType : Z := 0.
Definition kPhFlags : Z := 4.
Definition kPhOffset : Z := 8.
Definition kPhVaddr : Z := 16.
Definition kPhFilesz : Z := 32.
Definition kPhMemsz : Z := 40.
Definition kPhAlign : Z := 48.
Definition kProgramHeaderSize : Z := 56.
Definition kProgramHeaderLoad : Z := 1.
Definition kProgramHeaderGnuStack : Z := 0x6474e551.

(** [struct ProgramHeader] *)
Record ProgramHeader := mkHeader {
  ph_type : Z; ph_flags : Z; ph_offset : Z; ph_vaddr : Z; ph_filesz : Z; ph_memsz : Z; ph_align : Z;
}.
Definition no_header : ProgramHeader := mkHeader 0 0 0 0 0 0 0.

(** [class Elf]; a null [image_] is [None]. *)
Record Elf := mkElf {
  image_ : option bytes;
  size_ : Z;
  entry_ : Z;
  program_header_offset_ : Z;
  program_header_count_ : Z;
  program_header_size_ : Z;
  load_end_ : Z;
  stack_size_ : Z;
  valid_ : bool;
}.

(** The byte [at_] bytes after the image's first: addresses are 64 bits wide and
    run around, and only those of the image may be read. *)
Definition byte_in (e : Elf) (at_ : Z) : option Z :=
  image ← image_ e; if u64 at_ <? zlen image then Some (byte_at image (u64 at_)) else None.

(** [read16], [read32] and [read64]: [n] bytes, the last the highest. *)
Fixpoint read_number (n : nat) (e : Elf) (at_ : Z) : option Z :=
  match n with
  | O => Some 0
  | S n => value ← read_number n e (at_ + 1); byte ← byte_in e at_; Some (Z.lor (Z.shiftl value 8) byte)
  end.
Definition read16 := read_number 2.
Definition read32 := read_number 4.
Definition read64 := read_number 8.

Definition program_header (e : Elf) (index : Z) : option ProgramHeader :=
  if program_header_count_ e <=? index then Some no_header
  else
    let at_ := program_header_offset_ e + u64 (index * program_header_size_ e) in
    type ← read32 e (at_ + kPhType);
    flags ← read32 e (at_ + kPhFlags);
    offset ← read64 e (at_ + kPhOffset);
    vaddr ← read64 e (at_ + kPhVaddr);
    filesz ← read64 e (at_ + kPhFilesz);
    memsz ← read64 e (at_ + kPhMemsz);
    align ← read64 e (at_ + kPhAlign);
    Some (mkHeader type flags offset vaddr filesz memsz align).

(** [&&], whose right side is not read when the left is false. *)
Definition andalso (a b : option bool) : option bool := match a with Some true => b | r => r end.
Definition byte_is (e : Elf) (at_ value : Z) : option bool := byte ← byte_in e at_; Some (byte =? value).

Definition identified (e : Elf) : option bool :=
  andalso (byte_is e 0 0x7f) (andalso (byte_is e 1 69) (andalso (byte_is e 2 76) (andalso (byte_is e 3 70)
    (andalso (byte_is e 4 kClass64) (byte_is e 5 kDataLittleEndian))))).

Definition with_load_end (e : Elf) (v : Z) : Elf :=
  mkElf (image_ e) (size_ e) (entry_ e) (program_header_offset_ e) (program_header_count_ e) (program_header_size_ e) v (stack_size_ e) (valid_ e).
Definition with_stack_size (e : Elf) (v : Z) : Elf :=
  mkElf (image_ e) (size_ e) (entry_ e) (program_header_offset_ e) (program_header_count_ e) (program_header_size_ e) (load_end_ e) v (valid_ e).
Definition with_valid (e : Elf) (v : bool) : Elf :=
  mkElf (image_ e) (size_ e) (entry_ e) (program_header_offset_ e) (program_header_count_ e) (program_header_size_ e) (load_end_ e) (stack_size_ e) v.

(** The loop over the program headers, from [i], [n] of them left. *)
Fixpoint parse_headers (n : nat) (i : Z) (e : Elf) : option (bool * Elf) :=
  match n with
  | O => Some (true, with_valid e true)
  | S n =>
    header ← program_header e i;
    if ph_type header =? kProgramHeaderGnuStack then parse_headers n (i + 1) (with_stack_size e (ph_memsz header))
    else if negb (ph_type header =? kProgramHeaderLoad) then parse_headers n (i + 1) e
    else if size_ e <? u64 (ph_offset header + ph_filesz header) then Some (false, e)
    else
      let end_ := u64 (ph_vaddr header + ph_memsz header) in
      parse_headers n (i + 1) (if load_end_ e <? end_ then with_load_end e end_ else e)
  end.

Definition parse (e : Elf) (image : option bytes) (size : Z) : option (bool * Elf) :=
  let e := mkElf image size (entry_ e) (program_header_offset_ e) (program_header_count_ e) (program_header_size_ e) 0 0 false in
  if match image with None => true | Some _ => size <? kProgramHeaderEntrySizeOffset + 2 end then Some (false, e)
  else
    ok ← identified e;
    if negb ok then Some (false, e)
    else
      type ← read16 e 16;
      if negb (type =? kTypeExecutable) && negb (type =? kTypeDynamic) then Some (false, e)
      else
        machine ← read16 e 18;
        if negb (machine =? kMachineRiscV) then Some (false, e)
        else
          entry ← read64 e kEntryOffset;
          table ← read64 e kProgramHeaderOffsetOffset;
          entry_size ← read16 e kProgramHeaderEntrySizeOffset;
          count ← read16 e kProgramHeaderCountOffset;
          let e := mkElf image size entry table count entry_size 0 0 false in
          if (count =? 0) || (entry_size <? kProgramHeaderSize) then Some (false, e)
          else if size <? u64 (table + count * entry_size) then Some (false, e)
          else parse_headers (Z.to_nat count) 0 e.

(** The copy loop's bytes. *)
Fixpoint read_bytes (n : nat) (e : Elf) (at_ : Z) : option bytes :=
  match n with
  | O => Some []
  | S n => byte ← byte_in e at_; rest ← read_bytes n e (at_ + 1); Some (byte :: rest)
  end.

(** The bytes of [destination] after the call with its result. *)
Definition copy_program_headers (e : Elf) (destination : option bytes) (room : Z) : option (bool * option bytes) :=
  let n := program_header_count_ e * program_header_size_ e in
  match destination with
  | None => Some (false, None)
  | Some out =>
    if negb (valid_ e) || (room <? n) || (size_ e <? u64 (program_header_offset_ e + n)) then Some (false, destination)
    else from ← read_bytes (Z.to_nat n) e (program_header_offset_ e); Some (true, Some (blit out 0 from))
  end.

(** Where the segment's bytes start, counted from the image's first byte. *)
Definition segment_bytes (e : Elf) (header : ProgramHeader) : option Z :=
  if negb (valid_ e) || (size_ e <? u64 (ph_offset header + ph_filesz header)) then None else Some (ph_offset header).

(** * Reads inside the image *)

(** The number stored in [n] bytes. *)
Definition field (image : bytes) (at_ n : Z) : Z := le_num (slice image at_ n).

Lemma byte_in_ok e image at_ :
  image_ e = Some image -> zlen image < 2 ^ 64 -> 0 <= at_ < zlen image -> byte_in e at_ = Some (byte_at image at_).
Proof.
  intros Hi Hl Ha. unfold byte_in. rewrite Hi. cbn [mbind option_bind]. rewrite u64_small by lia.
  now rewrite (proj2 (Z.ltb_lt _ _)) by lia.
Qed.

Lemma slice_cons b o n : 0 <= o -> 0 <= n -> slice b o (1 + n) = byte_at b o :: slice b (o + 1) n.
Proof.
  intros Ho Hn. rewrite slice_split by lia. change (byte_at b o :: slice b (o + 1) n) with ([byte_at b o] ++ slice b (o + 1) n).
  f_equal. apply bytes_ext; [rewrite zlen_slice by lia; reflexivity|].
  intros i Hi. rewrite zlen_slice in Hi by lia. replace i with 0 by lia. rewrite byte_at_slice, Z.add_0_r by lia. reflexivity.
Qed.

Section inside.
Context (e : Elf) (image : bytes).
Context (Himage : image_ e = Some image) (Hok : bytes_ok image) (Hlen : zlen image < 2 ^ 64).

Lemma read_number_ok n : forall at_,
  0 <= at_ -> at_ + Z.of_nat n <= zlen image -> read_number n e at_ = Some (field image at_ (Z.of_nat n)).
Proof using Himage Hok Hlen.
  induction n as [|n IH]; intros at_ Ha Hn; cbn [read_number]; [reflexivity|].
  rewrite (IH (at_ + 1)) by lia. cbn [mbind option_bind]. rewrite (byte_in_ok e image at_ Himage Hlen) by lia.
  cbn [mbind option_bind]. unfold field. replace (Z.of_nat (S n)) with (1 + Z.of_nat n) by lia.
  rewrite slice_cons by lia. cbn [le_num]. pose proof (byte_at_ok image at_ Hok) as Hb. unfold byte_ok in Hb.
  rewrite Z.lor_comm, lor_shiftl_add by lia. f_equal. lia.
Qed.

Lemma read_bytes_ok n : forall at_,
  0 <= at_ -> at_ + Z.of_nat n <= zlen image -> read_bytes n e at_ = Some (slice image at_ (Z.of_nat n)).
Proof using Himage Hlen.
  induction n as [|n IH]; intros at_ Ha Hn; cbn [read_bytes]; [reflexivity|].
  rewrite (byte_in_ok e image at_ Himage Hlen) by lia. cbn [mbind option_bind]. rewrite (IH (at_ + 1)) by lia.
  cbn [mbind option_bind]. replace (Z.of_nat (S n)) with (1 + Z.of_nat n) by lia. now rewrite slice_cons by lia.
Qed.

Lemma byte_is_ok at_ v : 0 <= at_ < zlen image -> byte_is e at_ v = Some (byte_at image at_ =? v).
Proof using Himage Hlen. intros Ha. unfold byte_is. now rewrite (byte_in_ok e image at_ Himage Hlen Ha). Qed.
End inside.

(** * What an image says *)

Section image.
Context (image : bytes).

Definition image_table : Z := field image kProgramHeaderOffsetOffset 8.
Definition image_entry_size : Z := field image kProgramHeaderEntrySizeOffset 2.
Definition image_count : Z := field image kProgramHeaderCountOffset 2.

(** The header at [at_], and all of them. *)
Definition header_at (at_ : Z) : ProgramHeader :=
  mkHeader (field image (at_ + kPhType) 4) (field image (at_ + kPhFlags) 4) (field image (at_ + kPhOffset) 8)
    (field image (at_ + kPhVaddr) 8) (field image (at_ + kPhFilesz) 8) (field image (at_ + kPhMemsz) 8)
    (field image (at_ + kPhAlign) 8).
Definition nth_header (i : Z) : ProgramHeader := header_at (image_table + i * image_entry_size).
Fixpoint headers_from (n : nat) (i : Z) : list ProgramHeader :=
  match n with O => [] | S n => nth_header i :: headers_from n (i + 1) end.
Definition headers : list ProgramHeader := headers_from (Z.to_nat image_count) 0.

Definition is_load (h : ProgramHeader) : bool := ph_type h =? kProgramHeaderLoad.
Definition is_stack (h : ProgramHeader) : bool := ph_type h =? kProgramHeaderGnuStack.
(** A load segment's bytes are in the file, and its end in memory. *)
Definition in_file (h : ProgramHeader) : bool := negb (is_load h) || (ph_offset h + ph_filesz h <=? zlen image).
Definition ends (hs : list ProgramHeader) : list Z := map (fun h => ph_vaddr h + ph_memsz h) (List.filter is_load hs).
(** The same with the sums at 64 bits, as the parser has them. *)
Definition passes (h : ProgramHeader) : bool := negb (is_load h) || (u64 (ph_offset h + ph_filesz h) <=? zlen image).
Definition ends64 (hs : list ProgramHeader) : list Z := map (fun h => u64 (ph_vaddr h + ph_memsz h)) (List.filter is_load hs).
Definition stacks (hs : list ProgramHeader) : list Z := map ph_memsz (List.filter is_stack hs).

(** A RISC-V executable of the right class whose table and segments are in the file. *)
Record well_formed : Prop := {
  wf_identified : slice image 0 6 = [0x7f; 69; 76; 70; kClass64; kDataLittleEndian];
  wf_type : field image 16 2 = kTypeExecutable \/ field image 16 2 = kTypeDynamic;
  wf_machine : field image 18 2 = kMachineRiscV;
  wf_count : image_count <> 0;
  wf_entry_size : kProgramHeaderSize <= image_entry_size;
  wf_table : image_table + image_count * image_entry_size <= zlen image;
  wf_segments : forallb in_file headers = true;
}.

(** The image's bytes, not so many as to run around, not cut inside its header,
    and a table that does not run around. *)
Record readable : Prop := {
  rd_bytes : bytes_ok image;
  rd_length : zlen image < 2 ^ 64;
  rd_header : zlen image < 56 \/ 58 <= zlen image;
  rd_table : image_table + image_count * image_entry_size < 2 ^ 64;
}.
(** No load segment runs around the end of the file's or of the memory's
    addresses. *)
Definition files_whole : Prop := Forall (fun h => is_load h = true -> ph_offset h + ph_filesz h < 2 ^ 64) headers.
Definition memory_whole : Prop := Forall (fun h => is_load h = true -> ph_vaddr h + ph_memsz h < 2 ^ 64) headers.
End image.

Lemma field_range image at_ n : bytes_ok image -> 0 <= n -> 0 <= field image at_ n < 256 ^ n.
Proof.
  intros Hb Hn. unfold field. pose proof (le_num_range (slice image at_ n) (bytes_ok_slice image at_ n Hb)) as Hr.
  now rewrite zlen_slice in Hr by lia.
Qed.

Lemma foldr_max_start a x l : foldr Z.max (Z.max a x) l = Z.max x (foldr Z.max a l).
Proof. induction l as [|y l IH]; cbn [foldr]; lia. Qed.

Lemma foldr_max_in x a l : x ∈ l -> x <= foldr Z.max a l.
Proof. induction 1; cbn [foldr]; lia. Qed.

Lemma last_start {A} (d x : A) l : default d (list.last (x :: l)) = default x (list.last l).
Proof. revert d x. induction l as [|y l IH]; intros d x; [reflexivity|]. change (list.last (x :: y :: l)) with (list.last (y :: l)). now rewrite !IH. Qed.

Section parsing.
Context (image : bytes) (Hr : readable image).

(** The object's fields once the header has been read. *)
Definition of_image (load stack : Z) (valid : bool) : Elf :=
  mkElf (Some image) (zlen image) (field image kEntryOffset 8) (image_table image) (image_count image)
    (image_entry_size image) load stack valid.

Lemma program_header_law load stack valid i :
  image_table image + image_count image * image_entry_size image <= zlen image ->
  kProgramHeaderSize <= image_entry_size image -> 0 <= i < image_count image ->
  program_header (of_image load stack valid) i = Some (nth_header image i).
Proof using Hr.
  intros Ht Hs Hi. destruct Hr as [Hb Hl _ _]. pose proof (field_range image 32 8 Hb ltac:(lia)) as H1.
  fold kProgramHeaderOffsetOffset in H1. fold (image_table image) in H1. unfold kProgramHeaderSize in Hs.
  assert (Hend : image_table image + i * image_entry_size image + 56 <= zlen image) by nia.
  unfold program_header. cbn [program_header_count_ program_header_offset_ program_header_size_ of_image].
  rewrite (proj2 (Z.leb_gt _ _)) by lia. cbv zeta. rewrite u64_small by nia. unfold read32, read64, nth_header.
  assert (Hat : 0 <= image_table image + i * image_entry_size image) by nia.
  set (at_ := image_table image + i * image_entry_size image) in *. clearbody at_.
  repeat (rewrite (read_number_ok (of_image load stack valid) image eq_refl Hb Hl)
    by (unfold kPhType, kPhFlags, kPhOffset, kPhVaddr, kPhFilesz, kPhMemsz, kPhAlign; lia); cbn [mbind option_bind]).
  reflexivity.
Qed.

Lemma parse_headers_law n : forall i load stack,
  image_table image + image_count image * image_entry_size image <= zlen image ->
  kProgramHeaderSize <= image_entry_size image -> 0 <= i -> i + Z.of_nat n = image_count image ->
  let hs := headers_from image n i in
  if forallb (passes image) hs then
    parse_headers n i (of_image load stack false) =
      Some (true, of_image (foldr Z.max load (ends64 hs)) (default stack (list.last (stacks hs))) true)
  else exists load' stack', parse_headers n i (of_image load stack false) = Some (false, of_image load' stack' false).
Proof using Hr.
  induction n as [|n IH]; intros i load stack Ht Hs Hi Hn; cbn [headers_from forallb parse_headers]; [reflexivity|].
  rewrite program_header_law by (auto; lia). cbn [mbind option_bind]. cbv zeta.
  unfold passes at 1, ends64, stacks. cbn [List.filter]. unfold is_stack at 1, is_load at 1 2.
  set (h := nth_header image i). fold is_stack is_load.
  destruct (Z.eqb_spec (ph_type h) kProgramHeaderGnuStack) as [E|E].
  - replace (ph_type h =? kProgramHeaderLoad) with false by (rewrite E; reflexivity). cbn [negb orb andb map].
    rewrite last_start. apply (IH (i + 1) load (ph_memsz h)); auto; lia.
  - destruct (Z.eqb_spec (ph_type h) kProgramHeaderLoad) as [El|El]; cbn [negb orb andb map].
    + rewrite Z.leb_antisym. cbn [size_ of_image load_end_]. destruct (Z.ltb_spec (zlen image) (u64 (ph_offset h + ph_filesz h))); cbn [negb andb].
      { eauto. }
      cbn [foldr]. set (v := u64 (ph_vaddr h + ph_memsz h)).
      specialize (IH (i + 1) (Z.max load v) stack Ht Hs ltac:(lia) ltac:(lia)). cbv zeta in IH. rewrite foldr_max_start in IH.
      replace (if load <? v then with_load_end _ v else _) with (of_image (Z.max load v) stack false); [exact IH|].
      destruct (Z.ltb_spec load v); unfold with_load_end, of_image; cbn; f_equal; lia.
    + apply (IH (i + 1) load stack); auto; lia.
Qed.

Lemma identified_law e :
  image_ e = Some image -> 56 <= zlen image ->
  exists ok, identified e = Some ok /\
    (ok = true <-> slice image 0 6 = [0x7f; 69; 76; 70; kClass64; kDataLittleEndian]).
Proof using Hr.
  intros Hi Hl. pose proof (rd_length image Hr) as Hlen. unfold identified.
  rewrite !(byte_is_ok e image Hi Hlen) by lia.
  change 6 with (1 + (1 + (1 + (1 + (1 + (1 + 0)))))). rewrite !slice_cons by lia.
  change (0 + 1) with 1. change (1 + 1) with 2. change (2 + 1) with 3. change (3 + 1) with 4. change (4 + 1) with 5.
  change (slice image (5 + 1) 0) with (@nil Z).
  eexists. split.
  { instantiate (1 := (byte_at image 0 =? 0x7f) && ((byte_at image 1 =? 69) && ((byte_at image 2 =? 76) && ((byte_at image 3 =? 70) &&
      ((byte_at image 4 =? kClass64) && (byte_at image 5 =? kDataLittleEndian)))))).
    repeat match goal with |- context [byte_at image ?i =? ?v] => destruct (byte_at image i =? v); [|reflexivity] end. reflexivity. }
  rewrite !andb_true_iff, !Z.eqb_eq. split; [intros (-> & -> & -> & -> & -> & ->); reflexivity|intros [= -> -> -> -> -> ->]; auto 10].
Qed.

(** The object of an image that is accepted. *)
Definition accepted : Elf :=
  of_image (foldr Z.max 0 (ends64 (headers image))) (default 0 (list.last (stacks (headers image)))) true.

(** What the parser checks. *)
Record checked : Prop := {
  ck_identified : slice image 0 6 = [0x7f; 69; 76; 70; kClass64; kDataLittleEndian];
  ck_type : field image 16 2 = kTypeExecutable \/ field image 16 2 = kTypeDynamic;
  ck_machine : field image 18 2 = kMachineRiscV;
  ck_count : image_count image <> 0;
  ck_entry_size : kProgramHeaderSize <= image_entry_size image;
  ck_table : image_table image + image_count image * image_entry_size image <= zlen image;
  ck_segments : forallb (passes image) (headers image) = true;
}.

Lemma checked_length : checked -> 58 <= zlen image.
Proof using Hr.
  intros [_ _ _ Hc He Ht _]. destruct Hr as [Hb _ Hh _].
  pose proof (field_range image kProgramHeaderOffsetOffset 8 Hb ltac:(lia)). pose proof (field_range image kProgramHeaderCountOffset 2 Hb ltac:(lia)).
  unfold kProgramHeaderSize in *. fold (image_table image) in *. fold (image_count image) in *. nia.
Qed.

Lemma parse_law e :
  exists ok e', parse e (Some image) (zlen image) = Some (ok, e') /\ valid_ e' = ok /\
    (ok = true <-> checked) /\ (ok = true -> e' = accepted).
Proof using Hr.
  assert (Hno : ~ checked -> forall e', valid_ e' = false -> exists ok e'', Some (false, e') = Some (ok, e'') /\ valid_ e'' = ok /\
    (ok = true <-> checked) /\ (ok = true -> e'' = accepted)).
  { intros Hw e' Hv. exists false, e'. splits; [reflexivity|exact Hv|split; [discriminate|tauto]|discriminate]. }
  unfold parse. cbv zeta. destruct (Z.ltb_spec (zlen image) (kProgramHeaderEntrySizeOffset + 2)) as [Hs|Hs]; unfold kProgramHeaderEntrySizeOffset in Hs.
  { apply Hno; [intros Hw; pose proof (checked_length Hw); lia|reflexivity]. }
  pose proof Hr as [Hb Hlen Hh Ht]. destruct Hh as [Hh|Hh]; [lia|].
  set (e0 := mkElf (Some image) _ _ _ _ _ _ _ _). destruct (identified_law e0 eq_refl ltac:(lia)) as (ok & -> & Hid).
  cbn [mbind option_bind]. destruct ok; cbn [negb]; [|apply Hno; [intros []; intuition discriminate|reflexivity]].
  unfold read16, read64.
  rewrite !(read_number_ok e0 image eq_refl Hb Hlen)
    by (unfold kEntryOffset, kProgramHeaderOffsetOffset, kProgramHeaderEntrySizeOffset, kProgramHeaderCountOffset; lia).
  cbn [mbind option_bind]. change (Z.of_nat 2) with 2. change (Z.of_nat 8) with 8.
  destruct (negb (field image 16 2 =? kTypeExecutable) && negb (field image 16 2 =? kTypeDynamic)) eqn:Ety; breflect.
  { apply Hno; [intros []; intuition|reflexivity]. }
  destruct (Z.eqb_spec (field image 18 2) kMachineRiscV) as [Em|Em]; cbn [negb]; [|apply Hno; [intros []; intuition|reflexivity]].
  change (mkElf (Some image) _ _ _ _ _ 0 0 false) with (of_image 0 0 false). fold (image_count image) (image_entry_size image) (image_table image).
  destruct ((image_count image =? 0) || (image_entry_size image <? kProgramHeaderSize)) eqn:Ec; breflect.
  { apply Hno; [intros []; intuition lia|reflexivity]. }
  pose proof (field_range image kProgramHeaderOffsetOffset 8 Hb ltac:(lia)) as Ho. pose proof (field_range image kProgramHeaderCountOffset 2 Hb ltac:(lia)) as Hc.
  fold (image_table image) in Ho. fold (image_count image) in Hc. rewrite u64_small by (unfold kProgramHeaderSize in *; nia).
  destruct (Z.ltb_spec (zlen image) (image_table image + image_count image * image_entry_size image)).
  { apply Hno; [intros []; lia|reflexivity]. }
  pose proof (parse_headers_law (Z.to_nat (image_count image)) 0 0 0 ltac:(lia) ltac:(lia) ltac:(lia) ltac:(lia)) as Hp.
  fold (headers image) in Hp. cbv zeta in Hp. destruct (forallb (passes image) (headers image)) eqn:Ef.
  - rewrite Hp. exists true, accepted. splits; [reflexivity|reflexivity| |reflexivity]. split; [|reflexivity]. intros _.
    split; auto; [apply Hid; reflexivity|lia].
  - destruct Hp as (l & st & ->). apply Hno; [intros []; congruence|reflexivity].
Qed.
End parsing.

Lemma headers_from_in image n : forall i j, i <= j < i + Z.of_nat n -> nth_header image j ∈ headers_from image n i.
Proof.
  induction n as [|n IH]; intros i j Hj; [lia|]. cbn [headers_from]. destruct (Z.eq_dec i j) as [->|Hne]; [apply list_elem_of_here|].
  apply list_elem_of_further, IH. lia.
Qed.

Lemma header_range image i (h := nth_header image i) : bytes_ok image ->
  0 <= ph_offset h < 2 ^ 64 /\ 0 <= ph_filesz h < 2 ^ 64 /\ 0 <= ph_vaddr h < 2 ^ 64 /\ 0 <= ph_memsz h < 2 ^ 64.
Proof. intros Hb. splits; apply (field_range image _ 8 Hb); lia. Qed.

Lemma headers_checked image i : checked image -> 0 <= i < image_count image -> passes image (nth_header image i) = true.
Proof.
  intros Hw Hi. apply (proj1 (forallb_forall _ _) (ck_segments image Hw)), list_elem_of_In, headers_from_in. lia.
Qed.

Lemma headers_from_all image (P : ProgramHeader -> Prop) n : (forall i, P (nth_header image i)) -> forall i, Forall P (headers_from image n i).
Proof. intros Hp. induction n as [|n IH]; intros i; cbn [headers_from]; constructor; auto. Qed.

(** What is in the file passes; what passes and does not run around is in it. *)
Lemma well_formed_checked image : readable image -> well_formed image -> checked image.
Proof.
  intros Hr [W1 W2 W3 W4 W5 W6 W7]. split; auto. rewrite forallb_forall in W7 |- *. intros h Hh. specialize (W7 h Hh).
  assert (Hb : Forall (fun h => 0 <= ph_offset h /\ 0 <= ph_filesz h) (headers image)).
  { apply headers_from_all. intros i. pose proof (header_range image i (rd_bytes _ Hr)). lia. }
  rewrite Forall_forall in Hb. apply list_elem_of_In in Hh. specialize (Hb h Hh). pose proof (rd_length _ Hr).
  unfold in_file, passes in *. destruct (is_load h); cbn [negb orb] in *; [|reflexivity]. apply Z.leb_le in W7. apply Z.leb_le.
  rewrite u64_small; lia.
Qed.

Lemma checked_well_formed image : readable image -> files_whole image -> checked image -> well_formed image.
Proof.
  intros Hr Hf [W1 W2 W3 W4 W5 W6 W7]. split; auto. rewrite forallb_forall in W7 |- *. intros h Hh. specialize (W7 h Hh).
  assert (Hb : Forall (fun h => 0 <= ph_offset h /\ 0 <= ph_filesz h) (headers image)).
  { apply headers_from_all. intros i. pose proof (header_range image i (rd_bytes _ Hr)). lia. }
  unfold files_whole in Hf. rewrite Forall_forall in Hb, Hf. apply list_elem_of_In in Hh. specialize (Hb h Hh). specialize (Hf h Hh).
  unfold in_file, passes in *. destruct (is_load h); cbn [negb orb] in *; [|reflexivity]. specialize (Hf eq_refl).
  rewrite u64_small in W7 by lia. exact W7.
Qed.

Lemma ends_whole image : readable image -> memory_whole image -> ends64 (headers image) = ends (headers image).
Proof.
  intros Hr Hm. apply map_ext_in. intros h [Hh Hl]%filter_In. apply list_elem_of_In in Hh.
  assert (Hb : Forall (fun h => 0 <= ph_vaddr h /\ 0 <= ph_memsz h) (headers image)).
  { apply headers_from_all. intros i. pose proof (header_range image i (rd_bytes _ Hr)). lia. }
  unfold memory_whole in Hm. rewrite Forall_forall in Hb, Hm. specialize (Hb h Hh). specialize (Hm h Hh Hl). apply u64_small. lia.
Qed.

(** C28: Parsing is the image's well-formedness.  For an image that is not cut
    inside its header (56 or 57 bytes) and whose program header table does not
    run around the address space, nothing outside it is read; a RISC-V
    executable whose table and load segments are in the file is accepted, with
    the file's entry point and the last stack size declared; and where no load
    segment's end in the file runs around 2^64, nothing else is accepted, and
    where none in memory does, the load end is the highest end of a load
    segment.  The conditions are needed: see [wrapped_read_outside]. *)
Theorem elf_parse_spec (image : bytes) (e : Elf) :
  readable image ->
  exists ok e', parse e (Some image) (zlen image) = Some (ok, e') /\ valid_ e' = ok /\
    (well_formed image -> ok = true) /\ (files_whole image -> ok = true -> well_formed image) /\
    (ok = true -> entry_ e' = field image kEntryOffset 8 /\ stack_size_ e' = default 0 (list.last (stacks (headers image)))) /\
    (memory_whole image -> ok = true -> load_end_ e' = foldr Z.max 0 (ends (headers image))).
Proof.
  intros Hr. destruct (parse_law image Hr e) as (ok & e' & Hp & Hv & Hw & Ha). exists ok, e'. splits; auto.
  - intros Hf. now apply Hw, well_formed_checked.
  - intros Hf Ho. apply checked_well_formed; auto. now apply Hw.
  - intros Ho. rewrite (Ha Ho). auto.
  - intros Hm Ho. rewrite (Ha Ho). cbn. now rewrite ends_whole.
Qed.

(** C29: What an accepted image hands out is inside it, for an image not cut
    inside its header whose table does not run around ([readable]).  Every
    program header is read from the file, the copied table is the file's, and
    the bytes of a load segment whose end in the file stays below 2^64 lie in
    the file, and its memory below the object's load end when its end there
    stays below 2^64.  ([wrapped_read_outside] has an accepted segment whose end
    does not, outside the file.) *)
Theorem elf_contents_inside (image : bytes) (e e' : Elf) :
  readable image -> parse e (Some image) (zlen image) = Some (true, e') ->
  let n := image_count image * image_entry_size image in
  (forall i, 0 <= i < image_count image -> program_header e' i = Some (nth_header image i)) /\
  (forall out room, n <= room -> copy_program_headers e' (Some out) room = Some (true, Some (blit out 0 (slice image (image_table image) n)))) /\
  image_table image + n <= zlen image /\
  (forall i, 0 <= i < image_count image -> let h := nth_header image i in
     is_load h = true -> ph_offset h + ph_filesz h < 2 ^ 64 ->
     segment_bytes e' h = Some (ph_offset h) /\ 0 <= ph_offset h /\ ph_offset h + ph_filesz h <= zlen image /\
     (ph_vaddr h + ph_memsz h < 2 ^ 64 -> ph_vaddr h + ph_memsz h <= load_end_ e')).
Proof.
  intros Hr Hp n. destruct (parse_law image Hr e) as (ok & e2 & Hp2 & _ & Hw & Ha). rewrite Hp in Hp2. injection Hp2 as <- <-.
  rewrite (Ha eq_refl). pose proof (proj1 Hw eq_refl) as [_ _ _ Hc He Ht _]. pose proof Hr as [Hb Hl _ Hwrap].
  pose proof (field_range image kProgramHeaderOffsetOffset 8 Hb ltac:(lia)) as Ho. pose proof (field_range image kProgramHeaderCountOffset 2 Hb ltac:(lia)) as Hcr.
  fold (image_table image) in Ho. fold (image_count image) in Hcr. unfold kProgramHeaderSize in He. splits; [| |lia|].
  - intros i Hi. apply program_header_law; auto.
  - intros out room Hroom. unfold copy_program_headers. cbn [accepted of_image valid_ size_ program_header_offset_ program_header_count_ program_header_size_ negb orb].
    rewrite u64_small by nia. rewrite (proj2 (Z.ltb_ge _ _)) by lia. rewrite (proj2 (Z.ltb_ge _ _)) by lia. cbn [orb].
    rewrite (read_bytes_ok (accepted image) image eq_refl Hl) by nia. rewrite Z2Nat.id by nia. reflexivity.
  - intros i Hi h Hload Hend. pose proof (headers_checked image i (proj1 Hw eq_refl) Hi) as Hfile. fold h in Hfile. unfold passes in Hfile. rewrite Hload in Hfile. cbn [negb orb] in Hfile. apply Z.leb_le in Hfile.
    pose proof (header_range image i Hb) as (H1 & H2 & H3 & H4). fold h in H1, H2, H3, H4. rewrite u64_small in Hfile by lia.
    splits; [|lia|lia|].
    + unfold segment_bytes. cbn [accepted of_image valid_ size_ negb orb]. rewrite u64_small by lia. now rewrite (proj2 (Z.ltb_ge _ _)) by lia.
    + intros Hv. apply foldr_max_in. apply list_elem_of_fmap. exists h. split; [now rewrite u64_small by lia|].
      apply list_elem_of_In, filter_In. split; [apply list_elem_of_In, headers_from_in; lia|exact Hload].
Qed.

(** * Examples *)

Module SampleElf.
Definition head (table count : Z) : bytes :=
  [0x7f; 69; 76; 70; 2; 1] ++ zeros 10 ++ le_split 2 2 ++ le_split 2 243 ++ zeros 4 ++ le_split 8 0x10000 ++ le_split 8 table ++
  zeros 14 ++ le_split 2 56 ++ le_split 2 count ++ zeros 6.
Definition program (type offset vaddr filesz memsz : Z) : bytes :=
  le_split 4 type ++ zeros 4 ++ le_split 8 offset ++ le_split 8 vaddr ++ zeros 8 ++ le_split 8 filesz ++ le_split 8 memsz ++ zeros 8.
(** One segment of 16 bytes and a declared stack. *)
Definition image : bytes :=
  head 64 2 ++ program kProgramHeaderLoad 176 0x10000 16 64 ++ program kProgramHeaderGnuStack 0 0 0 0x4000 ++ replicate 16 7.
(** A table 56 bytes before the end of the address space. *)
Definition wrapped : bytes := head (2 ^ 64 - 56) 1.
(** A segment whose end runs around to the image's start. *)
Definition far : bytes := head 64 1 ++ program kProgramHeaderLoad (2 ^ 64 - 16) 0x10000 16 16.
Definition blank : Elf := mkElf None 0 0 0 0 0 0 0 false.
End SampleElf.

Lemma sample_readable : readable SampleElf.image.
Proof.
  split; [apply bytes_okb_true; vm_compute; reflexivity|vm_compute; reflexivity|right; vm_compute; discriminate|vm_compute; reflexivity].
Qed.

Lemma sample_whole : files_whole SampleElf.image /\ memory_whole SampleElf.image.
Proof.
  assert (E : headers SampleElf.image = [mkHeader 1 0 176 0x10000 16 64 0; mkHeader kProgramHeaderGnuStack 0 0 0 0 0x4000 0]) by (vm_compute; reflexivity).
  unfold files_whole, memory_whole. rewrite E. split; repeat constructor; cbn; lia.
Qed.

Lemma elf_parse_spec_witness :
  exists e', parse SampleElf.blank (Some SampleElf.image) (zlen SampleElf.image) = Some (true, e') /\
    well_formed SampleElf.image /\ entry_ e' = 0x10000 /\ load_end_ e' = 0x10040 /\ stack_size_ e' = 0x4000.
Proof.
  destruct (elf_parse_spec SampleElf.image SampleElf.blank sample_readable) as (ok & e' & Hp & _ & _ & Hf & He & Hm).
  assert (Hok : option_map fst (parse SampleElf.blank (Some SampleElf.image) (zlen SampleElf.image)) = Some true) by (vm_compute; reflexivity).
  rewrite Hp in Hok. injection Hok as ->. destruct (He eq_refl) as [E1 E2]. exists e'. rewrite E1, E2, (Hm (proj2 sample_whole) eq_refl).
  splits; [exact Hp|exact (Hf (proj1 sample_whole) eq_refl)|vm_compute; reflexivity..].
Defined.

Lemma elf_contents_inside_witness :
  exists e', parse SampleElf.blank (Some SampleElf.image) (zlen SampleElf.image) = Some (true, e') /\
    segment_bytes e' (nth_header SampleElf.image 0) = Some 176 /\ 176 + 16 <= zlen SampleElf.image.
Proof.
  destruct (parse SampleElf.blank (Some SampleElf.image) (zlen SampleElf.image)) as [[[] e']|] eqn:E;
    [|vm_compute in E; discriminate|vm_compute in E; discriminate].
  destruct (elf_contents_inside SampleElf.image SampleElf.blank e' sample_readable E) as (_ & _ & _ & Hs).
  destruct (Hs 0) as (S1 & _ & S2 & _); [split; vm_compute; congruence|vm_compute; reflexivity|vm_compute; reflexivity|].
  exists e'. splits; [reflexivity|exact S1|exact S2].
Defined.

(** Where the sums run around, the checks pass: the table of [wrapped] is read
    before the image, and so is the segment of [far], which is accepted; an
    image cut inside its header is read past its end. *)
Lemma wrapped_read_outside :
  parse SampleElf.blank (Some SampleElf.wrapped) (zlen SampleElf.wrapped) = None /\
  parse SampleElf.blank (Some (take 56 SampleElf.image)) 56 = None /\
  match parse SampleElf.blank (Some SampleElf.far) (zlen SampleElf.far) with
  | Some (ok, e) => (ok, segment_bytes e (nth_header SampleElf.far 0), zlen SampleElf.far)
  | None => (false, None, 0)
  end = (true, Some (2 ^ 64 - 16), 120).
Proof. vm_compute. auto. Qed.
