(* ===== verification/Limits.v ===== *)
(** Resource limits (libs/freestanding/aegir-limits, src/limits.cc and
    include/aegir/limits.h): the file of rules, read line by line, and the rule
    that holds for a user.  The theorems: an amount is read exactly, 64 bits
    wide; a lookup gives the most specific rule of the file; and a
    configuration written out is accepted and looked up as written. *)
From stdpp Require Import base numbers list.
From Stdlib Require Import ZArith Lia Ascii.
From Stdlib Require String.
Import String.StringSyntax.
From S2P Require Import Prelude.

(** A view is the characters it spans. *)
Notation View := (list Z).
Definition text_of (s : String.string) : View := map (fun c => Z.of_nat (nat_of_ascii c)) (String.list_ascii_of_string s).
#[local] Open Scope string_scope.
#[local] Open Scope Z_scope.

Inductive Resource := Memory.
Inductive Action := Log | Deny.
#[export] Instance Resource_eq : EqDecision Resource.
Proof. solve_decision. Defined.
#[export] Instance Action_eq : EqDecision Action.
Proof. solve_decision. Defined.

(** [struct Subject] *)
Inductive Subject := Default | Class (name : View) | User (name : View).
Record Amount := mkAmount { set : bool; amount_bytes : Z }.
Record Problem := mkProblem { problem_line : Z; message : View }.

(** * The walker's parts *)

Definition is_space (c : Z) : bool := (c =? 32) || (c =? 9) || (c =? 13).

Fixpoint skip_spaces (l : View) : View :=
  match l with c :: t => if is_space c then skip_spaces t else l | [] => [] end.
Definition trim (l : View) : View := rev (skip_spaces (rev (skip_spaces l))).

(** The loop over the characters: all of them, and nothing left of the literal. *)
Fixpoint equals (value literal : View) : bool :=
  match value, literal with
  | [], [] => true
  | v :: value, t :: literal => (v =? t) && equals value literal
  | _, _ => false
  end.
Definition same (a b : View) : bool := (zlen a =? zlen b) && equals a b.
Definition starts_with (value prefix : View) : bool :=
  (zlen prefix <? zlen value) && equals (take (length prefix) value) prefix.

Definition section_subject (line : View) : option Subject :=
  if (zlen line <=? 0) || negb (byte_at line 0 =? 91) || negb (byte_at line (zlen line - 1) =? 93) then None
  else
    let name := trim (take (length line - 2) (drop 1 line)) in
    if equals name (text_of "default") then Some Default
    else if starts_with name (text_of "class.") then Some (Class (drop 6 name))
    else if starts_with name (text_of "user.") then Some (User (drop 5 name))
    else None.

(** [find_end] line after line, while there is text: a last newline ends the
    last line and starts none. *)
Fixpoint lines (text : View) : list View :=
  match text with
  | [] => []
  | c :: text =>
    if c =? 10 then [] :: lines text
    else match lines text with [] => [[c]] | line :: rest => (c :: line) :: rest end
  end.

Fixpoint to_equals (line : View) : option (View * View) :=
  match line with
  | [] => None
  | c :: line =>
    if c =? 61 then Some ([], line)
    else match to_equals line with Some (key, value) => Some (c :: key, value) | None => None end
  end.
Definition split (line : View) : option (View * View) :=
  match to_equals line with
  | None => None
  | Some (key, value) => if zlen (trim key) =? 0 then None else Some (trim key, trim value)
  end.

Definition known_key (key : View) : option (Resource * Action) :=
  if equals key (text_of "memory_log") then Some (Memory, Log)
  else if equals key (text_of "memory_deny") then Some (Memory, Deny)
  else None.

Definition UINT64_MAX : Z := 2 ^ 64 - 1.

(** The digits' value and what follows them; [None] for one too large. *)
Fixpoint amount_digits (value : View) (amount : Z) : option (Z * View) :=
  match value with
  | [] => Some (amount, [])
  | digit :: rest =>
    if (digit <? 48) || (57 <? digit) then Some (amount, value)
    else
      let d := digit - 48 in
      if (UINT64_MAX - d) / 10 <? amount then None else amount_digits rest (amount * 10 + d)
  end.
Definition multiplier (suffix : Z) : option Z :=
  if suffix =? 75 then Some (2 ^ 10) else if suffix =? 77 then Some (2 ^ 20) else if suffix =? 71 then Some (2 ^ 30) else None.
Definition parse_amount (value : View) : option Z :=
  if zlen value =? 0 then None
  else
    match amount_digits value 0 with
    | None => None
    | Some (amount, rest) =>
      if zlen rest =? zlen value then None
      else
        match rest with
        | [] => if UINT64_MAX / 1 <? amount then None else Some (u64 (amount * 1))
        | suffix :: rest =>
          match multiplier suffix with
          | None => None
          | Some m => if negb (zlen rest =? 0) || (UINT64_MAX / m <? amount) then None else Some (u64 (amount * m))
          end
        end
    end.

(** * The walk *)

(** A rule as the visitor gets it. *)
Record Rule := mkRule { rule_subject : Subject; rule_resource : Resource; rule_action : Action; rule_amount : Z }.

(** Where the walk is: the section it is in, if any, and the keys seen there. *)
Record Walk := mkWalk { subject : Subject; have_section : bool; seen : Z }.
Definition action_bit (action : Action) : Z := match action with Log => 0 | Deny => 1 end.

(** One line: what is wrong with it, or where it leaves the walk and its rule. *)
Definition read_line (at_ : Walk) (line : View) : View + Walk * option Rule :=
  match trim line with
  | [] => inr (at_, None)
  | c :: _ =>
    if c =? 35 then inr (at_, None)
    else if c =? 91 then
      match section_subject (trim line) with
      | None => inl (text_of "a section is [default], [class.name] or [user.name]")
      | Some subject => inr (mkWalk subject true 0, None)
      end
    else if negb (have_section at_) then inl (text_of "a key must come after a [section]")
    else
      match split (trim line) with
      | None => inl (text_of "expected key = value, or a [section]")
      | Some (key, value) =>
        match known_key key with
        | None => inl (text_of "unknown key")
        | Some (resource, action) =>
          let bit := Z.shiftl 1 (action_bit action) in
          if negb (Z.land (seen at_) bit =? 0) then inl (text_of "this key is declared twice in the section")
          else
            match parse_amount value with
            | None => inl (text_of "an amount is bytes with an optional K, M or G")
            | Some amount =>
              inr (mkWalk (subject at_) true (Z.lor (seen at_) bit), Some (mkRule (subject at_) resource action amount))
            end
        end
      end
  end.

(** The loop, with the visitor's state; the first bad line ends it. *)
Fixpoint walk_lines {S} (visit : S -> Rule -> S) (ls : list View) (number : Z) (at_ : Walk) (s : S) : option Problem * S :=
  match ls with
  | [] => (None, s)
  | line :: ls =>
    match read_line at_ line with
    | inl why => (Some (mkProblem number why), s)
    | inr (at_, rule) => walk_lines visit ls (u32 (number + 1)) at_ (match rule with Some r => visit s r | None => s end)
    end
  end.
Definition walk {S} (visit : S -> Rule -> S) (text : View) (s : S) : option Problem * S :=
  walk_lines visit (lines text) 1 (mkWalk Default false 0) s.

(** * The class *)

(** [class Limits]; a null [text_] is [None]. *)
Record Limits := mkLimits { text_ : option View; problem_ : Problem; valid_ : bool }.
Definition no_problem : Problem := mkProblem 0 (text_of "no problem").

Definition parse (l : Limits) (text : option View) : bool * Limits :=
  let l := mkLimits (text_ l) no_problem false in
  match text with
  | None | Some [] => (false, mkLimits (text_ l) (mkProblem 1 (text_of "the limits file is empty")) false)
  | Some t =>
    match walk (fun u _ => u) t tt with
    | (Some problem, _) => (false, mkLimits (text_ l) problem false)
    | (None, _) => (true, mkLimits text (problem_ l) true)
    end
  end.

Definition kPrecedenceUser : Z := 3.
Definition kPrecedenceClass : Z := 2.
Definition kPrecedenceDefault : Z := 1.

Definition score (user klass : View) (s : Subject) : Z :=
  match s with
  | User name => if same name user then kPrecedenceUser else 0
  | Class name => if same name klass then kPrecedenceClass else 0
  | Default => kPrecedenceDefault
  end.

(** [resolve]'s visitor. *)
Definition better (user klass : View) (resource : Resource) (action : Action) (best : Z * Amount) (r : Rule) : Z * Amount :=
  if negb (bool_decide (rule_resource r = resource)) || negb (bool_decide (rule_action r = action)) then best
  else if best.1 <? score user klass (rule_subject r) then (score user klass (rule_subject r), mkAmount true (rule_amount r))
  else best.
Definition resolve (l : Limits) (user klass : View) (resource : Resource) (action : Action) : Amount :=
  let best := mkAmount false 0 in
  match text_ l with
  | Some text => if valid_ l then (walk (better user klass resource action) text (0, best)).2.2 else best
  | None => best
  end.

Definition crosses (amount : Amount) (committed want : Z) : bool :=
  if negb (set amount) then false
  else if UINT64_MAX - committed <? want then true
  else amount_bytes amount <? committed + want.

(** * Amounts *)

Definition is_digit (c : Z) : bool := (48 <=? c) && (c <=? 57).
(** The number digits stand for, after a number [n]. *)
Fixpoint decimal (digits : View) (n : Z) : Z :=
  match digits with [] => n | c :: digits => decimal digits (n * 10 + (c - 48)) end.
(** What a suffix multiplies by. *)
Definition unit_size (suffix : View) : option Z :=
  match suffix with [] => Some 1 | [c] => multiplier c | _ => None end.
Definition no_digit (l : View) : Prop := match l with [] => True | c :: _ => is_digit c = false end.

Lemma decimal_above digits : forall n, 0 <= n -> forallb is_digit digits = true -> n <= decimal digits n.
Proof.
  induction digits as [|c digits IH]; intros n Hn Hd; cbn [decimal]; [lia|]. cbn [forallb] in Hd. unfold is_digit in Hd. breflect.
  specialize (IH (n * 10 + (c - 48)) ltac:(lia)). intuition lia.
Qed.

Lemma amount_digits_law digits rest : forall n,
  forallb is_digit digits = true -> no_digit rest -> 0 <= n < 2 ^ 64 ->
  amount_digits (digits ++ rest) n = if decimal digits n <? 2 ^ 64 then Some (decimal digits n, rest) else None.
Proof.
  induction digits as [|c digits IH]; intros n Hd Hr Hn; cbn [app decimal amount_digits].
  - rewrite (proj2 (Z.ltb_lt _ _)) by lia. destruct rest as [|c rest]; [reflexivity|]. cbn [no_digit amount_digits] in *.
    unfold is_digit in Hr. replace ((c <? 48) || (57 <? c)) with true; [reflexivity|].
    rewrite Z.ltb_antisym, (Z.ltb_antisym c 57), <- negb_andb, Hr. reflexivity.
  - cbn [forallb] in Hd. apply andb_true_iff in Hd as [Hc Hd]. pose proof Hc as Hc'. unfold is_digit in Hc'. breflect.
    rewrite (proj2 (Z.ltb_ge _ _)) by lia. rewrite (proj2 (Z.ltb_ge 57 _)) by lia. cbn [orb]. unfold UINT64_MAX.
    destruct (Z.ltb_spec ((2 ^ 64 - 1 - (c - 48)) / 10) n) as [Hlt|Hge].
    + pose proof (decimal_above digits (n * 10 + (c - 48)) ltac:(lia) Hd). rewrite (proj2 (Z.ltb_ge _ _)) by zlia. reflexivity.
    + apply IH; auto. zlia.
Qed.

Lemma multiplier_positive c m : multiplier c = Some m -> 1 <= m <= 2 ^ 30 /\ is_digit c = false.
Proof.
  unfold multiplier. intros H. repeat (match type of H with context [c =? ?k] => destruct (Z.eqb_spec c k) as [->|_] end;
    [injection H as <-; split; [lia|reflexivity]|]). discriminate.
Qed.

Lemma fits_multiplied n m : 0 <= n -> 1 <= m -> (UINT64_MAX / m <? n) = negb (n * m <? 2 ^ 64).
Proof.
  intros Hn Hm. unfold UINT64_MAX. rewrite <- Z.leb_antisym. apply eq_true_iff_eq. rewrite Z.ltb_lt, Z.leb_le.
  pose proof (Z.div_mod (2 ^ 64 - 1) m ltac:(lia)). pose proof (Z.mod_pos_bound (2 ^ 64 - 1) m ltac:(lia)).
  set (q := (2 ^ 64 - 1) / m) in *. clearbody q. split; intros; [nia|]. apply Z.nle_gt. intros Hle. nia.
Qed.

Lemma parse_amount_law digits rest :
  forallb is_digit digits = true -> no_digit rest ->
  parse_amount (digits ++ rest) =
    if bool_decide (digits = []) then None
    else match unit_size rest with
         | Some m => if decimal digits 0 * m <? 2 ^ 64 then Some (decimal digits 0 * m) else None
         | None => None
         end.
Proof.
  intros Hd Hr. unfold parse_amount. rewrite (amount_digits_law digits rest 0 Hd Hr ltac:(lia)).
  pose proof (decimal_above digits 0 ltac:(lia) Hd) as Hn. rewrite zlen_app. pose proof (zlen_nonneg rest). pose proof (zlen_nonneg digits).
  destruct digits as [|c digits].
  { rewrite bool_decide_eq_true_2 by reflexivity. cbn [decimal]. change (0 <? 2 ^ 64) with true. cbv iota. rewrite zlen_nil, Z.eqb_refl.
    destruct (_ =? 0); reflexivity. }
  rewrite bool_decide_eq_false_2 by discriminate. rewrite zlen_cons in *. pose proof (zlen_nonneg digits).
  rewrite (proj2 (Z.eqb_neq _ 0)) by lia. set (n := decimal (c :: digits) 0) in *. clearbody n.
  destruct (Z.ltb_spec n (2 ^ 64)) as [Hlt|Hge].
  - rewrite (proj2 (Z.eqb_neq _ _)) by lia. destruct rest as [|s rest]; cbn [unit_size].
    + rewrite fits_multiplied by lia. destruct (Z.ltb_spec (n * 1) (2 ^ 64)); cbn [negb]; [|reflexivity]. now rewrite u64_small by lia.
    + destruct (multiplier s) as [m|] eqn:Em; [|destruct rest; rewrite ?Em; reflexivity].
      pose proof (multiplier_positive s m Em) as [Hm _]. rewrite fits_multiplied by lia.
      destruct rest; [|reflexivity]. cbn [zlen Datatypes.length Z.of_nat Z.eqb negb orb].
      destruct (Z.ltb_spec (n * m) (2 ^ 64)); cbn [negb]; [|reflexivity]. now rewrite u64_small by nia.
  - destruct (unit_size rest) as [m|] eqn:Eu; [|reflexivity]. assert (1 <= m).
    { destruct rest as [|s [|]]; cbn [unit_size] in Eu; [injection Eu as <-; lia|apply multiplier_positive in Eu; lia|discriminate]. }
    rewrite (proj2 (Z.ltb_ge _ _)) by nia. reflexivity.
Qed.

Lemma digits_split (value : View) : exists digits rest, value = digits ++ rest /\ forallb is_digit digits = true /\ no_digit rest.
Proof.
  induction value as [|c value (digits & rest & -> & Hd & Hr)]; [exists [], []; repeat split|].
  destruct (is_digit c) eqn:Ec; [exists (c :: digits), rest; cbn; rewrite Ec; auto|exists [], (c :: digits ++ rest); cbn; auto].
Qed.

(** An amount is read exactly.  The text stands for [v] exactly when it is
    one or more digits and at most one of the suffixes K, M and G, and the
    product is below two to the 64; everything else is refused, and nothing
    wraps. *)
Theorem amount_exact (value : View) (v : Z) :
  parse_amount value = Some v <->
  exists digits suffix m, value = digits ++ suffix /\ digits <> [] /\ forallb is_digit digits = true /\
    unit_size suffix = Some m /\ v = decimal digits 0 * m /\ v < 2 ^ 64.
Proof.
  split.
  - destruct (digits_split value) as (digits & rest & -> & Hd & Hr). rewrite (parse_amount_law digits rest Hd Hr).
    destruct (decide (digits = [])) as [->|Hne]; [discriminate|]. rewrite bool_decide_eq_false_2 by exact Hne.
    destruct (unit_size rest) as [m|] eqn:Eu; [|discriminate]. destruct (Z.ltb_spec (decimal digits 0 * m) (2 ^ 64)); [|discriminate].
    intros [= <-]. exists digits, rest, m. auto 10.
  - intros (digits & suffix & m & -> & Hne & Hd & Hu & -> & Hv). rewrite (parse_amount_law digits suffix Hd).
    + rewrite bool_decide_eq_false_2 by exact Hne. rewrite Hu. now rewrite (proj2 (Z.ltb_lt _ _)) by lia.
    + destruct suffix as [|c [|]]; cbn [unit_size no_digit] in *; [exact I|now apply multiplier_positive in Hu|discriminate].
Qed.

(** * Lookup *)

#[export] Instance Subject_eq : EqDecision Subject.
Proof. solve_decision. Defined.

Lemma equals_spec a : forall b, equals a b = bool_decide (a = b).
Proof.
  induction a as [|x a IH]; intros [|y b]; cbn [equals]; try reflexivity.
  rewrite IH. apply eq_true_iff_eq. rewrite andb_true_iff, Z.eqb_eq, !bool_decide_eq_true. split; [intros [-> ->]; reflexivity|intros [= -> ->]; auto].
Qed.

Lemma same_spec a b : same a b = bool_decide (a = b).
Proof.
  unfold same. rewrite equals_spec. destruct (decide (a = b)) as [->|Hne]; [now rewrite Z.eqb_refl|].
  rewrite bool_decide_eq_false_2 by exact Hne. apply andb_false_r.
Qed.

(** The rules of a text, up to its first bad line. *)
Fixpoint rules_from (ls : list View) (at_ : Walk) : list Rule :=
  match ls with
  | [] => []
  | line :: ls => match read_line at_ line with inl _ => [] | inr (at_, rule) => option_list rule ++ rules_from ls at_ end
  end.
Definition rules (text : View) : list Rule := rules_from (lines text) (mkWalk Default false 0).

Lemma walk_lines_fold {S} (visit : S -> Rule -> S) ls : forall number at_ s,
  walk_lines visit ls number at_ s = ((walk_lines (fun u _ => u) ls number at_ tt).1, fold_left visit (rules_from ls at_) s).
Proof.
  induction ls as [|line ls IH]; intros number at_ s; cbn [walk_lines rules_from]; [reflexivity|].
  destruct (read_line at_ line) as [why|[at' rule]]; [reflexivity|]. rewrite IH, fold_left_app. destruct rule; reflexivity.
Qed.

(** The first rule of a subject for a resource and an action. *)
Definition applies (s : Subject) (resource : Resource) (action : Action) (r : Rule) : bool :=
  bool_decide (rule_subject r = s) && bool_decide (rule_resource r = resource) && bool_decide (rule_action r = action).
Definition rule_for (rs : list Rule) (s : Subject) (resource : Resource) (action : Action) : option Rule :=
  List.find (applies s resource action) rs.
(** The user's rule, else the class's, else the default one, else none. *)
Definition most_specific (rs : list Rule) (user klass : View) (resource : Resource) (action : Action) : Amount :=
  match rule_for rs (User user) resource action, rule_for rs (Class klass) resource action, rule_for rs Default resource action with
  | Some r, _, _ | None, Some r, _ | None, None, Some r => mkAmount true (rule_amount r)
  | None, None, None => mkAmount false 0
  end.

(** The fold from a rule of score [k] already found. *)
Definition picked (rs : list Rule) (user klass : View) (resource : Resource) (action : Action) (k : Z) (best : Amount) : Amount :=
  match (if k <? 3 then rule_for rs (User user) resource action else None),
        (if k <? 2 then rule_for rs (Class klass) resource action else None),
        (if k <? 1 then rule_for rs Default resource action else None) with
  | Some r, _, _ | None, Some r, _ | None, None, Some r => mkAmount true (rule_amount r)
  | None, None, None => best
  end.

Lemma better_fold user klass resource action rs : forall k best,
  k = 0 \/ k = 1 \/ k = 2 \/ k = 3 ->
  (fold_left (better user klass resource action) rs (k, best)).2 = picked rs user klass resource action k best.
Proof.
  induction rs as [|[s res act amount] rs IH]; intros k best Hk.
  { unfold picked, rule_for. cbn. destruct (k <? 3), (k <? 2), (k <? 1); reflexivity. }
  cbn [fold_left]. unfold better at 2. cbn [rule_resource rule_action rule_subject rule_amount fst].
  unfold picked, rule_for. cbn [List.find]. unfold applies at 1 3 5. cbn [rule_resource rule_action rule_subject].
  destruct (decide (res = resource)) as [->|Hn];
    [rewrite (bool_decide_eq_true_2 (resource = resource)) by reflexivity
    |rewrite (bool_decide_eq_false_2 (res = resource)) by exact Hn; rewrite !andb_false_r; apply IH; exact Hk].
  destruct (decide (act = action)) as [->|Hn];
    [rewrite (bool_decide_eq_true_2 (action = action)) by reflexivity
    |rewrite (bool_decide_eq_false_2 (act = action)) by exact Hn; rewrite !andb_false_r; apply IH; exact Hk].
  cbn [negb orb]. rewrite !andb_true_r. fold (rule_for rs (User user) resource action) (rule_for rs (Class klass) resource action) (rule_for rs Default resource action).
  assert (Hclass : forall name, bool_decide (Class name = Class klass) = bool_decide (name = klass))
    by (intros; apply bool_decide_ext; split; [intros [= ->]|intros ->]; reflexivity).
  assert (Huser : forall name, bool_decide (User name = User user) = bool_decide (name = user))
    by (intros; apply bool_decide_ext; split; [intros [= ->]|intros ->]; reflexivity).
  destruct s as [|name|name]; cbn [score]; rewrite ?same_spec, ?Hclass, ?Huser; try (destruct (bool_decide (name = _)));
    destruct Hk as [->|[->|[->| ->]]]; cbn; rewrite IH by auto; unfold picked; cbn;
    destruct (rule_for rs (User user) resource action), (rule_for rs (Class klass) resource action), (rule_for rs Default resource action); reflexivity.
Qed.

Lemma resolve_law l l' text user klass resource action :
  parse l (Some text) = (true, l') ->
  resolve l' user klass resource action = most_specific (rules text) user klass resource action.
Proof.
  unfold parse. cbv zeta. destruct text as [|c text]; [discriminate|]. destruct (walk _ _ _) as [[p|] u]; [discriminate|].
  intros [= <-]. unfold resolve, walk. cbn [text_ valid_]. rewrite walk_lines_fold. cbn [snd]. now rewrite better_fold by auto.
Qed.

(** A limit looked up is the most specific rule of the file: the first rule
    of the user, or without one the first of the user's class, or the first
    default one; with none of them there is no limit. *)
Theorem limits_resolve_spec (l l' : Limits) (text user klass : View) (resource : Resource) (action : Action) :
  parse l (Some text) = (true, l') ->
  resolve l' user klass resource action = most_specific (rules text) user klass resource action.
Proof. apply resolve_law. Qed.

(** * A configuration written out *)

(** A rule as written: its action, the digits and the suffix of its amount. *)
Record Entry := mkEntry { entry_action : Action; entry_digits : View; entry_suffix : View }.
Notation config := (list (Subject * list Entry)).

Definition key_text (action : Action) : View := match action with Log => text_of "memory_log" | Deny => text_of "memory_deny" end.
Definition print_subject (s : Subject) : View :=
  [91] ++ match s with Default => text_of "default" | Class n => text_of "class." ++ n | User n => text_of "user." ++ n end ++ [93].
Definition print_entry (e : Entry) : View := key_text (entry_action e) ++ [32; 61; 32] ++ entry_digits e ++ entry_suffix e.
Definition print_section (p : Subject * list Entry) : list View := print_subject p.1 :: map print_entry p.2.
Definition print (c : config) : View := concat (map (fun line => line ++ [10]) (concat (map print_section c))).

Definition entry_amount (e : Entry) : Z := decimal (entry_digits e) 0 * default 0 (unit_size (entry_suffix e)).
Definition entry_rule (s : Subject) (e : Entry) : Rule := mkRule s Memory (entry_action e) (entry_amount e).
Definition config_rules (c : config) : list Rule := concat (map (fun p => map (entry_rule p.1) p.2) c).

(** A name on one line that does not end in a space. *)
Definition name_ok (n : View) : bool :=
  negb (bool_decide (n = [])) && forallb (fun c => negb (c =? 10)) n && negb (is_space (List.last n 32)).
Definition subject_ok (s : Subject) : bool := match s with Default => true | Class n | User n => name_ok n end.
Definition entry_ok (e : Entry) : bool :=
  negb (bool_decide (entry_digits e = [])) && forallb is_digit (entry_digits e) &&
  match unit_size (entry_suffix e) with Some m => decimal (entry_digits e) 0 * m <? 2 ^ 64 | None => false end.
Definition section_ok (p : Subject * list Entry) : bool :=
  subject_ok p.1 && forallb entry_ok p.2 && bool_decide (NoDup (map entry_action p.2)).

Lemma trim_id l d : is_space (hd 32 l) = false -> is_space (List.last l d) = false -> trim l = l.
Proof.
  intros Hh Hl. unfold trim. destruct l as [|c l]; [reflexivity|]. cbn [hd skip_spaces] in *. rewrite Hh.
  rewrite (List.app_removelast_last d (l := c :: l)) by discriminate. rewrite rev_app_distr. cbn [rev app skip_spaces].
  rewrite Hl. rewrite <- (List.app_removelast_last d) by discriminate.
  rewrite <- (rev_involutive (c :: l)) at 3. f_equal. rewrite (List.app_removelast_last d (l := c :: l)) at 3 by discriminate.
  rewrite rev_app_distr. reflexivity.
Qed.

Lemma lines_print ls : forallb (forallb (fun c => negb (c =? 10))) ls = true -> lines (concat (map (fun line => line ++ [10]) ls)) = ls.
Proof.
  induction ls as [|l ls IH]; cbn [forallb map concat lines]; [reflexivity|]. intros [Hl Hls]%andb_true_iff. specialize (IH Hls).
  induction l as [|c l IHl]; cbn [app lines]; [now rewrite IH|]. cbn [forallb] in Hl. apply andb_true_iff in Hl as [Hc Hl].
  apply negb_true_iff in Hc. rewrite Hc, (IHl Hl). reflexivity.
Qed.

Lemma last_app_cons {A} (l : list A) x k d : List.last (l ++ x :: k) d = List.last (x :: k) d.
Proof. induction l as [|y l IH]; [reflexivity|]. rewrite <- IH. cbn [app]. destruct (l ++ x :: k) eqn:E; [destruct l; discriminate|reflexivity]. Qed.

Lemma last_app_ne {A} (l k : list A) d : k <> [] -> List.last (l ++ k) d = List.last k d.
Proof. destruct k as [|x k]; [congruence|]. intros _. apply last_app_cons. Qed.

Lemma bracketed body : let line := [91] ++ body ++ [93] in
  trim line = line /\ section_subject line =
    let name := trim body in
    if equals name (text_of "default") then Some Default
    else if starts_with name (text_of "class.") then Some (Class (drop 6 name))
    else if starts_with name (text_of "user.") then Some (User (drop 5 name))
    else None.
Proof.
  intros line. assert (Hl : zlen line = zlen body + 2) by (unfold line; autorewrite with buf; lia). pose proof (zlen_nonneg body).
  split. { apply (trim_id line 32); [reflexivity|]. unfold line. rewrite app_assoc, last_app_cons. reflexivity. }
  unfold section_subject. rewrite (proj2 (Z.leb_gt _ _)) by lia. change (byte_at line 0 =? 91) with true.
  replace (byte_at line (zlen line - 1)) with 93.
  2:{ rewrite Hl. unfold line. rewrite byte_at_app by lia. rewrite zlen_cons, zlen_nil.
      rewrite (proj2 (Z.ltb_ge _ _)) by lia.
      rewrite byte_at_app by lia. rewrite (proj2 (Z.ltb_ge _ _)) by lia. replace (zlen body + 2 - 1 - (1 + 0) - zlen body) with 0 by lia. reflexivity. }
  cbn [orb negb Z.eqb Pos.eqb]. replace (take (Datatypes.length line - 2) (drop 1 line)) with body; [reflexivity|].
  replace (Datatypes.length line - 2)%nat with (Datatypes.length body) by (unfold zlen in Hl; lia).
  change (drop 1 line) with (body ++ [93]). symmetry. apply take_app_length.
Qed.

Lemma named_prefix prefix n :
  name_ok n = true -> is_space (hd 32 (prefix ++ n)) = false ->
  trim (prefix ++ n) = prefix ++ n /\ starts_with (prefix ++ n) prefix = true /\ drop (Datatypes.length prefix) (prefix ++ n) = n.
Proof.
  unfold name_ok. rewrite !andb_true_iff, !negb_true_iff, bool_decide_eq_false. intros [[Hne _] Hl] Hh. splits.
  - apply (trim_id _ 32); [exact Hh|]. rewrite last_app_ne by exact Hne. exact Hl.
  - unfold starts_with. rewrite zlen_app, take_app_length, equals_spec, bool_decide_eq_true_2 by reflexivity.
    destruct n as [|c n]; [congruence|]. rewrite zlen_cons. pose proof (zlen_nonneg n). now rewrite (proj2 (Z.ltb_lt _ _)) by lia.
  - apply drop_app_length.
Qed.

Lemma read_subject at_ s : subject_ok s = true -> read_line at_ (print_subject s) = inr (mkWalk s true 0, None).
Proof.
  intros Hs. unfold read_line, print_subject. set (body := match s with Default => _ | Class n => _ | User n => _ end).
  destruct (bracketed body) as [-> ->]. cbn [app]. change (91 =? 35) with false. change (91 =? 91) with true. cbv iota zeta.
  destruct s as [|n|n]; [reflexivity| |]; cbn [subject_ok] in Hs; unfold body.
  - destruct (named_prefix (text_of "class.") n Hs eq_refl) as (-> & -> & H3).
    change (equals (text_of "class." ++ n) (text_of "default")) with false. cbv iota. change (drop 6 (text_of "class." ++ n)) with (drop (Datatypes.length (text_of "class.")) (text_of "class." ++ n)). now rewrite H3.
  - destruct (named_prefix (text_of "user.") n Hs eq_refl) as (-> & -> & H3).
    change (equals (text_of "user." ++ n) (text_of "default")) with false.
    replace (starts_with (text_of "user." ++ n) (text_of "class.")) with false by (symmetry; apply andb_false_r).
    cbv iota. change (drop 5 (text_of "user." ++ n)) with (drop (Datatypes.length (text_of "user.")) (text_of "user." ++ n)). now rewrite H3.
Qed.

Lemma to_equals_key key value : forallb (fun c => negb (c =? 61)) key = true -> to_equals (key ++ 61 :: value) = Some (key, value).
Proof.
  induction key as [|c key IH]; cbn [app to_equals forallb]; [reflexivity|]. intros [Hc Hk]%andb_true_iff.
  apply negb_true_iff in Hc. now rewrite Hc, (IH Hk).
Qed.

Lemma trim_spaced a b l : is_space a = true -> is_space b = true -> is_space (hd 32 l) = false -> is_space (List.last l 32) = false ->
  trim (l ++ [b]) = l /\ trim (a :: l) = l.
Proof.
  intros Ha Hb Hh Hl. pose proof (trim_id l 32 Hh Hl) as Ht. destruct l as [|c l]; [discriminate|]. unfold trim in *.
  cbn [app skip_spaces hd] in *. rewrite Hh in *. rewrite Ha. split; [|exact Ht].
  change (c :: l ++ [b]) with ((c :: l) ++ [b]). rewrite rev_app_distr. cbn [rev app skip_spaces]. rewrite Hb. exact Ht.
Qed.

Lemma multiplier_space c m : multiplier c = Some m -> is_space c = false.
Proof. intros Hm. unfold multiplier in Hm. repeat (match type of Hm with context [c =? ?k] => destruct (Z.eqb_spec c k) as [->|_] end; [reflexivity|]). discriminate. Qed.

Lemma digit_not_space c : is_digit c = true -> is_space c = false.
Proof. unfold is_digit, is_space. intros H. breflect. rewrite !(proj2 (Z.eqb_neq _ _)) by lia. reflexivity. Qed.

Lemma last_digit digits : digits <> [] -> forallb is_digit digits = true -> is_digit (List.last digits 32) = true.
Proof.
  intros Hne Hd. apply (proj1 (forallb_forall _ _) Hd). destruct digits as [|c digits]; [congruence|].
  rewrite (List.app_removelast_last 32 (l := c :: digits)) at 2 by discriminate. apply in_or_app. right. left. reflexivity.
Qed.

Lemma amount_text_last e : entry_ok e = true ->
  is_space (hd 32 (entry_digits e ++ entry_suffix e)) = false /\ is_space (List.last (entry_digits e ++ entry_suffix e) 32) = false /\
  parse_amount (entry_digits e ++ entry_suffix e) = Some (entry_amount e).
Proof.
  destruct e as [a digits suffix]. unfold entry_ok, entry_amount. cbn [entry_digits entry_suffix].
  rewrite !andb_true_iff, negb_true_iff, bool_decide_eq_false. intros [[Hne Hd] Hu]. destruct (unit_size suffix) as [m|] eqn:Eu; [|discriminate].
  splits.
  - destruct digits as [|c digits]; [congruence|]. cbn [forallb] in Hd. apply andb_true_iff in Hd as [Hc _]. now apply digit_not_space.
  - destruct suffix as [|c [|]]; cbn [unit_size] in Eu; [|apply multiplier_space in Eu|discriminate].
    + rewrite app_nil_r. now apply digit_not_space, last_digit.
    + now rewrite last_app_cons.
  - rewrite parse_amount_law; [|exact Hd|destruct suffix as [|c [|]]; cbn in *; [exact I|now apply multiplier_positive in Eu|discriminate]].
    rewrite bool_decide_eq_false_2, Eu by exact Hne. cbn [default from_option id]. now rewrite Hu.
Qed.

Lemma read_entry at_ e :
  entry_ok e = true -> have_section at_ = true -> Z.land (seen at_) (Z.shiftl 1 (action_bit (entry_action e))) = 0 ->
  read_line at_ (print_entry e) =
    inr (mkWalk (subject at_) true (Z.lor (seen at_) (Z.shiftl 1 (action_bit (entry_action e)))), Some (entry_rule (subject at_) e)).
Proof.
  intros He Hh Hs. destruct (amount_text_last e He) as (H1 & H2 & H3). unfold print_entry, entry_rule.
  set (v := entry_digits e ++ entry_suffix e) in *. set (a := entry_action e) in *. unfold read_line.
  assert (Hv : v <> []) by (intros E; rewrite E in H1; discriminate).
  assert (Ht : trim (key_text a ++ [32; 61; 32] ++ v) = key_text a ++ [32; 61; 32] ++ v).
  { apply (trim_id _ 32); [destruct a; reflexivity|]. rewrite app_assoc, last_app_ne by exact Hv. exact H2. }
  rewrite Ht. assert (Hsp : split (key_text a ++ [32; 61; 32] ++ v) = Some (key_text a, v)).
  { unfold split. change (key_text a ++ [32; 61; 32] ++ v) with (key_text a ++ [32] ++ 61 :: 32 :: v).
    rewrite app_assoc, to_equals_key by (destruct a; reflexivity).
    rewrite (proj2 (trim_spaced 32 32 v eq_refl eq_refl H1 H2)).
    rewrite (proj1 (trim_spaced 32 32 (key_text a) eq_refl eq_refl ltac:(destruct a; reflexivity) ltac:(destruct a; reflexivity))).
    destruct a; reflexivity. }
  rewrite Hsp, Hh, H3. replace (known_key (key_text a)) with (Some (Memory, a)) by (destruct a; reflexivity). rewrite Hs.
  destruct a; reflexivity.
Qed.

Lemma other_bit a b v : a <> b ->
  Z.land v (Z.shiftl 1 (action_bit b)) = 0 -> Z.land (Z.lor v (Z.shiftl 1 (action_bit a))) (Z.shiftl 1 (action_bit b)) = 0.
Proof. intros Hne Hv. rewrite Z.land_lor_distr_l, Hv. destruct a, b; congruence || reflexivity. Qed.

(** The rules of lines none of which is bad. *)
Fixpoint all_rules (ls : list View) (at_ : Walk) : option (list Rule) :=
  match ls with
  | [] => Some []
  | line :: ls =>
    match read_line at_ line with
    | inl _ => None
    | inr (at_, rule) => option_map (app (option_list rule)) (all_rules ls at_)
    end
  end.

Lemma all_rules_walk ls : forall number at_ rs,
  all_rules ls at_ = Some rs -> (walk_lines (fun u _ => u) ls number at_ tt).1 = None /\ rules_from ls at_ = rs.
Proof.
  induction ls as [|line ls IH]; intros number at_ rs; cbn [all_rules walk_lines rules_from]; [intros [= <-]; auto|].
  destruct (read_line at_ line) as [|[at' rule]]; [discriminate|]. destruct (all_rules ls at') as [rs'|] eqn:E; [|discriminate].
  intros [= <-]. destruct (IH (u32 (number + 1)) at' rs' E) as [H1 ->]. split; [|reflexivity]. destruct rule; exact H1.
Qed.

Lemma all_rules_entries es : forall at_,
  forallb entry_ok es = true -> have_section at_ = true -> NoDup (map entry_action es) ->
  Forall (fun a => Z.land (seen at_) (Z.shiftl 1 (action_bit a)) = 0) (map entry_action es) ->
  exists at', forall rest, all_rules (map print_entry es ++ rest) at_ = option_map (app (map (entry_rule (subject at_)) es)) (all_rules rest at').
Proof.
  induction es as [|e es IH]; intros at_ He Hh Hd Hs.
  { exists at_. intros rest. cbn. now destruct (all_rules rest at_). }
  cbn [forallb map] in *. apply andb_true_iff in He as [He Hes]. apply NoDup_cons in Hd as [Hn Hd]. apply Forall_cons in Hs as [Hs Hss].
  destruct (IH (mkWalk (subject at_) true (Z.lor (seen at_) (Z.shiftl 1 (action_bit (entry_action e))))) Hes eq_refl Hd) as [at' Hat].
  { rewrite Forall_forall in *. intros b Hb. apply other_bit; [intros <-; contradiction|auto]. }
  exists at'. intros rest. cbn [app all_rules]. rewrite (read_entry at_ e He Hh Hs), Hat. cbn [subject option_list app].
  now destruct (all_rules rest at').
Qed.

Lemma all_rules_config c : forall at_, forallb section_ok c = true -> all_rules (concat (map print_section c)) at_ = Some (config_rules c).
Proof.
  induction c as [|[s es] c IH]; intros at_ Hc; [reflexivity|]. cbn [forallb map concat] in *. apply andb_true_iff in Hc as [Hp Hc].
  unfold section_ok in Hp. cbn [fst snd] in Hp. rewrite !andb_true_iff, bool_decide_eq_true in Hp. destruct Hp as [[Hs He] Hd].
  unfold print_section at 1. cbn [fst snd app all_rules]. rewrite (read_subject at_ s Hs). cbn [option_list app].
  destruct (all_rules_entries es (mkWalk s true 0) He eq_refl Hd) as [at' Hat].
  { rewrite Forall_forall. reflexivity. }
  rewrite Hat, IH by exact Hc. reflexivity.
Qed.

Lemma section_lines p : section_ok p = true -> forallb (forallb (fun c => negb (c =? 10))) (print_section p) = true.
Proof.
  destruct p as [s es]. unfold section_ok. cbn [fst snd]. rewrite !andb_true_iff. intros [[Hs He] _]. unfold print_section. cbn [fst snd forallb].
  rewrite andb_true_iff. split.
  - unfold print_subject. destruct s as [|n|n]; [reflexivity| |]; cbn [subject_ok] in Hs; unfold name_ok in Hs; rewrite !andb_true_iff in Hs;
      destruct Hs as [[_ Hn] _]; cbn; rewrite forallb_app, Hn; reflexivity.
  - rewrite forallb_forall in *. intros l Hl. apply in_map_iff in Hl as (e & <- & Hin). specialize (He e Hin). unfold entry_ok in He.
    rewrite !andb_true_iff in He. destruct He as [[_ Hd] Hu]. unfold print_entry. rewrite !forallb_app, !andb_true_iff. splits.
    + destruct (entry_action e); reflexivity.
    + reflexivity.
    + rewrite forallb_forall in *. intros c Hc. specialize (Hd c Hc). unfold is_digit in Hd. breflect. rewrite (proj2 (Z.eqb_neq _ _)) by lia. reflexivity.
    + destruct (entry_suffix e) as [|c [|]]; cbn [unit_size forallb] in *; [reflexivity| |discriminate].
      destruct (Z.eqb_spec c 10) as [->|_]; [discriminate|reflexivity].
Qed.

(** C32: A configuration written out and read back says what it says.  A file of
    sections, each with at most one rule for an action, with names on one line
    and amounts below two to the 64, is accepted, and every limit looked up in
    it is the most specific of the rules written. *)
Theorem limits_roundtrip (c : config) (l : Limits) :
  c <> [] -> forallb section_ok c = true ->
  exists l', parse l (Some (print c)) = (true, l') /\
    forall user klass action, resolve l' user klass Memory action = most_specific (config_rules c) user klass Memory action.
Proof.
  intros Hne Hc. pose proof (all_rules_config c (mkWalk Default false 0) Hc) as Hr.
  assert (Hl : lines (print c) = concat (map print_section c)).
  { apply lines_print. clear Hne Hr. induction c as [|p c IH]; [reflexivity|]. cbn [forallb map concat] in *. apply andb_true_iff in Hc as [Hp Hc].
    rewrite forallb_app, (section_lines p Hp). exact (IH Hc). }
  rewrite <- Hl in Hr. destruct (all_rules_walk _ 1 _ _ Hr) as [Hw Hrs]. fold (rules (print c)) in Hrs.
  assert (Hp : exists l', parse l (Some (print c)) = (true, l')).
  { unfold parse, walk. cbv zeta. destruct (walk_lines _ _ _ _ _) as [p u]. cbn [fst] in Hw. rewrite Hw.
    destruct (print c) eqn:E; [|eauto]. destruct c as [|[s es] c]; [congruence|discriminate]. }
  destruct Hp as [l' Hp]. exists l'. split; [exact Hp|]. intros. rewrite <- Hrs. now apply (resolve_law l).
Qed.

(** An allocation crosses a limit exactly when the total would be above it. *)
Lemma crosses_exact amount committed want :
  0 <= committed <= UINT64_MAX -> 0 <= want <= UINT64_MAX -> amount_bytes amount <= UINT64_MAX ->
  crosses amount committed want = set amount && (amount_bytes amount <? committed + want).
Proof.
  intros Hc Hw Ha. unfold crosses. destruct (set amount); [|reflexivity]. cbn [negb andb].
  destruct (Z.ltb_spec (UINT64_MAX - committed) want); [|reflexivity]. now rewrite (proj2 (Z.ltb_lt _ _)) by lia.
Qed.

(** * Examples *)

Module SampleLimits.
Definition desktop : View := text_of "desktop".
Definition rroland : View := text_of "rroland".
Definition config_ : config :=
  [(Class desktop, [mkEntry Log [49] [71]; mkEntry Deny [52] [71]]); (User rroland, [mkEntry Deny [56] [71]])].
Definition blank : Limits := mkLimits None no_problem false.
Definition read : Limits := (parse blank (Some (print config_))).2.
(** The line the default file offers to uncomment, uncommented. *)
Definition offered : View := text_of "[default]" ++ [10] ++ text_of "memory_log = 64M        # uncomment to see who uses memory; no cap" ++ [10].
End SampleLimits.

Lemma limits_resolve_spec_witness :
  resolve SampleLimits.read SampleLimits.rroland SampleLimits.desktop Memory Deny =
    most_specific (rules (print SampleLimits.config_)) SampleLimits.rroland SampleLimits.desktop Memory Deny /\
  resolve SampleLimits.read SampleLimits.rroland SampleLimits.desktop Memory Deny = mkAmount true (8 * 2 ^ 30) /\
  resolve SampleLimits.read SampleLimits.rroland SampleLimits.desktop Memory Log = mkAmount true (2 ^ 30).
Proof.
  split; [|vm_compute; auto].
  apply (limits_resolve_spec SampleLimits.blank SampleLimits.read (print SampleLimits.config_)). vm_compute. reflexivity.
Defined.

Lemma limits_roundtrip_witness :
  exists l', parse SampleLimits.blank (Some (print SampleLimits.config_)) = (true, l') /\
    forall user klass action, resolve l' user klass Memory action = most_specific (config_rules SampleLimits.config_) user klass Memory action.
Proof. apply (limits_roundtrip SampleLimits.config_ SampleLimits.blank); [discriminate|vm_compute; reflexivity]. Defined.

(** A comment after a value is part of the value, and the file is refused. *)
Lemma offered_line_refused :
  (parse SampleLimits.blank (Some SampleLimits.offered)).1 = false /\
  problem_ (parse SampleLimits.blank (Some SampleLimits.offered)).2 =
    mkProblem 2 (text_of "an amount is bytes with an optional K, M or G").
Proof. vm_compute. auto. Qed.
