(* ===== verification/Args.v ===== *)
(** Command lines (libs/freestanding/aegir-args, src/args.cc and
    include/aegir/args.h): a template of named items, and a line read against
    it.  The items of a template are those between its commas ([items_law]), and
    an item that may repeat takes the bare words the items after it do not
    need. *)
From stdpp Require Import base numbers list.
From Stdlib Require Import ZArith Lia Ascii.
From Stdlib Require String.
Import String.StringSyntax.
From S2P Require Import Prelude.

(** Text without its terminating zero. *)
Notation text := (list Z).
Definition literal (s : String.string) : text := map (fun c => Z.of_nat (nat_of_ascii c)) (String.list_ascii_of_string s).
#[local] Open Scope string_scope.
#[local] Open Scope Z_scope.

Definition is_blank (c : Z) : bool := (c =? 32) || (c =? 9).
Definition lower (c : Z) : Z := if (65 <=? c) && (c <=? 90) then c - 65 + 97 else c.

Fixpoint eq_chars (a b : text) : bool :=
  match a, b with
  | [], [] => true
  | x :: a, y :: b => (lower x =? lower y) && eq_chars a b
  | _, _ => false
  end.
Definition eq_ci (a b : text) : bool := (zlen a =? zlen b) && eq_chars a b.

(** The text up to the first [wanted], and the text after it. *)
Fixpoint find_char (t : text) (wanted : Z) : option (text * text) :=
  match t with
  | [] => None
  | c :: t =>
    if c =? wanted then Some ([], t)
    else match find_char t wanted with Some (before, after) => Some (c :: before, after) | None => None end
  end.

Definition all_digits (t : text) : bool := forallb (fun c => (48 <=? c) && (c <=? 57)) t.
Definition is_number (t : text) : bool :=
  match (match t with c :: rest => if (c =? 45) || (c =? 43) then rest else t | [] => [] end) with
  | [] => false
  | digits => all_digits digits
  end.

(** [struct Item] *)
Record Item := mkItem {
  item_name : text;
  required : bool;
  switch_ : bool;
  keyword : bool;
  multiple : bool;
  number : bool;
}.

(** * The template *)

Fixpoint skip_blanks (t : text) : text := match t with c :: rest => if is_blank c then skip_blanks rest else t | [] => [] end.

(** The loops of [item_at] as they move along the template: the name, up to the
    end, a comma or a slash ... *)
Fixpoint name_part (t : text) : text * text :=
  match t with
  | c :: rest => if (c =? 44) || (c =? 47) then ([], t) else let '(name, rest) := name_part rest in (c :: name, rest)
  | [] => ([], [])
  end.
Definition drop_blanks_end (name : text) : text := rev (skip_blanks (rev name)).
(** ... the flags, up to the end, a blank or a comma ... *)
Definition set_flag (item : Item) (c : Z) : Item :=
  let f := lower c in
  mkItem (item_name item) ((f =? 97) || required item) ((f =? 115) || switch_ item) ((f =? 107) || keyword item)
    ((f =? 109) || multiple item) ((f =? 110) || number item).
Fixpoint flags_part (t : text) (item : Item) : Item * text :=
  match t with
  | c :: rest => if is_blank c || (c =? 44) then (item, t) else flags_part rest (set_flag item c)
  | [] => (item, [])
  end.
(** ... and what is left before the comma. *)
Fixpoint to_comma (t : text) : text := match t with c :: rest => if c =? 44 then t else to_comma rest | [] => [] end.

(** One turn of the loop: the item and where the turn stops. *)
Definition one_item (t : text) : Item * text :=
  let '(name, rest) := name_part (skip_blanks t) in
  let item := mkItem (drop_blanks_end name) false false false false false in
  match rest with
  | c :: flags => if c =? 47 then let '(item, rest) := flags_part flags item in (item, to_comma rest) else (item, to_comma rest)
  | [] => (item, [])
  end.

(** [index] turns are passed; each but the last ends at a comma. *)
Fixpoint item_at (t : text) (index : nat) : option Item :=
  let '(item, rest) := one_item t in
  match index with
  | O => if zlen (item_name item) =? 0 then None else Some item
  | S index => match rest with [] => None | _ :: rest => item_at rest index end
  end.

(** The loops [for (i = 0;; ++i) if (!item_at(tmpl, i, item))]: item after item
    until there is none; a template has no more items than characters and one. *)
Fixpoint items_from (n : nat) (tmpl : text) (i : nat) : list Item :=
  match n with
  | O => []
  | S n => match item_at tmpl i with None => [] | Some item => item :: items_from n tmpl (S i) end
  end.
Definition items (tmpl : text) : list Item := items_from (S (length tmpl)) tmpl 0.

Definition item_by_name (tmpl name : text) : option Item := List.find (fun item => eq_ci (item_name item) name) (items tmpl).
Definition is_positional (item : Item) : bool := negb (switch_ item) && negb (keyword item).
Definition positionals (tmpl : text) : list Item := List.filter is_positional (items tmpl).
Definition positional_item_at (tmpl : text) (index : Z) : option Item := positionals tmpl !! Z.to_nat index.
Definition positional_count (tmpl : text) : Z := zlen (positionals tmpl).

(** * The line *)

Fixpoint positional_tokens_after (tmpl : text) (argv : list text) : Z :=
  match argv with
  | [] => 0
  | token :: rest =>
    match find_char token 61 with
    | Some _ => positional_tokens_after tmpl rest
    | None =>
      match item_by_name tmpl token with
      | Some item =>
        if switch_ item then positional_tokens_after tmpl rest
        else if keyword item then match rest with [] => 0 | _ :: rest => positional_tokens_after tmpl rest end
        else 1 + positional_tokens_after tmpl rest
      | None => 1 + positional_tokens_after tmpl rest
      end
    end
  end.

(** [struct Supplied]; [known] is whether there is an item. *)
Record Supplied := mkSupplied { item : option Item; value : text }.

(** The walk's visits, in order; [positional] counts the positional items filled. *)
Fixpoint visits (tmpl : text) (argv : list text) (positional : Z) : list Supplied :=
  match argv with
  | [] => []
  | token :: rest =>
    match find_char token 61 with
    | Some (name, v) =>
      match item_by_name tmpl name with
      | Some i => mkSupplied (Some i) v
      | None => mkSupplied None token
      end :: visits tmpl rest positional
    | None =>
      let bare :=
        match positional_item_at tmpl positional with
        | Some place =>
          let next :=
            if negb (multiple place) then positional + 1
            else if positional_tokens_after tmpl rest <=? positional_count tmpl - positional - 1 then positional + 1
            else positional in
          mkSupplied (Some place) token :: visits tmpl rest next
        | None => mkSupplied None token :: visits tmpl rest positional
        end in
      match item_by_name tmpl token with
      | Some i =>
        if switch_ i then mkSupplied (Some i) [] :: visits tmpl rest positional
        else if keyword i then
          match rest with
          | [] => [mkSupplied (Some i) []]
          | v :: rest => mkSupplied (Some i) v :: visits tmpl rest positional
          end
        else bare
      | None => bare
      end
    end
  end.

(** [struct Result], without the template's second copy. *)
Record Result := mkResult { tmpl : text; argv : list text; problem : text; missing : option text }.
Definition for_each (r : Result) : list Supplied := visits (tmpl r) (argv r) 0.

Definition names_item (name : text) (s : Supplied) : bool :=
  match item s with Some i => eq_ci (item_name i) name | None => false end.
Definition first_value_with (r : Result) (name : text) : option Supplied := List.find (names_item name) (for_each r).

(** [read]'s visitor: the first problem stays. *)
Definition note_problem (r : Result) (s : Supplied) : Result :=
  if negb (zlen (problem r) =? 0) then r
  else
    match item s with
    | None => mkResult (tmpl r) (argv r) (literal "unknown argument") (Some (value s))
    | Some i =>
      if number i && negb (is_number (value s)) then mkResult (tmpl r) (argv r) (literal "not a number") (Some (item_name i)) else r
    end.
Fixpoint check_required (r : Result) (its : list Item) : Result :=
  match its with
  | [] => r
  | i :: its =>
    if required i && match first_value_with r (item_name i) with None => true | Some _ => false end
    then mkResult (tmpl r) (argv r) (literal "a required argument is missing") (Some (item_name i))
    else check_required r its
  end.
Definition read (tmpl : text) (argv : list text) : Result :=
  let start := mkResult tmpl argv [] None in
  let r := fold_left note_problem (for_each start) start in
  if negb (zlen (problem r) =? 0) then r else check_required r (items tmpl).

Definition result_value (r : Result) (name : text) : option text := option_map value (first_value_with r name).
Definition present (r : Result) (name : text) : bool := match first_value_with r name with Some _ => true | None => false end.
Definition result_count (r : Result) (name : text) : Z := zlen (List.filter (names_item name) (for_each r)).
(** [seen] counts the occurrences passed until one is the answer. *)
Fixpoint nth_occurrence (ss : list Supplied) (name : text) (seen index : Z) : option text :=
  match ss with
  | [] => None
  | s :: ss =>
    if names_item name s then if seen =? index then Some (value s) else nth_occurrence ss name (seen + 1) index
    else nth_occurrence ss name seen index
  end.
Definition result_at (r : Result) (name : text) (index : Z) : option text := nth_occurrence (for_each r) name 0 index.

(** * The items of a template *)

Definition comma_free (t : text) : bool := forallb (fun c => negb (c =? 44)) t.
Definition at_comma (t : text) : Prop := match t with [] => True | c :: _ => c = 44 end.

(** The parts between the commas. *)
Fixpoint segments (t : text) : list text :=
  match t with
  | [] => [[]]
  | c :: t => if c =? 44 then [] :: segments t else match segments t with [] => [[c]] | s :: ss => (c :: s) :: ss end
  end.
(** The items up to the first without a name. *)
Fixpoint named (its : list Item) : list Item :=
  match its with [] => [] | i :: its => if zlen (item_name i) =? 0 then [] else i :: named its end.

Lemma skip_blanks_seg seg rest : at_comma rest -> skip_blanks (seg ++ rest) = skip_blanks seg ++ rest.
Proof.
  intros Hr. induction seg as [|c seg IH]; cbn [app skip_blanks]; [|destruct (is_blank c); [exact IH|reflexivity]].
  destruct rest as [|c rest]; [reflexivity|]. cbn in Hr. subst c. reflexivity.
Qed.

Lemma skip_blanks_free seg : comma_free seg = true -> comma_free (skip_blanks seg) = true.
Proof.
  induction seg as [|c seg IH]; cbn [skip_blanks]; [auto|]. intros Hf. destruct (is_blank c); [|exact Hf].
  apply IH. cbn in Hf. now apply andb_true_iff in Hf.
Qed.

Lemma name_part_seg seg rest : comma_free seg = true -> at_comma rest ->
  name_part (seg ++ rest) = ((name_part seg).1, (name_part seg).2 ++ rest) /\ comma_free (name_part seg).2 = true.
Proof.
  intros Hf Hr. induction seg as [|c seg IH]; cbn [app name_part].
  - destruct rest as [|c rest]; [auto|]. cbn in Hr. subst c. auto.
  - pose proof Hf as Hf'. cbn in Hf. apply andb_true_iff in Hf as [Hc Hf]. apply negb_true_iff in Hc. rewrite Hc. cbn [orb].
    destruct (c =? 47); [auto|]. destruct (IH Hf) as [-> H2]. destruct (name_part seg) as [name rest0]. auto.
Qed.

Lemma flags_part_seg seg rest i : comma_free seg = true -> at_comma rest ->
  exists tail, flags_part (seg ++ rest) i = ((flags_part seg i).1, tail ++ rest) /\ comma_free tail = true.
Proof.
  intros Hf Hr. revert i. induction seg as [|c seg IH]; intros i; cbn [app flags_part].
  - exists []. destruct rest as [|c rest]; [auto|]. cbn in Hr. subst c. auto.
  - pose proof Hf as Hf'. cbn in Hf. apply andb_true_iff in Hf as [Hc Hf]. apply negb_true_iff in Hc. rewrite Hc, orb_false_r.
    destruct (is_blank c); [exists (c :: seg); auto|]. exact (IH Hf (set_flag i c)).
Qed.

Lemma to_comma_seg seg rest : comma_free seg = true -> at_comma rest -> to_comma (seg ++ rest) = rest.
Proof.
  intros Hf Hr. induction seg as [|c seg IH]; cbn [app to_comma].
  - destruct rest as [|c rest]; [reflexivity|]. cbn in Hr. now subst c.
  - cbn in Hf. apply andb_true_iff in Hf as [Hc Hf]. apply negb_true_iff in Hc. rewrite Hc. exact (IH Hf).
Qed.

Lemma one_item_seg seg rest : comma_free seg = true -> at_comma rest -> one_item (seg ++ rest) = ((one_item seg).1, rest).
Proof.
  intros Hf Hr. unfold one_item. rewrite (skip_blanks_seg seg rest Hr). pose proof (skip_blanks_free seg Hf) as Hs.
  destruct (name_part_seg (skip_blanks seg) rest Hs Hr) as [-> Hn]. destruct (name_part (skip_blanks seg)) as [name tail]. cbn [fst snd] in *.
  destruct tail as [|c tail]; cbn [app].
  - destruct rest as [|c rest]; [reflexivity|]. cbn in Hr. subst c. reflexivity.
  - pose proof Hn as Hn'. cbn in Hn. apply andb_true_iff in Hn as [Hc Hn]. destruct (c =? 47).
    + set (i0 := mkItem _ _ _ _ _ _). destruct (flags_part_seg tail rest i0 Hn Hr) as (t' & -> & Ht').
      destruct (flags_part tail i0). cbn [fst]. now rewrite to_comma_seg.
    + change (c :: tail ++ rest) with ((c :: tail) ++ rest). now rewrite (to_comma_seg (c :: tail) rest).
Qed.

Lemma segments_cut t : exists seg rest, t = seg ++ rest /\ comma_free seg = true /\ at_comma rest /\
  segments t = seg :: match rest with [] => [] | _ :: rest => segments rest end.
Proof.
  induction t as [|c t (seg & rest & -> & Hf & Hr & Hs)]; [exists [], []; repeat split|]. cbn [segments].
  destruct (Z.eqb_spec c 44) as [->|Hne]; [exists [], (44 :: seg ++ rest); repeat split|].
  exists (c :: seg), rest. rewrite Hs. splits; auto. unfold comma_free in *. cbn [forallb]. now rewrite Hf, (proj2 (Z.eqb_neq _ _)).
Qed.

Lemma item_at_segments i : forall t,
  item_at t i = match map (fun s => (one_item s).1) (segments t) !! i with
                | Some it => if zlen (item_name it) =? 0 then None else Some it
                | None => None
                end.
Proof.
  induction i as [|i IH]; intros t; destruct (segments_cut t) as (seg & rest & -> & Hf & Hr & ->); cbn [item_at map lookup list_lookup];
    rewrite (one_item_seg seg rest Hf Hr); [reflexivity|].
  destruct rest as [|c rest]; [reflexivity|]. apply IH.
Qed.

Lemma length_segments t : (length (segments t) <= S (length t))%nat.
Proof.
  induction t as [|c t IH]; cbn [segments length]; [lia|]. destruct (c =? 44); cbn [length]; [lia|].
  destruct (segments t); cbn [length] in *; lia.
Qed.

Lemma items_from_named n t : forall i its,
  map (fun s => (one_item s).1) (segments t) = its -> (length its <= i + n)%nat -> items_from n t i = named (drop i its).
Proof.
  induction n as [|n IH]; intros i its Hi Hn; cbn [items_from].
  - now rewrite drop_ge by lia.
  - rewrite item_at_segments, Hi. destruct (its !! i) as [it|] eqn:E.
    + rewrite (drop_S its it i E). cbn [named]. destruct (zlen (item_name it) =? 0); [reflexivity|]. now rewrite (IH (S i) its) by (auto; lia).
    + rewrite drop_ge by (now apply lookup_ge_None). reflexivity.
Qed.

Lemma items_law t : items t = named (map (fun s => (one_item s).1) (segments t)).
Proof.
  unfold items. rewrite (items_from_named _ t 0 _ eq_refl); [now rewrite drop_0|]. rewrite length_map. pose proof (length_segments t). lia.
Qed.

(** * Words without names *)

(** A word that neither names a value nor is a switch's or keyword's name. *)
Definition bare (tmpl token : text) : bool :=
  match find_char token 61 with
  | Some _ => false
  | None => match item_by_name tmpl token with Some i => is_positional i | None => true end
  end.

Lemma bare_tokens tmpl ts : forallb (bare tmpl) ts = true -> positional_tokens_after tmpl ts = zlen ts.
Proof.
  induction ts as [|t ts IH]; cbn [forallb positional_tokens_after]; [reflexivity|]. intros [Ht Hts]%andb_true_iff. rewrite zlen_cons, <- (IH Hts).
  unfold bare, is_positional in Ht. destruct (find_char t 61); [discriminate|]. destruct (item_by_name tmpl t) as [i|]; [|reflexivity].
  destruct (switch_ i), (keyword i); cbn in Ht; discriminate || reflexivity.
Qed.

Lemma visit_bare tmpl t ts p : bare tmpl t = true ->
  visits tmpl (t :: ts) p =
    match positional_item_at tmpl p with
    | Some place => mkSupplied (Some place) t :: visits tmpl ts
        (if negb (multiple place) || (positional_tokens_after tmpl ts <=? positional_count tmpl - p - 1) then p + 1 else p)
    | None => mkSupplied None t :: visits tmpl ts p
    end.
Proof.
  unfold bare, is_positional. intros Ht. cbn [visits]. destruct (find_char t 61); [discriminate|].
  destruct (item_by_name tmpl t) as [i|]; [destruct (switch_ i), (keyword i); cbn in Ht; try discriminate|];
    destruct (positional_item_at tmpl p) as [place|]; try reflexivity; destruct (multiple place); reflexivity.
Qed.

(** The positional item the word [t] of [n] fills, of [k] items of which number
    [j] repeats. *)
Definition slot_of (n k j t : Z) : Z := Z.max (Z.min t j) (t - Z.max 0 (n - k)).

Section repeating.
Context (tmpl : text) (j : Z) (pj : Item).
Context (Hj : 0 <= j) (Hpj : positionals tmpl !! Z.to_nat j = Some pj) (Hmulti : multiple pj = true).
Context (Honly : forall i p, positionals tmpl !! i = Some p -> multiple p = true -> Z.of_nat i = j).
Let k := positional_count tmpl.

Lemma visits_slots n ts : forall t,
  n = t + zlen ts -> 0 <= t -> forallb (bare tmpl) ts = true ->
  forall u token, ts !! u = Some token ->
  slot_of n k j (t + Z.of_nat u) < k /\
  visits tmpl ts (slot_of n k j t) !! u =
    Some (mkSupplied (positionals tmpl !! Z.to_nat (slot_of n k j (t + Z.of_nat u))) token).
Proof using Hj Hpj Hmulti Honly.
  assert (Hkl : k = Z.of_nat (length (positionals tmpl))) by reflexivity.
  assert (Hk : j < k) by (apply lookup_lt_Some in Hpj; lia).
  induction ts as [|token ts IH]; intros t Hn Ht Hb u tok Hu; [discriminate|].
  cbn [forallb] in Hb. apply andb_true_iff in Hb as [Hb Hbs]. rewrite zlen_cons in Hn. pose proof (zlen_nonneg ts).
  assert (Hs : 0 <= slot_of n k j t < k) by (unfold slot_of; lia).
  assert (Hu' : t + Z.of_nat u < n) by (apply lookup_lt_Some in Hu; cbn [length] in Hu; unfold zlen in *; lia).
  split; [unfold slot_of; lia|]. rewrite (visit_bare tmpl token ts _ Hb). unfold positional_item_at.
  destruct (lookup_lt_is_Some_2 (positionals tmpl) (Z.to_nat (slot_of n k j t))) as [place Hp]; [lia|].
  rewrite Hp, (bare_tokens tmpl ts Hbs). fold k.
  assert (Hnext : (if negb (multiple place) || (zlen ts <=? k - slot_of n k j t - 1) then slot_of n k j t + 1 else slot_of n k j t) = slot_of n k j (t + 1)).
  { destruct (multiple place) eqn:Em; cbn [negb orb].
    - pose proof (Honly _ _ Hp Em) as E. rewrite Z2Nat.id in E by lia. destruct (Z.leb_spec (zlen ts) (k - slot_of n k j t - 1)); unfold slot_of in *; lia.
    - assert (Hne : slot_of n k j t <> j) by (intros E; rewrite E, Hpj in Hp; congruence). unfold slot_of in *. lia. }
  rewrite Hnext. destruct u as [|u]; cbn [lookup list_lookup] in Hu |- *.
  - injection Hu as <-. rewrite Z.add_0_r, Hp. reflexivity.
  - replace (t + Z.of_nat (S u)) with (t + 1 + Z.of_nat u) by lia. apply (IH (t + 1)); auto; lia.
Qed.
End repeating.

(** C33: An item that may repeat leaves the others their words.  On a line of [n]
    bare words (no [name=value], no name of a switch or keyword) and a template
    whose one repeating positional item (/M) is number [j] of [k], the words are
    given out in order: the items before it take one each, it takes all but one
    for each item after it, and the items after it take one each; with fewer
    words than items the last items get none.  Word [t] goes to item
    max (min t j) (t - max 0 (n - k)). *)
Theorem args_multiple_spec (tmpl : text) (argv : list text) (j : Z) (pj : Item) (t : nat) (token : text) :
  let n := zlen argv in let k := positional_count tmpl in
  0 <= j -> positionals tmpl !! Z.to_nat j = Some pj -> multiple pj = true ->
  (forall i p, positionals tmpl !! i = Some p -> multiple p = true -> Z.of_nat i = j) ->
  forallb (bare tmpl) argv = true -> argv !! t = Some token ->
  exists place, positionals tmpl !! Z.to_nat (slot_of n k j (Z.of_nat t)) = Some place /\
    for_each (mkResult tmpl argv [] None) !! t = Some (mkSupplied (Some place) token).
Proof.
  intros n k Hj Hpj Hm Honly Hb Ht. pose proof (visits_slots tmpl j pj Hj Hpj Hm Honly n argv 0 eq_refl ltac:(lia) Hb t token Ht) as [Hlt Hv].
  fold k in Hlt, Hv. replace (slot_of n k j 0) with 0 in Hv by (pose proof (zlen_nonneg argv); unfold slot_of, n; lia).
  rewrite Z.add_0_l in *.
  destruct (lookup_lt_is_Some_2 (positionals tmpl) (Z.to_nat (slot_of n k j (Z.of_nat t)))) as [place Hp].
  { assert (Hkl : k = Z.of_nat (length (positionals tmpl))) by reflexivity. apply lookup_lt_Some in Hpj. lia. }
  exists place. split; [exact Hp|]. unfold for_each. cbn [Args.tmpl Args.argv]. now rewrite Hv, Hp.
Qed.

(** * Examples *)

Module SampleArgs.
(** A copy command's template and a line of three words. *)
Definition copy : text := literal "FROM/M/A,TO/A,ALL/S".
Definition line : list text := [literal "a"; literal "b"; literal "c"].
Definition from : Item := mkItem (literal "FROM") true false false true false.
(** The same template with its items apart by blanks. *)
Definition spaced : text := literal "FROM/M TO/A".
End SampleArgs.

Lemma args_multiple_spec_witness :
  exists place, positionals SampleArgs.copy !! Z.to_nat (slot_of 3 (positional_count SampleArgs.copy) 0 2) = Some place /\
    for_each (mkResult SampleArgs.copy SampleArgs.line [] None) !! 2%nat = Some (mkSupplied (Some place) (literal "c")).
Proof.
  apply (args_multiple_spec SampleArgs.copy SampleArgs.line 0 SampleArgs.from 2 (literal "c")); try (vm_compute; reflexivity); [lia|].
  intros [|[|i]] p; vm_compute; [reflexivity|intros [= <-]; discriminate|destruct i; discriminate].
Defined.

(** On this line FROM has two values and TO the last word. *)
Lemma sample_line :
  let r := read SampleArgs.copy SampleArgs.line in
  problem r = [] /\ result_count r (literal "from") = 2 /\ result_value r (literal "TO") = Some (literal "c").
Proof. vm_compute. auto. Qed.

(** Blanks do not separate items: TO is no item of the template. *)
Lemma spaced_template_one_item : map item_name (items SampleArgs.spaced) = [literal "FROM"].
Proof. vm_compute. reflexivity. Qed.
