(* ===== verification/Devtree.v ===== *)
(** Device trees (libs/freestanding/aegir-devtree, src/devtree.cc and
    include/aegir/devtree.h): the reader of the blob firmware hands over.  Every
    read is checked against the blob: [Outside] is a read outside it, which the
    code itself does not notice.  The theorems: unless a property declares a
    length just below two to the 32, walking a blob and looking a property up in
    it end and read nothing outside it, and what they hand out is inside. *)
From stdpp Require Import base numbers option list.
From Stdlib Require Import ZArith Lia Ascii.
From Stdlib Require String.
Import String.StringSyntax.
From S2P Require Import Prelude.
#[local] Open Scope string_scope.
#[local] Open Scope Z_scope.

Definition kTokenBeginNode : Z := 1.
Definition kTokenEndNode : Z := 2.
Definition kTokenProp : Z := 3.
Definition kTokenNop : Z := 4.
Definition kMagic : Z := 0xd00dfeed.
Definition kMinimumVersion : Z := 16.
Definition kHeaderBytes : Z := 40.
Definition kDefaultAddressCells : Z := 2.
Definition kDefaultSizeCells : Z := 1.

(** The characters of a literal. *)
Definition chars_of (s : String.string) : bytes := map (fun c => Z.of_nat (nat_of_ascii c)) (String.list_ascii_of_string s).

(** * Reads *)

(** Pointers into the blob are offsets from its first byte. *)
Definition peek_byte (blob : bytes) (p : Z) : option Z := if (0 <=? p) && (p <? zlen blob) then Some (byte_at blob p) else None.

Definition read_be32 (blob : bytes) (p : Z) : option Z :=
  b0 ← peek_byte blob p; b1 ← peek_byte blob (p + 1); b2 ← peek_byte blob (p + 2); b3 ← peek_byte blob (p + 3);
  Some (Z.lor (Z.lor (Z.lor (Z.shiftl b0 24) (Z.shiftl b1 16)) (Z.shiftl b2 8)) b3).
Definition read_be64 (blob : bytes) (p : Z) : option Z :=
  high ← read_be32 blob p; low ← read_be32 blob (p + 4); Some (Z.lor (Z.shiftl high 32) low).
Definition align4 (value : Z) : Z := Z.land (u32 (value + 3)) (2 ^ 32 - 4).

(** [equals]: the text at [p], of which [limit] bytes may be read. *)
Fixpoint equals (blob : bytes) (p limit : Z) (wanted : bytes) : option bool :=
  if limit <=? 0 then Some false
  else
    byte ← peek_byte blob p;
    match wanted with
    | [] => Some (byte =? 0)
    | expect :: wanted => if byte =? expect then equals blob (p + 1) (limit - 1) wanted else Some false
    end.

(** The loops [while (p < limit && *p != stop) ++p]: where they end; the blob's
    length bounds the turns. *)
Fixpoint scan_from (n : nat) (blob : bytes) (p limit stop : Z) : option Z :=
  if limit <=? p then Some p
  else
    match n with
    | O => None
    | S n => byte ← peek_byte blob p; if byte =? stop then Some p else scan_from n blob (p + 1) limit stop
    end.
Definition scan_to (blob : bytes) (p limit stop : Z) : option Z := scan_from (S (length blob)) blob p limit stop.

(** * The cursor *)

(** What a step of the walk comes to: a read outside the blob, a malformed blob,
    or a result, with the cursor and the walk's own state where it was left. *)
Inductive res (W A : Type) :=
| Outside
| Failed (p : Z) (w : W)
| Done (a : A) (p : Z) (w : W).
Arguments Outside {W A}.
Arguments Failed {W A} p w.
Arguments Done {W A} a p w.

Definition step (W A : Type) : Type := Z -> W -> res W A.
Definition ret {W A} (a : A) : step W A := fun p w => Done a p w.
Definition fail {W A} : step W A := fun p w => Failed p w.
Definition bind {W A B} (m : step W A) (k : A -> step W B) : step W B :=
  fun p w => match m p w with Outside => Outside | Failed p w => Failed p w | Done a p w => k a p w end.
(** A read that does not move the cursor. *)
Definition look {W A} (o : option A) : step W A := fun p w => match o with Some a => Done a p w | None => Outside end.
Notation "'let*' x := m 'in' k" := (bind m (fun x => k)) (at level 200, x pattern, m at level 100, k at level 200, right associativity).

Record Property := mkProperty { name_offset : Z; data : Z; prop_length : Z }.

Section cursor.
Context (blob : bytes) (end_ : Z) {W : Type}.

(** [cursor.p += n] *)
Definition move (n : Z) : step W unit := fun p w => Done tt (p + n) w.
Definition here : step W Z := fun p w => Done p p w.

Definition take_u32 : step W Z :=
  let* p := here in
  if end_ <? p + 4 then fail
  else let* value := look (read_be32 blob p) in let* _ := move 4 in ret value.

Definition skip (n : Z) : step W unit := let* p := here in if end_ <? p + n then fail else move n.

(** The text's place and length; the cursor is left at the string's end when
    there is no room for its padding. *)
Definition take_string : step W (Z * Z) :=
  let* start := here in
  let* stop := look (scan_to blob start end_ 0) in
  let* _ := move (stop - start) in
  if end_ <=? stop then fail
  else
    let length := u32 (stop - start) in
    let padded := align4 (u32 (stop + 1 - start)) in
    if end_ <? start + padded then fail
    else let* _ := move (start + padded - stop) in ret (start, length).

Definition take_property : step W Property :=
  let* length := take_u32 in
  let* name_offset := take_u32 in
  let* p := here in
  if end_ <? p + align4 length then fail
  else let* _ := skip (align4 length) in ret (mkProperty name_offset p length).
End cursor.

(** * The walk *)

Definition read_cells (blob : bytes) (p cells : Z) : option Z := if cells =? 1 then read_be32 blob p else read_be64 blob p.

(** [struct Device]; the strings by their places. *)
Record Device := mkDevice {
  id : Z; base : Z; size : Z; interrupt : Z; has_region : bool; has_interrupt : bool;
  compatible : Z; compatible_length : Z; dev_name : Z; dev_name_length : Z;
}.

(** [base], [size] and [has_region] as [read_region] leaves them. *)
Definition read_region (blob : bytes) (reg : Property) (address_cells size_cells : Z) : option (Z * Z * bool) :=
  if (address_cells =? 0) || (2 <? address_cells) || (2 <? size_cells) then Some (0, 0, false)
  else
    let words := address_cells + size_cells in
    if prop_length reg <? words * 4 then Some (0, 0, false)
    else
      base ← read_cells blob (data reg) address_cells;
      size ← (if size_cells =? 0 then Some 0 else read_cells blob (data reg + address_cells * 4) size_cells);
      Some (base, size, true).

(** The locals of [walk_node] its property loop fills. *)
Record Seen := mkSeen {
  compat : option Property; reg : option Property; interrupts : option Property; address_cells : Z; size_cells : Z;
}.
Definition nothing_seen : Seen := mkSeen None None None kDefaultAddressCells kDefaultSizeCells.

Section walk.
Context (blob : bytes) (end_ strings strings_size : Z).
Context {S : Type} (device : S -> Device -> bool * S).

(** [struct Walk], with the visitor's state. *)
Record Walk := mkWalk { next_id : Z; stopped : bool; visitor : S }.
Notation stepw := (step Walk).

Definition note_property (property : Property) (seen : Seen) : option Seen :=
  let name := strings + name_offset property in
  let room := strings_size - name_offset property in
  is_compatible ← equals blob name room (chars_of "compatible");
  if is_compatible : bool then Some (mkSeen (Some property) (reg seen) (interrupts seen) (address_cells seen) (size_cells seen))
  else
    is_address ← equals blob name room (chars_of "#address-cells");
    if is_address : bool then
      if 4 <=? prop_length property then
        cells ← read_be32 blob (data property);
        Some (mkSeen (compat seen) (reg seen) (interrupts seen) cells (size_cells seen))
      else Some seen
    else
      is_size ← equals blob name room (chars_of "#size-cells");
      if is_size : bool then
        if 4 <=? prop_length property then
          cells ← read_be32 blob (data property);
          Some (mkSeen (compat seen) (reg seen) (interrupts seen) (address_cells seen) cells)
        else Some seen
      else
        is_reg ← equals blob name room (chars_of "reg");
        if is_reg : bool then Some (mkSeen (compat seen) (Some property) (interrupts seen) (address_cells seen) (size_cells seen))
        else
          is_interrupts ← equals blob name room (chars_of "interrupts");
          if is_interrupts : bool then Some (mkSeen (compat seen) (reg seen) (Some property) (address_cells seen) (size_cells seen))
          else Some seen.

(** The property loop; whether a child's first token ended it. *)
Fixpoint properties (n : nat) (seen : Seen) : stepw (Seen * bool) :=
  match n with
  | O => look None
  | Datatypes.S n =>
    let* token := take_u32 blob end_ in
    if token =? kTokenEndNode then ret (seen, false)
    else if token =? kTokenNop then properties n seen
    else if token =? kTokenBeginNode then ret (seen, true)
    else if negb (token =? kTokenProp) then fail
    else
      let* property := take_property blob end_ in
      if strings_size <=? name_offset property then fail
      else let* seen := look (note_property property seen) in properties n seen
  end.

(** The device of a node, without its number. *)
Definition describe (name name_length : Z) (compatible : Property) (seen : Seen) (parent_address_cells parent_size_cells : Z)
  : option Device :=
  first ← scan_to blob (data compatible) (data compatible + prop_length compatible) 0;
  bare ← scan_to blob name (name + name_length) 64;
  region ← match reg seen with
           | Some r => read_region blob r parent_address_cells parent_size_cells
           | None => Some (0, 0, false)
           end;
  irq ← match interrupts seen with
        | Some i => if 4 <=? prop_length i then value ← read_be32 blob (data i); Some (value, true) else Some (0, false)
        | None => Some (0, false)
        end;
  Some (mkDevice 0 region.1.1 region.1.2 irq.1 region.2 irq.2 (data compatible) (first - data compatible) name (bare - name)).
Definition numbered (d : Device) (n : Z) : Device :=
  mkDevice n (base d) (size d) (interrupt d) (has_region d) (has_interrupt d) (compatible d) (compatible_length d)
    (dev_name d) (dev_name_length d).

Definition visit (name name_length : Z) (seen : Seen) (parent_address_cells parent_size_cells : Z) : stepw unit :=
  fun p w =>
    match compat seen with
    | None => Done tt p w
    | Some c =>
      if stopped w then Done tt p w
      else
        match describe name name_length c seen parent_address_cells parent_size_cells with
        | None => Outside
        | Some d =>
          let '(more, s) := device (visitor w) (numbered d (next_id w)) in
          Done tt p (mkWalk (u32 (next_id w + 1)) (if more then stopped w else true) s)
        end
    end.

Fixpoint walk_node (fuel : nat) (parent_address_cells parent_size_cells : Z) : stepw unit :=
  match fuel with
  | O => look None
  | Datatypes.S fuel =>
    let* (name, name_length) := take_string blob end_ in
    let* (seen, have_child) := properties (Datatypes.S (length blob)) nothing_seen in
    let* _ := visit name name_length seen parent_address_cells parent_size_cells in
    if negb have_child then ret tt
    else let* _ := walk_node fuel (address_cells seen) (size_cells seen) in
         walk_children fuel (address_cells seen) (size_cells seen)
  end
with walk_children (fuel : nat) (address_cells size_cells : Z) : stepw unit :=
  match fuel with
  | O => look None
  | Datatypes.S fuel => fun p w =>
    if stopped w then Done tt p w
    else
      (let* token := take_u32 blob end_ in
       if token =? kTokenEndNode then ret tt
       else if token =? kTokenNop then walk_children fuel address_cells size_cells
       else if negb (token =? kTokenBeginNode) then fail
       else let* _ := walk_node fuel address_cells size_cells in walk_children fuel address_cells size_cells) p w
  end.
End walk.

(** * A property by its node's path *)

(** The parts of a path between its slashes, none of them empty. *)
Fixpoint path_segments (path : bytes) : list bytes :=
  match path with
  | [] => []
  | c :: rest =>
    if c =? 47 then path_segments rest
    else
      match rest with
      | [] => [[c]]
      | d :: _ =>
        if d =? 47 then [c] :: path_segments rest
        else match path_segments rest with s :: ss => (c :: s) :: ss | [] => [[c]] end
      end
  end.
Definition segment_count (path : bytes) : Z := zlen (path_segments path).
Definition segment_at (path : bytes) (index : Z) : option bytes := path_segments path !! Z.to_nat index.

Fixpoint memeq (blob : bytes) (p : Z) (segment : bytes) : option bool :=
  match segment with
  | [] => Some true
  | c :: segment => byte ← peek_byte blob p; if byte =? c then memeq blob (p + 1) segment else Some false
  end.

Section search.
Context (blob : bytes) (end_ strings strings_size : Z) (path name : bytes).
(** The answer's place and length. *)
Notation found := (option (Z * Z)).
Notation steps := (step found).

Definition segment_is (p length : Z) (segment : option bytes) : option bool :=
  match segment with Some s => if zlen s =? length then memeq blob p s else Some false | None => Some false end.

(** How many parts of the path the node and its parents match. *)
Definition depth_at (node_name bare matched : Z) : option Z :=
  next ← segment_is node_name bare (segment_at path matched);
  if next : bool then Some (matched + 1)
  else first ← segment_is node_name bare (segment_at path 0); Some (if first : bool then 1 else 0).

(** The property loop: whether a child's first token ended it; once found it
    looks no further. *)
Fixpoint search_properties (n : nat) (target : bool) : steps bool :=
  match n with
  | O => look None
  | S n =>
    let* token := take_u32 blob end_ in
    if token =? kTokenEndNode then ret false
    else if token =? kTokenNop then search_properties n target
    else if token =? kTokenBeginNode then ret true
    else if negb (token =? kTokenProp) then fail
    else
      let* property := take_property blob end_ in
      if negb target then search_properties n target
      else if strings_size <=? name_offset property then fail
      else
        let* same := look (equals blob (strings + name_offset property) (strings_size - name_offset property) name) in
        if same : bool then fun p _ => Done false p (Some (data property, prop_length property))
        else search_properties n target
  end.

Fixpoint search_node (fuel : nat) (matched : Z) : steps unit :=
  match fuel with
  | O => look None
  | S fuel =>
    let* (node_name, name_length) := take_string blob end_ in
    let* stop := look (scan_to blob node_name (node_name + name_length) 64) in
    let* depth := look (depth_at node_name (stop - node_name) matched) in
    let* have_child := search_properties (S (length blob)) (depth =? segment_count path) in
    if negb have_child then ret tt else let* _ := search_node fuel depth in search_children fuel depth
  end
with search_children (fuel : nat) (depth : Z) : steps unit :=
  match fuel with
  | O => look None
  | S fuel => fun p w =>
    match w with
    | Some _ => Done tt p w
    | None =>
      (let* token := take_u32 blob end_ in
       if token =? kTokenEndNode then ret tt
       else if token =? kTokenNop then search_children fuel depth
       else if negb (token =? kTokenBeginNode) then fail
       else let* _ := search_node fuel depth in search_children fuel depth) p w
    end
  end.
End search.

(** * The tree *)

(** [class Tree]; a null [base_] is [None]. *)
Record Tree := mkTree {
  base_ : option bytes;
  total_size_ : Z;
  version_ : Z;
  reserved_entries_ : Z;
  failure_offset_ : Z;
  struct_offset_ : Z;
  struct_size_ : Z;
  strings_offset_ : Z;
  strings_size_ : Z;
}.

(** The reservation block's entries, from [p]. *)
Fixpoint count_reserved (n : nat) (blob : bytes) (p total reserved : Z) : option Z :=
  if total <? p + 16 then Some reserved
  else
    match n with
    | O => None
    | S n =>
      address ← read_be64 blob p;
      size ← (if address =? 0 then read_be64 blob (p + 8) else Some 1);
      if (address =? 0) && (size =? 0) then Some reserved else count_reserved n blob (p + 16) total (u32 (reserved + 1))
    end.

Definition adopt (t : Tree) (from : option bytes) (available : Z) : option (bool * Tree) :=
  match from with
  | None => Some (false, t)
  | Some blob =>
    if available <? kHeaderBytes then Some (false, t)
    else
      magic ← read_be32 blob 0;
      if negb (magic =? kMagic) then Some (false, t)
      else
        total ← read_be32 blob 4;
        if (total <? kHeaderBytes) || (available <? total) then Some (false, t)
        else
          version ← read_be32 blob 20;
          if version <? kMinimumVersion then Some (false, t)
          else
            struct_offset ← read_be32 blob 8;
            strings_offset ← read_be32 blob 12;
            struct_size ← read_be32 blob 36;
            strings_size ← read_be32 blob 32;
            if (total <? struct_offset) || (total - struct_offset <? struct_size) then Some (false, t)
            else if (total <? strings_offset) || (total - strings_offset <? strings_size) then Some (false, t)
            else
              reserved_offset ← read_be32 blob 16;
              reserved ← (if negb (reserved_offset =? 0) && (reserved_offset <? total)
                          then count_reserved (length blob) blob reserved_offset total 0 else Some 0);
              Some (true, mkTree from total version reserved (failure_offset_ t) struct_offset struct_size strings_offset strings_size)
  end.

Definition with_failure (t : Tree) (offset : Z) : Tree :=
  mkTree (base_ t) (total_size_ t) (version_ t) (reserved_entries_ t) offset (struct_offset_ t) (struct_size_ t)
    (strings_offset_ t) (strings_size_ t).

(** [walk]: the answer, the tree with where it failed, and the visitor. *)
Definition walk {S} (device : S -> Device -> bool * S) (t : Tree) (s : S) : option (bool * Tree * S) :=
  match base_ t with
  | None => Some (false, t, s)
  | Some blob =>
    let end_ := struct_offset_ t + struct_size_ t in
    match take_u32 blob end_ (struct_offset_ t) (mkWalk 0 false s) with
    | Outside => None
    | Failed _ _ => Some (false, t, s)
    | Done token p w =>
      if negb (token =? kTokenBeginNode) then Some (false, t, s)
      else
        match walk_node blob end_ (strings_offset_ t) (strings_size_ t) device (Datatypes.S (length blob)) kDefaultAddressCells
                kDefaultSizeCells p w with
        | Outside => None
        | Failed p w => Some (false, with_failure t (u32 (p - struct_offset_ t)), visitor w)
        | Done _ _ w => Some (true, t, visitor w)
        end
    end
  end.

(** [property]: the place and length of the data, when there is any. *)
Definition property (t : Tree) (path name : bytes) : option (option (Z * Z)) :=
  match base_ t with
  | None => Some None
  | Some blob =>
    let end_ := struct_offset_ t + struct_size_ t in
    match take_u32 blob end_ (struct_offset_ t) None with
    | Outside => None
    | Failed _ _ => Some None
    | Done token p w =>
      if negb (token =? kTokenBeginNode) || (segment_count path =? 0) then Some None
      else
        match search_node blob end_ (strings_offset_ t) (strings_size_ t) path name (S (length blob)) 0 p w with
        | Outside => None
        | Failed _ _ => Some None
        | Done _ _ found => Some found
        end
    end
  end.

(** * Reads inside the blob *)

Lemma peek_byte_in blob p : 0 <= p < zlen blob -> peek_byte blob p = Some (byte_at blob p).
Proof. intros H. unfold peek_byte. rewrite (proj2 (Z.leb_le _ _)), (proj2 (Z.ltb_lt _ _)) by lia. reflexivity. Qed.

Lemma lor_range a b n : 0 <= n -> 0 <= a < 2 ^ n -> 0 <= b < 2 ^ n -> 0 <= Z.lor a b < 2 ^ n.
Proof.
  intros Hn Ha Hb. assert (Hl : 0 <= Z.lor a b) by (apply Z.lor_nonneg; lia). split; [exact Hl|].
  destruct (Z.eq_dec (Z.lor a b) 0) as [->|Hne]; [lia|]. apply Z.log2_lt_pow2; [lia|]. rewrite Z.log2_lor by lia.
  destruct (Z.eq_dec n 0) as [->|]; [replace a with 0 in * by lia; replace b with 0 in * by lia; now cbn in Hne|].
  apply Z.max_lub_lt; [destruct (Z.eq_dec a 0) as [->|]|destruct (Z.eq_dec b 0) as [->|]]; cbn [Z.log2]; try lia; apply Z.log2_lt_pow2; lia.
Qed.

Lemma align4_spec v : 0 <= v <= 2 ^ 32 - 4 -> v <= align4 v < v + 4.
Proof. intros Hv. unfold align4. rewrite u32_small, land_word by lia. zlia. Qed.

Lemma align4_nonneg v : 0 <= align4 v.
Proof. apply Z.land_nonneg. right. lia. Qed.

Lemma read_be32_in blob p : bytes_ok blob -> 0 <= p -> p + 4 <= zlen blob -> exists v, read_be32 blob p = Some v /\ 0 <= v < 2 ^ 32.
Proof.
  intros Hb Hp Hl. unfold read_be32. rewrite !peek_byte_in by lia. cbn [mbind option_bind]. eexists. split; [reflexivity|].
  assert (B : forall i, 0 <= byte_at blob i < 256) by (intros i; exact (byte_at_ok blob i Hb)).
  pose proof (B p). pose proof (B (p + 1)). pose proof (B (p + 2)). pose proof (B (p + 3)).
  rewrite !Z.shiftl_mul_pow2 by lia. repeat (apply lor_range; [lia| |]); lia.
Qed.

Lemma read_be64_in blob p : bytes_ok blob -> 0 <= p -> p + 8 <= zlen blob -> is_Some (read_be64 blob p).
Proof.
  intros Hb Hp Hl. unfold read_be64. destruct (read_be32_in blob p Hb Hp ltac:(lia)) as (h & -> & _).
  destruct (read_be32_in blob (p + 4) Hb ltac:(lia) ltac:(lia)) as (l & -> & _). cbn. eauto.
Qed.

Lemma equals_in blob wanted : forall p limit, 0 <= p -> p + limit <= zlen blob -> is_Some (equals blob p limit wanted).
Proof.
  induction wanted as [|c wanted IH]; intros p limit Hp Hl; cbn [equals]; destruct (Z.leb_spec limit 0); eauto; rewrite peek_byte_in by lia; cbn [mbind option_bind]; [eauto|].
  destruct (_ =? c); [apply IH; lia|eauto].
Qed.

Lemma scan_from_in blob limit stop n : forall p,
  0 <= p -> limit <= zlen blob -> limit <= p + Z.of_nat n ->
  exists q, scan_from n blob p limit stop = Some q /\ p <= q <= Z.max p limit.
Proof.
  induction n as [|n IH]; intros p Hp Hl Hn; cbn [scan_from]; destruct (Z.leb_spec limit p); try (exists p; split; [reflexivity|lia]); [lia|].
  rewrite peek_byte_in by lia. cbn [mbind option_bind]. destruct (_ =? stop); [exists p; split; [reflexivity|lia]|].
  destruct (IH (p + 1) ltac:(lia) Hl ltac:(lia)) as (q & -> & Hq). exists q. split; [reflexivity|lia].
Qed.

Lemma scan_in blob p limit stop : 0 <= p -> limit <= zlen blob -> exists q, scan_to blob p limit stop = Some q /\ p <= q <= Z.max p limit.
Proof. intros Hp Hl. apply scan_from_in; auto. unfold zlen in Hl. lia. Qed.

(** * Steps that stay inside *)

(** A step never reads outside; [I] holds of the state it fails in, and [Q] of
    its result. *)
Definition stays {W A} (I : W -> Prop) (m : step W A) (p : Z) (w : W) (Q : A -> Z -> W -> Prop) : Prop :=
  match m p w with Outside => False | Failed _ w => I w | Done a p w => Q a p w end.

Lemma stays_bind {W A B} I (m : step W A) (k : A -> step W B) p w Q :
  stays I m p w (fun a p w => stays I (k a) p w Q) -> stays I (bind m k) p w Q.
Proof. unfold stays, bind. now destruct (m p w). Qed.

Lemma stays_weaken {W A} I (m : step W A) p w (Q Q' : A -> Z -> W -> Prop) :
  stays I m p w Q -> (forall a p w, Q a p w -> Q' a p w) -> stays I m p w Q'.
Proof. unfold stays. destruct (m p w); auto. Qed.

Lemma stays_look {W A} I (o : option A) p (w : W) a (Q : A -> Z -> W -> Prop) : o = Some a -> Q a p w -> stays I (look o) p w Q.
Proof. intros -> HQ. exact HQ. Qed.

Section inside.
Context (blob : bytes) (end_ : Z).
Context (Hbytes : bytes_ok blob) (Hend : end_ <= zlen blob) (Hsmall : end_ <= 2 ^ 32 - 4).
Context {W : Type} (I : W -> Prop).

Lemma take_u32_stays p w (Q : Z -> Z -> W -> Prop) : I w -> 0 <= p ->
  (forall v, read_be32 blob p = Some v -> 0 <= v < 2 ^ 32 -> p + 4 <= end_ -> Q v (p + 4) w) -> stays I (take_u32 blob end_) p w Q.
Proof using Hbytes Hend.
  intros Hi Hp HQ. unfold take_u32. apply stays_bind. change (stays I (if end_ <? p + 4 then fail else
    let* value := look (read_be32 blob p) in let* _ := move 4 in ret value) p w Q).
  destruct (Z.ltb_spec end_ (p + 4)); [exact Hi|]. destruct (read_be32_in blob p Hbytes Hp ltac:(lia)) as (v & Ev & Hv).
  apply stays_bind, (stays_look I _ p w v _ Ev). apply HQ; auto.
Qed.

Lemma take_string_stays p w (Q : Z * Z -> Z -> W -> Prop) : I w -> 0 <= p ->
  (forall len p', 0 <= len -> p + len < end_ -> p + 4 <= p' <= end_ -> Q (p, len) p' w) -> stays I (take_string blob end_) p w Q.
Proof using Hend Hsmall.
  intros Hi Hp HQ. unfold take_string. apply stays_bind. unfold here at 1, stays at 1. destruct (scan_in blob p end_ 0 Hp Hend) as (q & Eq & Hq).
  apply stays_bind, (stays_look I _ p w q _ Eq). apply stays_bind. unfold stays at 1, move. replace (p + (q - p)) with q by lia.
  destruct (Z.leb_spec end_ q); [exact Hi|]. cbv zeta. rewrite !u32_small by lia.
  pose proof (align4_spec (q + 1 - p) ltac:(lia)) as Ha. assert (H4 : 4 <= align4 (q + 1 - p)).
  { unfold align4 in *. rewrite u32_small, land_word in * by lia. zlia. }
  destruct (Z.ltb_spec end_ (p + align4 (q + 1 - p))); [exact Hi|]. apply HQ; lia.
Qed.

(** No property token is followed by a length that the padding wraps. *)
Definition lengths_ok : Prop :=
  forall p length, read_be32 blob p = Some kTokenProp -> read_be32 blob (p + 4) = Some length -> length <= 2 ^ 32 - 4.
(** The property's data is in the block. *)
Definition inside (prop : Property) : Prop := 0 <= data prop /\ 0 <= prop_length prop /\ data prop + prop_length prop <= end_ /\ 0 <= name_offset prop.

Lemma take_property_stays p w (Q : Property -> Z -> W -> Prop) : I w -> 0 <= p -> lengths_ok -> read_be32 blob p = Some kTokenProp ->
  (forall prop p', inside prop -> p + 4 <= p' <= end_ -> Q prop p' w) -> stays I (take_property blob end_) (p + 4) w Q.
Proof using Hbytes Hend.
  intros Hi Hp Hlen Htok HQ. unfold take_property. apply stays_bind, take_u32_stays; auto; [lia|]. intros len El Hl H1.
  apply stays_bind, take_u32_stays; auto; [lia|]. intros off _ Ho H2. apply stays_bind. unfold stays at 1, here.
  pose proof (Hlen p len Htok El) as Hle. pose proof (align4_spec len ltac:(lia)) as Ha.
  destruct (Z.ltb_spec end_ (p + 4 + 4 + 4 + align4 len)); [exact Hi|]. apply stays_bind. unfold skip. apply stays_bind. unfold stays at 1, here.
  rewrite (proj2 (Z.ltb_ge _ _)) by lia. apply HQ; [|lia]. unfold inside. cbn. lia.
Qed.
End inside.

(** What the property loop has noted is in the block. *)
Definition opt_inside (end_ : Z) (o : option Property) : Prop := match o with Some prop => inside end_ prop | None => True end.
Record seen_inside (end_ : Z) (seen : Seen) : Prop := {
  si_compat : opt_inside end_ (compat seen);
  si_reg : opt_inside end_ (reg seen);
  si_interrupts : opt_inside end_ (interrupts seen);
  si_address : 0 <= address_cells seen;
  si_size : 0 <= size_cells seen;
}.
(** A device's strings are in the block. *)
Definition device_inside (end_ : Z) (d : Device) : Prop :=
  0 <= compatible d /\ 0 <= compatible_length d /\ compatible d + compatible_length d <= end_ /\
  0 <= dev_name d /\ 0 <= dev_name_length d /\ dev_name d + dev_name_length d <= end_.

Section blob.
Context (blob : bytes) (end_ strings strings_size : Z).
Context (Hbytes : bytes_ok blob) (Hend : end_ <= zlen blob) (Hsmall : end_ <= 2 ^ 32 - 4) (Hlengths : lengths_ok blob).
Context (Hstrings : 0 <= strings) (Hstrings_end : strings + strings_size <= zlen blob).

Lemma note_property_in prop seen :
  inside end_ prop -> name_offset prop < strings_size -> seen_inside end_ seen ->
  exists seen', note_property blob strings strings_size prop seen = Some seen' /\ seen_inside end_ seen'.
Proof using Hbytes Hend Hstrings Hstrings_end.
  intros Hp Hn Hs. pose proof Hp as (H1 & H2 & H3 & H4). pose proof Hs as [S1 S2 S3 S4 S5]. unfold note_property.
  assert (He : forall wanted, exists b, equals blob (strings + name_offset prop) (strings_size - name_offset prop) wanted = Some b)
    by (intros wanted; destruct (equals_in blob wanted (strings + name_offset prop) (strings_size - name_offset prop) ltac:(lia) ltac:(lia)) as [b Hb]; eauto).
  assert (Hcells : 4 <= prop_length prop -> exists v, read_be32 blob (data prop) = Some v /\ 0 <= v)
    by (intros H; destruct (read_be32_in blob (data prop) Hbytes ltac:(lia) ltac:(lia)) as (v & -> & Hv); exists v; split; [reflexivity|lia]).
  assert (Hread : forall f : Z -> Seen, (forall v, 0 <= v -> seen_inside end_ (f v)) -> exists seen',
    (if 4 <=? prop_length prop then cells ← read_be32 blob (data prop); Some (f cells) else Some seen) = Some seen' /\ seen_inside end_ seen').
  { intros f Hf. destruct (Z.leb_spec 4 (prop_length prop)) as [Hl|Hl]; [|eauto]. destruct (Hcells Hl) as (v & -> & Hv). cbn. eauto. }
  destruct (He (chars_of "compatible")) as [[] ->]; cbn [mbind option_bind]; [eexists; split; [reflexivity|split; assumption]|].
  destruct (He (chars_of "#address-cells")) as [[] ->]; cbn [mbind option_bind]; [apply (Hread (fun v => mkSeen _ _ _ v _)); split; assumption|].
  destruct (He (chars_of "#size-cells")) as [[] ->]; cbn [mbind option_bind]; [apply (Hread (fun v => mkSeen _ _ _ _ v)); split; assumption|].
  destruct (He (chars_of "reg")) as [[] ->]; cbn [mbind option_bind]; [eexists; split; [reflexivity|split; assumption]|].
  destruct (He (chars_of "interrupts")) as [[] ->]; cbn [mbind option_bind]; [eexists; split; [reflexivity|split; assumption]|eauto].
Qed.

Lemma properties_stays {S} (I : Walk (S := S) -> Prop) n : forall p w seen (Q : Seen * bool -> Z -> Walk (S := S) -> Prop),
  I w -> 0 <= p <= end_ -> end_ < p + Z.of_nat n -> seen_inside end_ seen ->
  (forall seen' child p', seen_inside end_ seen' -> p + 4 <= p' <= end_ -> Q (seen', child) p' w) ->
  stays I (properties blob end_ strings strings_size n seen) p w Q.
Proof using Hbytes Hend Hlengths Hstrings Hstrings_end.
  induction n as [|n IH]; intros p w seen Q Hi Hp Hn Hs HQ; cbn [properties]; [lia|].
  apply stays_bind, take_u32_stays; auto; [lia|]. intros token Et _ Hfit.
  destruct (token =? kTokenEndNode); [apply HQ; auto; lia|].
  destruct (token =? kTokenNop); [apply IH; auto; [lia|lia|]; intros; apply HQ; auto; lia|].
  destruct (token =? kTokenBeginNode); [apply HQ; auto; lia|].
  destruct (Z.eqb_spec token kTokenProp) as [->|]; cbn [negb]; [|exact Hi].
  apply stays_bind, take_property_stays; auto; [lia|]. intros prop p' Hin Hp'.
  destruct (Z.leb_spec strings_size (name_offset prop)); [exact Hi|].
  destruct (note_property_in prop seen Hin ltac:(lia) Hs) as (seen' & En & Hs'). apply stays_bind, (stays_look I _ p' w seen' _ En).
  apply IH; auto; [lia|lia|]. intros. apply HQ; auto; lia.
Qed.

Lemma read_cells_in p cells : 0 <= p -> 1 <= cells <= 2 -> p + cells * 4 <= end_ -> is_Some (read_cells blob p cells).
Proof using Hbytes Hend.
  intros Hp Hc Hl. unfold read_cells. destruct (Z.eqb_spec cells 1).
  - destruct (read_be32_in blob p Hbytes Hp ltac:(lia)) as (v & -> & _). eauto.
  - apply read_be64_in; auto. lia.
Qed.

Lemma read_region_in prop ac sc : inside end_ prop -> 0 <= ac -> 0 <= sc -> is_Some (read_region blob prop ac sc).
Proof using Hbytes Hend.
  intros (H1 & H2 & H3 & _) Ha Hs. unfold read_region. destruct ((ac =? 0) || (2 <? ac) || (2 <? sc)) eqn:E; [eauto|]. breflect. cbv zeta.
  destruct (Z.ltb_spec (prop_length prop) ((ac + sc) * 4)); [eauto|].
  destruct (read_cells_in (data prop) ac ltac:(lia) ltac:(lia) ltac:(lia)) as [b ->]. cbn [mbind option_bind].
  destruct (Z.eqb_spec sc 0); [cbn; eauto|]. destruct (read_cells_in (data prop + ac * 4) sc ltac:(lia) ltac:(lia) ltac:(lia)) as [v ->]. cbn. eauto.
Qed.

Lemma describe_in name len c seen ac sc :
  0 <= name -> 0 <= len -> name + len < end_ -> inside end_ c -> seen_inside end_ seen -> 0 <= ac -> 0 <= sc ->
  exists d, describe blob name len c seen ac sc = Some d /\ device_inside end_ d.
Proof using Hbytes Hend.
  intros Hn Hl He (C1 & C2 & C3 & _) [_ Sr Si _ _] Ha Hs. unfold describe.
  destruct (scan_in blob (data c) (data c + prop_length c) 0 ltac:(lia) ltac:(lia)) as (first & -> & Hf).
  destruct (scan_in blob name (name + len) 64 ltac:(lia) ltac:(lia)) as (bare & -> & Hb). cbn [mbind option_bind].
  assert (Hreg : is_Some (match reg seen with Some r => read_region blob r ac sc | None => Some (0, 0, false) end))
    by (destruct (reg seen); [apply read_region_in; auto|eauto]).
  destruct Hreg as [region ->]. cbn [mbind option_bind].
  assert (Hirq : is_Some (match interrupts seen with
    | Some i => if 4 <=? prop_length i then value ← read_be32 blob (data i); Some (value, true) else Some (0, false) | None => Some (0, false) end)).
  { destruct (interrupts seen) as [i|]; [|eauto]. destruct Si as (I1 & I2 & I3 & _). destruct (Z.leb_spec 4 (prop_length i)); [|eauto].
    destruct (read_be32_in blob (data i) Hbytes I1 ltac:(lia)) as (v & -> & _). cbn. eauto. }
  destruct Hirq as [irq ->]. eexists. split; [reflexivity|]. unfold device_inside. cbn. lia.
Qed.

Section walking.
Context {S : Type} (device : S -> Device -> bool * S) (P : S -> Prop).
Context (Hvisit : forall s d, device_inside end_ d -> P s -> P (device s d).2).
Let I (w : Walk (S := S)) : Prop := P (visitor w).

Lemma visit_stays name len seen ac sc p w (Q : unit -> Z -> Walk -> Prop) :
  0 <= name -> 0 <= len -> name + len < end_ -> seen_inside end_ seen -> 0 <= ac -> 0 <= sc -> I w ->
  (forall w', I w' -> Q tt p w') -> stays I (visit blob device name len seen ac sc) p w Q.
Proof using Hbytes Hend Hvisit.
  intros Hn Hl He Hs Ha Hc Hi HQ. unfold stays, visit. destruct (compat seen) as [c|] eqn:Ec; [|auto]. destruct (stopped w); [auto|].
  pose proof (si_compat _ _ Hs) as Hin. rewrite Ec in Hin. destruct (describe_in name len c seen ac sc Hn Hl He Hin Hs Ha Hc) as (d & -> & Hd).
  pose proof (Hvisit (visitor w) (numbered d (next_id w)) Hd Hi) as Hp. destruct (device _ _) as [more s]. apply HQ. exact Hp.
Qed.

(** Both walks move forward, never past the block. *)
Lemma walk_stays fuel :
  (forall p w ac sc (Q : unit -> Z -> Walk -> Prop), I w -> 0 <= p <= end_ -> end_ < p + Z.of_nat fuel -> 0 <= ac -> 0 <= sc ->
     (forall p' w', I w' -> p <= p' <= end_ -> Q tt p' w') ->
     stays I (walk_node blob end_ strings strings_size device fuel ac sc) p w Q) /\
  (forall p w ac sc (Q : unit -> Z -> Walk -> Prop), I w -> 0 <= p <= end_ -> end_ < p + Z.of_nat fuel -> 0 <= ac -> 0 <= sc ->
     (forall p' w', I w' -> p <= p' <= end_ -> Q tt p' w') ->
     stays I (walk_children blob end_ strings strings_size device fuel ac sc) p w Q).
Proof using Hbytes Hend Hsmall Hlengths Hstrings Hstrings_end Hvisit.
  induction fuel as [|fuel [IHn IHc]]; [split; intros; lia|]. split; intros p w ac sc Q Hi Hp Hf Ha Hs HQ; cbn [walk_node walk_children].
  - apply stays_bind, take_string_stays; auto; [lia|]. intros len p1 Hl Hn H1.
    apply stays_bind, properties_stays; auto; [lia|unfold zlen in Hend; lia|split; cbn; auto; unfold kDefaultAddressCells, kDefaultSizeCells; lia|].
    intros seen child p2 Hseen H2. apply stays_bind, visit_stays; auto; [lia|]. intros w' Hi'.
    destruct child; cbn [negb]; [|apply HQ; auto; lia]. pose proof Hseen as [_ _ _ Sa Ss].
    apply stays_bind, IHn; auto; [lia|lia|]. intros p3 w3 Hi3 H3. apply IHc; auto; [lia|lia|]. intros. apply HQ; auto; lia.
  - unfold stays. destruct (stopped w); [apply HQ; auto; lia|].
    match goal with |- match ?m p w with _ => _ end => change (stays I m p w Q) end.
    apply stays_bind, take_u32_stays; auto; [lia|]. intros token _ _ H1.
    destruct (token =? kTokenEndNode); [apply HQ; auto; lia|].
    destruct (token =? kTokenNop); [apply IHc; auto; [lia|lia|]; intros; apply HQ; auto; lia|].
    destruct (negb (token =? kTokenBeginNode)); [exact Hi|].
    apply stays_bind, IHn; auto; [lia|lia|]. intros p2 w2 Hi2 H2. apply IHc; auto; [lia|lia|]. intros. apply HQ; auto; lia.
Qed.
End walking.

Section searching.
Context (path name : bytes).
(** The answer is in the block. *)
Definition found_inside (found : option (Z * Z)) : Prop :=
  match found with Some (at_, length) => 0 <= at_ /\ 0 <= length /\ at_ + length <= end_ | None => True end.

Lemma memeq_in segment : forall p, 0 <= p -> p + zlen segment <= zlen blob -> is_Some (memeq blob p segment).
Proof using Type.
  induction segment as [|c segment IH]; intros p Hp Hl; cbn [memeq]; [eauto|]. rewrite zlen_cons in Hl. pose proof (zlen_nonneg segment).
  rewrite peek_byte_in by lia. cbn [mbind option_bind]. destruct (_ =? c); [apply IH; lia|eauto].
Qed.

Lemma depth_at_in node bare matched : 0 <= node -> 0 <= matched -> node + bare <= end_ ->
  exists depth, depth_at blob path node bare matched = Some depth /\ 0 <= depth.
Proof using Hend.
  intros Hn Hm He. assert (Hs : forall o, is_Some (segment_is blob node bare o)).
  { intros [s|]; cbn [segment_is]; [|eauto]. destruct (Z.eqb_spec (zlen s) bare) as [<-|]; [|eauto]. apply memeq_in; lia. }
  unfold depth_at. destruct (Hs (segment_at path matched)) as [[] ->]; cbn [mbind option_bind]; [eexists; split; [reflexivity|lia]|].
  destruct (Hs (segment_at path 0)) as [[] ->]; cbn; eexists; split; reflexivity || lia.
Qed.

Lemma search_properties_stays n : forall target p w (Q : bool -> Z -> option (Z * Z) -> Prop),
  found_inside w -> 0 <= p <= end_ -> end_ < p + Z.of_nat n ->
  (forall child p' w', found_inside w' -> p + 4 <= p' <= end_ -> Q child p' w') ->
  stays found_inside (search_properties blob end_ strings strings_size name n target) p w Q.
Proof using Hbytes Hend Hlengths Hstrings Hstrings_end.
  induction n as [|n IH]; intros target p w Q Hi Hp Hn HQ; cbn [search_properties]; [lia|].
  apply stays_bind, take_u32_stays; auto; [lia|]. intros token Et _ Hfit.
  destruct (token =? kTokenEndNode); [apply HQ; auto; lia|].
  destruct (token =? kTokenNop); [apply IH; auto; [lia|lia|]; intros; apply HQ; auto; lia|].
  destruct (token =? kTokenBeginNode); [apply HQ; auto; lia|].
  destruct (Z.eqb_spec token kTokenProp) as [->|]; cbn [negb]; [|exact Hi].
  apply stays_bind, take_property_stays; auto; [lia|]. intros prop p' (H1 & H2 & H3 & H4) Hp'.
  destruct target; cbn [negb]; [|apply IH; auto; [lia|lia|]; intros; apply HQ; auto; lia].
  destruct (Z.leb_spec strings_size (name_offset prop)); [exact Hi|].
  destruct (equals_in blob name (strings + name_offset prop) (strings_size - name_offset prop) ltac:(lia) ltac:(lia)) as [same Es].
  apply stays_bind, (stays_look _ _ p' w same _ Es). destruct same; [apply HQ; cbn; lia|].
  apply IH; auto; [lia|lia|]. intros. apply HQ; auto; lia.
Qed.

Lemma search_stays fuel :
  (forall p w matched (Q : unit -> Z -> option (Z * Z) -> Prop), found_inside w -> 0 <= p <= end_ -> end_ < p + Z.of_nat fuel -> 0 <= matched ->
     (forall p' w', found_inside w' -> p <= p' <= end_ -> Q tt p' w') ->
     stays found_inside (search_node blob end_ strings strings_size path name fuel matched) p w Q) /\
  (forall p w depth (Q : unit -> Z -> option (Z * Z) -> Prop), found_inside w -> 0 <= p <= end_ -> end_ < p + Z.of_nat fuel -> 0 <= depth ->
     (forall p' w', found_inside w' -> p <= p' <= end_ -> Q tt p' w') ->
     stays found_inside (search_children blob end_ strings strings_size path name fuel depth) p w Q).
Proof using Hbytes Hend Hsmall Hlengths Hstrings Hstrings_end.
  induction fuel as [|fuel [IHn IHc]]; [split; intros; lia|]. split; intros p w k Q Hi Hp Hf Hk HQ; cbn [search_node search_children].
  - apply stays_bind, take_string_stays; auto; [lia|]. intros len p1 Hl Hn H1.
    destruct (scan_in blob p (p + len) 64 ltac:(lia) ltac:(lia)) as (stop & Es & Hs). apply stays_bind, (stays_look _ _ p1 w stop _ Es).
    destruct (depth_at_in p (stop - p) k ltac:(lia) Hk ltac:(lia)) as (depth & Ed & Hd). apply stays_bind, (stays_look _ _ p1 w depth _ Ed).
    apply stays_bind, search_properties_stays; auto; [lia|unfold zlen in Hend; lia|]. intros child p2 w2 Hi2 H2.
    destruct child; cbn [negb]; [|apply HQ; auto; lia].
    apply stays_bind, IHn; auto; [lia|lia|]. intros p3 w3 Hi3 H3. apply IHc; auto; [lia|lia|]. intros. apply HQ; auto; lia.
  - unfold stays. destruct w as [f|]; [apply HQ; auto; lia|].
    match goal with |- match ?m p ?w with _ => _ end => change (stays found_inside m p w Q) end.
    apply stays_bind, take_u32_stays; auto; [lia|]. intros token _ _ H1.
    destruct (token =? kTokenEndNode); [apply HQ; auto; lia|].
    destruct (token =? kTokenNop); [apply IHc; auto; [lia|lia|]; intros; apply HQ; auto; lia|].
    destruct (negb (token =? kTokenBeginNode)); [exact Hi|].
    apply stays_bind, IHn; auto; [lia|lia|]. intros p2 w2 Hi2 H2. apply IHc; auto; [lia|lia|]. intros. apply HQ; auto; lia.
Qed.
End searching.
End blob.

(** * Adoption *)

(** Both blocks of an adopted tree are in the blob. *)
Record tree_inside (blob : bytes) (t : Tree) : Prop := {
  ti_base : base_ t = Some blob;
  ti_struct : 0 <= struct_offset_ t /\ 0 <= struct_size_ t /\ struct_offset_ t + struct_size_ t <= zlen blob;
  ti_strings : 0 <= strings_offset_ t /\ 0 <= strings_size_ t /\ strings_offset_ t + strings_size_ t <= zlen blob;
}.

Lemma count_reserved_in blob total n : bytes_ok blob -> total <= zlen blob -> forall p reserved,
  0 <= p -> total < p + 16 + 16 * Z.of_nat n -> is_Some (count_reserved n blob p total reserved).
Proof.
  intros Hb Ht. induction n as [|n IH]; intros p reserved Hp Hn; cbn [count_reserved]; destruct (Z.ltb_spec total (p + 16)); eauto; [lia|].
  destruct (read_be64_in blob p Hb Hp ltac:(lia)) as [a ->]. cbn [mbind option_bind].
  assert (Hs : is_Some (if a =? 0 then read_be64 blob (p + 8) else Some 1)) by (destruct (a =? 0); [apply read_be64_in; auto; lia|eauto]).
  destruct Hs as [v ->]. cbn [mbind option_bind]. destruct ((a =? 0) && (v =? 0)); [eauto|]. apply IH; lia.
Qed.

Lemma adopt_law blob t0 : bytes_ok blob ->
  exists ok t, adopt t0 (Some blob) (zlen blob) = Some (ok, t) /\ (ok = true -> tree_inside blob t).
Proof.
  intros Hb. unfold adopt. assert (Hno : exists ok t, Some (false, t0) = Some (ok, t) /\ (ok = true -> tree_inside blob t))
    by (exists false, t0; split; [reflexivity|discriminate]).
  destruct (Z.ltb_spec (zlen blob) kHeaderBytes); [exact Hno|]. unfold kHeaderBytes in *.
  assert (Hr : forall p, 0 <= p <= 36 -> exists v, read_be32 blob p = Some v /\ 0 <= v < 2 ^ 32) by (intros; apply read_be32_in; auto; lia).
  destruct (Hr 0 ltac:(lia)) as (magic & -> & _). cbn [mbind option_bind]. destruct (negb _); [exact Hno|].
  destruct (Hr 4 ltac:(lia)) as (total & -> & Htotal). cbn [mbind option_bind]. destruct ((total <? 40) || (zlen blob <? total)) eqn:Et; [exact Hno|]. breflect.
  destruct (Hr 20 ltac:(lia)) as (version & -> & _). cbn [mbind option_bind]. destruct (version <? _); [exact Hno|].
  destruct (Hr 8 ltac:(lia)) as (so & -> & Hso). destruct (Hr 12 ltac:(lia)) as (to & -> & Hto). destruct (Hr 36 ltac:(lia)) as (ss & -> & Hss).
  destruct (Hr 32 ltac:(lia)) as (ts & -> & Hts). cbn [mbind option_bind].
  destruct ((total <? so) || (total - so <? ss)) eqn:E1; [exact Hno|]. destruct ((total <? to) || (total - to <? ts)) eqn:E2; [exact Hno|]. breflect.
  destruct (Hr 16 ltac:(lia)) as (ro & -> & Hro). cbn [mbind option_bind].
  assert (Hc : is_Some (if negb (ro =? 0) && (ro <? total) then count_reserved (length blob) blob ro total 0 else Some 0)).
  { destruct (_ && _); [|eauto]. apply count_reserved_in; auto; unfold zlen in *; lia. }
  destruct Hc as [reserved ->]. eexists true, _. split; [reflexivity|]. intros _. split; cbn; [reflexivity|lia|lia].
Qed.

(** C30: The reader stays inside what it was given.  Whatever the bytes of the
    blob, adopting it reads nothing outside it; and unless a property token is
    followed by a length within three of two to the 32, so do walking the
    adopted tree and looking a property up: both end, every device handed to
    the visitor has its strings in the structure block, and so has the property
    found its data.  (The blob is a little smaller than four gigabytes.) *)
Theorem devtree_inside (blob : bytes) (t0 : Tree) :
  bytes_ok blob -> zlen blob <= 2 ^ 32 - 4 -> lengths_ok blob ->
  exists ok t, adopt t0 (Some blob) (zlen blob) = Some (ok, t) /\
    (ok = true -> let end_ := struct_offset_ t + struct_size_ t in end_ <= zlen blob /\
      (forall S (device : S -> Device -> bool * S) s (P : S -> Prop),
         P s -> (forall s d, device_inside end_ d -> P s -> P (device s d).2) ->
         exists ok t' s', walk device t s = Some (ok, t', s') /\ P s') /\
      (forall path name, exists found, property t path name = Some found /\ found_inside end_ found)).
Proof.
  intros Hb Hz Hl. destruct (adopt_law blob t0 Hb) as (ok & t & Ha & Ht). exists ok, t. split; [exact Ha|].
  intros Hok end_. destruct (Ht Hok) as [Hbase (S1 & S2 & S3) (T1 & T2 & T3)]. fold end_ in S3. split; [exact S3|].
  assert (Hstart : 0 <= struct_offset_ t) by lia. split.
  - intros S device s P HP Hv. unfold walk. rewrite Hbase. fold end_.
    pose proof (take_u32_stays blob end_ Hb S3 (fun w : Walk (S := S) => P (visitor w)) (struct_offset_ t) (mkWalk 0 false s)
      (fun v p w => p <= end_ /\ p = struct_offset_ t + 4 /\ P (visitor w)) HP Hstart ltac:(cbn; auto)) as Hk.
    unfold stays in Hk. destruct (take_u32 _ _ _ _) as [|p w|token p w]; [contradiction|eauto 6|]. destruct Hk as (H1 & H2 & HP').
    destruct (negb _); [eauto 6|].
    pose proof (proj1 (walk_stays blob end_ (strings_offset_ t) (strings_size_ t) Hb S3 ltac:(lia) Hl ltac:(lia) ltac:(lia) device P Hv (Datatypes.S (length blob)))
      p w kDefaultAddressCells kDefaultSizeCells (fun _ _ w => P (visitor w)) HP' ltac:(lia) ltac:(unfold zlen in *; lia)
      ltac:(unfold kDefaultAddressCells; lia) ltac:(unfold kDefaultSizeCells; lia) ltac:(auto)) as Hw.
    unfold stays in Hw. destruct (walk_node _ _ _ _ _ _ _ _ _ _) as [|p' w'|u p' w']; [contradiction|eauto 6|eauto 6].
  - intros path name. unfold property. rewrite Hbase. fold end_.
    pose proof (take_u32_stays blob end_ Hb S3 (found_inside end_) (struct_offset_ t) None
      (fun v p w => p <= end_ /\ p = struct_offset_ t + 4 /\ found_inside end_ w) I Hstart ltac:(cbn; auto)) as Hk.
    unfold stays in Hk. destruct (take_u32 _ _ _ _) as [|p w|token p w]; [contradiction|exists None; split; [reflexivity|exact I]|]. destruct Hk as (H1 & H2 & HP').
    destruct (_ || _); [exists None; split; [reflexivity|exact I]|].
    pose proof (proj1 (search_stays blob end_ (strings_offset_ t) (strings_size_ t) Hb S3 ltac:(lia) Hl ltac:(lia) ltac:(lia) path name (S (length blob)))
      p w 0 (fun _ _ w => found_inside end_ w) HP' ltac:(lia) ltac:(unfold zlen in *; lia) ltac:(lia) ltac:(auto)) as Hw.
    unfold stays in Hw. destruct (search_node _ _ _ _ _ _ _ _ _ _) as [|p' w'|u p' w']; [contradiction|exists None; split; [reflexivity|exact I]|eauto].
Qed.

(** * Examples *)

Definition length_okb (blob : bytes) (p : Z) : bool :=
  match read_be32 blob p, read_be32 blob (p + 4) with
  | Some token, Some length => negb (token =? kTokenProp) || (length <=? 2 ^ 32 - 4)
  | _, _ => true
  end.
Lemma lengths_okb blob : forallb (fun i => length_okb blob (Z.of_nat i)) (seq 0 (length blob)) = true -> lengths_ok blob.
Proof.
  intros Hf p len Ht Hl. rewrite forallb_forall in Hf. assert (Hp : 0 <= p < zlen blob).
  { unfold read_be32, peek_byte in Ht. destruct ((0 <=? p) && (p <? zlen blob)) eqn:E; [breflect; lia|discriminate]. }
  specialize (Hf (Z.to_nat p)). rewrite in_seq in Hf. specialize (Hf ltac:(unfold zlen in Hp; lia)). rewrite Z2Nat.id in Hf by lia.
  unfold length_okb in Hf. rewrite Ht, Hl, Z.eqb_refl in Hf. cbn [negb orb] in Hf. now apply Z.leb_le in Hf.
Qed.

Module SampleTree.
Definition be32 (v : Z) : bytes := rev (le_split 4 v).
Definition padded (b : bytes) : bytes := b ++ zeros (align4 (zlen b) - zlen b).
Definition prop (offset : Z) (b : bytes) : bytes := be32 kTokenProp ++ be32 (zlen b) ++ be32 offset ++ padded b.
Definition node (name : String.string) (body : bytes) : bytes := be32 kTokenBeginNode ++ padded (chars_of name ++ [0]) ++ body ++ be32 kTokenEndNode.
(** compatible at 0, reg at 11, interrupts at 15 *)
Definition names : bytes := chars_of "compatible" ++ [0] ++ chars_of "reg" ++ [0] ++ chars_of "interrupts" ++ [0].
(** The strings before the structure, no reservations. *)
Definition blob (structure : bytes) : bytes :=
  be32 kMagic ++ be32 (72 + zlen structure) ++ be32 72 ++ be32 40 ++ be32 0 ++ be32 17 ++ be32 16 ++ be32 0 ++ be32 26 ++ be32 (zlen structure) ++
  names ++ zeros 6 ++ structure.
Definition uart : bytes :=
  node "uart@10000000" (prop 0 (chars_of "ns16550a" ++ [0]) ++ prop 11 (be32 0 ++ be32 0x10000000 ++ be32 0x100) ++ prop 15 (be32 10)).
Definition board : bytes := blob (node "" (node "soc" uart)).
(** A reg whose declared length the padding wraps to nothing. *)
Definition hostile : bytes :=
  blob (node "" (node "x" (prop 0 [0] ++ be32 kTokenProp ++ be32 (2 ^ 32 - 3) ++ be32 11))).
Definition none : Tree := mkTree None 0 0 0 0 0 0 0 0.
Definition adopted (b : bytes) : Tree := match adopt none (Some b) (zlen b) with Some (_, t) => t | None => none end.
Definition collect (ds : list Device) (d : Device) : bool * list Device := (true, ds ++ [d]).
End SampleTree.

Lemma devtree_inside_witness :
  (exists ok t, adopt SampleTree.none (Some SampleTree.board) (zlen SampleTree.board) = Some (ok, t) /\
    (ok = true -> struct_offset_ t + struct_size_ t <= zlen SampleTree.board)) /\
  match walk SampleTree.collect (SampleTree.adopted SampleTree.board) [] with
  | Some (ok, _, [d]) =>
    (ok, base d, size d, interrupt d, slice SampleTree.board (compatible d) (compatible_length d), slice SampleTree.board (dev_name d) (dev_name_length d))
  | _ => (false, 0, 0, 0, [], [])
  end = (true, 0x10000000, 0x100, 10, chars_of "ns16550a", chars_of "uart").
Proof.
  split; [|vm_compute; reflexivity].
  destruct (devtree_inside SampleTree.board SampleTree.none) as (ok & t & Ha & Ht).
  - apply bytes_okb_true. vm_compute. reflexivity.
  - vm_compute. discriminate.
  - apply lengths_okb. vm_compute. reflexivity.
  - exists ok, t. split; [exact Ha|]. intros Hok. exact (proj1 (Ht Hok)).
Defined.

(** A length just below two to the 32 gets past the check, and the walk reads
    behind the blob. *)
Lemma wrapped_length_read_outside :
  match adopt SampleTree.none (Some SampleTree.hostile) (zlen SampleTree.hostile) with Some (ok, _) => ok | None => false end = true /\
  walk SampleTree.collect (SampleTree.adopted SampleTree.hostile) [] = None.
Proof. vm_compute. auto. Qed.

(** The path is not taken from the root: a node deeper down is found. *)
Lemma path_matches_deeper_node :
  match property (SampleTree.adopted SampleTree.board) (chars_of "/uart") (chars_of "compatible") with
  | Some (Some (p, n)) => slice SampleTree.board p n
  | _ => []
  end = chars_of "ns16550a" ++ [0].
Proof. vm_compute. reflexivity. Qed.
