(* ===== verification/Manifest.v ===== *)
(** The boot manifest (libs/freestanding/aegir-manifest, src/manifest.cc and
    include/aegir/manifest.h): the sections of services the director starts.
    The lines, their trimming and [key = value] are those of Limits.v, whose
    source repeats them.  The theorems: what is accepted is well formed, section
    by section, and the array sized by the first pass holds what the second
    fills in. *)
From stdpp Require Import base numbers list.
From Stdlib Require Import ZArith Lia.
From Stdlib Require String.
Import String.StringSyntax.
From S2P Require Import Prelude Limits.
#[local] Open Scope string_scope.
#[local] Open Scope Z_scope.

Inductive Authority := System | User.

(** The views a section's text keys bind; a null view is [None]. *)
Inductive ViewKey := Binary | Account | Owns | Needs | Grants | Spawns | Restart | Priority | Args | Environment | Cwd.
Record Views := mkViews { v_binary : option View; v_account : option View; v_owns : option View; v_needs : option View; v_grants : option View; v_spawns : option View; v_restart : option View; v_priority : option View; v_args : option View; v_environment : option View; v_cwd : option View }.
Definition no_views : Views := mkViews None None None None None None None None None None None.
Definition get_view (k : ViewKey) (v : Views) : option View :=
  match k with
  | Binary => v_binary v
  | Account => v_account v
  | Owns => v_owns v
  | Needs => v_needs v
  | Grants => v_grants v
  | Spawns => v_spawns v
  | Restart => v_restart v
  | Priority => v_priority v
  | Args => v_args v
  | Environment => v_environment v
  | Cwd => v_cwd v
  end.
Definition set_view (k : ViewKey) (x : option View) (v : Views) : Views :=
  match k with
  | Binary => mkViews x (v_account v) (v_owns v) (v_needs v) (v_grants v) (v_spawns v) (v_restart v) (v_priority v) (v_args v) (v_environment v) (v_cwd v)
  | Account => mkViews (v_binary v) x (v_owns v) (v_needs v) (v_grants v) (v_spawns v) (v_restart v) (v_priority v) (v_args v) (v_environment v) (v_cwd v)
  | Owns => mkViews (v_binary v) (v_account v) x (v_needs v) (v_grants v) (v_spawns v) (v_restart v) (v_priority v) (v_args v) (v_environment v) (v_cwd v)
  | Needs => mkViews (v_binary v) (v_account v) (v_owns v) x (v_grants v) (v_spawns v) (v_restart v) (v_priority v) (v_args v) (v_environment v) (v_cwd v)
  | Grants => mkViews (v_binary v) (v_account v) (v_owns v) (v_needs v) x (v_spawns v) (v_restart v) (v_priority v) (v_args v) (v_environment v) (v_cwd v)
  | Spawns => mkViews (v_binary v) (v_account v) (v_owns v) (v_needs v) (v_grants v) x (v_restart v) (v_priority v) (v_args v) (v_environment v) (v_cwd v)
  | Restart => mkViews (v_binary v) (v_account v) (v_owns v) (v_needs v) (v_grants v) (v_spawns v) x (v_priority v) (v_args v) (v_environment v) (v_cwd v)
  | Priority => mkViews (v_binary v) (v_account v) (v_owns v) (v_needs v) (v_grants v) (v_spawns v) (v_restart v) x (v_args v) (v_environment v) (v_cwd v)
  | Args => mkViews (v_binary v) (v_account v) (v_owns v) (v_needs v) (v_grants v) (v_spawns v) (v_restart v) (v_priority v) x (v_environment v) (v_cwd v)
  | Environment => mkViews (v_binary v) (v_account v) (v_owns v) (v_needs v) (v_grants v) (v_spawns v) (v_restart v) (v_priority v) (v_args v) x (v_cwd v)
  | Cwd => mkViews (v_binary v) (v_account v) (v_owns v) (v_needs v) (v_grants v) (v_spawns v) (v_restart v) (v_priority v) (v_args v) (v_environment v) x
  end.
(** [kViewKeys] *)
Definition view_keys : list (View * ViewKey) :=
  [(text_of "binary", Binary);
   (text_of "account", Account);
   (text_of "owns", Owns);
   (text_of "needs", Needs);
   (text_of "grants", Grants);
   (text_of "spawns", Spawns);
   (text_of "restart", Restart);
   (text_of "priority", Priority);
   (text_of "args", Args);
   (text_of "environment", Environment);
   (text_of "cwd", Cwd)].

(** [struct Entry], its bound views together. *)
Record Entry := mkEntry {
  entry_name : View;
  views : Views;
  authority_text : option View;
  device : option View;
  authority : Authority;
  device_manager : bool;
  device_id : Z;
  memory_kib : Z;
  memory_rest : bool;
  stack_kib : Z;
  cspace_bits : Z;
  delegate_mib : Z;
  has_core : bool;
  core : Z;
  initrd : bool;
  maps : bool;
  line : Z;
}.
Definition blank_entry (name : View) (number : Z) : Entry :=
  mkEntry name no_views None None System false 0 0 false 0 0 0 false 0 false false number.
Definition with_views (e : Entry) (x : Views) : Entry :=
  mkEntry (entry_name e) x (authority_text e) (device e) (authority e) (device_manager e) (device_id e) (memory_kib e) (memory_rest e) (stack_kib e) (cspace_bits e) (delegate_mib e) (has_core e) (core e) (initrd e) (maps e) (line e).
Definition with_authority_text (e : Entry) (x : option View) : Entry :=
  mkEntry (entry_name e) (views e) x (device e) (authority e) (device_manager e) (device_id e) (memory_kib e) (memory_rest e) (stack_kib e) (cspace_bits e) (delegate_mib e) (has_core e) (core e) (initrd e) (maps e) (line e).
Definition with_device (e : Entry) (x : option View) : Entry :=
  mkEntry (entry_name e) (views e) (authority_text e) x (authority e) (device_manager e) (device_id e) (memory_kib e) (memory_rest e) (stack_kib e) (cspace_bits e) (delegate_mib e) (has_core e) (core e) (initrd e) (maps e) (line e).
Definition with_authority (e : Entry) (x : Authority) : Entry :=
  mkEntry (entry_name e) (views e) (authority_text e) (device e) x (device_manager e) (device_id e) (memory_kib e) (memory_rest e) (stack_kib e) (cspace_bits e) (delegate_mib e) (has_core e) (core e) (initrd e) (maps e) (line e).
Definition with_device_manager (e : Entry) (x : bool) : Entry :=
  mkEntry (entry_name e) (views e) (authority_text e) (device e) (authority e) x (device_id e) (memory_kib e) (memory_rest e) (stack_kib e) (cspace_bits e) (delegate_mib e) (has_core e) (core e) (initrd e) (maps e) (line e).
Definition with_device_id (e : Entry) (x : Z) : Entry :=
  mkEntry (entry_name e) (views e) (authority_text e) (device e) (authority e) (device_manager e) x (memory_kib e) (memory_rest e) (stack_kib e) (cspace_bits e) (delegate_mib e) (has_core e) (core e) (initrd e) (maps e) (line e).
Definition with_memory_kib (e : Entry) (x : Z) : Entry :=
  mkEntry (entry_name e) (views e) (authority_text e) (device e) (authority e) (device_manager e) (device_id e) x (memory_rest e) (stack_kib e) (cspace_bits e) (delegate_mib e) (has_core e) (core e) (initrd e) (maps e) (line e).
Definition with_memory_rest (e : Entry) (x : bool) : Entry :=
  mkEntry (entry_name e) (views e) (authority_text e) (device e) (authority e) (device_manager e) (device_id e) (memory_kib e) x (stack_kib e) (cspace_bits e) (delegate_mib e) (has_core e) (core e) (initrd e) (maps e) (line e).
Definition with_stack_kib (e : Entry) (x : Z) : Entry :=
  mkEntry (entry_name e) (views e) (authority_text e) (device e) (authority e) (device_manager e) (device_id e) (memory_kib e) (memory_rest e) x (cspace_bits e) (delegate_mib e) (has_core e) (core e) (initrd e) (maps e) (line e).
Definition with_cspace_bits (e : Entry) (x : Z) : Entry :=
  mkEntry (entry_name e) (views e) (authority_text e) (device e) (authority e) (device_manager e) (device_id e) (memory_kib e) (memory_rest e) (stack_kib e) x (delegate_mib e) (has_core e) (core e) (initrd e) (maps e) (line e).
Definition with_delegate_mib (e : Entry) (x : Z) : Entry :=
  mkEntry (entry_name e) (views e) (authority_text e) (device e) (authority e) (device_manager e) (device_id e) (memory_kib e) (memory_rest e) (stack_kib e) (cspace_bits e) x (has_core e) (core e) (initrd e) (maps e) (line e).
Definition with_has_core (e : Entry) (x : bool) : Entry :=
  mkEntry (entry_name e) (views e) (authority_text e) (device e) (authority e) (device_manager e) (device_id e) (memory_kib e) (memory_rest e) (stack_kib e) (cspace_bits e) (delegate_mib e) x (core e) (initrd e) (maps e) (line e).
Definition with_core (e : Entry) (x : Z) : Entry :=
  mkEntry (entry_name e) (views e) (authority_text e) (device e) (authority e) (device_manager e) (device_id e) (memory_kib e) (memory_rest e) (stack_kib e) (cspace_bits e) (delegate_mib e) (has_core e) x (initrd e) (maps e) (line e).
Definition with_initrd (e : Entry) (x : bool) : Entry :=
  mkEntry (entry_name e) (views e) (authority_text e) (device e) (authority e) (device_manager e) (device_id e) (memory_kib e) (memory_rest e) (stack_kib e) (cspace_bits e) (delegate_mib e) (has_core e) (core e) x (maps e) (line e).
Definition with_maps (e : Entry) (x : bool) : Entry :=
  mkEntry (entry_name e) (views e) (authority_text e) (device e) (authority e) (device_manager e) (device_id e) (memory_kib e) (memory_rest e) (stack_kib e) (cspace_bits e) (delegate_mib e) (has_core e) (core e) (initrd e) x (line e).

(** * One line *)

(** The seen-flags of a section that are set. *)
Inductive Flag := AuthoritySeen | DeviceManagerSeen | DeviceIdSeen | DeviceSeen | MemorySeen | StackSeen | CspaceSeen
  | DelegateSeen | InitrdSeen | MapsSeen | CoreSeen.
#[export] Instance Flag_eq : EqDecision Flag.
Proof. solve_decision. Defined.

Definition is_section_header (line : View) : bool := (0 <? zlen line) && (byte_at line 0 =? 91).
Definition section_name (line : View) : option View :=
  if negb (is_section_header line) || negb (byte_at line (zlen line - 1) =? 93) then None
  else
    let name := trim (take (length line - 2) (drop 1 line)) in
    if zlen name =? 0 then None else Some name.

(** The loops over a number's digits, of at most [max]. *)
Fixpoint small_digits (value : View) (n : Z) : option Z :=
  match value with
  | [] => Some n
  | c :: value => if (c <? 48) || (57 <? c) then None else small_digits value (u32 (n * 10 + (c - 48)))
  end.
Definition small_number (value : View) (max : Z) : option Z :=
  if (zlen value =? 0) || (max <? zlen value) then None else small_digits value 0.

(** [while (rounded < wanted && rounded < limit) rounded <<= 1], which ends
    within the 32 bits. *)
Fixpoint round_up (n : nat) (rounded wanted limit : Z) : Z :=
  match n with
  | O => rounded
  | S n => if (rounded <? wanted) && (rounded <? limit) then round_up n (u32 (Z.shiftl rounded 1)) wanted limit else rounded
  end.

Notation outcome := (View + list Flag * Entry)%type.
Definition twice : View := text_of "this key is declared twice in the section".

(** A key that may come once. *)
Definition once (flag : Flag) (seen : list Flag) (k : list Flag -> outcome) : outcome :=
  if bool_decide (flag ∈ seen) then inl twice else k (flag :: seen).
Definition true_or_false (value : View) (set : bool -> Entry) (why : View) (seen : list Flag) : outcome :=
  if equals value (text_of "true") then inr (seen, set true)
  else if equals value (text_of "false") then inr (seen, set false)
  else inl why.
Definition a_number (value : View) (max : Z) (why : View) (k : Z -> outcome) : outcome :=
  match small_number value max with None => inl why | Some n => k n end.

(** The first binding of the key, if any. *)
Fixpoint bound (bindings : list (View * ViewKey)) (key : View) : option ViewKey :=
  match bindings with
  | [] => None
  | (name, k) :: bindings => if equals key name then Some k else bound bindings key
  end.

(** The keys from [delegate_mib] on. *)
Definition apply_later_key (seen : list Flag) (e : Entry) (key value : View) : outcome :=
  if equals key (text_of "delegate_mib") then
    once DelegateSeen seen (fun seen => a_number value 4 (text_of "delegate_mib is a decimal number of MiB") (fun mib =>
      if mib =? 0 then inl (text_of "delegate_mib of zero asks for the default; leave the key out")
      else inr (seen, with_delegate_mib e (round_up 32 1 mib (Z.shiftl 1 10)))))
  else if equals key (text_of "core") then
    once CoreSeen seen (fun seen => a_number value 3 (text_of "core is a decimal core index") (fun core =>
      inr (seen, with_core (with_has_core e true) core)))
  else if equals key (text_of "device_id") then
    once DeviceIdSeen seen (fun seen =>
      if bool_decide (DeviceSeen ∈ seen) then inl (text_of "device_id and device cannot both be declared")
      else a_number value 3 (text_of "device_id is a small decimal number, or 0 for none") (fun n =>
        inr (seen, with_device_id e n)))
  else if equals key (text_of "device") then
    once DeviceSeen seen (fun seen =>
      if bool_decide (DeviceIdSeen ∈ seen) then inl (text_of "device_id and device cannot both be declared")
      else if zlen value =? 0 then inl (text_of "device is the devicetree's name for the device (its compatible)")
      else inr (seen, with_device e (Some value)))
  else if equals key (text_of "authority") then
    once AuthoritySeen seen (fun seen =>
      let e := with_authority_text e (Some value) in
      if equals value (text_of "system") then inr (seen, with_authority e System)
      else if equals value (text_of "user") then inr (seen, with_authority e User)
      else inl (text_of "authority is either `system` or `user`"))
  else inl (text_of "unknown key").

Definition apply_key (seen : list Flag) (e : Entry) (key value : View) : outcome :=
  match bound view_keys key with
  | Some k =>
    match get_view k (views e) with
    | Some _ => inl twice
    | None => inr (seen, with_views e (set_view k (Some value) (views e)))
    end
  | None =>
    if equals key (text_of "device_manager") then
      once DeviceManagerSeen seen (true_or_false value (with_device_manager e) (text_of "device_manager is either `true` or `false`"))
    else if equals key (text_of "initrd") then
      once InitrdSeen seen (true_or_false value (with_initrd e) (text_of "initrd is either `true` or `false`"))
    else if equals key (text_of "maps") then
      once MapsSeen seen (true_or_false value (with_maps e) (text_of "maps is either `true` or `false`"))
    else if equals key (text_of "memory") then
      once MemorySeen seen (fun seen =>
        if equals value (text_of "rest") then inr (seen, with_memory_rest e true)
        else inl (text_of "memory is `rest`, the untypeds the boot did not spend"))
    else if equals key (text_of "memory_kib") then
      once MemorySeen seen (fun seen => a_number value 6 (text_of "memory_kib is a decimal number of KiB") (fun kib =>
        if kib =? 0 then inl (text_of "memory_kib of zero asks for nothing; leave the key out")
        else inr (seen, with_memory_kib e (round_up 32 1 kib (Z.shiftl 1 20)))))
    else if equals key (text_of "stack_kib") then
      once StackSeen seen (fun seen => a_number value 6 (text_of "stack_kib is a decimal number of KiB") (fun kib =>
        if kib =? 0 then inl (text_of "stack_kib of zero asks for nothing; leave the key out")
        else inr (seen, with_stack_kib e (Z.land (u32 (kib + 3)) (2 ^ 32 - 4)))))
    else if equals key (text_of "cspace_bits") then
      once CspaceSeen seen (fun seen => a_number value 2 (text_of "cspace_bits is a decimal number of slot-bits") (fun bits =>
        if (bits <? 10) || (30 <? bits) then inl (text_of "cspace_bits is between 10 and 30")
        else inr (seen, with_cspace_bits e bits)))
    else apply_later_key seen e key value
  end.

(** * The two passes *)

(** The first pass's count of section lines. *)
Definition count_sections (text : View) : Z :=
  zlen (List.filter (fun line => is_section_header (trim line)) (lines text)).

(** The second pass: the sections before the current one, and the current one,
    which [current] points at. *)
Record Pass := mkPass { format_seen : bool; before : list Entry; current : option Entry; seen_flags : list Flag }.
Definition filled (p : Pass) : list Entry := before p ++ option_list (current p).
Definition find (name : View) (es : list Entry) : option Entry := List.find (fun e => same (entry_name e) name) es.

Definition pass_line (capacity : Z) (p : Pass) (text : View) (number : Z) : View + Pass :=
  let line := trim text in
  if (zlen line =? 0) || (byte_at line 0 =? 35) then inr p
  else if is_section_header line then
    match section_name line with
    | None => inl (text_of "a section header must be [name]")
    | Some name =>
      if negb (format_seen p) then inl (text_of "`format` must come before the first section")
      else
        match find name (filled p) with
        | Some _ => inl (text_of "this section appears twice")
        | None =>
          if capacity <=? zlen (filled p) then inl (text_of "more sections were found than the first pass saw")
          else inr (mkPass (format_seen p) (filled p) (Some (blank_entry name number)) [])
        end
    end
  else
    match split line with
    | None => inl (text_of "expected `key = value`, or a [section]")
    | Some (key, value) =>
      match current p with
      | None =>
        if negb (equals key (text_of "format")) then inl (text_of "only `format` may come before the first section")
        else if negb (equals value (text_of "1")) then inl (text_of "this is not a manifest version this director understands")
        else inr (mkPass true (before p) None (seen_flags p))
      | Some e =>
        match apply_key (seen_flags p) e key value with
        | inl why => inl why
        | inr (seen, e) => inr (mkPass (format_seen p) (before p) (Some e) seen)
        end
      end
    end.

Fixpoint second_pass (capacity : Z) (p : Pass) (ls : list View) (number : Z) : Problem + Pass :=
  match ls with
  | [] => inr p
  | line :: ls =>
    match pass_line capacity p line number with
    | inl why => inl (mkProblem number why)
    | inr p => second_pass capacity p ls (u32 (number + 1))
    end
  end.

(** The fields every section must have, in the order they are asked for. *)
Fixpoint check_fields (es : list Entry) : option Problem :=
  match es with
  | [] => None
  | e :: es =>
    match get_view Binary (views e), get_view Account (views e), authority_text e with
    | None, _, _ => Some (mkProblem (line e) (text_of "this service has no `binary`"))
    | Some _, None, _ => Some (mkProblem (line e) (text_of "this service has no `account`"))
    | Some _, Some _, None => Some (mkProblem (line e) (text_of "this service has no `authority`"))
    | Some _, Some _, Some _ => check_fields es
    end
  end.

(** [Manifest::parse] on a fresh object: the entries, or the problem.  [memory]
    is whether the arena has room for the array of that many entries. *)
Definition parse (memory : Z -> bool) (text : option View) : Problem + list Entry :=
  match text with
  | None | Some [] => inl (mkProblem 1 (text_of "the manifest is empty"))
  | Some t =>
    let sections := count_sections t in
    if (0 <? sections) && negb (memory sections) then inl (mkProblem 1 (text_of "no memory for the manifest's entries"))
    else
      match second_pass sections (mkPass false [] None []) (lines t) 1 with
      | inl problem => inl problem
      | inr p =>
        if negb (format_seen p) then inl (mkProblem 1 (text_of "`format` is missing"))
        else match check_fields (filled p) with Some problem => inl problem | None => inr (filled p) end
      end
  end.

(** * Numbers *)

Lemma small_digits_range value : forall n m,
  small_digits value n = Some m -> 0 <= n -> (n + 1) * 10 ^ zlen value <= 2 ^ 32 -> 0 <= m < (n + 1) * 10 ^ zlen value.
Proof.
  induction value as [|c value IH]; intros n m; cbn [small_digits]; [intros [= <-] Hn _; change (10 ^ zlen []) with 1; lia|].
  destruct ((c <? 48) || (57 <? c)) eqn:Ec; [discriminate|]. breflect. intros Hm Hn Hb. rewrite zlen_cons in *. pose proof (zlen_nonneg value).
  replace (10 ^ (1 + zlen value)) with (10 * 10 ^ zlen value) in * by (rewrite Z.pow_add_r by lia; reflexivity). assert (Hp : 0 < 10 ^ zlen value) by (apply Z.pow_pos_nonneg; lia).
  rewrite u32_small in Hm by nia. specialize (IH _ _ Hm ltac:(lia) ltac:(nia)). nia.
Qed.

Lemma small_number_range value max n : small_number value max = Some n -> 0 <= max <= 9 -> 0 <= n < 10 ^ max.
Proof.
  unfold small_number. destruct ((zlen value =? 0) || (max <? zlen value)) eqn:E; [discriminate|]. breflect. intros Hn Hm. pose proof (zlen_nonneg value).
  assert (Hle : 10 ^ zlen value <= 10 ^ max) by (apply Z.pow_le_mono_r; lia). assert (10 ^ max <= 10 ^ 9) by (apply Z.pow_le_mono_r; lia).
  pose proof (small_digits_range value 0 n Hn ltac:(lia) ltac:(lia)). lia.
Qed.

(** The rounding gives the least power of two not below the request, cut off at
    the limit. *)
Lemma round_up_power limit wanted n : 0 <= limit <= 31 -> forall k,
  0 <= k <= limit -> limit < k + Z.of_nat n -> 
  exists j, round_up n (2 ^ k) wanted (2 ^ limit) = 2 ^ j /\ k <= j <= limit /\ (wanted <= 2 ^ j \/ j = limit) /\ (j = k \/ 2 ^ (j - 1) < wanted).
Proof.
  intros Hl. induction n as [|n IH]; intros k Hk Hn; [lia|]. cbn [round_up].
  destruct (Z.ltb_spec (2 ^ k) wanted) as [Hw|Hw]; [|exists k; splits; auto; lia].
  destruct (Z.ltb_spec (2 ^ k) (2 ^ limit)) as [Hlim|Hlim]; cbn [andb].
  - assert (k < limit) by (apply (Z.pow_lt_mono_r_iff 2); lia). rewrite Z.shiftl_mul_pow2 by lia. change (2 ^ 1) with 2.
    replace (2 ^ k * 2) with (2 ^ (k + 1)) by (rewrite Z.pow_add_r by lia; reflexivity).
    assert (0 < 2 ^ (k + 1) <= 2 ^ 31) by (split; [apply Z.pow_pos_nonneg|apply Z.pow_le_mono_r]; lia). rewrite u32_small by lia.
    destruct (IH (k + 1) ltac:(lia) ltac:(lia)) as (j & Ej & Hj & Hc & Hd). exists j. splits; auto; try lia.
    right. destruct Hd as [->|Hd]; [replace (k + 1 - 1) with k by lia; exact Hw|exact Hd].
  - exists k. assert (limit <= k) by (apply (Z.pow_le_mono_r_iff 2); lia). splits; auto; lia.
Qed.

(** * Sections *)

(** What a section's fields are, whatever its lines were; [seen] has the keys of
    which one excludes another. *)
Record entry_ok (seen : list Flag) (e : Entry) : Prop := {
  eo_name : entry_name e <> [];
  eo_memory : memory_kib e = 0 \/ exists k, 0 <= k <= 20 /\ memory_kib e = 2 ^ k;
  eo_rest : memory_rest e = true -> memory_kib e = 0;
  eo_stack : 0 <= stack_kib e < 2 ^ 20 /\ stack_kib e mod 4 = 0;
  eo_cspace : cspace_bits e = 0 \/ 10 <= cspace_bits e <= 30;
  eo_delegate : delegate_mib e = 0 \/ exists k, 0 <= k <= 10 /\ delegate_mib e = 2 ^ k;
  eo_core : 0 <= core e < 1000;
  eo_device_id : 0 <= device_id e < 1000;
  eo_device : device e = None \/ device_id e = 0;
  eo_device_name : device e <> Some [];
  eo_memory_seen : MemorySeen ∈ seen \/ memory_kib e = 0 /\ memory_rest e = false;
  eo_device_seen : DeviceSeen ∈ seen \/ device e = None;
  eo_device_id_seen : DeviceIdSeen ∈ seen \/ device_id e = 0;
}.

Ltac ecbn := cbn [entry_name views authority_text device authority device_manager device_id memory_kib memory_rest stack_kib cspace_bits delegate_mib has_core core initrd maps line blank_entry
  with_views with_authority_text with_device with_authority with_device_manager with_device_id with_memory_kib with_memory_rest with_stack_kib with_cspace_bits with_delegate_mib with_has_core with_core with_initrd with_maps] in *.

Lemma blank_ok name number : name <> [] -> entry_ok [] (blank_entry name number).
Proof. intros Hn. split; ecbn; auto; try lia; try discriminate. split; [lia|reflexivity]. Qed.

Lemma stack_rounding kib : 0 <= kib < 10 ^ 6 -> 0 <= Z.land (u32 (kib + 3)) (2 ^ 32 - 4) < 2 ^ 20 /\ Z.land (u32 (kib + 3)) (2 ^ 32 - 4) mod 4 = 0.
Proof. intros Hk. rewrite u32_small by lia. rewrite land_word by lia. zlia. Qed.

Ltac entry_case := match goal with
  | H : (match ?x with _ => _ end) = inr _ |- _ => destruct x eqn:?
  | H : inl _ = inr _ |- _ => discriminate H
  end.

Lemma rounded_memory kib : exists k, 0 <= k <= 20 /\ round_up 32 1 kib (Z.shiftl 1 20) = 2 ^ k.
Proof. destruct (round_up_power 20 kib 32 ltac:(lia) 0 ltac:(lia) ltac:(lia)) as (j & E & Hj & _). exists j. split; [lia|exact E]. Qed.

Lemma rounded_delegate mib : exists k, 0 <= k <= 10 /\ round_up 32 1 mib (Z.shiftl 1 10) = 2 ^ k.
Proof. destruct (round_up_power 10 mib 32 ltac:(lia) 0 ltac:(lia) ltac:(lia)) as (j & E & Hj & _). exists j. split; [lia|exact E]. Qed.

#[local] Opaque round_up.
Ltac later := match goal with
  | H : ?f ∈ ?s \/ _ |- ?f ∈ _ :: ?s \/ _ => destruct H; [left; now apply list_elem_of_further|right; assumption]
  | |- ?f ∈ ?f :: _ \/ _ => left; apply list_elem_of_here
  end.

Lemma apply_key_ok seen e key value seen' e' :
  entry_ok seen e -> apply_key seen e key value = inr (seen', e') -> entry_ok seen' e' /\ entry_name e' = entry_name e.
Proof.
  intros He H. unfold apply_key, apply_later_key, once, true_or_false, a_number in H. destruct He. repeat entry_case;
    repeat match goal with E : bool_decide _ = false |- _ => apply bool_decide_eq_false in E end;
    try match goal with E : small_number _ _ = Some ?n |- _ => apply small_number_range in E; [|lia] end;
    injection H as <- <-; (split; [|reflexivity]); split; ecbn; first [assumption | later | idtac].
  - intros _. destruct eo_memory_seen0 as [Hin|[Hz _]]; [contradiction|exact Hz].
  - right. apply rounded_memory.
  - intros Hrest. destruct eo_memory_seen0 as [Hin|[_ Hf]]; [contradiction|congruence].
  - now apply stack_rounding.
  - right. breflect. lia.
  - right. apply rounded_delegate.
  - left. destruct eo_device_seen0 as [Hin|Hd]; [|exact Hd]. exfalso.
    match goal with E : DeviceSeen ∉ _ |- _ => apply E end. now apply list_elem_of_further.
  - right. destruct eo_device_id_seen0 as [Hin|Hd]; [|exact Hd]. exfalso.
    match goal with E : DeviceIdSeen ∉ _ |- _ => apply E end. now apply list_elem_of_further.
  - intros [= ->]. discriminate.
Qed.

(** * The passes *)

Definition overflow_message : View := text_of "more sections were found than the first pass saw".

(** The sections so far are well formed, each named once, and the array has room
    for the section lines still to come. *)
Record pass_ok (capacity : Z) (p : Pass) (ls : list View) : Prop := {
  po_before : Forall (fun e => exists seen, entry_ok seen e) (before p);
  po_current : match current p with Some e => entry_ok (seen_flags p) e | None => True end;
  po_names : NoDup (map entry_name (filled p));
  po_room : zlen (filled p) + zlen (List.filter (fun line => is_section_header (trim line)) ls) <= capacity;
}.

Lemma pass_ok_filled capacity p ls : pass_ok capacity p ls -> Forall (fun e => exists seen, entry_ok seen e) (filled p).
Proof. intros [Hb Hc _ _]. unfold filled. apply Forall_app_2; [exact Hb|]. destruct (current p); cbn; repeat constructor. eauto. Qed.

Lemma find_none name es : find name es = None -> name ∉ map entry_name es.
Proof.
  intros Hf Hin. apply list_elem_of_fmap in Hin as (e & -> & He). apply list_elem_of_In in He.
  pose proof (List.find_none _ _ Hf e He) as Hs. cbn in Hs. rewrite same_spec, bool_decide_eq_true_2 in Hs by reflexivity. discriminate.
Qed.

Lemma apply_key_message seen e key value why : apply_key seen e key value = inl why -> why <> overflow_message.
Proof.
  intros H. unfold apply_key, apply_later_key, once, true_or_false, a_number in H.
  repeat match type of H with (match ?x with _ => _ end) = inl _ => destruct x; [..|] | inr _ = inl _ => discriminate H end;
    try discriminate H; injection H as <-; vm_compute; discriminate.
Qed.

Lemma section_name_some line name : section_name line = Some name -> name <> [].
Proof.
  unfold section_name. destruct (_ || _); [discriminate|]. cbv zeta. destruct (Z.eqb_spec (zlen (trim (take (length line - 2) (drop 1 line)))) 0) as [|Hne]; [discriminate|].
  intros [= <-] E. now rewrite E in Hne.
Qed.

Lemma pass_line_ok capacity p text ls number :
  pass_ok capacity p (text :: ls) ->
  match pass_line capacity p text number with inl why => why <> overflow_message | inr p' => pass_ok capacity p' ls end.
Proof.
  intros Hp. pose proof (pass_ok_filled _ _ _ Hp) as Hall. destruct Hp as [Hb Hc Hn Hr]. cbn [List.filter] in Hr. unfold pass_line. cbv zeta.
  assert (Hle : zlen (filled p) + zlen (List.filter (fun line => is_section_header (trim line)) ls) <= capacity)
    by (destruct (is_section_header (trim text)); [rewrite zlen_cons in Hr|]; lia).
  destruct (_ || _); [split; auto|]. destruct (is_section_header (trim text)).
  - destruct (section_name (trim text)) as [name|] eqn:En; [|vm_compute; discriminate]. destruct (negb (format_seen p)); [vm_compute; discriminate|].
    destruct (find name (filled p)) eqn:Ef; [vm_compute; discriminate|]. rewrite zlen_cons in Hr.
    pose proof (zlen_nonneg (List.filter (fun line => is_section_header (trim line)) ls)). rewrite (proj2 (Z.leb_gt _ _)) by lia. split; auto.
    + cbn [current seen_flags]. apply blank_ok. now apply section_name_some in En.
    + unfold filled at 1. cbn [before current option_list]. rewrite map_app. apply NoDup_app. splits; [exact Hn| |apply NoDup_singleton].
      intros x Hx Hin. apply list_elem_of_singleton in Hin as ->. now apply find_none in Ef.
    + set (e := blank_entry name number). change (filled (mkPass (format_seen p) (filled p) (Some e) [])) with (filled p ++ [e]). unfold zlen in *. rewrite length_app. cbn [length]. lia.
  - destruct (split (trim text)) as [[key value]|]; [|vm_compute; discriminate]. unfold filled in *. destruct (current p) as [e|] eqn:Ec.
    + destruct (apply_key (seen_flags p) e key value) as [why|[seen e']] eqn:Ek; [now apply apply_key_message in Ek|].
      apply (apply_key_ok _ _ _ _ _ _ Hc) in Ek as [He Hname]. change (option_list (Some e)) with [e] in *. split; unfold filled; cbn [before current seen_flags]; change (option_list (Some e')) with [e']; auto.
      * rewrite map_app in *. cbn [map] in *. now rewrite Hname.
      * unfold zlen in *. rewrite length_app in *. exact Hle.
    + destruct (negb _); [vm_compute; discriminate|]. destruct (negb _); [vm_compute; discriminate|]. split; auto.
Qed.

Lemma second_pass_ok capacity ls : forall p number,
  pass_ok capacity p ls ->
  match second_pass capacity p ls number with inl problem => message problem <> overflow_message | inr p' => pass_ok capacity p' [] end.
Proof.
  induction ls as [|l ls IH]; intros p number Hp; cbn [second_pass]; [exact Hp|]. pose proof (pass_line_ok capacity p l ls number Hp) as Hl.
  destruct (pass_line capacity p l number) as [why|p']; [exact Hl|now apply IH].
Qed.

(** The fields a service must have. *)
Definition has_fields (e : Entry) : Prop :=
  is_Some (get_view Binary (views e)) /\ is_Some (get_view Account (views e)) /\ is_Some (authority_text e).

Lemma check_fields_ok es : match check_fields es with None => Forall has_fields es | Some problem => message problem <> overflow_message end.
Proof.
  induction es as [|e es IH]; cbn [check_fields]; [constructor|].
  destruct (get_view Binary (views e)) eqn:E1, (get_view Account (views e)) eqn:E2, (authority_text e) eqn:E3; try (vm_compute; discriminate).
  destruct (check_fields es); [exact IH|]. constructor; [|exact IH]. unfold has_fields. rewrite E1, E2, E3. eauto.
Qed.

Lemma start_ok t : pass_ok (count_sections t) (mkPass false [] None []) (lines t).
Proof.
  split; [constructor|exact I|apply NoDup_nil; exact I|]. change (zlen (filled (mkPass false [] None []))) with 0. unfold count_sections. lia.
Qed.

(** C31: What the manifest parser accepts is well formed, whatever the text.
    Every section is named, once, and has its binary, account and authority;
    its memory is a power of two or the rest, not both, its stack whole pages,
    its CSpace between 10 and 30 bits, and it names a device or a device id,
    not both.  And the array the first pass sized is never outgrown: the
    sections accepted fit it, and no text is refused for having more sections
    than it. *)
Theorem manifest_parse_sound (memory : Z -> bool) (text : View) :
  match parse memory (Some text) with
  | inr es =>
    Forall (fun e => (exists seen, entry_ok seen e) /\ has_fields e) es /\ NoDup (map entry_name es) /\ zlen es <= count_sections text
  | inl problem => message problem <> overflow_message
  end.
Proof.
  unfold parse. destruct text as [|c text]; [vm_compute; discriminate|]. set (t := c :: text). cbv zeta.
  destruct (_ && _); [vm_compute; discriminate|].
  pose proof (second_pass_ok _ _ _ 1 (start_ok t)) as Hp. destruct (second_pass _ _ _ _) as [problem|p]; [exact Hp|].
  destruct (negb (format_seen p)); [vm_compute; discriminate|]. pose proof (check_fields_ok (filled p)) as Hf.
  destruct (check_fields (filled p)); [exact Hf|]. splits.
  - rewrite Forall_forall in *. intros e He. split; [|now apply Hf]. pose proof (pass_ok_filled _ _ _ Hp) as Ha. rewrite Forall_forall in Ha. now apply Ha.
  - apply Hp.
  - pose proof (po_room _ _ _ Hp) as Hr. change (zlen (List.filter _ [])) with 0 in Hr. lia.
Qed.

(** * Examples *)

Module SampleManifest.
Definition manifest (extra : String.string) : View :=
  concat (map (fun s => text_of s ++ [10])
    ["# services"; "format = 1"; "[disk]"; "binary = aegir-disk"; "account = drivers"; "authority = system"; "memory_kib = 5"; extra]).
Definition fields (r : Problem + list Entry) : list (Z * Z) := match r with inr es => map (fun e => (memory_kib e, delegate_mib e)) es | inl _ => [] end.
End SampleManifest.

(** Five KiB become eight; but more than a gigabyte to delegate is cut to one,
    where the other request is rounded up. *)
Lemma delegate_rounds_down :
  SampleManifest.fields (parse (fun _ => true) (Some (SampleManifest.manifest "delegate_mib = 100"))) = [(8, 128)] /\
  SampleManifest.fields (parse (fun _ => true) (Some (SampleManifest.manifest "delegate_mib = 2000"))) = [(8, 1024)].
Proof. vm_compute. auto. Qed.

(** A key with nothing after its sign counts as declared. *)
Lemma empty_binary_accepted :
  match parse (fun _ => true) (Some (text_of "format = 1" ++ [10] ++ text_of "[x]" ++ [10] ++ text_of "binary =" ++ [10] ++ text_of "account = a" ++ [10] ++
    text_of "authority = user")) with
  | inr [e] => get_view Binary (views e)
  | _ => None
  end = Some [].
Proof. vm_compute. reflexivity. Qed.
