(* ===== verification/Pipe.v ===== *)
(** The pipe service (apps/freestanding/aegir-fs-pipe, src/main.cc): the volume
    PIPE: of named byte pipes.  Its tables of pipes and handles, its buffers in
    chunks with their free list, and every method of the volume protocol.  The
    theorem: the service acts as a map from names to byte strings. *)
From stdpp Require Import base numbers list gmap.
From Stdlib Require Import ZArith Lia.
From S2P Require Import Prelude Layout Slots Wire.

(** * State *)

Definition kPipeNameMax : Z := 32.
Definition kChunkBytes : Z := 4096.
Definition kChunkData : Z := kChunkBytes - 4.
Definition kHandleRead : Z := 0.
Definition kHandleWrite : Z := 1.

Record Pipe := mkPipe {
  used : bool;
  writer_open : bool;
  reader_open : bool;
  reader_ever : bool;
  open_count : Z;
  p_size : Z;
  first_chunk : Z;
  last_chunk : Z;
  last_used : Z;
  name_length : Z;
  p_name : bytes;
}.

Record Handle := mkHandle {
  h_serial : Z;
  h_badge : Z;
  h_pipe : Z;
  h_kind : Z;
}.

(** The globals: the tables, whose capacities are their lengths, the chunks of
    [kChunkBytes] bytes each, the first free one and the last serial given. *)
Record Service := mkService {
  g_pipes : list Pipe;
  g_handles : list Handle;
  g_chunks : list bytes;
  g_free_head : Z;
  g_handle_serial : Z;
}.

Definition with_pipes (s : Service) (l : list Pipe) : Service :=
  mkService l (g_handles s) (g_chunks s) (g_free_head s) (g_handle_serial s).
Definition with_handles (s : Service) (l : list Handle) (serial : Z) : Service :=
  mkService (g_pipes s) l (g_chunks s) (g_free_head s) serial.
Definition with_chunks (s : Service) (l : list bytes) (head : Z) : Service :=
  mkService (g_pipes s) (g_handles s) l head (g_handle_serial s).

(** The fields a write or a cut changes. *)
Definition with_buffer (p : Pipe) (size first last lused : Z) : Pipe :=
  mkPipe (used p) (writer_open p) (reader_open p) (reader_ever p) (open_count p) size first last lused (name_length p) (p_name p).

(** * Chunks *)

(** [chunk_data (index1)], the chunk as a buffer. *)
Definition chunk_data (s : Service) (index1 : Z) : bytes := nth (Z.to_nat (index1 - 1)) (g_chunks s) [].
Definition set_chunk (s : Service) (index1 : Z) (b : bytes) : Service :=
  with_chunks s (<[Z.to_nat (index1 - 1) := b]> (g_chunks s)) (g_free_head s).

(** The link of a free chunk is its first four bytes. *)
Definition free_next (s : Service) (index1 : Z) : Z := le_num (slice (chunk_data s index1) 0 4).

Definition chunk_alloc (s : Service) : Z * Service :=
  if g_free_head s =? 0 then (0, s)
  else
    let index := g_free_head s - 1 in
    (index + 1, with_chunks s (g_chunks s) (free_next s (index + 1))).

Definition chunk_free (s : Service) (index1 : Z) : Service :=
  let s := set_chunk s index1 (blit (chunk_data s index1) 0 (le_split 4 (g_free_head s))) in
  with_chunks s (g_chunks s) index1.

Definition chunk_next (s : Service) (index1 : Z) : Z := le_num (slice (chunk_data s index1) kChunkData 4).
Definition chunk_set_next (s : Service) (index1 next : Z) : Service :=
  set_chunk s index1 (blit (chunk_data s index1) kChunkData (le_split 4 next)).

(** [sizeof(Pipe)] and [sizeof(Handle)] *)
Definition kPipeBytes : Z := 64.
Definition kHandleBytes : Z := 24.

(** The loop of [memory_init] over the chunks, from the last to the first. *)
Fixpoint link_free (n : nat) (chunks : list bytes) (head : Z) : list bytes * Z :=
  match n with
  | O => (chunks, head)
  | S i => link_free i (<[i := blit (nth i chunks []) 0 (le_split 4 head)]> chunks) (Z.of_nat i + 1)
  end.

Definition no_pipe : Pipe := mkPipe false false false false 0 0 0 0 0 0 (zeros kPipeNameMax).
Definition no_handle : Handle := mkHandle 0 0 0 0.

Definition memory_init (bytes : Z) : Service :=
  let meta_bytes := bytes / 4 in
  let pipe_capacity := meta_bytes / 2 / kPipeBytes in
  let handle_capacity := (meta_bytes - pipe_capacity * kPipeBytes) / kHandleBytes in
  let chunk_count := (bytes - meta_bytes) / kChunkBytes in
  let '(chunks, head) := link_free (Z.to_nat chunk_count) (replicate (Z.to_nat chunk_count) (zeros kChunkBytes)) 0 in
  mkService (replicate (Z.to_nat pipe_capacity) no_pipe) (replicate (Z.to_nat handle_capacity) no_handle) chunks head 0.

(** * Pipes *)

(** The name's bytes. *)
Definition pipe_name (p : Pipe) : bytes := slice (p_name p) 0 (name_length p).

Definition named (name : bytes) (p : Pipe) : bool :=
  used p && (name_length p =? zlen name) && bool_decide (pipe_name p = name).

Definition pipe_find (s : Service) (name : bytes) : option nat :=
  if (zlen name =? 0) || (kPipeNameMax <? zlen name) then None
  else first_slot (named name) (g_pipes s).

Definition fresh_pipe (old : Pipe) (name : bytes) : Pipe :=
  mkPipe true false false false 0 0 0 0 0 (zlen name) (blit (p_name old) 0 name).

Definition pipe_make (s : Service) (name : bytes) : option nat * Service :=
  if (zlen name =? 0) || (kPipeNameMax <? zlen name) then (None, s)
  else
    match pipe_find s name with
    | Some i => (Some i, s)
    | None =>
      match first_slot (fun p => negb (used p)) (g_pipes s) with
      | Some i => (Some i, with_pipes s (alter (fun p => fresh_pipe p name) i (g_pipes s)))
      | None => (None, s)
      end
    end.

(** The loop that frees a chain; a chain has no more links than there are
    chunks. *)
Fixpoint free_chain (fuel : nat) (s : Service) (chunk : Z) : Service :=
  match fuel with
  | O => s
  | S fuel =>
    if chunk =? 0 then s
    else
      let next := chunk_next s chunk in
      free_chain fuel (chunk_free s chunk) next
  end.
Definition chain_fuel (s : Service) : nat := S (length (g_chunks s)).

(** The chain freed and the fields that name it cleared. *)
Definition pipe_cut (s : Service) (i : nat) (p : Pipe) : Service :=
  let s := free_chain (chain_fuel s) s (first_chunk p) in
  with_pipes s (<[i := with_buffer p 0 0 0 0]> (g_pipes s)).

Definition pipe_release (s : Service) (i : nat) (p : Pipe) : Service :=
  let s := free_chain (chain_fuel s) s (first_chunk p) in
  with_pipes s (<[i := mkPipe false (writer_open p) (reader_open p) (reader_ever p) (open_count p) 0 0 0 0 0 (p_name p)]> (g_pipes s)).

(** The part of a turn that gives the pipe a chunk with room; [None] when there
    is none. *)
Definition pipe_room (s : Service) (p : Pipe) : option (Service * Pipe) :=
  if last_chunk p =? 0 then
    let '(chunk, s) := chunk_alloc s in
    if chunk =? 0 then None
    else Some (chunk_set_next s chunk 0, with_buffer p (p_size p) chunk chunk 0)
  else if last_used p =? kChunkData then
    let '(chunk, s) := chunk_alloc s in
    if chunk =? 0 then None
    else
      let s := chunk_set_next s chunk 0 in
      let s := chunk_set_next s (last_chunk p) chunk in
      Some (s, with_buffer p (p_size p) (first_chunk p) chunk 0)
  else Some (s, p).

(** Every turn takes at least a byte. *)
Fixpoint append_loop (fuel : nat) (s : Service) (p : Pipe) (data : bytes) (taken : Z) : Z * Service * Pipe :=
  match fuel with
  | O => (taken, s, p)
  | S fuel =>
    if zlen data <=? taken then (taken, s, p)
    else
      match pipe_room s p with
      | None => (taken, s, p)
      | Some (s, p) =>
        let room := kChunkData - last_used p in
        let take := if zlen data - taken <? room then zlen data - taken else room in
        let s := set_chunk s (last_chunk p) (blit (chunk_data s (last_chunk p)) (last_used p) (slice data taken take)) in
        let p := with_buffer p (p_size p + take) (first_chunk p) (last_chunk p) (last_used p + take) in
        append_loop fuel s p data (taken + take)
      end
  end.
Definition pipe_append (s : Service) (i : nat) (p : Pipe) (data : bytes) : Z * Service :=
  let '(taken, s, p) := append_loop (S (length data)) s p data 0 in
  (taken, with_pipes s (<[i := p]> (g_pipes s))).

Definition chunk_bytes (p : Pipe) (chunk : Z) : Z := if chunk =? last_chunk p then last_used p else kChunkData.

(** The first loop of [pipe_read_at]: the chunk the offset is in. *)
Fixpoint seek_chunk (fuel : nat) (s : Service) (p : Pipe) (offset chunk position : Z) : Z * Z :=
  match fuel with
  | O => (chunk, position)
  | S fuel =>
    if chunk =? 0 then (chunk, position)
    else if offset <? position + chunk_bytes p chunk then (chunk, position)
    else seek_chunk fuel s p offset (chunk_next s chunk) (position + chunk_bytes p chunk)
  end.

(** The second: [out] is what has been copied. *)
Fixpoint copy_chunks (fuel : nat) (s : Service) (p : Pipe) (offset count chunk position : Z) (out : bytes) : bytes :=
  match fuel with
  | O => out
  | S fuel =>
    let copied := zlen out in
    if (copied <? count) && negb (chunk =? 0) then
      let within := offset + copied - position in
      if chunk_bytes p chunk <=? within
      then copy_chunks fuel s p offset count (chunk_next s chunk) (position + chunk_bytes p chunk) out
      else
        let room := chunk_bytes p chunk - within in
        let take := if count - copied <? room then count - copied else room in
        copy_chunks fuel s p offset count chunk position (out ++ slice (chunk_data s chunk) within take)
    else out
  end.

(** Two turns a chunk. *)
Definition pipe_read_at (s : Service) (p : Pipe) (offset count : Z) : bytes :=
  if p_size p <=? offset then []
  else
    let '(chunk, position) := seek_chunk (chain_fuel s) s p offset (first_chunk p) 0 in
    copy_chunks (2 * chain_fuel s) s p offset count chunk position [].

(** * Handles *)

Definition handle_lookup (s : Service) (serial badge : Z) : option nat :=
  if serial =? 0 then None
  else
    match first_slot (fun h => h_serial h =? serial) (g_handles s) with
    | Some j => if h_badge (nth j (g_handles s) no_handle) =? badge then Some j else None
    | None => None
    end.

(** The new row's pipe and kind are set by the caller. *)
Definition handle_alloc (s : Service) (badge : Z) : option nat * Service :=
  match first_slot (fun h => h_serial h =? 0) (g_handles s) with
  | Some j =>
    let serial := u64 (g_handle_serial s + 1) in
    (Some j, with_handles s (alter (fun h => mkHandle serial badge (h_pipe h) (h_kind h)) j (g_handles s)) serial)
  | None => (None, s)
  end.

(** * Methods

    A reply is its words.  [stale] is what the answer's array held before: the
    code fills only the header and the bytes it copied. *)

Definition answer_words (stale : bytes) (got eof : Z) (data : bytes) : list Z :=
  words_of (blit (blit stale 0 (le_split 8 got ++ le_split 8 eof)) (8 * volume.kReadHeaderWords) data)
    (volume.kReadHeaderWords + string_words got).

Definition read_reply (stale : bytes) (s : Service) (p : Pipe) (offset wanted : Z) : list Z :=
  let wanted := if volume.kReadMax <? wanted then volume.kReadMax else wanted in
  let data := pipe_read_at s p offset wanted in
  let got := zlen data in
  answer_words stale got (if (p_size p <=? u64 (offset + got)) && negb (writer_open p) then 1 else 0) data.

Definition pipe_at (s : Service) (i : nat) : Pipe := nth i (g_pipes s) no_pipe.
Definition handle_at (s : Service) (j : nat) : Handle := nth j (g_handles s) no_handle.

Definition answer_read (stale : bytes) (s : Service) (words : list Z) : list Z :=
  if zlen words =? 0 then []
  else
    match unpack_string words kPathMax with
    | None => []
    | Some path =>
      let path_words := 1 + string_words (zlen path) in
      if zlen words <? path_words + 2 then []
      else
        match pipe_find s path with
        | None => []
        | Some i => read_reply stale s (pipe_at s i) (word words path_words) (word words (path_words + 1))
        end
    end.

Definition answer_read_handle (stale : bytes) (s : Service) (words : list Z) (badge : Z) : list Z :=
  if zlen words <? 3 then []
  else
    match handle_lookup s (word words 0) badge with
    | None => []
    | Some j =>
      let h := handle_at s j in
      if negb (h_kind h =? kHandleRead) || (h_pipe h =? 0) then []
      else read_reply stale s (pipe_at s (Z.to_nat (h_pipe h - 1))) (word words 1) (word words 2)
    end.

Definition answer_write (s : Service) (words : list Z) (badge : Z) : list Z * Service :=
  if zlen words <? 3 then ([0], s)
  else
    match handle_lookup s (word words 0) badge with
    | None => ([0], s)
    | Some j =>
      let h := handle_at s j in
      let bytes := word words 2 in
      if negb (h_kind h =? kHandleWrite) || (h_pipe h =? 0) || (volume.kWriteMax <? bytes) ||
         (zlen words <? 3 + string_words bytes) then ([0], s)
      else
        let i := Z.to_nat (h_pipe h - 1) in
        let '(written, s) := pipe_append s i (pipe_at s i) (slice (bytes_of words) 24 bytes) in
        ([written], s)
    end.

(** The pipe with one handle more. *)
Definition pipe_opened (reading : bool) (p : Pipe) : Pipe :=
  mkPipe (used p) (if reading then writer_open p else true) (if reading then true else reader_open p)
    (if reading then true else reader_ever p) (u32 (open_count p + 1)) (p_size p) (first_chunk p) (last_chunk p)
    (last_used p) (name_length p) (p_name p).

Definition answer_open (s : Service) (words : list Z) (badge : Z) : list Z * Service :=
  if zlen words =? 0 then ([0], s)
  else
    match unpack_string words kPathMax with
    | None => ([0], s)
    | Some path =>
      let path_words := 1 + string_words (zlen path) in
      if zlen words <? path_words + 1 then ([0], s)
      else
        let flags := word words path_words in
        let reading := negb (Z.land flags volume.kOpenRead =? 0) in
        match pipe_make s path with
        | (None, s) => ([0], s)
        | (Some i, s) =>
          let s := if negb reading && negb (Z.land flags volume.kOpenTruncate =? 0) then pipe_cut s i (pipe_at s i) else s in
          match handle_alloc s badge with
          | (None, s) => ([0], s)
          | (Some j, s) =>
            let kind := if reading then kHandleRead else kHandleWrite in
            let s := with_handles s (alter (fun h => mkHandle (h_serial h) (h_badge h) (Z.of_nat i + 1) kind) j (g_handles s)) (g_handle_serial s) in
            ([h_serial (handle_at s j)], with_pipes s (alter (pipe_opened reading) i (g_pipes s)))
          end
        end
    end.

(** The pipe with one handle less. *)
Definition pipe_closed (kind : Z) (p : Pipe) : Pipe :=
  mkPipe (used p) (if kind =? kHandleRead then writer_open p else false) (if kind =? kHandleRead then false else reader_open p)
    (reader_ever p) (if open_count p =? 0 then 0 else open_count p - 1) (p_size p) (first_chunk p) (last_chunk p)
    (last_used p) (name_length p) (p_name p).

Definition answer_close (s : Service) (words : list Z) (badge : Z) : list Z * Service :=
  if zlen words <? 1 then ([0], s)
  else
    match handle_lookup s (word words 0) badge with
    | None => ([0], s)
    | Some j =>
      let h := handle_at s j in
      if h_pipe h =? 0 then ([0], s)
      else
        let i := Z.to_nat (h_pipe h - 1) in
        let s := with_pipes s (alter (pipe_closed (h_kind h)) i (g_pipes s)) in
        let s := with_handles s (alter (fun h => mkHandle 0 (h_badge h) 0 (h_kind h)) j (g_handles s)) (g_handle_serial s) in
        let p := pipe_at s i in
        ([1], if reader_ever p && (open_count p =? 0) then pipe_release s i p else s)
    end.

Definition answer_stat (words : list Z) : list Z :=
  if zlen words =? 0 then []
  else
    match unpack_string words kPathMax with
    | None => []
    | Some path => [if zlen path =? 0 then volume.kKindDir else volume.kKindFile; 0; 0; 0]
    end.

(** One turn of the service's loop: the reply to a call. *)
Definition serve (stale : bytes) (s : Service) (method : Z) (words : list Z) (badge : Z) : list Z * Service :=
  if method =? volume.kMethodRead then (answer_read stale s words, s)
  else if method =? volume.kMethodReadHandle then (answer_read_handle stale s words badge, s)
  else if method =? volume.kMethodWrite then answer_write s words badge
  else if method =? volume.kMethodOpen then answer_open s words badge
  else if method =? volume.kMethodClose then answer_close s words badge
  else if method =? volume.kMethodStat then (answer_stat words, s)
  else if method =? volume.kMethodList then ([], s)
  else if (method =? volume.kMethodMkdir) || (method =? volume.kMethodRemove) || (method =? volume.kMethodReap) ||
          (method =? volume.kMethodRename) || (method =? volume.kMethodTruncate) then ([0], s)
  else ([], s).

(** * Chains of chunks *)

(** [l] is the chain from [first] along [next]. *)
Fixpoint linked (next : Z -> Z) (first : Z) (l : list Z) : Prop :=
  match l with
  | [] => first = 0
  | c :: l => first = c /\ c <> 0 /\ linked next (next c) l
  end.

Lemma linked_ext next next' first l :
  (forall c, c ∈ l -> next' c = next c) -> linked next first l -> linked next' first l.
Proof.
  revert first. induction l as [|c l IH]; intros first He; cbn; [auto|].
  intros (-> & Hc & Hl). splits; auto. rewrite He by set_solver. apply IH; [set_solver|exact Hl].
Qed.

(** A chain made longer by a chunk at its end. *)
Lemma linked_extend next next' first l z c :
  linked next first (l ++ [z]) -> (forall x, x ∈ l -> next' x = next x) ->
  next' z = c -> next' c = 0 -> c <> 0 -> linked next' first (l ++ [z; c]).
Proof.
  revert first. induction l as [|x l IH]; intros first; cbn.
  - intros (-> & Hz & _) _ Hn Hc Hc0. splits; auto.
  - intros (-> & Hx & Hl) He Hn Hc Hc0. splits; auto. rewrite He by set_solver. apply IH; auto. set_solver.
Qed.

Definition in_range (s : Service) (c : Z) : Prop := 1 <= c <= zlen (g_chunks s).

(** Chunks are whole and can be numbered by a link. *)
Record memory_ok (s : Service) : Prop := {
  mo_chunks : Forall (fun b => zlen b = kChunkBytes /\ bytes_ok b) (g_chunks s);
  mo_count : zlen (g_chunks s) < 2 ^ 32;
}.

Lemma chunk_ok s c : memory_ok s -> in_range s c -> zlen (chunk_data s c) = kChunkBytes /\ bytes_ok (chunk_data s c).
Proof.
  intros [Hm _] Hc. unfold in_range, zlen in Hc. rewrite Forall_lookup in Hm.
  destruct (lookup_lt_is_Some_2 (g_chunks s) (Z.to_nat (c - 1)) ltac:(lia)) as [b Hb].
  unfold chunk_data. rewrite nth_lookup, Hb. cbn. eauto.
Qed.

(** Only chunks of [l] and the head of the free list differ. *)
Record only_chunks (s s' : Service) (l : list Z) : Prop := {
  oc_pipes : g_pipes s' = g_pipes s;
  oc_handles : g_handles s' = g_handles s;
  oc_serial : g_handle_serial s' = g_handle_serial s;
  oc_count : zlen (g_chunks s') = zlen (g_chunks s);
  oc_other : forall c, c ∉ l -> in_range s c -> chunk_data s' c = chunk_data s c;
}.

Lemma only_refl s l : only_chunks s s l.
Proof. split; auto. Qed.
Lemma only_trans s s' s'' l l' k :
  only_chunks s s' l -> only_chunks s' s'' l' -> l ⊆ k -> l' ⊆ k -> only_chunks s s'' k.
Proof.
  intros [A1 A2 A3 A4 A5] [B1 B2 B3 B4 B5] H1 H2. split; try congruence.
  intros c Hc Hr. rewrite B5, A5; [reflexivity|set_solver|exact Hr|set_solver|]. unfold in_range in *. congruence.
Qed.
Lemma only_range s s' l c : only_chunks s s' l -> in_range s' c <-> in_range s c.
Proof. intros H. unfold in_range. now rewrite (oc_count _ _ _ H). Qed.

Lemma only_forall s s' l k : only_chunks s s' l -> Forall (in_range s) k -> Forall (in_range s') k.
Proof. intros H Hk. eapply Forall_impl; [exact Hk|]. intros c. apply (only_range _ _ _ c H). Qed.

Lemma chunk_data_set s c b d :
  in_range s c -> 1 <= d -> chunk_data (set_chunk s c b) d = if c =? d then b else chunk_data s d.
Proof.
  intros Hc Hd. unfold in_range, zlen in Hc. unfold chunk_data, set_chunk, with_chunks. cbn [g_chunks].
  rewrite !nth_lookup. destruct (Z.eqb_spec c d) as [->|Hne].
  - rewrite list_lookup_insert_eq by lia. reflexivity.
  - rewrite list_lookup_insert_ne by lia. reflexivity.
Qed.

Lemma set_only s c b : in_range s c -> only_chunks s (set_chunk s c b) [c].
Proof.
  intros Hc. split; try reflexivity.
  - unfold set_chunk, with_chunks, zlen. cbn. now rewrite length_insert.
  - intros d Hd Hr. rewrite chunk_data_set by (auto; apply Hr). zcase; [set_solver|reflexivity].
Qed.

Lemma set_memory s c b : memory_ok s -> zlen b = kChunkBytes -> bytes_ok b -> memory_ok (set_chunk s c b).
Proof.
  intros [Hm Hn] Hz Hb. unfold set_chunk, with_chunks. split; cbn.
  - apply Forall_insert; auto.
  - unfold zlen in *. now rewrite length_insert.
Qed.

(** The bytes a chain holds: whole chunks, and the first [lu] of the last. *)
Definition chunk_part (s : Service) (c n : Z) : bytes := slice (chunk_data s c) 0 n.
Fixpoint chain_data (s : Service) (lu : Z) (l : list Z) : bytes :=
  match l with
  | [] => []
  | [z] => chunk_part s z lu
  | c :: l => chunk_part s c kChunkData ++ chain_data s lu l
  end.
Definition whole (s : Service) (l : list Z) : bytes := concat (map (fun c => chunk_part s c kChunkData) l).

Lemma chain_data_snoc s lu l z : chain_data s lu (l ++ [z]) = whole s l ++ chunk_part s z lu.
Proof.
  induction l as [|c l IH]; [reflexivity|]. cbn [app chain_data]. rewrite IH. unfold whole. cbn [map concat].
  destruct l; cbn [app]; rewrite <- app_assoc; reflexivity.
Qed.
Lemma chain_data_whole s l : chain_data s kChunkData l = whole s l.
Proof.
  induction l as [|c l IH]; [reflexivity|]. unfold whole in *. cbn [map concat chain_data].
  destruct l; [cbn; now rewrite app_nil_r|]. now rewrite IH.
Qed.
Lemma chain_data_ext s s' lu l :
  (forall c, c ∈ l -> chunk_data s' c = chunk_data s c) -> chain_data s' lu l = chain_data s lu l.
Proof.
  induction l as [|c l IH]; intros He; [reflexivity|]. cbn. unfold chunk_part. rewrite He by set_solver.
  destruct l as [|d l]; [reflexivity|]. f_equal. apply IH. set_solver.
Qed.
Lemma whole_ext s s' l : (forall c, c ∈ l -> chunk_data s' c = chunk_data s c) -> whole s' l = whole s l.
Proof.
  intros He. unfold whole. f_equal. apply list_fmap_ext. intros i c Hc. unfold chunk_part. f_equal. apply He.
  eapply list_elem_of_lookup_2; eauto.
Qed.
Lemma zlen_whole s l : zlen (whole s l) = kChunkData * zlen l.
Proof.
  induction l as [|c l IH]; [reflexivity|]. unfold whole in *. cbn [map concat]. rewrite zlen_app, IH, zlen_cons.
  unfold chunk_part. rewrite zlen_slice by (unfold kChunkData, kChunkBytes; lia). lia.
Qed.
Lemma zlen_chain s lu l z : 0 <= lu -> zlen (chain_data s lu (l ++ [z])) = kChunkData * zlen l + lu.
Proof. intros Hl. rewrite chain_data_snoc, zlen_app, zlen_whole. unfold chunk_part. rewrite zlen_slice; lia. Qed.

(** The pipe's fields describe the chain [l] and the bytes [d] it holds. *)
Record chain_of (s : Service) (p : Pipe) (l : list Z) (d : bytes) : Prop := {
  co_first : linked (chunk_next s) (first_chunk p) l;
  co_last : last_chunk p = default 0 (last l);
  co_used : if l is [] then True else 0 <= last_used p <= kChunkData;
  co_data : d = chain_data s (last_used p) l;
  co_size : p_size p = zlen d;
}.

(** A pipe's chunks and the free ones, all different, in sound memory. *)
Record buffers (s : Service) (p : Pipe) (free l : list Z) (d : bytes) : Prop := {
  bu_memory : memory_ok s;
  bu_free : linked (free_next s) (g_free_head s) free;
  bu_chain : chain_of s p l d;
  bu_distinct : NoDup (free ++ l);
  bu_range : Forall (in_range s) (free ++ l);
}.

Lemma chain_of_ext s s' p l d :
  (forall c, c ∈ l -> chunk_data s' c = chunk_data s c) -> chain_of s p l d -> chain_of s' p l d.
Proof.
  intros He [H1 H2 H3 H4 H5]. split; auto.
  - eapply linked_ext; [|exact H1]. intros c Hc. unfold chunk_next. now rewrite He.
  - rewrite H4. symmetry. now apply chain_data_ext.
Qed.

(** ** Links written and read *)

Lemma link_get b a v : 0 <= a -> a + 4 <= zlen b -> 0 <= v < 2 ^ 32 -> le_num (slice (blit b a (le_split 4 v)) a 4) = v.
Proof.
  intros Ha Hb Hv. rewrite slice_blit_same by (rewrite ?zlen_le_split; lia).
  rewrite le_num_split. change (256 ^ Z.of_nat 4) with (2 ^ 32). now apply Z.mod_small.
Qed.

Definition chunk_ok_b (b : bytes) : Prop := zlen b = kChunkBytes /\ bytes_ok b.
Lemma blit_chunk_ok b a src : 0 <= a -> chunk_ok_b b -> bytes_ok src -> chunk_ok_b (blit b a src).
Proof. intros Ha [Hz Hb] Hs. split; [now rewrite zlen_blit|auto with buf]. Qed.

Lemma set_next_only s c n : in_range s c -> only_chunks s (chunk_set_next s c n) [c].
Proof. intros Hc. now apply set_only. Qed.
Lemma set_next_memory s c n : memory_ok s -> in_range s c -> memory_ok (chunk_set_next s c n).
Proof.
  intros Hm Hc. destruct (blit_chunk_ok (chunk_data s c) kChunkData (le_split 4 n)) as [Hz Hb];
    [unfold kChunkData, kChunkBytes; lia|now apply chunk_ok|auto with buf|]. now apply set_memory.
Qed.
Lemma set_next_next s c n d :
  memory_ok s -> in_range s c -> 1 <= d -> 0 <= n < 2 ^ 32 ->
  chunk_next (chunk_set_next s c n) d = if c =? d then n else chunk_next s d.
Proof.
  intros Hm Hc Hd Hn. unfold chunk_next, chunk_set_next. rewrite chunk_data_set by auto. destruct (Z.eqb_spec c d) as [<-|Hne]; [|reflexivity].
  apply link_get; [unfold kChunkData, kChunkBytes; lia| |exact Hn].
  destruct (chunk_ok s c Hm Hc) as [Hz _]. rewrite Hz. unfold kChunkData, kChunkBytes. lia.
Qed.
Lemma set_next_part s c n d lu :
  in_range s c -> 1 <= d -> 0 <= lu <= kChunkData -> chunk_part (chunk_set_next s c n) d lu = chunk_part s d lu.
Proof.
  intros Hc Hd Hl. unfold chunk_part, chunk_set_next. rewrite chunk_data_set by auto. zcase; [subst|reflexivity].
  apply slice_blit_disj; unfold kChunkData, kChunkBytes in *; lia.
Qed.
Lemma set_next_chain s c n lu l :
  in_range s c -> Forall (in_range s) l -> 0 <= lu <= kChunkData -> chain_data (chunk_set_next s c n) lu l = chain_data s lu l.
Proof.
  intros Hc Hl Hu. induction l as [|d l IH]; [reflexivity|]. apply Forall_cons in Hl as [Hd Hl]. cbn.
  destruct l; [apply set_next_part; auto; apply Hd|]. rewrite set_next_part; [|auto|apply Hd|unfold kChunkData, kChunkBytes; lia].
  f_equal. auto.
Qed.
Lemma set_next_head s c n : g_free_head (chunk_set_next s c n) = g_free_head s.
Proof. reflexivity. Qed.

(** ** A chunk for the next byte *)

Definition rebuffered (p p' : Pipe) : Prop :=
  p' = with_buffer p (p_size p') (first_chunk p') (last_chunk p') (last_used p').

Lemma chunk_alloc_spec s free :
  linked (free_next s) (g_free_head s) free ->
  match free with
  | [] => chunk_alloc s = (0, s)
  | c :: free' => chunk_alloc s = (c, with_chunks s (g_chunks s) (free_next s c)) /\ c <> 0 /\ linked (free_next s) (free_next s c) free'
  end.
Proof.
  unfold chunk_alloc. destruct free as [|c free']; cbn.
  - intros ->. reflexivity.
  - intros (-> & Hc & Hl). destruct (Z.eqb_spec c 0); [lia|]. replace (c - 1 + 1) with c by lia. auto.
Qed.

(** The head of the free list is not part of a chunk. *)
Lemma with_head_data s h c : chunk_data (with_chunks s (g_chunks s) h) c = chunk_data s c.
Proof. reflexivity. Qed.

Lemma room_first s p c free d :
  buffers s p (c :: free) [] d -> last_chunk p = 0 ->
  let s1 := chunk_set_next (with_chunks s (g_chunks s) (free_next s c)) c 0 in
  buffers s1 (with_buffer p (p_size p) c c 0) free [c] d /\ only_chunks s s1 [c].
Proof.
  intros [Hm Hf Hch Hd Hr] _. rewrite app_nil_r in Hd, Hr. apply Forall_cons in Hr as [Hc Hr].
  apply NoDup_cons in Hd as [Hn Hd]. cbn in Hf. destruct Hf as (_ & Hc0 & Hf).
  set (s0 := with_chunks s (g_chunks s) (free_next s c)).
  assert (Hm0 : memory_ok s0) by (destruct Hm; now split). assert (Hc' : in_range s0 c) by exact Hc. cbv zeta.
  assert (Ho : only_chunks s (chunk_set_next s0 c 0) [c]).
  { eapply (only_trans s s0 _ [] [c]); [split; auto|now apply set_next_only| |]; set_solver. }
  split; [|exact Ho]. split.
  - now apply set_next_memory.
  - rewrite set_next_head. eapply linked_ext; [|exact Hf]. intros x Hx. unfold free_next.
    rewrite (oc_other _ _ _ Ho); [reflexivity|set_solver|]. now apply (Forall_forall (in_range s) free).
  - destruct Hch as [_ _ _ Hdt Hsz]. cbn in Hdt. subst d. split; cbn; auto.
    + splits; auto. rewrite set_next_next by (auto; first [apply Hc|lia]). rewrite Z.eqb_refl. reflexivity.
    + unfold kChunkData, kChunkBytes. lia.
  - apply NoDup_app. splits; auto; [set_solver|apply NoDup_singleton].
  - eapply only_forall; [exact Ho|]. apply Forall_app. auto.
Qed.

(** The two links that put [c] after [z]. *)
Definition spliced (s : Service) (z c : Z) : Service := chunk_set_next (chunk_set_next s c 0) z c.

Section Splice.
Context (s : Service) (z c : Z) (Hm : memory_ok s) (Hz : in_range s z) (Hc : in_range s c).
Let s1 := chunk_set_next s c 0.

Lemma splice_first : only_chunks s s1 [c] /\ memory_ok s1 /\ in_range s1 z.
Proof.
  pose proof (set_next_only s c 0 Hc) as Ho. splits; [exact Ho|now apply set_next_memory|].
  now apply (only_range _ _ _ _ Ho).
Qed.
Lemma splice_only : only_chunks s (spliced s z c) [c; z].
Proof.
  destruct splice_first as (Ho & _ & Hz1). eapply (only_trans s s1 _ [c] [z]); [exact Ho|now apply set_next_only|set_solver..].
Qed.
Lemma splice_memory : memory_ok (spliced s z c).
Proof. destruct splice_first as (_ & Hm1 & Hz1). now apply set_next_memory. Qed.
Lemma splice_next x :
  1 <= x -> chunk_next (spliced s z c) x = if z =? x then c else if c =? x then 0 else chunk_next s x.
Proof.
  intros Hx. destruct splice_first as (_ & Hm1 & Hz1). pose proof (mo_count s Hm). pose proof Hc as Hc'. unfold in_range in Hc'.
  unfold spliced. rewrite set_next_next by (auto; lia). fold s1. destruct (z =? x); [reflexivity|].
  unfold s1. now rewrite set_next_next by (auto; lia).
Qed.
Lemma splice_data lu l :
  Forall (in_range s) l -> 0 <= lu <= kChunkData -> chain_data (spliced s z c) lu l = chain_data s lu l.
Proof.
  intros Hl Hu. destruct splice_first as (Ho & _ & Hz1). unfold spliced. fold s1.
  rewrite set_next_chain; auto; [|eapply only_forall; eauto]. unfold s1. now apply set_next_chain.
Qed.

(** A full chain continued by a new, empty chunk. *)
Lemma splice_chain p l d :
  chain_of s p (l ++ [z]) d -> NoDup (c :: l ++ [z]) -> Forall (in_range s) (l ++ [z]) -> last_used p = kChunkData ->
  chain_of (spliced s z c) (with_buffer p (p_size p) (first_chunk p) c 0) ((l ++ [z]) ++ [c]) d.
Proof.
  intros [Hl Hla Hu Hdt Hsz] Hd Hr Hlu. apply NoDup_cons in Hd as [Hn Hd]. apply NoDup_app in Hd as (_ & Hd & _).
  assert (Hk : 0 <= kChunkData) by (unfold kChunkData, kChunkBytes; lia).
  split; cbn [with_buffer first_chunk last_chunk last_used p_size]; auto.
  - rewrite <- app_assoc. eapply linked_extend; [exact Hl| | | |unfold in_range in Hc; lia].
    + intros x Hx. specialize (Hd x Hx). assert (x ≠ z /\ x ≠ c) by set_solver.
      assert (in_range s x) by (apply (Forall_forall (in_range s) (l ++ [z])); [auto|set_solver]).
      rewrite splice_next by (unfold in_range in *; lia). now rewrite !(proj2 (Z.eqb_neq _ _)) by lia.
    + rewrite splice_next by apply Hz. now rewrite Z.eqb_refl.
    + rewrite splice_next by apply Hc. assert (z ≠ c) by set_solver. now rewrite (proj2 (Z.eqb_neq z c)), Z.eqb_refl by lia.
  - now rewrite last_snoc.
  - destruct (_ ++ [c]); [exact I|lia].
  - rewrite Hdt, Hlu, (chain_data_snoc _ 0 (l ++ [z])). change (chunk_part _ c 0) with (@nil Z). rewrite app_nil_r, <- chain_data_whole.
    symmetry. apply splice_data; auto; lia.
Qed.
End Splice.

Lemma room_next s p c free l z d :
  buffers s p (c :: free) (l ++ [z]) d -> last_used p = kChunkData ->
  let s2 := spliced (with_chunks s (g_chunks s) (free_next s c)) z c in
  buffers s2 (with_buffer p (p_size p) (first_chunk p) c 0) free ((l ++ [z]) ++ [c]) d /\ only_chunks s s2 [c; z].
Proof.
  intros [Hm Hf Hch Hd Hr] Hlu. cbn [app] in Hd, Hr. apply Forall_cons in Hr as [Hc Hr].
  pose proof Hd as Hd0. apply NoDup_cons in Hd as [Hn Hd]. cbn in Hf. destruct Hf as (_ & Hc0 & Hf).
  pose proof Hr as Hr'. apply Forall_app in Hr' as [Hrf Hrl].
  assert (Hz : in_range s z) by (apply (Forall_forall (in_range s) (l ++ [z])); [auto|set_solver]).
  set (s0 := with_chunks s (g_chunks s) (free_next s c)). cbv zeta.
  assert (Hm0 : memory_ok s0) by (destruct Hm; now split).
  assert (Ho : only_chunks s (spliced s0 z c) [c; z]).
  { eapply (only_trans s s0 _ [] [c; z]); [split; auto|now apply splice_only|set_solver..]. }
  apply NoDup_app in Hd as (Hdf & Hdd & Hdl). split; [|exact Ho]. split.
  - now apply splice_memory.
  - change (g_free_head (spliced s0 z c)) with (free_next s c). eapply linked_ext; [|exact Hf]. intros x Hx. unfold free_next.
    rewrite (oc_other _ _ _ Ho); [reflexivity| |now apply (Forall_forall (in_range s) free)]. specialize (Hdd x Hx). set_solver.
  - apply splice_chain; auto; [now apply (chain_of_ext s s0)|]. apply NoDup_cons. split; [set_solver|exact Hdl].
  - rewrite app_assoc. apply NoDup_app. splits; [apply NoDup_app; auto| |apply NoDup_singleton]. set_solver.
  - eapply only_forall; [exact Ho|]. rewrite app_assoc. apply Forall_app. auto.
Qed.

(** ** Appending *)

(** [pipe_room] refuses only when the last chunk is full and none is free, and
    otherwise leaves a last chunk with room. *)
Lemma pipe_room_spec s p free l d :
  buffers s p free l d ->
  match pipe_room s p with
  | None => free = [] /\ zlen d = kChunkData * zlen l
  | Some (s', p') =>
    exists free' l' z, buffers s' p' free' (l' ++ [z]) d /\ last_used p' < kChunkData /\
      free' ++ l' ++ [z] ≡ₚ free ++ l /\ only_chunks s s' (free ++ l) /\ rebuffered p p'
  end.
Proof.
  intros Hb. pose proof (bu_chain _ _ _ _ _ Hb) as Hch. pose proof (bu_free _ _ _ _ _ Hb) as Hf.
  pose proof (chunk_alloc_spec s free Hf) as Ha. unfold pipe_room.
  destruct l as [|z l _] using rev_ind.
  - pose proof (co_last _ _ _ _ Hch) as Hlast. cbn in Hlast. rewrite Hlast. cbn [Z.eqb]. destruct free as [|c free].
    + rewrite Ha. cbn. split; [reflexivity|]. rewrite (co_data _ _ _ _ Hch). reflexivity.
    + destruct Ha as (-> & Hc & _). rewrite (proj2 (Z.eqb_neq c 0)) by lia.
      destruct (room_first s p c free d Hb Hlast) as [Hb' Ho]. exists free, [], c. cbn [app]. splits; auto.
      * unfold kChunkData, kChunkBytes. cbn. lia.
      * rewrite app_nil_r. symmetry. apply Permutation_cons_append.
      * eapply (only_trans _ _ _ [c] []); [exact Ho|apply only_refl|set_solver..].
      * reflexivity.
  - pose proof (co_last _ _ _ _ Hch) as Hlast. rewrite last_snoc in Hlast. cbn in Hlast. rewrite Hlast.
    assert (Hz : in_range s z) by (apply (Forall_forall (in_range s) (free ++ l ++ [z])); [apply Hb|set_solver]).
    rewrite (proj2 (Z.eqb_neq z 0)) by (unfold in_range in Hz; lia).
    pose proof (co_used _ _ _ _ Hch) as Hu. destruct (l ++ [z]) as [|x k] eqn:El; [destruct l; discriminate|]. rewrite <- El in *. clear El x k.
    destruct (Z.eqb_spec (last_used p) kChunkData) as [E|E].
    + destruct free as [|c free].
      * rewrite Ha. cbn. split; [reflexivity|]. rewrite (co_data _ _ _ _ Hch), E, zlen_chain, zlen_app by (unfold kChunkData, kChunkBytes; lia).
        change (zlen [z]) with 1. lia.
      * destruct Ha as (-> & Hc & _). rewrite (proj2 (Z.eqb_neq c 0)) by lia. rewrite <- Hlast.
        destruct (room_next s p c free l z d Hb E) as [Hb' Ho]. rewrite Hlast. exists free, (l ++ [z]), c. splits; auto.
        -- unfold kChunkData, kChunkBytes. cbn. lia.
        -- rewrite !app_assoc. symmetry. apply (Permutation_cons_append ((free ++ l) ++ [z]) c).
        -- eapply (only_trans _ _ _ [c; z] []); [exact Ho|apply only_refl|set_solver..].
        -- reflexivity.
    + exists free, l, z. splits; auto; [lia|apply only_refl|]. unfold rebuffered. destruct p; reflexivity.
Qed.

(** The step that copies into the last chunk. *)
Lemma fill_spec s p free l z d piece :
  buffers s p free (l ++ [z]) d -> bytes_ok piece -> last_used p + zlen piece <= kChunkData ->
  let s' := set_chunk s (last_chunk p) (blit (chunk_data s (last_chunk p)) (last_used p) piece) in
  let p' := with_buffer p (p_size p + zlen piece) (first_chunk p) (last_chunk p) (last_used p + zlen piece) in
  buffers s' p' free (l ++ [z]) (d ++ piece) /\ only_chunks s s' [z].
Proof.
  intros [Hm Hf Hch Hd Hr] Hp Hroom. destruct Hch as [Hl Hlast Hu Hdt Hsz].
  rewrite last_snoc in Hlast. cbn in Hlast. rewrite Hlast. cbv zeta.
  assert (Hz : in_range s z) by (apply (Forall_forall (in_range s) (free ++ l ++ [z])); [auto|set_solver]).
  assert (Hu' : 0 <= last_used p <= kChunkData) by (destruct l; exact Hu). pose proof (zlen_nonneg piece) as H0.
  destruct (chunk_ok s z Hm Hz) as [Hzl Hzb].
  set (b := blit (chunk_data s z) (last_used p) piece).
  assert (Hbz : zlen b = kChunkBytes) by (unfold b; now rewrite zlen_blit).
  pose proof (set_only s z b Hz) as Ho. split; [|exact Ho].
  assert (Hdz : chunk_data (set_chunk s z b) z = b) by (rewrite chunk_data_set by (auto; apply Hz); now rewrite Z.eqb_refl).
  assert (Hne : forall c, c ∈ free ++ l -> chunk_data (set_chunk s z b) c = chunk_data s c).
  { intros c Hc. apply (oc_other _ _ _ Ho); [|apply (Forall_forall (in_range s) (free ++ l ++ [z])); [auto|set_solver]].
    rewrite app_assoc in Hd. apply NoDup_app in Hd as (_ & Hd & _). specialize (Hd c Hc). exact Hd. }
  split.
  - apply set_memory; auto. apply bytes_ok_blit; auto; lia.
  - eapply linked_ext; [|exact Hf]. intros c Hc. unfold free_next. now rewrite Hne by set_solver.
  - split; cbn [with_buffer first_chunk last_chunk last_used p_size].
    + eapply linked_ext; [|exact Hl]. intros c Hc. unfold chunk_next. apply elem_of_app in Hc as [Hc|Hc]; [now rewrite Hne by set_solver|].
      apply list_elem_of_singleton in Hc as ->. rewrite Hdz. unfold b. f_equal. apply slice_blit_disj; lia.
    + now rewrite last_snoc.
    + destruct (l ++ [z]); [exact I|lia].
    + rewrite Hdt, !chain_data_snoc, <- app_assoc. f_equal; [symmetry; apply whole_ext; intros c Hc; apply Hne; set_solver|].
      unfold chunk_part. rewrite Hdz. rewrite slice_split by lia. unfold b, kChunkData in *. f_equal.
      * symmetry. apply slice_blit_disj; lia.
      * symmetry. apply slice_blit_same; lia.
    + rewrite zlen_app. lia.
  - exact Hd.
  - now apply (only_forall s _ [z]).
Qed.

(** The last chunk of a chain is never empty. *)
Definition tight (p : Pipe) (l : list Z) : Prop := l <> [] -> 0 < last_used p.
Definition capacity (free l : list Z) : Z := kChunkData * zlen (free ++ l).

Lemma chain_fits s p l d : chain_of s p l d -> 0 <= zlen d <= kChunkData * zlen l.
Proof.
  intros [_ _ Hu -> _]. split; [apply zlen_nonneg|]. destruct l as [|z l _] using rev_ind; [cbn [chain_data]; unfold zlen; cbn [length]; lia|].
  assert (Hu' : 0 <= last_used p <= kChunkData) by (destruct l; exact Hu).
  rewrite zlen_chain, zlen_app by lia. change (zlen [z]) with 1. lia.
Qed.

Lemma rebuffered_trans p p' p'' : rebuffered p p' -> rebuffered p' p'' -> rebuffered p p''.
Proof. unfold rebuffered. intros H1 H2. rewrite H2. rewrite H1. reflexivity. Qed.

Lemma append_loop_spec data : bytes_ok data -> forall fuel s p taken free l d,
  buffers s p free l d -> tight p l -> 0 <= taken <= zlen data -> zlen data - taken < Z.of_nat fuel ->
  let n := Z.min (zlen data - taken) (capacity free l - zlen d) in
  exists s' p' free' l', append_loop fuel s p data taken = (taken + n, s', p') /\
    buffers s' p' free' l' (d ++ slice data taken n) /\ tight p' l' /\ free' ++ l' ≡ₚ free ++ l /\
    only_chunks s s' (free ++ l) /\ rebuffered p p'.
Proof.
  intros Hdt. induction fuel as [|fuel IH]; intros s p taken free l d Hb Ht Hk Hf; [lia|]. cbv zeta.
  pose proof (chain_fits _ _ _ _ (bu_chain _ _ _ _ _ Hb)) as Hfit. unfold capacity.
  assert (Hcap : kChunkData * zlen (free ++ l) = kChunkData * zlen free + kChunkData * zlen l) by (rewrite zlen_app; lia).
  pose proof (zlen_nonneg free) as Hf0. assert (Hpos : 0 < kChunkData) by (unfold kChunkData, kChunkBytes; lia).
  assert (Hstop : append_loop (S fuel) s p data taken = (taken, s, p) ->
    Z.min (zlen data - taken) (kChunkData * zlen (free ++ l) - zlen d) = 0 ->
    exists s' p' free' l', append_loop (S fuel) s p data taken = (taken + Z.min (zlen data - taken) (kChunkData * zlen (free ++ l) - zlen d), s', p') /\
    buffers s' p' free' l' (d ++ slice data taken (Z.min (zlen data - taken) (kChunkData * zlen (free ++ l) - zlen d))) /\ tight p' l' /\
    free' ++ l' ≡ₚ free ++ l /\ only_chunks s s' (free ++ l) /\ rebuffered p p').
  { intros -> ->. exists s, p, free, l. change (slice data taken 0) with (@nil Z). rewrite app_nil_r, Z.add_0_r.
    splits; auto; [apply only_refl|destruct p; reflexivity]. }
  cbn [append_loop] in Hstop |- *. destruct (Z.leb_spec (zlen data) taken) as [Hend|Hend]; [apply Hstop; [reflexivity|nia]|].
  pose proof (pipe_room_spec s p free l d Hb) as Hroom. destruct (pipe_room s p) as [[s1 p1]|].
  2:{ destruct Hroom as [-> Hfull]. apply Hstop; [reflexivity|]. cbn [app] in *. lia. }
  clear Hstop. destruct Hroom as (free1 & l1 & z & Hb1 & Hu1 & Hp1 & Ho1 & Hr1).
  set (take := if _ <? _ then _ else _).
  assert (Hu0 : 0 <= last_used p1) by (pose proof (co_used _ _ _ _ (bu_chain _ _ _ _ _ Hb1)) as Hu; destruct l1; apply Hu).
  assert (Htake : take = Z.min (zlen data - taken) (kChunkData - last_used p1)) by (unfold take; zcase; lia).
  assert (Hzs : zlen (slice data taken take) = take) by (rewrite zlen_slice; lia).
  destruct (fill_spec s1 p1 free1 l1 z d (slice data taken take) Hb1 ltac:(auto with buf) ltac:(lia)) as [Hb2 Ho2]. rewrite Hzs in Hb2.
  pose proof (chain_fits _ _ _ _ (bu_chain _ _ _ _ _ Hb2)) as Hfit2. rewrite zlen_app, Hzs in Hfit2.
  assert (Hlen : zlen (free1 ++ l1 ++ [z]) = zlen (free ++ l)) by (unfold zlen; f_equal; now apply Permutation_length).
  rewrite zlen_app in Hlen. pose proof (zlen_nonneg free1) as Hf1.
  edestruct (IH _ _ (taken + take) _ _ _ Hb2) as (s' & p' & free' & l' & He & Hb' & Ht' & Hp' & Ho' & Hr'); [intros _; cbn; lia|lia|lia|].
  assert (Hn : take + Z.min (zlen data - (taken + take)) (capacity free1 (l1 ++ [z]) - zlen (d ++ slice data taken take)) =
               Z.min (zlen data - taken) (kChunkData * zlen (free ++ l) - zlen d)).
  { unfold capacity. rewrite (zlen_app free1), Hlen, (zlen_app d), Hzs. unfold kChunkData, kChunkBytes in *. lia. }
  exists s', p', free', l'. rewrite He. splits; auto.
  - f_equal. f_equal. lia.
  - rewrite <- Hn, slice_split, app_assoc by lia. exact Hb'.
  - etransitivity; [exact Hp'|exact Hp1].
  - eapply only_trans; [exact Ho1| |reflexivity|].
    + eapply (only_trans _ _ _ [z] (free1 ++ l1 ++ [z]) (free1 ++ l1 ++ [z])); [exact Ho2|exact Ho'|set_solver|set_solver].
    + intros c. rewrite Hp1. auto.
  - eapply rebuffered_trans; [exact Hr1|]. eapply rebuffered_trans; [|exact Hr']. reflexivity.
Qed.

(** ** Freeing *)

Lemma chunk_free_spec s free c :
  memory_ok s -> linked (free_next s) (g_free_head s) free -> Forall (in_range s) free -> in_range s c -> c ∉ free ->
  let s' := chunk_free s c in
  memory_ok s' /\ only_chunks s s' [c] /\ linked (free_next s') (g_free_head s') (c :: free).
Proof.
  intros Hm Hf Hr Hc Hn. cbv zeta. destruct (chunk_ok s c Hm Hc) as [Hz Hb].
  set (b := blit (chunk_data s c) 0 (le_split 4 (g_free_head s))).
  assert (Ho : only_chunks s (chunk_free s c) [c]).
  { pose proof (set_only s c b Hc) as [H1 H2 H3 H4 H5]. split; auto. }
  assert (Hm' : memory_ok (set_chunk s c b)).
  { apply set_memory; [exact Hm|unfold b; now rewrite zlen_blit|unfold b; apply bytes_ok_blit; auto with buf; lia]. }
  assert (Hhead : 0 <= g_free_head s < 2 ^ 32).
  { pose proof (mo_count s Hm). destruct free as [|x free]; cbn in Hf; [lia|]. destruct Hf as (-> & _).
    apply Forall_cons in Hr as [Hx _]. unfold in_range in Hx. lia. }
  splits; [destruct Hm'; now split|exact Ho|]. cbn [linked]. splits; [reflexivity|unfold in_range in Hc; lia|].
  assert (Hnext : free_next (chunk_free s c) c = g_free_head s).
  { unfold free_next. change (chunk_data (chunk_free s c) c) with (chunk_data (set_chunk s c b) c).
    rewrite chunk_data_set by (auto; apply Hc). rewrite Z.eqb_refl. unfold b. apply link_get; [lia|rewrite Hz; unfold kChunkBytes; lia|lia]. }
  rewrite Hnext. eapply linked_ext; [|exact Hf]. intros x Hx. unfold free_next.
  rewrite (oc_other _ _ _ Ho); [reflexivity|set_solver|]. now apply (Forall_forall (in_range s) free).
Qed.

Lemma free_chain_spec l : forall fuel s first free,
  memory_ok s -> linked (chunk_next s) first l -> linked (free_next s) (g_free_head s) free ->
  NoDup (free ++ l) -> Forall (in_range s) (free ++ l) -> (length l < fuel)%nat ->
  let s' := free_chain fuel s first in
  memory_ok s' /\ only_chunks s s' l /\ linked (free_next s') (g_free_head s') (rev l ++ free).
Proof.
  induction l as [|c l IH]; intros fuel s first free Hm Hl Hf Hd Hr Hfu; cbv zeta; (destruct fuel as [|fuel]; [cbn in Hfu; lia|]);
    cbn [free_chain].
  - cbn in Hl. subst first. cbn. splits; auto. apply only_refl.
  - cbn in Hl. destruct Hl as (-> & Hc0 & Hl). rewrite (proj2 (Z.eqb_neq c 0)) by lia.
    apply Forall_app in Hr as [Hrf Hrl]. apply Forall_cons in Hrl as [Hc Hrl]. apply NoDup_app in Hd as (Hdf & Hdd & Hdl).
    apply NoDup_cons in Hdl as [Hcl Hdl].
    assert (Hcf : c ∉ free) by (intros Hcf; apply (Hdd c Hcf); set_solver).
    destruct (chunk_free_spec s free c Hm Hf Hrf Hc Hcf) as (Hm1 & Ho1 & Hf1).
    edestruct (IH fuel (chunk_free s c) (chunk_next s c) (c :: free)) as (Hm2 & Ho2 & Hf2); auto.
    + eapply linked_ext; [|exact Hl]. intros x Hx. unfold chunk_next.
      rewrite (oc_other _ _ _ Ho1); [reflexivity|set_solver|]. now apply (Forall_forall (in_range s) l).
    + cbn. apply NoDup_cons. split; [set_solver|]. apply NoDup_app. splits; auto. set_solver.
    + eapply only_forall; [exact Ho1|]. cbn. apply Forall_cons. split; [exact Hc|]. now apply Forall_app.
    + cbn in Hfu. lia.
    + splits; [exact Hm2| |].
      * eapply (only_trans _ _ _ [c] l); [exact Ho1|exact Ho2|set_solver..].
      * cbn [rev]. rewrite <- app_assoc. exact Hf2.
Qed.

(** Distinct chunks are no more than there are. *)
Lemma chain_short s l : NoDup l -> Forall (in_range s) l -> (length l < chain_fuel s)%nat.
Proof.
  intros Hd Hr. unfold chain_fuel. assert (Hsub : l ⊆+ seqZ 1 (zlen (g_chunks s))).
  { apply NoDup_submseteq; [exact Hd|]. intros c Hc. apply elem_of_seqZ.
    assert (in_range s c) as Hin by (now apply (Forall_forall (in_range s) l)). unfold in_range in Hin. lia. }
  apply submseteq_length in Hsub. rewrite length_seqZ in Hsub. unfold zlen in Hsub. lia.
Qed.

(** ** Reading *)

(** [n] bytes of [d] from [off], or as many as there are. *)
Definition window (d : bytes) (off n : Z) : bytes := take (Z.to_nat n) (drop (Z.to_nat off) d).

Lemma zlen_window d off n : 0 <= off -> 0 <= n -> zlen (window d off n) = Z.min n (Z.max 0 (zlen d - off)).
Proof. intros Ho Hn. unfold window, zlen. rewrite length_take, length_drop. lia. Qed.
Lemma window_nil d off n : zlen d <= off -> window d off n = [].
Proof. intros Ho. unfold window. rewrite drop_ge by (unfold zlen in Ho; lia). now rewrite take_nil. Qed.
Lemma window_0 d off : window d off 0 = [].
Proof. reflexivity. Qed.
Lemma window_app_r b c off n : zlen b <= off -> window (b ++ c) off n = window c (off - zlen b) n.
Proof.
  intros Ho. unfold window, zlen in *. rewrite drop_app_ge by lia. do 2 f_equal. lia.
Qed.
Lemma window_app_l b c off n : 0 <= off <= zlen b -> 0 <= n <= zlen b - off -> window (b ++ c) off n = window b off n.
Proof.
  intros Ho Hn. unfold window, zlen in *. rewrite drop_app_le by lia. rewrite take_app_le by (rewrite length_drop; lia). reflexivity.
Qed.
Lemma window_split d off n m : 0 <= off -> 0 <= n -> 0 <= m -> n <= zlen d - off -> window d off (n + m) = window d off n ++ window d (off + n) m.
Proof.
  intros Ho Hn Hm Hl. unfold window, zlen in *. rewrite Z2Nat.inj_add by lia.
  replace (Z.to_nat (off + n)) with (Z.to_nat off + Z.to_nat n)%nat by lia. rewrite <- drop_drop.
  symmetry. apply take_take_drop.
Qed.
Lemma window_slice d off n : 0 <= off -> 0 <= n -> off + n <= zlen d -> window d off n = slice d off n.
Proof.
  intros Ho Hn Hl. unfold window, slice, zlen in *. rewrite length_take, length_drop.
  replace (Z.to_nat n - _)%nat with 0%nat by lia. cbn. now rewrite app_nil_r.
Qed.

(** [l] is the rest of the pipe's chain. *)
Definition suffix_of (s : Service) (p : Pipe) (chunk : Z) (l : list Z) : Prop :=
  linked (chunk_next s) chunk l /\ NoDup l /\ (l <> [] -> last l = Some (last_chunk p)) /\ (l <> [] -> 0 <= last_used p <= kChunkData).

Lemma suffix_step s p chunk c l :
  suffix_of s p chunk (c :: l) ->
  chunk = c /\ c <> 0 /\ suffix_of s p (chunk_next s c) l /\ 0 <= chunk_bytes p c <= kChunkData /\
  chain_data s (last_used p) (c :: l) = chunk_part s c (chunk_bytes p c) ++ chain_data s (last_used p) l.
Proof.
  intros (Hl & Hd & Hlast & Hu). cbn in Hl. destruct Hl as (-> & Hc & Hl). apply NoDup_cons in Hd as [Hn Hd].
  specialize (Hu ltac:(discriminate)). specialize (Hlast ltac:(discriminate)). splits; auto.
  - unfold suffix_of. splits; auto. intros Hne. destruct l as [|d l]; [congruence|]. exact Hlast.
  - unfold chunk_bytes. zcase; lia.
  - unfold chunk_bytes. zcase; lia.
  - unfold chunk_bytes. destruct l as [|d l]; cbn [chain_data].
    + cbn in Hlast. injection Hlast as <-. now rewrite Z.eqb_refl, app_nil_r.
    + rewrite (proj2 (Z.eqb_neq _ _)); [reflexivity|]. intros ->. apply Hn. rewrite last_cons_cons in Hlast.
      now apply last_Some_elem_of in Hlast.
Qed.

Lemma seek_chunk_spec s p offset l : forall fuel chunk position,
  suffix_of s p chunk l -> 0 <= position <= offset -> (length l < fuel)%nat ->
  exists chunk' position' l', seek_chunk fuel s p offset chunk position = (chunk', position') /\
    suffix_of s p chunk' l' /\ 0 <= position' <= offset /\ (length l' <= length l)%nat /\
    forall n, window (chain_data s (last_used p) l') (offset - position') n = window (chain_data s (last_used p) l) (offset - position) n.
Proof.
  induction l as [|c l IH]; intros fuel chunk position Hs Hp Hf; (destruct fuel as [|fuel]; [cbn in Hf; lia|]); cbn [seek_chunk].
  - destruct Hs as (Hl & Hs). cbn in Hl. subst chunk. exists 0, position, []. cbn. splits; auto; [split; [reflexivity|exact Hs]|lia..].
  - destruct (suffix_step s p chunk c l Hs) as (-> & Hc & Hs' & Hb & Hd). rewrite (proj2 (Z.eqb_neq c 0)) by lia.
    destruct (Z.ltb_spec offset (position + chunk_bytes p c)) as [Hin|Hin].
    + exists c, position, (c :: l). splits; auto; lia.
    + destruct (IH fuel (chunk_next s c) (position + chunk_bytes p c) Hs') as (c' & p' & l' & He & Hs2 & Hp2 & Hl2 & Hw); [lia|cbn in Hf; lia|].
      exists c', p', l'. splits; auto; [lia..|cbn; lia|]. intros n. rewrite Hw, Hd.
      assert (Hz : zlen (chunk_part s c (chunk_bytes p c)) = chunk_bytes p c) by (unfold chunk_part; rewrite zlen_slice; lia).
      rewrite window_app_r by lia. f_equal. lia.
Qed.

Lemma copy_chunks_spec s p offset count l : forall fuel chunk position out,
  suffix_of s p chunk l -> 0 <= position -> position <= offset + zlen out -> zlen out <= count -> (2 * length l < fuel)%nat ->
  copy_chunks fuel s p offset count chunk position out =
  out ++ window (chain_data s (last_used p) l) (offset + zlen out - position) (count - zlen out).
Proof.
  induction l as [|c l IH]; intros fuel chunk position out Hs Hp Hpo Hc Hf; (destruct fuel as [|fuel]; [cbn in Hf; lia|]); cbn [copy_chunks].
  - destruct Hs as (Hl & _). cbn in Hl. subst chunk. rewrite andb_false_r. cbn [chain_data]. rewrite window_nil by (rewrite zlen_nil; lia).
    now rewrite app_nil_r.
  - destruct (suffix_step s p chunk c l Hs) as (-> & Hc0 & Hs' & Hb & Hd). rewrite (proj2 (Z.eqb_neq c 0)) by lia. cbn [negb]. rewrite andb_true_r.
    assert (Hz : zlen (chunk_part s c (chunk_bytes p c)) = chunk_bytes p c) by (unfold chunk_part; rewrite zlen_slice; lia).
    destruct (Z.ltb_spec (zlen out) count) as [Hlt|Hge].
    2:{ replace (count - zlen out) with 0 by lia. now rewrite window_0, app_nil_r. }
    destruct (Z.leb_spec (chunk_bytes p c) (offset + zlen out - position)) as [Hw|Hw].
    { rewrite IH by (auto; cbn in Hf; lia). rewrite Hd, window_app_r by lia. do 2 f_equal. lia. }
    set (take := if _ <? _ then _ else _).
    assert (Ht : take = Z.min (count - zlen out) (chunk_bytes p c - (offset + zlen out - position))) by (unfold take; zcase; lia).
    assert (Hpart : slice (chunk_data s c) (offset + zlen out - position) take = window (chunk_part s c (chunk_bytes p c)) (offset + zlen out - position) take).
    { rewrite window_slice by lia. unfold chunk_part. rewrite slice_slice by lia. f_equal. }
    assert (Hsplit : window (chain_data s (last_used p) (c :: l)) (offset + zlen out - position) (count - zlen out) =
      slice (chunk_data s c) (offset + zlen out - position) take ++
      window (chain_data s (last_used p) (c :: l)) (offset + zlen out - position + take) (count - zlen out - take)).
    { rewrite Hpart. pose proof (zlen_nonneg (chain_data s (last_used p) l)) as H0.
      replace (count - zlen out) with (take + (count - zlen out - take)) at 1 by lia.
      rewrite window_split by (rewrite ?Hd, ?zlen_app; lia). f_equal. rewrite Hd. apply window_app_l; lia. }
    assert (Hzs : zlen (slice (chunk_data s c) (offset + zlen out - position) take) = take) by (rewrite zlen_slice; lia).
    rewrite Hsplit, app_assoc. set (out' := out ++ slice _ _ _). assert (Hzo : zlen out' = zlen out + take) by (unfold out'; rewrite zlen_app; lia).
    destruct fuel as [|fuel]; [cbn in Hf; lia|]. cbn [copy_chunks]. rewrite (proj2 (Z.eqb_neq c 0)) by lia. cbn [negb]. rewrite andb_true_r, Hzo.
    destruct (Z.ltb_spec (zlen out + take) count) as [Hlt2|Hge2].
    2:{ replace (count - zlen out - take) with 0 by lia. now rewrite window_0, app_nil_r. }
    rewrite (proj2 (Z.leb_le _ _)) by lia. rewrite IH by (auto; cbn in Hf; lia). f_equal. rewrite Hd, window_app_r by lia. f_equal; lia.
Qed.

(** A read gives the bytes of the pipe from the offset, as many as are asked
    for and there. *)
Lemma pipe_read_spec s p free l d offset count :
  buffers s p free l d -> 0 <= offset -> 0 <= count -> pipe_read_at s p offset count = window d offset count.
Proof.
  intros [Hm Hf Hch Hd Hr] Ho Hc. unfold pipe_read_at. destruct Hch as [Hl Hlast Hu Hdt Hsz]. rewrite Hsz.
  destruct (Z.leb_spec (zlen d) offset) as [He|He]; [now rewrite window_nil|].
  apply NoDup_app in Hd as (_ & _ & Hd). apply Forall_app in Hr as [_ Hr].
  assert (Hs : suffix_of s p (first_chunk p) l).
  { unfold suffix_of. splits; auto; intros Hne; destruct l as [|c l']; try congruence; auto.
    rewrite Hlast. destruct (last (c :: l')) eqn:E; [reflexivity|]. apply last_None in E. discriminate. }
  pose proof (chain_short s l Hd Hr) as Hlen.
  destruct (seek_chunk_spec s p offset l (chain_fuel s) (first_chunk p) 0 Hs) as (c' & p' & l' & -> & Hs' & Hp' & Hl' & Hw); [lia|lia|].
  rewrite copy_chunks_spec with (l := l'); [|exact Hs'|lia|rewrite zlen_nil; lia|rewrite zlen_nil; lia|lia].
  cbn [app]. rewrite zlen_nil, Z.add_0_r, Z.sub_0_r, Hw, Hdt. f_equal. lia.
Qed.
