(* ===== verification/PipeService.v ===== *)
(** The pipe service against its specification.  [Pipes] is what the service
    stands for: a map from names to byte strings and a map from handles to
    names.  The service's tables and chains represent it, and every call answers
    and changes it as the specification says. *)
From stdpp Require Import base numbers list gmap.
From Stdlib Require Import ZArith Lia.
From S2P Require Import Prelude Layout Slots Wire Pipe.

(** * The specification *)

Record APipe := mkAPipe { a_data : bytes; a_writer : bool; a_ever : bool }.
Record AHandle := mkAHandle { a_badge : Z; a_name : bytes; a_kind : Z }.

(** [a_free] is how many chunks are not in use. *)
Record Pipes := mkPipes {
  a_pipes : gmap bytes APipe;
  a_handles : gmap Z AHandle;
  a_serial : Z;
  a_free : Z;
}.

Definition chunks_of (d : bytes) : Z := (zlen d + kChunkData - 1) / kChunkData.

Definition set_pipe (A : Pipes) (name : bytes) (p : APipe) : Pipes :=
  mkPipes (<[name := p]> (a_pipes A)) (a_handles A) (a_serial A) (a_free A).

(** The pipe of a name, made when there is none and there is a slot. *)
Definition spec_make (slots : nat) (A : Pipes) (name : bytes) : option Pipes :=
  if (zlen name =? 0) || (kPipeNameMax <? zlen name) then None
  else
    match a_pipes A !! name with
    | Some _ => Some A
    | None => if bool_decide (size (a_pipes A) < slots)%nat then Some (set_pipe A name (mkAPipe [] false false)) else None
    end.

Definition spec_cut (A : Pipes) (name : bytes) : Pipes :=
  match a_pipes A !! name with
  | Some p => mkPipes (<[name := mkAPipe [] (a_writer p) (a_ever p)]> (a_pipes A)) (a_handles A) (a_serial A) (a_free A + chunks_of (a_data p))
  | None => A
  end.

(** A new handle on the pipe, where there is a slot for one. *)
Definition spec_attach (slots : nat) (A : Pipes) (name : bytes) (badge : Z) (reading : bool) : Z * Pipes :=
  if bool_decide (size (a_handles A) < slots)%nat then
    let serial := a_serial A + 1 in
    let h := mkAHandle badge name (if reading then kHandleRead else kHandleWrite) in
    match a_pipes A !! name with
    | Some p =>
      (serial, mkPipes (<[name := mkAPipe (a_data p) (if reading then a_writer p else true) (if reading then true else a_ever p)]> (a_pipes A))
                 (<[serial := h]> (a_handles A)) serial (a_free A))
    | None => (0, A)
    end
  else (0, A).

(** Only kOpenTruncate cuts a name that is there (specs/pipe.md has kOpenCreate
    do it). *)
Definition spec_open (pipe_slots handle_slots : nat) (A : Pipes) (name : bytes) (flags badge : Z) : Z * Pipes :=
  let reading := negb (Z.land flags volume.kOpenRead =? 0) in
  match spec_make pipe_slots A name with
  | None => (0, A)
  | Some A =>
    let A := if negb reading && negb (Z.land flags volume.kOpenTruncate =? 0) then spec_cut A name else A in
    spec_attach handle_slots A name badge reading
  end.

Definition spec_lookup (A : Pipes) (serial badge : Z) : option AHandle :=
  match a_handles A !! serial with
  | Some h => if a_badge h =? badge then Some h else None
  | None => None
  end.

(** What is appended is as much as the pipe's last chunk and the free ones
    hold. *)
Definition spec_append (A : Pipes) (name : bytes) (data : bytes) : Z * Pipes :=
  match a_pipes A !! name with
  | None => (0, A)
  | Some p =>
    let n := Z.min (zlen data) (kChunkData * (a_free A + chunks_of (a_data p)) - zlen (a_data p)) in
    let d := a_data p ++ slice data 0 n in
    (n, mkPipes (<[name := mkAPipe d (a_writer p) (a_ever p)]> (a_pipes A)) (a_handles A) (a_serial A)
          (a_free A + chunks_of (a_data p) - chunks_of d))
  end.

(** The handle is gone; so is the pipe, when it was read from and no handle is
    left (specs/pipe.md has it die whether it was read from or not). *)
Definition spec_close (A : Pipes) (serial : Z) (h : AHandle) : Pipes :=
  let A := mkPipes (a_pipes A) (delete serial (a_handles A)) (a_serial A) (a_free A) in
  match a_pipes A !! a_name h with
  | None => A
  | Some p =>
    if a_ever p && bool_decide (map_Forall (fun _ h' => a_name h' ≠ a_name h) (a_handles A))
    then mkPipes (delete (a_name h) (a_pipes A)) (a_handles A) (a_serial A) (a_free A + chunks_of (a_data p))
    else set_pipe A (a_name h) (mkAPipe (a_data p) (if a_kind h =? kHandleRead then a_writer p else false) (a_ever p))
  end.

Definition spec_read (stale : bytes) (A : Pipes) (name : bytes) (offset wanted : Z) : list Z :=
  match a_pipes A !! name with
  | None => []
  | Some p =>
    let data := window (a_data p) offset (Z.min wanted volume.kReadMax) in
    answer_words stale (zlen data) (if (zlen (a_data p) <=? offset + zlen data) && negb (a_writer p) then 1 else 0) data
  end.

Definition spec_serve (pipe_slots handle_slots : nat) (stale : bytes) (A : Pipes) (method : Z) (words : list Z) (badge : Z) : list Z * Pipes :=
  let path := if zlen words =? 0 then None else unpack_string words kPathMax in
  if method =? volume.kMethodRead then
    (match path with
     | Some path =>
       let path_words := 1 + string_words (zlen path) in
       if zlen words <? path_words + 2 then [] else spec_read stale A path (word words path_words) (word words (path_words + 1))
     | None => []
     end, A)
  else if method =? volume.kMethodReadHandle then
    (if zlen words <? 3 then []
     else match spec_lookup A (word words 0) badge with
          | Some h => if a_kind h =? kHandleRead then spec_read stale A (a_name h) (word words 1) (word words 2) else []
          | None => []
          end, A)
  else if method =? volume.kMethodWrite then
    if zlen words <? 3 then ([0], A)
    else
      match spec_lookup A (word words 0) badge with
      | Some h =>
        let n := word words 2 in
        if (a_kind h =? kHandleWrite) && (n <=? volume.kWriteMax) && (3 + string_words n <=? zlen words)
        then let '(written, A) := spec_append A (a_name h) (slice (bytes_of words) 24 n) in ([written], A)
        else ([0], A)
      | None => ([0], A)
      end
  else if method =? volume.kMethodOpen then
    match path with
    | Some path =>
      let path_words := 1 + string_words (zlen path) in
      if zlen words <? path_words + 1 then ([0], A)
      else let '(serial, A) := spec_open pipe_slots handle_slots A path (word words path_words) badge in ([serial], A)
    | None => ([0], A)
    end
  else if method =? volume.kMethodClose then
    if zlen words <? 1 then ([0], A)
    else
      match spec_lookup A (word words 0) badge with
      | Some h => ([1], spec_close A (word words 0) h)
      | None => ([0], A)
      end
  else if method =? volume.kMethodStat then
    (match path with Some path => [if zlen path =? 0 then volume.kKindDir else volume.kKindFile; 0; 0; 0] | None => [] end, A)
  else if method =? volume.kMethodList then ([], A)
  else if (method =? volume.kMethodMkdir) || (method =? volume.kMethodRemove) || (method =? volume.kMethodReap) ||
          (method =? volume.kMethodRename) || (method =? volume.kMethodTruncate) then ([0], A)
  else ([], A).

(** * What the service's memory stands for *)

(** The chains of the pipes and the free list share no chunk. *)
Record store_ok (s : Service) (free : list Z) (chains : list (list Z)) (datas : list bytes) : Prop := {
  so_memory : memory_ok s;
  so_free : linked (free_next s) (g_free_head s) free;
  so_chains : length chains = length (g_pipes s);
  so_datas : length datas = length (g_pipes s);
  so_pipes : forall i p l d, g_pipes s !! i = Some p -> chains !! i = Some l -> datas !! i = Some d -> chain_of s p l d /\ tight p l;
  so_distinct : NoDup (free ++ concat chains);
  so_range : Forall (in_range s) (free ++ concat chains);
}.

Definition rest_of {A} (l : list (list A)) (i : nat) : list A := concat (take i l) ++ concat (drop (S i) l).
Lemma concat_at {A} (l : list (list A)) i x : l !! i = Some x -> concat l ≡ₚ x ++ rest_of l i.
Proof.
  intros Hx. rewrite <- (take_drop_middle l i x Hx) at 1. rewrite concat_app. cbn. unfold rest_of.
  rewrite !app_assoc. apply Permutation_app_tail. apply Permutation_app_comm.
Qed.
Lemma rest_of_insert {A} (l : list (list A)) i y : rest_of (<[i := y]> l) i = rest_of l i.
Proof. unfold rest_of. rewrite take_insert_ge, drop_insert_lt by lia. reflexivity. Qed.
Lemma elem_rest_of {A} (l : list (list A)) i j y c : l !! j = Some y -> i <> j -> c ∈ y -> c ∈ rest_of l i.
Proof.
  intros Hy Hij Hc. unfold rest_of. apply elem_of_app. rewrite !list_elem_of_In, !in_concat.
  destruct (Nat.lt_total j i) as [Hji|[->|Hji]]; [left|congruence|right]; exists y; (split; [|now apply list_elem_of_In]); apply list_elem_of_In.
  - apply list_elem_of_lookup. exists j. now rewrite lookup_take_lt.
  - apply list_elem_of_lookup. exists (j - S i)%nat. rewrite lookup_drop. replace (S i + (j - S i))%nat with j by lia. exact Hy.
Qed.

Lemma store_split s free chains datas i l :
  store_ok s free chains datas -> chains !! i = Some l ->
  NoDup ((free ++ l) ++ rest_of chains i) /\ Forall (in_range s) ((free ++ l) ++ rest_of chains i).
Proof.
  intros H Hl. pose proof (concat_at chains i l Hl) as Hp.
  assert (Hq : free ++ concat chains ≡ₚ (free ++ l) ++ rest_of chains i) by (rewrite <- app_assoc; now apply Permutation_app_head).
  split; [rewrite <- Hq|rewrite <- Hq]; apply H.
Qed.

Lemma store_slot s free chains datas i p :
  store_ok s free chains datas -> g_pipes s !! i = Some p ->
  exists l d, chains !! i = Some l /\ datas !! i = Some d /\ buffers s p free l d /\ tight p l.
Proof.
  intros H Hp. pose proof (lookup_lt_Some _ _ _ Hp) as Hi.
  destruct (lookup_lt_is_Some_2 chains i) as [l Hl]; [now rewrite (so_chains _ _ _ _ H)|].
  destruct (lookup_lt_is_Some_2 datas i) as [d Hd]; [now rewrite (so_datas _ _ _ _ H)|].
  destruct (so_pipes _ _ _ _ H i p l d Hp Hl Hd) as [Hc Ht]. destruct (store_split _ _ _ _ i l H Hl) as [Hn Hr].
  exists l, d. splits; auto. apply NoDup_app in Hn as (Hn & _ & _). apply Forall_app in Hr as [Hr _].
  split; auto; apply H.
Qed.

(** One pipe's chain and the free list change. *)
Lemma store_update s s' free free' chains datas i p p' l l' d' :
  store_ok s free chains datas -> g_pipes s !! i = Some p -> chains !! i = Some l ->
  only_chunks s s' (free ++ l) -> buffers s' p' free' l' d' -> tight p' l' -> free' ++ l' ≡ₚ free ++ l ->
  store_ok (with_pipes s' (<[i := p']> (g_pipes s'))) free' (<[i := l']> chains) (<[i := d']> datas).
Proof.
  intros H Hp Hl Ho Hb Ht Hperm. destruct (store_split _ _ _ _ i l H Hl) as [Hn Hr].
  pose proof (lookup_lt_Some _ _ _ Hp) as Hi. pose proof (lookup_lt_Some _ _ _ Hl) as Hil.
  assert (Hq : free' ++ concat (<[i := l']> chains) ≡ₚ (free ++ l) ++ rest_of chains i).
  { rewrite (concat_at _ i l' (list_lookup_insert_eq chains i l' Hil)), rest_of_insert, app_assoc. now apply Permutation_app_tail. }
  pose proof (oc_pipes _ _ _ Ho) as Hps. split; cbn [with_pipes g_pipes g_free_head].
  - destruct (bu_memory _ _ _ _ _ Hb). now split.
  - exact (bu_free _ _ _ _ _ Hb).
  - rewrite !length_insert, Hps. apply H.
  - rewrite !length_insert, Hps. apply H.
  - intros j q k e Hq' Hk He. destruct (decide (i = j)) as [<-|Hij].
    + rewrite list_lookup_insert_eq in Hq' by (rewrite Hps; lia). rewrite list_lookup_insert_eq in Hk by lia.
      rewrite list_lookup_insert_eq in He by (rewrite (so_datas _ _ _ _ H); lia). simplify_eq.
      split; [|exact Ht]. apply (chain_of_ext s'); [reflexivity|]. exact (bu_chain _ _ _ _ _ Hb).
    + rewrite list_lookup_insert_ne in Hq' by lia. rewrite list_lookup_insert_ne in Hk by lia. rewrite list_lookup_insert_ne in He by lia. rewrite Hps in Hq'.
      destruct (so_pipes _ _ _ _ H j q k e Hq' Hk He) as [Hc Htq]. split; [|exact Htq].
      apply (chain_of_ext s); [|exact Hc]. intros c Hck. assert (Hcr : c ∈ rest_of chains i) by (eapply elem_rest_of; eauto).
      apply NoDup_app in Hn as (_ & Hn & _). apply Forall_app in Hr as [_ Hr].
      apply (oc_other _ _ _ Ho); [|now apply (Forall_forall (in_range s) (rest_of chains i))]. intros Hf. exact (Hn c Hf Hcr).
  - now rewrite Hq.
  - rewrite Hq. exact (only_forall _ _ _ _ Ho Hr).
Qed.

(** Fields other than the chain's change. *)
Definition same_buffer (p p' : Pipe) : Prop :=
  p_size p' = p_size p /\ first_chunk p' = first_chunk p /\ last_chunk p' = last_chunk p /\ last_used p' = last_used p.
Lemma chain_of_fields s p p' l d : same_buffer p p' -> chain_of s p l d -> chain_of s p' l d.
Proof. intros (H1 & H2 & H3 & H4) [A1 A2 A3 A4 A5]. split; rewrite ?H1, ?H2, ?H3, ?H4; auto. Qed.
Lemma store_fields s free chains datas i p p' :
  store_ok s free chains datas -> g_pipes s !! i = Some p -> same_buffer p p' ->
  store_ok (with_pipes s (<[i := p']> (g_pipes s))) free chains datas.
Proof.
  intros H Hp Hs. destruct (store_slot _ _ _ _ _ _ H Hp) as (l & d & Hl & Hd & Hb & Ht).
  pose proof Hs as (_ & _ & _ & Hu).
  assert (Hb' : buffers s p' free l d) by (destruct Hb; split; auto; now apply (chain_of_fields s p)).
  assert (Ht' : tight p' l) by (intros Hne; rewrite Hu; auto).
  pose proof (store_update s s free free chains datas i p p' l l d H Hp Hl (only_refl _ _) Hb' Ht' ltac:(reflexivity)) as HH.
  now rewrite (list_insert_id chains), (list_insert_id datas) in HH.
Qed.
Lemma store_handles s free chains datas hs n :
  store_ok s free chains datas -> store_ok (with_handles s hs n) free chains datas.
Proof.
  intros [[Hm1 Hm2] H2 H3 H4 H5 H6 H7]. split; auto; [now split|]. intros i p l d Hp Hl Hd.
  destruct (H5 i p l d Hp Hl Hd) as [Hc Ht]. split; [|exact Ht]. now apply (chain_of_ext s).
Qed.

(** ** The tables *)

Definition pipe_entry (x : Pipe * bytes) : option (bytes * APipe) :=
  if used x.1 then Some (pipe_name x.1, mkAPipe x.2 (writer_open x.1) (reader_ever x.1)) else None.
Definition handle_entry (x : Handle * bytes) : option (Z * AHandle) :=
  if h_serial x.1 =? 0 then None else Some (h_serial x.1, mkAHandle (h_badge x.1) x.2 (h_kind x.1)).

(** The handle is in use, on the pipe in slot [i]. *)
Definition on_pipe (i : nat) (h : Handle) : Prop := h_serial h ≠ 0 /\ h_pipe h = Z.of_nat i + 1.
#[global] Instance on_pipe_dec i h : Decision (on_pipe i h).
Proof. unfold on_pipe. apply _. Defined.
Definition attached (i : nat) (hs : list Handle) : Z := zlen (filter (on_pipe i) hs).
Definition one_if (P : Prop) `{Decision P} : Z := if decide P then 1 else 0.

Lemma filter_middle i hs j (h : Handle) :
  hs !! j = Some h -> attached i hs = attached i (take j hs) + one_if (on_pipe i h) + attached i (drop (S j) hs).
Proof.
  intros Hh. rewrite <- (take_drop_middle hs j h Hh) at 1. unfold attached, one_if. rewrite filter_app, filter_cons, zlen_app.
  destruct (decide (on_pipe i h)); [rewrite zlen_cons|]; lia.
Qed.
Lemma attached_insert i hs j h h' :
  hs !! j = Some h -> attached i (<[j := h']> hs) = attached i hs - one_if (on_pipe i h) + one_if (on_pipe i h').
Proof.
  intros Hh. pose proof (lookup_lt_Some _ _ _ Hh) as Hj. rewrite (filter_middle i hs j h Hh).
  rewrite (filter_middle i _ j h') by (now apply list_lookup_insert_eq). rewrite take_insert_ge, drop_insert_lt by lia. lia.
Qed.
Lemma attached_bound i hs : 0 <= attached i hs <= zlen hs.
Proof. unfold attached, zlen. pose proof (length_filter (on_pipe i) hs). lia. Qed.
Lemma attached_zero i hs : attached i hs = 0 <-> forall j h, hs !! j = Some h -> ~ on_pipe i h.
Proof.
  unfold attached, zlen. split.
  - intros Hz j h Hh Ho. destruct (filter (on_pipe i) hs) as [|x k] eqn:E; [|cbn in Hz; lia].
    assert (h ∈ filter (on_pipe i) hs) by (apply list_elem_of_filter; split; [exact Ho|eapply list_elem_of_lookup_2; eauto]).
    rewrite E in *. set_solver.
  - intros Hn. destruct (filter (on_pipe i) hs) as [|x k] eqn:E; [reflexivity|].
    assert (Hx : x ∈ filter (on_pipe i) hs) by (rewrite E; set_solver). apply list_elem_of_filter in Hx as [Ho Hx].
    apply list_elem_of_lookup in Hx as [j Hx]. exfalso. eapply Hn; eauto.
Qed.

Definition name_shape (p : Pipe) : Prop := zlen (p_name p) = kPipeNameMax /\ (used p = true -> 1 <= name_length p <= kPipeNameMax).

(** The service [s] stands for [A]; [names] are those of the handles' pipes. *)
Record rep (s : Service) (A : Pipes) (free : list Z) (chains : list (list Z)) (datas names : list bytes) : Prop := {
  rp_store : store_ok s free chains datas;
  rp_shape : Forall name_shape (g_pipes s);
  rp_unused : forall i p l, g_pipes s !! i = Some p -> chains !! i = Some l -> used p = false -> l = [];
  rp_free : a_free A = zlen free;
  rp_distinct : distinct pipe_entry (zip (g_pipes s) datas);
  rp_pipes : a_pipes A = table pipe_entry (zip (g_pipes s) datas);
  rp_names : length names = length (g_handles s);
  rp_handles_distinct : distinct handle_entry (zip (g_handles s) names);
  rp_handles : a_handles A = table handle_entry (zip (g_handles s) names);
  rp_target : forall j h name, g_handles s !! j = Some h -> names !! j = Some name -> h_serial h ≠ 0 ->
    1 <= h_pipe h /\ exists p, g_pipes s !! Z.to_nat (h_pipe h - 1) = Some p /\ used p = true /\ pipe_name p = name;
  rp_open : forall i p, g_pipes s !! i = Some p -> used p = true -> open_count p = attached i (g_handles s);
  rp_serial : a_serial A = g_handle_serial s;
  rp_below : Forall (fun h => 0 <= h_serial h <= g_handle_serial s) (g_handles s);
  rp_last : 0 <= g_handle_serial s;
  rp_small : zlen (g_handles s) < 2 ^ 32;
}.
Definition represents (s : Service) (A : Pipes) : Prop := exists free chains datas names, rep s A free chains datas names.

Lemma zip_lookup {X Y} (l : list X) (k : list Y) i x y : zip l k !! i = Some (x, y) <-> l !! i = Some x /\ k !! i = Some y.
Proof. rewrite lookup_zip_with_Some. split; [intros (a & b & [= <- <-] & Ha & Hb); auto|intros [Ha Hb]; eauto]. Qed.
Lemma zip_insert {X Y} (l : list X) (k : list Y) i x y : zip (<[i := x]> l) (<[i := y]> k) = <[i := (x, y)]> (zip l k).
Proof. symmetry. apply (insert_zip_with pair). Qed.

Lemma zlen_pipe_name p : name_shape p -> used p = true -> zlen (pipe_name p) = name_length p.
Proof. intros [Hz Hu] H. specialize (Hu H). unfold pipe_name. rewrite zlen_slice; lia. Qed.

(** A name of the wrong length is no pipe's. *)
Lemma rep_no_name s A free chains datas names name :
  rep s A free chains datas names -> (zlen name =? 0) || (kPipeNameMax <? zlen name) = true -> a_pipes A !! name = None.
Proof.
  intros H Hn. rewrite (rp_pipes _ _ _ _ _ _ H). apply table_none; [apply H|]. intros i [p d] v Hi He.
  apply zip_lookup in Hi as [Hp _]. unfold pipe_entry in He. cbn in He. destruct (used p) eqn:Hu; [|discriminate]. injection He as <- _.
  assert (Hsh : name_shape p) by (apply (Forall_lookup_1 _ _ _ _ (rp_shape _ _ _ _ _ _ H) Hp)).
  rewrite zlen_pipe_name in Hn by auto. destruct Hsh as [_ Hsh]. specialize (Hsh Hu).
  apply orb_true_iff in Hn as [Hn|Hn]; [apply Z.eqb_eq in Hn|apply Z.ltb_lt in Hn]; lia.
Qed.

Lemma rep_pipe_entry s A free chains datas names i p d :
  rep s A free chains datas names -> g_pipes s !! i = Some p -> used p = true -> datas !! i = Some d ->
  a_pipes A !! pipe_name p = Some (mkAPipe d (writer_open p) (reader_ever p)).
Proof.
  intros H Hp Hu Hd. rewrite (rp_pipes _ _ _ _ _ _ H). eapply table_lookup_1; [apply H|apply zip_lookup; split; eauto|].
  unfold pipe_entry. cbn. now rewrite Hu.
Qed.

Lemma rep_find s A free chains datas names name :
  rep s A free chains datas names ->
  match pipe_find s name with
  | Some i => exists p d, g_pipes s !! i = Some p /\ datas !! i = Some d /\ used p = true /\ pipe_name p = name /\
      a_pipes A !! name = Some (mkAPipe d (writer_open p) (reader_ever p))
  | None => a_pipes A !! name = None
  end.
Proof.
  intros H. unfold pipe_find. destruct (_ || _) eqn:Hn; [eapply rep_no_name; eauto|].
  pose proof (first_slot_spec (named name) (g_pipes s)) as Hf. destruct (first_slot (named name) (g_pipes s)) as [i|].
  - destruct Hf as (p & Hp & Hm). unfold named in Hm. apply andb_true_iff in Hm as [Hm Hname]. apply andb_true_iff in Hm as [Hu _].
    apply bool_decide_eq_true in Hname. destruct (store_slot _ _ _ _ _ _ (rp_store _ _ _ _ _ _ H) Hp) as (l & d & _ & Hd & _).
    exists p, d. splits; auto. rewrite <- Hname. eapply rep_pipe_entry; eauto.
  - rewrite (rp_pipes _ _ _ _ _ _ H). apply table_none; [apply H|]. intros i [p d] v Hi He.
    apply zip_lookup in Hi as [Hp _]. specialize (Hf i p Hp). unfold pipe_entry in He. cbn in He. destruct (used p) eqn:Hu; [|discriminate].
    injection He as Hname _. unfold named in Hf. rewrite Hu, <- Hname in Hf.
    rewrite (zlen_pipe_name p) in Hf by (auto; apply (Forall_lookup_1 _ _ _ _ (rp_shape _ _ _ _ _ _ H) Hp)).
    rewrite Z.eqb_refl, bool_decide_eq_true_2 in Hf by reflexivity. discriminate.
Qed.

Lemma rep_lookup s A free chains datas names serial badge :
  rep s A free chains datas names ->
  match handle_lookup s serial badge with
  | Some j => exists h name, g_handles s !! j = Some h /\ names !! j = Some name /\ handle_at s j = h /\ h_serial h = serial /\ serial ≠ 0 /\
      spec_lookup A serial badge = Some (mkAHandle badge name (h_kind h)) /\ h_badge h = badge
  | None => spec_lookup A serial badge = None
  end.
Proof.
  intros H. unfold handle_lookup, spec_lookup. rewrite (rp_handles _ _ _ _ _ _ H). destruct (Z.eqb_spec serial 0) as [->|Hs].
  - destruct (table _ _ !! 0) as [a|] eqn:E; [|reflexivity]. apply table_lookup in E as (j & [h nm] & _ & He); [|apply H].
    unfold handle_entry in He. cbn in He. destruct (Z.eqb_spec (h_serial h) 0); congruence.
  - pose proof (first_slot_spec (fun h => h_serial h =? serial) (g_handles s)) as Hf. destruct (first_slot _ (g_handles s)) as [j|].
    + destruct Hf as (h & Hh & Hser). apply Z.eqb_eq in Hser.
      destruct (lookup_lt_is_Some_2 names j) as [nm Hnm]; [rewrite (rp_names _ _ _ _ _ _ H); eauto using lookup_lt_Some|].
      rewrite nth_lookup, Hh. cbn.
      assert (E : table handle_entry (zip (g_handles s) names) !! serial = Some (mkAHandle (h_badge h) nm (h_kind h))).
      { eapply table_lookup_1; [apply H|apply zip_lookup; split; eauto|]. unfold handle_entry. cbn. rewrite Hser. now rewrite (proj2 (Z.eqb_neq _ _)). }
      rewrite E. cbn. destruct (Z.eqb_spec (h_badge h) badge) as [Hb|Hb]; [|reflexivity].
      exists h, nm. splits; auto; [unfold handle_at; now rewrite nth_lookup, Hh|now rewrite Hb].
    + destruct (table _ _ !! serial) as [a|] eqn:E; [|reflexivity]. apply table_lookup in E as (j & [h nm] & Hi & He); [|apply H].
      apply zip_lookup in Hi as [Hh _]. specialize (Hf j h Hh). apply Z.eqb_neq in Hf. unfold handle_entry in He. cbn in He.
      destruct (h_serial h =? 0); [discriminate|]. congruence.
Qed.

(** ** Changes *)

(** The parts of a pipe that its table entry and its handles depend on. *)
Definition same_row (p p' : Pipe) : Prop :=
  used p' = used p /\ name_length p' = name_length p /\ p_name p' = p_name p /\ open_count p' = open_count p.

Lemma same_row_name p p' : same_row p p' -> pipe_name p' = pipe_name p.
Proof. intros (_ & H1 & H2 & _). unfold pipe_name. now rewrite H1, H2. Qed.
Lemma same_row_shape p p' : same_row p p' -> name_shape p -> name_shape p'.
Proof. intros (H1 & H2 & H3 & _). unfold name_shape. now rewrite H1, H2, H3. Qed.

(** One pipe's contents change, and perhaps its flags. *)
Lemma rep_pipe s s' A free free' chains datas names i p p' l l' d' :
  rep s A free chains datas names -> g_pipes s !! i = Some p -> used p = true -> chains !! i = Some l ->
  only_chunks s s' (free ++ l) -> buffers s' p' free' l' d' -> tight p' l' -> free' ++ l' ≡ₚ free ++ l -> same_row p p' ->
  rep (with_pipes s' (<[i := p']> (g_pipes s')))
    (mkPipes (<[pipe_name p := mkAPipe d' (writer_open p') (reader_ever p')]> (a_pipes A)) (a_handles A) (a_serial A) (zlen free'))
    free' (<[i := l']> chains) (<[i := d']> datas) names.
Proof.
  intros H Hp Hu Hl Ho Hb Ht Hperm Hrow. pose proof (rp_store _ _ _ _ _ _ H) as Hst.
  destruct (store_slot _ _ _ _ _ _ Hst Hp) as (l0 & d & Hl0 & Hd & _). rewrite Hl in Hl0. injection Hl0 as <-.
  pose proof (oc_pipes _ _ _ Ho) as Hps. pose proof (oc_handles _ _ _ Ho) as Hhs. pose proof (oc_serial _ _ _ Ho) as Hsn.
  pose proof (same_row_name p p' Hrow) as Hname. pose proof Hrow as (Hu' & _ & _ & Hopen).
  assert (Hz : zip (g_pipes s) datas !! i = Some (p, d)) by (apply zip_lookup; auto).
  edestruct (table_update pipe_entry (zip (g_pipes s) datas) i (p, d) (p', d') (pipe_name p)) as [Hdist Htab];
    [apply H|exact Hz|unfold pipe_entry; cbn; now rewrite Hu|unfold pipe_entry; cbn; rewrite Hu', Hu, Hname; reflexivity|].
  rewrite <- zip_insert in Hdist, Htab.
  split; cbn [with_pipes g_pipes g_handles g_handle_serial a_pipes a_handles a_serial a_free]; rewrite ?Hps, ?Hhs, ?Hsn; auto;
    try apply H.
  - rewrite <- Hps. exact (store_update s s' free free' chains datas i p p' l l' d' Hst Hp Hl Ho Hb Ht Hperm).
  - apply Forall_insert; [apply H|]. apply (same_row_shape p); [exact Hrow|]. apply (Forall_lookup_1 _ _ _ _ (rp_shape _ _ _ _ _ _ H) Hp).
  - intros j q k Hq Hk Hun. destruct (decide (i = j)) as [<-|Hij].
    + rewrite list_lookup_insert_eq in Hq by eauto using lookup_lt_Some. congruence.
    + rewrite list_lookup_insert_ne in Hq by lia. rewrite list_lookup_insert_ne in Hk by lia. exact (rp_unused _ _ _ _ _ _ H j q k Hq Hk Hun).
  - rewrite Htab. now rewrite (rp_pipes _ _ _ _ _ _ H).
  - intros j h nm Hh Hnm Hser. destruct (rp_target _ _ _ _ _ _ H j h nm Hh Hnm Hser) as (H1 & q & Hq & Huq & Hnq).
    split; [exact H1|]. destruct (decide (i = Z.to_nat (h_pipe h - 1))) as [E|E].
    + exists p'. rewrite <- E in *. rewrite list_lookup_insert_eq by eauto using lookup_lt_Some. replace q with p in * by congruence.
      splits; auto; congruence.
    + exists q. rewrite list_lookup_insert_ne by lia. auto.
  - intros j q Hq Huq. destruct (decide (i = j)) as [<-|Hij].
    + rewrite list_lookup_insert_eq in Hq by eauto using lookup_lt_Some. injection Hq as <-. rewrite Hopen.
      exact (rp_open _ _ _ _ _ _ H i p Hp Hu).
    + rewrite list_lookup_insert_ne in Hq by lia. exact (rp_open _ _ _ _ _ _ H j q Hq Huq).
Qed.

Lemma chunks_of_chain s p l d : chain_of s p l d -> tight p l -> chunks_of d = zlen l.
Proof.
  intros [_ _ Hu -> _] Ht. unfold chunks_of. destruct l as [|z l _] using rev_ind; [reflexivity|].
  assert (Hu' : 0 <= last_used p <= kChunkData) by (destruct l; exact Hu).
  specialize (Ht ltac:(destruct l; discriminate)). rewrite zlen_chain, zlen_app by lia. change (zlen [z]) with 1.
  unfold kChunkData, kChunkBytes in *. zlia.
Qed.

Lemma perm_zlen {X} (l k : list X) : l ≡ₚ k -> zlen l = zlen k.
Proof. intros H. unfold zlen. f_equal. now apply Permutation_length. Qed.

(** Appending to a pipe. *)
Lemma append_refines s A free chains datas names i p data :
  rep s A free chains datas names -> g_pipes s !! i = Some p -> used p = true -> bytes_ok data ->
  let '(n, s') := pipe_append s i p data in
  let '(n', A') := spec_append A (pipe_name p) data in
  n = n' /\ represents s' A'.
Proof.
  intros H Hp Hu Hdt. pose proof (rp_store _ _ _ _ _ _ H) as Hst.
  destruct (store_slot _ _ _ _ _ _ Hst Hp) as (l & d & Hl & Hd & Hb & Ht).
  pose proof (rep_pipe_entry _ _ _ _ _ _ i p d H Hp Hu Hd) as Ha.
  pose proof (zlen_nonneg data) as H0.
  edestruct (append_loop_spec data Hdt (S (length data)) s p 0 free l d Hb Ht) as (s' & p' & free' & l' & He & Hb' & Ht' & Hperm & Ho & Hre);
    [lia|unfold zlen; lia|].
  unfold pipe_append, spec_append. rewrite He, Ha. cbn [a_data a_writer a_ever].
  assert (Hcap : capacity free l = kChunkData * (a_free A + chunks_of d)).
  { unfold capacity. rewrite (chunks_of_chain s p l d), (rp_free _ _ _ _ _ _ H), zlen_app; auto. apply Hb. }
  rewrite Hcap, Z.sub_0_r in *. split; [lia|].
  set (n := Z.min _ _) in *. exists free', (<[i := l']> chains), (<[i := d ++ slice data 0 n]> datas), names.
  assert (Hrow : same_row p p') by (unfold same_row; rewrite Hre; auto).
  replace (a_free A + chunks_of d - chunks_of (d ++ slice data 0 n)) with (zlen free').
  - replace (writer_open p) with (writer_open p') by (rewrite Hre; reflexivity). replace (reader_ever p) with (reader_ever p') by (rewrite Hre; reflexivity).
    eapply (rep_pipe s s'); eauto.
  - apply perm_zlen in Hperm. rewrite !zlen_app in Hperm. rewrite (chunks_of_chain s' p' l' (d ++ slice data 0 n)) by (auto; apply Hb').
    rewrite (chunks_of_chain s p l d), (rp_free _ _ _ _ _ _ H) by (auto; apply Hb). lia.
Qed.

(** The chain of a pipe freed. *)
Lemma freed_buffers s p free l d :
  buffers s p free l d ->
  let s' := free_chain (chain_fuel s) s (first_chunk p) in
  buffers s' (with_buffer p 0 0 0 0) (rev l ++ free) [] [] /\ only_chunks s s' (free ++ l) /\ (rev l ++ free) ++ [] ≡ₚ free ++ l.
Proof.
  intros [Hm Hf Hch Hd Hr]. pose proof Hd as Hd'. pose proof Hr as Hr'. apply NoDup_app in Hd' as (_ & _ & Hdl). apply Forall_app in Hr' as [_ Hrl].
  destruct (free_chain_spec l (chain_fuel s) s (first_chunk p) free) as (Hm' & Ho & Hf'); auto; [apply Hch|now apply chain_short|]. cbv zeta.
  assert (Hp : (rev l ++ free) ++ [] ≡ₚ free ++ l).
  { rewrite app_nil_r, Permutation_app_comm. apply Permutation_app_head. symmetry. apply Permutation_rev. }
  splits; [|eapply (only_trans _ _ _ l []); [exact Ho|apply only_refl|set_solver..]|exact Hp]. split; auto.
  - split; cbn; auto.
  - now rewrite Hp.
  - rewrite Hp. exact (only_forall _ _ _ _ Ho Hr).
Qed.

Lemma cut_refines s A free chains datas names i p :
  rep s A free chains datas names -> g_pipes s !! i = Some p -> used p = true ->
  exists free' chains' datas', rep (pipe_cut s i p) (spec_cut A (pipe_name p)) free' chains' datas' names.
Proof.
  intros H Hp Hu. pose proof (rp_store _ _ _ _ _ _ H) as Hst. destruct (store_slot _ _ _ _ _ _ Hst Hp) as (l & d & Hl & Hd & Hb & Ht).
  destruct (freed_buffers s p free l d Hb) as (Hb' & Ho & Hperm).
  unfold pipe_cut, spec_cut. rewrite (rep_pipe_entry _ _ _ _ _ _ i p d H Hp Hu Hd). cbn [a_data a_writer a_ever].
  replace (a_free A + chunks_of d) with (zlen (rev l ++ free)).
  - do 3 eexists. eapply (rep_pipe s) with (p' := with_buffer p 0 0 0 0) (l' := []) (d' := []); eauto; [|unfold same_row; auto].
    intros Hne. congruence.
  - rewrite zlen_app, (chunks_of_chain s p l d), (rp_free _ _ _ _ _ _ H) by (auto; apply Hb). unfold zlen. rewrite length_rev. lia.
Qed.

Lemma alter_insert {X} (f : X -> X) (l : list X) (i : nat) x : l !! i = Some x -> alter f i l = <[i := f x]> l.
Proof.
  revert i. induction l as [|y l IH]; intros [|i] Hx; cbn in *; try discriminate; [congruence|].
  unfold alter, list_alter in *. cbn. f_equal. now apply IH.
Qed.

(** The pipe of a name, made when there is none. *)
Lemma make_refines s A free chains datas names name :
  rep s A free chains datas names -> bytes_ok name ->
  match pipe_make s name with
  | (None, s') => s' = s /\ spec_make (length (g_pipes s)) A name = None
  | (Some i, s') => exists A' datas' p, spec_make (length (g_pipes s)) A name = Some A' /\ rep s' A' free chains datas' names /\
      g_pipes s' !! i = Some p /\ used p = true /\ pipe_name p = name /\
      length (g_pipes s') = length (g_pipes s) /\ g_handles s' = g_handles s /\ a_serial A' = a_serial A
  end.
Proof.
  intros H Hn. unfold pipe_make, spec_make. destruct (_ || _) eqn:Hbad; [auto|]. apply orb_false_iff in Hbad as [Hb1 Hb2].
  apply Z.eqb_neq in Hb1. apply Z.ltb_ge in Hb2. pose proof (zlen_nonneg name) as H0.
  pose proof (rep_find _ _ _ _ _ _ name H) as Hf. destruct (pipe_find s name) as [i|].
  { destruct Hf as (p & d & Hp & Hd & Hu & Hname & Ha). rewrite Ha. exists A, datas, p. splits; auto. }
  rewrite Hf. pose proof (rp_store _ _ _ _ _ _ H) as Hst. pose proof (first_slot_spec (fun p => negb (used p)) (g_pipes s)) as Hfree.
  assert (Hroom := table_room pipe_entry _ (rp_distinct _ _ _ _ _ _ H)). rewrite <- (rp_pipes _ _ _ _ _ _ H) in Hroom.
  rewrite length_zip_with, (so_datas _ _ _ _ Hst), Nat.min_id in Hroom.
  destruct (first_slot _ (g_pipes s)) as [i|].
  2:{ rewrite bool_decide_eq_false_2; [auto|]. rewrite Hroom. intros (i & [p d] & Hx & He). apply zip_lookup in Hx as [Hp _].
      specialize (Hfree i p Hp). unfold pipe_entry in He. cbn in He. destruct (used p); discriminate. }
  destruct Hfree as (p & Hp & Hu). apply negb_true_iff in Hu. destruct (store_slot _ _ _ _ _ _ Hst Hp) as (l & d & Hl & Hd & Hb & Ht).
  assert (He : pipe_entry (p, d) = None) by (unfold pipe_entry; cbn; now rewrite Hu).
  rewrite bool_decide_eq_true_2 by (apply Hroom; exists i, (p, d); split; [apply zip_lookup; auto|exact He]).
  pose proof (rp_unused _ _ _ _ _ _ H i p l Hp Hl Hu) as ->.
  destruct (Forall_lookup_1 _ _ _ _ (rp_shape _ _ _ _ _ _ H) Hp) as [Hshape _].
  rewrite (alter_insert _ _ i p Hp). set (p' := fresh_pipe p name).
  assert (Hname : pipe_name p' = name) by (unfold pipe_name; cbn; apply slice_blit_same; lia).
  destruct (table_fill pipe_entry _ i (p, d) (p', []) name (mkAPipe [] false false) (rp_distinct _ _ _ _ _ _ H)) as [Hdist Htab];
    [apply zip_lookup; auto|exact He|unfold pipe_entry; cbn; now rewrite Hname|now rewrite <- (rp_pipes _ _ _ _ _ _ H)|].
  rewrite <- zip_insert in Hdist, Htab. assert (Hi : (i < length (g_pipes s))%nat) by eauto using lookup_lt_Some.
  assert (Hb' : buffers s p' free [] []) by (destruct Hb as [B1 B2 B3 B4 B5]; split; auto; split; cbn; auto).
  assert (Ht' : tight p' []) by (intros Hne; congruence).
  exists (set_pipe A name (mkAPipe [] false false)), (<[i := []]> datas), p'.
  splits; auto; [|cbn; now rewrite list_lookup_insert_eq|cbn; now rewrite length_insert].
  split; cbn [with_pipes g_pipes g_handles g_handle_serial set_pipe a_pipes a_handles a_serial a_free]; auto; try apply H.
  - pose proof (store_update s s free free chains datas i p p' [] [] [] Hst Hp Hl (only_refl _ _) Hb' Ht' ltac:(reflexivity)) as HH.
    now rewrite (list_insert_id chains) in HH.
  - apply Forall_insert; [apply H|]. split; cbn; [now rewrite zlen_blit|lia].
  - intros j q k Hq Hk Hun. destruct (decide (i = j)) as [<-|Hij]; [congruence|].
    rewrite list_lookup_insert_ne in Hq by lia. exact (rp_unused _ _ _ _ _ _ H j q k Hq Hk Hun).
  - rewrite Htab. now rewrite (rp_pipes _ _ _ _ _ _ H).
  - intros j h nm Hh Hnm Hser. destruct (rp_target _ _ _ _ _ _ H j h nm Hh Hnm Hser) as (H1 & q & Hq & Huq & Hnq).
    split; [exact H1|]. exists q. rewrite list_lookup_insert_ne; [auto|]. intros ->. congruence.
  - intros j q Hq Huq. destruct (decide (i = j)) as [<-|Hij].
    + rewrite list_lookup_insert_eq in Hq by lia. injection Hq as <-. cbn. symmetry. apply attached_zero. intros k h Hh [Hser Hon].
      destruct (lookup_lt_is_Some_2 names k) as [nm Hnm]; [rewrite (rp_names _ _ _ _ _ _ H); eauto using lookup_lt_Some|].
      destruct (rp_target _ _ _ _ _ _ H k h nm Hh Hnm Hser) as (H1 & q & Hq & Huq' & _). replace (Z.to_nat (h_pipe h - 1)) with i in Hq by lia. congruence.
    + rewrite list_lookup_insert_ne in Hq by lia. exact (rp_open _ _ _ _ _ _ H j q Hq Huq).
Qed.

(** One handle and the flags of its pipe change. *)
Lemma rep_handle s A free chains datas names i p p' d j h h' name serial handles :
  rep s A free chains datas names ->
  g_pipes s !! i = Some p -> used p = true -> datas !! i = Some d ->
  same_buffer p p' -> used p' = true -> name_length p' = name_length p -> p_name p' = p_name p ->
  g_handles s !! j = Some h -> (h_serial h' ≠ 0 -> h_pipe h' = Z.of_nat i + 1 /\ name = pipe_name p) ->
  (h_serial h ≠ 0 -> h_pipe h = Z.of_nat i + 1) ->
  open_count p' = attached i (<[j := h']> (g_handles s)) ->
  distinct handle_entry (<[j := (h', name)]> (zip (g_handles s) names)) ->
  handles = table handle_entry (<[j := (h', name)]> (zip (g_handles s) names)) ->
  g_handle_serial s <= serial -> 0 <= h_serial h' <= serial ->
  rep (with_pipes (with_handles s (<[j := h']> (g_handles s)) serial) (<[i := p']> (g_pipes s)))
    (mkPipes (<[pipe_name p := mkAPipe d (writer_open p') (reader_ever p')]> (a_pipes A)) handles serial (a_free A))
    free chains datas (<[j := name]> names).
Proof.
  intros H Hp Hu Hd Hsb Hu' Hnl Hpn Hh Hon' Hon Hopen Hdist Htab Hser Hser'.
  pose proof (rp_store _ _ _ _ _ _ H) as Hst. assert (Hi : (i < length (g_pipes s))%nat) by eauto using lookup_lt_Some.
  assert (Hj : (j < length (g_handles s))%nat) by eauto using lookup_lt_Some.
  assert (Hname : pipe_name p' = pipe_name p) by (unfold pipe_name; now rewrite Hnl, Hpn).
  destruct (table_update pipe_entry (zip (g_pipes s) datas) i (p, d) (p', d) (pipe_name p) (mkAPipe d (writer_open p) (reader_ever p)) (mkAPipe d (writer_open p') (reader_ever p')))
    as [Hpd Hpt]; [apply H|apply zip_lookup; auto|unfold pipe_entry; cbn; now rewrite Hu|unfold pipe_entry; cbn; now rewrite Hu', Hname|].
  rewrite <- zip_insert, (list_insert_id datas) in Hpd, Hpt by exact Hd. rewrite <- zip_insert in Hdist, Htab.
  split; cbn [with_pipes with_handles g_pipes g_handles g_handle_serial a_pipes a_handles a_serial a_free]; auto; try apply H.
  - apply (store_fields _ _ _ _ i p p') in Hst; auto. apply (store_handles _ _ _ _ (<[j := h']> (g_handles s)) serial) in Hst. exact Hst.
  - apply Forall_insert; [apply H|]. pose proof (Forall_lookup_1 _ _ _ _ (rp_shape _ _ _ _ _ _ H) Hp) as [Hs1 Hs2].
    split; rewrite ?Hpn, ?Hnl; auto.
  - intros k q l Hq Hl Hun. destruct (decide (i = k)) as [<-|Hik].
    + rewrite list_lookup_insert_eq in Hq by lia. congruence.
    + rewrite list_lookup_insert_ne in Hq by lia. exact (rp_unused _ _ _ _ _ _ H k q l Hq Hl Hun).
  - rewrite Hpt. now rewrite (rp_pipes _ _ _ _ _ _ H).
  - rewrite !length_insert. apply H.
  - intros k g nm Hg Hnm Hgs.
    assert (Hold : 1 <= h_pipe g /\ exists q, g_pipes s !! Z.to_nat (h_pipe g - 1) = Some q /\ used q = true /\ pipe_name q = nm).
    { destruct (decide (j = k)) as [<-|Hjk].
      - rewrite list_lookup_insert_eq in Hg by lia. rewrite list_lookup_insert_eq in Hnm by (rewrite (rp_names _ _ _ _ _ _ H); lia).
        injection Hg as <-. injection Hnm as <-. destruct (Hon' Hgs) as [Hpi ->]. split; [lia|]. exists p.
        replace (Z.to_nat (h_pipe h' - 1)) with i by lia. auto.
      - rewrite list_lookup_insert_ne in Hg by lia. rewrite list_lookup_insert_ne in Hnm by lia. exact (rp_target _ _ _ _ _ _ H k g nm Hg Hnm Hgs). }
    destruct Hold as (H1 & q & Hq & Huq & Hnq). split; [exact H1|]. destruct (decide (i = Z.to_nat (h_pipe g - 1))) as [E|E].
    + exists p'. rewrite <- E in *. rewrite list_lookup_insert_eq by lia. replace q with p in * by congruence. splits; auto; congruence.
    + exists q. rewrite list_lookup_insert_ne by lia. auto.
  - intros k q Hq Huq. destruct (decide (i = k)) as [<-|Hik].
    + rewrite list_lookup_insert_eq in Hq by lia. congruence.
    + rewrite list_lookup_insert_ne in Hq by lia. rewrite (rp_open _ _ _ _ _ _ H k q Hq Huq), (attached_insert k _ j h h' Hh). unfold one_if.
      assert (~ on_pipe k h) by (intros [Hs1 Hs2]; specialize (Hon Hs1); lia).
      assert (~ on_pipe k h') by (intros [Hs1 Hs2]; destruct (Hon' Hs1); lia). rewrite !decide_False by assumption. lia.
  - apply Forall_insert; [|lia]. eapply Forall_impl; [apply H|]. cbn. intros g Hg. lia.
  - pose proof (rp_last _ _ _ _ _ _ H). lia.
  - unfold zlen. rewrite length_insert. apply H.
Qed.

(** A new handle. *)
Lemma attach_refines s A free chains datas names i p badge (reading : bool) :
  rep s A free chains datas names -> g_pipes s !! i = Some p -> used p = true -> a_serial A + 1 < 2 ^ 64 ->
  let kind := if reading then kHandleRead else kHandleWrite in
  let '(serial, A') := spec_attach (length (g_handles s)) A (pipe_name p) badge reading in
  match handle_alloc s badge with
  | (None, s') => s' = s /\ serial = 0 /\ A' = A
  | (Some j, s') =>
    let s' := with_handles s' (alter (fun h => mkHandle (h_serial h) (h_badge h) (Z.of_nat i + 1) kind) j (g_handles s')) (g_handle_serial s') in
    h_serial (handle_at s' j) = serial /\ represents (with_pipes s' (alter (pipe_opened reading) i (g_pipes s'))) A'
  end.
Proof.
  intros H Hp Hu Hlast. cbv zeta. unfold spec_attach, handle_alloc. pose proof (rp_store _ _ _ _ _ _ H) as Hst.
  pose proof (first_slot_spec (fun h => h_serial h =? 0) (g_handles s)) as Hf.
  assert (Hroom := table_room handle_entry _ (rp_handles_distinct _ _ _ _ _ _ H)). rewrite <- (rp_handles _ _ _ _ _ _ H) in Hroom.
  rewrite length_zip_with, (rp_names _ _ _ _ _ _ H), Nat.min_id in Hroom.
  destruct (first_slot _ (g_handles s)) as [j|].
  2:{ rewrite bool_decide_eq_false_2; [auto|]. rewrite Hroom. intros (j & [h nm] & Hx & He). apply zip_lookup in Hx as [Hh _].
      specialize (Hf j h Hh). unfold handle_entry in He. cbn in He. rewrite Hf in He. discriminate. }
  destruct Hf as (h & Hh & Hz). pose proof (lookup_lt_Some _ _ _ Hh) as Hj.
  destruct (lookup_lt_is_Some_2 names j) as [nm Hnm]; [rewrite (rp_names _ _ _ _ _ _ H); lia|].
  assert (He : handle_entry (h, nm) = None) by (unfold handle_entry; cbn; now rewrite Hz). apply Z.eqb_eq in Hz.
  rewrite bool_decide_eq_true_2 by (apply Hroom; exists j, (h, nm); split; [apply zip_lookup; auto|exact He]).
  destruct (store_slot _ _ _ _ _ _ Hst Hp) as (l & d & Hl & Hd & Hb & Ht).
  rewrite (rep_pipe_entry _ _ _ _ _ _ i p d H Hp Hu Hd). cbn [a_data a_writer a_ever with_handles g_handles g_pipes g_handle_serial].
  rewrite (rp_serial _ _ _ _ _ _ H) in Hlast |- *. pose proof (rp_last _ _ _ _ _ _ H) as Hl0. rewrite (u64_small (g_handle_serial s + 1)) by lia.
  set (serial := g_handle_serial s + 1). set (kind := if reading then kHandleRead else kHandleWrite).
  rewrite (alter_insert _ (g_handles s) j h Hh). rewrite (alter_insert _ (<[j := mkHandle serial badge (h_pipe h) (h_kind h)]> (g_handles s)) j (mkHandle serial badge (h_pipe h) (h_kind h)))
    by (now apply list_lookup_insert_eq). rewrite list_insert_insert_eq. cbn [h_serial h_badge]. rewrite (alter_insert _ _ i p Hp).
  set (h' := mkHandle serial badge (Z.of_nat i + 1) kind). split.
  { unfold handle_at. cbn. rewrite nth_lookup, list_lookup_insert_eq by lia. reflexivity. }
  destruct (table_fill handle_entry _ j (h, nm) (h', pipe_name p) serial (mkAHandle badge (pipe_name p) kind) (rp_handles_distinct _ _ _ _ _ _ H))
    as [Hdist Htab]; [apply zip_lookup; auto|exact He|unfold handle_entry; cbn; now rewrite (proj2 (Z.eqb_neq serial 0)) by lia| |].
  { apply table_none; [apply H|]. intros k [g gn] v Hg Hge. apply zip_lookup in Hg as [Hg _]. unfold handle_entry in Hge. cbn in Hge.
    destruct (h_serial g =? 0); [discriminate|]. injection Hge as Hge _.
    pose proof (Forall_lookup_1 _ _ _ _ (rp_below _ _ _ _ _ _ H) Hg) as Hbel. cbn in Hbel. lia. }
  exists free, chains, datas, (<[j := pipe_name p]> names).
  assert (Hcnt : u32 (open_count p + 1) = attached i (<[j := h']> (g_handles s))).
  { pose proof (attached_insert i _ j h h' Hh) as Hai. pose proof (attached_bound i (<[j := h']> (g_handles s))) as Hab.
    pose proof (rp_small _ _ _ _ _ _ H) as Hsm. unfold one_if in Hai. rewrite decide_False in Hai by (intros [Hx _]; congruence).
    rewrite decide_True in Hai by (split; [cbn; lia|reflexivity]). pose proof (attached_bound i (g_handles s)).
    rewrite (rp_open _ _ _ _ _ _ H i p Hp Hu). unfold zlen in Hab, Hsm. rewrite length_insert in Hab. rewrite u32_small; lia. }
  pose proof (rep_handle s A free chains datas names i p (pipe_opened reading p) d j h h' (pipe_name p) serial
    (<[serial := mkAHandle badge (pipe_name p) kind]> (a_handles A))) as HH.
  apply HH; auto; try lia; [unfold same_buffer; auto|now rewrite Htab, (rp_handles _ _ _ _ _ _ H)|cbn; lia].
Qed.

(** A pipe that no handle is on is taken out. *)
Lemma release_refines s A free chains datas names i p d :
  rep s A free chains datas names -> g_pipes s !! i = Some p -> used p = true -> datas !! i = Some d -> open_count p = 0 ->
  represents (pipe_release s i p) (mkPipes (delete (pipe_name p) (a_pipes A)) (a_handles A) (a_serial A) (a_free A + chunks_of d)).
Proof.
  intros H Hp Hu Hd Hopen. pose proof (rp_store _ _ _ _ _ _ H) as Hst.
  destruct (store_slot _ _ _ _ _ _ Hst Hp) as (l & d0 & Hl & Hd0 & Hb & Ht). rewrite Hd in Hd0. injection Hd0 as <-.
  destruct (freed_buffers s p free l d Hb) as (Hb' & Ho & Hperm). unfold pipe_release.
  set (s' := free_chain _ _ _) in *. set (p' := mkPipe false _ _ _ _ _ _ _ _ _ _).
  assert (Hi : (i < length (g_pipes s))%nat) by eauto using lookup_lt_Some.
  assert (Hb2 : buffers s' p' (rev l ++ free) [] []) by (destruct Hb' as [B1 B2 B3 B4 B5]; split; auto; split; cbn; auto).
  assert (Hnone : forall j h name, g_handles s !! j = Some h -> names !! j = Some name -> h_serial h ≠ 0 -> Z.to_nat (h_pipe h - 1) <> i).
  { intros j h nm Hh Hnm Hser Hpi. rewrite (rp_open _ _ _ _ _ _ H i p Hp Hu) in Hopen.
    destruct (rp_target _ _ _ _ _ _ H j h nm Hh Hnm Hser) as [H1 _]. apply (proj1 (attached_zero i _) Hopen j h Hh). split; [exact Hser|lia]. }
  destruct (table_drop pipe_entry (zip (g_pipes s) datas) i (p, d) (p', []) (pipe_name p) (mkAPipe d (writer_open p) (reader_ever p)))
    as [Hdist Htab]; [apply H|apply zip_lookup; auto|unfold pipe_entry; cbn; now rewrite Hu|reflexivity|].
  rewrite <- zip_insert in Hdist, Htab. exists (rev l ++ free), (<[i := []]> chains), (<[i := []]> datas), names.
  pose proof (oc_pipes _ _ _ Ho) as Hps. pose proof (oc_handles _ _ _ Ho) as Hhs. pose proof (oc_serial _ _ _ Ho) as Hsn.
  split; cbn [with_pipes g_pipes g_handles g_handle_serial a_pipes a_handles a_serial a_free]; rewrite ?Hps, ?Hhs, ?Hsn; auto; try apply H.
  - rewrite <- Hps. eapply (store_update s s'); eauto. intros Hne. congruence.
  - apply Forall_insert; [apply H|]. pose proof (Forall_lookup_1 _ _ _ _ (rp_shape _ _ _ _ _ _ H) Hp) as [Hs1 Hs2]. split; cbn; [exact Hs1|discriminate].
  - intros j q k Hq Hk Hun. destruct (decide (i = j)) as [<-|Hij].
    + rewrite list_lookup_insert_eq in Hk by eauto using lookup_lt_Some. congruence.
    + rewrite list_lookup_insert_ne in Hq by lia. rewrite list_lookup_insert_ne in Hk by lia. exact (rp_unused _ _ _ _ _ _ H j q k Hq Hk Hun).
  - rewrite zlen_app, (chunks_of_chain s p l d), (rp_free _ _ _ _ _ _ H) by (auto; apply Hb). unfold zlen. rewrite length_rev. lia.
  - rewrite Htab. now rewrite (rp_pipes _ _ _ _ _ _ H).
  - intros j h nm Hh Hnm Hser. destruct (rp_target _ _ _ _ _ _ H j h nm Hh Hnm Hser) as (H1 & q & Hq & Huq & Hnq).
    split; [exact H1|]. exists q. rewrite list_lookup_insert_ne; [auto|]. intros E. symmetry in E. revert E. eapply Hnone; eauto.
  - intros j q Hq Huq. destruct (decide (i = j)) as [<-|Hij].
    + rewrite list_lookup_insert_eq in Hq by lia. injection Hq as <-. discriminate.
    + rewrite list_lookup_insert_ne in Hq by lia. exact (rp_open _ _ _ _ _ _ H j q Hq Huq).
Qed.

(** The pipe a handle is on. *)
Lemma handle_target s A free chains datas names j h name :
  rep s A free chains datas names -> g_handles s !! j = Some h -> names !! j = Some name -> h_serial h ≠ 0 ->
  exists i p d, h_pipe h = Z.of_nat i + 1 /\ Z.to_nat (h_pipe h - 1) = i /\ g_pipes s !! i = Some p /\ pipe_at s i = p /\ used p = true /\
    pipe_name p = name /\ datas !! i = Some d.
Proof.
  intros H Hh Hn Hs. destruct (rp_target _ _ _ _ _ _ H j h name Hh Hn Hs) as (H1 & p & Hp & Hu & Hname).
  destruct (store_slot _ _ _ _ _ _ (rp_store _ _ _ _ _ _ H) Hp) as (l & d & _ & Hd & _).
  exists (Z.to_nat (h_pipe h - 1)), p, d. splits; auto; [lia|]. unfold pipe_at. now rewrite nth_lookup, Hp.
Qed.

Lemma rep_unattached s A free chains datas names i p :
  rep s A free chains datas names -> g_pipes s !! i = Some p -> used p = true ->
  open_count p = 0 <-> map_Forall (fun _ h => a_name h ≠ pipe_name p) (a_handles A).
Proof.
  intros H Hp Hu. rewrite (rp_open _ _ _ _ _ _ H i p Hp Hu), attached_zero, (rp_handles _ _ _ _ _ _ H). split.
  - intros Hno serial a Ha Hname. apply table_lookup in Ha as (j & [h nm] & Hj & He); [|apply H]. apply zip_lookup in Hj as [Hh Hnm].
    unfold handle_entry in He. cbn in He. destruct (Z.eqb_spec (h_serial h) 0) as [|Hs]; [discriminate|]. injection He as _ <-. cbn in Hname.
    destruct (handle_target _ _ _ _ _ _ j h nm H Hh Hnm Hs) as (k & q & d & Hpi & _ & Hq & _ & Huq & Hnq & Hd).
    destruct (store_slot _ _ _ _ _ _ (rp_store _ _ _ _ _ _ H) Hp) as (l & e & _ & He & _).
    assert (k = i) as ->; [|apply (Hno j h Hh); split; auto].
    apply (distinct_slot pipe_entry _ k i (q, d) (p, e) (pipe_name p) (mkAPipe d (writer_open q) (reader_ever q)) (mkAPipe e (writer_open p) (reader_ever p)) (rp_distinct _ _ _ _ _ _ H));
      try (now apply zip_lookup); unfold pipe_entry; cbn; [rewrite Huq; congruence|now rewrite Hu].
  - intros Hall j h Hh [Hs Hpi]. destruct (lookup_lt_is_Some_2 names j) as [nm Hnm]; [rewrite (rp_names _ _ _ _ _ _ H); eauto using lookup_lt_Some|].
    destruct (handle_target _ _ _ _ _ _ j h nm H Hh Hnm Hs) as (k & q & d & Hpk & _ & Hq & _ & Huq & Hnq & Hd).
    assert (k = i) as -> by lia. assert (q = p) as -> by congruence.
    apply (Hall (h_serial h) (mkAHandle (h_badge h) nm (h_kind h))); [|cbn; congruence].
    eapply table_lookup_1; [apply H|apply zip_lookup; split; eauto|]. unfold handle_entry. cbn. now rewrite (proj2 (Z.eqb_neq _ _)).
Qed.

Lemma close_refines s A free chains datas names j h name :
  rep s A free chains datas names -> g_handles s !! j = Some h -> names !! j = Some name -> h_serial h ≠ 0 ->
  let i := Z.to_nat (h_pipe h - 1) in
  let s1 := with_pipes s (alter (pipe_closed (h_kind h)) i (g_pipes s)) in
  let s2 := with_handles s1 (alter (fun h => mkHandle 0 (h_badge h) 0 (h_kind h)) j (g_handles s1)) (g_handle_serial s1) in
  let p := pipe_at s2 i in
  represents (if reader_ever p && (open_count p =? 0) then pipe_release s2 i p else s2)
    (spec_close A (h_serial h) (mkAHandle (h_badge h) name (h_kind h))).
Proof.
  intros H Hh Hn Hs. destruct (handle_target _ _ _ _ _ _ j h name H Hh Hn Hs) as (i & p & d & Hpi & Hi & Hp & _ & Hu & Hname & Hd).
  cbv zeta. rewrite Hi, (alter_insert _ _ i p Hp). cbn [with_pipes g_handles g_handle_serial]. rewrite (alter_insert _ _ j h Hh).
  set (p' := pipe_closed (h_kind h) p). set (h' := mkHandle 0 (h_badge h) 0 (h_kind h)).
  set (s2 := with_handles _ _ _).
  assert (Hlen : (i < length (g_pipes s))%nat) by eauto using lookup_lt_Some.
  assert (Hat : g_pipes s2 !! i = Some p') by (cbn; now rewrite list_lookup_insert_eq).
  replace (pipe_at s2 i) with p' by (unfold pipe_at; now rewrite nth_lookup, Hat).
  assert (Hz : zip (g_handles s) names !! j = Some (h, name)) by (apply zip_lookup; auto).
  destruct (table_drop handle_entry _ j (h, name) (h', name) (h_serial h) (mkAHandle (h_badge h) name (h_kind h)) (rp_handles_distinct _ _ _ _ _ _ H))
    as [Hdist Htab]; [exact Hz|unfold handle_entry; cbn; now rewrite (proj2 (Z.eqb_neq _ _))|reflexivity|].
  pose proof (attached_insert i _ j h h' Hh) as Hai. unfold one_if in Hai.
  rewrite decide_True in Hai by (split; auto). rewrite decide_False in Hai by (intros [Hx _]; cbn in Hx; lia).
  pose proof (attached_bound i (<[j := h']> (g_handles s))) as Hab. pose proof (rp_open _ _ _ _ _ _ H i p Hp Hu) as Hop.
  assert (Hopen : open_count p' = attached i (<[j := h']> (g_handles s))) by (cbn; zcase; lia).
  assert (Hrep : rep s2 (mkPipes (<[name := mkAPipe d (writer_open p') (reader_ever p')]> (a_pipes A)) (delete (h_serial h) (a_handles A)) (a_serial A) (a_free A))
                   free chains datas (<[j := name]> names)).
  { rewrite <- Hname at 1. rewrite (rp_serial _ _ _ _ _ _ H). pose proof (rp_last _ _ _ _ _ _ H).
    apply (rep_handle s A free chains datas names i p p' d j h h' name (g_handle_serial s)); auto; try lia;
      [unfold same_buffer; auto|cbn; congruence|now rewrite Htab, (rp_handles _ _ _ _ _ _ H)|cbn; lia]. }
  unfold spec_close. cbn [a_pipes a_handles a_serial a_free a_name a_kind]. rewrite <- Hname at 1. rewrite (rep_pipe_entry _ _ _ _ _ _ i p d H Hp Hu Hd).
  cbn [a_data a_writer a_ever]. change (reader_ever p') with (reader_ever p) in *.
  assert (Hlast : (open_count p' =? 0) = bool_decide (map_Forall (fun _ h0 => a_name h0 ≠ name) (delete (h_serial h) (a_handles A)))).
  { apply eq_true_iff_eq. rewrite Z.eqb_eq, bool_decide_eq_true, <- Hname.
    exact (rep_unattached _ _ _ _ _ _ i p' Hrep Hat Hu). }
  rewrite <- Hlast. destruct (reader_ever p && (open_count p' =? 0)) eqn:Erel; [|exists free, chains, datas, (<[j := name]> names); exact Hrep].
  apply andb_true_iff in Erel as [_ E0]. apply Z.eqb_eq in E0.
  pose proof (release_refines s2 _ _ _ _ _ i p' d Hrep Hat Hu Hd E0) as HH. cbn [a_pipes a_handles a_serial a_free] in HH.
  change (pipe_name p') with (pipe_name p) in HH. rewrite Hname in HH. now rewrite delete_insert_eq in HH.
Qed.

Lemma read_refines stale s A free chains datas names i p offset wanted :
  rep s A free chains datas names -> g_pipes s !! i = Some p -> used p = true -> word_ok offset -> word_ok wanted ->
  read_reply stale s p offset wanted = spec_read stale A (pipe_name p) offset wanted.
Proof.
  intros H Hp Hu Ho Hw. unfold word_ok in *. pose proof (rp_store _ _ _ _ _ _ H) as Hst.
  destruct (store_slot _ _ _ _ _ _ Hst Hp) as (l & d & Hl & Hd & Hb & Ht).
  unfold spec_read. rewrite (rep_pipe_entry _ _ _ _ _ _ i p d H Hp Hu Hd). cbn [a_data a_writer]. unfold read_reply.
  replace (if volume.kReadMax <? wanted then volume.kReadMax else wanted) with (Z.min wanted volume.kReadMax) by (zcase; lia).
  assert (Hk : 0 <= Z.min wanted volume.kReadMax) by (unfold volume.kReadMax; lia).
  rewrite (pipe_read_spec s p free l d offset _ Hb) by lia. rewrite (co_size _ _ _ _ (bu_chain _ _ _ _ _ Hb)).
  replace (u64 (offset + zlen (window d offset (Z.min wanted volume.kReadMax)))) with (offset + zlen (window d offset (Z.min wanted volume.kReadMax))); [reflexivity|].
  symmetry. apply u64_small. pose proof (zlen_nonneg (window d offset (Z.min wanted volume.kReadMax))) as H0. split; [lia|].
  destruct (store_split _ _ _ _ i l Hst Hl) as [Hn Hr]. rewrite <- app_assoc in Hn, Hr. apply NoDup_app in Hn as (_ & _ & Hn).
  apply NoDup_app in Hn as (Hn & _ & _). apply Forall_app in Hr as [_ Hr]. apply Forall_app in Hr as [Hr _].
  pose proof (chain_short s l Hn Hr) as Hs. unfold chain_fuel in Hs. pose proof (mo_count s (so_memory _ _ _ _ Hst)) as Hc.
  pose proof (chain_fits _ _ _ _ (bu_chain _ _ _ _ _ Hb)) as Hf. rewrite zlen_window by lia.
  unfold kChunkData, kChunkBytes, zlen in *. lia.
Qed.

(** The path of a message, when it has one. *)
Lemma unpack_ok words path : unpack_string words kPathMax = Some path -> bytes_ok path.
Proof. unfold unpack_string. destruct (_ || _); [discriminate|]. intros [= <-]. auto with buf. Qed.

Lemma answer_read_refines stale s A words :
  represents s A -> Forall word_ok words ->
  answer_read stale s words = match (if zlen words =? 0 then None else unpack_string words kPathMax) with
     | Some path =>
       let path_words := 1 + string_words (zlen path) in
       if zlen words <? path_words + 2 then [] else spec_read stale A path (word words path_words) (word words (path_words + 1))
     | None => []
     end.
Proof.
  intros (free & chains & datas & names & H) Hw. unfold answer_read. destruct (zlen words =? 0); [reflexivity|].
  destruct (unpack_string words kPathMax) as [path|]; [|reflexivity]. cbv zeta. destruct (_ <? _); [reflexivity|].
  pose proof (rep_find _ _ _ _ _ _ path H) as Hf. destruct (pipe_find s path) as [i|]; [|unfold spec_read; now rewrite Hf].
  destruct Hf as (p & d & Hp & Hd & Hu & <- & _). unfold pipe_at. rewrite nth_lookup, Hp. cbn.
  eapply read_refines; eauto using word_ok_nth.
Qed.

Lemma answer_read_handle_refines stale s A words badge :
  represents s A -> Forall word_ok words ->
  answer_read_handle stale s words badge = if zlen words <? 3 then []
     else match spec_lookup A (word words 0) badge with
          | Some h => if a_kind h =? kHandleRead then spec_read stale A (a_name h) (word words 1) (word words 2) else []
          | None => []
          end.
Proof.
  intros (free & chains & datas & names & H) Hw. unfold answer_read_handle. destruct (_ <? _); [reflexivity|].
  pose proof (rep_lookup _ _ _ _ _ _ (word words 0) badge H) as Hl. destruct (handle_lookup s _ badge) as [j|]; [|now rewrite Hl].
  destruct Hl as (h & nm & Hh & Hnm & -> & Hs & Hs0 & -> & Hb). cbn [a_kind a_name].
  destruct (handle_target _ _ _ _ _ _ j h nm H Hh Hnm ltac:(congruence)) as (i & p & d & Hpi & -> & Hp & -> & Hu & <- & Hd).
  rewrite (proj2 (Z.eqb_neq (h_pipe h) 0)), orb_false_r by lia. destruct (h_kind h =? kHandleRead); [|reflexivity]. cbn [negb].
  eapply read_refines; eauto using word_ok_nth.
Qed.

Lemma answer_write_refines s A words badge :
  represents s A -> Forall word_ok words ->
  let '(reply, s') := answer_write s words badge in
  let '(reply', A') :=
    if zlen words <? 3 then ([0], A)
    else
      match spec_lookup A (word words 0) badge with
      | Some h =>
        let n := word words 2 in
        if (a_kind h =? kHandleWrite) && (n <=? volume.kWriteMax) && (3 + string_words n <=? zlen words)
        then let '(written, A) := spec_append A (a_name h) (slice (bytes_of words) 24 n) in ([written], A)
        else ([0], A)
      | None => ([0], A)
      end in
  reply = reply' /\ represents s' A'.
Proof.
  intros Hrep Hw. pose proof Hrep as (free & chains & datas & names & H). unfold answer_write. destruct (_ <? 3); [auto|].
  pose proof (rep_lookup _ _ _ _ _ _ (word words 0) badge H) as Hl. destruct (handle_lookup s _ badge) as [j|]; [|now rewrite Hl].
  destruct Hl as (h & nm & Hh & Hnm & -> & Hs & Hs0 & -> & Hb). cbn [a_kind a_name]. cbv zeta.
  destruct (handle_target _ _ _ _ _ _ j h nm H Hh Hnm ltac:(congruence)) as (i & p & d & Hpi & -> & Hp & -> & Hu & <- & Hd).
  rewrite (proj2 (Z.eqb_neq (h_pipe h) 0)), orb_false_r by lia. rewrite !Z.ltb_antisym.
  destruct (h_kind h =? kHandleWrite); [|now cbn]. destruct (_ <=? volume.kWriteMax); [|now cbn]. destruct (_ <=? zlen words); [|now cbn]. cbn.
  pose proof (append_refines s A free chains datas names i p (slice (bytes_of words) 24 (word words 2)) H Hp Hu ltac:(auto with buf)) as Ha.
  destruct (pipe_append _ _ _ _) as [n s'], (spec_append _ _ _) as [n' A']. destruct Ha as [-> Ha]. auto.
Qed.

Lemma answer_open_refines s A words badge :
  represents s A -> a_serial A + 1 < 2 ^ 64 ->
  let '(reply, s') := answer_open s words badge in
  let '(reply', A') :=
    match (if zlen words =? 0 then None else unpack_string words kPathMax) with
    | Some path =>
      let path_words := 1 + string_words (zlen path) in
      if zlen words <? path_words + 1 then ([0], A)
      else let '(serial, A) := spec_open (length (g_pipes s)) (length (g_handles s)) A path (word words path_words) badge in ([serial], A)
    | None => ([0], A)
    end in
  reply = reply' /\ represents s' A'.
Proof.
  intros Hrep Hser. pose proof Hrep as (free & chains & datas & names & H). unfold answer_open. destruct (zlen words =? 0); [auto|].
  destruct (unpack_string words kPathMax) as [path|] eqn:Epath; [|auto]. cbv zeta. destruct (_ <? _); [auto|].
  set (flags := word words _). unfold spec_open. set (reading := negb (Z.land flags volume.kOpenRead =? 0)).
  pose proof (make_refines s A free chains datas names path H (unpack_ok _ _ Epath)) as Hm. destruct (pipe_make s path) as [[i|] s1].
  2:{ destruct Hm as [-> ->]. auto. }
  destruct Hm as (A1 & datas1 & p1 & -> & H1 & Hp1 & Hu1 & Hn1 & Hlen & Hhs & Hsn).
  set (cut := negb reading && _).
  assert (Hcut : exists free2 chains2 datas2 p2, let s2 := if cut then pipe_cut s1 i (pipe_at s1 i) else s1 in
    rep s2 (if cut then spec_cut A1 path else A1) free2 chains2 datas2 names /\ g_pipes s2 !! i = Some p2 /\ used p2 = true /\ pipe_name p2 = path /\
    g_handles s2 = g_handles s1 /\ a_serial (if cut then spec_cut A1 path else A1) = a_serial A1).
  { unfold pipe_at. rewrite nth_lookup, Hp1. cbn [default id]. destruct cut; [|exists free, chains, datas1, p1; splits; auto].
    destruct (cut_refines s1 A1 free chains datas1 names i p1 H1 Hp1 Hu1) as (f & c & dd & Hr). rewrite Hn1 in Hr.
    exists f, c, dd, (with_buffer p1 0 0 0 0). destruct (store_slot _ _ _ _ _ _ (rp_store _ _ _ _ _ _ H1) Hp1) as (l & d & _ & _ & Hb & _).
    destruct (freed_buffers s1 p1 free l d Hb) as (_ & Ho & _). cbv zeta. splits; auto.
    - unfold pipe_cut. cbn [with_pipes g_pipes]. rewrite (oc_pipes _ _ _ Ho), list_lookup_insert_eq; [reflexivity|]. eauto using lookup_lt_Some.
    - exact (oc_handles _ _ _ Ho).
    - unfold spec_cut. destruct (a_pipes A1 !! path); reflexivity. }
  destruct Hcut as (free2 & chains2 & datas2 & p2 & H2 & Hp2 & Hu2 & Hn2 & Hhs2 & Hsn2). cbv zeta in H2, Hp2, Hhs2.
  set (s2 := if cut then pipe_cut _ _ _ else _) in *. set (A2 := if cut then spec_cut _ _ else _) in *.
  pose proof (attach_refines s2 A2 free2 chains2 datas2 names i p2 badge reading H2 Hp2 Hu2 ltac:(rewrite Hsn2, Hsn; exact Hser)) as Ha.
  rewrite Hn2, Hhs2, Hhs in Ha. destruct (spec_attach _ A2 path badge reading) as [serial A3].
  destruct (handle_alloc s2 badge) as [[j|] s3].
  - destruct Ha as [-> Ha]. auto.
  - destruct Ha as (-> & -> & ->). split; [reflexivity|]. exists free2, chains2, datas2, names. exact H2.
Qed.

Lemma answer_close_refines s A words badge :
  represents s A ->
  let '(reply, s') := answer_close s words badge in
  let '(reply', A') :=
    if zlen words <? 1 then ([0], A)
    else
      match spec_lookup A (word words 0) badge with
      | Some h => ([1], spec_close A (word words 0) h)
      | None => ([0], A)
      end in
  reply = reply' /\ represents s' A'.
Proof.
  intros Hrep. pose proof Hrep as (free & chains & datas & names & H). unfold answer_close. destruct (_ <? 1); [auto|].
  pose proof (rep_lookup _ _ _ _ _ _ (word words 0) badge H) as Hl. destruct (handle_lookup s _ badge) as [j|]; [|now rewrite Hl].
  destruct Hl as (h & nm & Hh & Hnm & -> & Hs & Hs0 & -> & Hb).
  destruct (handle_target _ _ _ _ _ _ j h nm H Hh Hnm ltac:(congruence)) as (i & p & d & Hpi & _).
  rewrite (proj2 (Z.eqb_neq (h_pipe h) 0)) by lia. split; [reflexivity|]. rewrite <- Hb, <- Hs.
  exact (close_refines s A free chains datas names j h nm H Hh Hnm ltac:(congruence)).
Qed.

(** * Calls *)

Lemma serve_refines stale s A method words badge :
  represents s A -> Forall word_ok words -> a_serial A + 1 < 2 ^ 64 ->
  let '(reply, s') := serve stale s method words badge in
  let '(reply', A') := spec_serve (length (g_pipes s)) (length (g_handles s)) stale A method words badge in
  reply = reply' /\ represents s' A'.
Proof.
  intros Hrep Hw Hser. unfold serve, spec_serve. cbv zeta.
  destruct (method =? volume.kMethodRead); [rewrite (answer_read_refines stale s A) by auto; auto|].
  destruct (method =? volume.kMethodReadHandle); [rewrite (answer_read_handle_refines stale s A) by auto; auto|].
  destruct (method =? volume.kMethodWrite); [exact (answer_write_refines s A words badge Hrep Hw)|].
  destruct (method =? volume.kMethodOpen); [exact (answer_open_refines s A words badge Hrep Hser)|].
  destruct (method =? volume.kMethodClose); [exact (answer_close_refines s A words badge Hrep)|].
  destruct (method =? volume.kMethodStat); [unfold answer_stat; destruct (zlen words =? 0); auto|].
  destruct (method =? volume.kMethodList); [auto|]. destruct (_ || _); auto.
Qed.

(** The tables keep their sizes. *)
Definition same_tables (s s' : Service) : Prop :=
  length (g_pipes s') = length (g_pipes s) /\ length (g_handles s') = length (g_handles s).
Lemma free_chain_tables fuel : forall s c, same_tables s (free_chain fuel s c).
Proof.
  induction fuel as [|fuel IH]; intros s c; cbn [free_chain]; [now split|]. destruct (c =? 0); [now split|]. exact (IH (chunk_free s c) (chunk_next s c)).
Qed.
Lemma pipe_room_tables s p s' p' : pipe_room s p = Some (s', p') -> same_tables s s'.
Proof.
  unfold pipe_room, chunk_alloc. repeat case_match; intros [= <- <-]; simplify_eq; now split.
Qed.
Lemma append_tables fuel data : forall s p taken, same_tables s (append_loop fuel s p data taken).1.2.
Proof.
  induction fuel as [|fuel IH]; intros s p taken; cbn [append_loop]; [now split|]. destruct (_ <=? taken); [now split|].
  destruct (pipe_room s p) as [[s1 p1]|] eqn:E; [|now split]. apply pipe_room_tables in E as [E1 E2].
  set (s2 := set_chunk s1 _ _). set (p2 := with_buffer p1 _ _ _ _). destruct (IH s2 p2 (taken + (if zlen data - taken <? kChunkData - last_used p1 then zlen data - taken else kChunkData - last_used p1))) as [I1 I2].
  split; [rewrite I1|rewrite I2]; assumption.
Qed.
Lemma pipe_make_tables s name : same_tables s (pipe_make s name).2.
Proof.
  unfold pipe_make. destruct (_ || _); [now split|]. destruct (pipe_find s name); [now split|]. destruct (first_slot _ _); [|now split].
  split; cbn; [now rewrite length_alter|reflexivity].
Qed.
Lemma cut_tables s i p : same_tables s (pipe_cut s i p).
Proof.
  destruct (free_chain_tables (chain_fuel s) s (first_chunk p)) as [H1 H2]. unfold pipe_cut. split; [|exact H2]. cbn [with_pipes g_pipes].
  now rewrite length_insert.
Qed.
Lemma answer_open_tables s words badge : same_tables s (answer_open s words badge).2.
Proof.
  unfold answer_open. destruct (zlen words =? 0); [now split|]. destruct (unpack_string _ _) as [path|]; [|now split]. cbv zeta.
  destruct (_ <? _); [now split|]. pose proof (pipe_make_tables s path) as Hm. destruct (pipe_make s path) as [[i|] s1]; [|exact Hm]. cbn in Hm.
  set (s2 := if _ && _ then _ else _). assert (H2 : same_tables s s2).
  { unfold s2. destruct (_ && _); [|exact Hm]. destruct (cut_tables s1 i (pipe_at s1 i)) as [C1 C2]. destruct Hm as [M1 M2]. split; congruence. }
  unfold handle_alloc. destruct (first_slot _ _); [|exact H2]. destruct H2 as [M1 M2].
  split; cbn; rewrite ?length_alter; assumption.
Qed.
Lemma serve_tables stale s method words badge : same_tables s (serve stale s method words badge).2.
Proof.
  unfold serve. repeat (destruct (method =? _); [first [now split|apply answer_open_tables|idtac]|]); [| |destruct (_ || _); now split].
  - unfold answer_write. destruct (_ <? 3); [now split|]. destruct (handle_lookup _ _ _) as [j|]; [|now split]. cbv zeta. destruct (_ || _); [now split|].
    unfold pipe_append. set (p := pipe_at _ _). set (data := slice _ _ _). pose proof (append_tables (S (length data)) data s p 0) as [H1 H2].
    destruct (append_loop _ s p data 0) as [[n s1] p1]. cbn in *. split; cbn; [now rewrite length_insert|exact H2].
  - unfold answer_close. destruct (_ <? 1); [now split|]. destruct (handle_lookup _ _ _) as [j|]; [|now split]. cbv zeta. destruct (h_pipe _ =? 0); [now split|].
    set (s2 := with_handles _ _ _). set (p := pipe_at s2 _). assert (H2 : same_tables s s2) by (split; cbn; now rewrite length_alter).
    cbn [snd]. destruct (_ && _); [|exact H2]. unfold pipe_release. destruct (free_chain_tables (chain_fuel s2) s2 (first_chunk p)) as [F1 F2].
    destruct H2 as [M1 M2]. split; cbn [with_pipes g_pipes g_handles]; [rewrite length_insert|]; congruence.
Qed.

(** A call uses one serial at most. *)
Lemma spec_open_serial pipe_slots handle_slots A name flags badge :
  a_serial (spec_open pipe_slots handle_slots A name flags badge).2 <= a_serial A + 1.
Proof.
  unfold spec_open. destruct (spec_make pipe_slots A name) as [A1|] eqn:E; [|cbn; lia].
  assert (H1 : a_serial A1 = a_serial A).
  { unfold spec_make in E. destruct (_ || _); [discriminate|]. destruct (a_pipes A !! name); [now injection E as <-|].
    destruct (bool_decide _); [|discriminate]. now injection E as <-. }
  cbv zeta. set (A2 := if _ && _ then _ else _).
  assert (H2 : a_serial A2 = a_serial A) by (unfold A2, spec_cut; destruct (_ && _); [destruct (a_pipes A1 !! name)|]; exact H1).
  unfold spec_attach. destruct (bool_decide _); [destruct (a_pipes A2 !! name)|]; cbn; lia.
Qed.
Lemma spec_serial pipe_slots handle_slots stale A method words badge :
  a_serial (spec_serve pipe_slots handle_slots stale A method words badge).2 <= a_serial A + 1.
Proof.
  unfold spec_serve. cbv zeta. repeat (destruct (method =? _); [try (cbn; lia)|]).
  - destruct (_ <? 3); [cbn; lia|]. destruct (spec_lookup _ _ _) as [h|]; [|cbn; lia]. destruct (_ && _); [|cbn; lia].
    unfold spec_append. destruct (_ !! _); cbn; lia.
  - destruct (if _ =? 0 then _ else _) as [path|]; [|cbn; lia]. destruct (_ <? _); [cbn; lia|].
    pose proof (spec_open_serial pipe_slots handle_slots A path (word words (1 + string_words (zlen path))) badge) as H.
    destruct (spec_open _ _ _ _ _ _). exact H.
  - destruct (_ <? 1); [cbn; lia|]. destruct (spec_lookup _ _ _) as [h|]; [|cbn; lia]. cbn. unfold spec_close. cbn.
    destruct (_ !! _); [destruct (_ && _)|]; cbn; lia.
  - destruct (_ || _); cbn; lia.
Qed.

(** A sequence of calls, and the replies. *)
Record Call := mkCall { c_method : Z; c_words : list Z; c_badge : Z; c_stale : bytes }.
Fixpoint run (s : Service) (calls : list Call) : list (list Z) * Service :=
  match calls with
  | [] => ([], s)
  | c :: calls =>
    let '(reply, s) := serve (c_stale c) s (c_method c) (c_words c) (c_badge c) in
    let '(replies, s) := run s calls in
    (reply :: replies, s)
  end.
Fixpoint spec_run (pipe_slots handle_slots : nat) (A : Pipes) (calls : list Call) : list (list Z) * Pipes :=
  match calls with
  | [] => ([], A)
  | c :: calls =>
    let '(reply, A) := spec_serve pipe_slots handle_slots (c_stale c) A (c_method c) (c_words c) (c_badge c) in
    let '(replies, A) := spec_run pipe_slots handle_slots A calls in
    (reply :: replies, A)
  end.

Lemma run_refines calls : forall s A,
  represents s A -> Forall (fun c => Forall word_ok (c_words c)) calls -> a_serial A + zlen calls < 2 ^ 64 ->
  let '(replies, s') := run s calls in
  let '(replies', A') := spec_run (length (g_pipes s)) (length (g_handles s)) A calls in
  replies = replies' /\ represents s' A'.
Proof.
  induction calls as [|c calls IH]; intros s A Hrep Hw Hser; cbn [run spec_run]; [auto|].
  apply Forall_cons in Hw as [Hc Hw]. rewrite zlen_cons in Hser. pose proof (zlen_nonneg calls) as H0.
  pose proof (serve_refines (c_stale c) s A (c_method c) (c_words c) (c_badge c) Hrep Hc ltac:(lia)) as Hs.
  pose proof (serve_tables (c_stale c) s (c_method c) (c_words c) (c_badge c)) as [Ht1 Ht2].
  pose proof (spec_serial (length (g_pipes s)) (length (g_handles s)) (c_stale c) A (c_method c) (c_words c) (c_badge c)) as Hn.
  destruct (serve _ s _ _ _) as [reply s1], (spec_serve _ _ _ A _ _ _) as [reply' A1]. cbn [snd] in *. destruct Hs as [-> Hs].
  specialize (IH s1 A1 Hs Hw ltac:(lia)). rewrite Ht1, Ht2 in IH.
  destruct (run s1 calls) as [replies s'], (spec_run _ _ A1 calls) as [replies' A']. destruct IH as [-> IH]. auto.
Qed.

(** * From the start *)

Definition next_in (chunks : list bytes) (c : Z) : Z := le_num (slice (nth (Z.to_nat (c - 1)) chunks []) 0 4).

Lemma link_free_spec n : forall chunks head,
  Forall (fun b => zlen b = kChunkBytes /\ bytes_ok b) chunks -> (n <= length chunks)%nat -> zlen chunks < 2 ^ 32 ->
  linked (next_in chunks) head (seqZ (Z.of_nat n + 1) (zlen chunks - Z.of_nat n)) ->
  let '(chunks', head') := link_free n chunks head in
  Forall (fun b => zlen b = kChunkBytes /\ bytes_ok b) chunks' /\ zlen chunks' = zlen chunks /\ linked (next_in chunks') head' (seqZ 1 (zlen chunks)).
Proof.
  induction n as [|n IH]; intros chunks head Hc Hn Hlen Hl; cbn [link_free].
  { rewrite Z.sub_0_r in Hl. auto. }
  destruct (lookup_lt_is_Some_2 chunks n ltac:(lia)) as [b Hb]. rewrite nth_lookup, Hb. cbn [default id].
  destruct (Forall_lookup_1 _ _ _ _ Hc Hb) as [Hbz Hbb].
  set (chunks1 := <[n := blit b 0 (le_split 4 head)]> chunks).
  assert (Hz : zlen chunks1 = zlen chunks) by (unfold chunks1, zlen; now rewrite length_insert).
  assert (Hhead : 0 <= head < 2 ^ 32).
  { destruct (seqZ _ _) as [|x k] eqn:E; cbn in Hl; [lia|]. destruct Hl as (-> & _).
    assert (Hx : x ∈ seqZ (Z.of_nat (S n) + 1) (zlen chunks - Z.of_nat (S n))) by (rewrite E; set_solver).
    apply elem_of_seqZ in Hx. lia. }
  specialize (IH chunks1 (Z.of_nat n + 1)). rewrite Hz in IH. apply IH; [|unfold chunks1; rewrite length_insert; lia|lia|].
  { apply Forall_insert; [exact Hc|]. apply blit_chunk_ok; [lia|now split|auto with buf]. }
  replace (zlen chunks - Z.of_nat n) with (Z.succ (zlen chunks - Z.of_nat (S n))) by lia.
  rewrite seqZ_cons by (unfold zlen in *; lia). cbn [linked].
  replace (Z.succ (Z.of_nat n + 1)) with (Z.of_nat (S n) + 1) by lia. rewrite Z.pred_succ.
  splits; [reflexivity|lia|].
  assert (Hnext : next_in chunks1 (Z.of_nat n + 1) = head).
  { unfold next_in. replace (Z.to_nat (Z.of_nat n + 1 - 1)) with n by lia. unfold chunks1. rewrite nth_lookup, list_lookup_insert_eq by lia.
    apply link_get; [lia|rewrite Hbz; unfold kChunkBytes; lia|lia]. }
  rewrite Hnext. eapply linked_ext; [|exact Hl]. intros c Hcm. apply elem_of_seqZ in Hcm. unfold next_in, chunks1. rewrite !nth_lookup.
  rewrite list_lookup_insert_ne by lia. reflexivity.
Qed.

Lemma entries_none {A K V} (entry : A -> option (K * V)) l : Forall (fun x => entry x = None) l -> entries entry l = [].
Proof. induction 1 as [|x l Hx _ IH]; [reflexivity|]. unfold entries in *. cbn. now rewrite Hx. Qed.

Definition empty_pipes (chunks : Z) : Pipes := mkPipes ∅ ∅ 0 chunks.

Lemma init_represents bytes :
  0 <= bytes < 2 ^ 32 -> represents (memory_init bytes) (empty_pipes ((bytes - bytes / 4) / kChunkBytes)).
Proof.
  intros Hb. unfold memory_init. set (count := (bytes - bytes / 4) / kChunkBytes).
  assert (Hcount : 0 <= count < 2 ^ 32) by (unfold count, kChunkBytes; zlia).
  set (pc := bytes / 4 / 2 / kPipeBytes). set (hc := (bytes / 4 - pc * kPipeBytes) / kHandleBytes).
  assert (Hhc : 0 <= hc < 2 ^ 32) by (unfold hc, pc, kPipeBytes, kHandleBytes; zlia).
  set (chunks := replicate (Z.to_nat count) (zeros kChunkBytes)).
  assert (Hz : zlen chunks = count) by (unfold chunks, zlen; rewrite length_replicate; lia).
  assert (Hok : Forall (fun b => zlen b = kChunkBytes /\ bytes_ok b) chunks).
  { apply Forall_replicate. split; [reflexivity|auto with buf]. }
  pose proof (link_free_spec (Z.to_nat count) chunks 0 Hok ltac:(unfold chunks; rewrite length_replicate; lia) ltac:(lia)) as Hl.
  destruct (link_free _ chunks 0) as [chunks' head]. destruct Hl as (Hok' & Hz' & Hl).
  { rewrite Hz. replace (count - Z.of_nat (Z.to_nat count)) with 0 by lia. reflexivity. }
  rewrite Hz in *.
  assert (Hpe : entries pipe_entry (zip (replicate (Z.to_nat pc) no_pipe) (replicate (Z.to_nat pc) ([] : list Z))) = []).
  { apply entries_none, Forall_forall. intros [p d] Hx. apply elem_of_zip_l in Hx. apply elem_of_replicate in Hx as [-> _]. reflexivity. }
  assert (Hhe : entries handle_entry (zip (replicate (Z.to_nat hc) no_handle) (replicate (Z.to_nat hc) ([] : list Z))) = []).
  { apply entries_none, Forall_forall. intros [h d] Hx. apply elem_of_zip_l in Hx. apply elem_of_replicate in Hx as [-> _]. reflexivity. }
  exists (seqZ 1 count), (replicate (Z.to_nat pc) []), (replicate (Z.to_nat pc) []), (replicate (Z.to_nat hc) []).
  assert (Hcc : concat (replicate (Z.to_nat pc) ([] : list Z)) = []) by (induction (Z.to_nat pc); auto).
  assert (Hm : memory_ok (mkService (replicate (Z.to_nat pc) no_pipe) (replicate (Z.to_nat hc) no_handle) chunks' head 0)) by (split; cbn; [exact Hok'|lia]).
  split; cbn [g_pipes g_handles g_handle_serial empty_pipes a_pipes a_handles a_serial a_free]; rewrite ?length_replicate; auto; try lia.
  - split; cbn [g_pipes g_free_head]; rewrite ?length_replicate, ?Hcc, ?app_nil_r; auto.
    + intros i p l d Hp Hlk Hd. apply lookup_replicate in Hp as [-> _], Hlk as [-> _], Hd as [-> _]. split; [now split|]. intros Hne. congruence.
    + apply NoDup_seqZ.
    + apply Forall_forall. intros c Hc. apply elem_of_seqZ in Hc. unfold in_range. cbn. lia.
  - apply Forall_replicate. split; [reflexivity|discriminate].
  - intros i p l _ Hlk _. apply lookup_replicate in Hlk as [-> _]. reflexivity.
  - unfold zlen. rewrite length_seqZ. lia.
  - unfold distinct. rewrite Hpe. constructor.
  - unfold table. rewrite Hpe. reflexivity.
  - unfold distinct. rewrite Hhe. constructor.
  - unfold table. rewrite Hhe. reflexivity.
  - intros j h nm Hh _ Hs. apply lookup_replicate in Hh as [-> _]. cbn in Hs. lia.
  - intros i p Hp Hu. apply lookup_replicate in Hp as [-> _]. discriminate.
  - apply Forall_replicate. cbn. lia.
  - unfold zlen. rewrite length_replicate. lia.
Qed.

(** C17: the pipe service started on any grant answers every sequence of calls,
    of any callers, as the specification does: a map from names to byte strings
    and a map from handles to names, with the limits of its tables and chunks.
    Its memory represents the specification's state after every sequence, so no
    chunk is in two chains or lost.  The specification is the code's behaviour
    where specs/pipe.md says otherwise: a write open cuts a name already there
    only when it carries kOpenTruncate, not by kOpenCreate alone
    ([create_open_keeps]), and a pipe nobody has read stays when its last handle
    closes ([unread_pipe_stays]). *)
Theorem pipe_service_refines grant calls :
  0 <= grant < 2 ^ 32 -> Forall (fun c => Forall word_ok (c_words c)) calls -> zlen calls < 2 ^ 64 ->
  let s := memory_init grant in
  let '(replies, s') := run s calls in
  let '(replies', A') := spec_run (length (g_pipes s)) (length (g_handles s)) (empty_pipes ((grant - grant / 4) / kChunkBytes)) calls in
  replies = replies' /\ represents s' A'.
Proof.
  intros Hg Hw Hn. apply run_refines; [now apply init_represents|exact Hw|exact Hn].
Qed.

(** What a client sees of an answer to a read: the count, the flag, and that
    many bytes of the pipe, whatever the array held before. *)
Lemma read_answer stale d eof :
  bytes_ok stale -> bytes_ok d -> zlen d <= volume.kReadMax -> 8 * (volume.kReadHeaderWords + string_words (zlen d)) <= zlen stale -> 0 <= eof <= 1 ->
  let reply := answer_words stale (zlen d) eof d in
  word reply 0 = zlen d /\ word reply 1 = eof /\ slice (bytes_of reply) 16 (zlen d) = d.
Proof.
  intros Hs Hd Hm Hst He. cbv zeta. pose proof (zlen_nonneg d) as H0. pose proof (string_words_bound _ H0) as Hw.
  unfold answer_words. change (8 * volume.kReadHeaderWords) with 16. unfold volume.kReadHeaderWords, volume.kReadMax in *.
  set (head := le_split 8 (zlen d) ++ le_split 8 eof). assert (Hh : zlen head = 16) by reflexivity.
  set (b := blit (blit stale 0 head) 16 d).
  assert (Hb : bytes_ok b) by (unfold b, head; apply bytes_ok_blit; [lia|apply bytes_ok_blit; auto with buf; lia|auto]).
  assert (Hslice : forall o, 0 <= o -> o + 8 <= 16 -> slice b o 8 = slice head o 8).
  { intros o Ho1 Ho2. unfold b. rewrite slice_blit_disj by lia. apply slice_ext; [lia..|]. intros i Hi. rewrite byte_at_blit by lia.
    rewrite (proj2 (Z.leb_le _ _)), !(proj2 (Z.ltb_lt _ _)) by lia. cbn [andb]. f_equal. lia. }
  rewrite !word_words_of by lia. rewrite !Hslice by lia. unfold head. splits.
  - rewrite slice_app_l by (rewrite ?zlen_le_split; lia). rewrite slice_all by reflexivity. apply word_num. unfold word_ok. lia.
  - rewrite slice_app_r by (rewrite ?zlen_le_split; lia). rewrite slice_all by reflexivity. apply word_num. unfold word_ok. lia.
  - rewrite bytes_of_words_of by (auto; lia). rewrite slice_slice by lia. cbn [Z.add]. unfold b. rewrite slice_blit_same by (rewrite ?zlen_blit; lia). reflexivity.
Qed.

(** ** Instances *)

(** A name of one word, as a message carries it. *)
Definition text_ab : list Z := [2; 97 + 256 * 98].
Definition stale_zero : bytes := zeros 952.
Definition open_ab (flags badge : Z) : Call := mkCall volume.kMethodOpen (text_ab ++ [flags]) badge stale_zero.
Definition write_3 (handle badge : Z) : Call := mkCall volume.kMethodWrite [handle; 0; 3; 1 + 256 * 2 + 65536 * 3] badge stale_zero.
Definition read_at (handle offset badge : Z) : Call := mkCall volume.kMethodReadHandle [handle; offset; 100] badge stale_zero.
Definition close_of (handle badge : Z) : Call := mkCall volume.kMethodClose [handle] badge stale_zero.

(** A writer and a reader; another badge's handle is none of the caller's. *)
Definition session : list Call :=
  [open_ab volume.kOpenCreate 7; write_3 1 7; open_ab volume.kOpenRead 8; read_at 2 1 8; read_at 2 3 8; read_at 2 0 7; close_of 1 7; read_at 2 3 8; close_of 2 8].
Example session_replies : (run (memory_init 8192) session).1 = [[1]; [3]; [2]; [2; 0; 2 + 256 * 3]; [0; 0]; []; [1]; [0; 1]; [1]].
Proof. vm_compute. reflexivity. Qed.

(** With two writers, the first to close ends the pipe for the reader although
    the other still holds its end. *)
Example two_writers_end :
  (run (memory_init 8192) [open_ab volume.kOpenCreate 7; open_ab volume.kOpenCreate 7; open_ab volume.kOpenRead 8; close_of 1 7; read_at 3 0 8; write_3 2 7]).1
  = [[1]; [2]; [3]; [1]; [0; 1]; [3]].
Proof. vm_compute. reflexivity. Qed.

(** An open that is refused for want of a handle has already cut the pipe. *)
Example refused_open_cuts :
  let calls := open_ab volume.kOpenCreate 7 :: write_3 1 7 :: repeat (open_ab volume.kOpenRead 8) 29 in
  let last := [read_at 2 0 8; open_ab (volume.kOpenCreate + volume.kOpenTruncate) 7; read_at 2 0 8] in
  drop 31 (run (memory_init 5462) (calls ++ last)).1 = [[3; 0; 1 + 256 * 2 + 65536 * 3]; [0]; [0; 0]].
Proof. vm_compute. reflexivity. Qed.

(** A create open without kOpenTruncate keeps what the name holds, where
    specs/pipe.md has it truncated to nothing. *)
Example create_open_keeps :
  (run (memory_init 8192) [open_ab volume.kOpenCreate 7; write_3 1 7; open_ab volume.kOpenCreate 7; open_ab volume.kOpenRead 8; read_at 3 0 8]).1
  = [[1]; [3]; [2]; [3]; [3; 0; 1 + 256 * 2 + 65536 * 3]].
Proof. vm_compute. reflexivity. Qed.

(** A pipe whose last handle closes before any reader came keeps its bytes, where
    specs/pipe.md has it die. *)
Example unread_pipe_stays :
  (run (memory_init 8192) [open_ab volume.kOpenCreate 7; write_3 1 7; close_of 1 7; open_ab volume.kOpenRead 8; read_at 2 0 8]).1
  = [[1]; [3]; [1]; [2]; [3; 1; 1 + 256 * 2 + 65536 * 3]].
Proof. vm_compute. reflexivity. Qed.

Lemma pipe_service_refines_witness :
  Forall (fun c => Forall word_ok (c_words c)) session /\
  let s := memory_init 8192 in
  let '(replies, s') := run s session in
  let '(replies', A') := spec_run (length (g_pipes s)) (length (g_handles s)) (empty_pipes ((8192 - 8192 / 4) / kChunkBytes)) session in
  replies = replies' /\ represents s' A'.
Proof.
  assert (Hw : Forall (fun c => Forall word_ok (c_words c)) session) by (repeat constructor; vm_compute; congruence).
  split; [exact Hw|]. apply (pipe_service_refines 8192 session); [lia|exact Hw|reflexivity].
Defined.
