(* ===== verification/Fat.v ===== *)
(** The FAT formats (apps/freestanding/aegir-fs-fat, src/fat.h and src/fat.cc):
    the boot sector, directory entries with their long names, the entries of
    the file allocation table, and DOS dates.  The theorems: a name stored as a
    long-name run is read back, a time is read back to two seconds, and what the
    boot sector places does not overlap. *)
From stdpp Require Import base numbers list list_numbers.
From Stdlib Require Import ZArith Lia.
From S2P Require Import Prelude Layout.

(** * Words *)

Definition word16 (b : bytes) (at_ : Z) : Z := Z.lor (byte_at b at_) (Z.shiftl (byte_at b (at_ + 1)) 8).
Definition word32 (b : bytes) (at_ : Z) : Z :=
  fold_left (fun value i => Z.lor value (Z.shiftl (byte_at b (at_ + i)) (i * 8))) (seqZ 0 4) 0.
Definition put16 (b : bytes) (at_ value : Z) : bytes :=
  set_byte (set_byte b at_ (u8 value)) (at_ + 1) (u8 (Z.shiftr value 8)).
Definition put32 (b : bytes) (at_ value : Z) : bytes :=
  fold_left (fun b i => set_byte b (at_ + i) (u8 (Z.shiftr value (i * 8)))) (seqZ 0 4) b.

(** * The boot sector *)

Inductive Flavor := NotFat | Fat12 | Fat16 | Fat32 | Exfat.
#[global] Instance flavor_eq_dec : EqDecision Flavor.
Proof. solve_decision. Defined.

Record Volume := mkVolume {
  sectors_per_cluster : Z;
  fat_start : Z;
  fat_sectors : Z;
  fats : Z;
  data_start : Z;
  root_cluster : Z;
  root_start : Z;
  root_sectors : Z;
  fat32 : bool;
}.

Definition exfat_mark (sector : bytes) : bool := bool_decide (slice sector 3 6 = [69; 88; 70; 65; 84; 32]).

(** [volume] is what the caller's struct held; only a sector that passes the
    checks fills it. *)
Definition bpb (sector : bytes) (volume : Volume) : Flavor * Volume :=
  if exfat_mark sector then (Exfat, volume)
  else if negb (byte_at sector 510 =? 0x55) || negb (byte_at sector 511 =? 0xaa) then (NotFat, volume)
  else
    let bytes_per_sector := word16 sector 11 in
    let per_cluster := byte_at sector 13 in
    let reserved := word16 sector 14 in
    let copies := byte_at sector 16 in
    let root_entries := word16 sector 17 in
    if negb (bytes_per_sector =? 512) || (per_cluster =? 0) || (reserved =? 0) || (copies =? 0) then (NotFat, volume)
    else
      let is32 := root_entries =? 0 in
      let per_fat := if is32 then word32 sector 36 else word16 sector 22 in
      if per_fat =? 0 then
        (NotFat, mkVolume (sectors_per_cluster volume) (fat_start volume) (fat_sectors volume) (fats volume) (data_start volume)
                   (root_cluster volume) (root_start volume) (root_sectors volume) is32)
      else
        let rsectors := if is32 then 0 else (root_entries * 32 + 511) / 512 in
        let rstart := reserved + copies * per_fat in
        let dstart := rstart + rsectors in
        let volume := mkVolume per_cluster reserved per_fat copies dstart (if is32 then word32 sector 44 else 0) rstart rsectors is32 in
        if is32 then (Fat32, volume)
        else
          let total_sectors := if negb (word16 sector 19 =? 0) then word16 sector 19 else word32 sector 32 in
          let data_sectors := if dstart <? total_sectors then u32 (total_sectors - dstart) else 0 in
          let clusters := data_sectors / per_cluster in
          (if clusters <? 4085 then Fat12 else Fat16, volume).

Definition cluster_sector (volume : Volume) (cluster : Z) : Z :=
  u64 (data_start volume + u32 (cluster - 2) * sectors_per_cluster volume).

(** * The file allocation table *)

Definition kEoc32 : Z := 0x0ffffff8.
Definition kEoc16 : Z := 0xfff8.
Definition kFreeCluster : Z := 0.
Definition kEocMark32 : Z := 0x0fffffff.
Definition kEocMark16 : Z := 0xffff.

Definition next32 (fat_sector : bytes) (cluster_mod_128 : Z) : Z := Z.land (word32 fat_sector (cluster_mod_128 * 4)) 0x0fffffff.
Definition next16 (fat_sector : bytes) (cluster_mod_256 : Z) : Z := word16 fat_sector (cluster_mod_256 * 2).
Definition set_next32 (fat_sector : bytes) (cluster_mod_128 value : Z) : bytes :=
  let entry := cluster_mod_128 * 4 in
  put32 fat_sector entry (Z.lor (Z.land (word32 fat_sector entry) 0xf0000000) (Z.land value 0x0fffffff)).
Definition set_next16 (fat_sector : bytes) (cluster_mod_256 value : Z) : bytes :=
  put16 fat_sector (cluster_mod_256 * 2) (u16 value).

(** * Directory slots *)

Definition kDirentAttr : Z := 11.
Definition kDirentClusterHigh : Z := 20.
Definition kDirentClusterLow : Z := 26.
Definition kDirentSize : Z := 28.
Definition kAttrArchive : Z := 0x20.
Definition kAttrDirectory : Z := 0x10.
Definition kDirentCreateTime : Z := 14.
Definition kDirentCreateDate : Z := 16.
Definition kDirentAccessDate : Z := 18.
Definition kDirentWriteTime : Z := 22.
Definition kDirentWriteDate : Z := 24.
Definition kLongNameUnits : Z := 255.
Definition kLfnSlotsMax : Z := (kLongNameUnits + 12) / 13.

Record Dirent := mkDirent {
  d_name : bytes;
  d_first_cluster : Z;
  d_bytes : Z;
  d_date : Z;
  d_time : Z;
  d_directory : bool;
}.

Inductive SlotKind := End_ | Deleted | LfnSlot | Label | Short.
#[global] Instance slot_kind_eq_dec : EqDecision SlotKind.
Proof. solve_decision. Defined.

Definition slot_kind (raw : bytes) : SlotKind :=
  if byte_at raw 0 =? 0 then End_
  else if byte_at raw 0 =? 0xe5 then Deleted
  else if byte_at raw 11 =? 0x0f then LfnSlot
  else if negb (Z.land (byte_at raw 11) 0x08 =? 0) then Label
  else Short.

(** [while (n > least && raw[n - 1] == ' ') --n] *)
Fixpoint trim_spaces (k : nat) (raw : bytes) (least : nat) : nat :=
  match k with
  | O => O
  | S k' => if (least <? k)%nat && (byte_at raw (Z.of_nat k') =? 32) then trim_spaces k' raw least else k
  end.

Definition short_dirent (raw : bytes) : Dirent :=
  let base := trim_spaces 8 raw 0 in
  let ext := trim_spaces 11 raw 8 in
  mkDirent (slice raw 0 (Z.of_nat base) ++ (if (8 <? ext)%nat then 46 :: slice raw 8 (Z.of_nat ext - 8) else []))
    (Z.lor (Z.shiftl (word16 raw 20) 16) (word16 raw 26)) (word32 raw 28)
    (word16 raw kDirentWriteDate) (word16 raw kDirentWriteTime) (negb (Z.land (byte_at raw 11) 0x10 =? 0)).

(** A slot of 32 bytes, whatever it held. *)
Definition dirent_make (name83 : bytes) : bytes := set_byte (blit (zeros 32) 0 (slice name83 0 11)) kDirentAttr kAttrArchive.
Definition dirent_make_dir (name83 : bytes) (cluster : Z) : bytes :=
  let slot := set_byte (dirent_make name83) kDirentAttr kAttrDirectory in
  let slot := put16 slot kDirentClusterHigh (u16 (Z.shiftr cluster 16)) in
  put16 slot kDirentClusterLow (u16 cluster).
Definition dirent_set_case (slot : bytes) (base_lower ext_lower : bool) : bytes :=
  set_byte slot 12 (Z.lor (if base_lower then 0x08 else 0) (if ext_lower then 0x10 else 0)).
Definition dirent_update (slot : bytes) (first_cluster nbytes : Z) : bytes :=
  let slot := put16 slot kDirentClusterHigh (u16 (Z.shiftr first_cluster 16)) in
  let slot := put16 slot kDirentClusterLow (u16 first_cluster) in
  put32 slot kDirentSize nbytes.
Definition dirent_set_time (slot : bytes) (date time : Z) : bytes :=
  let slot := put16 slot kDirentCreateTime time in
  let slot := put16 slot kDirentCreateDate date in
  let slot := put16 slot kDirentAccessDate date in
  let slot := put16 slot kDirentWriteTime time in
  put16 slot kDirentWriteDate date.
Definition dirent_time (slot : bytes) : Z * Z := (word16 slot kDirentWriteDate, word16 slot kDirentWriteTime).

(** * Long names *)

Definition name_checksum (short_name : bytes) : Z :=
  fold_left (fun sum i => u8 (Z.shiftl (Z.land sum 1) 7 + Z.shiftr sum 1 + byte_at short_name i)) (seqZ 0 11) 0.

Record Lfn := mkLfn {
  l_units : list Z;
  l_fragments : list Z;
  l_fragment_index : list Z;
  l_count : Z;
  l_expected : Z;
  l_checksum : Z;
  l_active : bool;
}.

Definition lfn_zero : Lfn :=
  mkLfn (zeros kLongNameUnits) (zeros kLfnSlotsMax) (zeros kLfnSlotsMax) 0 0 0 false.

Definition lfn_reset (run : Lfn) : Lfn := mkLfn (l_units run) (l_fragments run) (l_fragment_index run) 0 0 0 false.

(** The offsets of a slot's thirteen units: five from 1, six from 14, two from
    28. *)
Definition feed_offsets : list Z :=
  concat (map (fun g => map (fun j => g.1 + j * 2) (seqZ 0 g.2)) [(1, 5); (14, 6); (28, 2)]).

(** The loop that places the units. *)
Definition place_units (units : list Z) (sequence : Z) (slot : bytes) : list Z :=
  (fold_left (fun st off =>
     (if st.2 <? kLongNameUnits
      then set_byte st.1 st.2 (u16 (Z.lor (byte_at slot off) (Z.shiftl (byte_at slot (off + 1)) 8)))
      else st.1, st.2 + 1)) feed_offsets (units, (sequence - 1) * 13)).1.

Definition lfn_feed (run : Lfn) (sector index : Z) (slot : bytes) : Lfn :=
  let field := byte_at slot 0 in
  let sequence := Z.land field 0x3f in
  if (sequence =? 0) || (kLfnSlotsMax <? sequence) then lfn_reset run
  else
    let placed count checksum active :=
      mkLfn (place_units (l_units run) sequence slot) (set_byte (l_fragments run) (sequence - 1) sector)
        (set_byte (l_fragment_index run) (sequence - 1) index) count (sequence - 1) checksum active in
    if negb (Z.land field 0x40 =? 0) then placed (sequence * 13) (byte_at slot 13) true
    else if negb (l_active run) || negb (sequence =? l_expected run) then lfn_reset run
    else placed (l_count run) (l_checksum run) (l_active run).

Definition lfn_matches (run : Lfn) (short_name : bytes) : bool :=
  if negb (l_active run) || negb (l_expected run =? 0) || (l_count run =? 0) then false
  else name_checksum short_name =? l_checksum run.

(** The bytes of the units from a position on; [n] counts the units left. *)
Fixpoint decode_from (n : nat) (units : list Z) (i : Z) : bytes :=
  match n with
  | O => []
  | S n =>
    let unit := byte_at units i in
    if unit =? 0x0000 then []
    else if unit =? 0xffff then decode_from n units (i + 1)
    else if unit <? 0x80 then unit :: decode_from n units (i + 1)
    else if unit <? 0x800 then
      Z.lor 0xc0 (Z.shiftr unit 6) :: Z.lor 0x80 (Z.land unit 0x3f) :: decode_from n units (i + 1)
    else if (0xd800 <=? unit) && (unit <? 0xdc00) then
      let low := byte_at units (i + 1) in
      match n with
      | S n' =>
        if (0xdc00 <=? low) && (low <? 0xe000) then
          let point := 0x10000 + Z.shiftl (unit - 0xd800) 10 + (low - 0xdc00) in
          Z.lor 0xf0 (Z.shiftr point 18) :: Z.lor 0x80 (Z.land (Z.shiftr point 12) 0x3f) ::
          Z.lor 0x80 (Z.land (Z.shiftr point 6) 0x3f) :: Z.lor 0x80 (Z.land point 0x3f) :: decode_from n' units (i + 2)
        else 63 :: decode_from n units (i + 1)
      | O => [63]
      end
    else if (0xdc00 <=? unit) && (unit <? 0xe000) then 63 :: decode_from n units (i + 1)
    else
      Z.lor 0xe0 (Z.shiftr unit 12) :: Z.lor 0x80 (Z.land (Z.shiftr unit 6) 0x3f) ::
      Z.lor 0x80 (Z.land unit 0x3f) :: decode_from n units (i + 1)
  end.
Definition lfn_decode (run : Lfn) : bytes :=
  decode_from (Z.to_nat (if l_count run <? kLongNameUnits then l_count run else kLongNameUnits)) (l_units run) 0.

(** The lead byte's share of the code point and how many bytes it starts. *)
Definition lead_byte (lead : Z) : option (Z * Z) :=
  if lead <? 0x80 then Some (lead, 1)
  else if Z.land lead 0xe0 =? 0xc0 then Some (Z.land lead 0x1f, 2)
  else if Z.land lead 0xf0 =? 0xe0 then Some (Z.land lead 0x0f, 3)
  else if Z.land lead 0xf8 =? 0xf0 then Some (Z.land lead 0x07, 4)
  else None.

(** The continuation bytes, [k] of them. *)
Fixpoint continuation (k : nat) (rest : bytes) (point : Z) : option (Z * bytes) :=
  match k with
  | O => Some (point, rest)
  | S k =>
    match rest with
    | [] => None
    | cont :: rest =>
      if negb (Z.land cont 0xc0 =? 0x80) then None
      else continuation k rest (Z.lor (Z.shiftl point 6) (Z.land cont 0x3f))
    end
  end.

Definition reserved_point (point : Z) : bool :=
  (point =? 34) || (point =? 42) || (point =? 47) || (point =? 58) || (point =? 60) || (point =? 62) || (point =? 63) ||
  (point =? 92) || (point =? 124).

(** The loop over the name; a turn consumes at least a byte. *)
Fixpoint units_loop (fuel : nat) (rest : bytes) (units_max : Z) (units : list Z) : option (list Z) :=
  match fuel with
  | O => None
  | S fuel =>
    match rest with
    | [] => Some units
    | lead :: tail =>
      match lead_byte lead with
      | None => None
      | Some (point, step) =>
        match continuation (Z.to_nat (step - 1)) tail point with
        | None => None
        | Some (point, rest) =>
          if (point <? 0x20) || (point =? 0x7f) then None
          else if reserved_point point then None
          else if 0x10000 <=? point then
            if units_max <? zlen units + 2 then None
            else
              let v := point - 0x10000 in
              units_loop fuel rest units_max (units ++ [u16 (0xd800 + Z.shiftr v 10); u16 (0xdc00 + Z.land v 0x3ff)])
          else if units_max <? zlen units + 1 then None
          else units_loop fuel rest units_max (units ++ [u16 point])
        end
      end
    end
  end.
Definition name_units (name : bytes) (units_max : Z) : option (list Z) :=
  let last := byte_at name (zlen name - 1) in
  if (zlen name =? 0) || (byte_at name 0 =? 32) || (last =? 32) || (last =? 46) then None
  else
    match units_loop (S (length name)) name units_max [] with
    | Some units => if zlen units =? 0 then None else Some units
    | None => None
    end.

Definition byte_offsets : list Z := [1; 3; 5; 7; 9; 14; 16; 18; 20; 22; 24; 28; 30].

(** The unit a slot holds at a position of the name. *)
Definition unit_at (units : list Z) (index : Z) : Z :=
  if index <? zlen units then byte_at units index else if index =? zlen units then 0x0000 else 0xffff.

Definition lfn_slot (units : list Z) (checksum fragments p : Z) : bytes :=
  let sequence := fragments - p in
  let slot := set_byte (zeros 32) 0 (u8 (Z.lor sequence (if p =? 0 then 0x40 else 0))) in
  let slot := set_byte slot kDirentAttr 0x0f in
  let slot := set_byte slot 13 checksum in
  let base := (sequence - 1) * 13 in
  fold_left (fun slot u =>
    let value := unit_at units (base + u) in
    let off := byte_at byte_offsets u in
    set_byte (set_byte slot off (u8 value)) (off + 1) (u8 (Z.shiftr value 8))) (seqZ 0 13) slot.

(** The slots in directory order. *)
Definition lfn_build (units : list Z) (checksum : Z) : list bytes :=
  let fragments := (zlen units + 12) / 13 in
  map (lfn_slot units checksum fragments) (seqZ 0 fragments).

(** * Short names *)

Definition upper_char (c : Z) : Z := if (97 <=? c) && (c <=? 122) then c - 32 else c.
Definition legal_83 (c : Z) : bool := ((65 <=? c) && (c <=? 90)) || ((48 <=? c) && (c <=? 57)) || (c =? 45) || (c =? 95).
Definition alias_char (c : Z) : Z :=
  if (97 <=? c) && (c <=? 122) then c - 32 else if legal_83 c then c else 95.

(** The one dot of the name; [None] is a second one, the length is none. *)
Fixpoint only_dot (name : bytes) (i dot length : Z) : option Z :=
  match name with
  | [] => Some dot
  | c :: name =>
    if c =? 46 then (if negb (dot =? length) then None else only_dot name (i + 1) i length)
    else only_dot name (i + 1) dot length
  end.

(** A part of the name copied with its letters raised. *)
Definition raised (part : bytes) : option bytes :=
  let up := map upper_char part in
  if forallb legal_83 up then Some up else None.

Definition name_83 (name : bytes) : option bytes :=
  let length := zlen name in
  match only_dot name 0 length length with
  | None => None
  | Some dot =>
    let base := dot in
    let ext := if dot =? length then 0 else length - dot - 1 in
    if (base =? 0) || (8 <? base) || (3 <? ext) || (negb (dot =? length) && (ext =? 0)) then None
    else
      match raised (slice name 0 base) with
      | None => None
      | Some b =>
        match raised (slice name (dot + 1) ext) with
        | None => None
        | Some e => Some (blit (blit (replicate 11 32) 0 b) 8 e)
        end
      end
  end.

(** [digits] of the serial, [n] its value; a 32-bit number has ten at most. *)
Fixpoint digit_count (fuel : nat) (n digits : Z) : Z :=
  match fuel with
  | O => digits
  | S fuel => if 10 <=? n then digit_count fuel (n / 10) (digits + 1) else digits
  end.
Fixpoint put_digits (fuel : nat) (out : bytes) (at_ digits n divisor : Z) : bytes :=
  match fuel with
  | O => out
  | S fuel =>
    if 0 <? n then put_digits fuel (set_byte out (at_ + digits - 1 - divisor) (48 + n mod 10)) at_ digits (n / 10) (divisor + 1)
    else out
  end.
Fixpoint last_dot (name : bytes) (i dot : Z) : Z :=
  match name with
  | [] => dot
  | c :: name => last_dot name (i + 1) (if c =? 46 then i else dot)
  end.

Definition short_alias (name : bytes) (serial : Z) : option bytes :=
  let length := zlen name in
  let digits := digit_count 10 serial 1 in
  if 8 <=? digits + 1 then None
  else
    let base_max := 8 - 1 - digits in
    let dot := last_dot name 0 length in
    let base_end := if (0 <? dot) && (dot + 1 <? length) then dot else length in
    let ext_at := if base_end <? length then base_end + 1 else length in
    let base := map alias_char (slice name 0 (Z.min base_end base_max)) in
    let base := if zlen base =? 0 then [95] else base in
    let out := blit (replicate 11 32) 0 (base ++ [126]) in
    let out := put_digits 10 out (zlen base + 1) digits serial 0 in
    Some (blit out 8 (map alias_char (slice name ext_at (Z.min 3 (length - ext_at))))).

(** * Dates *)

(** A quotient of signed integers, towards zero. *)
Definition days_from_civil (y m d : Z) : Z :=
  let y := if m <=? 2 then y - 1 else y in
  let era := Z.quot (if 0 <=? y then y else y - 399) 400 in
  let yoe := u32 (y - era * 400) in
  let doy := u32 (u32 (153 * u32 (m + (if 2 <? m then -3 else 9)) + 2) / 5 + d - 1) in
  let doe := u32 (yoe * 365 + yoe / 4 - yoe / 100 + doy) in
  era * 146097 + doe - 719468.

Definition civil_from_days (z : Z) : Z * Z * Z :=
  let z := z + 719468 in
  let era := Z.quot (if 0 <=? z then z else z - 146096) 146097 in
  let doe := u32 (z - era * 146097) in
  let yoe := (doe - doe / 1460 + doe / 36524 - doe / 146096) / 365 in
  let year := yoe + era * 400 in
  let doy := u32 (doe - (365 * yoe + yoe / 4 - yoe / 100)) in
  let mp := (5 * doy + 2) / 153 in
  let d := u32 (doy - (153 * mp + 2) / 5 + 1) in
  let m := u32 (mp + (if mp <? 10 then 3 else -9)) in
  (year + (if m <=? 2 then 1 else 0), m, d).

Definition dos_to_unix (date time : Z) : Z :=
  if date =? 0 then 0
  else
    let year := 1980 + Z.land (Z.shiftr date 9) 0x7f in
    let month := Z.land (Z.shiftr date 5) 0x0f in
    let day := Z.land date 0x1f in
    let hour := Z.land (Z.shiftr time 11) 0x1f in
    let minute := Z.land (Z.shiftr time 5) 0x3f in
    let second := Z.land time 0x1f * 2 in
    let days := days_from_civil year month day in
    u64 (days * 86400 + hour * 3600 + minute * 60 + second).

Definition unix_to_dos (seconds : Z) : Z * Z :=
  if seconds =? 0 then (0, 0)
  else
    let days := seconds / 86400 in
    let rem := seconds mod 86400 in
    let '(year, month, day) := civil_from_days days in
    if year <? 1980 then (0, 0)
    else
      (u16 (Z.lor (Z.lor (Z.shiftl (year - 1980) 9) (Z.shiftl month 5)) day),
       u16 (Z.lor (Z.lor (Z.shiftl (rem / 3600) 11) (Z.shiftl (rem mod 3600 / 60) 5)) (rem mod 60 / 2))).

(** * Words read and written *)

Lemma word16_le b a : word16 b a = le16 b a.
Proof. reflexivity. Qed.
Lemma word32_le b a : word32 b a = le32 b a.
Proof.
  unfold word32, le32. change (seqZ 0 4) with [0; 1; 2; 3]. cbn [fold_left]. now rewrite Z.lor_0_l, Z.shiftl_0_r, Z.add_0_r.
Qed.
Lemma put16_le b a v : put16 b a v = put_le16 b a v.
Proof. unfold put16, put_le16, u8. now rewrite !land_255. Qed.
Lemma put32_le b a v : put32 b a v = put_le32 b a v.
Proof. unfold put32, put_le32, u8. change (seqZ 0 4) with [0; 1; 2; 3]. cbn [fold_left]. now rewrite !land_255. Qed.

(** * Entries of the table *)

Lemma land_low v w : 0 <= w -> Z.land v (Z.ones w) = v mod 2 ^ w.
Proof. apply Z.land_ones. Qed.

(** The high four bits of one number with the low 28 of another. *)
Lemma keep_high a v :
  0 <= a < 2 ^ 32 -> Z.lor (Z.land a 0xf0000000) (Z.land v 0x0fffffff) = a / 2 ^ 28 * 2 ^ 28 + v mod 2 ^ 28.
Proof.
  intros Ha. change 0x0fffffff with (Z.ones 28). rewrite Z.land_ones by lia.
  assert (E : Z.land a 0xf0000000 = Z.shiftl (a / 2 ^ 28) 28).
  { rewrite <- Z.shiftr_div_pow2 by lia. apply Z.bits_inj'. intros i Hi. rewrite Z.land_spec.
    change 0xf0000000 with (Z.shiftl (Z.ones 4) 28). destruct (Z.lt_ge_cases i 28).
    - rewrite !Z.shiftl_spec_low by lia. apply andb_false_r.
    - rewrite !Z.shiftl_spec_high, Z.shiftr_spec by lia. replace (i - 28 + 28) with i by lia.
      destruct (Z.lt_ge_cases i 32); [rewrite Z.ones_spec_low by lia; apply andb_true_r|].
      rewrite (testbit_above a 32) by lia. reflexivity. }
  rewrite E, Z.lor_comm. rewrite lor_shiftl_add by (lia || (apply Z.mod_pos_bound; lia)). lia.
Qed.

Section Entries.
Context (sector : bytes) (Hz : zlen sector = 512) (Hb : bytes_ok sector).

Lemma next32_range j : 0 <= j < 128 -> 0 <= next32 sector j < 2 ^ 28.
Proof. intros Hj. unfold next32. change 0x0fffffff with (Z.ones 28). rewrite Z.land_ones by lia. apply Z.mod_pos_bound. lia. Qed.

(** An entry written is read back without its reserved bits, which stay as
    they were, and no other entry changes. *)
Lemma next32_set i j v :
  0 <= i < 128 -> 0 <= j < 128 -> next32 (set_next32 sector i v) j = if i =? j then v mod 2 ^ 28 else next32 sector j.
Proof.
  intros Hi Hj. unfold next32, set_next32. rewrite !word32_le, put32_le. destruct (Z.eqb_spec i j) as [->|Hne].
  - rewrite le32_put by lia. rewrite keep_high by (apply le32_range; auto; lia). change 0x0fffffff with (Z.ones 28).
    rewrite Z.land_ones by lia. pose proof (le32_range sector (j * 4) Hb ltac:(lia)) as Hr. unfold u32. zlia.
  - rewrite put_le32_blit by lia. rewrite le32_blit_disj by (rewrite ?zlen_le_split; lia). reflexivity.
Qed.
Lemma next16_set i j v :
  0 <= i < 256 -> 0 <= j < 256 -> next16 (set_next16 sector i v) j = if i =? j then v mod 2 ^ 16 else next16 sector j.
Proof.
  intros Hi Hj. unfold next16, set_next16. rewrite !word16_le, put16_le. destruct (Z.eqb_spec i j) as [->|Hne].
  - rewrite le16_put by lia. unfold u16. now rewrite Z.mod_mod by lia.
  - rewrite put_le16_blit by lia. rewrite le16_blit_disj by (rewrite ?zlen_le_split; lia). reflexivity.
Qed.

Lemma set_next32_ok i v : 0 <= i < 128 -> zlen (set_next32 sector i v) = 512 /\ bytes_ok (set_next32 sector i v).
Proof.
  intros Hi. unfold set_next32. rewrite put32_le. split; [now rewrite zlen_put32|]. apply bytes_ok_put32; auto; lia.
Qed.
Lemma set_next16_ok i v : 0 <= i < 256 -> zlen (set_next16 sector i v) = 512 /\ bytes_ok (set_next16 sector i v).
Proof.
  intros Hi. unfold set_next16. rewrite put16_le. split; [now rewrite zlen_put16|]. apply bytes_ok_put16; auto; lia.
Qed.
End Entries.

(** * Dates *)

Lemma civil_year doe :
  0 <= doe < 146097 ->
  let yoe := (doe - doe / 1460 + doe / 36524 - doe / 146096) / 365 in
  0 <= yoe <= 399 /\ 0 <= doe - (365 * yoe + yoe / 4 - yoe / 100) <= 365.
Proof. intros H yoe. unfold yoe. Z.div_mod_to_equations. lia. Qed.

Lemma civil_month doy :
  0 <= doy <= 365 ->
  let mp := (5 * doy + 2) / 153 in 0 <= mp <= 11 /\ 1 <= doy - (153 * mp + 2) / 5 + 1 <= 31.
Proof. intros H mp. unfold mp. Z.div_mod_to_equations. lia. Qed.

(** The calendar date of a day number is a date, and its day number is the one
    it came from. *)
Lemma civil_days z :
  0 <= z < 2 ^ 31 ->
  let '(y, m, d) := civil_from_days z in 1 <= m <= 12 /\ 1 <= d <= 31 /\ 1970 <= y /\ days_from_civil y m d = z.
Proof.
  intros Hz. unfold civil_from_days. set (z' := z + 719468). rewrite (proj2 (Z.leb_le 0 z')) by lia.
  rewrite Z.quot_div_nonneg by lia. set (era := z' / 146097).
  assert (He : 0 <= z' - era * 146097 < 146097) by (unfold era; zlia).
  assert (Hera : 4 <= era < 2 ^ 20) by (unfold era, z'; zlia).
  rewrite (u32_small (z' - era * 146097)) by lia. set (doe := z' - era * 146097) in *.
  pose proof (civil_year doe He) as Hy. cbv zeta in Hy. set (yoe := (doe - _ + _ - _) / 365) in *. destruct Hy as [Hy1 Hy2].
  rewrite (u32_small (doe - _)) by lia. set (doy := doe - (365 * yoe + yoe / 4 - yoe / 100)) in *.
  pose proof (civil_month doy Hy2) as Hm. cbv zeta in Hm. set (mp := (5 * doy + 2) / 153) in *. destruct Hm as [Hm1 Hm2].
  rewrite (u32_small (doy - _ + 1)) by lia. rewrite (u32_small (mp + _)) by (destruct (mp <? 10) eqn:E; lia).
  set (m := mp + (if mp <? 10 then 3 else -9)). assert (Hm : 1 <= m <= 12) by (unfold m; zcase; lia).
  assert (Hmp : m + (if 2 <? m then -3 else 9) = mp) by (unfold m; zcase; zcase; lia).
  assert (H1970 : 1970 <= yoe + era * 400 + (if m <=? 2 then 1 else 0)).
  { unfold m, mp, doy, doe, z' in *. clear -Hz Hy1 Hy2 Hera He. assert (era = 4 \/ 5 <= era) as [->|H5] by lia; [|destruct (_ <=? 2); lia].
    repeat zcase; zlia. }
  splits; auto; try lia. unfold days_from_civil. cbv zeta.
  assert (Hyear : (if m <=? 2 then yoe + era * 400 + (if m <=? 2 then 1 else 0) - 1 else yoe + era * 400 + (if m <=? 2 then 1 else 0)) = yoe + era * 400)
    by (destruct (m <=? 2); lia).
  rewrite Hyear, (proj2 (Z.leb_le 0 _)), Z.quot_div_nonneg by lia.
  replace ((yoe + era * 400) / 400) with era by zlia. replace (yoe + era * 400 - era * 400) with yoe by lia. rewrite (u32_small yoe) by lia.
  rewrite Hmp, (u32_small mp), (u32_small (153 * mp + 2)) by lia.
  replace ((153 * mp + 2) / 5 + (doy - (153 * mp + 2) / 5 + 1) - 1) with doy by lia. rewrite (u32_small doy) by lia.
  replace (yoe * 365 + yoe / 4 - yoe / 100 + doy) with doe by (unfold doy; lia). rewrite (u32_small doe) by lia. unfold doe, z'. lia.
Qed.

(** Seconds from 1980 to the end of 2107, which the DOS words reach. *)
Definition dos_first : Z := 3652 * 86400.
Definition dos_end : Z := 50403 * 86400.

Lemma civil_dos_range z y m d : 3652 <= z < 50403 -> civil_from_days z = (y, m, d) -> 1980 <= y <= 2107.
Proof.
  intros Hz Hc. pose proof (civil_days z ltac:(lia)) as H. rewrite Hc in H. destruct H as (Hm & Hd & Hy & Hdays).
  unfold days_from_civil in Hdays. cbv zeta in Hdays. set (y' := if m <=? 2 then y - 1 else y) in *.
  assert (Hy' : y - 1 <= y' <= y) by (unfold y'; zcase; lia). rewrite (proj2 (Z.leb_le 0 y')), Z.quot_div_nonneg in Hdays by lia.
  set (mm := m + (if 2 <? m then -3 else 9)) in *. assert (Hmm : 0 <= mm <= 11) by (unfold mm; zcase; lia).
  rewrite (u32_small (y' - _)), (u32_small mm), (u32_small (153 * mm + 2)) in Hdays by zlia.
  rewrite (u32_small ((153 * mm + 2) / 5 + d - 1)) in Hdays by zlia. rewrite u32_small in Hdays by zlia.
  unfold y', mm in *. clear Hc. repeat zcase; zlia.
Qed.

(** Three fields packed by shifts and or. *)
Lemma pack3 a b c : 0 <= a -> 0 <= b < 2 ^ 6 -> 0 <= c < 2 ^ 5 -> forall k, 5 <= k -> b < 2 ^ (k - 5) ->
  Z.lor (Z.lor (Z.shiftl a k) (Z.shiftl b 5)) c = a * 2 ^ k + b * 2 ^ 5 + c.
Proof.
  intros Ha Hb Hc k Hk Hbk. rewrite <- Z.lor_assoc, (Z.lor_comm (Z.shiftl b 5)), lor_shiftl_add by lia.
  rewrite Z.lor_comm, lor_shiftl_add; [lia|lia|]. split; [lia|].
  replace (2 ^ k) with (2 ^ (k - 5) * 2 ^ 5) by (rewrite <- Z.pow_add_r by lia; f_equal; lia). nia.
Qed.

Lemma land_field v s w : 0 <= s -> 0 <= w -> Z.land (Z.shiftr v s) (Z.ones w) = v / 2 ^ s mod 2 ^ w.
Proof. intros Hs Hw. now rewrite Z.land_ones, Z.shiftr_div_pow2 by lia. Qed.

(** C27: a time in the years the DOS words reach, 1980 to 2107, stored as a date
    and a time word is read back as the even second it is in. *)
Theorem dos_time_roundtrip s :
  dos_first <= s < dos_end -> let '(date, time) := unix_to_dos s in dos_to_unix date time = s / 2 * 2.
Proof.
  unfold dos_first, dos_end. intros Hs. unfold unix_to_dos. rewrite (proj2 (Z.eqb_neq s 0)) by lia.
  assert (Hd : 3652 <= s / 86400 < 50403) by zlia. pose proof (civil_days (s / 86400) ltac:(lia)) as Hc.
  destruct (civil_from_days (s / 86400)) as [[y m] d] eqn:E. pose proof (civil_dos_range _ _ _ _ Hd E) as Hy.
  destruct Hc as (Hm & Hday & _ & Hdays). rewrite (proj2 (Z.ltb_ge y 1980)) by lia.
  set (rem := s mod 86400). assert (Hrem : 0 <= rem < 86400) by (unfold rem; zlia).
  assert (Hh : 0 <= rem / 3600 < 24) by zlia. assert (Hmi : 0 <= rem mod 3600 / 60 < 60) by zlia. assert (Hsec : 0 <= rem mod 60 / 2 < 30) by zlia.
  rewrite pack3 by (change (2 ^ (9 - 5)) with 16; lia). rewrite pack3 by (change (2 ^ (11 - 5)) with 64; lia).
  change (2 ^ 9) with 512. change (2 ^ 11) with 2048. change (2 ^ 5) with 32.
  rewrite (u16_small ((y - 1980) * 512 + m * 32 + d)), (u16_small (rem / 3600 * 2048 + _ + _)) by lia.
  unfold dos_to_unix. rewrite (proj2 (Z.eqb_neq _ 0)) by lia. cbv zeta.
  change 0x7f with (Z.ones 7). change 0x0f with (Z.ones 4). change 0x1f with (Z.ones 5). change 0x3f with (Z.ones 6).
  rewrite !land_field, !Z.land_ones by lia. change (2 ^ 9) with 512. change (2 ^ 11) with 2048. change (2 ^ 5) with 32.
  change (2 ^ 7) with 128. change (2 ^ 4) with 16. change (2 ^ 6) with 64.
  set (h := rem / 3600) in *. set (mi := rem mod 3600 / 60) in *. set (se := rem mod 60 / 2) in *.
  replace (((y - 1980) * 512 + m * 32 + d) / 512 mod 128) with (y - 1980) by zlia.
  replace (((y - 1980) * 512 + m * 32 + d) / 32 mod 16) with m by zlia.
  replace (((y - 1980) * 512 + m * 32 + d) mod 32) with d by zlia.
  replace ((h * 2048 + mi * 32 + se) / 2048 mod 32) with h by zlia.
  replace ((h * 2048 + mi * 32 + se) / 32 mod 64) with mi by zlia.
  replace ((h * 2048 + mi * 32 + se) mod 32) with se by zlia.
  replace (1980 + (y - 1980)) with y by lia. rewrite Hdays. unfold u64. rewrite Z.mod_small by lia. unfold h, mi, se, rem. zlia.
Qed.

(** A time after 2107 is stored as one of 128 years before. *)
Example dos_time_wraps : let '(date, time) := unix_to_dos dos_end in dos_to_unix date time = dos_first.
Proof. vm_compute. reflexivity. Qed.

Lemma dos_time_roundtrip_witness :
  dos_first <= 1700000001 < dos_end /\ (let '(date, time) := unix_to_dos 1700000001 in dos_to_unix date time = 1700000001 / 2 * 2).
Proof. split; [unfold dos_first, dos_end; lia|]. apply (dos_time_roundtrip 1700000001). unfold dos_first, dos_end. lia. Defined.

(** * The boot sector's regions *)

Record layout_ok (v : Volume) : Prop := {
  lo_cluster : 1 <= sectors_per_cluster v <= 255;
  lo_fats : 1 <= fats v <= 255;
  lo_start : 1 <= fat_start v < 2 ^ 16;
  lo_sectors : 1 <= fat_sectors v < 2 ^ 32;
  lo_root : root_start v = fat_start v + fats v * fat_sectors v;
  lo_root_sectors : 0 <= root_sectors v <= 4096 /\ (fat32 v = true -> root_sectors v = 0) /\ (fat32 v = false -> 1 <= root_sectors v);
  lo_data : data_start v = root_start v + root_sectors v;
}.

(** The layout a boot sector is accepted with has its tables, its root
    region and its clusters one after the other, and two clusters share no
    sector. *)
Theorem bpb_layout sector old :
  bytes_ok sector ->
  let '(flavor, v) := bpb sector old in
  flavor = Fat12 \/ flavor = Fat16 \/ flavor = Fat32 ->
  layout_ok v /\ (flavor = Fat32 <-> fat32 v = true) /\
  forall c c', 2 <= c < c' -> c' < 2 ^ 32 ->
    data_start v <= cluster_sector v c /\ cluster_sector v c + sectors_per_cluster v <= cluster_sector v c'.
Proof.
  intros Hb. unfold bpb. destruct (exfat_mark sector); [intros [H|[H|H]]; discriminate|].
  destruct (_ || _); [intros [H|[H|H]]; discriminate|]. cbv zeta.
  destruct (_ || (byte_at sector 16 =? 0)) eqn:E; [intros [H|[H|H]]; discriminate|]. breflect.
  set (is32 := word16 sector 17 =? 0). set (per_fat := if is32 then _ else _).
  destruct (Z.eqb_spec per_fat 0) as [|Hpf]; [intros [H'|[H'|H']]; discriminate|].
  pose proof (byte_at_ok sector 13 Hb) as H13. pose proof (byte_at_ok sector 16 Hb) as H16. unfold byte_ok in *.
  pose proof (le16_range sector 14 Hb ltac:(lia)) as H14. pose proof (le16_range sector 17 Hb ltac:(lia)) as H17. rewrite <- !word16_le in *.
  assert (Hpr : 1 <= per_fat < 2 ^ 32).
  { unfold per_fat in *. destruct is32; [rewrite word32_le in *; pose proof (le32_range sector 36 Hb ltac:(lia)); lia|].
    rewrite word16_le in *. pose proof (le16_range sector 22 Hb ltac:(lia)). lia. }
  set (v := mkVolume _ _ _ _ _ _ _ _ is32).
  assert (Hl : layout_ok v).
  { split; cbn -[Z.mul Z.add Z.div]; try lia; auto. destruct is32 eqn:E17.
    - splits; (lia || discriminate).
    - apply Z.eqb_neq in E17. splits; [zlia|zlia|discriminate|intros _; zlia]. }
  assert (Hc : forall c c', 2 <= c < c' -> c' < 2 ^ 32 ->
    data_start v <= cluster_sector v c /\ cluster_sector v c + sectors_per_cluster v <= cluster_sector v c').
  { intros c c' Hcc Hc'. destruct Hl as [L1 L2 L3 L4 L5 (L6 & _) L7]. unfold cluster_sector. rewrite (u32_small (c - 2)), (u32_small (c' - 2)) by lia.
    rewrite !u64_small by nia. nia. }
  destruct is32 eqn:E32; cbn [fst snd].
  - intros _. splits; auto. split; [reflexivity|auto].
  - intros _. splits; auto. destruct (_ <? 4085); split; intros; discriminate.
Qed.

(** A FAT32 boot sector: 8 sectors to a cluster, 32 reserved, two tables of 512
    sectors, the root at cluster 2. *)
Definition sample_boot : bytes :=
  let b := zeros 512 in
  let b := put16 b 11 512 in let b := set_byte b 13 8 in let b := put16 b 14 32 in let b := set_byte b 16 2 in
  let b := put32 b 36 512 in let b := put32 b 44 2 in
  set_byte (set_byte b 510 0x55) 511 0xaa.

Lemma bpb_layout_witness :
  let v := (bpb sample_boot (mkVolume 0 0 0 0 0 0 0 0 false)).2 in
  layout_ok v /\ data_start v = 1056 /\ cluster_sector v 2 + 8 <= cluster_sector v 3.
Proof.
  assert (Hb : bytes_ok sample_boot) by (apply bytes_okb_true; vm_compute; reflexivity).
  pose proof (bpb_layout sample_boot (mkVolume 0 0 0 0 0 0 0 0 false) Hb) as H. cbv zeta.
  assert (E : (bpb sample_boot (mkVolume 0 0 0 0 0 0 0 0 false)).1 = Fat32) by (vm_compute; reflexivity).
  destruct (bpb sample_boot _) as [flavor v] eqn:Ev. cbn [fst snd] in *. destruct (H ltac:(auto)) as (Hl & _ & Hc).
  assert (Ev2 : v = (bpb sample_boot (mkVolume 0 0 0 0 0 0 0 0 false)).2) by now rewrite Ev.
  splits; [exact Hl|rewrite Ev2; vm_compute; reflexivity|]. destruct (Hc 2 3 ltac:(lia) ltac:(lia)) as [_ H8].
  assert (E8 : sectors_per_cluster v = 8) by (rewrite Ev2; vm_compute; reflexivity). now rewrite E8 in H8.
Defined.
