(* ===== verification/FatNames.v ===== *)
(** Names on a FAT volume: the long name of an entry is the name it was made
    with, and the short name of one that fits 8.3 is the name in capitals
    (src/fat.cc of apps/freestanding/aegir-fs-fat, modelled in Fat.v). *)
From stdpp Require Import base numbers list list_numbers.
From Stdlib Require Import ZArith Lia.
From S2P Require Import Prelude Layout Fat.

(** * Unicode

    The encodings of a code point as the standard defines them. *)
Definition utf8 (p : Z) : bytes :=
  if p <? 0x80 then [p]
  else if p <? 0x800 then [0xc0 + p / 64; 0x80 + p mod 64]
  else if p <? 0x10000 then [0xe0 + p / 4096; 0x80 + p / 64 mod 64; 0x80 + p mod 64]
  else [0xf0 + p / 262144; 0x80 + p / 4096 mod 64; 0x80 + p / 64 mod 64; 0x80 + p mod 64].
Definition utf16 (p : Z) : list Z :=
  if p <? 0x10000 then [p] else [0xd800 + (p - 0x10000) / 1024; 0xdc00 + (p - 0x10000) mod 1024].
Definition to_utf8 (ps : list Z) : bytes := concat (map utf8 ps).
Definition to_utf16 (ps : list Z) : list Z := concat (map utf16 ps).

(** The points a name is made of: scalar values that are no controls and that
    the format does not reserve, the last being the one it pads with. *)
Definition name_point (p : Z) : Prop :=
  0x20 <= p < 0x110000 /\ p ≠ 0x7f /\ reserved_point p = false /\ ~ (0xd800 <= p < 0xe000) /\ p ≠ 0xffff.

Lemma zlen_utf16 p : zlen (utf16 p) = if p <? 0x10000 then 1 else 2.
Proof. unfold utf16. now destruct (p <? 0x10000). Qed.

(** ** Bit fields, by cases *)

Lemma forall_seqZ (P : Z -> Prop) n q : Forall P (seqZ 0 n) -> 0 <= q < n -> P q.
Proof. intros HF Hq. rewrite Forall_forall in HF. apply HF. apply elem_of_seqZ. lia. Qed.
Ltac all_of q n := pattern q; refine (forall_seqZ _ n q _ _); [repeat constructor|assumption].

Lemma lead_2 q : 0 <= q < 32 -> lead_byte (0xc0 + q) = Some (q, 2).
Proof. intros Hq. all_of q 32. Qed.
Lemma lead_3 q : 0 <= q < 16 -> lead_byte (0xe0 + q) = Some (q, 3).
Proof. intros Hq. all_of q 16. Qed.
Lemma lead_4 q : 0 <= q < 8 -> lead_byte (0xf0 + q) = Some (q, 4).
Proof. intros Hq. all_of q 8. Qed.
Lemma cont_mark r : 0 <= r < 64 -> Z.land (0x80 + r) 0xc0 = 0x80.
Proof. intros Hr. all_of r 64. Qed.
Lemma cont_bits r : 0 <= r < 64 -> Z.land (0x80 + r) 0x3f = r.
Proof. intros Hr. all_of r 64. Qed.

Lemma lor_mark a n r : 0 <= n -> 0 <= r < 2 ^ n -> Z.lor (Z.shiftl a n) r = a * 2 ^ n + r.
Proof. intros Hn Hr. rewrite Z.lor_comm, lor_shiftl_add by lia. lia. Qed.

Lemma continuation_step k r rest point :
  0 <= r < 64 -> continuation (S k) (0x80 + r :: rest) point = continuation k rest (point * 64 + r).
Proof.
  intros Hr. cbn [continuation]. rewrite cont_mark, cont_bits by auto. cbn [Z.eqb Pos.eqb negb]. now rewrite lor_mark by lia.
Qed.

(** The code point at the start of a name. *)
Lemma read_point p rest :
  0 <= p < 0x110000 -> exists lead tail point step, utf8 p ++ rest = lead :: tail /\ lead_byte lead = Some (point, step) /\
    continuation (Z.to_nat (step - 1)) tail point = Some (p, rest).
Proof.
  intros Hp. unfold utf8. repeat zcase.
  - exists p, rest, p, 1. splits; auto. unfold lead_byte. now rewrite (proj2 (Z.ltb_lt _ _)).
  - exists (0xc0 + p / 64), (0x80 + p mod 64 :: rest), (p / 64), 2. splits; [reflexivity|apply lead_2; zlia|].
    change (Z.to_nat (2 - 1)) with 1%nat. rewrite continuation_step by zlia. cbn. do 2 f_equal. zlia.
  - exists (0xe0 + p / 4096), (0x80 + p / 64 mod 64 :: 0x80 + p mod 64 :: rest), (p / 4096), 3. splits; [reflexivity|apply lead_3; zlia|].
    change (Z.to_nat (3 - 1)) with 2%nat. rewrite !continuation_step by zlia. cbn. do 2 f_equal. zlia.
  - exists (0xf0 + p / 262144), (0x80 + p / 4096 mod 64 :: 0x80 + p / 64 mod 64 :: 0x80 + p mod 64 :: rest), (p / 262144), 4.
    splits; [reflexivity|apply lead_4; zlia|].
    change (Z.to_nat (4 - 1)) with 3%nat. rewrite !continuation_step by zlia. cbn [continuation]. do 2 f_equal. zlia.
Qed.

(** * A name's units *)

Lemma units_loop_spec max ps : forall fuel units,
  Forall name_point ps -> (length ps < fuel)%nat -> zlen units + zlen (to_utf16 ps) <= max ->
  units_loop fuel (to_utf8 ps) max units = Some (units ++ to_utf16 ps).
Proof.
  induction ps as [|p ps IH]; intros fuel units Hps Hf Hm; (destruct fuel as [|fuel]; [cbn in Hf; lia|]).
  { cbn. now rewrite app_nil_r. }
  apply Forall_cons in Hps as [(Hp & H7f & Hres & Hsur & Hff) Hps].
  unfold to_utf8, to_utf16 in *. cbn [map concat] in *. rewrite zlen_app in Hm. pose proof (zlen_nonneg (concat (map utf16 ps))) as H0.
  destruct (read_point p (concat (map utf8 ps)) ltac:(lia)) as (lead & tail & point & step & Heq & Hl & Hc). rewrite Heq. cbn [units_loop].
  rewrite Hl, Hc, Hres. rewrite (proj2 (Z.ltb_ge p 32)), (proj2 (Z.eqb_neq p 127)) by lia. cbn [orb].
  cbn in Hf. unfold utf16 in *. destruct (Z.leb_spec 0x10000 p) as [Hbig|Hsmall].
  - rewrite (proj2 (Z.ltb_ge p 0x10000)) in * by lia. change (zlen [_; _]) with 2 in Hm. rewrite (proj2 (Z.ltb_ge max _)) by lia.
    change 0x3ff with (Z.ones 10). rewrite Z.shiftr_div_pow2, Z.land_ones by lia. change (2 ^ 10) with 1024.
    rewrite !u16_small by zlia. rewrite IH; [now rewrite <- app_assoc|auto|lia|]. rewrite zlen_app. change (zlen [_; _]) with 2. lia.
  - rewrite (proj2 (Z.ltb_lt p 0x10000)) in * by lia. change (zlen [_]) with 1 in Hm. rewrite (proj2 (Z.ltb_ge max _)) by lia.
    rewrite u16_small by lia. rewrite IH; [now rewrite <- app_assoc|auto|lia|]. rewrite zlen_app. change (zlen [_]) with 1. lia.
Qed.

(** The bytes at the ends are no space and no dot. *)
Definition edges_ok (name : bytes) : Prop :=
  name ≠ [] /\ byte_at name 0 ≠ 32 /\ byte_at name (zlen name - 1) ≠ 32 /\ byte_at name (zlen name - 1) ≠ 46.

Lemma length_utf8 p : (1 <= length (utf8 p))%nat.
Proof. unfold utf8. repeat case_match; cbn; lia. Qed.
Lemma length_to_utf8 ps : (length ps <= length (to_utf8 ps))%nat.
Proof.
  induction ps as [|p ps IH]; [reflexivity|]. unfold to_utf8 in *. cbn [map concat]. rewrite length_app. pose proof (length_utf8 p). cbn. lia.
Qed.

Lemma name_units_spec ps max :
  Forall name_point ps -> edges_ok (to_utf8 ps) -> zlen (to_utf16 ps) <= max -> name_units (to_utf8 ps) max = Some (to_utf16 ps).
Proof.
  intros Hps (Hne & H1 & H2 & H3) Hm. unfold name_units. cbv zeta.
  assert (Hz : zlen (to_utf8 ps) ≠ 0) by (destruct (to_utf8 ps); [congruence|rewrite zlen_cons; pose proof (zlen_nonneg l); lia]).
  rewrite !(proj2 (Z.eqb_neq _ _)) by assumption. cbn [orb].
  rewrite (units_loop_spec max ps) by (auto; pose proof (length_to_utf8 ps); rewrite ?zlen_nil; lia). cbn [app].
  destruct ps as [|p ps]; [exfalso; apply Hne; reflexivity|]. rewrite (proj2 (Z.eqb_neq _ _)); [reflexivity|].
  unfold to_utf16. cbn [map concat]. rewrite zlen_app. pose proof (zlen_nonneg (concat (map utf16 ps))).
  rewrite zlen_utf16. zcase; lia.
Qed.

(** * Units decoded *)

Lemma decode_spec units ps : forall n m i,
  Forall name_point ps -> n = (length (to_utf16 ps) + m)%nat -> 0 <= i ->
  (forall k, 0 <= k < zlen (to_utf16 ps) -> byte_at units (i + k) = byte_at (to_utf16 ps) k) ->
  (m = 0%nat \/ byte_at units (i + zlen (to_utf16 ps)) = 0) ->
  decode_from n units i = to_utf8 ps.
Proof.
  induction ps as [|p ps IH]; intros n m i Hps Hn Hi Hu Hend.
  { cbn in Hn. subst n. destruct m as [|m]; [reflexivity|]. destruct Hend as [|Hend]; [lia|]. cbn [to_utf16 map concat] in Hend.
    rewrite Z.add_0_r in Hend. cbn [decode_from]. rewrite Hend. reflexivity. }
  apply Forall_cons in Hps as [(Hp & H7f & Hres & Hsur & Hff) Hps].
  unfold to_utf8, to_utf16 in *. cbn [map concat] in *. rewrite length_app, zlen_app in *.
  assert (Hrest : forall j, zlen (utf16 p) = j -> forall n, n = (length (concat (map utf16 ps)) + m)%nat ->
            decode_from n units (i + j) = concat (map utf8 ps)).
  { intros j Hj n' Hn'. pose proof (zlen_nonneg (utf16 p)). apply (IH n' m); auto; [lia| |].
    - intros k Hk. rewrite <- Z.add_assoc, Hu by lia. rewrite byte_at_app by lia. rewrite (proj2 (Z.ltb_ge _ _)) by lia. f_equal. lia.
    - destruct Hend as [Hend|Hend]; [now left|right]. rewrite <- Hend. f_equal. lia. }
  pose proof (zlen_nonneg (concat (map utf16 ps))) as H0.
  destruct (Z.ltb_spec p 0x10000) as [Hs|Hs].
  - assert (E : utf16 p = [p]) by (unfold utf16; now rewrite (proj2 (Z.ltb_lt _ _))). rewrite E in Hn, Hu, Hrest.
    change (length [p]) with 1%nat in Hn. change (zlen [p]) with 1 in Hrest, Hu. subst n. cbn [Nat.add decode_from].
    specialize (Hu 0 ltac:(lia)). rewrite Z.add_0_r in Hu. rewrite Hu. change (byte_at ([p] ++ concat (map utf16 ps)) 0) with p.
    unfold utf8 at 1. rewrite (proj2 (Z.ltb_lt p 0x10000)) by lia.
    rewrite (proj2 (Z.eqb_neq p 0)), (proj2 (Z.eqb_neq p 0xffff)) by lia. rewrite (Hrest 1 eq_refl _ eq_refl).
    destruct (Z.ltb_spec p 0x80); [reflexivity|]. destruct (Z.ltb_spec p 0x800).
    { rewrite !Z.shiftr_div_pow2 by lia. change 0x3f with (Z.ones 6). rewrite Z.land_ones by lia. change 0xc0 with (Z.shiftl 6 5). change 0x80 with (Z.shiftl 2 6) at 1.
      rewrite !lor_mark by zlia. reflexivity. }
    replace ((0xd800 <=? p) && (p <? 0xdc00)) with false by (symmetry; apply andb_false_iff; rewrite Z.leb_gt, Z.ltb_ge; lia).
    replace ((0xdc00 <=? p) && (p <? 0xe000)) with false by (symmetry; apply andb_false_iff; rewrite Z.leb_gt, Z.ltb_ge; lia).
    rewrite !Z.shiftr_div_pow2 by lia. change 0x3f with (Z.ones 6). rewrite !Z.land_ones by lia. change 0xe0 with (Z.shiftl 14 4). change (Z.lor 0x80) with (Z.lor (Z.shiftl 2 6)).
    rewrite !lor_mark by zlia. reflexivity.
  - set (v := p - 0x10000).
    assert (E : utf16 p = [0xd800 + v / 1024; 0xdc00 + v mod 1024]) by (unfold utf16; now rewrite (proj2 (Z.ltb_ge _ _))).
    assert (E2 : zlen (utf16 p) = 2) by (now rewrite E). rewrite E2 in Hrest, Hu. rewrite E in Hn, Hu. cbn in Hn. subst n. cbn [decode_from].
    unfold utf8 at 1. rewrite (proj2 (Z.ltb_ge p 0x10000)) by lia.
    pose proof (Hu 0 ltac:(lia)) as Hu0. pose proof (Hu 1 ltac:(lia)) as Hu1. rewrite Z.add_0_r in Hu0.
    cbv [byte_at app] in Hu0, Hu1. change (byte_at units i = 0xd800 + v / 1024) in Hu0. change (byte_at units (i + 1) = 0xdc00 + v mod 1024) in Hu1.
    assert (Hv : 0 <= v < 0x100000) by lia. assert (Hv1 : 0 <= v / 1024 < 1024) by zlia. assert (Hv2 : 0 <= v mod 1024 < 1024) by zlia.
    rewrite Hu0, Hu1, (Hrest 2 eq_refl _ eq_refl). rewrite !(proj2 (Z.eqb_neq _ _)), !(proj2 (Z.ltb_ge _ 0x80)), !(proj2 (Z.ltb_ge _ 0x800)) by lia.
    rewrite !(proj2 (Z.leb_le _ _)), !(proj2 (Z.ltb_lt _ _)) by lia. cbn [andb].
    replace (0x10000 + Z.shiftl (0xd800 + v / 1024 - 0xd800) 10 + (0xdc00 + v mod 1024 - 0xdc00)) with p
      by (rewrite Z.shiftl_mul_pow2 by lia; unfold v in *; zlia).
    rewrite !Z.shiftr_div_pow2 by lia. change 0x3f with (Z.ones 6). rewrite !Z.land_ones by lia. change 0xf0 with (Z.shiftl 30 3). change (Z.lor 0x80) with (Z.lor (Z.shiftl 2 6)).
    rewrite !lor_mark by zlia. reflexivity.
Qed.

(** * Slots *)

Definition slot_unit (slot : bytes) (off : Z) : Z := u16 (Z.lor (byte_at slot off) (Z.shiftl (byte_at slot (off + 1)) 8)).

Lemma place_fold slot offs : forall units k,
  zlen units = kLongNameUnits -> 0 <= k ->
  let r := (fold_left (fun st off =>
     (if st.2 <? kLongNameUnits then set_byte st.1 st.2 (u16 (Z.lor (byte_at slot off) (Z.shiftl (byte_at slot (off + 1)) 8))) else st.1, st.2 + 1))
     offs (units, k)).1 in
  zlen r = kLongNameUnits /\ forall i, 0 <= i < kLongNameUnits ->
    byte_at r i = if (k <=? i) && (i <? k + zlen offs) then slot_unit slot (byte_at offs (i - k)) else byte_at units i.
Proof.
  induction offs as [|off offs IH]; intros units k Hz Hk; cbv zeta; cbn [fold_left fst snd].
  { split; [exact Hz|]. intros i Hi. rewrite zlen_nil. repeat zcase; cbn; auto; lia. }
  set (units1 := if k <? kLongNameUnits then _ else _).
  assert (Hz1 : zlen units1 = kLongNameUnits) by (unfold units1; destruct (k <? _); rewrite ?zlen_set; exact Hz).
  destruct (IH units1 (k + 1) Hz1 ltac:(lia)) as [Hr Hu]. split; [exact Hr|]. intros i Hi. rewrite Hu, zlen_cons by exact Hi. pose proof (zlen_nonneg offs) as H0.
  destruct (Z.eq_dec i k) as [->|Hne].
  - rewrite (proj2 (Z.leb_gt (k + 1) k)), Z.leb_refl, (proj2 (Z.ltb_lt k (k + (1 + _)))), Z.sub_diag by lia. cbn [andb].
    unfold units1. rewrite (proj2 (Z.ltb_lt k kLongNameUnits)) by lia. rewrite byte_at_set, Z.eqb_refl, Hz by lia.
    rewrite (proj2 (Z.ltb_lt k kLongNameUnits)) by lia. reflexivity.
  - assert (Hold : byte_at units1 i = byte_at units i).
    { unfold units1. destruct (k <? kLongNameUnits); [|reflexivity]. rewrite byte_at_set by lia. now rewrite (proj2 (Z.eqb_neq k i)) by lia. }
    rewrite Hold. destruct (Z.leb_spec (k + 1) i), (Z.leb_spec k i); try lia; cbn [andb]; [|reflexivity].
    destruct (Z.ltb_spec i (k + 1 + zlen offs)), (Z.ltb_spec i (k + (1 + zlen offs))); try lia.
    f_equal. unfold byte_at. replace (Z.to_nat (i - k)) with (S (Z.to_nat (i - (k + 1)))) by lia. reflexivity.
Qed.

Lemma place_units_spec units sequence slot :
  zlen units = kLongNameUnits -> 1 <= sequence ->
  zlen (place_units units sequence slot) = kLongNameUnits /\ forall i, 0 <= i < kLongNameUnits ->
    byte_at (place_units units sequence slot) i =
    if ((sequence - 1) * 13 <=? i) && (i <? sequence * 13) then slot_unit slot (byte_at byte_offsets (i - (sequence - 1) * 13)) else byte_at units i.
Proof.
  intros Hz Hs. destruct (place_fold slot feed_offsets units ((sequence - 1) * 13) Hz ltac:(lia)) as [H1 H2]. split; [exact H1|].
  intros i Hi. unfold place_units. rewrite H2 by exact Hi. change (zlen feed_offsets) with 13.
  replace ((sequence - 1) * 13 + 13) with (sequence * 13) by lia. reflexivity.
Qed.

Lemma unit_at_range us i : Forall (fun u => 0 <= u < 65536) us -> 0 <= i -> 0 <= unit_at us i < 65536.
Proof.
  intros Hu Hi. unfold unit_at. zcase; [|zcase; lia]. unfold byte_at. rewrite Forall_forall in Hu. apply Hu, list_elem_of_In, nth_In. unfold zlen in *. lia.
Qed.

(** The units a built slot holds, its sequence number and its checksum. *)
Lemma lfn_slot_unit us checksum fragments p u :
  Forall (fun u => 0 <= u < 65536) us -> 0 <= p < fragments -> 0 <= u < 13 ->
  slot_unit (lfn_slot us checksum fragments p) (byte_at byte_offsets u) = unit_at us ((fragments - p - 1) * 13 + u).
Proof.
  intros Hus Hp Hu. assert (Hr : 0 <= unit_at us ((fragments - p - 1) * 13 + u) < 65536) by (apply unit_at_range; [auto|nia]).
  assert (Hlo : byte_at (lfn_slot us checksum fragments p) (byte_at byte_offsets u) = u8 (unit_at us ((fragments - p - 1) * 13 + u)) /\
                byte_at (lfn_slot us checksum fragments p) (byte_at byte_offsets u + 1) = u8 (Z.shiftr (unit_at us ((fragments - p - 1) * 13 + u)) 8)).
  { clear Hr. revert u Hu. intros u Hu. all_of u 13. all: split; reflexivity. }
  destruct Hlo as [Hlo Hhi]. unfold slot_unit. rewrite Hlo, Hhi. unfold u8. rewrite Z.shiftr_div_pow2 by lia. change (2 ^ 8) with 256.
  rewrite lor_shiftl_add by zlia. change (2 ^ 8) with 256. rewrite u16_small by zlia. zlia.
Qed.

Lemma sequence_field seq :
  0 <= seq < 21 ->
  Z.land (u8 (Z.lor seq 0x40)) 0x3f = seq /\ (Z.land (u8 (Z.lor seq 0x40)) 0x40 =? 0) = false /\
  Z.land (u8 (Z.lor seq 0)) 0x3f = seq /\ (Z.land (u8 (Z.lor seq 0)) 0x40 =? 0) = true /\
  u8 (Z.lor seq 0x40) ≠ 0 /\ u8 (Z.lor seq 0x40) ≠ 0xe5 /\ (seq ≠ 0 -> u8 (Z.lor seq 0) ≠ 0) /\ u8 (Z.lor seq 0) ≠ 0xe5.
Proof. intros Hs. all_of seq 21. all: cbv; intros; congruence. Qed.

Lemma lfn_slot_head us checksum fragments p :
  byte_at (lfn_slot us checksum fragments p) 0 = u8 (Z.lor (fragments - p) (if p =? 0 then 0x40 else 0)) /\
  byte_at (lfn_slot us checksum fragments p) 11 = 0x0f /\ byte_at (lfn_slot us checksum fragments p) 13 = checksum.
Proof. splits; reflexivity. Qed.

(** A built slot is one the scan takes for part of a long name. *)
Lemma lfn_slot_kind us checksum fragments p :
  fragments <= kLfnSlotsMax -> 0 <= p < fragments -> slot_kind (lfn_slot us checksum fragments p) = LfnSlot.
Proof.
  intros Hf Hp. change kLfnSlotsMax with 20 in Hf. destruct (lfn_slot_head us checksum fragments p) as (H0 & H11 & _).
  destruct (sequence_field (fragments - p) ltac:(lia)) as (_ & _ & _ & _ & H1 & H2 & H3 & H4).
  unfold slot_kind. rewrite H0, H11. destruct (p =? 0); rewrite !(proj2 (Z.eqb_neq _ _)) by (auto; apply H3; lia); reflexivity.
Qed.

(** * A run fed *)

Definition feed_at (run : Lfn) (x : Z * Z * bytes) : Lfn := lfn_feed run x.1.1 x.1.2 x.2.

Section Run.
Context (us : list Z) (checksum fragments : Z).
Context (Hus : Forall (fun u => 0 <= u < 65536) us) (Hf : 1 <= fragments <= kLfnSlotsMax).
Context (places : list (Z * Z)).
Let place (q : Z) : Z * Z := nth (Z.to_nat q) places (0, 0).

(** After [p] slots. *)
Record fed (p : Z) (run : Lfn) : Prop := {
  fd_active : l_active run = true;
  fd_count : l_count run = fragments * 13;
  fd_expected : l_expected run = fragments - p;
  fd_checksum : l_checksum run = checksum;
  fd_units : zlen (l_units run) = kLongNameUnits /\
    forall i, (fragments - p) * 13 <= i < kLongNameUnits -> i < fragments * 13 -> byte_at (l_units run) i = unit_at us i;
  fd_places : zlen (l_fragments run) = kLfnSlotsMax /\ zlen (l_fragment_index run) = kLfnSlotsMax /\
    forall q, 0 <= q < p -> byte_at (l_fragments run) (fragments - 1 - q) = (place q).1 /\
      byte_at (l_fragment_index run) (fragments - 1 - q) = (place q).2;
}.

Definition arrays_ok (run : Lfn) : Prop :=
  zlen (l_units run) = kLongNameUnits /\ zlen (l_fragments run) = kLfnSlotsMax /\ zlen (l_fragment_index run) = kLfnSlotsMax.

Lemma feed_step p run :
  0 <= p < fragments -> (if p =? 0 then arrays_ok run else fed p run) ->
  fed (p + 1) (feed_at run (place p, lfn_slot us checksum fragments p)).
Proof.
  intros Hp Hrun. change kLfnSlotsMax with 20 in *. destruct (lfn_slot_head us checksum fragments p) as (H0 & _ & H13).
  destruct (sequence_field (fragments - p) ltac:(lia)) as (S1 & S2 & S3 & S4 & _).
  assert (Harr : arrays_ok run) by (destruct (p =? 0); [exact Hrun|]; destruct Hrun as [_ _ _ _ [? _] (? & ? & _)]; now split).
  destruct Harr as (A1 & A2 & A3). set (slot := lfn_slot us checksum fragments p) in *.
  destruct (place_units_spec (l_units run) (fragments - p) slot A1 ltac:(lia)) as [P1 P2].
  assert (Hout : feed_at run (place p, slot) =
    mkLfn (place_units (l_units run) (fragments - p) slot) (set_byte (l_fragments run) (fragments - p - 1) (place p).1)
      (set_byte (l_fragment_index run) (fragments - p - 1) (place p).2) (fragments * 13) (fragments - p - 1) checksum true).
  { unfold feed_at, lfn_feed. cbn [fst snd]. rewrite H0. change kLfnSlotsMax with 20. destruct (Z.eqb_spec p 0) as [->|Hp0].
    - rewrite S1, S2, H13, Z.sub_0_r, (proj2 (Z.eqb_neq fragments 0)), (proj2 (Z.ltb_ge 20 fragments)) by lia. reflexivity.
    - rewrite S3, S4, (proj2 (Z.eqb_neq (fragments - p) 0)), (proj2 (Z.ltb_ge 20 _)) by lia. cbn [orb negb].
      destruct Hrun as [F1 F2 F3 F4 _ _]. rewrite F1, F2, F3, F4, Z.eqb_refl. reflexivity. }
  rewrite Hout. split; cbn [l_active l_count l_expected l_checksum l_units l_fragments l_fragment_index]; auto; [lia| |].
  - split; [exact P1|]. intros i Hi Hi2. rewrite P2 by nia. destruct (Z.leb_spec ((fragments - p - 1) * 13) i); [|nia].
    destruct (Z.ltb_spec i ((fragments - p) * 13)) as [Hin|Hin]; cbn [andb].
    + unfold slot. rewrite lfn_slot_unit by (auto; lia). f_equal. lia.
    + destruct (Z.eqb_spec p 0) as [->|Hp0]; [lia|]. apply Hrun; lia.
  - rewrite !zlen_set. splits; auto. intros q Hq. rewrite !byte_at_set, A2, A3 by lia.
    destruct (Z.eqb_spec (fragments - p - 1) (fragments - 1 - q)) as [E|E].
    + assert (q = p) as -> by lia. rewrite (proj2 (Z.ltb_lt _ 20)) by lia. auto.
    + cbn [andb]. destruct (Z.eqb_spec p 0) as [->|Hp0]; [lia|]. apply Hrun. lia.
Qed.

Lemma feed_run run : arrays_ok run -> zlen places = fragments ->
  fed fragments (fold_left feed_at (zip places (map (lfn_slot us checksum fragments) (seqZ 0 fragments))) run).
Proof.
  intros Hrun Hpl.
  assert (Hgen : forall n : nat, Z.of_nat n <= fragments ->
    let r := fold_left feed_at (take n (zip places (map (lfn_slot us checksum fragments) (seqZ 0 fragments)))) run in
    if Z.of_nat n =? 0 then r = run else fed (Z.of_nat n) r).
  { induction n as [|n IH]; intros Hn; cbv zeta; [reflexivity|]. cbv zeta in IH.
    assert (Hx : zip places (map (lfn_slot us checksum fragments) (seqZ 0 fragments)) !! n = Some (place (Z.of_nat n), lfn_slot us checksum fragments (Z.of_nat n))).
    { apply lookup_zip_with_Some. exists (place (Z.of_nat n)), (lfn_slot us checksum fragments (Z.of_nat n)). splits; auto.
      - unfold place. rewrite Nat2Z.id. unfold zlen in Hpl. destruct (lookup_lt_is_Some_2 places n ltac:(lia)) as [x Hx]. rewrite Hx. f_equal.
        symmetry. rewrite nth_lookup, Hx. reflexivity.
      - rewrite list_lookup_fmap, lookup_seqZ_lt by lia. reflexivity. }
    rewrite (take_S_r _ _ _ Hx), fold_left_app. cbn [fold_left]. set (r := fold_left _ _ _) in *.
    rewrite (proj2 (Z.eqb_neq (Z.of_nat (S n)) 0)) by lia. replace (Z.of_nat (S n)) with (Z.of_nat n + 1) by lia.
    apply feed_step; [lia|]. specialize (IH ltac:(lia)). destruct (Z.of_nat n =? 0); [now rewrite IH|exact IH]. }
  specialize (Hgen (Z.to_nat fragments) ltac:(lia)). cbv zeta in Hgen. rewrite Z2Nat.id, (proj2 (Z.eqb_neq fragments 0)) in Hgen by lia.
  rewrite take_ge in Hgen; [exact Hgen|]. rewrite length_zip_with, length_map, length_seqZ. lia.
Qed.
End Run.

Lemma to_utf16_range ps : Forall name_point ps -> Forall (fun u => 0 <= u < 65536) (to_utf16 ps).
Proof.
  induction 1 as [|p ps (Hp & _) _ IH]; [constructor|]. unfold to_utf16 in *. cbn [map concat]. apply Forall_app. split; [|exact IH].
  unfold utf16. destruct (Z.ltb_spec p 0x10000); repeat constructor; zlia.
Qed.

Lemma name_checksum_range short : 0 <= name_checksum short < 256.
Proof. unfold name_checksum. change (seqZ 0 11) with (seqZ 0 10 ++ [10]). rewrite fold_left_app. cbn [fold_left]. apply u8_range. Qed.

(** C26: a name of any points the format allows, at most 255 units long, stored as
    the slots of a long-name run before its short entry, is found complete
    there, belongs to that entry, and is the name it was made from; the run
    knows where each of its slots is. *)
Theorem long_name_roundtrip ps short places run0 :
  Forall name_point ps -> edges_ok (to_utf8 ps) -> zlen (to_utf16 ps) <= kLongNameUnits -> arrays_ok run0 ->
  exists units, name_units (to_utf8 ps) kLongNameUnits = Some units /\
    let slots := lfn_build units (name_checksum short) in
    Forall (fun slot => slot_kind slot = LfnSlot) slots /\ 1 <= zlen slots <= kLfnSlotsMax /\
    (length places = length slots ->
     let run := fold_left feed_at (zip places slots) run0 in
     lfn_matches run short = true /\ lfn_decode run = to_utf8 ps /\
     forall q, 0 <= q < zlen slots -> byte_at (l_fragments run) (zlen slots - 1 - q) = (nth (Z.to_nat q) places (0, 0)).1 /\
       byte_at (l_fragment_index run) (zlen slots - 1 - q) = (nth (Z.to_nat q) places (0, 0)).2).
Proof.
  intros Hps Hed Hlen Harr. exists (to_utf16 ps). split; [now apply name_units_spec|]. cbv zeta.
  pose proof (to_utf16_range ps Hps) as Hus. set (us := to_utf16 ps) in *. unfold kLongNameUnits in Hlen.
  assert (Hpos : 1 <= zlen us).
  { destruct Hed as [Hne _]. destruct ps as [|p ps]; [now destruct Hne|]. unfold us, to_utf16. cbn [map concat]. rewrite zlen_app, zlen_utf16.
    pose proof (zlen_nonneg (concat (map utf16 ps))). zcase; lia. }
  set (fr := (zlen us + 12) / 13). assert (Hfr : 1 <= fr <= kLfnSlotsMax) by (change kLfnSlotsMax with 20; unfold fr; zlia).
  set (slots := lfn_build us (name_checksum short)). assert (Hslots : slots = map (lfn_slot us (name_checksum short) fr) (seqZ 0 fr)) by reflexivity.
  assert (Hzs : zlen slots = fr) by (rewrite Hslots; unfold zlen; rewrite length_map, length_seqZ; lia).
  splits; [|lia|lia|].
  - rewrite Hslots. apply Forall_forall. intros slot Hs. apply list_elem_of_fmap in Hs as (p & -> & Hp). apply elem_of_seqZ in Hp.
    apply lfn_slot_kind; lia.
  - intros Hpl. destruct (feed_run us (name_checksum short) fr Hus Hfr places run0 Harr) as [F1 F2 F3 F4 [F5 F6] (F7 & F8 & F9)];
      [unfold zlen in *; lia|]. rewrite <- Hslots in *. set (run := fold_left _ _ _) in *. rewrite Hzs. splits.
    + unfold lfn_matches. rewrite F1, F2, F3, F4, Z.sub_diag, Z.eqb_refl, Z.eqb_refl, (proj2 (Z.eqb_neq (fr * 13) 0)) by lia. reflexivity.
    + unfold lfn_decode. rewrite F2. set (n := if fr * 13 <? kLongNameUnits then _ else _).
      assert (Hn : n = Z.min (fr * 13) 255) by (unfold n, kLongNameUnits; zcase; lia).
      assert (Hcover : zlen us <= n) by (unfold fr in *; zlia). fold us. unfold zlen in Hcover.
      apply (decode_spec (l_units run) ps (Z.to_nat n) (Z.to_nat n - length us)); auto; [fold us; lia|lia| |]; fold us; rewrite ?Z.add_0_l.
      * intros k Hk. rewrite Z.add_0_l, F6 by (unfold kLongNameUnits; unfold zlen in *; lia). unfold unit_at. now rewrite (proj2 (Z.ltb_lt k (zlen us))) by apply Hk.
      * destruct (Z.eq_dec (zlen us) n) as [E|E]; [left; unfold zlen in E; lia|right]. unfold zlen in *.
        rewrite F6 by (unfold kLongNameUnits; lia). unfold unit_at. rewrite Z.ltb_irrefl, Z.eqb_refl. reflexivity.
    + exact F9.
Qed.

(** Hé, a face outside the first plane, and a letter. *)
Definition sample_points : list Z := [72; 233; 0x1f600; 97].
Definition sample_short : bytes := [72; 95; 65; 126; 49; 32; 32; 32; 32; 32; 32].

Lemma long_name_roundtrip_witness :
  let run := fold_left feed_at (zip [(700, 3)] (lfn_build (to_utf16 sample_points) (name_checksum sample_short))) lfn_zero in
  lfn_matches run sample_short = true /\ lfn_decode run = to_utf8 sample_points.
Proof.
  destruct (long_name_roundtrip sample_points sample_short [(700, 3)] lfn_zero) as (units & Hu & _ & _ & H).
  - repeat constructor; (lia || discriminate || reflexivity).
  - unfold edges_ok. splits; vm_compute; discriminate.
  - vm_compute. discriminate.
  - unfold arrays_ok; splits; reflexivity.
  - vm_compute in Hu. injection Hu as <-. destruct (H eq_refl) as (Hm & Hd & _). exact (conj Hm Hd).
Defined.

(** ** Names that are taken and not given back

    The loop takes an overlong encoding, an encoded surrogate, a point past the
    last plane and the point the format pads with: the name stored is another. *)
Definition stored_name (name : bytes) : option bytes :=
  units ← name_units name kLongNameUnits;
  Some (lfn_decode (fold_left feed_at (map (fun slot => ((0, 0), slot)) (lfn_build units (name_checksum sample_short))) lfn_zero)).

Example overlong_taken : stored_name [0xc1; 0x81; 98] = Some [65; 98].
Proof. vm_compute. reflexivity. Qed.
Example surrogate_taken : stored_name [0xed; 0xa0; 0x80; 98] = Some [63; 98].
Proof. vm_compute. reflexivity. Qed.
Example past_unicode_taken : exists got, stored_name [0xf7; 0xbf; 0xbf; 0xbf; 98] = Some got /\ got ≠ [0xf7; 0xbf; 0xbf; 0xbf; 98].
Proof. eexists. split; [vm_compute; reflexivity|discriminate]. Qed.
Example padding_taken : stored_name [0xef; 0xbf; 0xbf; 98] = Some [98].
Proof. vm_compute. reflexivity. Qed.
