(* ===== verification/FatVolume.v ===== *)
(** The FAT file service (apps/freestanding/aegir-fs-fat, src/main.cc): the
    window the block device reads into, the table's chains of clusters, the
    directories, the open files, and every method of the volume protocol it
    serves.  The device is a [SectorDevice]; the clock is the list of its
    answers to come.  What a caller's frame holds is an argument of the two
    methods that map one. *)
From stdpp Require Import base numbers list list_numbers.
From Stdlib Require Import ZArith Lia.
From S2P Require Import Prelude Layout Device Wire Fat.

Declare Scope fat_scope.
Delimit Scope fat_scope with fat.

(** * The block protocol (libs/freestanding/aegir-block, include/aegir/block.h) *)

Definition pack_read (first_sector count : Z) : Z :=
  u64 (Z.lor (Z.land first_sector 0xffffffffffff) (Z.shiftl (u32 (count - 1)) 48)).
Definition read_first (packed : Z) : Z := Z.land packed 0xffffffffffff.
Definition read_count (packed : Z) : Z := u32 (Z.shiftr packed 48 + 1).

(** * State *)

Definition kMaxEntrySlots : Z := kLfnSlotsMax + 1.
Definition kHandleFile : Z := 0.
Definition kHandleRead : Z := 1.

Record Handle := mkHandle {
  h_serial : Z;
  h_badge : Z;
  h_cursor : Z;
  h_size : Z;
  h_dirent_sector : Z;
  h_dirent_index : Z;
  h_first_cluster : Z;
  h_kind : Z;
}.
Definition handle_zero : Handle := mkHandle 0 0 0 0 0 0 0 0.

(** The globals.  [g_handles] is the table in [g_memory], empty where there is
    none; [hint] is the static of [alloc_cluster]; [g_clock] has what the clock
    will answer, no answers being no clock. *)
Record Service (D : Type) := mkService {
  g_blk : D;
  g_window : bytes;
  g_first : Z;
  g_window_sectors : Z;
  g_cluster_count : Z;
  g_range_bytes : Z;
  g_volume : Volume;
  g_writable : bool;
  g_handles : list Handle;
  g_handle_serial : Z;
  g_clock : list Z;
  g_fat_window : bytes;
  g_fat_window_rel : Z;
  hint : Z;
}.
Arguments mkService {D}. Arguments g_blk {D}. Arguments g_window {D}. Arguments g_first {D}.
Arguments g_window_sectors {D}. Arguments g_cluster_count {D}. Arguments g_range_bytes {D}. Arguments g_volume {D}.
Arguments g_writable {D}. Arguments g_handles {D}. Arguments g_handle_serial {D}. Arguments g_clock {D}.
Arguments g_fat_window {D}. Arguments g_fat_window_rel {D}. Arguments hint {D}.

(** No sector of a table has this number. *)
Definition no_sector : Z := 2 ^ 64 - 1.

(** Whether a directory is a chain of clusters or the fixed root region. *)
Record Dir := mkDir { dir_cluster : Z; dir_is_root : bool }.

Inductive Slot :=
  | Found (dirent : Dirent) (sector index : Z) (lfn : Lfn)
  | Free (sector index : Z)
  | Full
  | Broken.

Section Service.
Context {D : Type} `{SectorDevice D}.

Definition with_blk (s : Service D) (d : D) : Service D :=
  mkService d (g_window s) (g_first s) (g_window_sectors s) (g_cluster_count s) (g_range_bytes s) (g_volume s) (g_writable s)
    (g_handles s) (g_handle_serial s) (g_clock s) (g_fat_window s) (g_fat_window_rel s) (hint s).
Definition with_window (s : Service D) (b : bytes) : Service D :=
  mkService (g_blk s) b (g_first s) (g_window_sectors s) (g_cluster_count s) (g_range_bytes s) (g_volume s) (g_writable s)
    (g_handles s) (g_handle_serial s) (g_clock s) (g_fat_window s) (g_fat_window_rel s) (hint s).
Definition with_handles (s : Service D) (l : list Handle) (serial : Z) : Service D :=
  mkService (g_blk s) (g_window s) (g_first s) (g_window_sectors s) (g_cluster_count s) (g_range_bytes s) (g_volume s) (g_writable s)
    l serial (g_clock s) (g_fat_window s) (g_fat_window_rel s) (hint s).
Definition with_clock (s : Service D) (l : list Z) : Service D :=
  mkService (g_blk s) (g_window s) (g_first s) (g_window_sectors s) (g_cluster_count s) (g_range_bytes s) (g_volume s) (g_writable s)
    (g_handles s) (g_handle_serial s) l (g_fat_window s) (g_fat_window_rel s) (hint s).
Definition with_cache (s : Service D) (b : bytes) (rel : Z) : Service D :=
  mkService (g_blk s) (g_window s) (g_first s) (g_window_sectors s) (g_cluster_count s) (g_range_bytes s) (g_volume s) (g_writable s)
    (g_handles s) (g_handle_serial s) (g_clock s) b rel (hint s).
Definition with_hint (s : Service D) (h : Z) : Service D :=
  mkService (g_blk s) (g_window s) (g_first s) (g_window_sectors s) (g_cluster_count s) (g_range_bytes s) (g_volume s) (g_writable s)
    (g_handles s) (g_handle_serial s) (g_clock s) (g_fat_window s) (g_fat_window_rel s) h.

(** A computation of the service; [None] is one that has not ended within the
    turns its loops were given. *)
Definition M (A : Type) : Type := Service D -> option (A * Service D).
Definition mret {A} (x : A) : M A := fun s => Some (x, s).
Definition mbind {A B} (m : M A) (k : A -> M B) : M B := fun s => match m s with Some (x, s) => k x s | None => None end.
Definition mget {A} (f : Service D -> A) : M A := fun s => Some (f s, s).
Definition mput (f : Service D -> Service D) : M unit := fun s => Some (tt, f s).
Definition mstuck {A} : M A := fun _ => None.
End Service.

Notation "'let*' x := m 'in' k" := (mbind m (fun x => k)) (at level 200, x pattern, m at level 100, k at level 200, right associativity) : fat_scope.
Notation "m ;; k" := (mbind m (fun _ => k)) (at level 100, k at level 200, right associativity) : fat_scope.
(** [if (!m) return r;] *)
Notation "'need' m 'else' r 'in' k" := (mbind m (fun ok : bool => if ok then k else mret r)) (at level 200, m at level 100, r at level 100, k at level 200) : fat_scope.
Open Scope fat_scope.

(** The walks along a chain and through a directory have no bound in the code: one
    that goes round never ends.  They are given turns here, [more_turns] over
    what a volume with sound chains needs; what holds for every number of them
    holds for every walk that ends. *)
Class Turns := more_turns : nat.

Section Chains.
Context {D : Type} `{SectorDevice D} {turns : Turns}.
Notation M := (@M D).

(** ** The handle table *)

Definition first_row (test : Handle -> bool) (rows : list Handle) : option nat :=
  fst <$> list_find (fun h => Is_true (test h)) rows.

Definition row_at (s : Service D) (j : nat) : Handle := nth j (g_handles s) handle_zero.

Definition handle_lookup (serial badge : Z) : M (option nat) := fun s =>
  Some (if serial =? 0 then None
        else match first_row (fun h => h_serial h =? serial) (g_handles s) with
             | Some j => if h_badge (row_at s j) =? badge then Some j else None
             | None => None
             end, s).

(** The row is the caller's to fill. *)
Definition handle_alloc (badge : Z) : M (option nat) := fun s =>
  match first_row (fun h => h_serial h =? 0) (g_handles s) with
  | Some j =>
    let serial := u64 (g_handle_serial s + 1) in
    let h := row_at s j in
    Some (Some j, with_handles s (<[j := mkHandle serial badge (h_cursor h) (h_size h) (h_dirent_sector h) (h_dirent_index h)
                                          (h_first_cluster h) (h_kind h)]> (g_handles s)) serial)
  | None => Some (None, s)
  end.

Definition closed (h : Handle) : Handle :=
  mkHandle 0 (h_badge h) (h_cursor h) (h_size h) (h_dirent_sector h) (h_dirent_index h) (h_first_cluster h) (h_kind h).

Definition handle_reap (badge : Z) : M Z := fun s =>
  let mine h := negb (h_serial h =? 0) && (h_badge h =? badge) in
  Some (Z.of_nat (length (filter (fun h => Is_true (mine h)) (g_handles s))),
        with_handles s (map (fun h => if mine h then closed h else h) (g_handles s)) (g_handle_serial s)).

Definition put_row (j : nat) (h : Handle) : M unit := mput (fun s => with_handles s (<[j := h]> (g_handles s)) (g_handle_serial s)).

(** ** The clock and the device *)

Definition now_seconds : M Z := fun s =>
  match g_clock s with [] => Some (0, s) | t :: rest => Some (t, with_clock s rest) end.

Definition read (lba count : Z) : M bool := fun s =>
  if g_window_sectors s <? count then Some (false, s)
  else
    let word := pack_read (u64 (g_first s + lba)) count in
    match read_sectors (g_blk s) (read_first word) (read_count word) with
    | Some data => Some (read_count word =? count, with_window s (blit (g_window s) 0 data))
    | None => Some (false, s)
    end.

Definition write_back (lba count : Z) : M bool := fun s =>
  if g_window_sectors s <? count then Some (false, s)
  else
    let word := pack_read (u64 (g_first s + lba)) count in
    let '(ok, d) := write_sectors (g_blk s) (read_first word) (g_window s) (read_count word) in
    Some (ok && (read_count word =? count), with_blk s d).

(** A change to the window. *)
Definition in_window (f : bytes -> bytes) : M unit := mput (fun s => with_window s (f (g_window s))).
(** A change to the 32 bytes of a slot in the window. *)
Definition in_slot (index : Z) (f : bytes -> bytes) : M unit := in_window (fun w => blit w (index * 32) (f (slice w (index * 32) 32))).

Definition stamp_slot (sector index : Z) : M bool :=
  let* seconds := now_seconds in
  if seconds =? 0 then mret true
  else
    let '(date, time) := unix_to_dos seconds in
    need read sector 1 else false in
    in_slot index (fun slot => dirent_set_time slot date time) ;;
    write_back sector 1.

(** ** The table *)

Definition entry_bytes (v : Volume) : Z := if fat32 v then 4 else 2.
Definition chain_eoc (v : Volume) : Z := if fat32 v then kEoc32 else kEoc16.
Definition chain_eoc_mark (v : Volume) : Z := if fat32 v then kEocMark32 else kEocMark16.
(** A cluster's entry in a sector of the table, and that sector. *)
Definition sector_next (v : Volume) (sector : bytes) (cluster : Z) : Z :=
  if fat32 v then next32 sector (cluster mod 128) else next16 sector (cluster mod 256).
Definition sector_set_next (v : Volume) (sector : bytes) (cluster value : Z) : bytes :=
  if fat32 v then set_next32 sector (cluster mod 128) value else set_next16 sector (cluster mod 256) value.
Definition fat_rel (v : Volume) (cluster : Z) : Z := cluster * entry_bytes v / kSectorBytes.
Definition chained (v : Volume) (cluster : Z) : bool := (2 <=? cluster) && (cluster <? chain_eoc v).

Definition window_next (cluster : Z) : M Z := mget (fun s => sector_next (g_volume s) (g_window s) cluster).
Definition window_set_next (cluster value : Z) : M unit :=
  mput (fun s => with_window s (sector_set_next (g_volume s) (g_window s) cluster value)).

(** The sector of the table in the window, when it could be read. *)
Definition fat_load (cluster : Z) : M (option Z) :=
  let* v := mget g_volume in
  let rel := fat_rel v cluster in
  need read (u64 (fat_start v + rel)) 1 else None in
  mret (Some rel).

Definition fat_sector (cluster : Z) : M bool :=
  let* v := mget g_volume in
  let rel := fat_rel v cluster in
  let* cached := mget g_fat_window_rel in
  if rel =? cached then mret true
  else
    need read (u64 (fat_start v + rel)) 1 else false in
    mput (fun s => with_cache s (slice (g_window s) 0 kSectorBytes) rel) ;;
    mret true.

Definition fat_next (cluster : Z) : M Z := mget (fun s => sector_next (g_volume s) (g_fat_window s) cluster).

(** Every copy from [f] on; [n] are left. *)
Fixpoint store_copies (n : nat) (f rel : Z) : M bool :=
  match n with
  | O => mret true
  | S n =>
    let* v := mget g_volume in
    need write_back (u64 (fat_start v + u32 (f * fat_sectors v) + rel)) 1 else false in
    store_copies n (f + 1) rel
  end.

Definition fat_store (cluster value : Z) : M bool :=
  let* loaded := fat_load cluster in
  match loaded with
  | None => mret false
  | Some rel =>
    window_set_next cluster value ;;
    mput (fun s => with_cache s (g_fat_window s) no_sector) ;;
    let* v := mget g_volume in
    store_copies (Z.to_nat (fats v)) 0 rel
  end.

Definition zero_cluster (cluster : Z) : M bool :=
  let* v := mget g_volume in
  in_window (fun w => blit w 0 (zeros (sectors_per_cluster v * kSectorBytes))) ;;
  write_back (cluster_sector v cluster) (sectors_per_cluster v).

(** The scan for a free cluster; [n] are left, [i] were looked at and the window
    holds the table's sector [held]. *)
Fixpoint alloc_scan (n : nat) (i held : Z) : M Z :=
  match n with
  | O => mret 0
  | S n =>
    let* v := mget g_volume in
    let* count := mget g_cluster_count in
    let* h := mget hint in
    let c := u32 (2 + u32 (u32 (h - 2) + i) mod count) in
    let rel := fat_rel v c in
    need (if rel =? held then mret true else read (u64 (fat_start v + rel)) 1) else 0 in
    let* next := window_next c in
    if negb (next =? kFreeCluster) then alloc_scan n (i + 1) rel
    else
      need fat_store c (chain_eoc_mark v) else 0 in
      need zero_cluster c else 0 in
      mput (fun s => with_hint s (if u32 (2 + count) <=? u32 (c + 1) then 2 else u32 (c + 1))) ;;
      mret c
  end.
Definition alloc_cluster : M Z :=
  let* count := mget g_cluster_count in
  alloc_scan (Z.to_nat count) 0 no_sector.

(** Turns given to a walk along a chain: more than the volume has clusters. *)
Definition chain_fuel (s : Service D) : nat := S (S (Z.to_nat (g_cluster_count s))) + more_turns.

Fixpoint free_loop (fuel : nat) (c : Z) : M bool :=
  match fuel with
  | O => mstuck
  | S fuel =>
    let* v := mget g_volume in
    if negb (chained v c) then mret true
    else
      let* loaded := fat_load c in
      match loaded with
      | None => mret false
      | Some _ =>
        let* next := window_next c in
        need fat_store c kFreeCluster else false in
        free_loop fuel next
      end
  end.
Definition chain_free (first : Z) : M bool := fun s => free_loop (chain_fuel s) first s.

(** [n] links along a chain, grown where it ends; 0 is a failure. *)
Fixpoint seek_loop (n : nat) (c : Z) : M Z :=
  match n with
  | O => mret c
  | S n =>
    let* v := mget g_volume in
    need fat_sector c else 0 in
    let* next := fat_next c in
    if negb (chain_eoc v <=? next) then seek_loop n next
    else
      let* next := alloc_cluster in
      if next =? 0 then mret 0
      else
        need fat_store c next else 0 in
        seek_loop n next
  end.

(** The cluster at a position and the chain's first, which may be new. *)
Definition chain_seek (cursor first_cluster : Z) : M (Z * Z) :=
  let* v := mget g_volume in
  let target := u32 (cursor / (sectors_per_cluster v * kSectorBytes)) in
  let* first := if first_cluster <? 2 then alloc_cluster else mret first_cluster in
  if (first_cluster <? 2) && (first =? 0) then mret (0, first_cluster)
  else
    let* c := seek_loop (Z.to_nat target) first in
    mret (c, first).

(** The links of [chain_truncate], which reads the table into the window. *)
Fixpoint extend_loop (n : nat) (c : Z) : M (option Z) :=
  match n with
  | O => mret (Some c)
  | S n =>
    let* v := mget g_volume in
    let* loaded := fat_load c in
    match loaded with
    | None => mret None
    | Some _ =>
      let* next := window_next c in
      if negb (chain_eoc v <=? next) then extend_loop n next
      else
        let* next := alloc_cluster in
        if next =? 0 then mret None
        else
          need fat_store c next else None in
          extend_loop n next
    end
  end.

(** What follows the last cluster kept is freed, and the chain ends there. *)
Definition cut_after (c : Z) : M bool :=
  let* v := mget g_volume in
  let* loaded := fat_load c in
  match loaded with
  | None => mret false
  | Some _ =>
    let* rest := window_next c in
    need (if rest <? chain_eoc v then chain_free rest else mret true) else false in
    fat_store c (chain_eoc_mark v)
  end.

Definition chain_truncate (first size : Z) : M (bool * Z) :=
  let* v := mget g_volume in
  if size =? 0 then
    let* ok := chain_free first in mret (ok, 0)
  else
    let target := u32 ((size - 1) / (sectors_per_cluster v * kSectorBytes)) in
    let* c := if first <? 2 then alloc_cluster else mret first in
    if (first <? 2) && (c =? 0) then mret (false, first)
    else
      let* last := extend_loop (Z.to_nat target) c in
      match last with
      | None => mret (false, c)
      | Some last => let* ok := cut_after last in mret (ok, c)
      end.

(** The scan without the claim. *)
Fixpoint count_free (n : nat) (c held free : Z) : M Z :=
  match n with
  | O => mret free
  | S n =>
    let* v := mget g_volume in
    let rel := fat_rel v c in
    need (if rel =? held then mret true else read (u64 (fat_start v + rel)) 1) else free in
    let* next := window_next c in
    count_free n (c + 1) rel (if next =? kFreeCluster then free + 1 else free)
  end.
Definition free_cluster_count : M Z :=
  let* count := mget g_cluster_count in
  count_free (Z.to_nat (u32 (2 + count) - 2)) 2 no_sector 0.
End Chains.
