(* ===== verification/FatService.v ===== *)
(** The FAT file service, continued (apps/freestanding/aegir-fs-fat,
    src/main.cc): directories walked, searched and filled, files read and
    written, and the methods a client calls. *)
From stdpp Require Import base numbers list list_numbers.
From Stdlib Require Import ZArith Lia.
From S2P Require Import Prelude Layout Device Wire Fat FatVolume.

(** The metadata methods (include/aegir/metadata.h), which this volume has not. *)
Definition kMethodAttrStat : Z := 12.
Definition kMethodOwner : Z := 22.
Definition kUnsupported : Z := 1.

(** * Names and slots *)

Definition upper (c : Z) : Z := if (97 <=? c) && (c <=? 122) then c - 32 else c.
Definition same_name (a b : bytes) : bool := (zlen a =? zlen b) && forallb (fun p => upper p.1 =? upper p.2) (zip a b).

(** One slot as a scan sees it: the run afterwards and, for an entry, what it
    says with the run its name came from, empty where there was none. *)
Definition scan_entry (run : Lfn) (sector index : Z) (raw : bytes) : Lfn * option (Dirent * Lfn) :=
  match slot_kind raw with
  | LfnSlot => (lfn_feed run sector index raw, None)
  | Short =>
    let out := short_dirent raw in
    let entry :=
      if lfn_matches run raw
      then (mkDirent (lfn_decode run) (d_first_cluster out) (d_bytes out) (d_date out) (d_time out) (d_directory out), run)
      else (out, lfn_zero) in
    (lfn_reset run, Some entry)
  | _ => (lfn_reset run, None)
  end.

(** The [i]-th slot of the window. *)
Definition raw_at (window : bytes) (i : Z) : bytes := slice window (i * 32) 32.

(** What an entry is looked for by. *)
Inductive Want := ByName (name : bytes) | ByIndex (index : Z).

(** A search so far: whether it is over, with what, and how many entries it
    saw. *)
Record Search := mkSearch { s_over : bool; s_found : option Dirent; s_seen : Z; s_run : Lfn }.
Definition search_start : Search := mkSearch false None 0 lfn_zero.

(** The slots of the window from [i], [n] of them. *)
Fixpoint consider (n : nat) (i : Z) (window : bytes) (first_sector : Z) (want : Want) (st : Search) : Search :=
  match n with
  | O => st
  | S n =>
    let raw := raw_at window i in
    if byte_at raw 0 =? 0x00 then mkSearch true (s_found st) (s_seen st) (s_run st)
    else
      match scan_entry (s_run st) (u64 (first_sector + i * 32 / kSectorBytes)) (i mod 16) raw with
      | (run, None) => consider n (i + 1) window first_sector want (mkSearch false (s_found st) (s_seen st) run)
      | (run, Some (dirent, _)) =>
        match want with
        | ByName name =>
          if same_name (d_name dirent) name then mkSearch true (Some dirent) (s_seen st) run
          else consider n (i + 1) window first_sector want (mkSearch false (s_found st) (s_seen st) run)
        | ByIndex index =>
          if s_seen st =? index then mkSearch true (Some dirent) (u32 (s_seen st + 1)) run
          else consider n (i + 1) window first_sector want (mkSearch false (s_found st) (u32 (s_seen st + 1)) run)
        end
      end
  end.

(** The walk for a place: the first free slot seen, or the entry. *)
Inductive SlotScan :=
  | ScanFound (dirent : Dirent) (index : Z) (lfn : Lfn)
  | ScanEnded (free : option (Z * Z))
  | ScanOn (free : option (Z * Z)) (run : Lfn).

Definition first_free (free : option (Z * Z)) (at_ i : Z) : option (Z * Z) :=
  match free with Some _ => free | None => Some (at_, i) end.

Fixpoint slot_scan (n : nat) (i : Z) (window : bytes) (at_ : Z) (name : bytes) (free : option (Z * Z)) (run : Lfn) : SlotScan :=
  match n with
  | O => ScanOn free run
  | S n =>
    let raw := raw_at window i in
    if byte_at raw 0 =? 0x00 then ScanEnded (first_free free at_ i)
    else if byte_at raw 0 =? 0xe5 then slot_scan n (i + 1) window at_ name (first_free free at_ i) (lfn_reset run)
    else
      match scan_entry run at_ i raw with
      | (run, Some (dirent, matched)) =>
        if same_name (d_name dirent) name then ScanFound dirent i matched
        else slot_scan n (i + 1) window at_ name free run
      | (run, None) => slot_scan n (i + 1) window at_ name free run
      end
  end.

(** [name] is exactly what the 11 bytes spell: the parts up to their first
    space. *)
Fixpoint spelled (l : bytes) : bytes := match l with [] => [] | c :: l => if c =? 32 then [] else c :: spelled l end.
Definition equals_83 (name name83 : bytes) : bool :=
  let base := spelled (slice name83 0 8) in
  let ext := spelled (slice name83 8 3) in
  bool_decide (name = base ++ (if zlen ext =? 0 then [] else 46 :: ext)).

(** Slots of the window that are not [name83]'s; [None] is the end. *)
Fixpoint short_scan (n : nat) (i : Z) (window name83 : bytes) : option bool :=
  match n with
  | O => Some false
  | S n =>
    let raw := raw_at window i in
    if byte_at raw 0 =? 0x00 then None
    else if bool_decide (slot_kind raw = Short) && bool_decide (slice raw 0 11 = slice name83 0 11) then Some true
    else short_scan n (i + 1) window name83
  end.

(** The search for a run of free slots: where the run's slots are, how long it
    is, and whether the directory's end was passed. *)
Record Place := mkPlace { p_run : list (Z * Z); p_len : Z; p_ended : bool }.
Fixpoint place_scan (n : nat) (i : Z) (window : bytes) (at_ count : Z) (p : Place) : bool * Place :=
  match n with
  | O => (false, p)
  | S n =>
    let first := byte_at (raw_at window i) 0 in
    let free := p_ended p || (first =? 0x00) || (first =? 0xe5) in
    let ended := if first =? 0x00 then true else p_ended p in
    if free then
      let run := if p_len p <? kMaxEntrySlots then take (Z.to_nat (p_len p)) (p_run p) ++ [(at_, i)] else p_run p in
      let p := mkPlace run (p_len p + 1) ended in
      if p_len p =? count then (true, p) else place_scan n (i + 1) window at_ count p
    else place_scan n (i + 1) window at_ count (mkPlace (p_run p) 0 ended)
  end.

(** Where a name's extension starts, by its last dot. *)
Definition case_flags (name : bytes) : bool * bool :=
  let length := zlen name in
  let dot := last_dot name 0 length in
  let base_end := if (0 <? dot) && (dot + 1 <? length) then dot else length in
  let ext_at := if base_end <? length then base_end + 1 else length in
  let lower c := (97 <=? c) && (c <=? 122) in
  (existsb lower (slice name 0 base_end), existsb lower (slice name ext_at (length - ext_at))).

(** The slots of a new entry. *)
Definition entry_slots (name name83 : bytes) (canonical alias_used directory : bool) (cluster nbytes : Z) : option (list bytes) :=
  let needs_lfn := alias_used || negb (equals_83 name name83) in
  let short :=
    let slot := if directory then dirent_make_dir name83 cluster else dirent_make name83 in
    let slot := dirent_update slot cluster nbytes in
    if canonical && negb alias_used then let '(base_lower, ext_lower) := case_flags name in dirent_set_case slot base_lower ext_lower
    else slot in
  if needs_lfn then
    match name_units name kLongNameUnits with
    | None => None
    | Some units => Some (lfn_build units (name_checksum name83) ++ [short])
    end
  else Some [short].

(** A path's first component and what follows its slash; [None] is the last
    one. *)
Fixpoint component (path : bytes) : bytes * option bytes :=
  match path with
  | [] => ([], None)
  | c :: path =>
    if c =? 47 then ([], Some path)
    else let '(name, rest) := component path in (c :: name, rest)
  end.

(** The frame that came with a call: none, or there is no window to map one in;
    one that could not be mapped; one mapped, with what it holds. *)
Inductive Frame := NoFrame | Unmapped | Mapped (contents : bytes).

Definition is_dot_entry (dirent : Dirent) : bool :=
  if zlen (d_name dirent) =? 1 then byte_at (d_name dirent) 0 =? 46
  else (zlen (d_name dirent) =? 2) && (byte_at (d_name dirent) 0 =? 46) && (byte_at (d_name dirent) 1 =? 46).

Section Service.
Context {D : Type} `{SectorDevice D} {turns : Turns}.
Notation M := (@M D).

Definition dir_root (v : Volume) : Dir := if fat32 v then mkDir (root_cluster v) false else mkDir 0 true.
Definition slots_per_cluster (v : Volume) : nat := Z.to_nat (sectors_per_cluster v * kSectorBytes / 32).

(** * Searching a directory *)

(** The sectors of the fixed root from [k], [n] of them. *)
Fixpoint search_root (n : nat) (k : Z) (want : Want) (st : Search) : M (option Dirent) :=
  match n with
  | O => mret (s_found st)
  | S n =>
    let* v := mget g_volume in
    need read (u64 (root_start v + k)) 1 else None in
    let* w := mget g_window in
    let st := consider 16 0 w (u64 (root_start v + k)) want st in
    if s_over st then mret (s_found st) else search_root n (k + 1) want st
  end.

Fixpoint search_chain (fuel : nat) (cluster : Z) (want : Want) (st : Search) : M (option Dirent) :=
  match fuel with
  | O => mstuck
  | S fuel =>
    let* v := mget g_volume in
    if negb (chained v cluster) then mret (s_found st)
    else
      let first := cluster_sector v cluster in
      need read first (sectors_per_cluster v) else None in
      let* w := mget g_window in
      let st := consider (slots_per_cluster v) 0 w first want st in
      if s_over st then mret (s_found st)
      else
        need read (u64 (fat_start v + u32 (cluster * entry_bytes v) / kSectorBytes)) 1 else None in
        let* next := window_next cluster in
        search_chain fuel next want st
  end.

Definition find_in_dir (dir : Dir) (want : Want) : M (option Dirent) := fun s =>
  if dir_is_root dir then search_root (Z.to_nat (root_sectors (g_volume s))) 0 want search_start s
  else search_chain (chain_fuel s) (dir_cluster dir) want search_start s.

(** The components from [path] on; the stack is the directories come through.
    With [through_last] the answer has no last component. *)
Fixpoint walk_from (fuel : nat) (path : bytes) (through_last : bool) (dir : Dir) (stack : list Dir) : M (option (Dir * bytes)) :=
  match fuel with
  | O => mstuck
  | S fuel =>
    let '(name, rest) := component path in
    if bool_decide (rest = None) && negb through_last then mret (if zlen name =? 0 then None else Some (dir, name))
    else
      let onwards dir stack :=
        match rest with
        | None => mret (Some (dir, []))
        | Some path => walk_from fuel path through_last dir stack
        end in
      if zlen name =? 0 then
        match stack with
        | parent :: stack => onwards parent stack
        | [] => onwards dir []
        end
      else
        let* found := find_in_dir dir (ByName name) in
        match found with
        | Some dirent => if d_directory dirent then onwards (mkDir (d_first_cluster dirent) false) (dir :: stack) else mret None
        | None => mret None
        end
  end.
Definition walk (path : bytes) (through_last : bool) : M (option (Dir * bytes)) :=
  let* v := mget g_volume in
  walk_from (S (length path)) path through_last (dir_root v) [].

(** * A place in a directory *)

Fixpoint slot_root (n : nat) (k : Z) (name : bytes) (free : option (Z * Z)) (run : Lfn) : M Slot :=
  match n with
  | O => mret (match free with Some (sector, index) => Free sector index | None => Full end)
  | S n =>
    let* v := mget g_volume in
    let at_ := u64 (root_start v + k) in
    need read at_ 1 else Broken in
    let* w := mget g_window in
    match slot_scan 16 0 w at_ name free run with
    | ScanFound dirent index lfn => mret (Found dirent at_ index lfn)
    | ScanEnded free => mret (match free with Some (sector, index) => Free sector index | None => Full end)
    | ScanOn free run => slot_root n (k + 1) name free run
    end
  end.

(** The sectors of one cluster from [k]; [inl] ends the walk. *)
Fixpoint slot_sectors (n : nat) (k at_ : Z) (name : bytes) (free : option (Z * Z)) (run : Lfn) :
    M (Slot + option (Z * Z) + option (Z * Z) * Lfn) :=
  match n with
  | O => mret (inr (free, run))
  | S n =>
    let sector := u64 (at_ + k) in
    need read sector 1 else inl (inl Broken) in
    let* w := mget g_window in
    match slot_scan 16 0 w sector name free run with
    | ScanFound dirent index lfn => mret (inl (inl (Found dirent sector index lfn)))
    | ScanEnded free => mret (inl (inr free))
    | ScanOn free run => slot_sectors n (k + 1) at_ name free run
    end
  end.

(** The free slot seen, or one of a cluster the chain grows by. *)
Definition slot_or_grow (last : Z) (free : option (Z * Z)) : M Slot :=
  match free with
  | Some (sector, index) => mret (Free sector index)
  | None =>
    let* v := mget g_volume in
    let* fresh := alloc_cluster in
    if fresh =? 0 then mret Full
    else
      need fat_store last fresh else Broken in
      mret (Free (cluster_sector v fresh) 0)
  end.

Fixpoint slot_chain (fuel : nat) (cluster last : Z) (name : bytes) (free : option (Z * Z)) (run : Lfn) : M Slot :=
  match fuel with
  | O => mstuck
  | S fuel =>
    let* v := mget g_volume in
    if negb (chained v cluster) then slot_or_grow last free
    else
      let* r := slot_sectors (Z.to_nat (sectors_per_cluster v)) 0 (cluster_sector v cluster) name free run in
      match r with
      | inl (inl slot) => mret slot
      | inl (inr free) => slot_or_grow cluster free
      | inr (free, run) =>
        let* loaded := fat_load cluster in
        match loaded with
        | None => mret Broken
        | Some _ => let* next := window_next cluster in slot_chain fuel next cluster name free run
        end
      end
  end.

Definition dir_slot (dir : Dir) (name : bytes) : M Slot := fun s =>
  if dir_is_root dir then slot_root (Z.to_nat (root_sectors (g_volume s))) 0 name None lfn_zero s
  else slot_chain (chain_fuel s) (dir_cluster dir) (dir_cluster dir) name None lfn_zero s.

(** Whether a short name is taken; [None] is a read that failed. *)
Fixpoint short_root (n : nat) (k : Z) (name83 : bytes) : M (option bool) :=
  match n with
  | O => mret (Some false)
  | S n =>
    let* v := mget g_volume in
    need read (u64 (root_start v + k)) 1 else None in
    let* w := mget g_window in
    match short_scan 16 0 w name83 with
    | None => mret (Some false)
    | Some true => mret (Some true)
    | Some false => short_root n (k + 1) name83
    end
  end.
Fixpoint short_chain (fuel : nat) (cluster : Z) (name83 : bytes) : M (option bool) :=
  match fuel with
  | O => mstuck
  | S fuel =>
    let* v := mget g_volume in
    if negb (chained v cluster) then mret (Some false)
    else
      need read (cluster_sector v cluster) (sectors_per_cluster v) else None in
      let* w := mget g_window in
      match short_scan (slots_per_cluster v) 0 w name83 with
      | None => mret (Some false)
      | Some true => mret (Some true)
      | Some false =>
        let* loaded := fat_load cluster in
        match loaded with
        | None => mret None
        | Some _ => let* next := window_next cluster in short_chain fuel next name83
        end
      end
  end.
Definition dir_short_taken (dir : Dir) (name83 : bytes) : M (option bool) := fun s =>
  if dir_is_root dir then short_root (Z.to_nat (root_sectors (g_volume s))) 0 name83 s
  else short_chain (chain_fuel s) (dir_cluster dir) name83 s.

(** ** Placing an entry *)

(** Sectors from [k]; [None] is a read that failed. *)
Fixpoint place_sectors (n : nat) (k base count : Z) (p : Place) : M (option (bool * Place)) :=
  match n with
  | O => mret (Some (false, p))
  | S n =>
    let at_ := u64 (base + k) in
    need read at_ 1 else None in
    let* w := mget g_window in
    let '(placed, p) := place_scan 16 0 w at_ count p in
    if placed then mret (Some (true, p)) else place_sectors n (k + 1) base count p
  end.
Fixpoint place_chain (fuel : nat) (cluster count : Z) (p : Place) : M (Slot + Place) :=
  match fuel with
  | O => mstuck
  | S fuel =>
    let* v := mget g_volume in
    if negb (chained v cluster) then mret (inl Full)
    else
      let* r := place_sectors (Z.to_nat (sectors_per_cluster v)) 0 (cluster_sector v cluster) count p in
      match r with
      | None => mret (inl Broken)
      | Some (true, p) => mret (inr p)
      | Some (false, p) =>
        let* loaded := fat_load cluster in
        match loaded with
        | None => mret (inl Broken)
        | Some _ =>
          let* next := window_next cluster in
          if negb (chain_eoc v <=? next) then place_chain fuel next count p
          else
            let* next := alloc_cluster in
            if next =? 0 then mret (inl Full)
            else
              need fat_store cluster next else inl Broken in
              place_chain fuel next count p
        end
      end
  end.

(** The slots written, each at its place. *)
Fixpoint put_slots (slots : list bytes) (run : list (Z * Z)) : M bool :=
  match slots, run with
  | slot :: slots, (sector, index) :: run =>
    need read sector 1 else false in
    in_slot index (fun _ => slot) ;;
    need write_back sector 1 else false in
    put_slots slots run
  | _, _ => mret true
  end.

(** The last slot's place. *)
Definition dir_place (dir : Dir) (slots : list bytes) : M (Slot + Z * Z) :=
  let* v := mget g_volume in
  let count := zlen slots in
  let start := mkPlace [] 0 false in
  let* r :=
    (if dir_is_root dir then
       let* r := place_sectors (Z.to_nat (root_sectors v)) 0 (root_start v) count start in
       mret (match r with None => inl Broken | Some (true, p) => inr p | Some (false, _) => inl Full end)
     else fun s => place_chain (chain_fuel s + length slots) (dir_cluster dir) count start s) in
  match r with
  | inl slot => mret (inl slot)
  | inr p =>
    need put_slots slots (p_run p) else inl Broken in
    mret (inr (nth (length slots - 1) (p_run p) (0, 0)))
  end.

(** The first serial whose alias nobody has.  A serial of seven digits has no
    alias. *)
Definition kAliasTurns : nat := Z.to_nat 1000000.
Fixpoint free_alias (fuel : nat) (dir : Dir) (name : bytes) (serial : Z) : M (option bytes) :=
  match fuel with
  | O => mstuck
  | S fuel =>
    match short_alias name serial with
    | None => mret None
    | Some name83 =>
      let* taken := dir_short_taken dir name83 in
      match taken with
      | None => mret None
      | Some false => mret (Some name83)
      | Some true => free_alias fuel dir name (serial + 1)
      end
    end
  end.

Definition dir_create (dir : Dir) (name : bytes) (directory : bool) (cluster nbytes : Z) : M Slot :=
  let canonical := name_83 name in
  let* taken := match canonical with Some name83 => dir_short_taken dir name83 | None => mret (Some true) end in
  match taken with
  | None => mret Broken
  | Some taken =>
    let* name83 := if taken then free_alias kAliasTurns dir name 1 else mret canonical in
    match name83 with
    | None => mret Broken
    | Some name83 =>
      match entry_slots name name83 (bool_decide (canonical ≠ None)) taken directory cluster nbytes with
      | None => mret Broken
      | Some slots =>
        let* placed := dir_place dir slots in
        match placed with
        | inl slot => mret slot
        | inr (sector, index) => mret (Found (mkDirent name cluster nbytes 0 0 directory) sector index lfn_zero)
        end
      end
    end
  end.

(** * Files *)

(** [read_into]'s loop: [acc] is what was copied out, [position] the file's
    offset of the cluster's first byte. *)
Fixpoint read_chain (fuel : nat) (cluster position offset got : Z) (acc : bytes) : M bytes :=
  match fuel with
  | O => mstuck
  | S fuel =>
    let* v := mget g_volume in
    let cluster_bytes := sectors_per_cluster v * kSectorBytes in
    if negb ((zlen acc <? got) && chained v cluster) then mret acc
    else
      let onwards acc :=
        need fat_sector cluster else acc in
        let* next := fat_next cluster in
        read_chain fuel next (position + cluster_bytes) offset got acc in
      if offset <? position + cluster_bytes then
        need read (cluster_sector v cluster) (sectors_per_cluster v) else acc in
        let* w := mget g_window in
        let at_ := if position <? offset then offset - position else 0 in
        let room := cluster_bytes - at_ in
        let take := if got - zlen acc <? room then got - zlen acc else room in
        onwards (acc ++ slice w at_ take)
      else onwards acc
  end.

(** A turn passes a cluster, and those before the offset count too. *)
Definition read_into (dirent : Dirent) (offset wanted : Z) : M bytes :=
  let* v := mget g_volume in
  let available := d_bytes dirent - offset in
  let got := if wanted <? available then wanted else available in
  read_chain (S (S (Z.to_nat ((offset + got) / (sectors_per_cluster v * kSectorBytes)))) + more_turns) (d_first_cluster dirent) 0 offset got [].

(** The answer's last word has what the array held after the bytes. *)
Definition serve_read (stale : bytes) (dirent : Dirent) (offset wanted : Z) : M (list Z) :=
  let wanted := if volume.kReadMax <? wanted then volume.kReadMax else wanted in
  let* data := read_into dirent offset wanted in
  let filled := zlen data in
  let answer := blit (slice stale 0 volume.kReadMax) 0 data in
  mret (filled :: (if d_bytes dirent <=? offset + filled then 1 else 0) :: words_of answer (string_words filled)).

(** Part of the window written over. *)
Definition fill_window (at_ : Z) (data : bytes) : M unit := in_window (fun w => blit w at_ data).

(** One pass of [write_bytes]'s loop in a cluster: [rest] is what is left to
    write.  The answer is how much was written and whether to go on. *)
Definition write_part (c cursor : Z) (rest : bytes) : M (Z * bool) :=
  let* v := mget g_volume in
  let cluster_bytes := sectors_per_cluster v * kSectorBytes in
  let in_cluster := cursor mod cluster_bytes in
  let at_ := in_cluster mod kSectorBytes in
  let room := cluster_bytes - in_cluster in
  let span := if zlen rest <? room then zlen rest else room in
  let lba := u64 (cluster_sector v c + in_cluster / kSectorBytes) in
  if negb (at_ =? 0) then
    let head := if span <? kSectorBytes - at_ then span else kSectorBytes - at_ in
    need read lba 1 else (0, false) in
    fill_window at_ (slice rest 0 head) ;;
    need write_back lba 1 else (0, false) in
    mret (head, true)
  else
    let sectors := span / kSectorBytes in
    let tail := span mod kSectorBytes in
    let whole := sectors * kSectorBytes in
    let* ok := if sectors =? 0 then mret true
               else (fill_window 0 (slice rest 0 whole) ;; write_back lba sectors) in
    if negb ok then mret (0, false)
    else if tail =? 0 then mret (whole, true)
    else
      need read (u64 (lba + sectors)) 1 else (whole, false) in
      fill_window 0 (slice rest whole tail) ;;
      need write_back (u64 (lba + sectors)) 1 else (whole, false) in
      mret (whole + tail, true).

Definition with_cursor (h : Handle) (cursor : Z) : Handle :=
  mkHandle (h_serial h) (h_badge h) cursor (h_size h) (h_dirent_sector h) (h_dirent_index h) (h_first_cluster h) (h_kind h).
Definition with_first (h : Handle) (first : Z) : Handle :=
  mkHandle (h_serial h) (h_badge h) (h_cursor h) (h_size h) (h_dirent_sector h) (h_dirent_index h) first (h_kind h).

(** The loop: how many bytes were written, and the handle. *)
Fixpoint write_loop (fuel : nat) (data : bytes) (written : Z) (h : Handle) : M (Z * Handle) :=
  match fuel with
  | O => mstuck
  | S fuel =>
    if zlen data <=? written then mret (written, h)
    else
      let* seek := chain_seek (h_cursor h) (h_first_cluster h) in
      let h := with_first h seek.2 in
      if seek.1 =? 0 then mret (written, h)
      else
        let* part := write_part seek.1 (h_cursor h) (slice data written (zlen data - written)) in
        let h := with_cursor h (u64 (h_cursor h + part.1)) in
        if part.2 then write_loop fuel data (written + part.1) h else mret (written + part.1, h)
  end.

Definition with_size (h : Handle) (size : Z) : Handle :=
  mkHandle (h_serial h) (h_badge h) (h_cursor h) size (h_dirent_sector h) (h_dirent_index h) (h_first_cluster h) (h_kind h).

(** The entry's slot brought up to date, as far as the device lets it be. *)
Definition update_dirent (h : Handle) : M unit :=
  let* ok := read (h_dirent_sector h) 1 in
  if negb ok then mret tt
  else
    in_slot (h_dirent_index h) (fun slot => dirent_update slot (h_first_cluster h) (u32 (h_size h))) ;;
    let* seconds := now_seconds in
    (if seconds =? 0 then mret tt
     else let '(date, time) := unix_to_dos seconds in in_slot (h_dirent_index h) (fun slot => dirent_set_time slot date time)) ;;
    let* _ := write_back (h_dirent_sector h) 1 in
    mret tt.

(** A turn writes a byte at least. *)
Definition write_bytes (h : Handle) (data : bytes) : M (Z * Handle) :=
  let* r := write_loop (S (length data)) data 0 h in
  let '(written, h) := r in
  let h := if h_size h <? h_cursor h then with_size h (h_cursor h) else h in
  (if 0 <? written then update_dirent h else mret tt) ;;
  mret (written, h).

(** * Methods *)

(** The path a call starts with and the number of words it takes. *)
Definition path_of (words : list Z) : option (bytes * Z) :=
  if zlen words =? 0 then None
  else match unpack_string words kPathMax with
       | Some path => Some (path, 1 + string_words (zlen path))
       | None => None
       end.

(** A handle for a file: the answer is its serial, 0 when the table is full. *)
Definition open_row (badge size sector index first_cluster kind : Z) : M (list Z) :=
  let* row := handle_alloc badge in
  match row with
  | None => mret [0]
  | Some j =>
    let* h := mget (fun s => row_at s j) in
    put_row j (mkHandle (h_serial h) (h_badge h) 0 size sector index first_cluster kind) ;;
    mret [h_serial h]
  end.

(** What a write open does with the entry found: whether it may go on, with the
    size and first cluster. *)
Definition open_existing (dirent : Dirent) (sector index flags : Z) : M (bool * Z * Z) :=
  if Z.land flags volume.kOpenCreate =? 0 then mret (false, 0, 0)
  else if Z.land flags volume.kOpenTruncate =? 0 then mret (true, d_bytes dirent, d_first_cluster dirent)
  else
    let* ok := chain_free (d_first_cluster dirent) in
    if negb ok then mret (false, 0, 0)
    else
      let* loaded := read sector 1 in
      if negb loaded then mret (true, 0, 0)
      else
        in_slot index (fun slot => dirent_update slot 0 0) ;;
        let* ok := write_back sector 1 in
        mret (ok, 0, 0).

Definition answer_open (words : list Z) (badge : Z) : M (list Z) :=
  match path_of words with
  | None => mret [0]
  | Some (path, path_words) =>
    if zlen words <? path_words + 1 then mret [0]
    else
      let flags := word words path_words in
      let* walked := walk path false in
      match walked with
      | None => mret [0]
      | Some (dir, last) =>
        if negb (Z.land flags volume.kOpenRead =? 0) then
          let* slot := dir_slot dir last in
          match slot with
          | Found dirent sector index _ =>
            if d_directory dirent then mret [0] else open_row badge (d_bytes dirent) sector index (d_first_cluster dirent) kHandleRead
          | _ => mret [0]
          end
        else
          let* writable := mget g_writable in
          if negb writable then mret [0]
          else
            let* slot := dir_slot dir last in
            match slot with
            | Found dirent sector index _ =>
              if d_directory dirent then mret [0]
              else
                let* r := open_existing dirent sector index flags in
                if r.1.1 then open_row badge r.1.2 sector index r.2 kHandleFile else mret [0]
            | Free _ _ =>
              if Z.land flags volume.kOpenCreate =? 0 then mret [0]
              else
                let* made := dir_create dir last false 0 0 in
                match made with
                | Found _ sector index _ =>
                  need stamp_slot sector index else [0] in
                  open_row badge 0 sector index 0 kHandleFile
                | _ => mret [0]
                end
            | _ => mret [0]
            end
      end
  end.

Definition answer_write (words : list Z) (badge : Z) : M (list Z) :=
  if zlen words <? 3 then mret [0]
  else
    let* j := handle_lookup (word words 0) badge in
    let offset := word words 1 in
    let nbytes := word words 2 in
    match j with
    | None => mret [0]
    | Some j =>
      let* h := mget (fun s => row_at s j) in
      if negb (h_kind h =? kHandleFile) || (volume.kWriteMax <? nbytes) || (zlen words <? 3 + string_words nbytes) then mret [0]
      else
        let* r := write_bytes (with_cursor h offset) (slice (bytes_of words) 24 nbytes) in
        put_row j r.2 ;;
        mret [r.1]
    end.

Definition answer_write_frame (words : list Z) (badge : Z) (frame : Frame) : M (list Z) :=
  if zlen words <? 4 then mret [0]
  else
    let* j := handle_lookup (word words 0) badge in
    let offset := word words 1 in
    let frame_offset := word words 3 in
    match j, frame with
    | Some j, Mapped frame =>
      let* h := mget (fun s => row_at s j) in
      if negb (h_kind h =? kHandleFile) || (volume.kFrameBytes <=? frame_offset) then mret [0]
      else
        let room := volume.kFrameBytes - frame_offset in
        let wanted := if room <? word words 2 then room else word words 2 in
        let* r := write_bytes (with_cursor h offset) (slice frame frame_offset wanted) in
        put_row j r.2 ;;
        mret [r.1]
    | _, _ => mret [0]
    end.

Definition answer_close (words : list Z) (badge : Z) : M (list Z) :=
  if zlen words <? 1 then mret [0]
  else
    let* j := handle_lookup (word words 0) badge in
    match j with
    | None => mret [0]
    | Some j => let* h := mget (fun s => row_at s j) in put_row j (closed h) ;; mret [1]
    end.

Definition answer_reap (words : list Z) : M (list Z) :=
  if zlen words <? 1 then mret [0] else let* n := handle_reap (word words 0) in mret [n].

(** A new directory's cluster with its two entries. *)
Definition fresh_dir (parent : Dir) : M Z :=
  let* v := mget g_volume in
  let* cluster := alloc_cluster in
  if cluster =? 0 then mret 0
  else
    let own := cluster_sector v cluster in
    need read own (sectors_per_cluster v) else 0 in
    in_window (fun w => blit w 0 (dirent_make_dir (46 :: replicate 10 32) cluster)) ;;
    in_window (fun w => blit w 32 (dirent_make_dir (46 :: 46 :: replicate 9 32) (if dir_is_root parent then 0 else dir_cluster parent))) ;;
    need write_back own (sectors_per_cluster v) else 0 in
    mret cluster.

Fixpoint make_dirs_from (fuel : nat) (path : bytes) (dir : Dir) (stack : list Dir) : M bool :=
  match fuel with
  | O => mstuck
  | S fuel =>
    let '(name, rest) := component path in
    let onwards dir stack :=
      match rest with
      | None => mret true
      | Some path => make_dirs_from fuel path dir stack
      end in
    if zlen name =? 0 then
      match stack with
      | parent :: stack => onwards parent stack
      | [] => onwards dir []
      end
    else
      let* slot := dir_slot dir name in
      match slot with
      | Found dirent _ _ _ => if d_directory dirent then onwards (mkDir (d_first_cluster dirent) false) (dir :: stack) else mret false
      | Free _ _ =>
        let* cluster := fresh_dir dir in
        if cluster =? 0 then mret false
        else
          let* made := dir_create dir name true cluster 0 in
          match made with
          | Found _ sector index _ =>
            need stamp_slot sector index else false in
            onwards (mkDir cluster false) (dir :: stack)
          | _ => mret false
          end
      | _ => mret false
      end
  end.
Definition make_dirs (path : bytes) : M bool :=
  let* v := mget g_volume in
  make_dirs_from (S (length path)) path (dir_root v) [].

Definition answer_mkdir (words : list Z) : M (list Z) :=
  match path_of words with
  | None => mret [0]
  | Some (path, _) =>
    if zlen path =? 0 then mret [1]
    else
      let* writable := mget g_writable in
      if negb writable then mret [0]
      else let* made := make_dirs path in mret [if made then 1 else 0]
  end.

(** Slots of the window that are dots or nothing; [None] is the end, [false] an
    entry. *)
Fixpoint empty_scan (n : nat) (i : Z) (window : bytes) (first : Z) (run : Lfn) : option (bool * Lfn) :=
  match n with
  | O => Some (true, run)
  | S n =>
    let raw := raw_at window i in
    if byte_at raw 0 =? 0x00 then None
    else
      match scan_entry run (u64 (first + i * 32 / kSectorBytes)) (i mod 16) raw with
      | (run, None) => empty_scan n (i + 1) window first run
      | (run, Some (dirent, _)) => if is_dot_entry dirent then empty_scan n (i + 1) window first run else Some (false, run)
      end
  end.
Fixpoint empty_chain (fuel : nat) (c : Z) (run : Lfn) : M bool :=
  match fuel with
  | O => mstuck
  | S fuel =>
    let* v := mget g_volume in
    if negb (chained v c) then mret true
    else
      let first := cluster_sector v c in
      need read first (sectors_per_cluster v) else false in
      let* w := mget g_window in
      match empty_scan (slots_per_cluster v) 0 w first run with
      | None => mret true
      | Some (false, _) => mret false
      | Some (true, run) =>
        let* loaded := fat_load c in
        match loaded with
        | None => mret false
        | Some _ => let* next := window_next c in empty_chain fuel next run
        end
      end
  end.
Definition dir_is_empty (cluster : Z) : M bool := fun s => empty_chain (chain_fuel s) cluster lfn_zero s.

Definition names_slot (sector index : Z) (h : Handle) : bool :=
  negb (h_serial h =? 0) && (h_dirent_sector h =? sector) && (h_dirent_index h =? index).
Definition handle_names (sector index : Z) : M bool := mget (fun s => existsb (names_slot sector index) (g_handles s)).

(** The fragments from [k], [n] of them. *)
Fixpoint delete_fragments (n : nat) (k : Z) (lfn : Lfn) : M bool :=
  match n with
  | O => mret true
  | S n =>
    let sector := byte_at (l_fragments lfn) k in
    need read sector 1 else false in
    in_window (fun w => set_byte w (byte_at (l_fragment_index lfn) k * 32) 0xe5) ;;
    need write_back sector 1 else false in
    delete_fragments n (k + 1) lfn
  end.
Definition mark_deleted (sector index : Z) (lfn : Lfn) : M bool :=
  let fragments := if l_active lfn then l_count lfn / 13 else 0 in
  need delete_fragments (Z.to_nat fragments) 0 lfn else false in
  need read sector 1 else false in
  in_window (fun w => set_byte w (index * 32) 0xe5) ;;
  write_back sector 1.

Definition answer_remove (words : list Z) : M (list Z) :=
  match path_of words with
  | None => mret [0]
  | Some (path, _) =>
    let* writable := mget g_writable in
    if negb writable then mret [0]
    else
      let* walked := walk path false in
      match walked with
      | None => mret [0]
      | Some (dir, last) =>
        let* slot := dir_slot dir last in
        match slot with
        | Found dirent sector index lfn =>
          need (if d_directory dirent then dir_is_empty (d_first_cluster dirent) else mret true) else [0] in
          let* held := handle_names sector index in
          if held then mret [0]
          else
            need chain_free (d_first_cluster dirent) else [0] in
            let* ok := mark_deleted sector index lfn in
            mret [if ok then 1 else 0]
        | _ => mret [0]
        end
      end
  end.

Definition same_dir (a b : Dir) : bool :=
  if negb (Bool.eqb (dir_is_root a) (dir_is_root b)) then false else dir_is_root a || (dir_cluster a =? dir_cluster b).

Definition answer_rename (words : list Z) : M (list Z) :=
  match path_of words with
  | None => mret [0]
  | Some (src, src_words) =>
    if zlen words <? src_words then mret [0]
    else
      match unpack_string (drop (Z.to_nat src_words) words) kPathMax with
      | None => mret [0]
      | Some dst =>
        let* writable := mget g_writable in
        if negb writable then mret [0]
        else
          let* from := walk src false in
          match from with
          | None => mret [0]
          | Some (src_dir, src_last) =>
            let* to := walk dst false in
            match to with
            | None => mret [0]
            | Some (dst_dir, dst_last) =>
              if negb (same_dir src_dir dst_dir) then mret [0]
              else
                let* slot := dir_slot src_dir src_last in
                match slot with
                | Found dirent sector index lfn =>
                  let* held := handle_names sector index in
                  if held then mret [0]
                  else
                    let* existing := dir_slot dst_dir dst_last in
                    match existing with
                    | Found _ _ _ _ => mret [0]
                    | _ =>
                      let* made := dir_create src_dir dst_last (d_directory dirent) (d_first_cluster dirent) (d_bytes dirent) in
                      match made with
                      | Found _ made_sector made_index _ =>
                        need stamp_slot made_sector made_index else [0] in
                        let* ok := mark_deleted sector index lfn in
                        mret [if ok then 1 else 0]
                      | _ => mret [0]
                      end
                    end
                | _ => mret [0]
                end
            end
          end
      end
  end.

(** An open file cut or grown. *)
Definition resized (sector index first size : Z) (h : Handle) : Handle :=
  if names_slot sector index h
  then mkHandle (h_serial h) (h_badge h) (if size <? h_cursor h then size else h_cursor h) size (h_dirent_sector h) (h_dirent_index h) first (h_kind h)
  else h.
Definition handles_resize (sector index first size : Z) : M unit :=
  mput (fun s => with_handles s (map (resized sector index first size) (g_handles s)) (g_handle_serial s)).

Definition answer_truncate (words : list Z) : M (list Z) :=
  match path_of words with
  | None => mret [0]
  | Some (path, path_words) =>
    if zlen words <? path_words + 1 then mret [0]
    else
      let size := word words path_words in
      let* writable := mget g_writable in
      if negb writable || (0xffffffff <? size) then mret [0]
      else
        let* walked := walk path false in
        match walked with
        | None => mret [0]
        | Some (dir, last) =>
          let* slot := dir_slot dir last in
          match slot with
          | Found dirent sector index _ =>
            if d_directory dirent then mret [0]
            else
              let* r := chain_truncate (d_first_cluster dirent) size in
              if negb r.1 then mret [0]
              else
                need read sector 1 else [0] in
                in_slot index (fun slot => dirent_update slot r.2 (u32 size)) ;;
                need write_back sector 1 else [0] in
                handles_resize sector index r.2 size ;;
                mret [1]
          | _ => mret [0]
          end
        end
  end.

Definition answer_read (stale : bytes) (words : list Z) : M (list Z) :=
  match path_of words with
  | None => mret []
  | Some (path, path_words) =>
    if zlen words <? path_words + 2 then mret []
    else
      let offset := word words path_words in
      let wanted := word words (path_words + 1) in
      let* walked := walk path false in
      match walked with
      | None => mret []
      | Some (dir, last) =>
        let* found := find_in_dir dir (ByName last) in
        match found with
        | Some dirent => if d_directory dirent || (d_bytes dirent <? offset) then mret [] else serve_read stale dirent offset wanted
        | None => mret []
        end
      end
  end.

(** The entry a handle's slot has now. *)
Definition handle_dirent (serial badge : Z) : M (option Dirent) :=
  let* j := handle_lookup serial badge in
  match j with
  | None => mret None
  | Some j =>
    let* h := mget (fun s => row_at s j) in
    if negb ((h_kind h =? kHandleRead) || (h_kind h =? kHandleFile)) then mret None
    else
      need read (h_dirent_sector h) 1 else None in
      let* w := mget g_window in
      mret (Some (short_dirent (slice w (h_dirent_index h * 32) 32)))
  end.

Definition answer_read_handle (stale : bytes) (words : list Z) (badge : Z) : M (list Z) :=
  if zlen words <? 3 then mret []
  else
    let offset := word words 1 in
    let* found := handle_dirent (word words 0) badge in
    match found with
    | Some dirent => if d_directory dirent || (d_bytes dirent <? offset) then mret [] else serve_read stale dirent offset (word words 2)
    | None => mret []
    end.

(** The answer, and the frame with the bytes at its offset. *)
Definition answer_read_frame (words : list Z) (badge : Z) (frame : Frame) : M (list Z * Frame) :=
  if (zlen words <? 4) || match frame with NoFrame => true | _ => false end then mret ([], frame)
  else
    let offset := word words 1 in
    let frame_offset := word words 3 in
    let frame_bits := if 5 <=? zlen words then u32 (word words 4) else volume.kFrameBitsMin in
    if (frame_bits <? volume.kFrameBitsMin) || (volume.kFrameBitsMax <? frame_bits) then mret ([], frame)
    else
      let frame_size := 2 ^ frame_bits in
      if frame_size <=? frame_offset then mret ([], frame)
      else
        let* found := handle_dirent (word words 0) badge in
        match found with
        | Some dirent =>
          if d_directory dirent || (d_bytes dirent <? offset) then mret ([], frame)
          else
            match frame with
            | Mapped contents =>
              let room := frame_size - frame_offset in
              let wanted := if room <? word words 2 then room else word words 2 in
              let* data := read_into dirent offset wanted in
              mret ([zlen data; if d_bytes dirent <=? offset + zlen data then 1 else 0], Mapped (blit contents frame_offset data))
            | _ => mret ([], frame)
            end
        | None => mret ([], frame)
        end.

(** The entries from [raw] on, dots not counted; a turn is a search. *)
Fixpoint visible_from (fuel : nat) (dir : Dir) (raw visible index : Z) : M (option Dirent) :=
  match fuel with
  | O => mstuck
  | S fuel =>
    let* found := find_in_dir dir (ByIndex raw) in
    match found with
    | None => mret None
    | Some dirent =>
      if is_dot_entry dirent then visible_from fuel dir (u32 (raw + 1)) visible index
      else if visible =? index then mret (Some dirent)
      else visible_from fuel dir (u32 (raw + 1)) (visible + 1) index
    end
  end.
(** More turns than a directory has entries. *)
Definition visible_entry (dir : Dir) (index : Z) : M (option Dirent) := fun s =>
  visible_from (S (Z.to_nat ((g_cluster_count s + 1) * sectors_per_cluster (g_volume s) * 16 + root_sectors (g_volume s) * 16)) + more_turns) dir 0 0 index s.

Definition answer_list (words : list Z) : M (list Z) :=
  match path_of words with
  | None => mret []
  | Some (path, path_words) =>
    if zlen words <? path_words + 1 then mret []
    else
      let* walked := walk path true in
      match walked with
      | None => mret []
      | Some (dir, _) =>
        let* found := visible_entry dir (word words path_words) in
        match found with
        | None => mret []
        | Some dirent =>
          let '(name_words, answer) := pack_string (replicate (Z.to_nat kMaxWords) 0) (d_name dirent) volume.kEntryNameMax in
          if (name_words =? 0) || (kMaxWords <? name_words + volume.kListTailWords) then mret []
          else
            mret (take (Z.to_nat name_words) answer ++
                  [d_bytes dirent; if d_directory dirent then volume.kKindDir else volume.kKindFile; dos_to_unix (d_date dirent) (d_time dirent)])
        end
      end
  end.

Definition answer_stat (words : list Z) : M (list Z) :=
  match path_of words with
  | None => mret []
  | Some (path, _) =>
    if zlen path =? 0 then mret [volume.kKindDir; 0; 0; 0]
    else
      let* walked := walk path false in
      match walked with
      | None => mret []
      | Some (dir, last) =>
        let* found := find_in_dir dir (ByName last) in
        match found with
        | None => mret []
        | Some dirent =>
          mret [if d_directory dirent then volume.kKindDir else volume.kKindFile; if d_directory dirent then 0 else d_bytes dirent;
                dos_to_unix (d_date dirent) (d_time dirent); d_first_cluster dirent]
        end
      end
  end.

Definition answer_space : M (list Z) :=
  let* v := mget g_volume in
  let* n := free_cluster_count in
  let free := u64 (n * (sectors_per_cluster v * kSectorBytes)) in
  let* total := mget g_range_bytes in
  mret [total; if free <? total then free else total].

(** A call: the reply, and the frame that came with it. *)
Definition serve (stale : bytes) (method : Z) (words : list Z) (badge : Z) (frame : Frame) : M (list Z * Frame) :=
  let plain m := let* r := m in mret (r, frame) in
  if method =? volume.kMethodRead then plain (answer_read stale words)
  else if method =? volume.kMethodReadHandle then plain (answer_read_handle stale words badge)
  else if method =? volume.kMethodReadFrame then answer_read_frame words badge frame
  else if method =? volume.kMethodList then plain (answer_list words)
  else if method =? volume.kMethodStat then plain (answer_stat words)
  else if method =? volume.kMethodSpace then plain answer_space
  else if method =? volume.kMethodOpen then plain (answer_open words badge)
  else if method =? volume.kMethodWrite then plain (answer_write words badge)
  else if method =? volume.kMethodWriteFrame then plain (answer_write_frame words badge frame)
  else if method =? volume.kMethodClose then plain (answer_close words badge)
  else if method =? volume.kMethodMkdir then plain (answer_mkdir words)
  else if method =? volume.kMethodRemove then plain (answer_remove words)
  else if method =? volume.kMethodRename then plain (answer_rename words)
  else if method =? volume.kMethodTruncate then plain (answer_truncate words)
  else if method =? volume.kMethodReap then plain (answer_reap words)
  else if (kMethodAttrStat <=? method) && (method <=? kMethodOwner) then plain (mret [kUnsupported])
  else plain (mret []).

(** * The start

    What [main] does with the volume before it serves: the boot sector read and
    judged, the geometry kept, and the counts of free clusters on a FAT32 volume
    that is written marked unknown.  [range_sectors] is the grant's length,
    [capacity] the rows of the handle table. *)
Definition mount (range_sectors : Z) (capacity : nat) : M bool :=
  need read 0 1 else false in
  let* w := mget g_window in
  let* old := mget g_volume in
  let '(flavor, v) := bpb w old in
  match flavor with
  | Fat16 | Fat32 =>
    mput (fun s => mkService (g_blk s) (g_window s) (g_first s) (g_window_sectors s)
            (u32 (u64 (range_sectors - data_start v) / sectors_per_cluster v)) (u64 (range_sectors * kSectorBytes)) v (g_writable s)
            (replicate capacity handle_zero) (g_handle_serial s) (g_clock s) (g_fat_window s) (g_fat_window_rel s) (hint s)) ;;
    let* writable := mget g_writable in
    let* loaded := if writable && fat32 v then read 1 1 else mret false in
    let* w := mget g_window in
    if loaded && (word32 w 0 =? 0x41615252) && (word32 w 484 =? 0x61417272) then
      in_window (fun w => put32 (put32 w 488 0xffffffff) 492 0xffffffff) ;;
      let* _ := write_back 1 1 in
      mret true
    else mret true
  | _ => mret false
  end.
End Service.
