(* ===== verification/FatTurns.v ===== *)
(** The turns of the FAT service's walks (FatVolume.v, FatService.v): a call that
    answers with some number of turns answers the same, and leaves the same
    state, with any greater number.  So what a call that ends does is no matter
    of the turns, and [serves] is a function of the state and the call. *)
From stdpp Require Import base numbers list list_numbers.
From Stdlib Require Import ZArith Lia.
From S2P Require Import Prelude Layout Device Wire Fat FatVolume FatService.

Section Extends.
Context {D : Type} `{SectorDevice D}.

(** Where [m1] ends, [m2] does, the same way. *)
Definition extends {A} (m1 m2 : @M D A) : Prop := forall s x s', m1 s = Some (x, s') -> m2 s = Some (x, s').

Lemma extends_refl {A} (m : @M D A) : extends m m.
Proof. intros s x s'. auto. Qed.
Lemma extends_stuck {A} (m : @M D A) : extends mstuck m.
Proof. intros s x s' [=]. Qed.
Lemma extends_bind {A B} (m1 m2 : @M D A) (k1 k2 : A -> @M D B) :
  extends m1 m2 -> (forall x, extends (k1 x) (k2 x)) -> extends (mbind m1 k1) (mbind m2 k2).
Proof.
  intros Hm Hk s y s' Hs. unfold mbind in *. destruct (m1 s) as [[x s1]|] eqn:E; [|discriminate].
  rewrite (Hm s x s1 E). now apply Hk.
Qed.
(** A computation that looks at the state for its turns. *)
Lemma extends_at {A} (f1 f2 : Service D -> @M D A) : (forall s, extends (f1 s) (f2 s)) -> extends (fun s => f1 s s) (fun s => f2 s s).
Proof. intros Hf s x s'. apply Hf. Qed.
End Extends.

Create HintDb turns discriminated.
#[export] Hint Constants Opaque : turns.
#[export] Hint Resolve extends_stuck : turns.
#[export] Hint Extern 0 (extends ?m ?m) => apply extends_refl : turns.

(** Two computations of the same shape, step by step. *)
Ltac extend_step :=
  match goal with
  | |- extends (mbind _ _) (mbind _ _) => apply extends_bind; [|intros]
  | |- extends (if ?b then _ else _) _ => destruct b
  | |- extends (match ?x with _ => _ end) _ => destruct x
  | |- extends (let '_ := ?x in _) _ => destruct x
  end.
Ltac extend := repeat (intros; first [solve [eauto with turns] | extend_step | progress cbv zeta beta]).
(** A loop with more fuel, in its induction on the fuel it has. *)
Ltac more :=
  first [ lia | apply extends_stuck
        | match goal with Hle : (S ?n <= S ?m)%nat |- _ => apply le_S_n in Hle end; extend ].

Section Loops.
Context {D : Type} `{SectorDevice D}.

Lemma free_loop_more n : forall m c, (n <= m)%nat -> @extends D _ (free_loop n c) (free_loop m c).
Proof. induction n as [|n IH]; intros [|m] c Hle; cbn [free_loop]; more. Qed.
Lemma search_chain_more n : forall m c want st, (n <= m)%nat -> @extends D _ (search_chain n c want st) (search_chain m c want st).
Proof. induction n as [|n IH]; intros [|m] c want st Hle; cbn [search_chain]; more. Qed.
Lemma slot_chain_more n : forall m c last name free run, (n <= m)%nat -> @extends D _ (slot_chain n c last name free run) (slot_chain m c last name free run).
Proof. induction n as [|n IH]; intros [|m] c last name free run Hle; cbn [slot_chain]; more. Qed.
Lemma short_chain_more n : forall m c name, (n <= m)%nat -> @extends D _ (short_chain n c name) (short_chain m c name).
Proof. induction n as [|n IH]; intros [|m] c name Hle; cbn [short_chain]; more. Qed.
Lemma place_chain_more n : forall m c count p, (n <= m)%nat -> @extends D _ (place_chain n c count p) (place_chain m c count p).
Proof. induction n as [|n IH]; intros [|m] c count p Hle; cbn [place_chain]; more. Qed.
Lemma read_chain_more n : forall m c position offset got acc, (n <= m)%nat ->
  @extends D _ (read_chain n c position offset got acc) (read_chain m c position offset got acc).
Proof. induction n as [|n IH]; intros [|m] c position offset got acc Hle; cbn [read_chain]; more. Qed.
Lemma empty_chain_more n : forall m c run, (n <= m)%nat -> @extends D _ (empty_chain n c run) (empty_chain m c run).
Proof. induction n as [|n IH]; intros [|m] c run Hle; cbn [empty_chain]; more. Qed.
End Loops.

Section More.
Context {D : Type} `{SectorDevice D} {t1 t2 : Turns} (Hle : (@more_turns t1 <= @more_turns t2)%nat).

Lemma chain_fuel_more (s : Service D) : (chain_fuel (turns := t1) s <= chain_fuel (turns := t2) s)%nat.
Proof. unfold chain_fuel. lia. Qed.
#[local] Hint Resolve chain_fuel_more : turns.

Lemma chain_free_more c : @extends D _ (chain_free (turns := t1) c) (chain_free (turns := t2) c).
Proof. intros s x s'. apply free_loop_more, chain_fuel_more. Qed.
#[local] Hint Resolve chain_free_more : turns.
Lemma cut_after_more c : @extends D _ (cut_after (turns := t1) c) (cut_after (turns := t2) c).
Proof. unfold cut_after. extend. Qed.
#[local] Hint Resolve cut_after_more : turns.
Lemma chain_truncate_more first size : @extends D _ (chain_truncate (turns := t1) first size) (chain_truncate (turns := t2) first size).
Proof. unfold chain_truncate. extend. Qed.
Lemma find_more dir want : @extends D _ (find_in_dir (turns := t1) dir want) (find_in_dir (turns := t2) dir want).
Proof. intros s x s'. unfold find_in_dir. destruct (dir_is_root dir); [auto|]. apply search_chain_more, chain_fuel_more. Qed.
#[local] Hint Resolve chain_truncate_more find_more : turns.
Lemma walk_from_more n : forall path last dir stack, @extends D _ (walk_from (turns := t1) n path last dir stack) (walk_from (turns := t2) n path last dir stack).
Proof. induction n as [|n IH]; intros; cbn [walk_from]; extend. Qed.
#[local] Hint Resolve walk_from_more : turns.
Lemma walk_more path last : @extends D _ (walk (turns := t1) path last) (walk (turns := t2) path last).
Proof. unfold walk. extend. Qed.
Lemma dir_slot_more dir name : @extends D _ (dir_slot (turns := t1) dir name) (dir_slot (turns := t2) dir name).
Proof. intros s x s'. unfold dir_slot. destruct (dir_is_root dir); [auto|]. apply slot_chain_more, chain_fuel_more. Qed.
Lemma short_taken_more dir name : @extends D _ (dir_short_taken (turns := t1) dir name) (dir_short_taken (turns := t2) dir name).
Proof. intros s x s'. unfold dir_short_taken. destruct (dir_is_root dir); [auto|]. apply short_chain_more, chain_fuel_more. Qed.
#[local] Hint Resolve walk_more dir_slot_more short_taken_more : turns.
Lemma free_alias_more n : forall dir name serial, @extends D _ (free_alias (turns := t1) n dir name serial) (free_alias (turns := t2) n dir name serial).
Proof. induction n as [|n IH]; intros; cbn [free_alias]; extend. Qed.
Lemma place_at_more n c count p :
  @extends D _ (fun s => place_chain (chain_fuel (turns := t1) s + n) c count p s) (fun s => place_chain (chain_fuel (turns := t2) s + n) c count p s).
Proof. intros s x s'. apply place_chain_more. pose proof (chain_fuel_more s). lia. Qed.
#[local] Hint Resolve free_alias_more place_at_more : turns.
Lemma dir_place_more dir slots : @extends D _ (dir_place (turns := t1) dir slots) (dir_place (turns := t2) dir slots).
Proof. unfold dir_place. extend. Qed.
#[local] Hint Resolve dir_place_more : turns.
Lemma dir_create_more dir name directory cluster nbytes :
  @extends D _ (dir_create (turns := t1) dir name directory cluster nbytes) (dir_create (turns := t2) dir name directory cluster nbytes).
Proof. unfold dir_create. extend. Qed.
Lemma read_into_more dirent offset wanted : @extends D _ (read_into (turns := t1) dirent offset wanted) (read_into (turns := t2) dirent offset wanted).
Proof. unfold read_into. apply extends_bind; [extend|]. intros v. apply read_chain_more. lia. Qed.
#[local] Hint Resolve dir_create_more read_into_more : turns.
Lemma serve_read_more stale dirent offset wanted :
  @extends D _ (serve_read (turns := t1) stale dirent offset wanted) (serve_read (turns := t2) stale dirent offset wanted).
Proof. unfold serve_read. extend. Qed.
Lemma open_existing_more dirent sector index flags :
  @extends D _ (open_existing (turns := t1) dirent sector index flags) (open_existing (turns := t2) dirent sector index flags).
Proof. unfold open_existing. extend. Qed.
#[local] Hint Resolve serve_read_more open_existing_more : turns.
Lemma make_dirs_from_more n : forall path dir stack,
  @extends D _ (make_dirs_from (turns := t1) n path dir stack) (make_dirs_from (turns := t2) n path dir stack).
Proof. induction n as [|n IH]; intros; cbn [make_dirs_from]; extend. Qed.
#[local] Hint Resolve make_dirs_from_more : turns.
Lemma make_dirs_more path : @extends D _ (make_dirs (turns := t1) path) (make_dirs (turns := t2) path).
Proof. unfold make_dirs. extend. Qed.
Lemma dir_is_empty_more c : @extends D _ (dir_is_empty (turns := t1) c) (dir_is_empty (turns := t2) c).
Proof. intros s x s'. apply empty_chain_more, chain_fuel_more. Qed.
Lemma visible_from_more n : forall m dir raw visible index, (n <= m)%nat ->
  @extends D _ (visible_from (turns := t1) n dir raw visible index) (visible_from (turns := t2) m dir raw visible index).
Proof. induction n as [|n IH]; intros [|m] dir raw visible index Hm; cbn [visible_from]; more. Qed.
Lemma visible_entry_more dir index : @extends D _ (visible_entry (turns := t1) dir index) (visible_entry (turns := t2) dir index).
Proof. intros s x s'. apply visible_from_more. lia. Qed.
#[local] Hint Resolve make_dirs_more dir_is_empty_more visible_entry_more : turns.

(** A call that ends with some turns ends the same with more. *)
Lemma serve_more stale method words badge frame :
  @extends D _ (serve (turns := t1) stale method words badge frame) (serve (turns := t2) stale method words badge frame).
Proof.
  unfold serve, answer_read, answer_read_handle, answer_read_frame, answer_list, answer_stat, answer_open, answer_mkdir, answer_remove, answer_rename,
    answer_truncate. extend.
Qed.
End More.

(** * Calls that end *)

Section Calls.
Context {D : Type} `{SectorDevice D}.

(** The call ends, whatever turns its walks take, with this reply and state. *)
Definition serves (stale : bytes) (method : Z) (words : list Z) (badge : Z) (frame : Frame) (s : Service D) (r : list Z * Frame) (s' : Service D) : Prop :=
  exists turns : Turns, serve (turns := turns) stale method words badge frame s = Some (r, s').

Lemma serves_once stale method words badge frame s r1 s1 r2 s2 :
  serves stale method words badge frame s r1 s1 -> serves stale method words badge frame s r2 s2 -> r1 = r2 /\ s1 = s2.
Proof.
  intros [t1 H1] [t2 H2]. destruct (Nat.le_ge_cases (@more_turns t1) (@more_turns t2)) as [Hle|Hle].
  - apply (serve_more Hle) in H1. rewrite H1 in H2. now injection H2.
  - apply (serve_more Hle) in H2. rewrite H2 in H1. now injection H1.
Qed.
End Calls.
