(* ===== verification/FatChains.v ===== *)
(** The FAT service's chains of clusters (FatVolume.v): the table of a working
    volume as a function from clusters to entries, what storing an entry,
    taking a cluster and freeing a chain do to it, and that nothing else on the
    volume changes. *)
From stdpp Require Import base numbers list list_numbers sets.
From Stdlib Require Import ZArith Lia.
From S2P Require Import Prelude Layout Device Wire Fat FatVolume.

(** * The block protocol's word *)

Lemma pack_read_spec f n :
  0 <= f < 2 ^ 48 -> 1 <= n <= 2 ^ 16 -> read_first (pack_read f n) = f /\ read_count (pack_read f n) = n.
Proof.
  intros Hf Hn. unfold pack_read, read_first, read_count. change 0xffffffffffff with (Z.ones 48).
  rewrite !Z.land_ones by lia. rewrite (Z.mod_small f), (u32_small (n - 1)) by lia.
  rewrite lor_shiftl_add, u64_small by lia. rewrite Z.shiftr_div_pow2 by lia. split; [zlia|]. rewrite u32_small by zlia. zlia.
Qed.

Section Volume.
Context {D : Type} `{SectorDeviceLaws D} `{!PoweredDevice D} {turns : Turns}.
Implicit Types s : Service D.

(** A sector of the volume, and [n] of them end to end. *)
Definition vsector s (lba : Z) : bytes := sector (g_blk s) (g_first s + lba).
Definition vsectors s (lba n : Z) : bytes := concat (map (vsector s) (seqZ lba n)).
Definition volume_end s : Z := data_start (g_volume s) + g_cluster_count s * sectors_per_cluster (g_volume s).

(** The sector of the table that has a cluster's entry, and the entry. *)
Definition entry_sector s (c : Z) : Z := fat_start (g_volume s) + fat_rel (g_volume s) c.
Definition entry s (c : Z) : Z := sector_next (g_volume s) (vsector s (entry_sector s c)) c.
(** Entries the table has room for. *)
Definition in_table s (c : Z) : Prop := 0 <= c /\ c * entry_bytes (g_volume s) + entry_bytes (g_volume s) <= fat_sectors (g_volume s) * 512.
Definition is_cluster s (c : Z) : Prop := 2 <= c < g_cluster_count s + 2.
(** Sectors that are no part of a table. *)
Definition off_table s (k : Z) : Prop := 0 <= k /\ (k < fat_start (g_volume s) \/ root_start (g_volume s) <= k).

(** What an operation on the chains leaves alone. *)
Record same_setup (s s' : Service D) : Prop := {
  ss_first : g_first s' = g_first s;
  ss_window_sectors : g_window_sectors s' = g_window_sectors s;
  ss_count : g_cluster_count s' = g_cluster_count s;
  ss_range : g_range_bytes s' = g_range_bytes s;
  ss_volume : g_volume s' = g_volume s;
  ss_writable : g_writable s' = g_writable s;
  ss_handles : g_handles s' = g_handles s;
  ss_serial : g_handle_serial s' = g_handle_serial s;
}.
#[global] Instance same_setup_refl : Reflexive same_setup.
Proof. intros s. now split. Qed.
#[global] Instance same_setup_trans : Transitive same_setup.
Proof. intros s1 s2 s3 [] []. split; congruence. Qed.

(** A volume on a device that works: the regions the boot sector places are on
    the device, the table has an entry for every cluster, a cluster fits the
    window, and the kept sector of the table is the one on the device. *)
Record ready (cap : Z) (s : Service D) : Prop := {
  rd_power : powered (g_blk s) cap;
  rd_cap : cap <= 2 ^ 48;
  rd_first : 0 <= g_first s;
  rd_layout : layout_ok (g_volume s);
  rd_copies : fats (g_volume s) * fat_sectors (g_volume s) < 2 ^ 32;
  rd_end : g_first s + volume_end s <= cap;
  rd_count : 1 <= g_cluster_count s /\ g_cluster_count s + 2 <= chain_eoc (g_volume s);
  rd_table : in_table s (g_cluster_count s + 1);
  rd_window : sectors_per_cluster (g_volume s) <= g_window_sectors s /\ zlen (g_window s) = g_window_sectors s * 512 /\ bytes_ok (g_window s);
  rd_hint : is_cluster s (hint s);
  rd_cache : g_fat_window_rel s = no_sector \/
    (0 <= g_fat_window_rel s < fat_sectors (g_volume s) /\ g_fat_window s = vsector s (fat_start (g_volume s) + g_fat_window_rel s));
}.

Context (cap : Z).
Local Notation rdy := (ready cap).

Lemma vsector_len s k : zlen (vsector s k) = 512.
Proof. apply sector_len. Qed.
Lemma vsector_ok s k : bytes_ok (vsector s k).
Proof. apply sector_ok. Qed.

Lemma entry_bytes_cases v : fat32 v = true /\ entry_bytes v = 4 \/ fat32 v = false /\ entry_bytes v = 2.
Proof. unfold entry_bytes. destruct (fat32 v); auto. Qed.

Lemma fat_rel_range s c : in_table s c -> 0 <= fat_rel (g_volume s) c < fat_sectors (g_volume s).
Proof.
  intros [Hc Ht]. unfold fat_rel, kSectorBytes. destruct (entry_bytes_cases (g_volume s)) as [[_ E]|[_ E]]; rewrite E in *; zlia.
Qed.

Lemma cluster_in_table s c : rdy s -> is_cluster s c -> in_table s c.
Proof. intros [] [Hc1 Hc2]. split; [lia|]. destruct rd_table0 as [_ Ht]. destruct (entry_bytes_cases (g_volume s)) as [[_ E]|[_ E]]; rewrite E in *; lia. Qed.

(** Where the regions are. *)
Lemma regions s : rdy s ->
  1 <= fat_start (g_volume s) /\ root_start (g_volume s) = fat_start (g_volume s) + fats (g_volume s) * fat_sectors (g_volume s) /\
  fat_start (g_volume s) < root_start (g_volume s) <= data_start (g_volume s) /\ data_start (g_volume s) <= volume_end s /\ g_first s + volume_end s <= cap <= 2 ^ 48 /\
  1 <= sectors_per_cluster (g_volume s) <= 255 /\ 1 <= fats (g_volume s) /\ 1 <= fat_sectors (g_volume s).
Proof.
  intros []. destruct rd_layout0 as [L1 L2 L3 L4 L5 (L6 & _) L7]. unfold volume_end in *. splits; (lia || nia).
Qed.

Lemma cluster_place s c : rdy s -> is_cluster s c ->
  cluster_sector (g_volume s) c = data_start (g_volume s) + (c - 2) * sectors_per_cluster (g_volume s) /\
  data_start (g_volume s) <= cluster_sector (g_volume s) c /\
  cluster_sector (g_volume s) c + sectors_per_cluster (g_volume s) <= volume_end s.
Proof.
  intros Hr Hc. destruct (regions s Hr) as (R1 & R2 & R3 & R3' & R4 & R5 & _). pose proof (rd_first _ _ Hr) as Hf. destruct Hr, Hc as [Hc1 Hc2].
  assert (Hce : chain_eoc (g_volume s) <= 2 ^ 28) by (unfold chain_eoc, kEoc32, kEoc16; destruct (fat32 _); lia).
  assert (Hp : 0 <= (c - 2) * sectors_per_cluster (g_volume s)) by nia.
  assert (Hq : (c - 2) * sectors_per_cluster (g_volume s) + sectors_per_cluster (g_volume s) <= g_cluster_count s * sectors_per_cluster (g_volume s)) by nia.
  unfold cluster_sector, volume_end in *. rewrite (u32_small (c - 2)), u64_small by lia. lia.
Qed.

(** ** Reading and writing *)

Lemma read_ok s lba n :
  rdy s -> 0 <= lba -> 1 <= n <= g_window_sectors s -> n <= 2 ^ 16 -> lba + n <= volume_end s ->
  read lba n s = Some (true, with_window s (blit (g_window s) 0 (vsectors s lba n))).
Proof.
  intros Hr Hl Hn Hn2 He. destruct (regions s Hr) as (_ & _ & _ & _ & R4 & _). destruct Hr. unfold read. rewrite (proj2 (Z.ltb_ge _ _)) by lia.
  rewrite u64_small by lia. destruct (pack_read_spec (g_first s + lba) n ltac:(lia) ltac:(lia)) as [-> ->].
  destruct (powered_read (g_blk s) cap (g_first s + lba) n rd_power0 ltac:(lia) ltac:(lia) ltac:(lia)) as [out Hout].
  rewrite Hout, Z.eqb_refl. rewrite (read_view (g_blk s) (g_first s + lba) n out ltac:(lia) ltac:(lia) Hout). unfold sectors, vsectors.
  rewrite <- fmap_add_seqZ. change (fmap (Z.add (g_first s))) with (map (Z.add (g_first s))). rewrite map_map. reflexivity.
Qed.

Lemma write_back_ok s lba n :
  rdy s -> 0 <= lba -> 1 <= n <= g_window_sectors s -> n <= 2 ^ 16 -> lba + n <= volume_end s ->
  exists d, write_back lba n s = Some (true, with_blk s d) /\ powered d cap /\
    forall k, 0 <= k -> vsector (with_blk s d) k =
      if (lba <=? k) && (k <? lba + n) then slice (g_window s) ((k - lba) * 512) 512 else vsector s k.
Proof.
  intros Hr Hl Hn Hn2 He. destruct (regions s Hr) as (_ & _ & _ & _ & R4 & _). destruct Hr. destruct rd_window0 as (W1 & W2 & W3).
  unfold write_back. rewrite (proj2 (Z.ltb_ge _ _)) by lia.
  rewrite u64_small by lia. destruct (pack_read_spec (g_first s + lba) n ltac:(lia) ltac:(lia)) as [-> ->].
  destruct (powered_write (g_blk s) cap (g_first s + lba) (g_window s) n rd_power0 ltac:(lia) ltac:(lia) ltac:(lia)) as (d & Hd & Hp).
  rewrite Hd, Z.eqb_refl. exists d. splits; auto. intros k Hk. unfold vsector. cbn [g_blk g_first with_blk].
  destruct (Z.leb_spec lba k), (Z.ltb_spec k (lba + n)); cbn [andb];
    try (apply (write_frame (g_blk s) d (g_first s + lba) (g_window s) n true); auto; lia).
  replace (g_first s + k) with (g_first s + lba + (k - lba)) by lia.
  apply (write_done (g_blk s) d (g_first s + lba) (g_window s) n (k - lba)); auto; lia.
Qed.

(** ** The state after a read *)

Lemma zlen_vsectors s lba n : 0 <= n -> zlen (vsectors s lba n) = n * 512.
Proof.
  intros Hn. revert n Hn lba. apply (natlike_ind (fun n => forall lba, zlen (vsectors s lba n) = n * 512)); [reflexivity|].
  intros n Hn IH lba. unfold vsectors in *. rewrite seqZ_cons by lia. cbn [map concat]. rewrite zlen_app, vsector_len, Z.pred_succ, IH. lia.
Qed.
Lemma bytes_ok_vsectors s lba n : bytes_ok (vsectors s lba n).
Proof.
  unfold vsectors. induction (seqZ lba n) as [|k l IH]; cbn [map concat]; [constructor|]. apply bytes_ok_app; [apply vsector_ok|exact IH].
Qed.
Lemma vsectors_one s lba : vsectors s lba 1 = vsector s lba.
Proof. unfold vsectors. cbn. apply app_nil_r. Qed.

Lemma ready_window s w : rdy s -> zlen w = zlen (g_window s) -> bytes_ok w -> rdy (with_window s w).
Proof. intros [] Hz Hb. split; auto. cbn. destruct rd_window0 as (? & ? & ?). splits; auto. congruence. Qed.

(** The window holds what was read, and nothing else changes. *)
Lemma read_into_window s lba n :
  rdy s -> 0 <= lba -> 1 <= n <= g_window_sectors s -> n <= 2 ^ 16 -> lba + n <= volume_end s ->
  exists w, read lba n s = Some (true, with_window s w) /\ rdy (with_window s w) /\ slice w 0 (n * 512) = vsectors s lba n /\
    zlen w = zlen (g_window s).
Proof.
  intros Hr Hl Hn Hn2 He. rewrite read_ok by auto. set (w := blit _ _ _). exists w. pose proof (rd_window _ _ Hr) as (W1 & W2 & W3).
  assert (Hz : zlen w = zlen (g_window s)) by apply zlen_blit. splits; auto.
  - apply ready_window; auto. apply bytes_ok_blit; auto using bytes_ok_vsectors. lia.
  - apply slice_blit_same; rewrite ?zlen_vsectors; lia.
Qed.

(** ** Entries in a sector *)

Lemma sector_next_ext v a b c : (forall i, 0 <= i < 512 -> byte_at a i = byte_at b i) -> sector_next v a c = sector_next v b c.
Proof.
  intros He. unfold sector_next, next32, next16. destruct (fat32 v).
  - f_equal. rewrite !word32_le. unfold le32. rewrite !He by zlia. reflexivity.
  - rewrite !word16_le. unfold le16. rewrite !He by zlia. reflexivity.
Qed.
Lemma sector_next_slice v w c : sector_next v w c = sector_next v (slice w 0 512) c.
Proof. apply sector_next_ext. intros i Hi. now rewrite byte_at_slice by lia. Qed.

Lemma slice_blit_prefix w a src n : 0 <= a -> a + zlen src <= n -> n <= zlen w -> slice (blit w a src) 0 n = blit (slice w 0 n) a src.
Proof.
  intros Ha Hn Hw. pose proof (zlen_nonneg src) as H1. apply bytes_ext; [rewrite zlen_blit, !zlen_slice; lia|].
  rewrite zlen_slice by lia. intros i Hi. rewrite byte_at_slice, !byte_at_blit, byte_at_slice, zlen_slice by lia.
  rewrite Z.add_0_l, (proj2 (Z.ltb_lt i n)), (proj2 (Z.ltb_lt i (zlen w))) by lia. reflexivity.
Qed.

Lemma sector_set_slice v w c x : 512 <= zlen w -> slice (sector_set_next v w c x) 0 512 = sector_set_next v (slice w 0 512) c x.
Proof.
  intros Hw. unfold sector_set_next, set_next32, set_next16. destruct (fat32 v).
  - assert (E : word32 (slice w 0 512) (c mod 128 * 4) = word32 w (c mod 128 * 4)).
    { rewrite !word32_le. unfold le32. rewrite !byte_at_slice by zlia. reflexivity. }
    rewrite E, !put32_le, !put_le32_blit by (rewrite ?zlen_slice; zlia). apply slice_blit_prefix; [zlia|rewrite zlen_le_split; zlia|auto].
  - rewrite !put16_le, !put_le16_blit by (rewrite ?zlen_slice; zlia). apply slice_blit_prefix; [zlia|rewrite zlen_le_split; zlia|auto].
Qed.

(** What an entry keeps of a number stored in it. *)
Definition entry_value (v : Volume) (x : Z) : Z := if fat32 v then x mod 2 ^ 28 else x mod 2 ^ 16.

Lemma sector_next_set v b c c' x :
  zlen b = 512 -> bytes_ok b ->
  sector_next v (sector_set_next v b c x) c' =
  if (if fat32 v then c mod 128 =? c' mod 128 else c mod 256 =? c' mod 256) then entry_value v x else sector_next v b c'.
Proof.
  intros Hz Hb. unfold sector_next, sector_set_next, entry_value. destruct (fat32 v).
  - apply next32_set; auto; zlia.
  - apply next16_set; auto; zlia.
Qed.
Lemma sector_set_ok v b c x :
  zlen b = 512 -> bytes_ok b -> zlen (sector_set_next v b c x) = 512 /\ bytes_ok (sector_set_next v b c x).
Proof.
  intros Hz Hb. unfold sector_set_next. destruct (fat32 v); [apply set_next32_ok|apply set_next16_ok]; auto; zlia.
Qed.

Lemma fat_rel_div v c : 0 <= c -> fat_rel v c = if fat32 v then c / 128 else c / 256.
Proof. intros Hc. unfold fat_rel, entry_bytes, kSectorBytes. destruct (fat32 v); zlia. Qed.
(** Two entries of one sector are one when they are at one place. *)
Lemma entry_place v c c' : 0 <= c -> 0 <= c' -> fat_rel v c = fat_rel v c' ->
  (if fat32 v then c mod 128 =? c' mod 128 else c mod 256 =? c' mod 256) = (c' =? c).
Proof.
  intros Hc Hc'. rewrite !fat_rel_div by auto. intros He. destruct (fat32 v), (Z.eqb_spec c' c) as [->|Hne]; try apply Z.eqb_refl; apply Z.eqb_neq; zlia.
Qed.

(** ** Loading and storing an entry *)

Definition mirrored s : Prop := forall f r, 0 <= f < fats (g_volume s) -> 0 <= r < fat_sectors (g_volume s) ->
  vsector s (fat_start (g_volume s) + f * fat_sectors (g_volume s) + r) = vsector s (fat_start (g_volume s) + r).

(** From [s] to [s'] the table becomes [tab], and of the other sectors only the
    dirty ones may change; copies of the table that agreed still do. *)
Record stepped (s s' : Service D) (tab : Z -> Z) (dirty : Z -> Prop) : Prop := {
  st_ready : rdy s';
  st_setup : same_setup s s';
  st_entry : forall j, in_table s j -> entry s' j = tab j;
  st_frame : forall k, off_table s k -> ~ dirty k -> vsector s' k = vsector s k;
  st_mirror : mirrored s -> mirrored s';
}.
Definition clean (k : Z) : Prop := False.

Lemma same_in_table s s' j : same_setup s s' -> in_table s' j <-> in_table s j.
Proof. intros []. unfold in_table. now rewrite ss_volume0. Qed.
Lemma same_is_cluster s s' j : same_setup s s' -> is_cluster s' j <-> is_cluster s j.
Proof. intros []. unfold is_cluster. now rewrite ss_count0. Qed.
Lemma same_off_table s s' k : same_setup s s' -> off_table s' k <-> off_table s k.
Proof. intros []. unfold off_table. now rewrite ss_volume0. Qed.

Lemma stepped_trans s1 s2 s3 tab2 tab3 dirty2 dirty3 (dirty : Z -> Prop) :
  stepped s1 s2 tab2 dirty2 -> stepped s2 s3 tab3 dirty3 -> (forall k, dirty2 k \/ dirty3 k -> dirty k) -> stepped s1 s3 tab3 dirty.
Proof.
  intros [R1 S1 E1 F1 M1] [R2 S2 E2 F2 M2] Hd. split; auto.
  - etransitivity; eauto.
  - intros j Hj. apply E2. now rewrite (same_in_table s1 s2).
  - intros k Hk Hn. rewrite F2, F1; auto. now rewrite (same_off_table s1 s2).
Qed.
Lemma stepped_ext s s' tab tab' dirty : stepped s s' tab dirty -> (forall j, in_table s j -> tab j = tab' j) -> stepped s s' tab' dirty.
Proof. intros [R1 S1 E1 F1 M1] He. split; auto. intros j Hj. now rewrite E1, He. Qed.

(** Only the window, the kept sector or the hint changed. *)
Lemma stepped_same s s' : rdy s' -> same_setup s s' -> g_blk s' = g_blk s -> stepped s s' (entry s) clean.
Proof.
  intros Hr Hs Hb. assert (Hv : forall k, vsector s' k = vsector s k) by (intros k; unfold vsector; now rewrite Hb, (ss_first _ _ Hs)).
  split; auto.
  - intros j Hj. unfold entry, entry_sector. now rewrite Hv, (ss_volume _ _ Hs).
  - intros Hm f r. unfold mirrored in Hm. rewrite (ss_volume _ _ Hs), !Hv. auto.
Qed.

Lemma fat_load_ok s c :
  rdy s -> in_table s c ->
  exists w, fat_load c s = Some (Some (fat_rel (g_volume s) c), with_window s w) /\ rdy (with_window s w) /\
    slice w 0 512 = vsector s (entry_sector s c) /\ zlen w = zlen (g_window s).
Proof.
  intros Hr Hc. pose proof (fat_rel_range s c Hc) as Hrel. destruct (regions s Hr) as (R1 & R2 & R3 & R3' & R4 & R5 & R6 & R7).
  pose proof (rd_window _ _ Hr) as (W1 & _). pose proof (rd_first _ _ Hr) as R0.
  assert (Hle : fat_sectors (g_volume s) <= fats (g_volume s) * fat_sectors (g_volume s)) by nia.
  unfold fat_load. cbv beta iota zeta delta [mbind mget mret]. rewrite u64_small by lia.
  destruct (read_into_window s (fat_start (g_volume s) + fat_rel (g_volume s) c) 1 Hr ltac:(lia) ltac:(lia) ltac:(lia) ltac:(lia)) as (w & -> & Hw & Hs & Hz).
  rewrite vsectors_one in Hs. eauto.
Qed.

Lemma window_next_loaded s w c x : slice w 0 512 = x -> sector_next (g_volume s) w c = sector_next (g_volume s) x c.
Proof. intros <-. apply sector_next_slice. Qed.

Lemma ready_blk s d : rdy s -> g_fat_window_rel s = no_sector -> powered d cap -> rdy (with_blk s d).
Proof. intros [] Hc Hd. split; auto. Qed.

Lemma store_copies_ok n rel : forall f s,
  rdy s -> g_fat_window_rel s = no_sector -> 0 <= f -> f + Z.of_nat n <= fats (g_volume s) -> 0 <= rel < fat_sectors (g_volume s) ->
  exists d, store_copies n f rel s = Some (true, with_blk s d) /\ powered d cap /\
    (forall g, f <= g < f + Z.of_nat n -> vsector (with_blk s d) (fat_start (g_volume s) + g * fat_sectors (g_volume s) + rel) = slice (g_window s) 0 512) /\
    (forall k, 0 <= k -> (forall g, f <= g < f + Z.of_nat n -> k <> fat_start (g_volume s) + g * fat_sectors (g_volume s) + rel) ->
       vsector (with_blk s d) k = vsector s k).
Proof.
  induction n as [|n IH]; intros f s Hr Hcache Hf Hn Hrel.
  { exists (g_blk s). cbn [store_copies]. splits; [now destruct s|apply Hr|lia|reflexivity]. }
  destruct (regions s Hr) as (R1 & R2 & R3 & R3' & R4 & R5 & R6 & R7). pose proof (rd_window _ _ Hr) as (W1 & _). pose proof (rd_copies _ _ Hr) as Hc.
  pose proof (rd_first _ _ Hr) as R0. set (v := g_volume s) in *.
  assert (Hb : f * fat_sectors v + fat_sectors v <= fats v * fat_sectors v) by nia.
  cbn [store_copies]. cbv beta iota zeta delta [mbind mget mret]. fold v. rewrite u32_small by nia. rewrite u64_small by nia.
  destruct (write_back_ok s (fat_start v + f * fat_sectors v + rel) 1 Hr ltac:(nia) ltac:(lia) ltac:(lia) ltac:(nia)) as (d1 & -> & Hp1 & Hv1).
  destruct (IH (f + 1) (with_blk s d1) (ready_blk s d1 Hr Hcache Hp1) Hcache ltac:(lia) ltac:(cbn; fold v; lia) Hrel) as (d & -> & Hp & Hin & Hout).
  cbn [g_volume with_blk g_window] in Hin, Hout. fold v in Hin, Hout. exists d. splits; auto.
  - intros g Hg. destruct (Z.eq_dec g f) as [->|Hne]; [|apply Hin; lia]. change (with_blk s d) with (with_blk (with_blk s d1) d).
    rewrite Hout, Hv1 by nia. rewrite Z.leb_refl, (proj2 (Z.ltb_lt _ _)), Z.sub_diag by lia. reflexivity.
  - intros k Hk Hne. change (with_blk s d) with (with_blk (with_blk s d1) d). rewrite Hout by (auto; intros g Hg; apply Hne; lia).
    rewrite Hv1 by auto. specialize (Hne f ltac:(lia)). destruct (Z.leb_spec (fat_start v + f * fat_sectors v + rel) k); cbn [andb]; [|reflexivity].
    rewrite (proj2 (Z.ltb_ge _ _)) by lia. reflexivity.
Qed.

Definition set_entry (tab : Z -> Z) (c x : Z) : Z -> Z := fun j => if j =? c then x else tab j.

(** Places in the copies are one only when they are the same place of the same
    copy. *)
Lemma copy_place fs f g r q : 0 <= r < fs -> 0 <= q < fs -> f * fs + r = g * fs + q -> f = g /\ r = q.
Proof. intros Hr Hq He. assert (f = g) by nia. subst. lia. Qed.

Lemma fat_store_ok s c x :
  rdy s -> in_table s c ->
  exists s', fat_store c x s = Some (true, s') /\ stepped s s' (set_entry (entry s) c (entry_value (g_volume s) x)) clean /\ hint s' = hint s.
Proof.
  intros Hr Hc. destruct (fat_load_ok s c Hr Hc) as (w & Hl & Hrw & Hsl & Hz). pose proof (fat_rel_range s c Hc) as Hrel.
  destruct (regions s Hr) as (R1 & R2 & R3 & R3' & R4 & R5 & R6 & R7). pose proof (rd_window _ _ Hr) as (W1 & W2 & W3). set (v := g_volume s) in *.
  set (w' := sector_set_next v w c x).
  assert (Hs' : slice w' 0 512 = sector_set_next v (vsector s (entry_sector s c)) c x) by (unfold w'; rewrite sector_set_slice, Hsl by lia; reflexivity).
  assert (Hw' : zlen w' = zlen (g_window s) /\ bytes_ok w').
  { pose proof (rd_window _ _ Hrw) as (_ & V2 & V3). cbn in V2, V3. unfold w', sector_set_next, set_next32, set_next16. destruct (fat32 v).
    - rewrite put32_le, zlen_put32. split; [exact Hz|]. apply bytes_ok_put32; [zlia|exact V3].
    - rewrite put16_le, zlen_put16. split; [exact Hz|]. apply bytes_ok_put16; [zlia|exact V3]. }
  set (s2 := with_cache (with_window s w') (g_fat_window s) no_sector).
  assert (Hr2 : rdy s2).
  { pose proof (ready_window s w' Hr (proj1 Hw') (proj2 Hw')) as []. split; auto. }
  destruct (store_copies_ok (Z.to_nat (fats v)) (fat_rel v c) 0 s2 Hr2 eq_refl ltac:(lia) ltac:(cbn; fold v; lia) Hrel) as (d & Hd & Hp & Hin & Hout).
  cbn [g_volume s2 with_cache with_window g_window] in Hin, Hout. fold v in Hin, Hout. rewrite Z2Nat.id in Hin, Hout by lia.
  exists (with_blk s2 d). split; [|split; [|reflexivity]].
  { unfold fat_store. cbv beta iota zeta delta [mbind mget mret mput window_set_next]. rewrite Hl. exact Hd. }
  split; [apply ready_blk; auto|now split| | |].
  - intros j Hj. pose proof (fat_rel_range s j Hj) as Hrj. fold v in Hrj. unfold set_entry, entry, entry_sector.
    cbn [g_volume with_blk s2 with_cache with_window]. fold v. destruct (Z.eq_dec (fat_rel v j) (fat_rel v c)) as [E|E].
    + rewrite E. replace (fat_start v + fat_rel v c) with (fat_start v + 0 * fat_sectors v + fat_rel v c) by lia. rewrite Hin by lia. rewrite Hs'.
      rewrite sector_next_set by (apply vsector_len || apply vsector_ok). rewrite entry_place by (destruct Hc, Hj; auto).
      destruct (j =? c); [reflexivity|]. unfold entry_sector. fold v. do 2 f_equal. lia.
    + rewrite Hout by (try lia; intros g Hg He; destruct (copy_place (fat_sectors v) 0 g (fat_rel v j) (fat_rel v c)); lia).
      destruct (Z.eqb_spec j c) as [->|_]; [congruence|reflexivity].
  - intros k [Hk0 Hk] _. rewrite Hout; [reflexivity|lia|]. fold v in Hk. intros g Hg ->. destruct Hk; nia.
  - intros Hm f r Hf Hrr. cbn [g_volume with_blk s2 with_cache with_window] in *. fold v in Hf, Hrr |- *. specialize (Hm f r Hf Hrr). fold v in Hm.
    destruct (Z.eq_dec r (fat_rel v c)) as [->|Hne].
    + rewrite Hin by lia. replace (fat_start v + fat_rel v c) with (fat_start v + 0 * fat_sectors v + fat_rel v c) by lia. now rewrite Hin by lia.
    + rewrite !Hout; [exact Hm|lia| |nia|].
      * intros g Hg He. destruct (copy_place (fat_sectors v) 0 g r (fat_rel v c)); lia.
      * intros g Hg He. destruct (copy_place (fat_sectors v) f g r (fat_rel v c)); lia.
Qed.

(** ** Freeing a chain

    The clusters on the way from [c] along the links of [tab]; a way may lead
    back into itself. *)
Inductive reaches (v : Volume) (tab : Z -> Z) : Z -> Z -> Prop :=
  | reach_here c : chained v c = true -> reaches v tab c c
  | reach_on c d : chained v c = true -> reaches v tab (tab c) d -> reaches v tab c d.

Lemma reaches_chained v tab c d : reaches v tab c d -> chained v c = true.
Proof. now destruct 1. Qed.

(** The way with one cluster freed: what it led to is still reached from where
    the freed one led. *)
Lemma reaches_cut v tab c x d :
  reaches v tab x d -> reaches v (set_entry tab c 0) x d \/ d = c \/ reaches v (set_entry tab c 0) (tab c) d.
Proof.
  induction 1 as [x Hx|x d Hx Hxd [IH|IH]]; auto.
  - left. now apply reach_here.
  - destruct (Z.eq_dec x c) as [->|Hne]; [auto|]. left. apply reach_on; [exact Hx|]. unfold set_entry at 2. now rewrite (proj2 (Z.eqb_neq x c)).
Qed.
Lemma reaches_uncut v tab c x d : reaches v (set_entry tab c 0) x d -> reaches v tab x d.
Proof.
  induction 1 as [x Hx|x d Hx Hxd IH]; [now apply reach_here|]. apply reach_on; [exact Hx|]. unfold set_entry in Hxd, IH.
  destruct (x =? c); [|exact IH]. apply reaches_chained in Hxd. discriminate.
Qed.

(** How many clusters are not free. *)
Definition used s (tab : Z -> Z) : nat := length (List.filter (fun c => negb (tab c =? 0)) (seqZ 2 (g_cluster_count s))).

Lemma filter_less (f g : Z -> bool) l c :
  c ∈ l -> f c = true -> g c = false -> (forall x, g x = true -> f x = true) -> (length (List.filter g l) < length (List.filter f l))%nat.
Proof.
  intros Hc Hf Hg Hi. assert (Hle : forall l, (length (List.filter g l) <= length (List.filter f l))%nat).
  { intros l'. induction l' as [|y l' IH]; cbn; [lia|]. destruct (g y) eqn:E; [rewrite (Hi y E); cbn; lia|destruct (f y); cbn; lia]. }
  induction l as [|y l IH]; [now apply elem_of_nil in Hc|]. apply elem_of_cons in Hc as [<-|Hc]; cbn.
  - rewrite Hf, Hg. specialize (Hle l). cbn. lia.
  - specialize (IH Hc). destruct (g y) eqn:E; [rewrite (Hi y E); cbn; lia|destruct (f y); cbn; lia].
Qed.

Lemma used_cut s tab c : is_cluster s c -> tab c <> 0 -> (used s (set_entry tab c 0) < used s tab)%nat.
Proof.
  intros Hc Hn. unfold used. apply (filter_less _ _ _ c).
  - apply elem_of_seqZ. unfold is_cluster in Hc. lia.
  - apply negb_true_iff. now apply Z.eqb_neq.
  - unfold set_entry. now rewrite Z.eqb_refl.
  - intros x. unfold set_entry. destruct (x =? c); [discriminate|auto].
Qed.
Lemma used_ext s s' tab tab' : g_cluster_count s' = g_cluster_count s -> (forall c, is_cluster s c -> tab' c = tab c) -> used s' tab' = used s tab.
Proof.
  intros Hn He. unfold used. rewrite Hn. f_equal. assert (Hl : forall l, (forall c, c ∈ l -> tab' c = tab c) ->
    List.filter (fun c => negb (tab' c =? 0)) l = List.filter (fun c => negb (tab c =? 0)) l).
  { intros l Hl. induction l as [|y l IH]; cbn; [reflexivity|]. rewrite Hl by set_solver. rewrite IH by set_solver. reflexivity. }
  apply Hl. intros c Hc. apply He. apply elem_of_seqZ in Hc. unfold is_cluster. lia.
Qed.
Lemma used_bound s tab : (used s tab <= Z.to_nat (g_cluster_count s))%nat.
Proof. unfold used. etransitivity; [apply List.filter_length_le|]. now rewrite length_seqZ. Qed.

(** Exactly the clusters on the way are free afterwards. *)
Definition freed s s' (c : Z) : Prop := forall j, in_table s j ->
  (reaches (g_volume s) (entry s) c j -> entry s' j = 0) /\ (~ reaches (g_volume s) (entry s) c j -> entry s' j = entry s j).

Lemma free_stop fuel c s : (1 <= fuel)%nat -> chained (g_volume s) c = false -> free_loop fuel c s = Some (true, s).
Proof. intros Hf Hc. destruct fuel as [|fuel]; [lia|]. cbn [free_loop]. cbv beta iota delta [mbind mget mret]. now rewrite Hc. Qed.

Lemma entry_value_zero v : entry_value v 0 = 0.
Proof. unfold entry_value. now destruct (fat32 v). Qed.
Lemma reaches_ext v tab tab' c d : (forall x, chained v x = true -> reaches v tab c x -> tab' x = tab x) -> reaches v tab c d -> reaches v tab' c d.
Proof.
  intros He Hcd. induction Hcd as [c Hc|c d Hc Hcd IH]; [now apply reach_here|]. apply reach_on; [exact Hc|].
  rewrite He by (auto; now apply reach_here). apply IH. intros x Hx Hr. apply He; auto. now apply reach_on.
Qed.

(** Links lead to clusters of the volume. *)
Definition inside s (tab : Z -> Z) : Prop :=
  forall y, is_cluster s y -> chained (g_volume s) (tab y) = true -> is_cluster s (tab y).
Lemma reaches_cluster s tab c x :
  inside s tab -> (chained (g_volume s) c = true -> is_cluster s c) -> reaches (g_volume s) tab c x -> is_cluster s x.
Proof. intros Hi Hc Hr. induction Hr as [c Hcc|c d Hcc Hcd IH]; [auto|]. apply IH. apply Hi. auto. Qed.

(** One turn of the loop. *)
Lemma free_turn fuel c s :
  rdy s -> is_cluster s c -> chained (g_volume s) c = true ->
  exists s1, free_loop (S fuel) c s = free_loop fuel (entry s c) s1 /\ stepped s s1 (set_entry (entry s) c 0) clean /\ hint s1 = hint s.
Proof.
  intros Hr Hc Hch. pose proof (cluster_in_table s c Hr Hc) as Ht. destruct (fat_load_ok s c Hr Ht) as (w & Hl & Hrw & Hsl & Hz).
  destruct (fat_store_ok (with_window s w) c kFreeCluster Hrw Ht) as (s1 & Hst & Hs1 & Hh). exists s1. splits.
  - cbn [free_loop]. cbv beta iota delta [mbind mget mret window_next]. rewrite Hch. cbn [negb]. rewrite Hl, Hst. f_equal.
    unfold entry. now apply (window_next_loaded s).
  - change kFreeCluster with 0 in Hs1. rewrite entry_value_zero in Hs1.
    apply (stepped_trans s (with_window s w) s1 (entry s) _ clean clean); auto; [|tauto].
    apply stepped_same; auto. now split.
  - exact Hh.
Qed.

Lemma inside_cut s tab c : inside s tab -> inside s (set_entry tab c 0).
Proof. intros Hi y Hy. unfold set_entry. destruct (y =? c); [discriminate|now apply Hi]. Qed.
Lemma reaches_agree s tab tab' x d :
  inside s tab -> (chained (g_volume s) x = true -> is_cluster s x) -> (forall y, is_cluster s y -> tab' y = tab y) ->
  reaches (g_volume s) tab x d -> reaches (g_volume s) tab' x d.
Proof. intros Hi Hx He. apply reaches_ext. intros y Hy Hr. apply He. now apply (reaches_cluster s tab x). Qed.
Lemma inside_agree s s' tab tab' : same_setup s s' -> (forall y, is_cluster s y -> tab' y = tab y) -> inside s tab -> inside s' tab'.
Proof.
  intros Hs He Hi y Hy. rewrite (same_is_cluster s s') in Hy by auto. rewrite He, (ss_volume _ _ Hs) by auto. intros Hc.
  rewrite (same_is_cluster s s') by auto. now apply Hi.
Qed.

(** One cluster freed, then the rest of its way. *)
Lemma freed_turn s s1 s' c :
  rdy s -> is_cluster s c -> chained (g_volume s) c = true -> inside s (entry s) ->
  stepped s s1 (set_entry (entry s) c 0) clean -> freed s1 s' (entry s c) -> freed s s' c.
Proof.
  intros Hr Hc Hch Hi [R1 S1 E1 F1 M1] Hfr j Hj. pose proof (ss_volume _ _ S1) as Hv.
  assert (Et : forall y, is_cluster s y -> entry s1 y = set_entry (entry s) c 0 y) by (intros y Hy; apply E1; now apply cluster_in_table).
  assert (Hn : chained (g_volume s) (entry s c) = true -> is_cluster s (entry s c)) by (now apply Hi).
  destruct (Hfr j) as [H1 H2]; [now rewrite (same_in_table s s1)|]. rewrite Hv in H1, H2. rewrite E1 in H2 by exact Hj. split.
  - intros Hcj. apply (reaches_cut _ _ c) in Hcj. assert (Hcj' : j = c \/ reaches (g_volume s) (set_entry (entry s) c 0) (entry s c) j).
    { destruct Hcj as [Hcj|]; [|auto]. inversion Hcj as [|? ? _ Hx]; subst; auto. unfold set_entry in Hx at 2. rewrite Z.eqb_refl in Hx.
      apply reaches_chained in Hx. discriminate. }
    destruct Hcj' as [->|Hcj'].
    + unfold set_entry in H2. rewrite Z.eqb_refl in H2. destruct (Z.eq_dec (entry s' c) 0) as [|Hne]; [auto|]. apply H2. auto.
    + apply H1. apply (reaches_agree s (set_entry (entry s) c 0)); auto using inside_cut.
  - intros Hcj. assert (Hne : j <> c) by (intros ->; apply Hcj; now apply reach_here). unfold set_entry in H2.
    rewrite (proj2 (Z.eqb_neq j c)) in H2 by auto. apply H2. intros Hx. apply Hcj. apply reach_on; [exact Hch|]. apply (reaches_uncut _ _ c).
    apply (reaches_agree s (entry s1)); auto. 2:{ intros y Hy. now rewrite Et. }
    intros y Hy. rewrite Et by auto. now apply inside_cut.
Qed.

Lemma free_loop_ok fuel : forall c s,
  rdy s -> inside s (entry s) -> (chained (g_volume s) c = true -> is_cluster s c) -> (used s (entry s) + 2 <= fuel)%nat ->
  exists s', free_loop fuel c s = Some (true, s') /\ stepped s s' (entry s') clean /\ freed s s' c /\ hint s' = hint s.
Proof.
  induction fuel as [|fuel IH]; intros c s Hr Hi Hc Hf; [lia|].
  assert (Hstop : forall c s, rdy s -> chained (g_volume s) c = false -> stepped s s (entry s) clean /\ freed s s c).
  { intros c' s' Hr' Hch. split; [apply stepped_same; auto; reflexivity|]. intros j Hj. split; [|reflexivity]. intros Hcj.
    apply reaches_chained in Hcj. congruence. }
  destruct (chained (g_volume s) c) eqn:Hch.
  2:{ exists s. destruct (Hstop c s Hr Hch). splits; auto. apply free_stop; auto; lia. }
  specialize (Hc eq_refl). destruct (free_turn fuel c s Hr Hc Hch) as (s1 & -> & Hst1 & Hh1). pose proof Hst1 as [R1 S1 E1 F1 M1].
  assert (Et : forall y, is_cluster s y -> entry s1 y = set_entry (entry s) c 0 y) by (intros y Hy; apply E1; now apply cluster_in_table).
  pose proof (ss_volume _ _ S1) as Hv.
  assert (Hi1 : inside s1 (entry s1)) by (apply (inside_agree s s1 (set_entry (entry s) c 0)); auto using inside_cut).
  assert (Hrest : exists s', free_loop fuel (entry s c) s1 = Some (true, s') /\ stepped s1 s' (entry s') clean /\ freed s1 s' (entry s c) /\ hint s' = hint s1).
  { destruct (Z.eq_dec (entry s c) 0) as [E0|E0].
    - exists s1. rewrite E0. destruct (Hstop 0 s1 R1 eq_refl). splits; auto. apply free_stop; [lia|reflexivity].
    - apply (IH (entry s c) s1 R1 Hi1).
      + rewrite Hv. intros Hcn. rewrite (same_is_cluster s s1) by auto. now apply Hi.
      + pose proof (used_cut s (entry s) c Hc E0) as Hu. rewrite (used_ext s s1 (set_entry (entry s) c 0)); [lia|apply S1|exact Et]. }
  destruct Hrest as (s' & -> & Hst & Hfr & Hh). exists s'. splits; auto; [|now apply (freed_turn s s1)|congruence].
  apply (stepped_trans s s1 s' (set_entry (entry s) c 0) _ clean clean); auto. tauto.
Qed.

(** ** Writing off the tables *)

Definition area (lba n k : Z) : Prop := lba <= k < lba + n.

Lemma write_area s lba n :
  rdy s -> root_start (g_volume s) <= lba -> 1 <= n <= g_window_sectors s -> n <= 2 ^ 16 -> lba + n <= volume_end s ->
  exists d, write_back lba n s = Some (true, with_blk s d) /\ stepped s (with_blk s d) (entry s) (area lba n) /\
    forall k, area lba n k -> vsector (with_blk s d) k = slice (g_window s) ((k - lba) * 512) 512.
Proof.
  intros Hr Hl Hn Hn2 He. destruct (regions s Hr) as (R1 & R2 & R3 & R3' & R4 & R5 & R6 & R7).
  destruct (write_back_ok s lba n Hr ltac:(lia) Hn Hn2 He) as (d & Hw & Hp & Hv). exists d. split; [exact Hw|].
  assert (Hout : forall k, 0 <= k -> k < lba \/ lba + n <= k -> vsector (with_blk s d) k = vsector s k).
  { intros k Hk Ho. rewrite Hv by auto. destruct (Z.leb_spec lba k), (Z.ltb_spec k (lba + n)); cbn; auto; lia. }
  split; [|intros k [Hk1 Hk2]; rewrite Hv, (proj2 (Z.leb_le _ _)), (proj2 (Z.ltb_lt _ _)) by lia; reflexivity]. split.
  - destruct Hr. split; auto. destruct rd_cache0 as [|[Hc1 Hc2]]; [auto|right]. cbn. split; [auto|]. rewrite Hc2. symmetry. apply Hout; nia.
  - now split.
  - intros j Hj. pose proof (fat_rel_range s j Hj). unfold entry, entry_sector. cbn. rewrite Hout; [reflexivity|lia|nia].
  - intros k [Hk0 _] Hk. apply Hout; [exact Hk0|]. unfold area in Hk. lia.
  - intros Hm f r Hf Hrr. cbn in *. rewrite !Hout; auto; nia.
Qed.

(** Zeros in the window and on the device. *)
Lemma zero_cluster_ok s c :
  rdy s -> is_cluster s c ->
  let here := area (cluster_sector (g_volume s) c) (sectors_per_cluster (g_volume s)) in
  exists s', zero_cluster c s = Some (true, s') /\ stepped s s' (entry s) here /\ (forall k, here k -> vsector s' k = zeros 512) /\ hint s' = hint s.
Proof.
  intros Hr Hc here. destruct (regions s Hr) as (R1 & R2 & R3 & R3' & R4 & R5 & R6 & R7). destruct (cluster_place s c Hr Hc) as (P1 & P2 & P3).
  pose proof (rd_window _ _ Hr) as (W1 & W2 & W3). set (n := sectors_per_cluster (g_volume s)) in *. set (w := blit (g_window s) 0 (zeros (n * kSectorBytes))).
  assert (Hr1 : rdy (with_window s w)) by (apply ready_window; auto; [apply zlen_blit|apply bytes_ok_blit; auto using bytes_ok_zeros; lia]).
  destruct (write_area (with_window s w) (cluster_sector (g_volume s) c) n Hr1) as (d & Hw & Hst & Hz); [cbn; lia|cbn; lia|lia|exact P3|].
  exists (with_blk (with_window s w) d). splits; [exact Hw| |intros k Hk|reflexivity].
  - apply (stepped_trans s (with_window s w) _ (entry s) _ clean here); auto; [|unfold clean; tauto]. apply stepped_same; auto. now split.
  - rewrite Hz by exact Hk. cbn [g_window with_window]. unfold w. unfold here, area in Hk. apply bytes_ext; [now rewrite zlen_slice, zlen_zeros by lia|].
    rewrite zlen_slice by lia. intros i Hi. unfold kSectorBytes. rewrite byte_at_slice, byte_at_blit, !byte_at_zeros, zlen_zeros by lia.
    rewrite (proj2 (Z.leb_le _ _)), !(proj2 (Z.ltb_lt _ _)) by lia. reflexivity.
Qed.

(** ** Taking a cluster *)

(** The [i]-th candidate. *)
Definition candidate s (i : Z) : Z := 2 + (hint s - 2 + i) mod g_cluster_count s.

Lemma candidate_cluster s i : rdy s -> is_cluster s (candidate s i).
Proof. intros Hr. pose proof (rd_count _ _ Hr) as [Hc _]. unfold candidate, is_cluster. pose proof (Z.mod_pos_bound (hint s - 2 + i) (g_cluster_count s)). lia. Qed.
Lemma candidate_word s i : rdy s -> 0 <= i < g_cluster_count s ->
  u32 (2 + u32 (u32 (hint s - 2) + i) mod g_cluster_count s) = candidate s i.
Proof.
  intros Hr Hi. pose proof (rd_count _ _ Hr) as [Hc Hce]. pose proof (rd_hint _ _ Hr) as [Hh1 Hh2].
  assert (chain_eoc (g_volume s) <= 2 ^ 28) by (unfold chain_eoc, kEoc32, kEoc16; destruct (fat32 _); lia).
  rewrite (u32_small (hint s - 2)), (u32_small (hint s - 2 + i)) by lia. apply u32_small.
  pose proof (candidate_cluster s i Hr) as [Hb1 Hb2]. unfold candidate in *. lia.
Qed.
(** Every cluster is one of them. *)
Lemma candidate_all s c : rdy s -> is_cluster s c -> exists i, 0 <= i < g_cluster_count s /\ candidate s i = c.
Proof.
  intros Hr [Hc1 Hc2]. pose proof (rd_count _ _ Hr) as [Hc _]. pose proof (rd_hint _ _ Hr) as [Hh1 Hh2]. unfold candidate.
  destruct (Z.le_gt_cases (hint s) c).
  - exists (c - hint s). split; [lia|]. rewrite Z.mod_small by lia. lia.
  - exists (c - hint s + g_cluster_count s). split; [lia|]. replace (hint s - 2 + (c - hint s + g_cluster_count s)) with (c - 2 + 1 * g_cluster_count s) by lia.
    rewrite Z.mod_add, Z.mod_small by lia. lia.
Qed.

Definition cluster_area s (c : Z) : Z -> Prop := area (cluster_sector (g_volume s) c) (sectors_per_cluster (g_volume s)).

(** A cluster was taken, or there was none. *)
Record allocated s s' (c : Z) : Prop := {
  al_cluster : is_cluster s c;
  al_free : entry s c = 0;
  al_step : stepped s s' (set_entry (entry s) c (chain_eoc_mark (g_volume s))) (cluster_area s c);
  al_zero : forall k, cluster_area s c k -> vsector s' k = zeros 512;
}.
Definition no_room s s' : Prop := (forall c, is_cluster s c -> entry s c <> 0) /\ stepped s s' (entry s) clean.

Lemma eoc_mark_value v : entry_value v (chain_eoc_mark v) = chain_eoc_mark v.
Proof. unfold entry_value, chain_eoc_mark. now destruct (fat32 v). Qed.

Lemma stepped_window s w s' tab dirty : stepped (with_window s w) s' tab dirty -> stepped s s' tab dirty.
Proof. intros [R1 S1 E1 F1 M1]. split; auto. destruct S1. now split. Qed.
Lemma allocated_window s w s' c : allocated (with_window s w) s' c -> allocated s s' c.
Proof. intros [A1 A2 A3 A4]. split; auto. now apply (stepped_window s w). Qed.

Lemma stepped_hint s s' tab dirty h : stepped s s' tab dirty -> is_cluster s h -> stepped s (with_hint s' h) tab dirty.
Proof.
  intros [R1 S1 E1 F1 M1] Hh. split; auto; [|destruct S1; now split]. destruct R1. split; auto. cbn. unfold is_cluster in *. cbn.
  now rewrite (ss_count _ _ S1).
Qed.

(** The claim: the entry stored, the cluster zeroed. *)
Lemma claim_ok s c :
  rdy s -> is_cluster s c -> entry s c = 0 ->
  exists s1 s2, fat_store c (chain_eoc_mark (g_volume s)) s = Some (true, s1) /\ zero_cluster c s1 = Some (true, s2) /\
    allocated s s2 c /\ g_cluster_count s2 = g_cluster_count s /\ hint s2 = hint s.
Proof.
  intros Hr Hc H0'. destruct (fat_store_ok s c (chain_eoc_mark (g_volume s)) Hr (cluster_in_table s c Hr Hc)) as (s1 & Hs1 & Hst1 & Hh1).
  rewrite eoc_mark_value in Hst1. pose proof Hst1 as [R1 S1 _ _ _].
  destruct (zero_cluster_ok s1 c R1) as (s2 & Hs2 & Hst2 & Hz & Hh2); [now rewrite (same_is_cluster s s1)|]. rewrite (ss_volume _ _ S1) in Hst2, Hz.
  exists s1, s2. splits; auto; [|rewrite (ss_count _ _ (st_setup _ _ _ _ Hst2)); apply S1|congruence]. split; auto.
  apply (stepped_ext s s2 (entry s1)); [|intros j Hj; now apply (st_entry _ _ _ _ Hst1)].
  apply (stepped_trans s s1 s2 (set_entry (entry s) c (chain_eoc_mark (g_volume s))) _ clean (cluster_area s c)); auto. unfold clean. tauto.
Qed.

Lemma alloc_scan_ok n : forall i held s,
  rdy s -> 0 <= i -> i + Z.of_nat n = g_cluster_count s ->
  held = no_sector \/ slice (g_window s) 0 512 = vsector s (fat_start (g_volume s) + held) ->
  (forall k, 0 <= k < i -> entry s (candidate s k) <> 0) ->
  exists c s', alloc_scan n i held s = Some (c, s') /\ (c = 0 /\ no_room s s' \/ allocated s s' c).
Proof.
  induction n as [|n IH]; intros i held s Hr Hi Hn Hheld Hseen.
  { exists 0, s. split; [reflexivity|]. left. split; [reflexivity|]. split; [|apply stepped_same; auto; reflexivity].
    intros c Hc. destruct (candidate_all s c Hr Hc) as (k & Hk & <-). apply Hseen. lia. }
  pose proof (candidate_cluster s i Hr) as Hc. set (c := candidate s i) in *. pose proof (cluster_in_table s c Hr Hc) as Ht.
  pose proof (fat_rel_range s c Ht) as Hrel. destruct (regions s Hr) as (R1 & R2 & R3 & R3' & R4 & R5 & R6 & R7).
  assert (Hload : exists w, (if fat_rel (g_volume s) c =? held then mret true else read (u64 (fat_start (g_volume s) + fat_rel (g_volume s) c)) 1) s =
             Some (true, with_window s w) /\ rdy (with_window s w) /\ slice w 0 512 = vsector s (entry_sector s c)).
  { destruct (Z.eqb_spec (fat_rel (g_volume s) c) held) as [<-|Hne].
    - exists (g_window s). replace (with_window s (g_window s)) with s by (now destruct s). splits; auto. destruct Hheld as [Hno|Hs]; [|exact Hs].
      pose proof (lo_sectors _ (rd_layout _ _ Hr)). unfold no_sector in Hno. lia.
    - destruct (fat_load_ok s c Hr Ht) as (w & Hl & Hw & Hs & _). exists w. splits; auto. unfold fat_load in Hl. cbv beta iota zeta delta [mbind mget mret] in Hl.
      destruct (read _ 1 s) as [[[] s1]|]; congruence. }
  destruct Hload as (w & Hl & Hw & Hs). cbn [alloc_scan]. cbv beta iota zeta delta [mbind mget]. rewrite candidate_word by (auto; lia). fold c. rewrite Hl.
  cbv beta iota zeta delta [window_next mget mret mput]. cbn [g_volume g_window with_window]. rewrite (window_next_loaded s w c _ Hs).
  change (sector_next (g_volume s) (vsector s (entry_sector s c)) c) with (entry s c). change kFreeCluster with 0.
  destruct (Z.eqb_spec (entry s c) 0) as [E0|E0]; cbn [negb].
  - destruct (claim_ok (with_window s w) c Hw Hc E0) as (s1 & s2 & Hs1 & Hs2 & Hal & Hcount & Hh).
    cbn [g_volume with_window] in Hs1. rewrite Hs1, Hs2. apply allocated_window in Hal.
    eexists c, _. split; [reflexivity|right]. destruct Hal as [A1 A2 A3 A4]. split; auto. apply stepped_hint; [exact A3|].
    destruct Hc as [Hc1 Hc2]. pose proof (rd_count _ _ Hr) as [Hc3 Hc4].
    assert (chain_eoc (g_volume s) <= 2 ^ 28) by (unfold chain_eoc, kEoc32, kEoc16; destruct (fat32 _); lia).
    rewrite !u32_small by lia. unfold is_cluster. zcase; lia.
  - destruct (IH (i + 1) (fat_rel (g_volume s) c) (with_window s w) Hw ltac:(lia) ltac:(cbn; lia)) as (r & s' & -> & Hr').
    + right. exact Hs.
    + intros k Hk. destruct (Z.eq_dec k i) as [->|Hne]; [exact E0|]. apply (Hseen k). lia.
    + exists r, s'. split; [reflexivity|]. destruct Hr' as [(-> & Hno1 & Hno2)|Hal]; [left|right; now apply (allocated_window s w)].
      splits; auto. split; [exact Hno1|]. now apply (stepped_window s w).
Qed.

Lemma alloc_cluster_ok s :
  rdy s -> exists c s', alloc_cluster s = Some (c, s') /\ (c = 0 /\ no_room s s' \/ allocated s s' c).
Proof.
  intros Hr. pose proof (rd_count _ _ Hr). apply (alloc_scan_ok (Z.to_nat (g_cluster_count s)) 0 no_sector s Hr); auto; lia.
Qed.

(** C21: freeing a chain ends, on any table whose links stay inside the volume,
    chains that run into each other or into themselves included.  It succeeds,
    and then exactly the clusters on the way from [first] are free; every other
    entry and every sector off the tables is as it was, and copies of the table
    that agreed still do. *)
Theorem chain_free_ends s first :
  rdy s -> inside s (entry s) -> (chained (g_volume s) first = true -> is_cluster s first) ->
  exists s', chain_free first s = Some (true, s') /\ freed s s' first /\ stepped s s' (entry s') clean.
Proof.
  intros Hr Hi Hc. destruct (free_loop_ok (chain_fuel s) first s Hr Hi Hc) as (s' & Hs & Hst & Hf & _).
  - unfold chain_fuel. pose proof (used_bound s (entry s)). lia.
  - exists s'. auto.
Qed.

(** C22: a cluster is taken whenever one is free, wherever the scan starts: it
    was free, it is now marked as a chain's end and holds zeros, and nothing
    else changed; none is taken only when none is free, and then nothing
    changes. *)
Theorem alloc_takes_free s :
  rdy s -> exists c s', alloc_cluster s = Some (c, s') /\
    (c = 0 <-> forall x, is_cluster s x -> entry s x <> 0) /\ (c = 0 -> no_room s s') /\ (c <> 0 -> allocated s s' c).
Proof.
  intros Hr. destruct (alloc_cluster_ok s Hr) as (c & s' & Ha & Hout). exists c, s'. split; [exact Ha|]. destruct Hout as [[-> [Hn Hs]]|Hal].
  - splits; [split; auto|split; auto|lia].
  - pose proof (al_cluster _ _ _ Hal) as [Hc _]. splits; [split; [lia|]|lia|auto]. intros Hno. exfalso. apply (Hno c); apply Hal.
Qed.
End Volume.

(** * A small volume

    One sector to a cluster, two tables of one sector, a root of one sector, 20
    clusters from sector 4 on. *)
Definition small_volume : Fat.Volume := mkVolume 1 1 1 2 4 0 3 1 false.
(** Clusters 2, 3 and 4 lead to each other in a circle. *)
Definition small_table : bytes := put16 (put16 (put16 (zeros 512) 4 3) 6 4) 8 2.
Definition small_disk (table : bytes) (fuse : option nat) : Disk.disk :=
  Disk.mkDisk ([zeros 512; table; table] ++ replicate 21 (zeros 512)) fuse [].
Definition service_on (d : Disk.disk) : Service Disk.disk :=
  mkService d (zeros 1024) 0 2 20 (24 * 512) small_volume true (replicate 4 handle_zero) 0 [] (zeros 512) no_sector 2.

(** The turns of the runs below. *)
#[export] Instance no_more_turns : Turns := 0%nat.

Definition small_service (table : bytes) : Service Disk.disk := service_on (small_disk table None).

Lemma service_ready d : powered d 24 -> ready 24 (service_on d).
Proof.
  intros Hp. split; cbn; try lia; auto.
  - split; cbn; (lia || (splits; (lia || discriminate || auto))).
  - vm_compute. discriminate.
  - unfold chain_eoc, kEoc16. cbn. lia.
  - split; cbn; lia.
  - splits; [lia|reflexivity|apply bytes_ok_zeros].
  - unfold is_cluster. cbn. lia.
Qed.
Lemma small_service_ready table : ready 24 (small_service table).
Proof. apply service_ready. split; [reflexivity|]. vm_compute. discriminate. Qed.

Lemma chain_free_ends_witness :
  exists s', chain_free 3 (small_service small_table) = Some (true, s') /\ entry s' 2 = 0 /\ entry s' 4 = 0.
Proof.
  set (s := small_service small_table). assert (E : entry s 2 = 3 /\ entry s 3 = 4 /\ entry s 4 = 2) by (vm_compute; auto). destruct E as (E2 & E3 & E4).
  assert (Hch : forall c, 2 <= c <= 4 -> chained (g_volume s) c = true) by (intros c Hc; unfold chained, chain_eoc, kEoc16; cbn; apply andb_true_iff; rewrite Z.leb_le, Z.ltb_lt; lia).
  destruct (chain_free_ends 24 s 3) as (s' & Hs & Hf & _).
  - apply small_service_ready.
  - intros y [Hy1 Hy2] Hyc. cbn in Hy2.
    assert (Hall : forallb (fun y => negb (chained (g_volume s) (entry s y)) || ((2 <=? entry s y) && (entry s y <? 22))) (seqZ 2 20) = true) by (vm_compute; reflexivity).
    rewrite forallb_forall in Hall. specialize (Hall y). rewrite <- list_elem_of_In, elem_of_seqZ in Hall. specialize (Hall ltac:(lia)).
    apply orb_true_iff in Hall as [Hall|Hall]; [apply negb_true_iff in Hall; congruence|]. breflect. unfold is_cluster. cbn [g_cluster_count s small_service service_on]. lia.
  - intros _. unfold is_cluster. cbn. lia.
  - exists s'. split; [exact Hs|]. split; apply Hf; try (split; cbn; lia).
    + apply reach_on; [apply Hch; lia|]. rewrite E3. apply reach_on; [apply Hch; lia|]. rewrite E4. apply reach_here. apply Hch. lia.
    + apply reach_on; [apply Hch; lia|]. rewrite E3. apply reach_here. apply Hch. lia.
Defined.

Lemma alloc_takes_free_witness :
  exists c s', alloc_cluster (small_service small_table) = Some (c, s') /\ c <> 0 /\ entry s' c = 0xffff.
Proof.
  set (s := small_service small_table). destruct (alloc_takes_free 24 s (small_service_ready small_table)) as (c & s' & Ha & Hc & _ & Hal). exists c, s'.
  assert (Hn : c <> 0). { intros E. apply (proj1 Hc E 5); [unfold is_cluster; cbn; lia|]. vm_compute. reflexivity. }
  destruct (Hal Hn) as [A1 A2 [R S E F M] A4]. splits; auto. rewrite E by (apply (cluster_in_table 24); auto; apply small_service_ready). unfold set_entry. now rewrite Z.eqb_refl.
Defined.
