(* ===== verification/FatFile.v ===== *)
(** Files on a FAT volume (FatVolume.v, FatService.v): a file is the bytes of
    the clusters along its chain.  A read gives them, a write changes those it
    names and grows the chain by clusters that were free, and no other file
    changes. *)
From stdpp Require Import base numbers list list_numbers sets.
From Stdlib Require Import ZArith Lia.
From S2P Require Import Prelude Layout Device Wire Fat FatVolume FatService FatChains.

(** * Lists of blocks of one size *)

Lemma blit_app_l (b c : bytes) o src : 0 <= o -> o + zlen src <= zlen b -> blit (b ++ c) o src = blit b o src ++ c.
Proof.
  intros Ho Hs. pose proof (zlen_nonneg src). pose proof (zlen_nonneg c). apply bytes_ext; [rewrite zlen_app, !zlen_blit, zlen_app; reflexivity|]. intros k [Hk _].
  rewrite byte_at_app, !byte_at_blit, byte_at_app, zlen_blit, zlen_app by lia.
  destruct (Z.leb_spec o k), (Z.ltb_spec k (o + zlen src)), (Z.ltb_spec k (zlen b)), (Z.ltb_spec k (zlen b + zlen c)); cbn [andb]; try reflexivity; lia.
Qed.
Lemma blit_app_r (b c : bytes) o src : zlen b <= o -> blit (b ++ c) o src = b ++ blit c (o - zlen b) src.
Proof.
  intros Ho. pose proof (zlen_nonneg b). apply bytes_ext; [rewrite zlen_app, !zlen_blit, zlen_app; reflexivity|]. intros k [Hk _].
  rewrite byte_at_app, byte_at_blit, byte_at_app, zlen_app by lia. destruct (Z.ltb_spec k (zlen b)).
  - rewrite (proj2 (Z.leb_gt o k)) by lia. reflexivity.
  - rewrite byte_at_blit by lia. replace (k - zlen b - (o - zlen b)) with (k - o) by lia.
    destruct (Z.leb_spec o k), (Z.leb_spec (o - zlen b) (k - zlen b)), (Z.ltb_spec k (o + zlen src)), (Z.ltb_spec (k - zlen b) (o - zlen b + zlen src)),
      (Z.ltb_spec k (zlen b + zlen c)), (Z.ltb_spec (k - zlen b) (zlen c)); cbn [andb]; try reflexivity; lia.
Qed.

Section Blocks.
Context {A} (f : A -> bytes) (n : Z).

Lemma zlen_concat l : (forall x, x ∈ l -> zlen (f x) = n) -> zlen (concat (map f l)) = zlen l * n.
Proof.
  induction l as [|x l IH]; intros Hf; [reflexivity|]. cbn [map concat]. rewrite zlen_app, zlen_cons, IH, Hf by set_solver. lia.
Qed.
(** The bytes of one block of the row. *)
Lemma slice_concat l i x o m :
  (forall x, x ∈ l -> zlen (f x) = n) -> l !! i = Some x -> 0 <= o -> 0 <= m -> o + m <= n ->
  slice (concat (map f l)) (Z.of_nat i * n + o) m = slice (f x) o m.
Proof.
  intros Hf. revert i. induction l as [|y l IH]; intros i Hi Ho Hm Hn; [discriminate|]. cbn [map concat].
  assert (Hy : zlen (f y) = n) by (apply Hf; set_solver). destruct i as [|i].
  - injection Hi as ->. cbn [Z.of_nat Z.mul Z.add]. apply slice_app_l; lia.
  - rewrite slice_app_r by nia. rewrite Hy. replace (Z.of_nat (S i) * n + o - n) with (Z.of_nat i * n + o) by lia.
    apply IH; auto. set_solver.
Qed.
(** One block changed is that part of the row changed. *)
Lemma blit_concat (g : A -> bytes) l i x o src :
  (forall x, x ∈ l -> zlen (f x) = n) -> NoDup l -> l !! i = Some x -> 0 <= o -> o + zlen src <= n ->
  g x = blit (f x) o src -> (forall y, y ∈ l -> y <> x -> g y = f y) ->
  concat (map g l) = blit (concat (map f l)) (Z.of_nat i * n + o) src.
Proof.
  intros Hf Hd Hi Ho Hs Hx Hg. revert i Hi. induction l as [|y l IH]; intros i Hi; [discriminate|]. cbn [map concat].
  assert (Hy : zlen (f y) = n) by (apply Hf; set_solver). apply NoDup_cons in Hd as [Hyl Hd]. destruct i as [|i].
  - injection Hi as ->. replace (Z.of_nat 0 * n + o) with o by lia. rewrite Hx, blit_app_l by lia. f_equal.
    f_equal. apply map_ext_in. intros z Hz. apply list_elem_of_In in Hz. apply Hg; [set_solver|congruence].
  - assert (Hne : y <> x) by (intros ->; apply Hyl; eapply list_elem_of_lookup_2; eauto). rewrite Hg by (auto; set_solver).
    pose proof (zlen_nonneg (f y)). rewrite blit_app_r by nia. f_equal.
    rewrite (IH ltac:(set_solver) Hd ltac:(intros z Hz; apply Hg; set_solver) i Hi). f_equal. lia.
Qed.
End Blocks.

Section Files.
Context {D : Type} `{SectorDeviceLaws D} `{!PoweredDevice D} {turns : Turns} (cap : Z).
Implicit Types s : Service D.
Local Notation rdy := (ready cap).
Local Notation stepped := (stepped cap).

(** ** What only looks

    The window, the kept sector of the table: nothing on the device. *)
Record quiet s s' : Prop := {
  q_ready : rdy s';
  q_setup : same_setup s s';
  q_blk : g_blk s' = g_blk s;
  q_hint : hint s' = hint s;
}.
Lemma quiet_refl s : rdy s -> quiet s s.
Proof. intros Hr. now split. Qed.
Lemma quiet_trans s1 s2 s3 : quiet s1 s2 -> quiet s2 s3 -> quiet s1 s3.
Proof. intros [] []. split; auto; [etransitivity; eauto|congruence..]. Qed.
Lemma quiet_window s w : rdy (with_window s w) -> quiet s (with_window s w).
Proof. intros Hr. split; auto. now split. Qed.
Lemma quiet_vsector s s' k : quiet s s' -> vsector s' k = vsector s k.
Proof. intros []. unfold vsector. now rewrite q_blk0, (ss_first _ _ q_setup0). Qed.
Lemma quiet_entry s s' c : quiet s s' -> entry s' c = entry s c.
Proof. intros Hq. unfold entry, entry_sector. now rewrite (quiet_vsector s s'), (ss_volume _ _ (q_setup _ _ Hq)). Qed.
Lemma quiet_stepped s s' : quiet s s' -> stepped s s' (entry s) clean.
Proof. intros []. now apply stepped_same. Qed.

(** The link read from the kept sector of the table. *)
Lemma fat_sector_ok s c :
  rdy s -> in_table s c -> exists s', fat_sector c s = Some (true, s') /\ quiet s s' /\ fat_next c s' = Some (entry s c, s').
Proof.
  intros Hr Ht. pose proof (fat_rel_range s c Ht) as Hrel. unfold fat_sector, fat_next. cbv beta iota zeta delta [mbind mget mret mput].
  destruct (Z.eqb_spec (fat_rel (g_volume s) c) (g_fat_window_rel s)) as [E|E].
  - exists s. splits; [reflexivity|now apply quiet_refl|]. do 2 f_equal. unfold entry, entry_sector.
    destruct (rd_cache _ _ Hr) as [Hno|[_ Hw]]; [|now rewrite E, Hw]. pose proof (lo_sectors _ (rd_layout _ _ Hr)). unfold no_sector in Hno. lia.
  - destruct (fat_load_ok cap s c Hr Ht) as (w & Hl & Hrw & Hsl & _). unfold fat_load in Hl. cbv beta iota zeta delta [mbind mget mret] in Hl.
    destruct (read _ 1 s) as [[[] s1]|]; try congruence. injection Hl as ->. eexists. split; [reflexivity|].
    cbn [g_window with_window with_cache g_fat_window g_volume]. unfold kSectorBytes. rewrite Hsl. split; [|reflexivity].
    split; [|now split|reflexivity|reflexivity]. destruct Hrw. split; auto.
Qed.

(** ** The clusters of a file *)

Definition cluster_size s : Z := sectors_per_cluster (g_volume s) * 512.
Definition cluster_data s (c : Z) : bytes := vsectors s (cluster_sector (g_volume s) c) (sectors_per_cluster (g_volume s)).
Definition file_bytes s (cs : list Z) : bytes := concat (map (cluster_data s) cs).

Lemma zlen_cluster_data s c : rdy s -> zlen (cluster_data s c) = cluster_size s.
Proof. intros Hr. destruct (regions cap s Hr) as (_ & _ & _ & _ & _ & R5 & _). apply zlen_vsectors; auto. lia. Qed.
Lemma zlen_file_bytes s cs : rdy s -> zlen (file_bytes s cs) = zlen cs * cluster_size s.
Proof. intros Hr. apply zlen_concat. intros. now apply zlen_cluster_data. Qed.
Lemma cluster_size_pos s : rdy s -> 512 <= cluster_size s < 2 ^ 17.
Proof. intros Hr. destruct (regions cap s Hr) as (_ & _ & _ & _ & _ & R5 & _). unfold cluster_size. lia. Qed.

(** The links of a chain: each cluster leads to the next, the last to the end. *)
Fixpoint links (v : Volume) (tab : Z -> Z) (cs : list Z) : Prop :=
  match cs with
  | [] => True
  | c :: rest => match rest with [] => chain_eoc v <= tab c | d :: _ => tab c = d end /\ links v tab rest
  end.

(** A file: no clusters and a first cluster that is none, or a chain. *)
Record file_at s (first : Z) (cs : list Z) : Prop := {
  fa_first : match cs with [] => 0 <= first < 2 | c :: _ => first = c end;
  fa_clusters : Forall (is_cluster s) cs;
  fa_nodup : NoDup cs;
  fa_links : links (g_volume s) (entry s) cs;
}.

Lemma is_cluster_chained s c : rdy s -> is_cluster s c -> chained (g_volume s) c = true.
Proof. intros Hr [Hc1 Hc2]. pose proof (rd_count _ _ Hr) as [_ Hc]. unfold chained. apply andb_true_iff. rewrite Z.leb_le, Z.ltb_lt. lia. Qed.

Lemma links_ext v tab tab' cs : (forall c, c ∈ cs -> tab' c = tab c) -> links v tab cs -> links v tab' cs.
Proof.
  induction cs as [|c cs IH]; intros He; [auto|]. cbn [links]. intros [H1 H2]. split; [|apply IH; set_solver].
  rewrite He by set_solver. exact H1.
Qed.
(** What a cluster of the chain leads to. *)
Lemma links_next v tab cs i c :
  links v tab cs -> cs !! i = Some c -> match cs !! S i with Some d => tab c = d | None => chain_eoc v <= tab c end.
Proof.
  revert i. induction cs as [|x cs IH]; intros i; [discriminate|]. cbn [links]. intros [H1 H2] Hi. destruct i as [|i].
  - injection Hi as ->. cbn. now destruct cs.
  - apply (IH i H2 Hi).
Qed.

Lemma quiet_file s s' first cs : quiet s s' -> file_at s first cs -> file_at s' first cs.
Proof.
  intros Hq [F1 F2 F3 F4]. pose proof (q_setup _ _ Hq) as Hs. split; auto.
  - eapply Forall_impl; [exact F2|]. intros c Hc. now apply (same_is_cluster s s').
  - rewrite (ss_volume _ _ Hs). eapply links_ext; [|exact F4]. intros c _. now apply quiet_entry.
Qed.
Lemma quiet_data s s' c : quiet s s' -> cluster_data s' c = cluster_data s c.
Proof.
  intros Hq. pose proof (q_setup _ _ Hq) as Hs. unfold cluster_data, vsectors. rewrite (ss_volume _ _ Hs). f_equal. apply map_ext.
  intros k. now apply quiet_vsector.
Qed.
Lemma quiet_bytes s s' cs : quiet s s' -> file_bytes s' cs = file_bytes s cs.
Proof. intros Hq. unfold file_bytes. f_equal. apply map_ext. intros c. now apply quiet_data. Qed.

(** ** Reading *)

(** A cluster in the window. *)
Lemma read_cluster s c :
  rdy s -> is_cluster s c ->
  exists w, read (cluster_sector (g_volume s) c) (sectors_per_cluster (g_volume s)) s = Some (true, with_window s w) /\
    rdy (with_window s w) /\ slice w 0 (cluster_size s) = cluster_data s c.
Proof.
  intros Hr Hc. destruct (regions cap s Hr) as (R1 & R2 & R3 & R3' & R4 & R5 & R6 & R7). destruct (cluster_place cap s c Hr Hc) as (P1 & P2 & P3).
  pose proof (rd_window _ _ Hr) as (W1 & _).
  destruct (read_into_window cap s (cluster_sector (g_volume s) c) (sectors_per_cluster (g_volume s)) Hr) as (w & Hw & Hrw & Hs & _); try lia.
  exists w. auto.
Qed.

Section Read.
Context (first : Z) (cs : list Z) (offset got : Z).

(** The loop at the [p]-th cluster, with [acc] copied out so far. *)
Record reading s (p : nat) (acc : bytes) : Prop := {
  re_acc : acc = slice (file_bytes s cs) offset (zlen acc);
  re_len : zlen acc <= got;
  re_next : zlen acc < got -> offset + zlen acc = Z.max offset (Z.of_nat p * cluster_size s);
}.

(** What one cluster adds. *)
Lemma reading_turn s p acc c :
  rdy s -> 0 <= offset -> offset + got <= zlen cs * cluster_size s -> reading s p acc -> zlen acc < got -> cs !! p = Some c ->
  let position := Z.of_nat p * cluster_size s in
  let acc' :=
    if offset <? position + cluster_size s then
      let at_ := if position <? offset then offset - position else 0 in
      let room := cluster_size s - at_ in
      acc ++ slice (cluster_data s c) at_ (if got - zlen acc <? room then got - zlen acc else room)
    else acc in
  reading s (S p) acc'.
Proof.
  intros Hr Ho Hg [Ha Hl Hn] Hlt Hp position acc'. specialize (Hn Hlt). fold position in Hn. pose proof (cluster_size_pos s Hr) as Hcs.
  pose proof (zlen_nonneg acc) as H0'. unfold acc'. destruct (Z.ltb_spec offset (position + cluster_size s)) as [Hin|Hout].
  2:{ assert (zlen acc = 0) by lia. split; auto. intros _. replace (Z.of_nat (S p) * cluster_size s) with (position + cluster_size s) by (unfold position; lia). lia. }
  cbv zeta. set (at_ := if position <? offset then offset - position else 0). set (m := if got - zlen acc <? _ then _ else _).
  assert (Hat : position + at_ = offset + zlen acc) by (unfold at_; destruct (Z.ltb_spec position offset); lia).
  assert (Hat2 : 0 <= at_ < cluster_size s) by lia.
  assert (Hm : 0 <= m /\ m <= got - zlen acc /\ at_ + m <= cluster_size s /\ (m < got - zlen acc -> at_ + m = cluster_size s))
    by (unfold m; destruct (Z.ltb_spec (got - zlen acc) (cluster_size s - at_)); lia).
  assert (Hacc : acc ++ slice (cluster_data s c) at_ m = slice (file_bytes s cs) offset (zlen acc + m)).
  { rewrite slice_split by lia. rewrite <- Ha. f_equal. rewrite <- Hat.
    symmetry. apply (slice_concat (cluster_data s) (cluster_size s)); auto; try lia. intros. now apply zlen_cluster_data. }
  split; rewrite zlen_app, (zlen_slice _ at_ m) by lia; [exact Hacc|lia|]. intros Hmore.
  replace (Z.of_nat (S p) * cluster_size s) with (position + cluster_size s) by (unfold position; lia). lia.
Qed.

Lemma reading_quiet s s' p acc : quiet s s' -> reading s p acc -> reading s' p acc.
Proof.
  intros Hq [Ha Hl Hn]. assert (E : cluster_size s' = cluster_size s) by (unfold cluster_size; now rewrite (ss_volume _ _ (q_setup _ _ Hq))).
  split; rewrite ?(quiet_bytes s s') by auto; rewrite ?E; auto.
Qed.

Lemma read_chain_ok fuel : forall s p cluster acc,
  rdy s -> file_at s first cs -> 0 <= offset -> 0 <= got -> offset + got <= zlen cs * cluster_size s -> reading s p acc ->
  (zlen acc < got -> cs !! p = Some cluster) -> (Z.to_nat ((offset + got) / cluster_size s) + 2 <= fuel + p)%nat -> (1 <= fuel)%nat ->
  exists s', read_chain fuel cluster (Z.of_nat p * cluster_size s) offset got acc s = Some (slice (file_bytes s cs) offset got, s') /\ quiet s s'.
Proof.
  induction fuel as [|fuel IH]; intros s p cluster acc Hr Hfile Ho Hg0 Hg Hre Hp Hf Hf1; [lia|].
  cbn [read_chain]. cbv beta iota zeta delta [mbind mget mret]. change kSectorBytes with 512. fold (cluster_size s).
  destruct (Z.ltb_spec (zlen acc) got) as [Hlt|Hge]; cbn [andb negb].
  2:{ exists s. split; [|now apply quiet_refl]. destruct Hre as [Ha Hl _]. do 2 f_equal. rewrite Ha. f_equal. lia. }
  specialize (Hp Hlt). pose proof (reading_turn s p acc cluster Hr Ho Hg Hre Hlt Hp) as Hturn. cbv zeta in Hturn.
  assert (Hc : is_cluster s cluster) by (pose proof (fa_clusters _ _ _ Hfile) as Hfc; rewrite Forall_lookup in Hfc; eauto).
  rewrite (is_cluster_chained s cluster Hr Hc). cbn [negb]. pose proof (cluster_size_pos s Hr) as Hcs.
  assert (Hfuel : (1 <= fuel)%nat).
  { pose proof (re_next _ _ _ Hre Hlt) as Hn. assert (Z.of_nat p <= (offset + got) / cluster_size s) by (apply Z.div_le_lower_bound; nia). lia. }
  (* after the copy, the link *)
  assert (Hon : forall s1 acc', quiet s s1 -> reading s (S p) acc' ->
    exists s', (match fat_sector cluster s1 with
                | Some (ok, s2) => (if ok then fun s3 => match fat_next cluster s3 with
                    | Some (next, s4) => read_chain fuel next (Z.of_nat p * cluster_size s + cluster_size s) offset got acc' s4 | None => None end
                  else fun s3 => Some (acc', s3)) s2
                | None => None end) = Some (slice (file_bytes s cs) offset got, s') /\ quiet s s').
  { intros s1 acc' Hq Hre'. pose proof (q_ready _ _ Hq) as Hr1. assert (Hc1 : is_cluster s1 cluster) by (apply (same_is_cluster s s1); auto; apply Hq).
    destruct (fat_sector_ok s1 cluster Hr1 (cluster_in_table cap s1 cluster Hr1 Hc1)) as (s2 & -> & Hq2 & ->).
    pose proof (quiet_trans _ _ _ Hq Hq2) as Hq12. assert (E : cluster_size s2 = cluster_size s) by (unfold cluster_size; now rewrite (ss_volume _ _ (q_setup _ _ Hq12))).
    replace (Z.of_nat p * cluster_size s + cluster_size s) with (Z.of_nat (S p) * cluster_size s2) by (rewrite E; lia).
    destruct (IH s2 (S p) (entry s1 cluster) acc' (q_ready _ _ Hq2) (quiet_file _ _ _ _ Hq12 Hfile) Ho Hg0) as (s' & -> & Hq'); rewrite ?E; auto; try lia.
    - now apply (reading_quiet s).
    - intros Hlt'. rewrite (quiet_entry s s1) by auto. pose proof (links_next _ _ _ _ _ (fa_links _ _ _ Hfile) Hp) as Hnext.
      destruct (cs !! S p) as [d|] eqn:Ed; [now rewrite Hnext|]. exfalso. apply lookup_ge_None in Ed. pose proof (re_next _ _ _ Hre' Hlt') as Hn.
      assert (zlen cs * cluster_size s <= Z.of_nat (S p) * cluster_size s) by (unfold zlen; nia). lia.
    - exists s'. rewrite (quiet_bytes s s2) by auto. split; [reflexivity|]. now apply (quiet_trans s s2). }
  destruct (Z.ltb_spec offset (Z.of_nat p * cluster_size s + cluster_size s)) as [Hin|Hout].
  - destruct (read_cluster s cluster Hr Hc) as (w & -> & Hrw & Hsw). cbn [g_window with_window].
    apply Hon; [now apply quiet_window|]. rewrite <- Hsw in Hturn. rewrite slice_slice in Hturn; [exact Hturn|lia|destruct (Z.ltb_spec (Z.of_nat p * cluster_size s) offset); lia|].
    destruct (Z.ltb_spec (Z.of_nat p * cluster_size s) offset); zcase; lia.
  - apply Hon; [now apply quiet_refl|exact Hturn].
Qed.
End Read.

(** The bytes from an offset to the file's end, at most as many as wanted. *)
Lemma read_into_ok s dirent cs offset wanted :
  rdy s -> file_at s (d_first_cluster dirent) cs -> 0 <= offset <= d_bytes dirent -> 0 <= wanted -> d_bytes dirent <= zlen cs * cluster_size s ->
  exists s', read_into dirent offset wanted s = Some (slice (file_bytes s cs) offset (Z.min wanted (d_bytes dirent - offset)), s') /\ quiet s s'.
Proof.
  intros Hr Hf Ho Hw Hb. unfold read_into. cbv beta iota zeta delta [mbind mget]. change kSectorBytes with 512. fold (cluster_size s).
  set (got := if wanted <? _ then _ else _). assert (Hgot : got = Z.min wanted (d_bytes dirent - offset)) by (unfold got; zcase; lia).
  rewrite <- Hgot. pose proof (cluster_size_pos s Hr). apply (read_chain_ok (d_first_cluster dirent) cs offset got _ s 0); auto; try lia.
  - split; rewrite ?zlen_nil; [reflexivity|lia|lia].
  - rewrite zlen_nil. intros Hlt. pose proof (fa_first _ _ _ Hf) as Hfirst. destruct cs as [|c cs]; [change (zlen (@nil Z)) with 0 in Hb; lia|]. now subst.
Qed.

(** ** Growing *)

Lemma byte_at_vsectors s lba n i : 0 <= i < n * 512 -> byte_at (vsectors s lba n) i = byte_at (vsector s (lba + i / 512)) (i mod 512).
Proof.
  intros Hi. unfold vsectors. assert (Hl : seqZ lba n !! Z.to_nat (i / 512) = Some (lba + i / 512)).
  { rewrite lookup_seqZ_lt by zlia. f_equal. zlia. }
  pose proof (slice_concat (vsector s) 512 (seqZ lba n) (Z.to_nat (i / 512)) _ (i mod 512) 1 (fun x _ => vsector_len s x) Hl ltac:(zlia) ltac:(lia) ltac:(zlia)) as Hs.
  apply (f_equal (fun b => byte_at b 0)) in Hs. rewrite !byte_at_slice in Hs by zlia. rewrite !Z.add_0_r in Hs. rewrite <- Hs. f_equal. zlia.
Qed.
Lemma byte_at_cluster s c i :
  0 <= i < cluster_size s -> byte_at (cluster_data s c) i = byte_at (vsector s (cluster_sector (g_volume s) c + i / 512)) (i mod 512).
Proof. apply byte_at_vsectors. Qed.

(** Clusters share no sector with each other or with a table. *)
Lemma area_disjoint s c c' k : rdy s -> is_cluster s c -> is_cluster s c' -> cluster_area s c k -> cluster_area s c' k -> c = c'.
Proof.
  intros Hr Hc Hc'. destruct (cluster_place cap s c Hr Hc) as (P1 & _). destruct (cluster_place cap s c' Hr Hc') as (P1' & _).
  destruct (regions cap s Hr) as (_ & _ & _ & _ & _ & R5 & _). unfold cluster_area, area. rewrite P1, P1'. intros. nia.
Qed.
Lemma area_off_table s c k : rdy s -> is_cluster s c -> cluster_area s c k -> off_table s k.
Proof.
  intros Hr Hc. destruct (cluster_place cap s c Hr Hc) as (P1 & P2 & P3). destruct (regions cap s Hr) as (R1 & R2 & R3 & R3' & R4 & R5 & R6 & R7).
  unfold cluster_area, area, off_table. lia.
Qed.
Lemma data_ext s s' c : rdy s -> same_setup s s' -> (forall k, cluster_area s c k -> vsector s' k = vsector s k) -> cluster_data s' c = cluster_data s c.
Proof.
  intros Hr Hs He. destruct (regions cap s Hr) as (_ & _ & _ & _ & _ & R5 & _). unfold cluster_data, vsectors. rewrite (ss_volume _ _ Hs). f_equal.
  apply map_ext_in. intros k Hk. apply list_elem_of_In, elem_of_seqZ in Hk. apply He. exact Hk.
Qed.
Lemma data_zero s s' c : rdy s -> same_setup s s' -> (forall k, cluster_area s c k -> vsector s' k = zeros 512) -> cluster_data s' c = zeros (cluster_size s).
Proof.
  intros Hr Hs He. pose proof (cluster_size_pos s Hr) as Hp. assert (E : cluster_size s' = cluster_size s) by (unfold cluster_size; now rewrite (ss_volume _ _ Hs)).
  destruct (regions cap s Hr) as (_ & _ & _ & _ & _ & R5 & _).
  assert (Hz : zlen (cluster_data s' c) = cluster_size s) by (rewrite <- E; apply zlen_vsectors; rewrite (ss_volume _ _ Hs); lia).
  apply bytes_ext; [rewrite Hz, zlen_zeros; lia|]. intros i Hi. rewrite byte_at_cluster by lia. rewrite (ss_volume _ _ Hs).
  rewrite He, !byte_at_zeros; [reflexivity|]. unfold cluster_area, area, cluster_size in *. zlia.
Qed.

Record grew s s' (first' : Z) (cs new : list Z) : Prop := {
  gr_ready : rdy s';
  gr_setup : same_setup s s';
  gr_file : file_at s' first' (cs ++ new);
  gr_new : Forall (fun c => is_cluster s c /\ entry s c = 0) new;
  gr_zero : forall c, c ∈ new -> cluster_data s' c = zeros (cluster_size s);
  gr_entry : forall j, in_table s j -> j ∉ cs ++ new -> entry s' j = entry s j;
  gr_frame : forall k, off_table s k -> (forall c, c ∈ new -> ~ cluster_area s c k) -> vsector s' k = vsector s k;
  gr_mirror : mirrored s -> mirrored s';
}.

(** The entries of a chain are not free. *)
Lemma links_used v tab cs : links v tab cs -> Forall (fun c => 2 <= c) cs -> 2 <= chain_eoc v -> forall c, c ∈ cs -> tab c <> 0.
Proof.
  intros Hl Hge He c Hc. apply list_elem_of_lookup_1 in Hc as [i Hi]. pose proof (links_next v tab cs i c Hl Hi) as Hn.
  destruct (cs !! S i) as [d|] eqn:Ed; [|lia]. rewrite Forall_lookup in Hge. specialize (Hge _ _ Ed). cbn in Hge. lia.
Qed.
Lemma file_used s first cs c : rdy s -> file_at s first cs -> c ∈ cs -> entry s c <> 0.
Proof.
  intros Hr [F1 F2 F3 F4] Hc. apply (links_used _ _ _ F4); auto.
  - eapply Forall_impl; [exact F2|]. intros x [Hx _]. exact Hx.
  - pose proof (rd_count _ _ Hr). lia.
Qed.

Lemma grew_data s s' first' cs new c : rdy s -> grew s s' first' cs new -> is_cluster s c -> c ∉ new -> cluster_data s' c = cluster_data s c.
Proof.
  intros Hr [] Hc Hn. apply data_ext; auto. intros k Hk. apply gr_frame0; [now apply (area_off_table s c)|]. intros c' Hc' Hk'.
  apply Hn. assert (c = c') as ->; [|exact Hc']. apply (area_disjoint s c c' k); auto. rewrite Forall_forall in gr_new0. now apply gr_new0.
Qed.
Lemma grew_bytes s s' first' cs new first : rdy s -> file_at s first cs -> grew s s' first' cs new ->
  file_bytes s' (cs ++ new) = file_bytes s cs ++ zeros (zlen new * cluster_size s).
Proof.
  intros Hr Hf Hg. unfold file_bytes. rewrite map_app, concat_app. f_equal.
  - f_equal. apply map_ext_in. intros c Hc. apply list_elem_of_In in Hc. apply (grew_data s s' first' cs new); auto.
    + pose proof (fa_clusters _ _ _ Hf) as Hc'. rewrite Forall_forall in Hc'. now apply Hc'.
    + intros Hn. pose proof (fa_nodup _ _ _ (gr_file _ _ _ _ _ Hg)) as Hd. apply NoDup_app in Hd as (_ & Hd & _). now apply (Hd c).
  - pose proof (gr_zero _ _ _ _ _ Hg) as Hz. clear -Hz Hr. pose proof (cluster_size_pos s Hr). induction new as [|c new IH]; [reflexivity|]. cbn [map concat].
    rewrite Hz, IH by set_solver. unfold zeros. rewrite <- replicate_add. f_equal. rewrite zlen_cons. pose proof (zlen_nonneg new). nia.
Qed.

Lemma grew_none s s' first cs : stepped s s' (entry s) clean -> rdy s -> file_at s first cs -> grew s s' first cs [].
Proof.
  intros [R1 S1 E1 F1 M1] Hr [A1 A2 A3 A4]. split; auto; rewrite ?app_nil_r; auto; try set_solver.
  split; auto.
  - eapply Forall_impl; [exact A2|]. intros c Hc. now apply (same_is_cluster s s').
  - rewrite (ss_volume _ _ S1). eapply links_ext; [|exact A4]. intros c Hc. apply E1. apply (cluster_in_table cap); auto.
    rewrite Forall_forall in A2. now apply A2.
Qed.

Lemma grew_trans s1 s2 s3 first2 first3 cs new2 new3 :
  rdy s1 -> Forall (is_cluster s1) cs -> grew s1 s2 first2 cs new2 -> grew s2 s3 first3 (cs ++ new2) new3 -> grew s1 s3 first3 cs (new2 ++ new3).
Proof.
  intros Hr Hcs Hg2 Hg3. pose proof Hg2 as [R2 S2 F2 N2 Z2 E2 K2 M2]. pose proof Hg3 as [R3 S3 F3 N3 Z3 E3 K3 M3]. rewrite <- app_assoc in *.
  assert (Hdis : forall c, c ∈ new3 -> c ∉ cs ++ new2).
  { intros c Hc Hin. pose proof (fa_nodup _ _ _ F3) as Hd. rewrite app_assoc in Hd. apply NoDup_app in Hd as (_ & Hd & _). now apply (Hd c). }
  assert (N3' : Forall (fun c => is_cluster s1 c /\ entry s1 c = 0) new3).
  { apply Forall_forall. intros c Hc. rewrite Forall_forall in N3. destruct (N3 c Hc) as [Hc1 Hc2]. apply (same_is_cluster s1 s2) in Hc1; auto.
    split; [exact Hc1|]. rewrite <- Hc2. symmetry. apply E2; [now apply (cluster_in_table cap)|auto]. }
  assert (Harea : forall c k, cluster_area s2 c k <-> cluster_area s1 c k) by (intros; unfold cluster_area; now rewrite (ss_volume _ _ S2)).
  split; auto.
  - etransitivity; eauto.
  - apply Forall_app. split; auto.
  - intros c Hc. apply elem_of_app in Hc as [Hc|Hc].
    + rewrite <- (Z2 c Hc). apply (grew_data s2 s3 first3 (cs ++ new2) new3); auto.
      * apply (same_is_cluster s1 s2); auto. rewrite Forall_forall in N2. now apply N2.
      * intros Hin. apply (Hdis c Hin). set_solver.
    + rewrite (Z3 c Hc). f_equal. unfold cluster_size. now rewrite (ss_volume _ _ S2).
  - intros j Hj Hn. rewrite E3, E2; auto; [set_solver|now apply (same_in_table s1 s2)].
  - intros k Hk Hn. rewrite K3, K2; auto; [|now apply (same_off_table s1 s2)|].
    + intros c Hc. apply Hn. set_solver.
    + intros c Hc. rewrite Harea. apply Hn. set_solver.
Qed.

Lemma links_extend v tab tab' pre z c :
  links v tab (pre ++ [z]) -> (forall x, x ∈ pre -> tab' x = tab x) -> tab' z = c -> chain_eoc v <= tab' c -> links v tab' (pre ++ [z; c]).
Proof.
  induction pre as [|x pre IH]; cbn [app links]; intros Hl He Hz Hc.
  - splits; auto.
  - destruct Hl as [H1 H2]. split; [|apply IH; auto; set_solver]. rewrite He by set_solver. destruct pre; exact H1.
Qed.

Lemma eoc_mark_ge v : chain_eoc v <= chain_eoc_mark v.
Proof. unfold chain_eoc, chain_eoc_mark, kEoc32, kEoc16, kEocMark32, kEocMark16. destruct (fat32 v); lia. Qed.
Lemma cluster_value s c : rdy s -> is_cluster s c -> entry_value (g_volume s) c = c.
Proof.
  intros Hr [Hc1 Hc2]. pose proof (rd_count _ _ Hr) as [_ Hc]. unfold entry_value, chain_eoc, kEoc32, kEoc16 in *. destruct (fat32 _); apply Z.mod_small; lia.
Qed.

(** The first cluster of an empty file. *)
Lemma grow_first s s1 c first : rdy s -> file_at s first [] -> allocated cap s s1 c -> grew s s1 c [] [c].
Proof.
  intros Hr Hf [A1 A2 [R1 S1 E1 F1 M1] A4]. pose proof (cluster_in_table cap s c Hr A1) as Ht.
  assert (Ec : entry s1 c = chain_eoc_mark (g_volume s)) by (rewrite E1 by auto; unfold set_entry; now rewrite Z.eqb_refl).
  split; auto; cbn [app].
  - split; auto; [constructor; [now apply (same_is_cluster s s1)|constructor]|apply NoDup_singleton|].
    cbn [links]. split; [|exact I]. rewrite Ec, (ss_volume _ _ S1). apply eoc_mark_ge.
  - intros x Hx. apply list_elem_of_singleton in Hx as ->. now apply data_zero.
  - intros j Hj Hn. rewrite E1 by auto. unfold set_entry. rewrite (proj2 (Z.eqb_neq j c)); [reflexivity|set_solver].
  - intros k Hk Hn. apply F1; auto. apply Hn. set_solver.
Qed.

(** A cluster more at a chain's end. *)
Lemma grow_one s s1 s2 first pre z c :
  rdy s -> file_at s first (pre ++ [z]) -> allocated cap s s1 c ->
  stepped s1 s2 (set_entry (entry s1) z (entry_value (g_volume s1) c)) clean -> grew s s2 first (pre ++ [z]) [c].
Proof.
  intros Hr Hf [A1 A2 [R1 S1 E1 F1 M1] A4] [R2 S2 E2 F2 M2]. pose proof (fa_clusters _ _ _ Hf) as Hcl. pose proof (ss_volume _ _ S1) as V1.
  assert (S12 : same_setup s s2) by (etransitivity; eauto). pose proof (ss_volume _ _ S12) as V2.
  assert (Hnew : c ∉ pre ++ [z]) by (intros Hin; apply (file_used s first (pre ++ [z]) c); auto).
  assert (Hz : is_cluster s z) by (rewrite Forall_forall in Hcl; apply Hcl; set_solver).
  assert (Et : forall j, in_table s j -> entry s2 j = if j =? z then c else if j =? c then chain_eoc_mark (g_volume s) else entry s j).
  { intros j Hj. rewrite E2 by (now apply (same_in_table s s1)). unfold set_entry at 1.
    rewrite V1, (cluster_value s c Hr A1). destruct (j =? z); [reflexivity|]. rewrite E1 by auto. reflexivity. }
  assert (Hne : c <> z) by set_solver. assert (Hin : forall x, is_cluster s x -> in_table s x) by (intros; now apply (cluster_in_table cap)).
  split; auto.
  - split.
    + pose proof (fa_first _ _ _ Hf) as H1. destruct pre; exact H1.
    + apply Forall_app. split; [|constructor; [|constructor]]; [|now apply (same_is_cluster s s2)].
      eapply Forall_impl; [exact Hcl|]. intros x Hx. now apply (same_is_cluster s s2).
    + apply NoDup_app. splits; [apply Hf| |apply NoDup_singleton]. intros x Hx Hx2. apply list_elem_of_singleton in Hx2 as ->. auto.
    + rewrite <- app_assoc. cbn [app]. rewrite V2. apply (links_extend _ (entry s)); [apply Hf| | |].
      * intros x Hx. assert (Hxc : is_cluster s x) by (rewrite Forall_forall in Hcl; apply Hcl; set_solver). rewrite Et by auto.
        assert (x <> z). { intros ->. pose proof (fa_nodup _ _ _ Hf) as Hd. apply NoDup_app in Hd as (_ & Hd & _). apply (Hd z); set_solver. }
        assert (x <> c) by set_solver. now rewrite !(proj2 (Z.eqb_neq _ _)).
      * rewrite Et by auto. now rewrite Z.eqb_refl.
      * rewrite Et by auto. rewrite (proj2 (Z.eqb_neq c z)), Z.eqb_refl by auto. apply eoc_mark_ge.
  - intros x Hx. apply list_elem_of_singleton in Hx as ->. apply data_zero; auto. intros k Hk. rewrite F2; [now apply A4| |auto].
    apply (same_off_table s s1); auto. now apply (area_off_table s c).
  - intros j Hj Hn. rewrite Et by auto. rewrite !(proj2 (Z.eqb_neq _ _)) by set_solver. reflexivity.
  - intros k Hk Hn. rewrite F2; [|now apply (same_off_table s s1)|auto]. apply F1; auto. apply Hn. set_solver.
Qed.

(** ** Seeking *)

Definition full s : Prop := forall c, is_cluster s c -> entry s c <> 0.

Lemma no_room_full s s' : rdy s -> no_room cap s s' -> full s'.
Proof.
  intros Hr [Hn [R1 S1 E1 F1 M1]] c Hc. apply (same_is_cluster s s') in Hc; auto. rewrite E1 by (now apply (cluster_in_table cap)). auto.
Qed.

(** The outcome of a seek to the [k]-th cluster: it is there, the chain being
    grown just enough, or the volume is full. *)
Definition sought s s' first' cs new (k : nat) (r : Z) : Prop :=
  grew s s' first' cs new /\
  ((cs ++ new) !! k = Some r /\ (new = [] \/ length (cs ++ new) = S k) \/ r = 0 /\ full s' /\ (length (cs ++ new) <= k)%nat).

Lemma last_split (cs : list Z) q c : cs !! q = Some c -> cs !! S q = None -> cs = take q cs ++ [c].
Proof.
  intros Hq Hn. apply lookup_ge_None in Hn. rewrite <- (take_S_r _ _ _ Hq). symmetry. apply take_ge. lia.
Qed.

Lemma seek_loop_ok n : forall s q c first cs,
  rdy s -> file_at s first cs -> cs !! q = Some c ->
  exists r s' new, seek_loop n c s = Some (r, s') /\ sought s s' first cs new (q + n) r.
Proof.
  induction n as [|n IH]; intros s q c first cs Hr Hf Hq.
  { exists c, s, []. split; [reflexivity|]. split; [apply grew_none; auto; apply stepped_same; auto; reflexivity|]. left. rewrite app_nil_r, Nat.add_0_r. auto. }
  assert (Hc : is_cluster s c) by (pose proof (fa_clusters _ _ _ Hf) as Hcl; rewrite Forall_lookup in Hcl; eauto).
  destruct (fat_sector_ok s c Hr (cluster_in_table cap s c Hr Hc)) as (s1 & Hs1 & Hq1 & Hn1). pose proof (q_ready _ _ Hq1) as Hr1.
  pose proof (quiet_file _ _ _ _ Hq1 Hf) as Hf1. pose proof (ss_volume _ _ (q_setup _ _ Hq1)) as V1.
  cbn [seek_loop]. cbv beta iota zeta delta [mbind mget]. rewrite Hs1, Hn1. pose proof (links_next _ _ _ _ _ (fa_links _ _ _ Hf) Hq) as Hnext.
  assert (Hgq : grew s s1 first cs []) by (apply grew_none; auto; now apply quiet_stepped).
  destruct (cs !! S q) as [d|] eqn:Ed.
  - rewrite Hnext. assert (Hd : is_cluster s d) by (pose proof (fa_clusters _ _ _ Hf) as Hcl; rewrite Forall_lookup in Hcl; eauto).
    pose proof (is_cluster_chained s d Hr Hd) as Hch. unfold chained in Hch. apply andb_true_iff in Hch as [_ Hch]. apply Z.ltb_lt in Hch.
    rewrite (proj2 (Z.leb_gt _ _)) by exact Hch. cbn [negb]. destruct (IH s1 (S q) d first cs Hr1 Hf1 Ed) as (r & s' & new & -> & Hg & Hr').
    exists r, s', new. split; [reflexivity|]. replace (q + S n)%nat with (S q + n)%nat by lia. split; [|exact Hr'].
    apply (grew_trans s s1 s' first first cs [] new); auto; [apply Hf|now rewrite app_nil_r].
  - rewrite (proj2 (Z.leb_le _ _)) by exact Hnext. cbn [negb]. pose proof (last_split cs q c Hq Ed) as Hcs. apply lookup_ge_None in Ed.
    assert (Hlen : length cs = S q) by (pose proof (lookup_lt_Some _ _ _ Hq); lia).
    destruct (alloc_cluster_ok cap s1 Hr1) as (x & s2 & -> & [[-> Hno]|Hal]).
    + exists 0, s2, []. split; [reflexivity|]. split; [|right; splits; auto; [now apply (no_room_full s1)|rewrite app_nil_r; lia]].
      apply (grew_trans s s1 s2 first first cs [] []); auto; [apply Hf|]. rewrite app_nil_r. apply grew_none; auto. apply Hno.
    + pose proof (al_cluster _ _ _ _ Hal) as Hx. destruct (Z.eqb_spec x 0) as [->|_]; [destruct Hx; lia|].
      pose proof (al_step _ _ _ _ Hal) as [R2 S2 _ _ _].
      destruct (fat_store_ok cap s2 c x R2) as (s3 & -> & Hst & _).
      { apply (same_in_table s1 s2); auto. apply (cluster_in_table cap); auto. apply (same_is_cluster s s1); auto. apply Hq1. }
      assert (Hg : grew s1 s3 first cs [x]) by (rewrite Hcs; rewrite Hcs in Hf1; apply (grow_one s1 s2); auto).
      destruct (IH s3 (S q) x first (cs ++ [x]) (gr_ready _ _ _ _ _ Hg) (gr_file _ _ _ _ _ Hg)) as (r & s' & new & -> & Hg2 & Hr').
      { rewrite lookup_app_r by lia. now rewrite Hlen, Nat.sub_diag. }
      exists r, s', ([x] ++ new). split; [reflexivity|]. split.
      * apply (grew_trans s s1 s' first first cs [] ([x] ++ new)); auto; [apply Hf|]. rewrite app_nil_r.
        apply (grew_trans s1 s3 s' first first cs [x] new); auto. apply Hf1.
      * replace (q + S n)%nat with (S q + n)%nat by lia. rewrite <- app_assoc in Hr'. destruct Hr' as [[Hk Hlen']|Hr']; [|auto]. left. split; [exact Hk|].
        right. destruct Hlen' as [->|Hlen']; [|exact Hlen']. rewrite app_nil_r in *. pose proof (lookup_lt_Some _ _ _ Hk) as Hlt. rewrite length_app in *. cbn in *. lia.
Qed.

Lemma chain_seek_ok s cursor first cs :
  rdy s -> file_at s first cs -> 0 <= cursor -> cursor / cluster_size s < 2 ^ 32 ->
  exists r first' s' new, chain_seek cursor first s = Some ((r, first'), s') /\ sought s s' first' cs new (Z.to_nat (cursor / cluster_size s)) r.
Proof.
  intros Hr Hf Hc Ht. pose proof (cluster_size_pos s Hr) as Hcs. assert (Hk : 0 <= cursor / cluster_size s) by (apply Z.div_pos; lia).
  unfold chain_seek. cbv beta iota zeta delta [mbind mget mret]. change kSectorBytes with 512. fold (cluster_size s). rewrite u32_small by lia.
  set (k := Z.to_nat (cursor / cluster_size s)). pose proof (fa_first _ _ _ Hf) as Hfirst. destruct cs as [|c cs].
  - rewrite (proj2 (Z.ltb_lt first 2)) by lia. cbn [andb]. destruct (alloc_cluster_ok cap s Hr) as (x & s1 & -> & [[-> Hno]|Hal]).
    + exists 0, first, s1, []. split; [reflexivity|]. split; [apply grew_none; auto; apply Hno|]. right. splits; auto; [now apply (no_room_full s)|cbn; lia].
    + pose proof (al_cluster _ _ _ _ Hal) as Hx. destruct (Z.eqb_spec x 0) as [->|_]; [destruct Hx; lia|].
      pose proof (grow_first s s1 x first Hr Hf Hal) as Hg.
      destruct (seek_loop_ok k s1 0 x x [x] (gr_ready _ _ _ _ _ Hg) (gr_file _ _ _ _ _ Hg) eq_refl) as (r & s' & new & -> & Hg2 & Hr').
      exists r, x, s', ([x] ++ new). split; [reflexivity|]. cbn [Nat.add] in Hr'. split; [apply (grew_trans s s1 s' x x [] [x] new); auto|].
      destruct Hr' as [[Hl Hlen]|Hr']; [left; split; [exact Hl|]|now right]. right. destruct Hlen as [->|Hlen]; [|exact Hlen].
      pose proof (lookup_lt_Some _ _ _ Hl). cbn in *. lia.
  - assert (Hcc : is_cluster s c) by (pose proof (fa_clusters _ _ _ Hf) as Hcl; inversion Hcl; auto). subst first.
    rewrite (proj2 (Z.ltb_ge c 2)) by (destruct Hcc; lia). cbn [andb]. destruct (seek_loop_ok k s 0 c c (c :: cs) Hr Hf eq_refl) as (r & s' & new & -> & Hg).
    exists r, c, s', new. auto.
Qed.
End Files.
