(* ===== verification/FatWrite.v ===== *)
(** Writing files on a FAT volume (FatService.v): a write changes the bytes it
    names, growing the file's chain by clusters that were free, leaves every
    other file and both tables in agreement, and is read back. *)
From stdpp Require Import base numbers list list_numbers sets.
From Stdlib Require Import ZArith Lia.
From S2P Require Import Prelude Layout Device Wire Fat FatVolume FatService FatChains FatFile.

(** A part of a part written over. *)
Lemma blit_part d p m o src :
  0 <= p -> 0 <= o -> o + zlen src <= m -> p + m <= zlen d -> blit d p (blit (slice d p m) o src) = blit d (p + o) src.
Proof.
  intros Hp Ho Hs Hm. pose proof (zlen_nonneg src). apply bytes_ext; [now rewrite !zlen_blit|]. intros i Hi. rewrite zlen_blit in Hi.
  rewrite byte_at_blit, zlen_blit, zlen_slice by lia. rewrite (byte_at_blit d (p + o)) by lia. rewrite (proj2 (Z.ltb_lt i (zlen d))), !andb_true_r by lia.
  destruct (Z.leb_spec p i), (Z.ltb_spec i (p + m)); cbn [andb].
  - rewrite byte_at_blit, zlen_slice, byte_at_slice by lia. rewrite (proj2 (Z.ltb_lt (i - p) m)), andb_true_r by lia. replace (p + (i - p)) with i by lia.
    replace (i - p - o) with (i - (p + o)) by lia.
    destruct (Z.leb_spec o (i - p)), (Z.leb_spec (p + o) i), (Z.ltb_spec (i - p) (o + zlen src)), (Z.ltb_spec i (p + o + zlen src)); cbn; auto; lia.
  - destruct (Z.leb_spec (p + o) i), (Z.ltb_spec i (p + o + zlen src)); cbn; auto; lia.
  - destruct (Z.leb_spec (p + o) i), (Z.ltb_spec i (p + o + zlen src)); cbn; auto; lia.
  - destruct (Z.leb_spec (p + o) i), (Z.ltb_spec i (p + o + zlen src)); cbn; auto; lia.
Qed.

(** * A directory slot brought up to date *)

Lemma zlen_put16' b a v : zlen (put16 b a v) = zlen b.
Proof. now rewrite put16_le, zlen_put16. Qed.
Lemma zlen_put32' b a v : zlen (put32 b a v) = zlen b.
Proof. now rewrite put32_le, zlen_put32. Qed.
Lemma word16_put16 b a v o : 0 <= a -> 0 <= o -> o + 2 <= a \/ a + 2 <= o -> word16 (put16 b a v) o = word16 b o.
Proof. intros Ha Ho Hd. rewrite !word16_le, put16_le, put_le16_blit by lia. apply le16_blit_disj; rewrite ?zlen_le_split; lia. Qed.
Lemma word16_put32 b a v o : 0 <= a -> 0 <= o -> o + 2 <= a \/ a + 4 <= o -> word16 (put32 b a v) o = word16 b o.
Proof. intros Ha Ho Hd. rewrite !word16_le, put32_le, put_le32_blit by lia. apply le16_blit_disj; rewrite ?zlen_le_split; lia. Qed.
Lemma word32_put16 b a v o : 0 <= a -> 0 <= o -> o + 4 <= a \/ a + 2 <= o -> word32 (put16 b a v) o = word32 b o.
Proof. intros Ha Ho Hd. rewrite !word32_le, put16_le, put_le16_blit by lia. apply le32_blit_disj; rewrite ?zlen_le_split; lia. Qed.
Lemma word16_put_same b a v : 0 <= a -> a + 2 <= zlen b -> word16 (put16 b a v) a = u16 v.
Proof. intros Ha Hb. rewrite word16_le, put16_le. now apply le16_put. Qed.
Lemma word32_put_same b a v : 0 <= a -> a + 4 <= zlen b -> word32 (put32 b a v) a = u32 v.
Proof. intros Ha Hb. rewrite word32_le, put32_le. now apply le32_put. Qed.
Lemma byte_put16 b a v o : 0 <= a -> 0 <= o -> o < a \/ a + 2 <= o -> byte_at (put16 b a v) o = byte_at b o.
Proof. intros Ha Ho Hd. rewrite put16_le, put_le16_blit by lia. apply byte_blit_disj; rewrite ?zlen_le_split; lia. Qed.
Lemma byte_put32 b a v o : 0 <= a -> 0 <= o -> o < a \/ a + 4 <= o -> byte_at (put32 b a v) o = byte_at b o.
Proof. intros Ha Ho Hd. rewrite put32_le, put_le32_blit by lia. apply byte_blit_disj; rewrite ?zlen_le_split; lia. Qed.

Lemma word_halves f : 0 <= f < 2 ^ 32 -> Z.lor (Z.shiftl (u16 (u16 (Z.shiftr f 16))) 16) (u16 (u16 f)) = f.
Proof.
  intros Hf. rewrite Z.lor_comm, Z.shiftr_div_pow2 by lia. rewrite lor_shiftl_add; [|lia|apply u16_range]. unfold u16. rewrite !Z.mod_mod by lia. zlia.
Qed.

(** The slot says where the file starts and how long it is, and its name and
    kind as before. *)
Definition slot_says (slot slot' : bytes) (first nbytes : Z) : Prop :=
  d_first_cluster (short_dirent slot') = first /\ d_bytes (short_dirent slot') = nbytes /\
  (forall i, 0 <= i < 13 -> byte_at slot' i = byte_at slot i) /\ zlen slot' = 32.

Lemma dirent_update_says slot first nbytes :
  zlen slot = 32 -> 0 <= first < 2 ^ 32 -> 0 <= nbytes < 2 ^ 32 -> slot_says slot (dirent_update slot first nbytes) first nbytes.
Proof.
  intros Hz Hf Hn. unfold slot_says, dirent_update, short_dirent, kDirentClusterHigh, kDirentClusterLow, kDirentSize.
  cbn [d_first_cluster d_bytes]. splits.
  - rewrite !word16_put32, (word16_put16 _ 26 _ 20), !word16_put_same by (rewrite ?zlen_put16'; lia). now apply word_halves.
  - rewrite word32_put_same by (rewrite ?zlen_put16'; lia). now apply u32_small.
  - intros i Hi. now rewrite byte_put32, !byte_put16 by lia.
  - rewrite zlen_put32', !zlen_put16'. exact Hz.
Qed.
Lemma dirent_time_says slot slot' first nbytes date time : slot_says slot slot' first nbytes -> slot_says slot (dirent_set_time slot' date time) first nbytes.
Proof.
  intros (H1 & H2 & H3 & H4). unfold slot_says, dirent_set_time, short_dirent, kDirentCreateTime, kDirentCreateDate, kDirentAccessDate, kDirentWriteTime, kDirentWriteDate in *.
  cbn [d_first_cluster d_bytes] in *. splits.
  - now rewrite !word16_put16 by lia.
  - now rewrite !word32_put16 by lia.
  - intros i Hi. now rewrite !byte_put16, H3 by lia.
  - rewrite !zlen_put16'. exact H4.
Qed.

Section Write.
Context {D : Type} `{SectorDeviceLaws D} `{!PoweredDevice D} {turns : Turns} (cap : Z).
Implicit Types s : Service D.
Local Notation rdy := (ready cap).
Local Notation stepped := (stepped cap).

(** ** Writing in a cluster *)

Record wrote s s' (c o : Z) (src : bytes) : Prop := {
  wr_step : stepped s s' (entry s) (cluster_area s c);
  wr_data : cluster_data s' c = blit (cluster_data s c) o src;
}.

Lemma wrote_trans s1 s2 s3 c o src2 src3 :
  0 <= o -> wrote s1 s2 c o src2 -> wrote s2 s3 c (o + zlen src2) src3 -> wrote s1 s3 c o (src2 ++ src3).
Proof.
  intros Ho [W1 W2] [W3 W4]. pose proof (st_setup _ _ _ _ _ W1) as S1. split.
  - apply (stepped_ext cap s1 s3 (entry s2)); [|apply W1]. apply (stepped_trans cap s1 s2 s3 (entry s1) _ (cluster_area s1 c) (cluster_area s2 c)); auto.
    intros k. unfold cluster_area. rewrite (ss_volume _ _ S1). tauto.
  - rewrite W4, W2. symmetry. now apply blit_app.
Qed.
Lemma wrote_window s w s' c o src : wrote (with_window s w) s' c o src -> wrote s s' c o src.
Proof. intros [W1 W2]. split; [now apply (stepped_window cap s w)|exact W2]. Qed.
(** Only the window changed. *)
Lemma wrote_nothing s w c o : rdy (with_window s w) -> wrote s (with_window s w) c o [].
Proof.
  intros Hr. split; [apply (stepped_window cap s w)|].
  - apply (stepped_ext cap _ _ (entry s)); [|auto]. pose proof (stepped_same cap (with_window s w) (with_window s w) Hr ltac:(reflexivity) eq_refl) as [R1 S1 E1 F1 M1].
    split; auto.
  - change (cluster_data (with_window s w) c) with (cluster_data s c). symmetry. apply blit_nil.
Qed.

(** Sectors [a .. a + n) of a cluster. *)
Lemma sector_write s c a n :
  rdy s -> is_cluster s c -> 0 <= a -> 1 <= n -> a + n <= sectors_per_cluster (g_volume s) ->
  exists d, write_back (u64 (cluster_sector (g_volume s) c + a)) n s = Some (true, with_blk s d) /\
    wrote s (with_blk s d) c (a * 512) (slice (g_window s) 0 (n * 512)).
Proof.
  intros Hr Hc Ha Hn Hs. destruct (regions cap s Hr) as (R1 & R2 & R3 & R3' & R4 & R5 & R6 & R7). destruct (cluster_place cap s c Hr Hc) as (P1 & P2 & P3).
  pose proof (rd_window _ _ Hr) as (W1 & W2 & _). pose proof (rd_first _ _ Hr) as R0. rewrite u64_small by lia.
  destruct (write_area cap s (cluster_sector (g_volume s) c + a) n Hr ltac:(lia) ltac:(lia) ltac:(lia) ltac:(lia)) as (d & Hw & [S1 S2 S3 S4 S5] & Hin).
  assert (Hfr : forall k, off_table s k -> k < cluster_sector (g_volume s) c + a \/ cluster_sector (g_volume s) c + a + n <= k -> vsector (with_blk s d) k = vsector s k)
    by (intros k Hk Ho; apply S4; auto; unfold area; lia).
  exists d. split; [exact Hw|]. split.
  - split; auto. intros k Hk Hno. apply Hfr; auto. unfold cluster_area, area in Hno. lia.
  - assert (Hz1 : zlen (cluster_data (with_blk s d) c) = cluster_size s) by (apply (zlen_cluster_data cap (with_blk s d)); auto).
    assert (Hz2 : zlen (cluster_data s c) = cluster_size s) by (now apply (zlen_cluster_data cap)).
    apply bytes_ext; [now rewrite zlen_blit, Hz1|]. rewrite Hz1. intros i Hi. rewrite byte_at_blit, zlen_slice, Hz2 by lia. rewrite (proj2 (Z.ltb_lt i (cluster_size s))), andb_true_r by lia.
    rewrite !byte_at_cluster by exact Hi. change (g_volume (with_blk s d)) with (g_volume s). unfold cluster_size in Hi.
    destruct (Z.leb_spec (a * 512) i), (Z.ltb_spec i (a * 512 + n * 512)); cbn [andb].
    + rewrite Hin by (unfold area; zlia). rewrite !byte_at_slice by zlia. f_equal. zlia.
    + rewrite Hfr; [reflexivity| |zlia]. apply (area_off_table cap s c); auto. unfold cluster_area, area. zlia.
    + rewrite Hfr; [reflexivity| |zlia]. apply (area_off_table cap s c); auto. unfold cluster_area, area. zlia.
    + rewrite Hfr; [reflexivity| |zlia]. apply (area_off_table cap s c); auto. unfold cluster_area, area. zlia.
Qed.

(** A part of one sector, read, changed and written back. *)
Lemma part_write s c a o src :
  rdy s -> is_cluster s c -> 0 <= a < sectors_per_cluster (g_volume s) -> 0 <= o -> o + zlen src <= 512 -> bytes_ok src ->
  exists w s', read (u64 (cluster_sector (g_volume s) c + a)) 1 s = Some (true, with_window s w) /\
    write_back (u64 (cluster_sector (g_volume s) c + a)) 1 (with_window s (blit w o src)) = Some (true, s') /\
    wrote s s' c (a * 512 + o) src.
Proof.
  intros Hr Hc Ha Ho Hs Hb. destruct (regions cap s Hr) as (R1 & R2 & R3 & R3' & R4 & R5 & R6 & R7). destruct (cluster_place cap s c Hr Hc) as (P1 & P2 & P3).
  pose proof (rd_window _ _ Hr) as (W1 & W2 & _). pose proof (rd_first _ _ Hr) as R0.
  destruct (read_into_window cap s (cluster_sector (g_volume s) c + a) 1 Hr ltac:(lia) ltac:(lia) ltac:(lia) ltac:(lia)) as (w & Hrd & Hrw & Hsl & Hz).
  rewrite vsectors_one in Hsl. change (1 * 512) with 512 in Hsl.
  assert (Hr1 : rdy (with_window s (blit w o src))).
  { apply (ready_window cap (with_window s w) (blit w o src) Hrw); [apply zlen_blit|]. apply bytes_ok_blit; auto. apply (rd_window _ _ Hrw). }
  destruct (sector_write (with_window s (blit w o src)) c a 1 Hr1 Hc ltac:(lia) ltac:(lia) ltac:(cbn; lia)) as (d & Hw & Hwr).
  exists w, (with_blk (with_window s (blit w o src)) d). splits; [rewrite u64_small by lia; exact Hrd|exact Hw|]. apply wrote_window in Hwr. destruct Hwr as [Hst Hd].
  split; [exact Hst|]. rewrite Hd. cbn [g_window with_window]. change (1 * 512) with 512. rewrite slice_blit_prefix by lia. rewrite Hsl.
  change (cluster_data (with_window s (blit w o src)) c) with (cluster_data s c).
  assert (Hsec : vsector s (cluster_sector (g_volume s) c + a) = slice (cluster_data s c) (a * 512) 512).
  { apply bytes_ext; [rewrite vsector_len, zlen_slice; lia|]. rewrite vsector_len. intros i Hi. rewrite byte_at_slice by lia.
    rewrite byte_at_cluster by (unfold cluster_size; lia). do 2 f_equal; [zlia|]. zlia. }
  rewrite Hsec. apply blit_part; try lia. rewrite (zlen_cluster_data cap) by auto. unfold cluster_size. lia.
Qed.

(** Whole sectors of a cluster, [n] of them or none. *)
Lemma whole_write s c a n src :
  rdy s -> is_cluster s c -> 0 <= a -> 0 <= n -> a + n <= sectors_per_cluster (g_volume s) -> zlen src = n * 512 -> bytes_ok src ->
  exists s', (if n =? 0 then mret true else (fill_window 0 src ;; write_back (u64 (cluster_sector (g_volume s) c + a)) n)) s = Some (true, s') /\
    wrote s s' c (a * 512) src.
Proof.
  intros Hr Hc Ha Hn Hs Hz Hb. pose proof (rd_window _ _ Hr) as (W1 & W2 & W3). destruct (Z.eqb_spec n 0) as [->|Hn0].
  - exists s. split; [reflexivity|]. destruct src; [|rewrite zlen_cons in Hz; pose proof (zlen_nonneg src); lia].
    pose proof (wrote_nothing s (g_window s) c (a * 512)) as Hw. replace (with_window s (g_window s)) with s in Hw by (now destruct s). auto.
  - unfold fill_window, in_window. cbv beta iota zeta delta [mbind mput]. set (w := blit (g_window s) 0 src).
    assert (Hr1 : rdy (with_window s w)) by (apply ready_window; auto; [apply zlen_blit|apply bytes_ok_blit; auto; lia]).
    destruct (sector_write (with_window s w) c a n Hr1 Hc Ha ltac:(lia) Hs) as (d & Hw & Hwr). cbn [g_volume with_window] in Hw.
    exists (with_blk (with_window s w) d). split; [exact Hw|]. apply (wrote_window s w). cbn [g_window with_window] in Hwr.
    replace (slice w 0 (n * 512)) with src in Hwr; [exact Hwr|]. symmetry. apply slice_blit_same; lia.
Qed.

Lemma write_part_ok s c cursor rest :
  rdy s -> is_cluster s c -> 0 <= cursor -> 1 <= zlen rest -> bytes_ok rest ->
  exists n s', write_part c cursor rest s = Some ((n, true), s') /\ 1 <= n <= zlen rest /\ cursor mod cluster_size s + n <= cluster_size s /\
    wrote s s' c (cursor mod cluster_size s) (slice rest 0 n).
Proof.
  intros Hr Hc Hcur Hlen Hb. pose proof (cluster_size_pos cap s Hr) as Hcs. destruct (cluster_place cap s c Hr Hc) as (P1 & P2 & P3).
  destruct (regions cap s Hr) as (R1 & R2 & R3 & R3' & R4 & R5 & R6 & R7). pose proof (rd_first _ _ Hr) as R0.
  unfold write_part. cbv beta iota zeta delta [mbind mget mret]. change kSectorBytes with 512. fold (cluster_size s).
  set (ic := cursor mod cluster_size s). assert (Hic : 0 <= ic < cluster_size s) by (apply Z.mod_pos_bound; lia).
  set (span := if zlen rest <? _ then _ else _). assert (Hsp : 1 <= span <= zlen rest /\ ic + span <= cluster_size s) by (unfold span; zcase; lia).
  assert (Hcz : cluster_size s = sectors_per_cluster (g_volume s) * 512) by reflexivity.
  set (a := ic / 512). set (o := ic mod 512). assert (Hao : ic = a * 512 + o /\ 0 <= o < 512 /\ 0 <= a) by (unfold a, o; zlia).
  destruct (Z.eqb_spec o 0) as [Ho|Ho]; cbn [negb].
  - (* from a sector's start *)
    set (k := span / 512). set (t := span mod 512). assert (Hkt : span = k * 512 + t /\ 0 <= t < 512 /\ 0 <= k) by (unfold k, t; zlia).
    destruct (whole_write s c a k (slice rest 0 (k * 512)) Hr Hc ltac:(lia) ltac:(lia) ltac:(lia) ltac:(rewrite zlen_slice; lia) ltac:(auto with buf)) as (s1 & Hs1 & Hw1).
    unfold mret, mbind in Hs1. rewrite Hs1. cbn [negb]. pose proof (st_ready _ _ _ _ _ (wr_step _ _ _ _ _ Hw1)) as Hr1.
    pose proof (st_setup _ _ _ _ _ (wr_step _ _ _ _ _ Hw1)) as S1. pose proof (ss_volume _ _ S1) as V1.
    destruct (Z.eqb_spec t 0) as [Ht|Ht].
    + exists (k * 512), s1. splits; [reflexivity|lia|lia|lia|]. replace ic with (a * 512) by lia. exact Hw1.
    + destruct (part_write s1 c (a + k) 0 (slice rest (k * 512) t) Hr1) as (w & s2 & Hrd & Hwb & Hw2);
        [now apply (same_is_cluster s s1)|rewrite V1; lia|lia|rewrite zlen_slice; lia|auto with buf|].
      rewrite V1 in Hrd, Hwb. assert (El : u64 (u64 (cluster_sector (g_volume s) c + a) + k) = u64 (cluster_sector (g_volume s) c + (a + k)))
        by (rewrite (u64_small (cluster_sector (g_volume s) c + a)) by lia; f_equal; lia). rewrite El, Hrd. unfold fill_window, in_window, mput. cbn [g_window with_window].
      change (with_window (with_window s1 w) (blit w 0 (slice rest (k * 512) t))) with (with_window s1 (blit w 0 (slice rest (k * 512) t))). rewrite Hwb.
      exists (k * 512 + t), s2. splits; [reflexivity|lia|lia|lia|]. rewrite slice_split by lia. rewrite Z.add_0_l. replace ic with (a * 512) by lia.
      apply (wrote_trans s s1 s2); [lia|exact Hw1|]. rewrite zlen_slice by lia. replace (a * 512 + k * 512) with ((a + k) * 512 + 0) by lia. exact Hw2.
  - (* a sector's rest *)
    set (head := if span <? _ then _ else _). assert (Hh : 1 <= head /\ head <= span /\ o + head <= 512) by (unfold head; zcase; lia).
    destruct (part_write s c a o (slice rest 0 head) Hr Hc) as (w & s2 & Hrd & Hwb & Hw2); [lia|lia|rewrite zlen_slice; lia|auto with buf|].
    rewrite Hrd. unfold fill_window, in_window, mput. cbn [g_window with_window].
    change (with_window (with_window s w) (blit w o (slice rest 0 head))) with (with_window s (blit w o (slice rest 0 head))). rewrite Hwb.
    exists head, s2. splits; [reflexivity|lia|lia|lia|]. replace ic with (a * 512 + o) by lia. exact Hw2.
Qed.

(** ** Writing a file *)

(** From [s] to [s'] a file's chain is extended by [new], and only its own
    clusters changed. *)
Record extended s s' (first' : Z) (cs new : list Z) : Prop := {
  ex_ready : rdy s';
  ex_setup : same_setup s s';
  ex_file : file_at s' first' (cs ++ new);
  ex_new : Forall (fun c => is_cluster s c /\ entry s c = 0) new;
  ex_entry : forall j, in_table s j -> j ∉ cs ++ new -> entry s' j = entry s j;
  ex_frame : forall k, off_table s k -> (forall c, c ∈ cs ++ new -> ~ cluster_area s c k) -> vsector s' k = vsector s k;
  ex_mirror : mirrored s -> mirrored s';
}.

Lemma grew_extended s s' first' cs new : grew cap s s' first' cs new -> extended s s' first' cs new.
Proof. intros []. split; auto. intros k Hk Hn. apply gr_frame; auto. intros c Hc. apply Hn. set_solver. Qed.

Lemma extended_trans s1 s2 s3 first2 first3 cs new2 new3 :
  rdy s1 -> extended s1 s2 first2 cs new2 -> extended s2 s3 first3 (cs ++ new2) new3 -> extended s1 s3 first3 cs (new2 ++ new3).
Proof.
  intros Hr [R2 S2 F2 N2 E2 K2 M2] [R3 S3 F3 N3 E3 K3 M3]. rewrite <- app_assoc in *.
  assert (Harea : forall c k, cluster_area s2 c k <-> cluster_area s1 c k) by (intros; unfold cluster_area; now rewrite (ss_volume _ _ S2)).
  split; auto; [etransitivity; eauto|apply Forall_app; split; auto| |].
  - apply Forall_forall. intros c Hc. rewrite Forall_forall in N3. destruct (N3 c Hc) as [Hc1 Hc2]. apply (same_is_cluster s1 s2) in Hc1; auto.
    split; [exact Hc1|]. rewrite <- Hc2. symmetry. apply E2; [now apply (cluster_in_table cap)|]. intros Hin.
    pose proof (fa_nodup _ _ _ F3) as Hd. rewrite app_assoc in Hd. apply NoDup_app in Hd as (_ & Hd & _). now apply (Hd c).
  - intros j Hj Hn. rewrite E3, E2; auto; [set_solver|now apply (same_in_table s1 s2)].
  - intros k Hk Hn. rewrite K3, K2; auto; [|now apply (same_off_table s1 s2)|].
    + intros c Hc. apply Hn. set_solver.
    + intros c Hc. rewrite Harea. auto.
Qed.

(** A write in one of the file's clusters. *)
Lemma wrote_file s s' first cs p c o src :
  rdy s -> file_at s first cs -> cs !! p = Some c -> 0 <= o -> o + zlen src <= cluster_size s -> wrote s s' c o src ->
  extended s s' first cs [] /\ file_bytes s' cs = blit (file_bytes s cs) (Z.of_nat p * cluster_size s + o) src.
Proof.
  intros Hr Hf Hp Ho Hs [[R1 S1 E1 F1 M1] Hd]. pose proof (fa_clusters _ _ _ Hf) as Hcl. pose proof (ss_volume _ _ S1) as V1.
  assert (Hc : is_cluster s c) by (rewrite Forall_lookup in Hcl; eauto). split.
  - split; auto; rewrite ?app_nil_r; auto.
    + destruct Hf as [A1 A2 A3 A4]. split; auto.
      * eapply Forall_impl; [exact A2|]. intros x Hx. now apply (same_is_cluster s s').
      * rewrite V1. eapply links_ext; [|exact A4]. intros x Hx. apply E1. apply (cluster_in_table cap); auto. rewrite Forall_forall in A2. now apply A2.
    + intros k Hk Hn. apply F1; auto. apply Hn. eapply list_elem_of_lookup_2; eauto.
  - apply (blit_concat (cluster_data s) (cluster_size s) (cluster_data s')) with c; auto; [intros; now apply (zlen_cluster_data cap)|apply Hf|].
    intros y Hy Hne. rewrite Forall_forall in Hcl. apply (data_ext cap); auto. intros k Hk. apply F1; [apply (area_off_table cap s y); auto|].
    intros Hk'. apply Hne. apply (area_disjoint cap s y c k); auto.
Qed.

(** The bytes of a file after a write at [cursor]: the file with zeros where it
    grew, and the bytes written. *)
Definition written_bytes s (cs new : list Z) (cursor : Z) (src : bytes) : bytes :=
  blit (file_bytes s cs ++ zeros (zlen new * cluster_size s)) cursor src.

Lemma same_size s s' : same_setup s s' -> cluster_size s' = cluster_size s.
Proof. intros Hs. unfold cluster_size. now rewrite (ss_volume _ _ Hs). Qed.

(** Two writes, the second where the first ended. *)
Lemma written_twice s s2 cs new2 new3 cursor src2 src3 :
  rdy s -> same_setup s s2 -> 0 <= cursor -> cursor + zlen src2 <= zlen (cs ++ new2) * cluster_size s ->
  file_bytes s2 (cs ++ new2) = written_bytes s cs new2 cursor src2 ->
  written_bytes s2 (cs ++ new2) new3 (cursor + zlen src2) src3 = written_bytes s cs (new2 ++ new3) cursor (src2 ++ src3).
Proof.
  intros Hr Hs Hc Hl Hb. pose proof (cluster_size_pos cap s Hr). pose proof (zlen_nonneg new2). pose proof (zlen_nonneg new3).
  unfold written_bytes in *. rewrite Hb, (same_size s s2) by auto. rewrite blit_app by auto. f_equal.
  rewrite <- blit_app_l by (rewrite ?zlen_app, ?zlen_zeros, ?(zlen_file_bytes cap) by (auto; nia); rewrite zlen_app in Hl; nia).
  rewrite <- app_assoc. do 2 f_equal. unfold zeros. rewrite <- replicate_add. f_equal. rewrite zlen_app. nia.
Qed.

(** One turn: the seek and the part. *)
Lemma write_turn s h cs rest :
  rdy s -> file_at s (h_first_cluster h) cs -> 0 <= h_cursor h -> h_cursor h < 2 ^ 32 -> 1 <= zlen rest -> bytes_ok rest ->
  exists seek s1 new, chain_seek (h_cursor h) (h_first_cluster h) s = Some (seek, s1) /\ extended s s1 seek.2 cs new /\
    (seek.1 = 0 /\ full s1 /\ file_bytes s1 (cs ++ new) = written_bytes s cs new (h_cursor h) [] \/
     seek.1 <> 0 /\ exists n s2, write_part seek.1 (h_cursor h) rest s1 = Some ((n, true), s2) /\ 1 <= n <= zlen rest /\ extended s s2 seek.2 cs new /\
       h_cursor h + n <= zlen (cs ++ new) * cluster_size s /\ file_bytes s2 (cs ++ new) = written_bytes s cs new (h_cursor h) (slice rest 0 n)).
Proof.
  intros Hr Hf H0' H32 Hlen Hb. pose proof (cluster_size_pos cap s Hr) as Hcs.
  assert (Hk : 0 <= h_cursor h / cluster_size s <= h_cursor h) by (split; [apply Z.div_pos; lia|apply Z.div_le_upper_bound; nia]).
  destruct (chain_seek_ok cap s (h_cursor h) (h_first_cluster h) cs Hr Hf H0' ltac:(lia)) as (r & first' & s1 & new & Hseek & Hg & Hout).
  pose proof (grew_bytes cap s s1 first' cs new (h_first_cluster h) Hr Hf Hg) as Hgb. pose proof (gr_setup _ _ _ _ _ _ Hg) as S1. pose proof (gr_ready _ _ _ _ _ _ Hg) as Hr1.
  exists (r, first'), s1, new. splits; [exact Hseek|now apply grew_extended|]. cbn [fst snd]. destruct Hout as [[Hl _]|(-> & Hfull & _)].
  2:{ left. splits; auto. rewrite Hgb. symmetry. apply blit_nil. }
  right. set (k := h_cursor h / cluster_size s) in *. pose proof (gr_file _ _ _ _ _ _ Hg) as Hf1.
  assert (Hc : is_cluster s1 r) by (pose proof (fa_clusters _ _ _ Hf1) as Hcl; rewrite Forall_lookup in Hcl; eauto). split; [destruct Hc; lia|].
  destruct (write_part_ok s1 r (h_cursor h) rest Hr1 Hc H0' Hlen Hb) as (n & s2 & Hwp & Hn & Hfit & Hw). rewrite (same_size s s1) in Hfit, Hw by auto.
  set (o := h_cursor h mod cluster_size s) in *. assert (Ho : 0 <= o < cluster_size s) by (apply Z.mod_pos_bound; lia).
  assert (Hko : h_cursor h = k * cluster_size s + o) by (unfold k, o; pose proof (Z.div_mod (h_cursor h) (cluster_size s)); lia).
  destruct (wrote_file s1 s2 first' (cs ++ new) (Z.to_nat k) r o (slice rest 0 n) Hr1 Hf1 Hl ltac:(lia)) as [Hex Hby]; auto;
    [rewrite zlen_slice, (same_size s s1) by (auto; lia); lia|].
  exists n, s2. splits; auto; try lia.
  - pose proof (extended_trans s s1 s2 first' first' cs new [] Hr (grew_extended s s1 first' cs new Hg) Hex) as Hx. now rewrite app_nil_r in Hx.
  - pose proof (lookup_lt_Some _ _ _ Hl) as Hlt. unfold zlen. nia.
  - rewrite Hby, Hgb, (same_size s s1), Z2Nat.id by (auto; lia). unfold written_bytes. f_equal. lia.
Qed.

(** What the loop leaves. *)
Record loop_done s s' (h h' : Handle) cs new (data : bytes) (written written' : Z) : Prop := {
  ld_ext : extended s s' (h_first_cluster h') cs new;
  ld_count : written <= written' <= zlen data;
  ld_handle : h' = with_cursor (with_first h (h_first_cluster h')) (h_cursor h + (written' - written));
  ld_bytes : file_bytes s' (cs ++ new) = written_bytes s cs new (h_cursor h) (slice data written (written' - written));
  ld_inside : written < written' -> h_cursor h' <= zlen (cs ++ new) * cluster_size s;
  ld_full : written' < zlen data -> full s';
}.

Lemma write_loop_ok fuel : forall s h cs data written,
  rdy s -> file_at s (h_first_cluster h) cs -> 0 <= h_cursor h -> bytes_ok data -> 0 <= written <= zlen data ->
  h_cursor h + (zlen data - written) <= 2 ^ 32 -> (Z.to_nat (zlen data - written) < fuel)%nat ->
  exists written' h' s' new, write_loop fuel data written h s = Some ((written', h'), s') /\ loop_done s s' h h' cs new data written written'.
Proof.
  induction fuel as [|fuel IH]; intros s h cs data written Hr Hf H0' Hb Hw H32 Hfuel; [lia|]. cbn [write_loop].
  assert (Hself : h = with_cursor (with_first h (h_first_cluster h)) (h_cursor h + 0)) by (rewrite Z.add_0_r; now destruct h).
  destruct (Z.leb_spec (zlen data) written) as [Hdone|Hmore].
  { assert (written = zlen data) as -> by lia. exists (zlen data), h, s, []. split; [reflexivity|]. split; rewrite ?Z.sub_diag; auto; try lia.
    - apply grew_extended. apply grew_none; auto. apply stepped_same; auto. reflexivity.
    - rewrite app_nil_r. unfold written_bytes. change (zeros (zlen [] * _)) with (@nil Z). change (slice data (zlen data) 0) with (@nil Z). rewrite app_nil_r.
      symmetry. apply blit_nil. }
  assert (Hrest : zlen (slice data written (zlen data - written)) = zlen data - written) by (apply zlen_slice; lia).
  destruct (write_turn s h cs (slice data written (zlen data - written)) Hr Hf H0' ltac:(lia) ltac:(lia) ltac:(auto with buf)) as (seek & s1 & new & Hseek & Hext & Hout).
  cbv beta iota zeta delta [mbind]. rewrite Hseek. destruct Hout as [(E0 & Hfull & Hby)|(Hne & n & s2 & Hwp & Hn & Hext2 & Hfit & Hby)].
  { rewrite E0. cbn [Z.eqb]. exists written, (with_first h seek.2), s1, new. split; [reflexivity|]. split; rewrite ?Z.sub_diag; auto; try lia. now rewrite Z.add_0_r. }
  rewrite (proj2 (Z.eqb_neq _ _)) by exact Hne. cbn [h_cursor with_first]. rewrite Hwp. cbn [fst snd].
  rewrite u64_small by lia. set (h1 := with_cursor (with_first h seek.2) (h_cursor h + n)).
  pose proof (ex_setup _ _ _ _ _ Hext2) as S2. pose proof (ex_ready _ _ _ _ _ Hext2) as R2.
  destruct (IH s2 h1 (cs ++ new) data (written + n) R2 (ex_file _ _ _ _ _ Hext2)) as (w' & h' & s' & new' & -> & [L1 L2 L3 L4 L5 L6]); auto; try (cbn; lia).
  assert (Hsl : slice (slice data written (zlen data - written)) 0 n = slice data written n) by (rewrite slice_slice, Z.add_0_r by lia; reflexivity).
  rewrite Hsl in Hby. assert (Hzs : zlen (slice data written n) = n) by (apply zlen_slice; lia).
  exists w', h', s', (new ++ new'). split; [reflexivity|]. split; auto; try lia.
  - now apply (extended_trans s s2 s' seek.2).
  - rewrite L3. unfold h1, with_cursor, with_first. cbn. f_equal. lia.
  - rewrite app_assoc, L4. cbn [h_cursor h1 with_cursor]. rewrite <- Hzs at 1.
    rewrite (written_twice s s2 cs new new' (h_cursor h) (slice data written n)) by (auto; lia). f_equal.
    replace (w' - written) with (n + (w' - (written + n))) by lia. now rewrite slice_split by lia.
  - intros _. rewrite app_assoc. rewrite <- (same_size s s2) by auto. destruct (Z.eq_dec w' (written + n)) as [E|E]; [|apply L5; lia].
    rewrite L3, E, Z.sub_diag. cbn. rewrite (same_size s s2) by auto. rewrite (zlen_app (cs ++ new)). pose proof (zlen_nonneg new'). pose proof (cluster_size_pos cap s Hr). nia.
Qed.

(** ** The entry of a file *)

Definition slot_at s (sector index : Z) : bytes := slice (vsector s sector) (index * 32) 32.

Lemma ready_clock s l : rdy s -> rdy (with_clock s l).
Proof. intros []. now split. Qed.

(** A slot written over in the sector the window holds. *)
Lemma slot_write s ds di w l slot' :
  rdy s -> rdy (with_window s w) -> slice w 0 512 = vsector s ds -> root_start (g_volume s) <= ds < volume_end s -> 0 <= di < 16 -> zlen slot' = 32 -> bytes_ok slot' ->
  exists s', write_back ds 1 (with_clock (with_window s (blit w (di * 32) slot')) l) = Some (true, s') /\ stepped s s' (entry s) (area ds 1) /\ slot_at s' ds di = slot'.
Proof.
  intros Hr Hrw Hsl Hd Hi Hz' Hb'. destruct (regions cap s Hr) as (R1 & R2 & R3 & R3' & R4 & R5 & R6 & R7). pose proof (rd_window _ _ Hrw) as (V1 & V2 & V3). cbn in V1, V2, V3.
  set (w' := blit w (di * 32) slot'). assert (Hrw' : rdy (with_clock (with_window s w') l)).
  { apply ready_clock. apply (ready_window cap (with_window s w) w' Hrw); [apply zlen_blit|]. apply bytes_ok_blit; auto. lia. }
  destruct (write_area cap (with_clock (with_window s w') l) ds 1 Hrw') as (d & Hw & Hst & Hin); [exact (proj1 Hd)|cbn; lia|lia|unfold volume_end in *; cbn; lia|].
  exists (with_blk (with_clock (with_window s w') l) d). splits; [exact Hw| |].
  - apply (stepped_trans cap s (with_clock (with_window s w') l) _ (entry s) _ clean (area ds 1)); auto; [|unfold clean; tauto].
    apply stepped_same; auto. now split.
  - unfold slot_at. rewrite Hin by (unfold area; lia). cbn [g_window with_clock with_window]. rewrite Z.sub_diag, Z.mul_0_l, slice_slice by lia. rewrite Z.add_0_l.
    unfold w'. apply slice_blit_same; lia.
Qed.

(** The same place written twice. *)
Lemma blit_blit (b : bytes) a src src' : 0 <= a -> zlen src = zlen src' -> blit (blit b a src) a src' = blit b a src'.
Proof.
  intros Ha Hz. apply bytes_ext; [now rewrite !zlen_blit|]. intros i [Hi _]. rewrite !byte_at_blit, zlen_blit, Hz by lia.
  destruct ((a <=? i) && (i <? a + zlen src') && (i <? zlen b)); reflexivity.
Qed.

Lemma update_dirent_ok s h :
  rdy s -> root_start (g_volume s) <= h_dirent_sector h < volume_end s -> 0 <= h_dirent_index h < 16 -> 0 <= h_first_cluster h < 2 ^ 32 -> 0 <= h_size h < 2 ^ 32 ->
  exists s', update_dirent h s = Some (tt, s') /\ stepped s s' (entry s) (area (h_dirent_sector h) 1) /\
    slot_says (slot_at s (h_dirent_sector h) (h_dirent_index h)) (slot_at s' (h_dirent_sector h) (h_dirent_index h)) (h_first_cluster h) (h_size h).
Proof.
  intros Hr Hd Hi Hf Hs. destruct (regions cap s Hr) as (R1 & R2 & R3 & R3' & R4 & R5 & R6 & R7). pose proof (rd_window _ _ Hr) as (W1 & W2 & _).
  set (ds := h_dirent_sector h) in *. set (di := h_dirent_index h) in *.
  destruct (read_into_window cap s ds 1 Hr ltac:(lia) ltac:(lia) ltac:(lia) ltac:(lia)) as (w & Hrd & Hrw & Hsl & Hz). rewrite vsectors_one in Hsl. change (1 * 512) with 512 in Hsl.
  assert (Hslot : slice w (di * 32) 32 = slot_at s ds di) by (unfold slot_at; rewrite <- Hsl, slice_slice by lia; f_equal; lia).
  assert (Hu : slot_says (slot_at s ds di) (dirent_update (slot_at s ds di) (h_first_cluster h) (h_size h)) (h_first_cluster h) (h_size h))
    by (apply dirent_update_says; auto; unfold slot_at; now rewrite zlen_slice).
  unfold update_dirent. fold ds di. cbv beta iota zeta delta [mbind mret]. rewrite Hrd. cbn [negb]. unfold in_slot, in_window, mput. cbn [g_window with_window].
  rewrite (u32_small (h_size h)), Hslot by lia. set (slot1 := dirent_update (slot_at s ds di) (h_first_cluster h) (h_size h)) in *.
  assert (Hb1 : bytes_ok slot1).
  { unfold slot1, dirent_update, kDirentClusterHigh, kDirentClusterLow, kDirentSize. rewrite put32_le, !put16_le. repeat (apply bytes_ok_put32 || apply bytes_ok_put16); try lia.
    apply bytes_ok_slice, vsector_ok. }
  pose proof Hu as (_ & _ & _ & Hz1). unfold now_seconds. cbn [g_clock with_window]. pose proof (rd_window _ _ Hrw) as (_ & V2 & _). cbn in V2.
  assert (Hfin : forall slot' l x, slot_says (slot_at s ds di) slot' (h_first_cluster h) (h_size h) -> bytes_ok slot' ->
    x = with_clock (with_window s (blit w (di * 32) slot')) l ->
    exists s', match write_back ds 1 x with Some (_, s1) => Some (tt, s1) | None => None end = Some (tt, s') /\
      stepped s s' (entry s) (area ds 1) /\ slot_says (slot_at s ds di) (slot_at s' ds di) (h_first_cluster h) (h_size h)).
  { intros slot' l x Hsay Hb -> . destruct (slot_write s ds di w l slot') as (s' & -> & Hst & Hsl'); auto; [apply Hsay|]. exists s'. rewrite Hsl'. auto. }
  destruct (g_clock s) as [|t l] eqn:El; cbn [Z.eqb].
  - apply (Hfin slot1 []); auto. rewrite <- El. reflexivity.
  - destruct (Z.eqb_spec t 0) as [->|Ht]; [apply (Hfin slot1 l); auto|]. destruct (unix_to_dos t) as [date time]. cbn [g_window with_clock with_window].
    assert (Htm : slot_says (slot_at s ds di) (dirent_set_time slot1 date time) (h_first_cluster h) (h_size h)) by (now apply dirent_time_says).
    rewrite slice_blit_same, blit_blit by (try lia; rewrite Hz1; symmetry; apply Htm). apply (Hfin (dirent_set_time slot1 date time) l); auto.
    unfold dirent_set_time. rewrite !put16_le. repeat apply bytes_ok_put16; auto; discriminate.
Qed.

(** ** Files that stay as they are *)

Lemma kept_file s s' first fs :
  rdy s -> same_setup s s' -> file_at s first fs -> (forall c, c ∈ fs -> entry s' c = entry s c) ->
  (forall c k, c ∈ fs -> cluster_area s c k -> vsector s' k = vsector s k) -> file_at s' first fs /\ file_bytes s' fs = file_bytes s fs.
Proof.
  intros Hr Hs [F1 F2 F3 F4] He Hv. split.
  - split; auto.
    + eapply Forall_impl; [exact F2|]. intros c Hc. now apply (same_is_cluster s s').
    + rewrite (ss_volume _ _ Hs). eapply links_ext; [|exact F4]. auto.
  - unfold file_bytes. f_equal. apply map_ext_in. intros c Hc. apply list_elem_of_In in Hc. apply (data_ext cap); auto. intros k. now apply Hv.
Qed.

Lemma file_in_table s first fs c : rdy s -> file_at s first fs -> c ∈ fs -> is_cluster s c /\ in_table s c.
Proof.
  intros Hr Hf Hc. assert (Hi : is_cluster s c) by (pose proof (fa_clusters _ _ _ Hf) as Hcl; rewrite Forall_forall in Hcl; auto). split; auto.
  now apply (cluster_in_table cap).
Qed.

Lemma extended_keeps s s' first' cs new first fs :
  rdy s -> Forall (is_cluster s) cs -> extended s s' first' cs new -> file_at s first fs -> (forall c, c ∈ fs -> c ∉ cs) -> file_at s' first fs /\ file_bytes s' fs = file_bytes s fs.
Proof.
  intros Hr Hcs [R S F N E K M] Hf Hd. rewrite Forall_forall in N, Hcs. assert (Hd' : forall c, c ∈ fs -> c ∉ cs ++ new).
  { intros c Hc Hin. apply elem_of_app in Hin as [Hin|Hin]; [now apply (Hd c)|]. apply (file_used cap s first fs c Hr Hf Hc). now apply N. }
  apply (kept_file s s' first fs); auto.
  - intros c Hc. apply E; auto. now apply (file_in_table s first fs).
  - intros c k Hc Hk. destruct (file_in_table s first fs c Hr Hf Hc) as [Hi _]. apply K; [now apply (area_off_table cap s c)|].
    intros c' Hc' Hk'. apply (Hd' c Hc). replace c with c'; [exact Hc'|]. apply (area_disjoint cap s c' c k); auto.
    apply elem_of_app in Hc' as [Hc'|Hc']; [now apply Hcs|now apply N].
Qed.
Lemma stepped_keeps s s' (dirty : Z -> Prop) first fs :
  rdy s -> stepped s s' (entry s) dirty -> file_at s first fs -> (forall c k, c ∈ fs -> cluster_area s c k -> ~ dirty k) ->
  file_at s' first fs /\ file_bytes s' fs = file_bytes s fs.
Proof.
  intros Hr [R S E K M] Hf Hd. apply (kept_file s s' first fs); auto.
  - intros c Hc. apply E. now apply (file_in_table s first fs).
  - intros c k Hc Hk. apply K; [|eauto]. apply (area_off_table cap s c); auto. now apply (file_in_table s first fs).
Qed.

(** ** An open file

    The handle names a chain that backs its size and a slot outside it, in the
    root region or in a cluster that is in use. *)
Record open_file s (h : Handle) (cs : list Z) : Prop := {
  of_ready : rdy s;
  of_file : file_at s (h_first_cluster h) cs;
  of_sector : root_start (g_volume s) <= h_dirent_sector h < volume_end s;
  of_index : 0 <= h_dirent_index h < 16;
  of_owner : forall c, is_cluster s c -> cluster_area s c (h_dirent_sector h) -> c ∉ cs /\ entry s c <> 0;
  of_size : 0 <= h_size h <= zlen cs * cluster_size s;
  of_word : h_size h < 2 ^ 32;
}.

(** What [write_bytes] has done when it wrote [written] bytes. *)
Record write_done s s' h h' cs new data (written : Z) : Prop := {
  wd_open : open_file s' h' (cs ++ new);
  wd_setup : same_setup s s';
  wd_new : Forall (fun c => is_cluster s c /\ entry s c = 0) new;
  wd_size : h_size h' = Z.max (h_size h) (h_cursor h + written) /\ h_cursor h' = h_cursor h + written;
  wd_bytes : file_bytes s' (cs ++ new) = written_bytes s cs new (h_cursor h) (slice data 0 written);
  wd_slot : slot_says (slot_at s (h_dirent_sector h) (h_dirent_index h)) (slot_at s' (h_dirent_sector h) (h_dirent_index h)) (h_first_cluster h') (h_size h');
  wd_mirror : mirrored s -> mirrored s';
  wd_others : forall first fs, file_at s first fs -> (forall c, c ∈ fs -> c ∉ cs /\ ~ cluster_area s c (h_dirent_sector h)) ->
    file_at s' first fs /\ file_bytes s' fs = file_bytes s fs;
}.

(** What it has done when it wrote none: the file may have grown by clusters
    that were free, which read as zeros; its entry is as it was, but the handle's
    size is raised to the cursor. *)
Record nothing_written s s' h h' cs new : Prop := {
  nw_file : file_at s' (h_first_cluster h') (cs ++ new);
  nw_setup : rdy s' /\ same_setup s s';
  nw_new : Forall (fun c => is_cluster s c /\ entry s c = 0) new;
  nw_handle : h_size h' = Z.max (h_size h) (h_cursor h) /\ h_cursor h' = h_cursor h;
  nw_bytes : file_bytes s' (cs ++ new) = file_bytes s cs ++ zeros (zlen new * cluster_size s);
  nw_slot : slot_at s' (h_dirent_sector h) (h_dirent_index h) = slot_at s (h_dirent_sector h) (h_dirent_index h);
  nw_mirror : mirrored s -> mirrored s';
  nw_others : forall first fs, file_at s first fs -> (forall c, c ∈ fs -> c ∉ cs) ->
    file_at s' first fs /\ file_bytes s' fs = file_bytes s fs;
}.

Lemma write_bytes_ok s h cs data :
  open_file s h cs -> 0 <= h_cursor h -> h_cursor h + zlen data < 2 ^ 32 -> bytes_ok data ->
  exists written h' s' new, write_bytes h data s = Some ((written, h'), s') /\ 0 <= written <= zlen data /\ (written < zlen data -> full s') /\
    (1 <= written -> write_done s s' h h' cs new data written) /\ (written = 0 -> nothing_written s s' h h' cs new).
Proof.
  intros [Hr Hf Hsec Hidx Hown Hsz Hwd] Hc H32 Hb. pose proof (cluster_size_pos cap s Hr) as Hcs.
  destruct (write_loop_ok (S (length data)) s h cs data 0 Hr Hf Hc Hb) as (n & h1 & s1 & new & Hloop & [L1 L2 L3 L4 L5 L6]); try (unfold zlen in *; lia).
  unfold write_bytes. cbv beta iota zeta delta [mbind mret]. rewrite Hloop. pose proof L1 as [R1 S1 F1 N1 E1 K1 M1].
  assert (Hh1 : h_size h1 = h_size h /\ h_cursor h1 = h_cursor h + n /\ h_dirent_sector h1 = h_dirent_sector h /\ h_dirent_index h1 = h_dirent_index h)
    by (rewrite L3; cbn; splits; lia). destruct Hh1 as (Es & Ec & Ed & Ei). set (h2 := if h_size h1 <? h_cursor h1 then _ else _).
  assert (Hh2 : h_size h2 = Z.max (h_size h) (h_cursor h + n) /\ h_cursor h2 = h_cursor h + n /\ h_dirent_sector h2 = h_dirent_sector h /\
    h_dirent_index h2 = h_dirent_index h /\ h_first_cluster h2 = h_first_cluster h1) by (unfold h2; destruct (Z.ltb_spec (h_size h1) (h_cursor h1)); cbn; splits; lia).
  clearbody h2. destruct Hh2 as (Gs & Gc & Gd & Gi & Gf). rewrite Z.sub_0_r in L4.
  assert (Hown0 : forall c, c ∈ cs ++ new -> ~ cluster_area s c (h_dirent_sector h)).
  { intros c Hc' Ha. assert (Hi : is_cluster s c) by (apply (same_is_cluster s s1); auto; now apply (file_in_table s1 _ _ c R1 F1)).
    destruct (Hown c Hi Ha) as [O1 O2]. apply elem_of_app in Hc' as [Hc'|Hc']; [auto|]. rewrite Forall_forall in N1. apply O2. now apply N1. }
  assert (Hslot1 : slot_at s1 (h_dirent_sector h) (h_dirent_index h) = slot_at s (h_dirent_sector h) (h_dirent_index h)).
  { unfold slot_at. f_equal. apply K1; [|intros c Hc'; now apply Hown0]. destruct (regions cap s Hr) as (Q1 & Q2 & Q3 & _). unfold off_table. lia. }
  destruct (Z.ltb_spec 0 n) as [Hn|Hn].
  2:{ exists n, h2, s1, new. splits; [reflexivity|lia|lia|exact L6|lia|]. intros ->. split; auto; [now rewrite Gf|lia| |].
      - rewrite L4. unfold written_bytes. change (slice data 0 0) with (@nil Z). apply blit_nil.
      - intros first fs Hfs Hno. exact (extended_keeps s s1 _ cs new first fs Hr (fa_clusters _ _ _ Hf) L1 Hfs Hno). }
  specialize (L5 Hn). assert (Hfirst : 2 <= h_first_cluster h1 < 2 ^ 32).
  { pose proof (fa_first _ _ _ F1) as A1. pose proof (fa_clusters _ _ _ F1) as A2. destruct (cs ++ new) as [|c l]; [change (zlen (@nil Z)) with 0 in L5; lia|].
    inversion A2 as [|? ? [B1 B2] _]; subst. pose proof (rd_count _ _ R1) as [_ B3]. unfold chain_eoc, kEoc32, kEoc16 in B3. destruct (fat32 _); lia. }
  assert (Hve : volume_end s1 = volume_end s) by (unfold volume_end; now rewrite (ss_volume _ _ S1), (ss_count _ _ S1)).
  destruct (update_dirent_ok s1 h2 R1) as (s2 & Hup & Hst & Hsay); try (rewrite ?Gd, ?Gi, ?Gf, ?Gs, ?(ss_volume _ _ S1), ?Hve; lia). rewrite Hup, Gd, Gi, Gf in *.
  set (ds := h_dirent_sector h) in *. assert (Harea : forall c k, cluster_area s1 c k <-> cluster_area s c k) by (intros; unfold cluster_area; now rewrite (ss_volume _ _ S1)).
  pose proof Hown0 as Hown1. fold ds in Hown1.
  assert (Hkeep : forall first fs, file_at s1 first fs -> (forall c, c ∈ fs -> ~ cluster_area s c ds) -> file_at s2 first fs /\ file_bytes s2 fs = file_bytes s1 fs).
  { intros first fs Hfs Hno. apply (stepped_keeps s1 s2 (area ds 1)); auto. intros c k Hcf Hk [Hk1 Hk2]. assert (k = ds) as -> by lia. apply (Hno c Hcf). now apply Harea. }
  destruct (Hkeep _ _ F1 Hown1) as [F2 B2]. pose proof (st_setup _ _ _ _ _ Hst) as S2. assert (S12 : same_setup s s2) by (etransitivity; eauto).
  exists n, h2, s2, new. splits; [reflexivity|lia|lia| | |lia].
  { intros Hlt c Hc'. apply (same_is_cluster s1 s2) in Hc'; auto. rewrite (st_entry _ _ _ _ _ Hst) by (now apply (cluster_in_table cap)). now apply L6. }
  intros _. split; auto; rewrite ?Gf.
  - pose proof (st_ready _ _ _ _ _ Hst) as R2. split; auto; rewrite ?Gd, ?Gi, ?Gf; auto.
    + rewrite (ss_volume _ _ S12). unfold volume_end in *. now rewrite (ss_volume _ _ S12), (ss_count _ _ S12).
    + fold ds. intros c Hc' Ha. apply (same_is_cluster s s2) in Hc'; auto. assert (Ha' : cluster_area s c ds) by (unfold cluster_area in *; now rewrite (ss_volume _ _ S12) in Ha).
      assert (Hn' : c ∉ cs ++ new) by (intros Hin; now apply (Hown1 c)). split; [exact Hn'|]. assert (Hi1 : is_cluster s1 c) by (now apply (same_is_cluster s s1)).
      rewrite (st_entry _ _ _ _ _ Hst) by (now apply (cluster_in_table cap)). rewrite E1 by (auto; now apply (cluster_in_table cap)). now apply Hown.
    + rewrite Gs, (same_size s s2) by auto. rewrite Ec in L5. rewrite zlen_app in *. pose proof (zlen_nonneg new). nia.
    + lia.
  - rewrite B2. exact L4.
  - fold ds in Hslot1 |- *. rewrite <- Hslot1. exact Hsay.
  - intros Hm. apply Hst. auto.
  - intros first fs Hfs Hno. destruct (extended_keeps s s1 _ cs new first fs Hr (fa_clusters _ _ _ Hf) L1 Hfs) as [G1 G2]; [intros c Hcf; now apply Hno|].
    destruct (Hkeep first fs G1) as [G3 G4]; [intros c Hcf; now apply Hno|]. split; [exact G3|]. now rewrite G4.
Qed.

(** C18: bytes written through a handle, at any offset where the end of the
    write is below 4 GiB (beyond, see [far_write_wraps]), are what a read of the
    file's directory entry gives back.  Writing stops short only when the volume
    is full.  When something was written, the file's other bytes stay, the
    clusters it grew by were free and read as zeros where nothing was written,
    the entry has the new length and first cluster under the same name, the
    copies of the table agree, and every other file has its chain and its bytes.
    When nothing was, the entry and every byte are as before, clusters that were
    free may have been added to the chain, and the handle's size is raised to its
    cursor although the entry's is not ([failed_write_sizes]). *)
Theorem file_write_read s h cs data :
  open_file s h cs -> 0 <= h_cursor h -> h_cursor h + zlen data < 2 ^ 32 -> bytes_ok data ->
  exists written h' s' new, write_bytes h data s = Some ((written, h'), s') /\ 0 <= written <= zlen data /\ (written < zlen data -> full s') /\
    (1 <= written -> write_done s s' h h' cs new data written /\
       exists s'', read_into (short_dirent (slot_at s' (h_dirent_sector h) (h_dirent_index h))) (h_cursor h) written s' = Some (slice data 0 written, s'') /\
         g_blk s'' = g_blk s') /\
    (written = 0 -> nothing_written s s' h h' cs new).
Proof.
  intros Ho Hc H32 Hb. destruct (write_bytes_ok s h cs data Ho Hc H32 Hb) as (n & h' & s' & new & Hw & Hn & Hfull & Hdone & Hnone).
  exists n, h', s', new. splits; auto; try lia. intros Hn1. specialize (Hdone Hn1). split; [exact Hdone|]. destruct Hdone as [[R F S I O Z W] U N [Hs _] B (Sf & Sb & _) _ _].
  destruct (read_into_ok cap s' (short_dirent (slot_at s' (h_dirent_sector h) (h_dirent_index h))) (cs ++ new) (h_cursor h) n R) as (s'' & Hr & Hq); rewrite ?Sf, ?Sb; auto; try lia.
  exists s''. split; [|apply Hq]. rewrite Hr. do 2 f_equal. rewrite Sb, Z.min_l, B by lia. unfold written_bytes.
  pose proof (of_ready _ _ _ Ho) as R0. pose proof (cluster_size_pos cap s R0). pose proof (zlen_nonneg new).
  pose proof (same_size s s' U) as Es.
  apply slice_blit_same; [lia|rewrite zlen_slice; lia|]. rewrite zlen_app, zlen_zeros, (zlen_file_bytes cap) by (auto; nia). rewrite zlen_app, Es in Z. nia.
Qed.
End Write.

(** * A file written *)

(** An empty file in the second slot of the root, open for writing at 600. *)
Definition sample_handle : Handle := mkHandle 1 7 600 0 3 1 0 kHandleFile.
Definition sample_data : bytes := map (fun i => i mod 256) (seqZ 0 700).
Definition empty_table : bytes := put16 (put16 (zeros 512) 0 0xfff8) 2 0xffff.

Lemma sample_open : open_file 24 (small_service empty_table) sample_handle [].
Proof.
  split; try (cbn; lia).
  - apply small_service_ready.
  - split; [cbn; lia|constructor|constructor|exact I].
  - unfold volume_end. cbn. lia.
  - intros c [Hc1 Hc2]. unfold cluster_area, area, cluster_sector. cbn -[Z.mul Z.add u32 u64] in *. rewrite u32_small, u64_small by lia. lia.
  - vm_compute. split; discriminate.
Qed.

Lemma file_write_read_witness :
  exists h' s' s'', write_bytes sample_handle sample_data (small_service empty_table) = Some ((700, h'), s') /\ h_size h' = 1300 /\
    read_into (short_dirent (slot_at s' 3 1)) 600 700 s' = Some (sample_data, s'').
Proof.
  assert (Hb : bytes_ok sample_data) by (apply bytes_okb_true; vm_compute; reflexivity).
  destruct (file_write_read 24 (small_service empty_table) sample_handle [] sample_data sample_open ltac:(cbn; lia) ltac:(vm_compute; reflexivity) Hb)
    as (n & h' & s' & new & Hw & _ & _ & Hdone & _).
  assert (En : (fun r => r.1.1) <$> write_bytes sample_handle sample_data (small_service empty_table) = Some 700) by (vm_compute; reflexivity).
  rewrite Hw in En. injection En as ->. destruct (Hdone ltac:(lia)) as (Hd & s'' & Hr & _). destruct Hd as [_ _ _ [Hs _] _ _ _ _].
  exists h', s', s''. splits; [exact Hw|exact Hs|]. rewrite <- (slice_all sample_data 700) by (vm_compute; reflexivity). exact Hr.
Defined.
