(* ===== verification/FatDir.v ===== *)
(** Directories on a FAT volume (FatService.v): what a directory holds is a list
    of entries read off its slots, and the walks that look a name up, list the
    entries or look for an entry's place all go by that list. *)
From stdpp Require Import base numbers list list_numbers sets.
From Stdlib Require Import ZArith Lia.
From S2P Require Import Prelude Layout Device Wire Fat FatVolume FatService FatChains FatFile.

(** * Slots and entries *)

(** A slot with its place: sector and index. *)
Notation placed := (Z * Z * bytes)%type (only parsing).

(** The entries of a row of slots, up to its end mark: what each says, where its
    short slot is, and the long-name run before it. *)
Fixpoint entries_from (run : Lfn) (slots : list placed) : list (Dirent * (Z * Z) * Lfn) :=
  match slots with
  | [] => []
  | (sector, index, raw) :: rest =>
    if byte_at raw 0 =? 0x00 then []
    else
      match scan_entry run sector index raw with
      | (run, Some (dirent, lfn)) => (dirent, (sector, index), lfn) :: entries_from run rest
      | (run, None) => entries_from run rest
      end
  end.
Definition entries (slots : list placed) : list (Dirent * (Z * Z) * Lfn) := entries_from lfn_zero slots.

Definition wanted_entry (want : Want) (l : list (Dirent * (Z * Z) * Lfn)) : option Dirent :=
  match want with
  | ByName name => (fun p => p.2.1.1) <$> list_find (fun e => Is_true (same_name (d_name e.1.1) name)) l
  | ByIndex index => (fun e => e.1.1) <$> (l !! Z.to_nat index)
  end.

(** ** A search, slot by slot *)

Fixpoint search_slots (want : Want) (slots : list placed) (st : Search) : Search :=
  match slots with
  | [] => st
  | (sector, index, raw) :: rest =>
    if byte_at raw 0 =? 0x00 then mkSearch true (s_found st) (s_seen st) (s_run st)
    else
      match scan_entry (s_run st) sector index raw with
      | (run, None) => search_slots want rest (mkSearch false (s_found st) (s_seen st) run)
      | (run, Some (dirent, _)) =>
        match want with
        | ByName name =>
          if same_name (d_name dirent) name then mkSearch true (Some dirent) (s_seen st) run
          else search_slots want rest (mkSearch false (s_found st) (s_seen st) run)
        | ByIndex index =>
          if s_seen st =? index then mkSearch true (Some dirent) (u32 (s_seen st + 1)) run
          else search_slots want rest (mkSearch false (s_found st) (u32 (s_seen st + 1)) run)
        end
      end
  end.

(** The slots of a window. *)
Definition window_slots (n : nat) (i : Z) (window : bytes) (first : Z) : list placed :=
  map (fun j => (u64 (first + j * 32 / kSectorBytes), j mod 16, raw_at window j)) (seqZ i (Z.of_nat n)).

Lemma consider_slots want n : forall i window first st,
  consider n i window first want st = search_slots want (window_slots n i window first) st.
Proof.
  induction n as [|n IH]; intros i window first st; [reflexivity|]. unfold window_slots. rewrite seqZ_cons by lia.
  replace (Z.pred (Z.of_nat (S n))) with (Z.of_nat n) by lia. cbn [map consider search_slots]. rewrite <- Z.add_1_r.
  destruct (byte_at (raw_at window i) 0 =? 0); [reflexivity|]. destruct (scan_entry _ _ _ _) as [run [[dirent lfn]|]]; [|apply IH].
  destruct want as [name|index]; [destruct (same_name _ _)|destruct (_ =? index)]; auto; apply IH.
Qed.

Lemma search_app want a : forall b st, s_over st = false ->
  search_slots want (a ++ b) st = let st := search_slots want a st in if s_over st then st else search_slots want b st.
Proof.
  induction a as [|[[sector index] raw] a IH]; intros b st Ho; cbn [app search_slots]; [now rewrite Ho|].
  destruct (byte_at raw 0 =? 0); [reflexivity|]. destruct (scan_entry _ _ _ _) as [run [[dirent lfn]|]]; [|now apply IH].
  destruct want as [name|i]; [destruct (same_name _ _)|destruct (_ =? i)]; auto; now apply IH.
Qed.

(** What a search finds is the entry wanted. *)
Lemma search_found want slots : forall st,
  s_found st = None -> match want with ByName _ => True | ByIndex _ => s_seen st + zlen slots < 2 ^ 32 end -> 0 <= s_seen st ->
  s_found (search_slots want slots st) =
  match want with
  | ByName _ => wanted_entry want (entries_from (s_run st) slots)
  | ByIndex index => if s_seen st <=? index then wanted_entry (ByIndex (index - s_seen st)) (entries_from (s_run st) slots) else None
  end.
Proof.
  induction slots as [|[[sector index] raw] slots IH]; intros st Hf Hs H0.
  { cbn. destruct want as [name|i]; [exact Hf|]. rewrite Hf. now destruct (_ <=? i). }
  assert (Hs' : forall st', s_seen st <= s_seen st' <= s_seen st + 1 -> match want with ByName _ => True | ByIndex _ => s_seen st' + zlen slots < 2 ^ 32 end)
    by (intros st' Hst'; destruct want; [exact I|rewrite zlen_cons in Hs; lia]).
  pose proof (zlen_nonneg slots). cbn [search_slots entries_from]. destruct (byte_at raw 0 =? 0).
  { cbn. rewrite Hf. destruct want as [name|i]; [reflexivity|]. now destruct (_ <=? i). }
  destruct (scan_entry _ _ _ _) as [run [[dirent lfn]|]]; [|rewrite IH by first [exact Hf | (apply Hs'; cbn; lia) | (cbn; lia)]; reflexivity]. destruct want as [name|i].
  - unfold wanted_entry. cbn [list_find fst]. destruct (same_name (d_name dirent) name) eqn:E.
    + rewrite decide_True by (apply Is_true_true_2; first [exact E | reflexivity]). reflexivity.
    + rewrite decide_False by (apply Is_true_false_2; first [exact E | reflexivity]). rewrite IH by first [exact Hf | (apply Hs'; cbn; lia) | (cbn; lia)]. unfold wanted_entry. cbn [s_run].
      destruct (list_find _ _) as [[k e]|]; reflexivity.
  - destruct (Z.eqb_spec (s_seen st) i) as [->|Hne].
    + rewrite Z.leb_refl, Z.sub_diag. reflexivity.
    + rewrite zlen_cons in Hs. rewrite u32_small by lia. rewrite IH by first [exact Hf | (apply Hs'; cbn; lia) | (cbn; lia)]. cbn [s_seen s_run].
      destruct (Z.leb_spec (s_seen st + 1) i), (Z.leb_spec (s_seen st) i); try lia; [|reflexivity]. unfold wanted_entry.
      replace (Z.to_nat (i - s_seen st)) with (S (Z.to_nat (i - (s_seen st + 1)))) by lia. reflexivity.
Qed.

(** ** The walk for a place *)

Definition sector_row (sector : Z) (data : bytes) : list placed := map (fun i => (sector, i, slice data (i * 32) 32)) (seqZ 0 16).
Definition is_free (x : placed) : bool := (byte_at x.2 0 =? 0x00) || (byte_at x.2 0 =? 0xe5).

(** The outcome over a row of slots: the entry of the name, else the first free
    slot and the run at the end. *)
Fixpoint place_slots (name : bytes) (slots : list placed) (free : option (Z * Z)) (run : Lfn) : (Dirent * (Z * Z) * Lfn) + bool * option (Z * Z) * Lfn :=
  match slots with
  | [] => inr (false, free, run)
  | (sector, index, raw) :: rest =>
    if byte_at raw 0 =? 0x00 then inr (true, first_free free sector index, run)
    else if byte_at raw 0 =? 0xe5 then place_slots name rest (first_free free sector index) (lfn_reset run)
    else
      match scan_entry run sector index raw with
      | (run, Some (dirent, matched)) =>
        if same_name (d_name dirent) name then inl (dirent, (sector, index), matched) else place_slots name rest free run
      | (run, None) => place_slots name rest free run
      end
  end.

Lemma slot_scan_slots name sector n : forall i window free run,
  slot_scan n i window sector name free run =
  match place_slots name (map (fun j => (sector, j, raw_at window j)) (seqZ i (Z.of_nat n))) free run with
  | inl (dirent, place, matched) => ScanFound dirent place.2 matched
  | inr (true, free, _) => ScanEnded free
  | inr (false, free, run) => ScanOn free run
  end.
Proof.
  induction n as [|n IH]; intros i window free run; [reflexivity|]. rewrite seqZ_cons by lia. replace (Z.pred (Z.of_nat (S n))) with (Z.of_nat n) by lia.
  cbn [map slot_scan place_slots]. rewrite <- Z.add_1_r. destruct (byte_at _ 0 =? 0); [reflexivity|]. destruct (byte_at _ 0 =? 229); [apply IH|].
  destruct (scan_entry _ _ _ _) as [run' [[dirent lfn]|]]; [|apply IH]. destruct (same_name _ _); [reflexivity|apply IH].
Qed.

Lemma place_app name a : forall b free run,
  place_slots name (a ++ b) free run =
  match place_slots name a free run with
  | inr (false, free, run) => place_slots name b free run
  | r => r
  end.
Proof.
  induction a as [|[[sector index] raw] a IH]; intros b free run; cbn [app place_slots]; [reflexivity|].
  destruct (byte_at raw 0 =? 0); [reflexivity|]. destruct (byte_at raw 0 =? 229); [apply IH|].
  destruct (scan_entry _ _ _ _) as [run' [[dirent lfn]|]]; [|apply IH]. destruct (same_name _ _); [reflexivity|apply IH].
Qed.

Lemma deleted_skipped run sector index raw : byte_at raw 0 = 0xe5 -> scan_entry run sector index raw = (lfn_reset run, None).
Proof. intros E. unfold scan_entry, slot_kind. now rewrite E. Qed.

(** The walk finds the name's entry where the list has it. *)
Lemma place_found name slots : forall free run,
  match place_slots name slots free run with
  | inl e => snd <$> list_find (fun e => Is_true (same_name (d_name e.1.1) name)) (entries_from run slots) = Some e
  | inr _ => list_find (fun e => Is_true (same_name (d_name e.1.1) name)) (entries_from run slots) = None
  end.
Proof.
  induction slots as [|[[sector index] raw] slots IH]; intros free run; cbn [place_slots entries_from]; [reflexivity|].
  destruct (byte_at raw 0 =? 0) eqn:E0; [reflexivity|]. destruct (Z.eqb_spec (byte_at raw 0) 229) as [E|E].
  { rewrite deleted_skipped by exact E. apply IH. }
  destruct (scan_entry _ _ _ _) as [run' [[dirent lfn]|]]; [|apply IH]. cbn [list_find fst]. destruct (same_name (d_name dirent) name) eqn:Es.
  - rewrite decide_True by (apply Is_true_true_2; first [exact Es | reflexivity]). reflexivity.
  - rewrite decide_False by (apply Is_true_false_2; first [exact Es | reflexivity]). specialize (IH free run'). destruct (place_slots name slots free run') as [e|r].
    + destruct (list_find _ _) as [[k x]|]; [exact IH|discriminate].
    + now rewrite IH.
Qed.

(** The free slot it reports is the first one, and where it comes to the end
    there is one. *)
Lemma first_free_slot x slots :
  (fun p => p.2.1) <$> list_find (fun x => Is_true (is_free x)) (x :: slots) =
  if is_free x then Some x.1 else (fun p => p.2.1) <$> list_find (fun x => Is_true (is_free x)) slots.
Proof.
  cbn [list_find]. destruct (decide (Is_true (is_free x))) as [E|E].
  - apply Is_true_true_1 in E. now rewrite E.
  - apply Is_true_false_1 in E. rewrite E. now destruct (list_find _ slots) as [[k y]|].
Qed.
Lemma place_free name slots : forall free run,
  match place_slots name slots free run with
  | inl _ => True
  | inr (ended, free', _) => free' = match free with Some _ => free | None => (fun p => p.2.1) <$> list_find (fun x => Is_true (is_free x)) slots end /\
      (ended = true -> free' <> None)
  end.
Proof.
  induction slots as [|[[sector index] raw] slots IH]; intros free run; [destruct free; split; auto; discriminate|].
  rewrite first_free_slot. cbn [place_slots]. unfold is_free at 1. cbn [snd fst]. destruct (byte_at raw 0 =? 0); cbn [orb].
  { destruct free; split; auto; discriminate. }
  destruct (byte_at raw 0 =? 229).
  - specialize (IH (first_free free sector index) (lfn_reset run)). destruct (place_slots _ _ _ _) as [|[[ended free'] run']]; [exact I|].
    destruct IH as [-> IH2]. destruct free; split; auto.
  - destruct (scan_entry _ _ _ _) as [run' [[dirent lfn]|]]; [|apply IH]. destruct (same_name _ _); [exact I|apply IH].
Qed.

(** * Directories on the device *)

Section Directories.
Context {D : Type} `{SectorDeviceLaws D} `{!PoweredDevice D} {turns : Turns} (cap : Z).
Implicit Types s : Service D.
Local Notation rdy := (ready cap).

(** The slots of a row of sectors. *)
Definition slots_of s (sectors : list Z) : list placed := concat (map (fun k => sector_row k (vsector s k)) sectors).

Lemma slots_of_app s a b : slots_of s (a ++ b) = slots_of s a ++ slots_of s b.
Proof. unfold slots_of. now rewrite map_app, concat_app. Qed.
Lemma slots_of_quiet s s' sectors : quiet cap s s' -> slots_of s' sectors = slots_of s sectors.
Proof. intros Hq. unfold slots_of. f_equal. apply map_ext. intros k. now rewrite (quiet_vsector cap s s'). Qed.

Lemma seqZ_from a n : seqZ a n = map (Z.add a) (seqZ 0 n).
Proof. change (map (Z.add a)) with (fmap (M := list) (Z.add a)). now rewrite fmap_add_seqZ, Z.add_0_r. Qed.
Lemma seqZ_rows n : 0 <= n -> seqZ 0 (n * 16) = concat (map (fun k => seqZ (k * 16) 16) (seqZ 0 n)).
Proof.
  revert n. apply natlike_ind; [reflexivity|]. intros n Hn IH. replace (Z.succ n * 16) with (n * 16 + 16) by lia.
  rewrite seqZ_app, IH by lia. replace (Z.succ n) with (n + 1) by lia. rewrite (seqZ_app 0 n 1) by lia.
  rewrite map_app, concat_app, (seqZ_cons (0 + n) 1) by lia. cbn [map concat]. rewrite (Z.add_0_l n), (seqZ_nil (Z.succ n) (Z.pred 1)) by lia. cbn [map concat]. now rewrite app_nil_r.
Qed.

(** A sector, or the sectors of a cluster, in the window. *)
Lemma window_slot s w lba n k i :
  slice w 0 (n * 512) = vsectors s lba n -> 0 <= k < n -> 0 <= i < 16 -> raw_at w (k * 16 + i) = slice (vsector s (lba + k)) (i * 32) 32.
Proof.
  intros Hw Hk Hi. unfold raw_at. replace ((k * 16 + i) * 32) with (0 + (k * 512 + i * 32)) by lia. rewrite <- (slice_slice w 0 (n * 512)) by lia. rewrite Hw.
  rewrite <- (Z2Nat.id k) at 1 by lia. unfold vsectors. apply (slice_concat (vsector s) 512); try lia.
  - intros x _. apply vsector_len.
  - rewrite lookup_seqZ. lia.
Qed.
Lemma window_row s w lba : slice w 0 512 = vsector s lba -> map (fun j => (lba, j, raw_at w j)) (seqZ 0 16) = sector_row lba (vsector s lba).
Proof.
  intros Hw. apply map_ext_in. intros j Hj. apply list_elem_of_In, elem_of_seqZ in Hj. f_equal. rewrite <- (Z.add_0_r lba) at 1.
  rewrite <- (window_slot s w lba 1 0 j) by (rewrite ?vsectors_one; auto; lia). reflexivity.
Qed.
Lemma window_rows s w lba n :
  0 <= n -> 0 <= lba -> lba + n <= 2 ^ 48 -> slice w 0 (n * 512) = vsectors s lba n ->
  window_slots (Z.to_nat (n * 16)) 0 w lba = slots_of s (seqZ lba n).
Proof.
  intros Hn Hl He Hw. unfold window_slots, slots_of. rewrite Z2Nat.id, seqZ_rows, concat_map, map_map by lia. f_equal.
  rewrite (seqZ_from lba), map_map.
  apply map_ext_in. intros k Hk. apply list_elem_of_In, elem_of_seqZ in Hk. rewrite (seqZ_from (k * 16)), map_map.
  apply map_ext_in. intros i Hi. apply list_elem_of_In, elem_of_seqZ in Hi. rewrite (window_slot s w lba n k i) by (auto; lia).
  replace ((k * 16 + i) * 32 / kSectorBytes) with k by (unfold kSectorBytes; zlia). rewrite u64_small by lia.
  replace ((k * 16 + i) mod 16) with i by zlia. reflexivity.
Qed.

(** One sector read: the window has its row of slots. *)
Lemma read_row s k :
  rdy s -> 0 <= k < volume_end s ->
  exists w, read (u64 k) 1 s = Some (true, with_window s w) /\ quiet cap s (with_window s w) /\
    map (fun j => (k, j, raw_at w j)) (seqZ 0 16) = sector_row k (vsector s k).
Proof.
  intros Hr Hk. destruct (regions cap s Hr) as (R1 & R2 & R3 & R3' & R4 & R5 & R6 & R7). pose proof (rd_first _ _ Hr). pose proof (rd_window _ _ Hr) as (W1 & _).
  rewrite u64_small by lia. destruct (read_into_window cap s k 1 Hr ltac:(lia) ltac:(lia) ltac:(lia) ltac:(lia)) as (w & -> & Hrw & Hs & _).
  exists w. splits; [reflexivity|now apply quiet_window|]. apply window_row. now rewrite <- vsectors_one.
Qed.

(** ** Looking up *)

Lemma seqZ_more a n : seqZ a (Z.of_nat (S n)) = a :: seqZ (a + 1) (Z.of_nat n).
Proof. rewrite seqZ_cons by lia. f_equal. f_equal; lia. Qed.

Lemma search_root_ok want n : forall k st s,
  rdy s -> 0 <= k -> k + Z.of_nat n = root_sectors (g_volume s) -> s_over st = false ->
  exists s', search_root n k want st s = Some (s_found (search_slots want (slots_of s (seqZ (root_start (g_volume s) + k) (Z.of_nat n))) st), s') /\ quiet cap s s'.
Proof.
  induction n as [|n IH]; intros k st s Hr Hk Hn Ho; [exists s; split; [reflexivity|now apply quiet_refl]|].
  destruct (regions cap s Hr) as (R1 & R2 & R3 & R3' & R4 & R5 & R6 & R7). pose proof (lo_data _ (rd_layout _ _ Hr)) as Hd. pose proof (rd_first _ _ Hr).
  rewrite seqZ_more. set (a := root_start (g_volume s) + k) in *. destruct (read_row s a Hr ltac:(lia)) as (w & Hw & Hq & Hrow).
  cbn [search_root]. cbv beta iota zeta delta [mbind mget mret]. fold a. rewrite Hw. cbn [g_window with_window]. rewrite consider_slots.
  assert (Hc : window_slots 16 0 w (u64 a) = sector_row a (vsector s a)).
  { rewrite <- Hrow. unfold window_slots. apply map_ext_in. intros j Hj. apply list_elem_of_In, elem_of_seqZ in Hj.
    replace (j * 32 / kSectorBytes) with 0 by (unfold kSectorBytes; zlia). rewrite Z.mod_small, Z.add_0_r, !(u64_small a) by lia. reflexivity. }
  rewrite Hc. change (slots_of s (a :: ?l)) with (sector_row a (vsector s a) ++ slots_of s l). rewrite search_app by exact Ho. cbv zeta.
  destruct (s_over (search_slots want (sector_row a (vsector s a)) st)) eqn:E; [eauto|].
  destruct (IH (k + 1) (search_slots want (sector_row a (vsector s a)) st) (with_window s w) (q_ready _ _ _ Hq) ltac:(lia) ltac:(cbn; lia) E) as (s' & -> & Hq').
  exists s'. split; [|now apply (quiet_trans cap s (with_window s w))]. cbn [g_volume with_window]. rewrite (slots_of_quiet s (with_window s w)) by exact Hq.
  replace (root_start (g_volume s) + (k + 1)) with (a + 1) by (unfold a; lia). reflexivity.
Qed.

(** A chain of clusters from [c] to its end. *)
Record chain_from s (c : Z) (cs : list Z) : Prop := {
  cf_first : match cs with [] => chained (g_volume s) c = false | x :: _ => c = x end;
  cf_clusters : Forall (is_cluster s) cs;
  cf_links : links (g_volume s) (entry s) cs;
}.
Lemma chain_quiet s s' c cs : quiet cap s s' -> chain_from s c cs -> chain_from s' c cs.
Proof.
  intros Hq [F1 F2 F3]. pose proof (q_setup _ _ _ Hq) as Hs. split; rewrite ?(ss_volume _ _ Hs); auto.
  - eapply Forall_impl; [exact F2|]. intros x Hx. now apply (same_is_cluster s s').
  - eapply links_ext; [|exact F3]. intros x _. now apply (quiet_entry cap).
Qed.
Lemma chain_next s c cs : chain_from s c (c :: cs) -> chain_from s (entry s c) cs.
Proof.
  intros [F1 F2 [F3 F4]]. inversion F2; subst. split; auto. destruct cs; [|exact F3]. unfold chained. rewrite (proj2 (Z.ltb_ge _ _)) by exact F3. apply andb_false_r.
Qed.
Lemma file_chain s first cs : file_at s first cs -> chain_from s first cs.
Proof.
  intros [F1 F2 F3 F4]. split; auto. destruct cs; [|exact F1]. unfold chained. rewrite (proj2 (Z.leb_gt _ _)) by lia. reflexivity.
Qed.

Definition cluster_sectors s (c : Z) : list Z := seqZ (cluster_sector (g_volume s) c) (sectors_per_cluster (g_volume s)).
Definition chain_sectors s (cs : list Z) : list Z := concat (map (cluster_sectors s) cs).
Lemma chain_sectors_quiet s s' cs : quiet cap s s' -> chain_sectors s' cs = chain_sectors s cs.
Proof. intros Hq. unfold chain_sectors, cluster_sectors. now rewrite (ss_volume _ _ (q_setup _ _ _ Hq)). Qed.

(** The next cluster, by the table's sector in the window. *)
Lemma load_next s c :
  rdy s -> is_cluster s c -> exists s', fat_load c s = Some (Some (fat_rel (g_volume s) c), s') /\ quiet cap s s' /\ window_next c s' = Some (entry s c, s').
Proof.
  intros Hr Hc. destruct (fat_load_ok cap s c Hr (cluster_in_table cap s c Hr Hc)) as (w & Hl & Hrw & Hs & _). exists (with_window s w).
  splits; [exact Hl|now apply quiet_window|]. unfold window_next, mget. cbn [g_volume g_window with_window]. now rewrite (window_next_loaded s w c _ Hs).
Qed.
Lemma read_next s c :
  rdy s -> is_cluster s c ->
  exists s', read (u64 (fat_start (g_volume s) + u32 (c * entry_bytes (g_volume s)) / kSectorBytes)) 1 s = Some (true, s') /\ quiet cap s s' /\ window_next c s' = Some (entry s c, s').
Proof.
  intros Hr Hc. destruct (load_next s c Hr Hc) as (s' & Hl & Hq & Hn). exists s'. splits; auto. unfold fat_load in Hl. cbv beta iota zeta delta [mbind mget mret] in Hl.
  pose proof (rd_count _ _ Hr) as [_ Hce]. destruct Hc as [Hc1 Hc2]. rewrite (u32_small (c * _)).
  - fold (fat_rel (g_volume s) c). destruct (read _ 1 s) as [[[] s1]|]; congruence.
  - destruct (entry_bytes_cases (g_volume s)) as [[_ ->]|[_ ->]]; unfold chain_eoc, kEoc32, kEoc16 in Hce; destruct (fat32 _); lia.
Qed.

Lemma slots_whole s : slots_per_cluster (g_volume s) = Z.to_nat (sectors_per_cluster (g_volume s) * 16).
Proof. unfold slots_per_cluster, kSectorBytes. f_equal. zlia. Qed.

Lemma search_chain_ok want fuel : forall cs c st s,
  rdy s -> chain_from s c cs -> (length cs < fuel)%nat -> s_over st = false ->
  exists s', search_chain fuel c want st s = Some (s_found (search_slots want (slots_of s (chain_sectors s cs)) st), s') /\ quiet cap s s'.
Proof.
  induction fuel as [|fuel IH]; intros cs c st s Hr Hc Hf Ho; [lia|]. cbn [search_chain]. cbv beta iota zeta delta [mbind mget mret].
  pose proof (cf_first _ _ _ Hc) as H1. destruct cs as [|x cs].
  { rewrite H1. exists s. split; [reflexivity|now apply quiet_refl]. }
  subst x. assert (Hcl : is_cluster s c) by (pose proof (cf_clusters _ _ _ Hc) as Hl; now inversion Hl). rewrite (is_cluster_chained cap s c Hr Hcl). cbn [negb].
  destruct (read_cluster cap s c Hr Hcl) as (w & -> & Hrw & Hs). assert (Hq : quiet cap s (with_window s w)) by now apply quiet_window.
  destruct (regions cap s Hr) as (R1 & R2 & R3 & R3' & R4 & R5 & R6 & R7). destruct (cluster_place cap s c Hr Hcl) as (P1 & P2 & P3). pose proof (rd_first _ _ Hr).
  cbn [g_window with_window]. rewrite consider_slots, slots_whole, (window_rows s w) by (first [lia | exact Hs]).
  change (chain_sectors s (c :: cs)) with (cluster_sectors s c ++ chain_sectors s cs). rewrite slots_of_app, search_app by exact Ho. cbv zeta. fold (cluster_sectors s c).
  destruct (s_over (search_slots want (slots_of s (cluster_sectors s c)) st)) eqn:E; [eauto|].
  destruct (read_next (with_window s w) c Hrw Hcl) as (s2 & Hr2 & Hq2 & Hn2). cbn [g_volume with_window] in Hr2. rewrite Hr2, Hn2.
  assert (Hq' : quiet cap s s2) by now apply (quiet_trans cap s (with_window s w)).
  destruct (IH cs (entry s c) (search_slots want (slots_of s (cluster_sectors s c)) st) s2 (q_ready _ _ _ Hq')) as (s' & Hs' & Hq3).
  - apply (chain_quiet s); [exact Hq'|]. now apply chain_next.
  - cbn in Hf. lia.
  - exact E.
  - rewrite (quiet_entry cap s (with_window s w)) by exact Hq. rewrite Hs'. exists s'. split; [|now apply (quiet_trans cap s s2)].
    now rewrite (slots_of_quiet s s2), (chain_sectors_quiet s s2).
Qed.

(** ** A place for a name *)

(** What a walk's outcome is as an answer: the entry, else a free slot. *)
Definition slot_outcome (r : (Dirent * (Z * Z) * Lfn) + bool * option (Z * Z) * Lfn) : option Slot :=
  match r with
  | inl (dirent, (sector, index), lfn) => Some (Found dirent sector index lfn)
  | inr (_, Some (sector, index), _) => Some (Free sector index)
  | inr (_, None, _) => None
  end.

Lemma place_in_row name a free run dirent place lfn data :
  place_slots name (sector_row a data) free run = inl (dirent, place, lfn) -> place.1 = a.
Proof.
  unfold sector_row. generalize (seqZ 0 16). intros l. revert free run. induction l as [|i l IH]; intros free run; cbn [map place_slots]; [discriminate|].
  destruct (byte_at _ 0 =? 0); [discriminate|]. destruct (byte_at _ 0 =? 229); [apply IH|]. destruct (scan_entry _ _ _ _) as [run' [[d m]|]]; [|apply IH].
  destruct (same_name _ _); [|apply IH]. intros [= _ <- _]. reflexivity.
Qed.

(** One sector of a walk. *)
Lemma scan_row s w k name free run :
  map (fun j => (k, j, raw_at w j)) (seqZ 0 16) = sector_row k (vsector s k) ->
  slot_scan 16 0 w k name free run =
  match place_slots name (sector_row k (vsector s k)) free run with
  | inl (dirent, place, matched) => ScanFound dirent place.2 matched
  | inr (true, free, _) => ScanEnded free
  | inr (false, free, run) => ScanOn free run
  end.
Proof. intros <-. apply slot_scan_slots. Qed.

Lemma slot_root_ok name n : forall k free run s,
  rdy s -> 0 <= k -> k + Z.of_nat n = root_sectors (g_volume s) ->
  exists s', slot_root n k name free run s =
    Some (default Full (slot_outcome (place_slots name (slots_of s (seqZ (root_start (g_volume s) + k) (Z.of_nat n))) free run)), s') /\ quiet cap s s'.
Proof.
  induction n as [|n IH]; intros k free run s Hr Hk Hn.
  { exists s. split; [|now apply quiet_refl]. cbn. now destruct free as [[sector index]|]. }
  destruct (regions cap s Hr) as (R1 & R2 & R3 & R3' & R4 & R5 & R6 & R7). pose proof (lo_data _ (rd_layout _ _ Hr)) as Hd. pose proof (rd_first _ _ Hr).
  rewrite seqZ_more. set (a := root_start (g_volume s) + k) in *. destruct (read_row s a Hr ltac:(lia)) as (w & Hw & Hq & Hrow).
  cbn [slot_root]. cbv beta iota zeta delta [mbind mget mret]. fold a. rewrite Hw. cbn [g_window with_window].
  rewrite (u64_small a), (scan_row s w a name free run Hrow) by lia.
  change (slots_of s (a :: ?l)) with (sector_row a (vsector s a) ++ slots_of s l). rewrite place_app.
  destruct (place_slots name (sector_row a (vsector s a)) free run) as [[[dirent [pa pi]] lfn]|[[[] free'] run']] eqn:E.
  - apply place_in_row in E. cbn in E. subst pa. eauto.
  - exists (with_window s w). split; [|exact Hq]. cbn. now destruct free' as [[sector index]|].
  - destruct (IH (k + 1) free' run' (with_window s w) (q_ready _ _ _ Hq) ltac:(lia) ltac:(cbn; lia)) as (s' & -> & Hq').
    exists s'. split; [|now apply (quiet_trans cap s (with_window s w))]. cbn [g_volume with_window]. rewrite (slots_of_quiet s (with_window s w)) by exact Hq.
    replace (root_start (g_volume s) + (k + 1)) with (a + 1) by (unfold a; lia). reflexivity.
Qed.

Lemma slot_sectors_ok name at_ n : forall k free run s,
  rdy s -> 0 <= at_ -> 0 <= k -> at_ + k + Z.of_nat n <= volume_end s ->
  exists s', slot_sectors n k at_ name free run s =
    Some (match place_slots name (slots_of s (seqZ (at_ + k) (Z.of_nat n))) free run with
          | inl (dirent, (sector, index), lfn) => inl (inl (Found dirent sector index lfn))
          | inr (true, free, _) => inl (inr free)
          | inr (false, free, run) => inr (free, run)
          end, s') /\ quiet cap s s'.
Proof.
  induction n as [|n IH]; intros k free run s Hr Ha Hk Hn; [exists s; split; [reflexivity|now apply quiet_refl]|].
  destruct (regions cap s Hr) as (R1 & R2 & R3 & R3' & R4 & R5 & R6 & R7). pose proof (rd_first _ _ Hr).
  rewrite seqZ_more. set (a := at_ + k) in *. destruct (read_row s a Hr ltac:(lia)) as (w & Hw & Hq & Hrow).
  cbn [slot_sectors]. cbv beta iota zeta delta [mbind mget mret]. fold a. rewrite (u64_small a) in Hw |- * by lia. rewrite Hw. cbn [g_window with_window].
  rewrite (scan_row s w a name free run Hrow).
  change (slots_of s (a :: ?l)) with (sector_row a (vsector s a) ++ slots_of s l). rewrite place_app.
  destruct (place_slots name (sector_row a (vsector s a)) free run) as [[[dirent [pa pi]] lfn]|[[[] free'] run']] eqn:E.
  - apply place_in_row in E. cbn in E. subst pa. eauto.
  - eauto.
  - destruct (IH (k + 1) free' run' (with_window s w) (q_ready _ _ _ Hq) Ha ltac:(lia) ltac:(change (volume_end (with_window s w)) with (volume_end s); lia)) as (s' & -> & Hq').
    exists s'. split; [|now apply (quiet_trans cap s (with_window s w))]. rewrite (slots_of_quiet s (with_window s w)) by exact Hq.
    replace (at_ + (k + 1)) with (a + 1) by (unfold a; lia). reflexivity.
Qed.

(** The walk along a chain answers what its slots say, and where they say nothing
    it has the last cluster and no free slot. *)
Lemma slot_chain_ok name fuel : forall cs c last free run s,
  rdy s -> chain_from s c cs -> (length cs < fuel)%nat ->
  exists s1, quiet cap s s1 /\
    slot_chain fuel c last name free run s =
    match slot_outcome (place_slots name (slots_of s (chain_sectors s cs)) free run) with
    | Some slot => Some (slot, s1)
    | None => slot_or_grow (List.last cs last) None s1
    end.
Proof.
  induction fuel as [|fuel IH]; intros cs c last free run s Hr Hc Hf; [lia|]. cbn [slot_chain]. cbv beta iota zeta delta [mbind mget mret].
  pose proof (cf_first _ _ _ Hc) as H1. destruct cs as [|x cs].
  { rewrite H1. exists s. split; [now apply quiet_refl|]. cbn. now destruct free as [[sector index]|]. }
  subst x. assert (Hcl : is_cluster s c) by (pose proof (cf_clusters _ _ _ Hc) as Hl; now inversion Hl). rewrite (is_cluster_chained cap s c Hr Hcl). cbn [negb].
  destruct (regions cap s Hr) as (R1 & R2 & R3 & R3' & R4 & R5 & R6 & R7). destruct (cluster_place cap s c Hr Hcl) as (P1 & P2 & P3).
  destruct (slot_sectors_ok name (cluster_sector (g_volume s) c) (Z.to_nat (sectors_per_cluster (g_volume s))) 0 free run s Hr ltac:(lia) ltac:(lia) ltac:(lia)) as (s1 & -> & Hq1).
  rewrite Z.add_0_r, Z2Nat.id by lia. fold (cluster_sectors s c).
  change (chain_sectors s (c :: cs)) with (cluster_sectors s c ++ chain_sectors s cs). rewrite slots_of_app, place_app.
  pose proof (place_free name (slots_of s (cluster_sectors s c)) free run) as Hfree.
  destruct (place_slots name (slots_of s (cluster_sectors s c)) free run) as [[[dirent [pa pi]] lfn]|[[[] free'] run']].
  - exists s1. auto.
  - destruct Hfree as [_ Hfree]. specialize (Hfree eq_refl). destruct free' as [[sector index]|]; [|congruence]. exists s1. auto.
  - assert (Hcl1 : is_cluster s1 c) by (apply (same_is_cluster s s1); auto; apply Hq1).
    destruct (load_next s1 c (q_ready _ _ _ Hq1) Hcl1) as (s2 & -> & Hq2 & ->). assert (Hq : quiet cap s s2) by now apply (quiet_trans cap s s1).
    rewrite (quiet_entry cap s s1) by exact Hq1.
    destruct (IH cs (entry s c) c free' run' s2 (q_ready _ _ _ Hq)) as (s3 & Hq3 & Hs3).
    + apply (chain_quiet s); [exact Hq|]. now apply chain_next.
    + cbn in Hf. lia.
    + exists s3. split; [now apply (quiet_trans cap s s2)|]. rewrite Hs3, (slots_of_quiet s s2), (chain_sectors_quiet s s2) by exact Hq.
      replace (List.last (c :: cs) last) with (List.last cs c); [reflexivity|]. clear. revert c. induction cs as [|x cs IH]; [reflexivity|]. intros c. cbn. now destruct cs; [|apply IH].
Qed.

(** ** Directories *)

(** The sectors a directory's slots are in: the root region of a FAT16 volume,
    or a chain's. *)
Inductive dir_at s (dir : Dir) : list Z -> Prop :=
  | root_at : dir_is_root dir = true -> dir_at s dir (seqZ (root_start (g_volume s)) (root_sectors (g_volume s)))
  | chain_at cs : dir_is_root dir = false -> file_at s (dir_cluster dir) cs -> dir_at s dir (chain_sectors s cs).

Lemma dir_chain_short s first cs : file_at s first cs -> (length cs < chain_fuel s)%nat.
Proof.
  intros Hf. assert (Hl : (length cs <= length (seqZ 2 (g_cluster_count s)))%nat).
  { apply NoDup_incl_length; [apply NoDup_ListNoDup, Hf|]. intros c Hc. apply list_elem_of_In in Hc. apply list_elem_of_In, elem_of_seqZ.
    pose proof (fa_clusters _ _ _ Hf) as Hcl. rewrite Forall_forall in Hcl. specialize (Hcl c Hc). unfold is_cluster in Hcl. lia. }
  rewrite length_seqZ in Hl. unfold chain_fuel. lia.
Qed.

(** The chain grown by a cluster for the entry, or the volume is full. *)
Lemma slot_grow s first cs :
  rdy s -> file_at s first cs -> cs <> [] ->
  exists slot s', slot_or_grow (List.last cs first) None s = Some (slot, s') /\
    (slot = Full /\ no_room cap s s' \/ exists c, slot = Free (cluster_sector (g_volume s) c) 0 /\ grew cap s s' first cs [c]).
Proof.
  intros Hr Hf Hcs. destruct (exists_last Hcs) as (pre & z & ->). rewrite List.last_last. unfold slot_or_grow. cbv beta iota zeta delta [mbind mget mret].
  destruct (alloc_cluster_ok cap s Hr) as (c & s1 & -> & [[-> Hno]|Hal]); [exists Full, s1; auto|].
  pose proof (al_cluster _ _ _ _ Hal) as Hc. destruct (Z.eqb_spec c 0) as [->|_]; [destruct Hc; lia|]. pose proof (al_step _ _ _ _ Hal) as [R1 S1 _ _ _].
  assert (Hz : is_cluster s z) by (pose proof (fa_clusters _ _ _ Hf) as Hcl; rewrite Forall_forall in Hcl; apply Hcl; set_solver).
  destruct (fat_store_ok cap s1 z c R1) as (s2 & -> & Hst & _).
  { apply (same_in_table s s1); auto. now apply (cluster_in_table cap). }
  exists (Free (cluster_sector (g_volume s) c) 0), s2. split; [reflexivity|right]. exists c. split; [reflexivity|]. now apply (grow_one cap s s1).
Qed.

(** C19: looking an entry up in a directory, by its name or by its number, ends
    and gives the first entry of that name, or that entry, of the list the
    directory's slots spell, for the fixed root and for a chain of any length;
    it changes nothing on the device. *)
Theorem dir_lookup_spec s dir sectors want :
  rdy s -> dir_at s dir sectors ->
  match want with ByName _ => True | ByIndex index => 0 <= index /\ zlen (slots_of s sectors) < 2 ^ 32 end ->
  exists s', find_in_dir dir want s = Some (wanted_entry want (entries (slots_of s sectors)), s') /\ quiet cap s s'.
Proof.
  intros Hr Hd Hw.
  assert (Hf : s_found (search_slots want (slots_of s sectors) search_start) = wanted_entry want (entries (slots_of s sectors))).
  { rewrite search_found; [|reflexivity|destruct want; [exact I|cbn; lia]|reflexivity]. destruct want as [name|index]; [reflexivity|].
    cbn [s_seen search_start]. rewrite (proj2 (Z.leb_le _ _)), Z.sub_0_r by lia. reflexivity. }
  unfold find_in_dir. rewrite <- Hf. destruct Hd as [Hroot|cs Hroot Hfile]; rewrite Hroot.
  - destruct (lo_root_sectors _ (rd_layout _ _ Hr)) as [Hn _].
    destruct (search_root_ok want (Z.to_nat (root_sectors (g_volume s))) 0 search_start s Hr) as (s' & -> & Hq); [lia|lia|reflexivity|].
    rewrite Z.add_0_r, Z2Nat.id by lia. eauto.
  - apply search_chain_ok; auto; [now apply file_chain|now apply (dir_chain_short s (dir_cluster dir))].
Qed.

(** What the slots say of a name's place: its entry, else the first free slot. *)
Definition slot_for (name : bytes) (slots : list placed) : option Slot :=
  match list_find (fun e => Is_true (same_name (d_name e.1.1) name)) (entries slots) with
  | Some (_, (dirent, (sector, index), lfn)) => Some (Found dirent sector index lfn)
  | None => (fun p => Free p.2.1.1 p.2.1.2) <$> list_find (fun x => Is_true (is_free x)) slots
  end.
Lemma slot_outcome_for name slots : slot_outcome (place_slots name slots None lfn_zero) = slot_for name slots.
Proof.
  pose proof (place_found name slots None lfn_zero) as Hfound. pose proof (place_free name slots None lfn_zero) as Hfree. unfold slot_for. fold (entries slots) in Hfound.
  destruct (place_slots name slots None lfn_zero) as [[[dirent [sector index]] lfn]|[[ended free] run]].
  - destruct (list_find _ (entries _)) as [[k e]|]; [|discriminate]. cbn in Hfound. now injection Hfound as ->.
  - rewrite Hfound. destruct Hfree as [-> _]. now destruct (list_find _ slots) as [[k [[sector index] raw]]|].
Qed.

(** C20: the walk that finds an entry's place agrees with the lookup.  Where the
    directory has the name it gives that entry, its slot and its long name's
    slots; otherwise the first slot that is free; otherwise a fixed root is
    full, and a chain grows by one zeroed cluster, or is full when the volume
    is.  Only growing changes the device. *)
Theorem dir_slot_spec s dir sectors name :
  rdy s -> dir_at s dir sectors -> sectors <> [] ->
  exists slot s', dir_slot dir name s = Some (slot, s') /\
    match slot_for name (slots_of s sectors) with
    | Some answer => slot = answer /\ quiet cap s s'
    | None =>
      if dir_is_root dir then slot = Full /\ quiet cap s s'
      else slot = Full /\ full s' /\ stepped cap s s' (entry s) clean \/
        exists cs c, slot = Free (cluster_sector (g_volume s) c) 0 /\ sectors = chain_sectors s cs /\ grew cap s s' (dir_cluster dir) cs [c]
    end.
Proof.
  intros Hr Hd Hne. unfold dir_slot. destruct Hd as [Hroot|cs Hroot Hfile]; rewrite Hroot.
  - destruct (lo_root_sectors _ (rd_layout _ _ Hr)) as [Hn _].
    destruct (slot_root_ok name (Z.to_nat (root_sectors (g_volume s))) 0 None lfn_zero s Hr) as (s' & -> & Hq); [lia|lia|].
    rewrite Z.add_0_r, Z2Nat.id, slot_outcome_for by lia. destruct (slot_for name _) as [slot|]; eexists _, s'; split; auto.
  - destruct (slot_chain_ok name (chain_fuel s) cs (dir_cluster dir) (dir_cluster dir) None lfn_zero s Hr) as (s1 & Hq & ->).
    { now apply file_chain. }
    { now apply (dir_chain_short s (dir_cluster dir)). }
    rewrite slot_outcome_for. destruct (slot_for name _) as [slot|]; [eexists _, s1; split; auto|]. assert (Hcs : cs <> []) by (intros ->; auto).
    destruct (slot_grow s1 (dir_cluster dir) cs (q_ready _ _ _ Hq) (quiet_file cap s s1 _ _ Hq Hfile) Hcs) as (slot & s' & -> & Hs').
    exists slot, s'. split; [reflexivity|]. destruct Hs' as [[-> Hno]|(c & -> & Hg)].
    + left. splits; auto; [apply (no_room_full cap s1 s'); [apply Hq|exact Hno]|]. destruct Hno as [_ Hno].
      apply (stepped_ext cap s s' (entry s1)); [|intros j _; now apply (quiet_entry cap)].
      apply (stepped_trans cap s s1 s' (entry s) (entry s1) clean clean); auto; [now apply quiet_stepped|unfold clean; tauto].
    + right. exists cs, c. rewrite (ss_volume _ _ (q_setup _ _ _ Hq)). splits; auto.
      apply (grew_trans cap s s1 s' (dir_cluster dir) (dir_cluster dir) cs [] [c]); auto; [apply Hfile| |now rewrite app_nil_r].
      apply grew_none; auto. now apply quiet_stepped.
Qed.
End Directories.

(** * A directory or two

    The root has a file, a deleted slot and another file; the directory at
    cluster 2 has sixteen entries and so no free slot. *)
Definition text83 (letter : Z) : bytes := [letter; 32; 32; 32; 32; 32; 32; 32; 84; 88; 84].
Definition some_root : bytes := dirent_make (text83 65) ++ blit (dirent_make (text83 67)) 0 [0xe5] ++ dirent_make (text83 66) ++ zeros 416.
Definition full_dir : bytes := concat (map (fun i => dirent_make (text83 (65 + i))) (seqZ 0 16)).
Definition dir_disk : Disk.disk :=
  let table := put16 (zeros 512) 4 0xffff in
  Disk.mkDisk ([zeros 512; table; table; some_root; full_dir] ++ replicate 19 (zeros 512)) None [].
Lemma dir_ready : ready 24 (service_on dir_disk).
Proof. apply service_ready. split; [reflexivity|]. vm_compute. discriminate. Qed.

Lemma dir_lookup_spec_witness :
  (exists s' e, find_in_dir (dir_root small_volume) (ByName [98; 46; 116; 120; 116]) (service_on dir_disk) = Some (Some e, s') /\ d_name e = [66; 46; 84; 88; 84]) /\
  (exists s', find_in_dir (dir_root small_volume) (ByIndex 2) (service_on dir_disk) = Some (None, s')).
Proof.
  assert (Hd : dir_at (service_on dir_disk) (dir_root small_volume) (seqZ 3 1)) by (apply root_at; reflexivity).
  split.
  - destruct (dir_lookup_spec 24 _ _ _ (ByName [98; 46; 116; 120; 116]) dir_ready Hd I) as (s' & Hs & _).
    exists s', (short_dirent (dirent_make (text83 66))). split; [|vm_compute; reflexivity]. now rewrite Hs.
  - destruct (dir_lookup_spec 24 _ _ _ (ByIndex 2) dir_ready Hd) as (s' & Hs & _); [split; [lia|vm_compute; reflexivity]|].
    exists s'. now rewrite Hs.
Defined.

Lemma dir_slot_spec_witness :
  (exists s', dir_slot (dir_root small_volume) [99] (service_on dir_disk) = Some (Free 3 1, s') /\ quiet 24 (service_on dir_disk) s') /\
  (exists s' cs c, dir_slot (mkDir 2 false) [99] (service_on dir_disk) = Some (Free (cluster_sector small_volume c) 0, s') /\ grew 24 (service_on dir_disk) s' 2 cs [c]).
Proof.
  split.
  - destruct (dir_slot_spec 24 (service_on dir_disk) (dir_root small_volume) (seqZ 3 1) [99] dir_ready) as (slot & s' & Hs & Hout); [apply root_at; reflexivity|discriminate|].
    exists s'. revert Hout. replace (slot_for _ _) with (Some (Free 3 1)) by (vm_compute; reflexivity). intros [-> Hq]. auto.
  - assert (Hf : file_at (service_on dir_disk) 2 [2]).
    { split; [reflexivity| |apply NoDup_singleton|]; [constructor; [split; cbn; lia|constructor]|]. split; [vm_compute; discriminate|exact I]. }
    destruct (dir_slot_spec 24 (service_on dir_disk) (mkDir 2 false) (chain_sectors (service_on dir_disk) [2]) [99] dir_ready) as (slot & s' & Hs & Hout);
      [now apply chain_at|discriminate|].
    revert Hout. replace (slot_for _ _) with (@None Slot) by (vm_compute; reflexivity).
    intros [[_ [Hfull _]]|(cs & c & -> & _ & Hg)]; [|exists s', cs, c; auto]. exfalso.
    assert (Hv : (fun r => bool_decide (entry r.2 20 = 0)) <$> dir_slot (mkDir 2 false) [99] (service_on dir_disk) = Some true) by (vm_compute; reflexivity).
    rewrite Hs in Hv. injection Hv as Hv. apply bool_decide_eq_true in Hv. apply (Hfull 20); [|exact Hv].
    assert (Hc : g_cluster_count s' = 20).
    { assert (Hv2 : (fun r => g_cluster_count r.2) <$> dir_slot (mkDir 2 false) [99] (service_on dir_disk) = Some 20) by (vm_compute; reflexivity).
      rewrite Hs in Hv2. now injection Hv2. }
    unfold is_cluster. rewrite Hc. lia.
Defined.
