(* ===== verification/FatExamples.v ===== *)
(** The FAT service (FatService.v) run on small volumes: an exchange from open to
    list, and the corners where it does other than its comments say. *)
From stdpp Require Import base numbers list list_numbers.
From Stdlib Require Import ZArith Lia.
From S2P Require Import Prelude Layout Device Wire Fat FatVolume FatService FatChains FatFile FatDir.

(** The words of a path. *)
Definition path_words (p : bytes) : list Z := zlen p :: words_of p (string_words (zlen p)).

(** Calls one after another, by one client. *)
Fixpoint calls (s : Service Disk.disk) (l : list (Z * list Z)) : option (list (list Z) * Service Disk.disk) :=
  match l with
  | [] => Some ([], s)
  | (method, words) :: l =>
    match serve [] method words 7 NoFrame s with
    | Some ((reply, _), s) => match calls s l with Some (replies, s) => Some (reply :: replies, s) | None => None end
    | None => None
    end
  end.
Definition replies (r : option (list (list Z) * Service Disk.disk)) : option (list (list Z)) := fst <$> r.
Definition sector_after (k : nat) (r : option (list (list Z) * Service Disk.disk)) : option bytes :=
  (fun p => nth k (Disk.contents (g_blk p.2)) []) <$> r.

Definition read_only (s : Service Disk.disk) : Service Disk.disk :=
  mkService (g_blk s) (g_window s) (g_first s) (g_window_sectors s) (g_cluster_count s) (g_range_bytes s) (g_volume s) false
    (g_handles s) (g_handle_serial s) (g_clock s) (g_fat_window s) (g_fat_window_rel s) (hint s).
Definition read_only_calls (r : option (list (list Z) * Service Disk.disk)) (l : list (Z * list Z)) : option (list (list Z) * Service Disk.disk) :=
  match r with Some (_, s) => calls (read_only s) l | None => None end.

(** A table with its two reserved entries. *)
Definition fresh_table : bytes := put16 (put16 (zeros 512) 0 0xfff8) 2 0xffff.
Definition fresh : Service Disk.disk := small_service fresh_table.

Definition a_txt : bytes := [97; 46; 116; 120; 116].
Definition sub : bytes := [115; 117; 98].
Definition hello : Z := 0x6f6c6c6548.

(** Five bytes written past the start of a new file, read back with zeros before
    them; a directory made, and the root listed. *)
Example an_exchange :
  replies (calls fresh
    [(volume.kMethodOpen, path_words a_txt ++ [volume.kOpenCreate]); (volume.kMethodWrite, [1; 600; 5; hello]);
     (volume.kMethodRead, path_words a_txt ++ [598; 20]); (volume.kMethodMkdir, path_words sub);
     (volume.kMethodList, path_words [] ++ [0]); (volume.kMethodList, path_words [] ++ [1]); (volume.kMethodList, path_words [] ++ [2])]) =
  Some [[1]; [5]; [7; 1; 0x6f6c6c65480000]; [1]; path_words a_txt ++ [605; volume.kKindFile; dos_to_unix 0 0];
        path_words sub ++ [0; volume.kKindDir; dos_to_unix 0 0]; []].
Proof. vm_compute. reflexivity. Qed.

(** [sub]'s parent entry says cluster 0 for the root, and a walk through it looks
    for the root's chain there.  Opening a file for reading by such a path takes
    a cluster and links it from the table's reserved first entry, on a volume
    that is not writable. *)
Example parent_open_writes :
  let made := calls fresh [(volume.kMethodMkdir, path_words sub)] in
  let opened := read_only_calls made [(volume.kMethodOpen, path_words (sub ++ [47; 46; 46; 47; 120]) ++ [volume.kOpenRead])] in
  replies opened = Some [[0]] /\
  (fun b => word16 b 0) <$> sector_after 1 made = Some 0xfff8 /\ (fun b => word16 b 0) <$> sector_after 1 opened = Some 3.
Proof. vm_compute. auto. Qed.

(** A directory whose cluster is full. *)
Definition full_sub : Service Disk.disk :=
  let table := put16 fresh_table 4 0xffff in
  let root := dirent_make_dir (sub ++ replicate 8 32) 2 ++ zeros 480 in
  service_on (Disk.mkDisk ([zeros 512; table; table; root; full_dir] ++ replicate 19 (zeros 512)) None []).

(** Opening for reading a name it does not have grows it, on a volume that is not
    writable. *)
Example missing_open_grows :
  let opened := calls (read_only full_sub) [(volume.kMethodOpen, path_words (sub ++ [47; 120]) ++ [volume.kOpenRead])] in
  replies opened = Some [[0]] /\ (fun b => word16 b 4) <$> sector_after 1 opened = Some 3.
Proof. vm_compute. auto. Qed.

(** A write at 2^41 is a write at 0: the cluster's number is cut to 32 bits, and
    so is the size the entry gets. *)
Example far_write_wraps :
  replies (calls fresh
    [(volume.kMethodOpen, path_words a_txt ++ [volume.kOpenCreate]); (volume.kMethodWrite, [1; 2 ^ 41; 5; hello]);
     (volume.kMethodRead, path_words a_txt ++ [0; 20])]) = Some [[1]; [5]; [5; 1; hello]].
Proof. vm_compute. reflexivity. Qed.

(** One cluster is free.  A file takes it; a write far past its end fails and
    writes nothing, and the next write's entry says the size that failed. *)
Definition nearly_full : Service Disk.disk := small_service (fold_left (fun b c => put16 b (c * 2) 0xffff) (seqZ 3 19) fresh_table).
Example failed_write_sizes :
  let r := calls nearly_full
    [(volume.kMethodOpen, path_words a_txt ++ [volume.kOpenCreate]); (volume.kMethodWrite, [1; 0; 5; hello]);
     (volume.kMethodWrite, [1; 5000; 5; hello]); (volume.kMethodWrite, [1; 0; 5; hello]); (volume.kMethodStat, path_words a_txt)] in
  replies r = Some [[1]; [5]; [0]; [5]; [volume.kKindFile; 5000; dos_to_unix 0 0; 2]] /\
  (fun b => word16 b 4) <$> sector_after 1 r = Some 0xffff.
Proof. vm_compute. auto. Qed.

(** A directory whose chain comes back to itself, full of entries: more turns
    than the volume has clusters do not end a search for another name. *)
Definition round_dir : Service Disk.disk :=
  let table := put16 fresh_table 4 2 in
  service_on (Disk.mkDisk ([zeros 512; table; table; zeros 512; full_dir] ++ replicate 19 (zeros 512)) None []).
Example round_search : find_in_dir (mkDir 2 false) (ByName [120]) round_dir = None.
Proof. vm_compute. reflexivity. Qed.

(** On FAT32 the parent entry of a directory in the root has the root's cluster. *)
Definition small32 : Service Disk.disk :=
  let table := put32 (zeros 512) 8 0x0fffffff in
  mkService (Disk.mkDisk ([zeros 512; table; table] ++ replicate 21 (zeros 512)) None []) (zeros 1024) 0 2 20 (24 * 512)
    (mkVolume 1 1 1 2 3 2 3 0 true) true (replicate 4 handle_zero) 0 [] (zeros 512) no_sector 2.
Example root_parent32 :
  (fun b => d_first_cluster (short_dirent (slice b 32 32))) <$> sector_after 4 (calls small32 [(volume.kMethodMkdir, path_words sub)]) = Some 2.
Proof. vm_compute. reflexivity. Qed.

(** A grant that ends before the data starts: the clusters are counted from the
    difference below zero. *)
Definition boot16 : bytes :=
  let b := put16 (set_byte (put16 (zeros 512) 11 512) 13 1) 14 1 in
  set_byte (set_byte (put16 (put32 (put16 (set_byte b 16 2) 17 16) 32 9000) 22 20) 510 0x55) 511 0xaa.
Example short_grant :
  (fun r => (r.1, g_cluster_count r.2)) <$> mount 10 4 (service_on (Disk.mkDisk (boot16 :: replicate 9 (zeros 512)) None [])) = Some (true, 2 ^ 32 - 32).
Proof. vm_compute. reflexivity. Qed.

(** A file cut to two bytes and grown again has the bytes it had before the
    cut. *)
Example regrown_old_bytes :
  replies (calls fresh
    [(volume.kMethodOpen, path_words a_txt ++ [volume.kOpenCreate]); (volume.kMethodWrite, [1; 0; 5; hello]);
     (volume.kMethodTruncate, path_words a_txt ++ [2]); (volume.kMethodTruncate, path_words a_txt ++ [5]);
     (volume.kMethodRead, path_words a_txt ++ [0; 20])]) = Some [[1]; [5]; [1]; [1]; [5; 1; hello]].
Proof. vm_compute. reflexivity. Qed.
