(* ===== verification/FatHandles.v ===== *)
(** Who holds what on a FAT volume (FatService.v): the handle table is the
    callers', each row its badge's, and a computation that only looks at the
    volume leaves the device alone.  Both are relations between the state before
    a call and after it that every step of a method keeps. *)
From stdpp Require Import base numbers list list_numbers.
From Stdlib Require Import ZArith Lia.
From S2P Require Import Prelude Layout Device Wire Fat FatVolume FatService FatTurns FatChains FatExamples.

(** * Relations kept *)

Section Keeping.
Context {D : Type} `{SectorDevice D}.
Implicit Types s : Service D.
Implicit Types R : Service D -> Service D -> Prop.

Lemma result_state {A} (x y : A) s s' : Some (x, s) = Some (y, s') -> s = s'.
Proof. congruence. Qed.

(** However a computation ends, it takes [s] to a state it relates to. *)
Definition keeps R {A} (m : M A) : Prop := forall s x s', m s = Some (x, s') -> R s s'.

(** A relation that looking at the volume keeps: the window, the kept sector of
    the table and the clock may change. *)
Class Looks R : Prop := {
  looks_refl : forall s, R s s;
  looks_trans : forall s1 s2 s3, R s1 s2 -> R s2 s3 -> R s1 s3;
  looks_window : forall s w, R s (with_window s w);
  looks_cache : forall s b rel, R s (with_cache s b rel);
  looks_clock : forall s l, R s (with_clock s l);
}.
(** One that writing to the volume keeps too. *)
Class Writes R : Prop := {
  writes_looks :: Looks R;
  writes_blk : forall s d, R s (with_blk s d);
  writes_hint : forall s h, R s (with_hint s h);
}.

Section Rules.
Context R `{!Looks R}.

Lemma keeps_ret {A} (x : A) : keeps R (mret x).
Proof. intros s y s' [= <- <-]. apply looks_refl. Qed.
Lemma keeps_get {A} (f : Service D -> A) : keeps R (mget f).
Proof. intros s y s' [= <- <-]. apply looks_refl. Qed.
Lemma keeps_stuck {A} : keeps R (@mstuck D A).
Proof. intros s y s' [=]. Qed.
Lemma keeps_bind {A B} (m : M A) (k : A -> M B) : keeps R m -> (forall x, keeps R (k x)) -> keeps R (mbind m k).
Proof.
  intros Hm Hk s y s' Hs. unfold mbind in Hs. destruct (m s) as [[x s1]|] eqn:E; [|discriminate]. apply (looks_trans s s1 s'); [now apply (Hm s x)|now apply (Hk x s1 y)].
Qed.
Lemma keeps_at {A} (m : Service D -> M A) : (forall s0, keeps R (m s0)) -> keeps R (fun s => m s s).
Proof. intros Hm s x s' Hs. now apply (Hm s s x). Qed.
Lemma keeps_window f : keeps R (in_window f).
Proof. intros s x s' [= <- <-]. apply looks_window. Qed.
Lemma keeps_slot i f : keeps R (in_slot i f).
Proof. apply keeps_window. Qed.
Lemma keeps_set_next c v : keeps R (window_set_next c v).
Proof. intros s x s' [= <- <-]. apply looks_window. Qed.
Lemma keeps_drop_cache : keeps R (mput (fun s => with_cache s (g_fat_window s) no_sector)).
Proof. intros s x s' [= <- <-]. apply looks_cache. Qed.
Lemma keeps_keep_cache rel : keeps R (mput (fun s => with_cache s (slice (g_window s) 0 kSectorBytes) rel)).
Proof. intros s x s' [= <- <-]. apply looks_cache. Qed.
Lemma keeps_now : keeps R now_seconds.
Proof. intros s x s' Hs. unfold now_seconds in Hs. destruct (g_clock s); injection Hs as <- <-; [apply looks_refl|apply looks_clock]. Qed.
Lemma keeps_read lba n : keeps R (read lba n).
Proof.
  intros s x s' Hs. unfold read in Hs. destruct (_ <? n); [apply result_state in Hs as <-; apply looks_refl|].
  destruct (read_sectors _ _ _); apply result_state in Hs as <-; [apply looks_window|apply looks_refl].
Qed.
Lemma keeps_lookup serial badge : keeps R (handle_lookup serial badge).
Proof. intros s x s' [= <- <-]. apply looks_refl. Qed.
End Rules.
End Keeping.

Create HintDb keeping.
#[export] Hint Resolve keeps_ret keeps_get keeps_stuck keeps_window keeps_slot keeps_set_next keeps_drop_cache keeps_keep_cache keeps_now keeps_read keeps_lookup @writes_looks : keeping.

(** A computation taken apart into its steps. *)
Ltac keep_step :=
  match goal with
  | |- keeps _ (mbind _ _) => apply keeps_bind; [eauto with keeping|..|intros]
  | |- keeps _ (if ?b then _ else _) => destruct b
  | |- keeps _ (match ?x with _ => _ end) => destruct x
  | |- keeps _ (let '_ := ?x in _) => destruct x
  end.
Ltac keep := repeat (intros; first [solve [eauto with keeping] | keep_step | progress cbv zeta beta]).

Section Looking.
Context {D : Type} `{SectorDevice D} {turns : Turns} (R : Service D -> Service D -> Prop) `{!Looks R}.

Lemma keeps_load c : keeps R (fat_load c).
Proof. unfold fat_load. keep. Qed.
Lemma keeps_sector c : keeps R (fat_sector c).
Proof. unfold fat_sector. keep. Qed.
Lemma keeps_next c : keeps R (fat_next c).
Proof. unfold fat_next. keep. Qed.
Lemma keeps_window_next c : keeps R (window_next c).
Proof. unfold window_next. keep. Qed.
#[local] Hint Resolve keeps_load keeps_sector keeps_next keeps_window_next : keeping.

Lemma keeps_search_root n : forall k want st, keeps R (search_root n k want st).
Proof. induction n as [|n IH]; intros; cbn [search_root]; keep. Qed.
Lemma keeps_search_chain n : forall c want st, keeps R (search_chain n c want st).
Proof. induction n as [|n IH]; intros; cbn [search_chain]; keep. Qed.
Lemma keeps_find dir want : keeps R (find_in_dir dir want).
Proof. intros s x s'. unfold find_in_dir. destruct (dir_is_root dir); [apply keeps_search_root|apply keeps_search_chain]. Qed.
#[local] Hint Resolve keeps_find : keeping.
Lemma keeps_walk_from n : forall path last dir stack, keeps R (walk_from n path last dir stack).
Proof. induction n as [|n IH]; intros; cbn [walk_from]; keep. Qed.
Lemma keeps_walk path last : keeps R (walk path last).
Proof. unfold walk. keep. apply keeps_walk_from. Qed.
Lemma keeps_short_root n : forall k name, keeps R (short_root n k name).
Proof. induction n as [|n IH]; intros; cbn [short_root]; keep. Qed.
Lemma keeps_short_chain n : forall c name, keeps R (short_chain n c name).
Proof. induction n as [|n IH]; intros; cbn [short_chain]; keep. Qed.
Lemma keeps_short_taken dir name : keeps R (dir_short_taken dir name).
Proof. intros s x s'. unfold dir_short_taken. destruct (dir_is_root dir); [apply keeps_short_root|apply keeps_short_chain]. Qed.
#[local] Hint Resolve keeps_short_taken : keeping.
Lemma keeps_free_alias n : forall dir name serial, keeps R (free_alias n dir name serial).
Proof. induction n as [|n IH]; intros; cbn [free_alias]; keep. Qed.
Lemma keeps_slot_sectors n : forall k a name free run, keeps R (slot_sectors n k a name free run).
Proof. induction n as [|n IH]; intros; cbn [slot_sectors]; keep. Qed.
Lemma keeps_slot_root n : forall k name free run, keeps R (slot_root n k name free run).
Proof. induction n as [|n IH]; intros; cbn [slot_root]; keep. Qed.
Lemma keeps_place_sectors n : forall k base count p, keeps R (place_sectors n k base count p).
Proof. induction n as [|n IH]; intros; cbn [place_sectors]; keep. Qed.
Lemma keeps_read_chain n : forall c position offset got acc, keeps R (read_chain n c position offset got acc).
Proof. induction n as [|n IH]; intros; cbn [read_chain]; keep. Qed.
Lemma keeps_read_into dirent offset wanted : keeps R (read_into dirent offset wanted).
Proof. unfold read_into. keep. apply keeps_read_chain. Qed.
#[local] Hint Resolve keeps_walk keeps_read_into : keeping.
Lemma keeps_serve_read stale dirent offset wanted : keeps R (serve_read stale dirent offset wanted).
Proof. unfold serve_read. keep. Qed.
Lemma keeps_handle_dirent serial badge : keeps R (handle_dirent serial badge).
Proof. unfold handle_dirent. keep. Qed.
#[local] Hint Resolve keeps_serve_read keeps_handle_dirent : keeping.
Lemma keeps_answer_read stale words : keeps R (answer_read stale words).
Proof. unfold answer_read. keep. Qed.
Lemma keeps_answer_read_handle stale words badge : keeps R (answer_read_handle stale words badge).
Proof. unfold answer_read_handle. keep. Qed.
Lemma keeps_answer_read_frame words badge frame : keeps R (answer_read_frame words badge frame).
Proof. unfold answer_read_frame. keep. Qed.
Lemma keeps_visible n : forall dir raw visible index, keeps R (visible_from n dir raw visible index).
Proof. induction n as [|n IH]; intros; cbn [visible_from]; keep. Qed.
Lemma keeps_visible_entry dir index : keeps R (visible_entry dir index).
Proof. intros s x s'. apply keeps_visible. Qed.
#[local] Hint Resolve keeps_visible_entry : keeping.
Lemma keeps_answer_list words : keeps R (answer_list words).
Proof. unfold answer_list. keep. Qed.
Lemma keeps_answer_stat words : keeps R (answer_stat words).
Proof. unfold answer_stat. keep. Qed.
Lemma keeps_count_free n : forall c held free, keeps R (count_free n c held free).
Proof. induction n as [|n IH]; intros; cbn [count_free]; keep. Qed.
Lemma keeps_answer_space : keeps R answer_space.
Proof. unfold answer_space, free_cluster_count. keep. apply keeps_count_free. Qed.
Lemma keeps_empty_chain n : forall c run, keeps R (empty_chain n c run).
Proof. induction n as [|n IH]; intros; cbn [empty_chain]; keep. Qed.
Lemma keeps_dir_is_empty c : keeps R (dir_is_empty c).
Proof. intros s x s'. apply keeps_empty_chain. Qed.
Lemma keeps_handle_names sector index : keeps R (handle_names sector index).
Proof. unfold handle_names. keep. Qed.
End Looking.
#[export] Hint Resolve keeps_load keeps_sector keeps_next keeps_window_next keeps_find keeps_walk keeps_short_taken keeps_free_alias keeps_slot_sectors
  keeps_slot_root keeps_place_sectors keeps_read_into keeps_serve_read keeps_handle_dirent keeps_answer_read keeps_answer_read_handle keeps_answer_read_frame
  keeps_answer_list keeps_answer_stat keeps_answer_space keeps_dir_is_empty keeps_handle_names : keeping.

Section Writing.
Context {D : Type} `{SectorDevice D} {turns : Turns} (R : Service D -> Service D -> Prop) `{!Writes R}.

Lemma keeps_write_back lba n : keeps R (write_back lba n).
Proof.
  intros s x s' Hs. unfold write_back in Hs. destruct (_ <? n); [apply result_state in Hs as <-; apply looks_refl|].
  destruct (write_sectors _ _ _ _) as [ok d]. apply result_state in Hs as <-. apply writes_blk.
Qed.
Lemma keeps_hint f : keeps R (mput (fun s : Service D => with_hint s (f s))).
Proof. intros s x s' Hs. apply result_state in Hs as <-. apply writes_hint. Qed.
Lemma keeps_new_hint h : keeps R (mput (fun s : Service D => with_hint s h)).
Proof. apply (keeps_hint (fun _ => h)). Qed.
#[local] Hint Resolve keeps_write_back keeps_new_hint : keeping.
Lemma keeps_stamp sector index : keeps R (stamp_slot sector index).
Proof. unfold stamp_slot. keep. Qed.
Lemma keeps_store_copies n : forall f rel, keeps R (store_copies n f rel).
Proof. induction n as [|n IH]; intros; cbn [store_copies]; keep. Qed.
#[local] Hint Resolve keeps_stamp keeps_store_copies : keeping.
Lemma keeps_store c v : keeps R (fat_store c v).
Proof. unfold fat_store. keep. Qed.
Lemma keeps_zero c : keeps R (zero_cluster c).
Proof. unfold zero_cluster. keep. Qed.
#[local] Hint Resolve keeps_store keeps_zero : keeping.
Lemma keeps_alloc_scan n : forall i held, keeps R (alloc_scan n i held).
Proof. induction n as [|n IH]; intros; cbn [alloc_scan]; keep. Qed.
Lemma keeps_alloc : keeps R alloc_cluster.
Proof. unfold alloc_cluster. keep. apply keeps_alloc_scan. Qed.
#[local] Hint Resolve keeps_alloc : keeping.
Lemma keeps_free_loop n : forall c, keeps R (free_loop n c).
Proof. induction n as [|n IH]; intros; cbn [free_loop]; keep. Qed.
Lemma keeps_chain_free c : keeps R (chain_free c).
Proof. intros s x s'. apply keeps_free_loop. Qed.
Lemma keeps_seek_loop n : forall c, keeps R (seek_loop n c).
Proof. induction n as [|n IH]; intros; cbn [seek_loop]; keep. Qed.
#[local] Hint Resolve keeps_chain_free keeps_seek_loop : keeping.
Lemma keeps_seek cursor first : keeps R (chain_seek cursor first).
Proof. unfold chain_seek. keep. Qed.
Lemma keeps_extend n : forall c, keeps R (extend_loop n c).
Proof. induction n as [|n IH]; intros; cbn [extend_loop]; keep. Qed.
Lemma keeps_cut_after c : keeps R (cut_after c).
Proof. unfold cut_after. keep. Qed.
#[local] Hint Resolve keeps_seek keeps_extend keeps_cut_after : keeping.
Lemma keeps_truncate first size : keeps R (chain_truncate first size).
Proof. unfold chain_truncate. keep. Qed.

Lemma keeps_slot_or_grow last free : keeps R (slot_or_grow last free).
Proof. unfold slot_or_grow. keep. Qed.
#[local] Hint Resolve keeps_slot_or_grow keeps_truncate : keeping.
Lemma keeps_slot_chain n : forall c last name free run, keeps R (slot_chain n c last name free run).
Proof. induction n as [|n IH]; intros; cbn [slot_chain]; keep. Qed.
Lemma keeps_dir_slot dir name : keeps R (dir_slot dir name).
Proof. intros s x s'. unfold dir_slot. destruct (dir_is_root dir); [eapply keeps_slot_root, _|apply keeps_slot_chain]. Qed.
Lemma keeps_place_chain n : forall c count p, keeps R (place_chain n c count p).
Proof. induction n as [|n IH]; intros; cbn [place_chain]; keep. Qed.
Lemma keeps_place_at f c count p : keeps R (fun s : Service D => place_chain (f s) c count p s).
Proof. intros s x s'. apply keeps_place_chain. Qed.
Lemma keeps_put_slots slots : forall run, keeps R (put_slots slots run).
Proof. induction slots as [|slot slots IH]; intros [|[sector index] run]; cbn [put_slots]; keep. Qed.
#[local] Hint Resolve keeps_dir_slot keeps_place_at keeps_put_slots : keeping.
Lemma keeps_dir_place dir slots : keeps R (dir_place dir slots).
Proof. unfold dir_place. keep. Qed.
#[local] Hint Resolve keeps_dir_place : keeping.
Lemma keeps_dir_create dir name directory cluster nbytes : keeps R (dir_create dir name directory cluster nbytes).
Proof. unfold dir_create. keep. Qed.
Lemma keeps_fill_window i data : keeps R (@fill_window D i data).
Proof. apply keeps_window. eauto with keeping. Qed.
#[local] Hint Resolve keeps_dir_create keeps_fill_window : keeping.
Lemma keeps_write_part c cursor rest : keeps R (write_part c cursor rest).
Proof. unfold write_part. keep. Qed.
#[local] Hint Resolve keeps_write_part : keeping.
Lemma keeps_write_loop n : forall data written h, keeps R (write_loop n data written h).
Proof. induction n as [|n IH]; intros; cbn [write_loop]; keep. Qed.
Lemma keeps_update_dirent h : keeps R (update_dirent h).
Proof. unfold update_dirent. keep. Qed.
#[local] Hint Resolve keeps_write_loop keeps_update_dirent : keeping.
Lemma keeps_write_bytes h data : keeps R (write_bytes h data).
Proof. unfold write_bytes. keep. Qed.
Lemma keeps_open_existing dirent sector index flags : keeps R (open_existing dirent sector index flags).
Proof. unfold open_existing. keep. Qed.
Lemma keeps_fresh_dir parent : keeps R (fresh_dir parent).
Proof. unfold fresh_dir. keep. Qed.
#[local] Hint Resolve keeps_fresh_dir : keeping.
Lemma keeps_make_dirs_from n : forall path dir stack, keeps R (make_dirs_from n path dir stack).
Proof. induction n as [|n IH]; intros; cbn [make_dirs_from]; keep. Qed.
Lemma keeps_make_dirs path : keeps R (make_dirs path).
Proof. unfold make_dirs. keep. apply keeps_make_dirs_from. Qed.
#[local] Hint Resolve keeps_make_dirs : keeping.
Lemma keeps_answer_mkdir words : keeps R (answer_mkdir words).
Proof. unfold answer_mkdir. keep. Qed.
Lemma keeps_delete_fragments n : forall k lfn, keeps R (delete_fragments n k lfn).
Proof. induction n as [|n IH]; intros; cbn [delete_fragments]; keep. Qed.
#[local] Hint Resolve keeps_delete_fragments : keeping.
Lemma keeps_mark_deleted sector index lfn : keeps R (mark_deleted sector index lfn).
Proof. unfold mark_deleted. keep. Qed.
#[local] Hint Resolve keeps_mark_deleted : keeping.
Lemma keeps_answer_remove words : keeps R (answer_remove words).
Proof. unfold answer_remove. keep. Qed.
Lemma keeps_answer_rename words : keeps R (answer_rename words).
Proof. unfold answer_rename. keep. Qed.
End Writing.
#[export] Hint Resolve keeps_write_back keeps_stamp keeps_truncate keeps_dir_slot keeps_dir_create keeps_write_bytes keeps_open_existing keeps_answer_mkdir
  keeps_answer_remove keeps_answer_rename : keeping.

(** * The handle table as a state machine *)

(** The file a truncate call names, as the call finds it: its path walked, its
    slot, the size asked for and the first cluster of the chain cut or grown to
    that size. *)
Record truncates {D} `{SectorDevice D} {turns : Turns} (words : list Z) (s : Service D) (sector index first size : Z) : Prop := mkTruncates {
  tr_writable : g_writable s = true;
  tr_size : size <= 0xffffffff;
  tr_file : exists path n dir last s1 dirent lfn s2 s3,
    path_of words = Some (path, n) /\ size = word words n /\ walk path false s = Some (Some (dir, last), s1) /\
    dir_slot dir last s1 = Some (Found dirent sector index lfn, s2) /\ d_directory dirent = false /\
    chain_truncate (d_first_cluster dirent) size s2 = Some ((true, first), s3);
}.

Section Same.
Context {D : Type} `{SectorDevice D}.
Implicit Types s : Service D.

(** The handles and whether the volume is writable are as they were. *)
Definition same_table s s' : Prop := g_handles s' = g_handles s /\ g_handle_serial s' = g_handle_serial s /\ g_writable s' = g_writable s.
#[export] Instance same_table_looks : Looks same_table.
Proof. split; unfold same_table; auto. intros s1 s2 s3 (? & ? & ?) (? & ? & ?). splits; congruence. Qed.
#[export] Instance same_table_writes : Writes same_table.
Proof. split; [apply _|unfold same_table; auto..]. Qed.
End Same.
#[export] Hint Resolve same_table_looks same_table_writes : keeping.

Section Table.
Context {D : Type} `{SectorDevice D} {turns : Turns}.
Implicit Types s : Service D.

Section Steps.
(** The slots a truncate resizes the handles of, with the new first cluster and
    size. *)
Context (resizes : Z -> Z -> Z -> Z -> Prop).

Definition same_place (h h' : Handle) : Prop :=
  h_serial h' = h_serial h /\ h_badge h' = h_badge h /\ h_kind h' = h_kind h /\ h_dirent_sector h' = h_dirent_sector h /\ h_dirent_index h' = h_dirent_index h.

(** What a call does with the rows and the last serial: nothing; fill a free row
    for the caller; move the caller's own handle, or close it; drop a badge's;
    or resize those on one slot. *)
Inductive table_step (writable : bool) (badge method : Z) (words : list Z) (serial : Z) (rows : list Handle) : Z -> list Handle -> Prop :=
  | step_none : table_step writable badge method words serial rows serial rows
  | step_open j h0 h :
      method = volume.kMethodOpen -> rows !! j = Some h0 -> h_serial h0 = 0 ->
      h_serial h = u64 (serial + 1) -> h_badge h = badge -> (h_kind h = kHandleFile -> writable = true) ->
      table_step writable badge method words serial rows (u64 (serial + 1)) (<[j := h]> rows)
  | step_write j h h' :
      method = volume.kMethodWrite \/ method = volume.kMethodWriteFrame -> rows !! j = Some h ->
      h_serial h <> 0 -> h_badge h = badge -> h_kind h = kHandleFile -> same_place h h' ->
      table_step writable badge method words serial rows serial (<[j := h']> rows)
  | step_close j h :
      method = volume.kMethodClose -> rows !! j = Some h -> h_serial h <> 0 -> h_badge h = badge ->
      table_step writable badge method words serial rows serial (<[j := closed h]> rows)
  | step_reap :
      method = volume.kMethodReap ->
      table_step writable badge method words serial rows serial
        (map (fun h => if negb (h_serial h =? 0) && (h_badge h =? word words 0) then closed h else h) rows)
  | step_truncate sector index first size :
      method = volume.kMethodTruncate -> writable = true -> resizes sector index first size ->
      table_step writable badge method words serial rows serial (map (resized sector index first size) rows).

Definition stepped_table badge method words s s' : Prop :=
  table_step (g_writable s) badge method words (g_handle_serial s) (g_handles s) (g_handle_serial s') (g_handles s') /\ g_writable s' = g_writable s.

(** A computation on a volume that is writable or not does one step. *)
Definition steps (w : bool) badge method words {A} (m : M A) : Prop :=
  forall s x s', g_writable s = w -> m s = Some (x, s') -> stepped_table badge method words s s'.

Lemma step_same w badge method words {A} (m : M A) : keeps same_table m -> steps w badge method words m.
Proof. intros Hm s x s' _ Hs. destruct (Hm s x s' Hs) as (E1 & E2 & Hw). split; [rewrite E1, E2; apply step_none|exact Hw]. Qed.
Lemma step_then w badge method words {A B} (m : M A) (k : A -> M B) :
  keeps same_table m -> (forall x, steps w badge method words (k x)) -> steps w badge method words (mbind m k).
Proof.
  intros Hm Hk s y s' Hw Hs. unfold mbind in Hs. destruct (m s) as [[x s1]|] eqn:E; [|discriminate]. destruct (Hm s x s1 E) as (E1 & E2 & E3).
  destruct (Hk x s1 y s' ltac:(congruence) Hs) as [Ht Hw']. rewrite E1, E2, E3 in Ht. split; [exact Ht|congruence].
Qed.
Lemma step_writable w badge method words {B} (k : bool -> M B) : steps w badge method words (k w) -> steps w badge method words (mbind (mget g_writable) k).
Proof. intros Hk s y s' <- Hs. now apply (Hk s y). Qed.
Lemma step_last w badge method words {A B} (m : M A) (f : A -> B) :
  steps w badge method words m -> steps w badge method words (mbind m (fun x => mret (f x))).
Proof.
  intros Hm s y s' Hw Hs. unfold mbind in Hs. destruct (m s) as [[x s1]|] eqn:E; [|discriminate]. apply result_state in Hs as <-. now apply (Hm s x).
Qed.

Lemma first_row_lookup (test : Handle -> bool) (rows : list Handle) j : first_row test rows = Some j -> exists h, rows !! j = Some h /\ test h = true.
Proof.
  unfold first_row. destruct (list_find _ rows) as [[k h]|] eqn:E; [|discriminate]. intros [= <-]. apply list_find_Some in E as (E1 & E2 & _).
  exists h. split; [exact E1|]. now apply Is_true_eq_true.
Qed.
Lemma row_at_lookup s j h : g_handles s !! j = Some h -> row_at s j = h.
Proof. intros Hj. unfold row_at. now apply nth_lookup_Some. Qed.

(** A handle looked up is a live row of the badge. *)
Lemma lookup_row serial badge s j s' :
  handle_lookup serial badge s = Some (Some j, s') -> exists h, g_handles s !! j = Some h /\ h_serial h = serial /\ serial <> 0 /\ h_badge h = badge.
Proof.
  unfold handle_lookup. destruct (Z.eqb_spec serial 0) as [|Hne]; [discriminate|]. destruct (first_row _ _) as [k|] eqn:E; [|discriminate].
  apply first_row_lookup in E as (h & Hk & Hh). rewrite (row_at_lookup s k h Hk). destruct (Z.eqb_spec (h_badge h) badge) as [Hb|]; [|discriminate].
  intros [= <- <-]. exists h. apply Z.eqb_eq in Hh. auto.
Qed.

(** The row changed at a handle's place. *)
Lemma row_insert s j h h' n : g_handles s !! j = Some h -> row_at (with_handles s (<[j := h']> (g_handles s)) n) j = h'.
Proof. intros Hj. apply row_at_lookup, list_lookup_insert_eq, (lookup_lt_Some _ _ _ Hj). Qed.

Lemma open_row_step w badge words size sector index first kind :
  (kind = kHandleFile -> w = true) -> steps w badge volume.kMethodOpen words (@open_row D badge size sector index first kind).
Proof.
  intros Hk s x s' Hw. unfold open_row, handle_alloc. cbv beta iota zeta delta [mbind mret mget put_row mput]. destruct (first_row _ _) as [j|] eqn:E.
  2:{ intros Hs. apply result_state in Hs as <-. split; [apply step_none|reflexivity]. }
  apply first_row_lookup in E as (h0 & Hj & Hh). apply Z.eqb_eq in Hh. intros Hs. apply result_state in Hs as <-.
  rewrite (row_insert s j h0) by exact Hj. split; [|reflexivity]. cbn [g_handles g_handle_serial with_handles h_serial h_badge]. rewrite list_insert_insert_eq.
  subst w. eapply step_open; eauto.
Qed.

(** A method that looks and writes, then fills a row. *)
Ltac table_keep :=
  repeat (intros; first
    [ solve [apply step_same; keep]
    | solve [apply open_row_step; first [congruence | discriminate]]
    | match goal with
      | |- steps _ _ _ _ (mbind (mget g_writable) _) => apply step_writable
      | |- steps _ _ _ _ (mbind _ _) => apply step_then; [solve [keep]|intros]
      | |- steps _ _ _ _ (if negb ?w then _ else _) => is_var w; destruct w; cbn [negb]
      | |- steps _ _ _ _ (if negb ?w || _ then _ else _) => is_var w; destruct w; cbn [negb orb]
      | |- steps _ _ _ _ (if ?b then _ else _) => destruct b
      | |- steps _ _ _ _ (match ?x with _ => _ end) => destruct x
      end
    | progress cbv zeta beta ]).

Lemma answer_open_step w badge words : steps w badge volume.kMethodOpen words (@answer_open D _ _ words badge).
Proof. unfold answer_open. table_keep. Qed.

(** Writing moves a handle and may grow its file; it stays the handle it is. *)
Lemma write_loop_place n : forall data written h s x h' s', write_loop n data written h s = Some ((x, h'), s') -> same_place h h'.
Proof.
  induction n as [|n IH]; intros data written h s x h' s'; cbn [write_loop]; [discriminate|]. cbv beta iota zeta delta [mbind mret].
  destruct (_ <=? written); [intros [= <- <- <-]; now split|]. destruct (chain_seek _ _ s) as [[seek s1]|]; [|discriminate].
  destruct (seek.1 =? 0); [intros [= <- <- <-]; now split|]. destruct (write_part _ _ _ s1) as [[part s2]|]; [|discriminate].
  destruct part.2; [intros Hs; exact (IH _ _ _ _ _ _ _ Hs)|intros [= <- <- <-]; now split].
Qed.
Lemma write_bytes_place h data s x h' s' : write_bytes h data s = Some ((x, h'), s') -> same_place h h'.
Proof.
  unfold write_bytes. cbv beta iota zeta delta [mbind mret]. destruct (write_loop _ data 0 h s) as [[[n h1] s1]|] eqn:E; [|discriminate].
  apply write_loop_place in E. match goal with |- match ?m with _ => _ end = _ -> _ => destruct m as [[u s2]|]; [|discriminate] end. intros [= _ <- _]. now destruct (h_size h1 <? h_cursor h1).
Qed.

(** The caller's own row written to, once the handle was looked up. *)
Lemma write_row_step w badge method words j cursor data :
  method = volume.kMethodWrite \/ method = volume.kMethodWriteFrame -> forall s x s' h,
  g_writable s = w -> g_handles s !! j = Some h -> h_serial h <> 0 -> h_badge h = badge -> h_kind h = kHandleFile ->
  (let* r := write_bytes (with_cursor h cursor) data in put_row j r.2 ;; mret [r.1]) s = Some (x, s') -> stepped_table badge method words s s'.
Proof.
  intros Hm s x s' h Hw Hj Hs Hb Hk. cbv beta iota zeta delta [mbind mret put_row mput].
  destruct (write_bytes _ data s) as [[[n h'] s1]|] eqn:E; [|discriminate]. intros Hr. apply result_state in Hr as <-.
  assert (Hkeep : same_table s s1) by (refine (keeps_write_bytes same_table _ _ s _ s1 E)). destruct Hkeep as (E1 & E2 & E3).
  split; [|exact E3]. cbn [g_handles g_handle_serial with_handles fst snd]. rewrite E1, E2. eapply step_write; eauto.
  apply write_bytes_place in E. exact E.
Qed.

(** A method that starts by looking a handle up. *)
Lemma step_lookup w badge method words serial {B} (k : option nat -> M B) :
  steps w badge method words (k None) ->
  (forall j s x s' h, g_writable s = w -> g_handles s !! j = Some h -> h_serial h <> 0 -> h_badge h = badge -> k (Some j) s = Some (x, s') ->
     stepped_table badge method words s s') ->
  steps w badge method words (mbind (handle_lookup serial badge) k).
Proof.
  intros Hnone Hrow s x s' Hw Hs. unfold mbind in Hs. destruct (handle_lookup serial badge s) as [[[j|] s1]|] eqn:E; [| |discriminate].
  - pose proof (lookup_row _ _ _ _ _ E) as (h & Hj & Hh & Hne & Hb). assert (s1 = s) as -> by (symmetry; exact (result_state _ _ _ _ E)).
    apply (Hrow j s x s' h); auto. congruence.
  - assert (s1 = s) as -> by (symmetry; exact (result_state _ _ _ _ E)). now apply (Hnone s x).
Qed.

Lemma answer_write_step w badge words : steps w badge volume.kMethodWrite words (@answer_write D _ words badge).
Proof.
  unfold answer_write. destruct (_ <? 3); [table_keep|]. apply step_lookup; [table_keep|]. intros j s x s' h Hw Hj Hs Hb. unfold mbind at 1, mget.
  rewrite (row_at_lookup s j h Hj). destruct (Z.eqb_spec (h_kind h) kHandleFile) as [Hk|Hk]; cbn [negb orb].
  - destruct (_ || _); [intros Hr; apply result_state in Hr as <-; split; [apply step_none|reflexivity]|].
    intros Hr. eapply (write_row_step w); eauto.
  - intros Hr. apply result_state in Hr as <-. split; [apply step_none|reflexivity].
Qed.
Lemma answer_write_frame_step w badge words frame : steps w badge volume.kMethodWriteFrame words (@answer_write_frame D _ words badge frame).
Proof.
  unfold answer_write_frame. destruct (_ <? 4); [table_keep|]. apply step_lookup; [table_keep|]. intros j s x s' h Hw Hj Hs Hb.
  destruct frame as [| |contents]; try (intros Hr; apply result_state in Hr as <-; split; [apply step_none|reflexivity]). unfold mbind at 1, mget.
  rewrite (row_at_lookup s j h Hj). destruct (Z.eqb_spec (h_kind h) kHandleFile) as [Hk|Hk]; cbn [negb orb].
  - destruct (_ <=? _); [intros Hr; apply result_state in Hr as <-; split; [apply step_none|reflexivity]|].
    intros Hr. eapply (write_row_step w); eauto.
  - intros Hr. apply result_state in Hr as <-. split; [apply step_none|reflexivity].
Qed.
Lemma answer_close_step w badge words : steps w badge volume.kMethodClose words (@answer_close D words badge).
Proof.
  unfold answer_close. destruct (_ <? 1); [table_keep|]. apply step_lookup; [table_keep|]. intros j s x s' h Hw Hj Hs Hb Hr.
  cbv beta iota zeta delta [mbind mget put_row mput mret] in Hr. apply result_state in Hr as <-. rewrite (row_at_lookup s j h Hj).
  split; [|reflexivity]. now apply step_close.
Qed.
Lemma answer_reap_step w badge words : steps w badge volume.kMethodReap words (@answer_reap D words).
Proof.
  unfold answer_reap. destruct (_ <? 1); [table_keep|]. intros s x s' Hw Hr. cbv beta iota zeta delta [mbind handle_reap mret] in Hr.
  apply result_state in Hr as <-. split; [|reflexivity]. now apply step_reap.
Qed.
(** Every call but a truncate is a step of the table, whatever truncates do. *)
Lemma serve_step w stale method words badge frame : method <> volume.kMethodTruncate -> steps w badge method words (@serve D _ _ stale method words badge frame).
Proof.
  intros Hmethod.
  assert (Hplain : forall m : M (list Z), steps w badge method words m -> steps w badge method words (let* r := m in mret (r, frame)))
    by (intros m Hm; now apply (step_last w badge method words m (fun r => (r, frame)))).
  unfold serve. cbv zeta.
  repeat match goal with
  | |- steps _ _ _ _ (if ?a =? ?b then _ else _) => destruct (Z.eqb_spec a b) as [E|_]; [try contradiction; subst method|]
  | |- steps _ _ _ _ (if ?b then _ else _) => destruct b
  end;
  first [ apply Hplain; first
            [ apply answer_open_step | apply answer_write_step | apply answer_write_frame_step | apply answer_close_step
            | apply answer_reap_step | solve [apply step_same; keep] ]
        | solve [apply step_same; keep] ].
Qed.

(** A computation run at [s], with the table as it was at [s0]. *)
Definition steps_from badge method words s0 s {A} (m : M A) : Prop :=
  same_table s0 s -> forall x s', m s = Some (x, s') -> stepped_table badge method words s0 s'.
Lemma from_bind badge method words s0 s {A B} (m : M A) (k : A -> M B) :
  keeps same_table m -> (forall x s1, m s = Some (x, s1) -> steps_from badge method words s0 s1 (k x)) -> steps_from badge method words s0 s (mbind m k).
Proof.
  intros Hm Hk Ht y s' Hs. unfold mbind in Hs. destruct (m s) as [[x s1]|] eqn:E; [|discriminate].
  apply (Hk x s1 eq_refl) with y; [|exact Hs]. now apply (looks_trans s0 s s1), (Hm s x).
Qed.
Lemma from_ret badge method words s0 s {A} (x : A) : steps_from badge method words s0 s (mret x).
Proof. intros (E1 & E2 & E3) y s' Hs. apply result_state in Hs as <-. split; [rewrite E1, E2; apply step_none|exact E3]. Qed.
Lemma from_resize badge words s0 s sector index first size :
  g_writable s0 = true -> resizes sector index first size ->
  steps_from badge volume.kMethodTruncate words s0 s (@handles_resize D sector index first size ;; mret [1]).
Proof.
  intros Hw Hr (E1 & E2 & E3) x s' Hs. cbv beta iota zeta delta [mbind handles_resize mput mret] in Hs. apply result_state in Hs as <-.
  split; [|exact E3]. cbn [g_handles g_handle_serial with_handles]. rewrite E1, E2. now apply step_truncate.
Qed.
End Steps.

(** A method taken apart with what its steps returned. *)
Ltac from_keep :=
  repeat first
    [ apply from_ret
    | match goal with
      | |- steps_from _ _ _ _ _ _ (mbind _ _) => apply from_bind; [solve [keep]|intros ? ? ?]
      | |- steps_from _ _ _ _ _ _ (if ?b then _ else _) => destruct b eqn:?
      | |- steps_from _ _ _ _ _ _ (match ?x with _ => _ end) => destruct x eqn:?
      end
    | progress cbv zeta beta ].

(** A truncate resizes the handles on the file it names. *)
Lemma answer_truncate_step words badge s x s' :
  answer_truncate words s = Some (x, s') -> stepped_table (truncates words s) badge volume.kMethodTruncate words s s'.
Proof.
  enough (Hf : steps_from (truncates words s) badge volume.kMethodTruncate words s s (answer_truncate words)) by (apply Hf, looks_refl).
  unfold answer_truncate. from_keep.
  match goal with H : mget g_writable s = Some (?w, _), E : negb ?w || _ = false |- _ => injection H as <- <-; apply orb_false_iff in E as [Hw Hsize] end.
  match goal with H : chain_truncate _ _ _ = Some (?r, _), E : negb ?r.1 = false |- _ => destruct r as [ok first]; apply negb_false_iff in E; cbn in E; subst ok end.
  apply negb_false_iff in Hw. apply Z.ltb_ge in Hsize. apply from_resize; [exact Hw|]. split; [exact Hw|exact Hsize|]. do 9 eexists. splits; eauto.
Qed.
Lemma serve_steps stale method words badge frame s r s' :
  serve stale method words badge frame s = Some (r, s') -> stepped_table (truncates words s) badge method words s s'.
Proof.
  destruct (decide (method = volume.kMethodTruncate)) as [->|Hm]; [|exact (serve_step _ (g_writable s) stale method words badge frame Hm s r s' eq_refl)].
  unfold serve. cbn -[answer_truncate mbind]. unfold mbind. destruct (answer_truncate words s) as [[x s1]|] eqn:E; [|discriminate]. intros Hs.
  apply result_state in Hs as <-. exact (answer_truncate_step words badge s x s1 E).
Qed.
End Table.

Section Calls.
Context {D : Type} `{SectorDevice D}.
Implicit Types s : Service D.

(** ** What the steps keep *)

(** States a number of calls that end lead to, whoever makes them. *)
Inductive reached s : nat -> Service D -> Prop :=
  | reached_start : reached s 0 s
  | reached_call n s1 s2 stale method words badge frame r :
      reached s n s1 -> serves stale method words badge frame s1 r s2 -> reached s (S n) s2.

Lemma resized_place sector index first size h : same_place h (resized sector index first size h).
Proof. unfold resized. now destruct (names_slot sector index h). Qed.

(** Serials only grow, and a row's serial is the one it had, or none, or new. *)
Lemma step_serials resizes w badge method words serial rows serial' rows' x :
  table_step resizes w badge method words serial rows serial' rows' -> 0 < x <= serial -> serial + 1 < 2 ^ 64 ->
  Forall (fun h => h_serial h <> x) rows -> serial <= serial' <= serial + 1 /\ Forall (fun h => h_serial h <> x) rows'.
Proof.
  intros Hstep Hx Hb Hr. destruct Hstep as [|j h0 h Hm Hj H0 Hs Hbd Hk|j h h' Hm Hj H0 Hbd Hk Hp|j h Hm Hj H0 Hbd|Hm|sector index first size Hm Hw Hr'].
  - split; [lia|exact Hr].
  - rewrite u64_small in * by lia. split; [lia|]. apply Forall_insert; [exact Hr|lia].
  - split; [lia|]. apply Forall_insert; [exact Hr|]. rewrite Forall_lookup in Hr. destruct Hp as [-> _]. now apply (Hr j).
  - split; [lia|]. apply Forall_insert; [exact Hr|]. cbn. lia.
  - split; [lia|]. apply Forall_map. eapply Forall_impl; [exact Hr|]. intros h Hh. destruct (_ && _); [cbn; lia|exact Hh].
  - split; [lia|]. apply Forall_map. eapply Forall_impl; [exact Hr|]. intros h Hh. destruct (resized_place sector index first size h) as [E _]. cbn. now rewrite E.
Qed.
Lemma reached_serials s n s' x :
  reached s n s' -> 0 < x <= g_handle_serial s -> g_handle_serial s + Z.of_nat n < 2 ^ 64 -> Forall (fun h => h_serial h <> x) (g_handles s) ->
  g_handle_serial s <= g_handle_serial s' <= g_handle_serial s + Z.of_nat n /\ Forall (fun h => h_serial h <> x) (g_handles s').
Proof.
  intros Hreach Hx. induction Hreach as [|n s1 s2 stale method words badge frame r Hreach IH Hs]; intros Hb Hr; [split; [lia|exact Hr]|].
  destruct (IH ltac:(lia) Hr) as [H1 H2]. destruct Hs as [turns Hs]. apply serve_steps in Hs as [Hs _].
  destruct (step_serials _ _ _ _ _ _ _ _ _ x Hs ltac:(lia) ltac:(lia) H2) as [H3 H4]. split; [lia|exact H4].
Qed.

(** C23: a handle that was closed or dropped is never one again.  After any number
    of calls that end, by whatever callers, with whatever turns their walks take,
    while the serials last, no row has its serial, so looking it up finds
    nothing, for any badge. *)
Theorem stale_handle_refused s n s' x badge :
  reached s n s' -> 0 < x <= g_handle_serial s -> g_handle_serial s + Z.of_nat n < 2 ^ 64 -> Forall (fun h => h_serial h <> x) (g_handles s) ->
  handle_lookup x badge s' = Some (None, s').
Proof.
  intros Hreach Hx Hb Hr. destruct (reached_serials s n s' x Hreach Hx Hb Hr) as [_ Hr'].
  unfold handle_lookup. rewrite (proj2 (Z.eqb_neq x 0)) by lia. destruct (first_row _ _) as [j|] eqn:E; [|reflexivity].
  apply first_row_lookup in E as (h & Hj & Hh). apply Z.eqb_eq in Hh. rewrite Forall_lookup in Hr'. destruct (Hr' j h Hj Hh).
Qed.

(** C24: a call that ends leaves every other badge's open handles alone.  The
    exceptions are the two the protocol has: dropping that badge's handles, and
    a truncate, on a writable volume, of the file the handle is open on, the one
    at the slot the call's path leads to.  It gives the handle the size asked
    for and the first cluster of the new chain, and brings its cursor back to
    the end if it was past it. *)
Theorem handles_private {turns : Turns} stale method words badge frame s r s' j h :
  serve stale method words badge frame s = Some (r, s') -> g_handles s !! j = Some h -> h_serial h <> 0 -> h_badge h <> badge ->
  (method = volume.kMethodReap -> word words 0 <> h_badge h) ->
  g_handles s' !! j = Some h \/
  method = volume.kMethodTruncate /\ exists first size,
    truncates words s (h_dirent_sector h) (h_dirent_index h) first size /\
    g_handles s' !! j =
      Some (mkHandle (h_serial h) (h_badge h) (Z.min (h_cursor h) size) size (h_dirent_sector h) (h_dirent_index h) first (h_kind h)).
Proof.
  intros Hs Hj Hl Hne Hreap. apply serve_steps in Hs as [Hs _].
  destruct Hs as [|k h0 h1 Hm Hk H0 Hs Hbd Hkind|k h1 h' Hm Hk H0 Hbd Hkind Hp|k h1 Hm Hk H0 Hbd|Hm|sector index first size Hm Hw Ht]; [now left|..].
  - left. rewrite list_lookup_insert_ne; [exact Hj|]. intros ->. congruence.
  - left. rewrite list_lookup_insert_ne; [exact Hj|]. intros ->. congruence.
  - left. rewrite list_lookup_insert_ne; [exact Hj|]. intros ->. congruence.
  - left. rewrite list_lookup_fmap, Hj. cbn. rewrite (proj2 (Z.eqb_neq (h_badge h) _)) by (intros E; now apply Hreap). now rewrite andb_false_r.
  - rewrite list_lookup_fmap, Hj. cbn [fmap option_fmap option_map]. unfold resized. destruct (names_slot sector index h) eqn:E; [right|now left].
    unfold names_slot in E. breflect. subst sector index. split; [exact Hm|]. exists first, size. split; [exact Ht|].
    do 2 f_equal. destruct (Z.ltb_spec size (h_cursor h)); lia.
Qed.

(** ** A volume that is not written *)

(** Nobody may write: the volume is not writable and no open handle is for
    writing. *)
Definition nobody_writes s : Prop := g_writable s = false /\ Forall (fun h => h_serial h <> 0 -> h_kind h <> kHandleFile) (g_handles s).

Lemma step_read_only resizes badge method words serial rows serial' rows' :
  table_step resizes false badge method words serial rows serial' rows' ->
  Forall (fun h => h_serial h <> 0 -> h_kind h <> kHandleFile) rows -> Forall (fun h => h_serial h <> 0 -> h_kind h <> kHandleFile) rows'.
Proof.
  intros Hstep Hr. destruct Hstep as [|j h0 h Hm Hj H0 Hs Hbd Hk|j h h' Hm Hj H0 Hbd Hk Hp|j h Hm Hj H0 Hbd|Hm|sector index first size Hm Hw Hr'].
  - exact Hr.
  - apply Forall_insert; [exact Hr|]. intros _ E. specialize (Hk E). discriminate.
  - rewrite Forall_lookup in Hr. destruct (Hr j h Hj H0 Hk).
  - apply Forall_insert; [exact Hr|]. cbn. congruence.
  - apply Forall_map. eapply Forall_impl; [exact Hr|]. intros h Hh. destruct (_ && _); [cbn; congruence|exact Hh].
  - discriminate.
Qed.

(** The device and the table are as they were. *)
Definition untouched s s' : Prop := g_blk s' = g_blk s /\ same_table s s'.
#[local] Instance untouched_looks : Looks untouched.
Proof.
  split; [| |now split..].
  - now split.
  - intros s1 s2 s3 [E1 T1] [E2 T2]. split; [congruence|]. now apply (looks_trans s1 s2 s3).
Qed.
#[local] Hint Resolve untouched_looks : keeping.

Definition stays {A} (m : M A) : Prop := forall s x s', nobody_writes s -> m s = Some (x, s') -> g_blk s' = g_blk s.

Lemma stays_same {A} (m : M A) : keeps untouched m -> stays m.
Proof. intros Hm s x s' _ Hs. now apply (Hm s x). Qed.
Lemma stays_then {A B} (m : M A) (k : A -> M B) : keeps untouched m -> (forall x, stays (k x)) -> stays (mbind m k).
Proof.
  intros Hm Hk s y s' [Hw Hr] Hs. unfold mbind in Hs. destruct (m s) as [[x s1]|] eqn:E; [|discriminate]. destruct (Hm s x s1 E) as (E1 & E2 & E3 & E4).
  rewrite <- E1. apply (Hk x s1 y s'); [|exact Hs]. split; [congruence|now rewrite E2].
Qed.
Lemma stays_writable {B} (k : bool -> M B) : stays (k false) -> stays (mbind (mget g_writable) k).
Proof. intros Hk s y s' Hro Hs. apply (Hk s y s' Hro). unfold mbind, mget in Hs. now rewrite (proj1 Hro) in Hs. Qed.
Lemma stays_last {A B} (m : M A) (f : A -> B) : stays m -> stays (mbind m (fun x => mret (f x))).
Proof.
  intros Hm s y s' Hro Hs. unfold mbind in Hs. destruct (m s) as [[x s1]|] eqn:E; [|discriminate]. apply result_state in Hs as <-. now apply (Hm s x).
Qed.
(** A row found is not one to write through. *)
Lemma stays_lookup serial badge {B} (k : option nat -> M B) :
  stays (k None) ->
  (forall j s x s' h, g_handles s !! j = Some h -> h_kind h <> kHandleFile -> k (Some j) s = Some (x, s') -> g_blk s' = g_blk s) ->
  stays (mbind (handle_lookup serial badge) k).
Proof.
  intros Hnone Hrow s x s' Hro Hs. unfold mbind in Hs. destruct (handle_lookup serial badge s) as [[[j|] s1]|] eqn:E; [| |discriminate].
  - pose proof (lookup_row _ _ _ _ _ E) as (h & Hj & Hh & Hne & Hb). assert (s1 = s) as -> by (symmetry; exact (result_state _ _ _ _ E)).
    apply (Hrow j s x s' h Hj); [|exact Hs]. destruct Hro as [_ Hro]. rewrite Forall_lookup in Hro. apply (Hro j h Hj). congruence.
  - assert (s1 = s) as -> by (symmetry; exact (result_state _ _ _ _ E)). now apply (Hnone s x).
Qed.

Ltac stay :=
  repeat (intros; first
    [ solve [apply stays_same; keep]
    | match goal with
      | |- stays (mbind (mget g_writable) _) => apply stays_writable; cbn [negb orb]
      | |- stays (mbind _ _) => apply stays_then; [solve [keep]|intros]
      | |- stays (if ?b then _ else _) => destruct b
      | |- stays (match ?x with _ => _ end) => destruct x
      end
    | progress cbv zeta beta ]).

Section Staying.
Context {turns : Turns}.

Lemma stays_write words badge : stays (@answer_write D _ words badge).
Proof.
  unfold answer_write. destruct (_ <? 3); [stay|]. apply stays_lookup; [stay|]. intros j s x s' h Hj Hk. unfold mbind at 1, mget.
  rewrite (row_at_lookup s j h Hj), (proj2 (Z.eqb_neq _ _) Hk). cbn [negb orb]. intros Hr. now apply result_state in Hr as <-.
Qed.
Lemma stays_write_frame words badge frame : stays (@answer_write_frame D _ words badge frame).
Proof.
  unfold answer_write_frame. destruct (_ <? 4); [stay|]. apply stays_lookup; [stay|]. intros j s x s' h Hj Hk.
  destruct frame; try (intros Hr; now apply result_state in Hr as <-). unfold mbind at 1, mget.
  rewrite (row_at_lookup s j h Hj), (proj2 (Z.eqb_neq _ _) Hk). cbn [negb orb]. intros Hr. now apply result_state in Hr as <-.
Qed.
Lemma stays_close words badge : stays (@answer_close D words badge).
Proof.
  unfold answer_close. destruct (_ <? 1); [stay|]. apply stays_lookup; [stay|]. intros j s x s' h _ _ Hr.
  cbv beta iota zeta delta [mbind mget put_row mput mret] in Hr. now apply result_state in Hr as <-.
Qed.
Lemma stays_reap words : stays (@answer_reap D words).
Proof.
  unfold answer_reap. destruct (_ <? 1); [stay|]. intros s x s' _ Hr. cbv beta iota zeta delta [mbind handle_reap mret] in Hr. now apply result_state in Hr as <-.
Qed.
Lemma stays_mkdir words : stays (@answer_mkdir D _ _ words).
Proof. unfold answer_mkdir. stay. Qed.
Lemma stays_remove words : stays (@answer_remove D _ _ words).
Proof. unfold answer_remove. stay. Qed.
Lemma stays_rename words : stays (@answer_rename D _ _ words).
Proof. unfold answer_rename. stay. Qed.
Lemma stays_truncate words : stays (@answer_truncate D _ _ words).
Proof. unfold answer_truncate. stay. Qed.

Lemma stays_serve stale method words badge frame : method <> volume.kMethodOpen -> stays (@serve D _ _ stale method words badge frame).
Proof.
  intros Hopen. assert (Hplain : forall m : M (list Z), stays m -> stays (let* r := m in mret (r, frame))) by (intros m Hm; now apply (stays_last m (fun r => (r, frame)))).
  unfold serve. cbv zeta.
  repeat match goal with
  | |- stays (if ?a =? ?b then _ else _) => destruct (Z.eqb_spec a b) as [E|_]; [try contradiction|]
  | |- stays (if ?b then _ else _) => destruct b
  end;
  first [ apply Hplain; first
            [ apply stays_write | apply stays_write_frame | apply stays_close | apply stays_reap | apply stays_mkdir | apply stays_remove
            | apply stays_rename | apply stays_truncate | solve [apply stays_same; keep] ]
        | solve [apply stays_same; keep] ].
Qed.
End Staying.

(** C25: a volume that is not writable is not written.  From a state in which
    nobody may write, and after any number of calls that end, no call but an open
    that ends has changed the device, and no call, an open included, leads to a
    state in which somebody may write. *)
Theorem read_only_kept s n s1 stale method words badge frame r s2 :
  nobody_writes s -> reached s n s1 -> serves stale method words badge frame s1 r s2 ->
  nobody_writes s1 /\ nobody_writes s2 /\ (method <> volume.kMethodOpen -> g_blk s2 = g_blk s1).
Proof.
  intros Hro Hreach Hs.
  assert (Hkeep : forall a stale method words badge frame r b, nobody_writes a -> serves stale method words badge frame a r b -> nobody_writes b).
  { clear. intros a stale method words badge frame r b [Hw Hr] [turns Hs]. apply serve_steps in Hs as [Hs Hw']. rewrite Hw in Hs. split; [congruence|].
    now apply (step_read_only _ _ _ _ _ _ _ _ Hs). }
  assert (Hro1 : nobody_writes s1) by (clear Hs; induction Hreach; eauto). splits; [exact Hro1|now apply (Hkeep s1 _ _ _ _ _ _ _ Hro1 Hs)|].
  intros Hm. destruct Hs as [turns Hs]. now apply (stays_serve stale method words badge frame Hm s1 r s2).
Qed.
End Calls.

(** * On a small volume *)

Definition open_create : Z * list Z := (volume.kMethodOpen, path_words a_txt ++ [volume.kOpenCreate]).
Definition closed_once : option (list (list Z) * Service Disk.disk) := calls fresh [open_create; (volume.kMethodClose, [1])].

Lemma stale_handle_refused_witness :
  exists s s' r, closed_once = Some ([[1]; [1]], s) /\ serve [] volume.kMethodOpen (path_words a_txt ++ [volume.kOpenRead]) 9 NoFrame s = Some (r, s') /\
    handle_lookup 1 7 s' = Some (None, s').
Proof.
  destruct closed_once as [[rs s]|] eqn:E; [|vm_compute in E; discriminate].
  assert (Hs : (fun p => (p.1, g_handle_serial p.2, map h_serial (g_handles p.2))) <$> closed_once = Some ([[1]; [1]], 1, [0; 0; 0; 0])) by (vm_compute; reflexivity).
  rewrite E in Hs. injection Hs as -> Hserial Hrows.
  destruct (serve [] volume.kMethodOpen (path_words a_txt ++ [volume.kOpenRead]) 9 NoFrame s) as [[r s']|] eqn:E2.
  - exists s, s', r. splits; auto. apply (stale_handle_refused s 1 s' 1 7).
    + eapply reached_call; [apply reached_start|exists no_more_turns; exact E2].
    + lia.
    + rewrite Hserial. lia.
    + apply (Forall_map h_serial (fun x => x <> 1)). rewrite Hrows. repeat constructor; lia.
  - exfalso. assert (Hv : (fun p => bool_decide (is_Some (fst <$> serve [] volume.kMethodOpen (path_words a_txt ++ [volume.kOpenRead]) 9 NoFrame p.2))) <$> closed_once = Some true) by (vm_compute; reflexivity).
    rewrite E in Hv. cbn [fmap option_fmap option_map snd] in Hv. rewrite E2 in Hv. discriminate.
Defined.

(** Another badge's write through a handle changes nothing of it; its truncate of
    the file moves the handle's end. *)
Definition opened_once : option (list (list Z) * Service Disk.disk) := calls fresh [open_create].
Definition grow_call : list Z := path_words a_txt ++ [700].
Lemma handles_private_witness :
  exists s h, opened_once = Some ([[1]], s) /\ g_handles s !! 0%nat = Some h /\ h_badge h = 7 /\ h_size h = 0 /\
    (exists s' r, serve [] volume.kMethodWrite [1; 0; 5; hello] 9 NoFrame s = Some (r, s') /\ g_handles s' !! 0%nat = Some h) /\
    (exists s' r first, serve [] volume.kMethodTruncate grow_call 9 NoFrame s = Some (r, s') /\ truncates grow_call s 3 1 first 700 /\
       g_handles s' !! 0%nat = Some (mkHandle 1 7 0 700 3 1 first kHandleFile)).
Proof.
  destruct opened_once as [[rs s]|] eqn:E; [|vm_compute in E; discriminate].
  assert (Hs : (fun p => (p.1, g_handles p.2 !! 0%nat)) <$> opened_once = Some ([[1]], Some (mkHandle 1 7 0 0 3 1 0 kHandleFile))) by (vm_compute; reflexivity).
  rewrite E in Hs. cbn [fmap option_fmap option_map fst snd] in Hs. injection Hs as -> Eh.
  assert (Hrun : forall method words, (fun p => bool_decide (is_Some (fst <$> serve [] method words 9 NoFrame p.2))) <$> opened_once = Some true ->
    exists r s', serve [] method words 9 NoFrame s = Some (r, s')).
  { intros method words Hv. rewrite E in Hv. cbn [fmap option_fmap option_map snd] in Hv. injection Hv as Hv. apply bool_decide_eq_true in Hv as [rep Hv].
    destruct (serve [] method words 9 NoFrame s) as [[r s']|]; [eauto|discriminate]. }
  exists s, (mkHandle 1 7 0 0 3 1 0 kHandleFile). splits; auto.
  - destruct (Hrun volume.kMethodWrite [1; 0; 5; hello] ltac:(vm_compute; reflexivity)) as (r & s' & E2). exists s', r. split; [exact E2|].
    destruct (handles_private [] volume.kMethodWrite [1; 0; 5; hello] 9 NoFrame s r s' 0 _ E2 Eh) as [Hsame|[Hm _]];
      [discriminate|discriminate|discriminate|exact Hsame|discriminate].
  - destruct (Hrun volume.kMethodTruncate grow_call ltac:(vm_compute; reflexivity)) as (r & s' & E2).
    assert (Hz : (fun p => (fun q => h_size <$> g_handles q.2 !! 0%nat) <$> serve [] volume.kMethodTruncate grow_call 9 NoFrame p.2) <$> opened_once = Some (Some (Some 700)))
      by (vm_compute; reflexivity).
    rewrite E in Hz. cbn [fmap option_fmap option_map snd] in Hz. rewrite E2 in Hz. cbn [fmap option_fmap option_map snd] in Hz.
    destruct (handles_private [] volume.kMethodTruncate grow_call 9 NoFrame s r s' 0 _ E2 Eh) as [Hsame|(_ & first & size & Ht & Hrow)];
      [discriminate|discriminate|discriminate|rewrite Hsame in Hz; discriminate|]. cbn in Ht, Hrow. rewrite Hrow in Hz. injection Hz as ->.
    exists s', r, first. splits; auto.
Defined.

(** A volume that is not writable, asked to make a directory. *)
Lemma read_only_kept_witness :
  exists r s', serve [] volume.kMethodMkdir (path_words sub) 7 NoFrame (read_only fresh) = Some (r, s') /\ nobody_writes s' /\ g_blk s' = g_blk fresh.
Proof.
  assert (Hro : nobody_writes (read_only fresh)) by (split; [reflexivity|repeat constructor; cbn; congruence]).
  destruct (serve [] volume.kMethodMkdir (path_words sub) 7 NoFrame (read_only fresh)) as [[r s']|] eqn:E; [|vm_compute in E; discriminate].
  exists r, s'. destruct (read_only_kept _ 0 _ [] volume.kMethodMkdir (path_words sub) 7 NoFrame r s' Hro (reached_start _) (ex_intro _ no_more_turns E)) as (_ & H2 & H3).
  split; [reflexivity|]. split; [exact H2|]. apply H3. discriminate.
Defined.

(** Any caller may drop any badge's handles. *)
Example anyone_reaps :
  (fun p => (fun q => (q.1.1, map h_serial (g_handles q.2))) <$> serve [] volume.kMethodReap [7] 9 NoFrame p.2) <$> opened_once = Some (Some ([1], [0; 0; 0; 0])).
Proof. vm_compute. reflexivity. Qed.
